(* ===== verification/_CoqProject ===== *)
-Q . S2P
Prelude.v
Base64.v
Sequence.v
Claim.v
Producers.v
RingBuffer.v
Barrier.v
WorkerPool.v
Locks.v
Text.v
TimingCtx.v
Settings.v
Uri.v
Topic.v
Message.v
Matching.v
LongPolling.v
Rbac.v
Service.v
Subscriptions.v
Pool.v
Broker.v
IoBuffer.v
MultiArray.v
Yas.v
YasHeader.v
Serialiser.v
SerialiserSpec.v
SerialiserSafety.v
Worker.v
Session.v
Dns.v
Client.v
ClientContext.v
Delivery.v
BasicSetting.v
Dsl.v
Credit.v
System.v
ThreadPool.v
CmwLight.v
BareSpec.v
CmwLightSpec.v
CmwLightLimits.v
Json.v
JsonText.v
JsonValues.v
JsonSpec.v
JsonLimits.v
Mime.v
Socket.v
Outcome.v
Rest.v
RestServer.v
RestSpec.v
RestPolls.v
RestSystem.v
RestRuns.v
RestIds.v
RestConnections.v
RestResults.v
RestLimits.v
RestFiles.v
RestClient.v
RestLink.v
RestAsk.v
RestHear.v
RestFollow.v
RestFetch.v
