(* ===== verification/Prelude.v ===== *)
(** * OpenCMW: a verification library for [src/]

    OpenCMW is a messaging middleware in C++: clients ask services, provided by
    workers, through a broker (Majordomo), subscribe to their notifications,
    and exchange objects in self-describing formats; inside a process, events go
    through a lock-free ring buffer (the disruptor).  This library models its
    own logic from the headers under [src/src/] and proves what makes it
    correct.  Every definition carries the name of what it translates; the
    paths below are relative to [src/src/].

    ** The parts

    Shared: [Prelude] (bytes, results with exceptions, machine integers as [Z]
    with the wrap written out: [wrapu], [wraps], [in_u], [in_s]; list lemmas;
    the entries of a map; the hint databases) and [Text] (numbers in text).

    Texts and addresses, all in [core/include/]: [Uri] (URI.hpp), [Topic]
    (Topic.hpp), [TimingCtx] (TimingCtx.hpp), [LongPolling]
    (LongPollingBatch.hpp), [Mime] (MIME.hpp); [Base64] (majordomo/base64pp.hpp).

    Majordomo, in [majordomo/include/majordomo/]: [Message] (core MdpMessage.hpp
    and zmq ZmqUtils.hpp: frames, sending, receiving), [Rbac] (Rbac.hpp),
    [Matching] (core Filters.hpp, SubscriptionMatcher.hpp); the broker in layers,
    each a state of its own that the next one contains: [Service] (the request
    queues of a service), [Subscriptions] (the tables of topics), [Pool] (workers,
    services and dispatch), [Broker] (the whole state and the message loop, in a
    state monad with exceptions; the text of an empty view, which [Pool.removeSlash]
    would read, is taken for empty); [Worker] (BasicWorker of Worker.hpp, in a monad
    of the same kind); [Session] puts worker and broker together, [Credit] counts what
    the broker sends to one worker, and [System] is the broker with any number of
    workers that keep to the dialog of [Worker].

    Clients, in [client/include/]: [Client] (Client.hpp, ClientCommon.hpp: the two
    classes of clients and MDClientCtx, which numbers requests and calls back),
    [ClientContext] (ClientContext.hpp: the commands of any thread through a ring
    buffer, against the interface [ClientBase] of the implementations); [Delivery]
    puts publisher and subscriber together.

    REST: [Outcome] (a monad for code that may be undefined); [Socket]
    (rest/RestUtils.hpp: the states of a connection, the buffer before a socket);
    the server in majordomo/RestServer.hpp: [Rest] (one session: requests in
    pieces, long polls, the cache of notifications, responses, the calls of nghttp2
    and nghttp3), [RestServer] (all sessions over TCP and QUIC, the events of the
    server), [RestFiles] (majordomo/Rest.hpp: the handlers that serve files, and how
    a body is fetched); [RestSpec] says what a client may expect of the history of a
    topic, without a cache; [RestPolls], [RestSystem], [RestRuns] and [RestIds] carry
    the invariants through every event, [RestConnections] says what one connection is
    given to send and what of it outlives the events of the others, [RestResults] has
    the theorems and [RestLimits] evaluates runs that go wrong.  [RestClient]
    (client/RestClientNative.hpp) is the client: requests, redirections,
    subscriptions as long polls.  [RestLink] puts one client and the server on a
    connection; [RestAsk] is what a poll is for the server, [RestHear] what an answer
    is for the client, and [RestFollow] the loop that they make.  [RestFetch]
    (client/RestClientEmscripten.hpp) is the client in a browser, with the table of
    its fetches; its flag is stopped from another thread, between two loads of the
    flag by the worker as well as between two handlers.

    Serialisation, in [serialiser/include/]: [IoBuffer] (IoBuffer.hpp),
    [MultiArray] (MultiArray.hpp), [Yas] and [YasHeader] (IoSerialiserYaS.hpp:
    values, then headers), [Serialiser] (IoSerialiser.hpp: objects with nested
    classes, over the class description that reflection gives); [SerialiserSpec]
    states what reading a written object means, without bytes, and proves that
    the reader does that; [SerialiserSafety] is about reading any bytes.  [Dns]
    (services/: the name service of signals) stores its entries through them.
    The other formats share the classes of [Serialiser] and the specification
    [BareSpec]: [CmwLight] (IoSerialiserCmwLight.hpp) with [CmwLightSpec], and
    [Json] (IoSerialiserJson.hpp) with [JsonText] (texts, and reading past them),
    [JsonValues] (the text of every value) and [JsonSpec]; [CmwLightLimits] and
    [JsonLimits] evaluate what the formats cannot carry.

    The disruptor, in [disruptor/include/]: [Sequence] (Sequence.hpp), [Claim]
    (ClaimStrategy.hpp, with the interface [ClaimStrategy]), [Producers] (the
    multi-threaded strategy as an interleaving), [RingBuffer] (RingBuffer.hpp,
    against the interface), [Barrier] (WaitStrategy.hpp,
    ProcessingSequenceBarrier.hpp, BatchEventProcessor.hpp, SpinWait.hpp),
    [WorkerPool] (WorkProcessor.hpp, WorkerPool.hpp), [Locks]
    (ReaderWriterLock.hpp, AtomicMutex, the spin lock of Transactions.hpp),
    [Settings] (Transactions.hpp), [BasicSetting] (BasicSetting.hpp: a value shared
    with a real-time thread), [Dsl] (Disruptor.hpp, EventHandlerGroup.hpp,
    ConsumerRepository.hpp: the graph of consumers and its gating sequences).
    [ThreadPool] (core ThreadPool.hpp) is an interleaving of workers, callers and
    shutdowns.

    ** How code becomes definitions

    A pure function is a function; code that changes an object takes and returns
    its state, a record with the fields of the class; larger handlers are written
    in a monad of state and endings.  A C++ exception is [Throw] (or [Exn], or
    [Thrown]); undefined behaviour (access outside memory, an erased element, an
    empty optional) is [None] or [Undefined], so that safety theorems say it does
    not happen.  Concurrent code is cut at its atomic accesses, as step relations
    over any number of threads ([Producers], [WorkerPool], [Locks], [BasicSetting],
    [ThreadPool]), with
    invariants by induction over the steps.  What comes from outside is an
    argument: the messages received, the answers of ZeroMQ, the readings of the
    clock, the order in which hash tables are walked, uninitialised values, the
    callbacks of the application.  Time stands in the unit of the code.

    The target is x86-64: [char] is signed, integers are little-endian,
    [std::size_t] has 64 bits.  Floating-point numbers are their bits.  The sequences
    of the disruptor are [std::int64_t] in the code and unbounded here ([Claim],
    [Producers], [RingBuffer], [Barrier], [Dsl]): at a claim a nanosecond it takes them
    three centuries to overflow, which would be undefined; the flags and indices that
    are computed from them wrap as in the code.

    Loops are structural where the data allows it.  Loops that wait are given the
    list of what they observe and are still waiting at its end.  Fuel is used in
    [Serialiser.loop], where a turn reads one field: [deserialise_refines] bounds
    it by the number of fields that were written, [deserialise_terminates] by the
    number of bytes (so it is in [CmwLight] and [Json], see [cmw_refines] and
    [json_refines]; JSON that is read past has its fuel from its length, which is
    always enough: [skip_terminates]); in the binary search of [Rest.partition_point],
    by the length of the list, and in [RestClient.send_polls], where two turns are
    enough unless the index is the largest ([largest_index_loops]); and in the parsers of [Uri], [Broker.split] and
    [LongPolling], which are called with the length of their input, and consume
    at least a character a turn.

    ** What the theorems show

    - Safety of the broker, its pool of workers and its dispatch ([broker_safe],
      [pool_safety], [dispatch_spec]), as long as workers are polite; workers that keep
      to their dialog are, so that the whole system is safe ([system_safe]) and a worker
      has one request at a time ([one_request_at_a_time]); routing of replies ([reply_routed]) and
      notifications ([notify_reaches], [filters_in_sync]), progress of the queues
      ([processClients_progress]).
    - The worker keeps its side of the protocol on every connection
      ([worker_keeps_protocol]), calls its handler only as the roles allow
      ([access_control]), forwards notifications ([notification_forwarded]) and
      connects again, and announces itself, when the broker is silent and its passes
      begin more than a heartbeat interval apart ([silent_broker_reconnects]);
      [forgotten_worker_quits] is what the two together do otherwise.
    - The client calls each callback at most once, and with what carries its number
      ([callbacks_once]); an idle client sends a request and hands over its answer when
      that is the next to arrive ([request_answered]), and so with the notifications of
      a subscription ([publication_called_back]); the ring buffer before it is a bounded queue
      ([queue_refines]).
    - A long poll over REST is answered from the history of its topic
      ([long_poll_refines]), a notification answers exactly the polls it can
      ([notification_answers]), none is forgotten ([no_poll_forgotten]), and each is
      answered, over TCP and QUIC and whatever else happens meanwhile
      ([waiting_poll_answered]); a request is asked of the broker once, and the broker's
      answer goes to the stream that asked ([answer_routed]).  A client that follows a
      topic without parameters, alone on one connection, calls back with its
      notifications in their order, none twice ([subscription_in_order]),
      and catches up when it is quiet ([subscription_catches_up]).  In a browser each
      subscription has one fetch of its own ([subscription_keeps_fetch]), and a client
      that is stopped does at most what it had checked before, and leaves no fetch open
      once the cleanup that it queued has run ([stop_releases_all]).
    - Reading refines the specification of merging members
      ([deserialise_refines]), an object comes back as it was
      ([object_roundtrip]) and reading ends ([deserialise_terminates]); writing stays in its memory
      ([puts_in_bounds]).
    - The same for the formats without units, where they allow it ([cmw_refines],
      [cmw_roundtrip], [json_refines], [json_roundtrip]); a JSON text of any kind is read
      past ([json_skipped]).
    - The name service: registration ([addEntry_refines]), its handler
      ([handler_spec]), its file ([storage_persists]).
    - The disruptor: no overrun, disjoint claims, visibility ([no_overrun],
      [claims_disjoint], [available_iff_published]), order ([fifo],
      [batch_in_order]), each event once ([each_event_once]), locks exclude
      ([readers_exclude_writers]), settings refine a history ([commit_refines],
      [get_refines]), a reader sees what was published ([readers_see_published]) and
      keeps what it holds ([held_object_stays]); from every graph the builder makes the
      producers wait for every consumer ([gating_covers]), and a shutdown ends: it has
      waited for the events and told every consumer to halt, or its time was up
      ([shutdown_drained]).
    - The thread pool calls no task twice and loses none before it is shut down
      ([every_task_once]), takes what is queued ([queued_task_taken]), in the
      order of priorities ([urgent_first]), and keeps its threads ([threads_kept]).
    - Round trips of every text and wire format, of messages ([message_roundtrip]) and
      of batches ([batch_roundtrip]) among them; Base64 is that of RFC 4648, which is
      stated bit by bit ([encode_rfc4648]).
    - Lemmas at the end of each file, under the title of what goes wrong, that
      evaluate the definitions on inputs the code does not handle as it means to.

    ** What is not modelled

    Of REST: TLS and certificates, the packets and the cryptography of QUIC, the
    creation of sockets; of the client in a browser, calls from inside
    [emscripten_fetch_close] and a callback that stops the client.  The HTTP libraries are what
    they call and what they say to a response; QUIC's packets are what is called when
    one is read.  OAuth and key handling: glue around HTTP and cryptography
    libraries.  The other formats (YAML, the query
    serialiser, Mustache), and arrays and maps of classes in CmwLight and JSON.  The typed [Worker], which adds the conversion of requests
    to what [Worker] models.  In [Client], the start and the end of its threads, and
    the data race of its tables: a request falls between two passes of the loop.  The choice of
    exception handlers in the builder of the disruptor.  Formatting and logging.  Memory is
    sequentially consistent in the interleavings, where the code mostly uses the
    default order.  The allocators of [IoBuffer]. *)

From stdpp Require Export functions prelude gmap strings.
From Stdlib Require Export Ascii ZArith Lia.

(** ** Results of fallible code

    The exception types the modelled code throws; the formatted message is
    kept only where another part of the program looks at it. *)

Inductive exn : Type :=
  | URISyntaxException
  | InvalidArgument
  | OutOfRange
  | NoCapacityException
  | AlertException
  | TimeoutException
  | RuntimeError
  | ProtocolException
  | LogicError
  | BadOptionalAccess
  | UserException.

#[export] Instance exn_eq_dec : EqDecision exn.
Proof. solve_decision. Defined.

Inductive result (A : Type) : Type :=
  | Ok (a : A)
  | Throw (e : exn).
Arguments Ok {A} a.
Arguments Throw {A} e.

#[export] Instance result_eq_dec {A} `{EqDecision A} : EqDecision (result A).
Proof. solve_decision. Defined.

Definition rbind {A B} (m : result A) (k : A → result B) : result B :=
  match m with
  | Ok a => k a
  | Throw e => Throw e
  end.

Declare Scope result_scope.
Delimit Scope result_scope with result.
Notation "x <-! m ;; k" := (rbind m (λ x, k))
  (at level 100, m at next level, right associativity) : result_scope.

(** [noexcept] code reads the value out of a [result] it knows to be [Ok]. *)
Definition is_ok {A} (r : result A) : bool :=
  match r with Ok _ => true | Throw _ => false end.

Lemma rbind_Ok_inv {A B} (m : result A) (k : A → result B) b :
  rbind m k = Ok b → ∃ a, m = Ok a ∧ k a = Ok b.
Proof. destruct m; simpl; naive_solver. Qed.

(** ** Byte strings

    A C++ [std::string] or [std::string_view] is a list of bytes; [ascii] is
    Rocq's 8-bit character.  [str] writes a literal. *)

Abbreviation bytes := (list ascii).

Definition str (s : string) : bytes := String.list_ascii_of_string s.
Arguments str s%_string.

Definition code (c : ascii) : Z := Z.of_N (N_of_ascii c).
Definition chr (z : Z) : ascii := ascii_of_N (Z.to_N (z mod 256)).

(** [char] is signed on the targets the code is built for. *)
Definition schar (c : ascii) : Z := if (code c <? 128)%Z then code c else (code c - 256)%Z.

Definition eqc (c d : ascii) : bool := bool_decide (c = d).

Lemma eqc_true c d : eqc c d = true ↔ c = d.
Proof. apply bool_decide_eq_true. Qed.
Lemma eqc_refl c : eqc c c = true.
Proof. by apply eqc_true. Qed.
Lemma eqc_false c d : eqc c d = false ↔ c ≠ d.
Proof. apply bool_decide_eq_false. Qed.

Lemma code_range c : (0 ≤ code c < 256)%Z.
Proof. by destruct c as [[] [] [] [] [] [] [] []]. Qed.

Lemma chr_code c : chr (code c) = c.
Proof. by destruct c as [[] [] [] [] [] [] [] []]. Qed.

Lemma code_inj c d : code c = code d → c = d.
Proof. intros H. rewrite <- (chr_code c), <- (chr_code d). by rewrite H. Qed.

Lemma code_chr z : code (chr z) = (z mod 256)%Z.
Proof.
  unfold code, chr. pose proof (Z.mod_pos_bound z 256 eq_refl).
  rewrite N_ascii_embedding; [lia|].
  apply N2Z.inj_lt. rewrite Z2N.id; lia.
Qed.

(** Every property of all 256 characters that evaluates is decided by
    evaluation. *)
Definition all_chars : list ascii := (λ n, ascii_of_nat n) <$> seq 0 256.

Lemma all_chars_spec (P : ascii → bool) :
  forallb P all_chars = true → ∀ c, P c = true.
Proof.
  intros H c. rewrite forallb_forall in H. apply H.
  apply list_elem_of_In. unfold all_chars. apply list_elem_of_fmap.
  exists (nat_of_ascii c). split; [by rewrite ascii_nat_embedding|].
  apply elem_of_seq. pose proof (nat_ascii_bounded c). lia.
Qed.

Ltac by_all_chars c :=
  revert c;
  match goal with
  | |- ∀ c, @?P c = true => apply (all_chars_spec P); vm_compute; reflexivity
  end.

(** ** Character classes of the C locale *)

Definition in_range (lo hi : Z) (c : ascii) : bool := ((lo <=? schar c) && (schar c <=? hi))%Z.

Definition is_digit (c : ascii) : bool := in_range 48 57 c.
Definition is_upper (c : ascii) : bool := in_range 65 90 c.
Definition is_lower (c : ascii) : bool := in_range 97 122 c.
Definition is_alpha (c : ascii) : bool := is_upper c || is_lower c.
Definition is_alnum (c : ascii) : bool := is_alpha c || is_digit c.
Definition is_xdigit (c : ascii) : bool := is_digit c || in_range 65 70 c || in_range 97 102 c.
Definition to_lower (c : ascii) : ascii := if is_upper c then chr (code c + 32) else c.
Definition to_upper (c : ascii) : ascii := if is_lower c then chr (code c - 32) else c.

(** ** Searching byte strings

    [None] stands for [npos]. *)

Section find.
Context (p : ascii → bool).

Fixpoint find_if (s : bytes) : option nat :=
  match s with
  | [] => None
  | c :: s' => if p c then Some 0 else S <$> find_if s'
  end.

Definition find_from (s : bytes) (pos : nat) : option nat :=
  Nat.add pos <$> find_if (drop pos s).

Fixpoint rfind_if (s : bytes) : option nat :=
  match s with
  | [] => None
  | c :: s' => match rfind_if s' with
               | Some i => Some (S i)
               | None => if p c then Some 0 else None
               end
  end.

Lemma find_if_None s : find_if s = None ↔ Forall (λ c, p c = false) s.
Proof.
  induction s as [|c s IH]; simpl; [by split; [constructor|]|].
  destruct (p c) eqn:Hp.
  - split; [done|]. intros H. inversion H; congruence.
  - rewrite fmap_None, IH, Forall_cons_iff. tauto.
Qed.

Lemma find_if_app_l s t i : find_if s = Some i → find_if (s ++ t) = Some i.
Proof.
  revert i. induction s as [|c s IH]; simpl; intros i H; [done|].
  destruct (p c); [done|].
  destruct (find_if s) as [j|] eqn:E; [|done]. by rewrite (IH j).
Qed.

Lemma find_if_app_r s t :
  Forall (λ c, p c = false) s → find_if (s ++ t) = Nat.add (length s) <$> find_if t.
Proof.
  induction 1 as [|c s Hc _ IH]; simpl; [by destruct (find_if t)|].
  rewrite Hc, IH. by destruct (find_if t).
Qed.

Lemma find_if_stop s c t :
  Forall (λ c, p c = false) s → p c = true → find_if (s ++ c :: t) = Some (length s).
Proof.
  intros Hs Hc. rewrite find_if_app_r by done. simpl. rewrite Hc. simpl. f_equal. lia.
Qed.

Lemma find_if_Some s i :
  find_if s = Some i →
  ∃ c, s = take i s ++ c :: drop (S i) s ∧ p c = true ∧ Forall (λ c, p c = false) (take i s).
Proof.
  revert i. induction s as [|c s IH]; simpl; intros i H; [done|].
  destruct (p c) eqn:Hp.
  - simplify_eq. exists c. by repeat constructor.
  - destruct (find_if s) as [j|]; simplify_eq/=.
    destruct (IH j eq_refl) as (d & Hs & Hd & Ht).
    exists d. repeat split; [by rewrite <- Hs|done|by constructor].
Qed.

Lemma find_if_lt s i : find_if s = Some i → i < length s.
Proof.
  revert i. induction s as [|c s IH]; simpl; intros i H; [done|].
  destruct (p c); simplify_eq; [lia|].
  destruct (find_if s) as [j|]; simplify_eq/=. specialize (IH j eq_refl). lia.
Qed.
End find.

Fixpoint starts_with (s pre : bytes) {struct pre} : bool :=
  match pre, s with
  | [], _ => true
  | p :: pre', c :: s' => eqc c p && starts_with s' pre'
  | _ :: _, [] => false
  end.

Definition ends_with (s suf : bytes) : bool := starts_with (reverse s) (reverse suf).

Lemma starts_with_app pre s : starts_with (pre ++ s) pre = true.
Proof. induction pre as [|c pre IH]; simpl; [done|]. by rewrite eqc_refl. Qed.

Lemma starts_with_true s pre : starts_with s pre = true ↔ s = pre ++ drop (length pre) s.
Proof.
  split.
  - revert s. induction pre as [|p pre IH]; intros [|c s]; simpl; try done.
    rewrite andb_true_iff, eqc_true. intros [-> H]. f_equal. auto.
  - intros ->. apply starts_with_app.
Qed.

(** [std::string_view::find] of a string: the first occurrence. *)
Fixpoint find_sub (s needle : bytes) : option nat :=
  if starts_with s needle then Some 0
  else match s with
       | [] => None
       | _ :: s' => S <$> find_sub s' needle
       end.

Definition find_sub_from (s needle : bytes) (pos : nat) : option nat :=
  Nat.add pos <$> find_sub (drop pos s) needle.

Definition one_of (set : bytes) (c : ascii) : bool := existsb (eqc c) set.

(** [substr(pos, n)]; every use in the sources has [pos <= size()]. *)
Definition substr (s : bytes) (pos n : nat) : bytes := take n (drop pos s).

Lemma nth_drop_add {A} (s : list A) k i d : nth i (drop k s) d = nth (k + i) s d.
Proof.
  revert s. induction k as [|k IH]; intros [|x s]; simpl; auto. by destruct i.
Qed.

Fixpoint join (sep : bytes) (l : list bytes) : bytes :=
  match l with
  | [] => []
  | [x] => x
  | x :: l' => x ++ sep ++ join sep l'
  end.

(** ** Machine integers

    [wrapu w] and [wraps w] are the conversions to a [w]-bit unsigned and to
    a [w]-bit two's-complement integer. *)

Definition wrapu (w z : Z) : Z := (z mod 2 ^ w)%Z.
Definition wraps (w z : Z) : Z := ((z + 2 ^ (w - 1)) mod 2 ^ w - 2 ^ (w - 1))%Z.

Definition in_u (w z : Z) : Prop := (0 ≤ z < 2 ^ w)%Z.
Definition in_s (w z : Z) : Prop := (- 2 ^ (w - 1) ≤ z < 2 ^ (w - 1))%Z.

Lemma wrapu_id w z : in_u w z → wrapu w z = z.
Proof. apply Z.mod_small. Qed.

Lemma wrapu_range w z : (0 ≤ w)%Z → in_u w (wrapu w z).
Proof. intros. apply Z.mod_pos_bound. by apply Z.pow_pos_nonneg. Qed.

Lemma pow2_half w : (0 < w)%Z → (2 ^ w = 2 * 2 ^ (w - 1))%Z.
Proof. intros. rewrite <- Z.pow_succ_r by lia. f_equal. lia. Qed.

Lemma wraps_id w z : (0 < w)%Z → in_s w z → wraps w z = z.
Proof.
  unfold in_s, wraps. intros Hw Hz. pose proof (pow2_half w Hw).
  rewrite Z.mod_small; lia.
Qed.

Lemma wraps_range w z : (0 < w)%Z → in_s w (wraps w z).
Proof.
  unfold in_s, wraps. intros Hw. pose proof (pow2_half w Hw).
  pose proof (Z.mod_pos_bound (z + 2 ^ (w - 1)) (2 ^ w)). lia.
Qed.

(** ** Bit fields *)

Lemma land_mask n z : (0 ≤ n)%Z → Z.land z (2 ^ n - 1) = (z mod 2 ^ n)%Z.
Proof.
  intros. rewrite <- Z.land_ones by lia. f_equal. rewrite Z.ones_equiv. lia.
Qed.

Lemma land_shiftl_low a b n :
  (0 ≤ n)%Z → (0 ≤ b < 2 ^ n)%Z → Z.land (Z.shiftl a n) b = 0%Z.
Proof.
  intros Hn Hb. apply Z.bits_inj'. intros i Hi. rewrite Z.land_spec, Z.bits_0.
  destruct (Z.ltb_spec i n); [by rewrite Z.shiftl_spec_low|].
  rewrite <- (Z.mod_small b (2 ^ n)) by done.
  rewrite Z.mod_pow2_bits_high by lia. apply andb_false_r.
Qed.

Lemma lor_shiftl_add a b n :
  (0 ≤ n)%Z → (0 ≤ b < 2 ^ n)%Z → Z.lor (Z.shiftl a n) b = (a * 2 ^ n + b)%Z.
Proof.
  intros Hn Hb. pose proof (land_shiftl_low a b n Hn Hb).
  rewrite <- Z.shiftl_mul_pow2, Z.add_nocarry_lxor by done.
  by rewrite Z.lxor_lor.
Qed.

(** ** Counting over the members of a list *)

Definition total {A} (f : A → nat) (l : list A) : nat := sum_list_with f l.

Lemma total_app {A} (f : A → nat) l k : (total f (l ++ k) = total f l + total f k)%nat.
Proof. apply sum_list_with_app. Qed.

Lemma total_insert {A} (f : A → nat) l i x y :
  l !! i = Some x → (total f (<[i := y]> l) + f x = total f l + f y)%nat.
Proof.
  revert i. induction l as [|z l IH]; intros [|i] H; simplify_eq/=; unfold total; simpl; [lia|].
  specialize (IH i H). unfold total in IH. lia.
Qed.

Lemma total_le {A} (f g : A → nat) l : (∀ x, f x ≤ g x)%nat → (total f l ≤ total g l)%nat.
Proof. intros H. induction l as [|x l IH]; unfold total in *; simpl; [done|]. specialize (H x). lia. Qed.

Lemma total_const_1 {A} (l : list A) : total (λ _, 1%nat) l = length l.
Proof. induction l as [|x l IH]; unfold total in *; simpl; [done|]. by rewrite IH. Qed.

Lemma total_pos {A} (f : A → nat) l : (0 < total f l)%nat ↔ ∃ i x, l !! i = Some x ∧ (0 < f x)%nat.
Proof.
  split.
  - induction l as [|x l IH]; unfold total in *; simpl; [lia|]. intros H.
    destruct (decide (0 < f x)%nat) as [Hx|Hx]; [by exists 0%nat, x|].
    destruct IH as (i & y & Hi & Hy); [lia|]. by exists (S i), y.
  - intros (i & x & Hi & Hx). enough (f x ≤ total f l)%nat by lia. clear Hx. revert i Hi.
    induction l as [|y l IH]; intros [|i] Hi; simplify_eq/=; unfold total in *; simpl; [lia|].
    specialize (IH i Hi). lia.
Qed.

Lemma wrapu_add w a b : wrapu w (wrapu w a + b) = wrapu w (a + b).
Proof. unfold wrapu. apply Zplus_mod_idemp_l. Qed.

(** The entries of a map, as they are walked. *)
Lemma all_entries {V} (P : bytes → V → Prop) (m : gmap bytes V) es :
  es ≡ₚ map_to_list m → map_Forall P m → Forall (λ e, P e.1 e.2) es.
Proof.
  intros -> Hm%map_Forall_to_list. eapply Forall_impl; [exact Hm|]. by intros [k x].
Qed.
