(* ===== verification/Base64.v ===== *)
(** * Base64: [majordomo/base64pp.hpp]

    The encoder and decoder the REST server uses for HTTP headers.  Bytes are
    [ascii]; a table read outside the table is undefined behaviour in C++ and
    is [None] here, so that [decode_in_bounds] says it never happens. *)

From S2P Require Import Prelude.
Local Open Scope Z_scope.

Definition encode_table : bytes :=
  str "ABCDEFGHIJKLMNOPQRSTUVWXYZabcdefghijklmnopqrstuvwxyz0123456789+/".

Definition decode_table : list Z :=
  replicate 43 100 ++ [62] ++ replicate 3 100 ++ [63] ++ seqZ 52 10 ++ replicate 7 100
  ++ seqZ 0 26 ++ replicate 6 100 ++ seqZ 26 26 ++ replicate 5 100.

(** [encode_table\[i & 0b0011'1111\]]; the index is always in range. *)
Definition encode_at (i : Z) : ascii := nth (Z.to_nat (Z.land i 63)) encode_table Ascii.zero.

Definition encode_tripplet (a b c : ascii) : bytes :=
  let concat_bits := Z.lor (Z.lor (Z.shiftl (code a) 16) (Z.shiftl (code b) 8)) (code c) in
  [ encode_at (Z.shiftr concat_bits 18); encode_at (Z.shiftr concat_bits 12);
    encode_at (Z.shiftr concat_bits 6); encode_at concat_bits ].

(** The second test reads [(c >= 'a') && ('z')]: its right operand is a
    non-zero constant. *)
Definition is_valid_base64_char (c : ascii) : bool :=
  if (65 <=? schar c) && (schar c <=? 90) then true
  else if (97 <=? schar c) && true then true
  else if (48 <=? schar c) && (schar c <=? 57) then true
  else if (schar c =? 43) || (schar c =? 47) then true
  else false.

Definition is_valid_base64_str (s : bytes) : bool :=
  let n := length s in
  if negb (n mod 4 =? 0)%nat then false
  else if negb (forallb is_valid_base64_char (take (n - 2) s)) then false
  else
    let last := nth (n - 1) s Ascii.zero in
    let next_last := nth (n - 2) s Ascii.zero in
    if negb (is_valid_base64_char next_last)
    then eqc next_last "="%char && eqc last "="%char
    else is_valid_base64_char last || eqc last "="%char.

Definition decode_at (c : ascii) : option Z := decode_table !! Z.to_nat (code c).

Definition decode_quad (a b c d : ascii) : option bytes :=
  va ← decode_at a; vb ← decode_at b; vc ← decode_at c; vd ← decode_at d;
  let concat_bytes := Z.lor (Z.lor (Z.lor (Z.shiftl va 18) (Z.shiftl vb 12)) (Z.shiftl vc 6)) vd in
  Some [ chr (Z.land (Z.shiftr concat_bytes 16) 255);
         chr (Z.land (Z.shiftr concat_bytes 8) 255);
         chr (Z.land concat_bytes 255) ].

(** The loop over [i < full_tripples]. *)
Fixpoint encode_tripplets (input : bytes) (i n : nat) : bytes :=
  match n with
  | O => []
  | S n' =>
      match substr input (i * 3) 3 with
      | [a; b; c] => encode_tripplet a b c
      | _ => []
      end ++ encode_tripplets input (S i) n'
  end.

Definition encode (input : bytes) : bytes :=
  let size := length input in
  let full_tripples := (size / 3)%nat in
  encode_tripplets input 0 full_tripples ++
  match (size - full_tripples * 3)%nat, drop (full_tripples * 3) input with
  | 2%nat, [x; y] => take 3 (encode_tripplet x y (chr 0)) ++ ["="%char]
  | 1%nat, [x] => take 2 (encode_tripplet x (chr 0) (chr 0)) ++ ["="%char; "="%char]
  | _, _ => []
  end.

(** The loop over [i < full_quadruples]. *)
Fixpoint decode_quads (s : bytes) (i n : nat) : option bytes :=
  match n with
  | O => Some []
  | S n' =>
      q ← match substr s (i * 4) 4 with
          | [a; b; c; d] => decode_quad a b c d
          | _ => None
          end;
      r ← decode_quads s (S i) n';
      Some (q ++ r)
  end.

Definition decode_last (quad : bytes) : option bytes :=
  match quad with
  | [a; b; c; d] =>
      if eqc c "="%char then take 1 <$> decode_quad a b "A" "A"
      else if eqc d "="%char then take 2 <$> decode_quad a b c "A"
      else decode_quad a b c d
  | _ => None
  end.

(** [None]: a read outside [decode_table]; [Some None]: [std::nullopt]. *)
Definition decode (s : bytes) : option (option bytes) :=
  let size := length s in
  if (size =? 0)%nat then Some (Some [])
  else if negb (size mod 4 =? 0)%nat || negb (is_valid_base64_str s) then Some None
  else
    let full_quadruples := (size / 4 - 1)%nat in
    d ← decode_quads s 0 full_quadruples;
    l ← decode_last (substr s (full_quadruples * 4) 4);
    Some (Some (d ++ l)).

(** ** The encoder by structural recursion *)

Fixpoint by_triples (l : bytes) : bytes :=
  match l with
  | a :: b :: c :: r => encode_tripplet a b c ++ by_triples r
  | [a; b] => take 3 (encode_tripplet a b (chr 0)) ++ ["="%char]
  | [a] => take 2 (encode_tripplet a (chr 0) (chr 0)) ++ ["="%char; "="%char]
  | [] => []
  end.

Lemma list3_ind (P : bytes → Prop) :
  P [] → (∀ a, P [a]) → (∀ a b, P [a; b]) →
  (∀ a b c r, P r → P (a :: b :: c :: r)) → ∀ l, P l.
Proof.
  intros H0 H1 H2 H3 l.
  enough (P l ∧ (∀ a, P (a :: l)) ∧ (∀ a b, P (a :: b :: l))) by tauto.
  induction l as [|x l (IH0 & IH1 & IH2)]; repeat split; auto.
Qed.

(** ** Bit fields of a triple and of a quadruple *)

Lemma lor3 a b c :
  0 <= a < 256 → 0 <= b < 256 → 0 <= c < 256 →
  Z.lor (Z.lor (Z.shiftl a 16) (Z.shiftl b 8)) c = a * 65536 + b * 256 + c.
Proof.
  intros. change 16 with (8 + 8). rewrite <- Z.shiftl_shiftl by lia.
  rewrite <- Z.shiftl_lor, !lor_shiftl_add by (simpl; lia). lia.
Qed.

Lemma lor4 a b c d :
  0 <= a < 64 → 0 <= b < 64 → 0 <= c < 64 → 0 <= d < 64 →
  Z.lor (Z.lor (Z.lor (Z.shiftl a 18) (Z.shiftl b 12)) (Z.shiftl c 6)) d
  = a * 262144 + b * 4096 + c * 64 + d.
Proof.
  intros. change 18 with (6 + 6 + 6). change 12 with (6 + 6).
  rewrite <- !Z.shiftl_shiftl by lia.
  rewrite <- !Z.shiftl_lor, !lor_shiftl_add by (simpl; lia). lia.
Qed.

Lemma code_chr_id z : 0 <= z < 256 → code (chr z) = z.
Proof. intros. rewrite code_chr. by apply Z.mod_small. Qed.

(** The two tables are inverse to each other. *)
Lemma decode_encode_at i : decode_at (encode_at i) = Some (i mod 64).
Proof.
  assert (H : forallb (λ n, bool_decide
    (decode_at (nth n encode_table Ascii.zero) = Some (Z.of_nat n))) (seq 0 64) = true)
    by (vm_compute; reflexivity).
  rewrite forallb_forall in H. unfold encode_at.
  change 63 with (2 ^ 6 - 1). rewrite land_mask by lia. change (2 ^ 6) with 64.
  pose proof (Z.mod_pos_bound i 64 eq_refl).
  specialize (H (Z.to_nat (i mod 64))).
  rewrite bool_decide_eq_true in H. rewrite H; [f_equal; lia|].
  apply in_seq. lia.
Qed.

Lemma encode_at_valid i :
  is_valid_base64_char (encode_at i) = true ∧ encode_at i ≠ "="%char ∧ encode_at i ∈ encode_table.
Proof.
  assert (H : forallb (λ c, is_valid_base64_char c && negb (eqc c "=")
                            && bool_decide (c ∈ encode_table)) encode_table = true)
    by (vm_compute; reflexivity).
  rewrite forallb_forall in H. unfold encode_at.
  change 63 with (2 ^ 6 - 1). rewrite land_mask by lia. change (2 ^ 6) with 64.
  pose proof (Z.mod_pos_bound i 64 eq_refl).
  specialize (H (nth (Z.to_nat (i mod 64)) encode_table Ascii.zero)).
  rewrite !andb_true_iff, negb_true_iff, eqc_false, bool_decide_eq_true in H.
  destruct H as [[? ?] ?]; [|by auto].
  apply nth_In. change (length encode_table) with 64%nat. lia.
Qed.

Lemma decode_quad_encode_tripplet a b c :
  match encode_tripplet a b c with
  | [w; x; y; z] => decode_quad w x y z = Some [a; b; c]
  | _ => False
  end.
Proof.
  unfold encode_tripplet, decode_quad. rewrite !decode_encode_at. simpl.
  pose proof (code_range a). pose proof (code_range b). pose proof (code_range c).
  rewrite lor3 by done. set (v := _ + code c).
  rewrite !Z.shiftr_div_pow2 by lia.
  rewrite lor4 by (apply Z.mod_pos_bound; lia).
  assert (Hv : 0 <= v < 16777216) by (unfold v; lia).
  assert (Hw : v / 2 ^ 18 mod 64 * 262144 + v / 2 ^ 12 mod 64 * 4096
               + v / 2 ^ 6 mod 64 * 64 + v mod 64 = v).
  { change (2 ^ 18) with 262144. change (2 ^ 12) with 4096. change (2 ^ 6) with 64.
    Z.to_euclidean_division_equations. lia. }
  rewrite Hw.
  change 255 with (2 ^ 8 - 1). rewrite !land_mask by lia.
  change (2 ^ 16) with 65536. change (2 ^ 8) with 256.
  assert (v / 65536 mod 256 = code a) as -> by (unfold v; Z.to_euclidean_division_equations; lia).
  assert (v / 256 mod 256 = code b) as -> by (unfold v; Z.to_euclidean_division_equations; lia).
  assert (v mod 256 = code c) as -> by (unfold v; Z.to_euclidean_division_equations; lia).
  by rewrite !chr_code.
Qed.

(** What the decoder needs to know about four encoded characters. *)
Definition quad_of (w x y z : ascii) (bs : bytes) : Prop :=
  decode_quad w x y z = Some bs ∧
  Forall (λ c, is_valid_base64_char c = true ∧ eqc c "=" = false) [w; x; y; z].

Lemma encode_at_ok i :
  is_valid_base64_char (encode_at i) = true ∧ eqc (encode_at i) "=" = false.
Proof. rewrite eqc_false. pose proof (encode_at_valid i). tauto. Qed.

Lemma encode_tripplet_quad a b c :
  ∃ w x y z, encode_tripplet a b c = [w; x; y; z] ∧ quad_of w x y z [a; b; c].
Proof.
  eexists _, _, _, _. split; [reflexivity|]. split.
  - apply (decode_quad_encode_tripplet a b c).
  - repeat constructor; apply encode_at_ok.
Qed.

(** The tail of the input is encoded as if zero bytes followed. *)
Lemma encode_tripplet_two a b :
  ∃ w x y, encode_tripplet a b (chr 0) = [w; x; y; "A"%char] ∧ quad_of w x y "A" [a; b; chr 0].
Proof.
  destruct (encode_tripplet_quad a b (chr 0)) as (w & x & y & z & E & H).
  assert (z = "A"%char) as ->.
  { unfold encode_tripplet in E. simplify_eq. unfold encode_at.
    change 63 with (2 ^ 6 - 1). rewrite land_mask by lia. rewrite lor3 by apply code_range.
    rewrite (code_chr_id 0) by done.
    assert ((code a * 65536 + code b * 256 + 0) mod 2 ^ 6 = 0) as ->; [|done].
    change (2 ^ 6) with 64. Z.to_euclidean_division_equations. lia. }
  eauto.
Qed.

Lemma encode_tripplet_one a :
  ∃ w x, encode_tripplet a (chr 0) (chr 0) = [w; x; "A"%char; "A"%char] ∧
         quad_of w x "A" "A" [a; chr 0; chr 0].
Proof.
  destruct (encode_tripplet_two a (chr 0)) as (w & x & y & E & H).
  assert (y = "A"%char) as ->.
  { unfold encode_tripplet in E. simplify_eq. unfold encode_at.
    change 63 with (2 ^ 6 - 1). rewrite land_mask by lia. rewrite lor3 by apply code_range.
    rewrite (code_chr_id 0) by done. rewrite Z.shiftr_div_pow2 by lia.
    assert ((code a * 65536 + 0 * 256 + 0) / 2 ^ 6 mod 2 ^ 6 = 0) as ->; [|done].
    change (2 ^ 6) with 64. Z.to_euclidean_division_equations. lia. }
  eauto.
Qed.

(** ** The loop is the recursion *)

Lemma encode_tripplets_shift a b c r i n :
  encode_tripplets (a :: b :: c :: r) (S i) n = encode_tripplets r i n.
Proof. revert i. induction n as [|n IH]; intros i; simpl; [done|]. by rewrite <- IH. Qed.

Lemma div3_succ n : (S (S (S n)) / 3 = S (n / 3))%nat.
Proof. change (S (S (S n))) with (1 * 3 + n)%nat. by rewrite Nat.div_add_l. Qed.

Lemma encode_cons3 a b c r :
  encode (a :: b :: c :: r) = encode_tripplet a b c ++ encode r.
Proof.
  unfold encode. cbn [length]. rewrite div3_succ. cbn [encode_tripplets].
  by rewrite encode_tripplets_shift, <- app_assoc.
Qed.

Lemma encode_triples input : encode input = by_triples input.
Proof.
  induction input as [|a|a b|a b c r IH] using list3_ind; try reflexivity.
  by rewrite encode_cons3, IH.
Qed.

(** ** RFC 4648

    Section 4 of the standard, from the bits: they are taken six at a time, the
    first one first, with zero bits after the last ones; the table is given by its
    ranges of characters; and [=] fills the last group of four. *)

Definition byte_bits (c : ascii) : list bool :=
  match c with Ascii b0 b1 b2 b3 b4 b5 b6 b7 => [b7; b6; b5; b4; b3; b2; b1; b0] end.

Definition bits_value (bs : list bool) : Z := foldl (λ v b, 2 * v + Z.b2z b) 0 bs.

Definition rfc_char (v : Z) : ascii :=
  if v <? 26 then chr (code "A" + v)
  else if v <? 52 then chr (code "a" + (v - 26))
  else if v <? 62 then chr (code "0" + (v - 52))
  else if v =? 62 then "+"%char else "/"%char.

Fixpoint sextets (bs : list bool) : bytes :=
  match bs with
  | b1 :: b2 :: b3 :: b4 :: b5 :: b6 :: bs' => rfc_char (bits_value [b1; b2; b3; b4; b5; b6]) :: sextets bs'
  | [] => []
  | _ => [rfc_char (bits_value (bs ++ replicate (6 - length bs) false))]
  end.

Definition fill (s : bytes) : bytes := s ++ replicate ((4 - length s mod 4) mod 4) "="%char.

Definition rfc4648 (input : bytes) : bytes := fill (sextets (mjoin (byte_bits <$> input))).

(** The test vectors of section 10. *)
Example rfc4648_vectors :
  map rfc4648 ([] :: map str ["f"%string; "fo"%string; "foo"%string; "foob"%string; "fooba"%string; "foobar"%string])
  = [] :: map str ["Zg=="%string; "Zm8="%string; "Zm9v"%string; "Zm9vYg=="%string; "Zm9vYmE="%string; "Zm9vYmFy"%string].
Proof. reflexivity. Qed.

Lemma encode_at_rfc i v : i mod 64 = v → encode_at i = rfc_char v.
Proof.
  intros <-. assert (H : forallb (λ n, eqc (nth n encode_table Ascii.zero) (rfc_char (Z.of_nat n))) (seq 0 64) = true)
    by (vm_compute; reflexivity).
  rewrite forallb_forall in H. unfold encode_at. change 63 with (2 ^ 6 - 1). rewrite land_mask by lia. change (2 ^ 6) with 64.
  pose proof (Z.mod_pos_bound i 64 eq_refl). specialize (H (Z.to_nat (i mod 64))). rewrite eqc_true in H.
  rewrite H; [f_equal; lia|]. apply in_seq. lia.
Qed.

Lemma code_bits c : code c = bits_value (byte_bits c).
Proof. by destruct c as [[] [] [] [] [] [] [] []]. Qed.

Lemma bits_from v bs : foldl (λ v b, 2 * v + Z.b2z b) v bs = v * 2 ^ Z.of_nat (length bs) + bits_value bs.
Proof.
  unfold bits_value. revert v. induction bs as [|b bs IH]; intros v; cbn [foldl length]; [lia|].
  rewrite IH, (IH (2 * 0 + Z.b2z b)), Nat2Z.inj_succ, Z.pow_succ_r by lia. lia.
Qed.

Lemma bits_app xs ys : bits_value (xs ++ ys) = bits_value xs * 2 ^ Z.of_nat (length ys) + bits_value ys.
Proof. unfold bits_value at 1. by rewrite foldl_app, bits_from. Qed.

Lemma bits_range bs : 0 <= bits_value bs < 2 ^ Z.of_nat (length bs).
Proof.
  induction bs as [|b bs IH] using rev_ind; [done|]. rewrite bits_app, length_app, Nat2Z.inj_add, Z.pow_add_r by lia.
  assert (0 <= bits_value [b] < 2 ^ 1) by (by destruct b). cbn [length] in *. nia.
Qed.

(** Three bytes are as many bits as four groups of six. *)
Lemma sextets_encode a b c w x y z :
  length w = 6%nat → length x = 6%nat → length y = 6%nat → length z = 6%nat →
  byte_bits a ++ byte_bits b ++ byte_bits c = w ++ x ++ y ++ z →
  encode_tripplet a b c = map (λ bs, rfc_char (bits_value bs)) [w; x; y; z].
Proof.
  intros Lw Lx Ly Lz E. apply (f_equal bits_value) in E. rewrite !bits_app, !length_app, Lx, Ly, Lz, <- !code_bits in E.
  pose proof (bits_range w) as Rw. pose proof (bits_range x) as Rx. pose proof (bits_range y) as Ry. pose proof (bits_range z) as Rz.
  rewrite Lw in Rw. rewrite Lx in Rx. rewrite Ly in Ry. rewrite Lz in Rz.
  assert (La : ∀ d, length (byte_bits d) = 8%nat) by (by intros []). rewrite !La in E.
  unfold encode_tripplet. rewrite lor3 by apply code_range. rewrite !Z.shiftr_div_pow2 by lia.
  cbn [map]. repeat f_equal; apply encode_at_rfc; simpl in *; Z.to_euclidean_division_equations; lia.
Qed.

Lemma triple_bits a b c (r : list bool) :
  sextets (byte_bits a ++ byte_bits b ++ byte_bits c ++ r) = encode_tripplet a b c ++ sextets r.
Proof.
  destruct a as [a0 a1 a2 a3 a4 a5 a6 a7], b as [b0 b1 b2 b3 b4 b5 b6 b7], c as [c0 c1 c2 c3 c4 c5 c6 c7].
  by erewrite (sextets_encode _ _ _ [a7; a6; a5; a4; a3; a2] [a1; a0; b7; b6; b5; b4] [b3; b2; b1; b0; c7; c6] [c5; c4; c3; c2; c1; c0]).
Qed.

Lemma fill_quad w x y z s : fill (w :: x :: y :: z :: s) = w :: x :: y :: z :: fill s.
Proof. unfold fill. cbn [length app]. change (S (S (S (S (length s))))) with (1 * 4 + length s)%nat. by rewrite Nat.add_comm, Nat.Div0.mod_add. Qed.

(** C40: The loop over full triples followed by the padded tail, with its table and
    shifts, computes the encoding of RFC 4648, for inputs of every length; the
    reference is made from the bits of the input, with none of the code's
    definitions. *)
Theorem encode_rfc4648 input : encode input = rfc4648 input.
Proof.
  rewrite encode_triples. induction input as [|a|a b|a b c r IH] using list3_ind; [done|..]; cbn [by_triples].
  - pose proof (triple_bits a (chr 0) (chr 0) []) as H. cbn [sextets] in H. rewrite !app_nil_r in H. rewrite <- H. by destruct a.
  - pose proof (triple_bits a b (chr 0) []) as H. cbn [sextets] in H. rewrite !app_nil_r in H. rewrite <- H. by destruct a, b.
  - rewrite IH. unfold rfc4648. cbn [fmap list_fmap mjoin list_join]. rewrite triple_bits. unfold encode_tripplet. cbn [app].
    by rewrite fill_quad.
Qed.

(** ** Decoding what the encoder wrote *)

Definition decode_body (s : bytes) : option bytes :=
  d ← decode_quads s 0 (length s / 4 - 1);
  l ← decode_last (substr s ((length s / 4 - 1) * 4) 4);
  Some (d ++ l).

Lemma decode_quads_shift a b c d s i n :
  decode_quads (a :: b :: c :: d :: s) (S i) n = decode_quads s i n.
Proof. revert i. induction n as [|n IH]; intros i; simpl; [done|]. by rewrite <- IH. Qed.

Lemma decode_body_cons4 a b c d s :
  (4 <= length s)%nat →
  decode_body (a :: b :: c :: d :: s) = q ← decode_quad a b c d; r ← decode_body s; Some (q ++ r).
Proof.
  intros Hs. unfold decode_body.
  assert (Hn : (length (a :: b :: c :: d :: s) / 4 - 1 = S (length s / 4 - 1))%nat).
  { cbn [length]. pose proof (Nat.div_add_l 1 4 (length s) ltac:(lia)) as H.
    simpl Nat.add in H. rewrite H. simpl Nat.mul.
    assert (4 / 4 <= length s / 4)%nat by (apply Nat.Div0.div_le_mono; lia).
    simpl in *. lia. }
  rewrite Hn. cbn [decode_quads]. rewrite decode_quads_shift.
  cbn [substr Nat.mul Nat.add drop take].
  destruct (decode_quad a b c d) as [q|]; simpl; [|done].
  destruct (decode_quads s 0 _) as [d'|]; simpl; [|done].
  destruct (decode_last _) as [l|]; simpl; [|done]. by rewrite app_assoc.
Qed.

Lemma by_triples_length l : ∃ k, length (by_triples l) = (k * 4)%nat.
Proof.
  induction l as [|a|a b|a b c r [k IH]] using list3_ind.
  - by exists 0%nat.
  - by exists 1%nat.
  - by exists 1%nat.
  - exists (S k). simpl. rewrite IH. lia.
Qed.

Lemma by_triples_pos l : l ≠ [] → (4 <= length (by_triples l))%nat.
Proof. destruct l as [|a [|b [|c r]]]; simpl; [done|lia..]. Qed.

Lemma decode_body_by_triples l : l ≠ [] → decode_body (by_triples l) = Some l.
Proof.
  induction l as [|a|a b|a b c r IH] using list3_ind; intros Hl; [done|..]; cbn [by_triples].
  - destruct (encode_tripplet_one a) as (w & x & -> & Hq & _).
    unfold decode_body. cbn -[decode_quad]. by rewrite Hq.
  - destruct (encode_tripplet_two a b) as (w & x & y & -> & Hq & Hf).
    rewrite !Forall_cons in Hf. destruct Hf as (_ & _ & [_ Hy] & _).
    unfold decode_body. cbn -[decode_quad eqc]. rewrite Hy. simpl. by rewrite Hq.
  - destruct (encode_tripplet_quad a b c) as (w & x & y & z & -> & Hq & Hf).
    rewrite !Forall_cons in Hf. destruct Hf as (_ & _ & [_ Hy] & [_ Hz] & _).
    destruct r as [|u r].
    + unfold decode_body. cbn -[decode_quad eqc]. by rewrite Hy, Hz, Hq.
    + cbn [app]. rewrite decode_body_cons4 by (by apply by_triples_pos).
      by rewrite Hq, IH.
Qed.

Definition final_ok (x y : ascii) : bool :=
  is_valid_base64_char x && (is_valid_base64_char y || eqc y "=") || eqc x "=" && eqc y "=".

Lemma is_valid_base64_str_spec body x y :
  (length (body ++ [x; y]) mod 4 = 0)%nat → forallb is_valid_base64_char body = true →
  final_ok x y = true → is_valid_base64_str (body ++ [x; y]) = true.
Proof.
  intros Hn Hb Hf. unfold is_valid_base64_str. rewrite Hn. simpl negb.
  rewrite !length_app. cbn [length].
  replace (length body + 2 - 2)%nat with (length body) by lia.
  replace (length body + 2 - 1)%nat with (length body + 1)%nat by lia.
  rewrite take_app_length, Hb. simpl negb.
  rewrite app_nth2_plus. rewrite app_nth2 by lia.
  rewrite Nat.sub_diag. cbn [nth]. unfold final_ok in Hf.
  destruct (is_valid_base64_char x) eqn:Ex; simpl in *; [|done].
  destruct (_ || eqc y _); [done|].
  simpl in Hf. apply andb_true_iff in Hf as [Hx _]. apply eqc_true in Hx. subst x. done.
Qed.

Lemma by_triples_shape l :
  l ≠ [] → ∃ body x y, by_triples l = body ++ [x; y] ∧
    forallb is_valid_base64_char body = true ∧ final_ok x y = true.
Proof.
  assert (Hq : ∀ w x y z bs, quad_of w x y z bs →
    forallb is_valid_base64_char [w; x] = true ∧ final_ok y z = true ∧ final_ok y "=" = true
    ∧ is_valid_base64_char y = true ∧ is_valid_base64_char z = true).
  { intros w x y z bs [_ Hf]. rewrite !Forall_cons in Hf.
    destruct Hf as ([Hw _] & [Hx _] & [Hy _] & [Hz _] & _).
    unfold final_ok. simpl. rewrite Hw, Hx, Hy, Hz. simpl. auto. }
  induction l as [|a|a b|a b c r IH] using list3_ind; intros Hl; [done|..]; cbn [by_triples].
  - destruct (encode_tripplet_one a) as (w & x & -> & H%Hq).
    exists [w; x], "="%char, "="%char. tauto.
  - destruct (encode_tripplet_two a b) as (w & x & y & -> & H%Hq).
    exists [w; x], y, "="%char. tauto.
  - destruct (encode_tripplet_quad a b c) as (w & x & y & z & -> & H%Hq).
    destruct r as [|u r]; [exists [w; x], y, z; tauto|].
    destruct IH as (body & v & t & Hr & Hb & Hf); [done|].
    exists ([w; x; y; z] ++ body), v, t. rewrite Hr, forallb_app, Hb.
    split; [done|]. split; [|done]. destruct H as (Hwx & _ & _ & Hy & Hz).
    simpl in *. by rewrite andb_true_r in *; rewrite Hy, Hz, andb_true_r.
Qed.

(** Decoding an encoded byte sequence, of any length and content, never
    reads outside the decode table, is never refused, and gives the sequence
    back. *)
Theorem base64_roundtrip input : decode (encode input) = Some (Some input).
Proof.
  rewrite encode_triples. destruct (decide (input = [])) as [->|Hl]; [done|].
  unfold decode. pose proof (by_triples_pos input Hl). destruct (by_triples_length input) as [k Hk].
  assert (Hm : (length (by_triples input) mod 4 = 0)%nat) by (rewrite Hk; apply Nat.Div0.mod_mul).
  destruct (Nat.eqb_spec (length (by_triples input)) 0); [lia|].
  rewrite Hm. destruct (by_triples_shape input Hl) as (body & x & y & Hs & Hb & Hf).
  assert (is_valid_base64_str (by_triples input) = true) as ->.
  { rewrite Hs in *. by apply is_valid_base64_str_spec. }
  pose proof (decode_body_by_triples input Hl) as Hd. unfold decode_body in Hd. simpl.
  destruct (decode_quads _ _ _) as [d|]; simpl in *; [|done].
  destruct (decode_last _) as [l|]; simpl in *; congruence.
Qed.

(** ** Memory safety of the decoder, and what it lets through *)

Lemma decode_at_ascii c : (0 <=? schar c) = true → is_Some (decode_at c).
Proof.
  intros H. pose proof (code_range c). unfold decode_at. apply lookup_lt_is_Some.
  change (length decode_table) with 128%nat. unfold schar in H.
  destruct (Z.ltb_spec (code c) 128); lia.
Qed.

Lemma valid_char_ascii c : is_valid_base64_char c = true → (0 <=? schar c) = true.
Proof. unfold is_valid_base64_char. intros. apply Z.leb_le. repeat case_match; lia. Qed.

(** In range of the table: valid characters and the padding. *)
Definition readable (c : ascii) : Prop := is_Some (decode_at c).

Lemma decode_quad_is_Some a b c d :
  Forall readable [a; b; c; d] → is_Some (decode_quad a b c d).
Proof.
  rewrite !Forall_cons. intros ([va Ha] & [vb Hb] & [vc Hc] & [vd Hd] & _).
  unfold decode_quad. rewrite Ha, Hb, Hc, Hd. simpl. eauto.
Qed.

Lemma substr4 s pos :
  (pos + 4 <= length s)%nat → ∃ a b c d, substr s pos 4 = [a; b; c; d].
Proof.
  intros H. unfold substr. pose proof (length_drop s pos) as Hl.
  destruct (drop pos s) as [|a [|b [|c [|d r]]]]; simpl in *; try lia. eauto.
Qed.

Lemma decode_quads_is_Some s i n :
  Forall readable s → ((i + n) * 4 <= length s)%nat → is_Some (decode_quads s i n).
Proof.
  intros Hs. revert i. induction n as [|n IH]; intros i Hn; simpl; [done|].
  destruct (substr4 s (i * 4)) as (a & b & c & d & E); [lia|]. rewrite E.
  destruct (decode_quad_is_Some a b c d) as [q ->].
  { rewrite <- E. by apply Forall_take, Forall_drop. }
  destruct (IH (S i)) as [r ->]; [lia|]. simpl. eauto.
Qed.

Lemma decode_last_is_Some a b c d :
  Forall readable [a; b; c; d] → is_Some (decode_last [a; b; c; d]).
Proof.
  intros H. assert (HA : readable "A"%char) by (vm_compute; eauto).
  unfold decode_last. pose proof H as H'. rewrite !Forall_cons in H'.
  repeat case_match; rewrite ?fmap_is_Some; apply decode_quad_is_Some;
    repeat constructor; tauto.
Qed.

Lemma is_valid_base64_str_readable s :
  (4 <= length s)%nat → is_valid_base64_str s = true → Forall readable s.
Proof.
  intros Hn H. unfold is_valid_base64_str in H.
  destruct (_ mod 4 =? 0)%nat; [|done]. simpl in H.
  destruct (forallb _ _) eqn:Hf; [|done]. simpl in H.
  assert (Heq : readable "="%char) by (vm_compute; eauto).
  assert (Hv : ∀ c, is_valid_base64_char c = true → readable c)
    by (intros; by apply decode_at_ascii, valid_char_ascii).
  rewrite <- (take_drop (length s - 2) s). apply Forall_app. split.
  { rewrite Forall_forall. rewrite forallb_forall in Hf.
    intros c Hc. apply Hv, Hf, list_elem_of_In, Hc. }
  destruct (drop (length s - 2) s) as [|x [|y [|]]] eqn:E;
    apply (f_equal length) in E as El; rewrite length_drop in El; simpl in El; try lia.
  assert (Hx : nth (length s - 2) s Ascii.zero = x).
  { by rewrite <- (Nat.add_0_r (_ - 2)), <- nth_drop_add, E. }
  assert (Hy : nth (length s - 1) s Ascii.zero = y).
  { replace (length s - 1)%nat with (length s - 2 + 1)%nat by lia.
    by rewrite <- nth_drop_add, E. }
  rewrite Hx, Hy in H.
  destruct (is_valid_base64_char x) eqn:Ex; simpl in H.
  - apply orb_true_iff in H as [H|H%eqc_true]; subst; auto.
  - apply andb_true_iff in H as [H1%eqc_true H2%eqc_true]. subst. auto.
Qed.

(** Whatever the input, every character the decoder uses as an index is
    inside the 128-entry table (a byte of 0x80 or more is a negative [char]
    and is refused before it is looked up). *)
Theorem decode_in_bounds s : is_Some (decode s).
Proof.
  unfold decode. destruct (Nat.eqb_spec (length s) 0); [eauto|].
  destruct (Nat.eqb_spec (length s mod 4) 0) as [Hm|]; cbn [negb orb]; [|eauto].
  destruct (is_valid_base64_str s) eqn:Hv; cbn [negb]; [|eauto].
  assert (Hl : length s = (4 * (length s / 4))%nat).
  { pose proof (Nat.div_mod_eq (length s) 4). lia. }
  assert (1 <= length s / 4)%nat by lia.
  pose proof (is_valid_base64_str_readable s ltac:(lia) Hv) as Hr.
  destruct (decode_quads_is_Some s 0 (length s / 4 - 1)) as [d ->]; [done|lia|].
  destruct (substr4 s ((length s / 4 - 1) * 4)) as (a & b & c & e & E); [lia|].
  destruct (decode_last_is_Some a b c e) as [r Hd].
  { rewrite <- E. by apply Forall_take, Forall_drop. }
  cbn [mbind option_bind]. rewrite E, Hd. cbn. eauto.
Qed.

(** The second range test has no upper bound, so the five 7-bit
    characters above ['z'] are accepted although they are not in the Base64
    alphabet, and a quadruple of them decodes to bytes. *)
Theorem decode_accepts_above_z c :
  123 ≤ code c ∧ code c ≤ 127 →
  (c ∉ encode_table) ∧ (c ≠ "="%char) ∧
  (∃ bs, decode [c; c; c; c] = Some (Some bs) ∧ length bs = 3%nat).
Proof.
  intros H.
  assert (Hc : implb ((123 <=? code c) && (code c <=? 127))
    (bool_decide (c ∉ encode_table) && bool_decide (c ≠ "="%char) &&
     match decode [c; c; c; c] with Some (Some [_; _; _]) => true | _ => false end) = true)
    by (clear H; by_all_chars c).
  replace (123 <=? code c) with true in Hc by lia.
  replace (code c <=? 127) with true in Hc by lia. simpl implb in Hc.
  rewrite !andb_true_iff, !bool_decide_eq_true in Hc. destruct Hc as [[H1 H2] H3].
  split; [done|]. split; [done|].
  destruct (decode [c; c; c; c]) as [[[|x [|y [|z []]]]|]|]; try done. eauto.
Qed.

Lemma decode_accepts_above_z_witness :
  (123 ≤ code "~" ∧ code "~" ≤ 127) ∧
  (∃ bs, decode (str "~~~~") = Some (Some bs) ∧ length bs = 3%nat).
Proof. split; [done|]. by apply (decode_accepts_above_z "~"). Defined.
