(* ===== verification/Sequence.v ===== *)
(** * Sequence: [disruptor/Sequence.hpp]

    The progress counters of the ring buffer.  A [std::shared_ptr<Sequence>]
    is an address into a store of counters, because the sources compare
    sequences by identity; a vector of sequences is a list of addresses. *)

From S2P Require Import Prelude.
Local Open Scope Z_scope.

Definition kInitialCursorValue : Z := -1.

Definition int64_max : Z := 2 ^ 63 - 1.

Abbreviation addr := nat (only parsing).

(** The atomic counters of a process. *)
Abbreviation store := (addr → Z) (only parsing).

Definition value (st : store) (a : addr) : Z := st a.
Definition setValue (a : addr) (v : Z) (st : store) : store := <[a := v]> st.

(** [std::atomic_compare_exchange_strong]. *)
Definition compareAndSet (a : addr) (expected next : Z) (st : store) : bool * store :=
  if value st a =? expected then (true, setValue a next st) else (false, st).

(** [std::atomic_fetch_add] wraps around. *)
Definition addAndGet (a : addr) (v : Z) (st : store) : Z * store :=
  let r := wraps 64 (value st a + v) in (r, setValue a r st).
Definition incrementAndGet (a : addr) (st : store) : Z * store := addAndGet a 1 st.

(** [detail::getMinimumSequence] on the values of the sequences. *)
Definition min_of (vs : list Z) (minimum : Z) : Z :=
  match vs with
  | [] => minimum
  | v :: vs' => Z.min minimum (fold_left Z.min vs' v)
  end.

Definition getMinimumSequence (st : store) (sequences : list addr) (minimum : Z) : Z :=
  min_of (value st <$> sequences) minimum.

Definition getMinimumSequence_default (st : store) (sequences : list addr) : Z :=
  getMinimumSequence st sequences int64_max.

(** [detail::addSequences]: the copy-on-write loop, run without interference:
    the sequences are appended and every added one is set to the cursor, once
    before the vector is swapped in and once after. *)
Definition set_all (as_ : list addr) (v : Z) (st : store) : store :=
  fold_left (λ st a, setValue a v st) as_ st.

Definition addSequences (sequences : list addr) (cursor : addr) (toAdd : list addr)
    (st : store) : list addr * store :=
  let st1 := set_all toAdd (value st cursor) st in
  (sequences ++ toAdd, set_all toAdd (value st1 cursor) st1).

(** [detail::removeSequence]: by identity. *)
Definition removeSequence (sequences : list addr) (a : addr) : bool * list addr :=
  let numToRemove := length (filter (λ x, x = a) sequences) in
  if (numToRemove =? 0)%nat then (false, sequences)
  else (true, filter (λ x, x ≠ a) sequences).

(** ** Lemmas *)

Lemma fold_min_le vs v : fold_left Z.min vs v ≤ v ∧ Forall (λ x, fold_left Z.min vs v ≤ x) vs.
Proof.
  revert v. induction vs as [|w vs IH]; intros v; simpl; [split; [lia|constructor]|].
  destruct (IH (Z.min v w)) as [H1 H2]. split; [lia|]. constructor; [lia|done].
Qed.

Lemma fold_min_in vs v : fold_left Z.min vs v = v ∨ fold_left Z.min vs v ∈ vs.
Proof.
  revert v. induction vs as [|w vs IH]; intros v; simpl; [by left|].
  destruct (IH (Z.min v w)) as [H|H].
  - destruct (Z.min_spec v w) as [[_ E]|[_ E]]; rewrite E in H |- *; [by left|].
    right. rewrite H. constructor.
  - right. by constructor.
Qed.

Lemma min_of_le_minimum vs m : min_of vs m ≤ m.
Proof. destruct vs; simpl; lia. Qed.

Lemma min_of_le vs m v : v ∈ vs → min_of vs m ≤ v.
Proof.
  destruct vs as [|w vs]; simpl; [by intros H%elem_of_nil|].
  destruct (fold_min_le vs w) as [H1 H2]. rewrite Forall_forall in H2.
  intros [->|H]%elem_of_cons; [lia|]. specialize (H2 v H). lia.
Qed.

Lemma min_of_in vs m : min_of vs m = m ∨ min_of vs m ∈ vs.
Proof.
  destruct vs as [|w vs]; simpl; [by left|].
  destruct (Z.min_spec m (fold_left Z.min vs w)) as [[_ ->]|[_ ->]]; [by left|]. right.
  destruct (fold_min_in vs w) as [->|H]; constructor; done.
Qed.

(** The greatest lower bound, the form the clients use. *)
Lemma min_of_ge vs m x : x ≤ min_of vs m ↔ x ≤ m ∧ Forall (λ v, x ≤ v) vs.
Proof.
  split.
  - intros H. pose proof (min_of_le_minimum vs m). split; [lia|].
    rewrite Forall_forall. intros v Hv. pose proof (min_of_le vs m v Hv). lia.
  - intros [H1 H2]. rewrite Forall_forall in H2.
    destruct (min_of_in vs m) as [->|H]; auto.
Qed.

Lemma min_of_cons v vs m : min_of (v :: vs) m = Z.min v (min_of vs m).
Proof.
  apply Z.le_antisymm.
  - apply Z.min_glb; [apply min_of_le; constructor|].
    rewrite min_of_ge. split; [apply min_of_le_minimum|].
    rewrite Forall_forall. intros x Hx. apply min_of_le. by constructor.
  - rewrite min_of_ge. split; [pose proof (min_of_le_minimum vs m); lia|].
    constructor; [lia|]. rewrite Forall_forall. intros x Hx.
    pose proof (min_of_le vs m x Hx). lia.
Qed.

Lemma set_all_value as_ v st a :
  value (set_all as_ v st) a = if decide (a ∈ as_) then v else value st a.
Proof.
  unfold set_all, value. revert st. induction as_ as [|b as_ IH]; intros st; simpl.
  - done.
  - rewrite IH. unfold setValue. destruct (decide (a ∈ as_)) as [H|H].
    + rewrite decide_True; [done|]. by constructor.
    + destruct (decide (a = b)) as [->|Hne].
      * rewrite decide_True by constructor. by rewrite fn_lookup_insert.
      * rewrite decide_False; [by rewrite fn_lookup_insert_ne|].
        rewrite elem_of_cons. tauto.
Qed.

Lemma set_all_twice as_ v st a :
  value (set_all as_ v (set_all as_ v st)) a = if decide (a ∈ as_) then v else value st a.
Proof. rewrite !set_all_value. by case_decide. Qed.

(** A sequence that joins the gating set starts at the cursor, so it can
    neither hold back events published before it joined nor release a slot
    early: the minimum over the enlarged set is that of the old set and the
    cursor. *)
Theorem addSequences_min sequences cursor toAdd st sequences' st' m :
  cursor ∉ toAdd → sequences ## toAdd →
  addSequences sequences cursor toAdd st = (sequences', st') →
  getMinimumSequence st' sequences' m =
    Z.min (getMinimumSequence st sequences m)
          (if decide (toAdd = []) then m else value st cursor)
  ∧ value st' cursor = value st cursor.
Proof.
  intros Hc Hd [= <- <-]. rewrite set_all_value, (decide_False (P := cursor ∈ toAdd)), set_all_twice by done.
  rewrite (decide_False (P := cursor ∈ toAdd)) by done.
  split; [|done]. unfold getMinimumSequence. rewrite fmap_app.
  assert (Hold : value (set_all toAdd (value st cursor) (set_all toAdd (value st cursor) st))
                 <$> sequences = value st <$> sequences).
  { apply list_fmap_ext. intros i a Ha. rewrite set_all_twice.
    rewrite decide_False by (apply list_elem_of_lookup_2 in Ha; set_solver). done. }
  assert (Hnew : value (set_all toAdd (value st cursor) (set_all toAdd (value st cursor) st))
                 <$> toAdd = replicate (length toAdd) (value st cursor)).
  { apply list_eq. intros i. rewrite list_lookup_fmap.
    destruct (toAdd !! i) as [a|] eqn:Ha; simpl.
    - rewrite set_all_twice, decide_True by (by eapply list_elem_of_lookup_2).
      symmetry. apply lookup_replicate. by eauto using lookup_lt_Some.
    - symmetry. apply lookup_ge_None. rewrite length_replicate.
      by apply lookup_ge_None. }
  rewrite Hold, Hnew. clear Hold Hnew.
  induction (value st <$> sequences) as [|v vs IH]; cbn [app].
  - destruct toAdd as [|a toAdd]; cbn [length replicate min_of].
    + rewrite decide_True by done. lia.
    + rewrite decide_False by done. f_equal.
      induction (length toAdd) as [|n IH]; simpl; [done|]. by rewrite Z.min_id.
  - rewrite !min_of_cons, IH. lia.
Qed.

Lemma addSequences_min_witness :
  let st : store := λ a, match a with 0%nat => 7 | 1%nat => 3 | _ => -1 end in
  getMinimumSequence (addSequences [1%nat] 0 [2%nat; 3%nat] st).2
    (addSequences [1%nat] 0 [2%nat; 3%nat] st).1 100 = 3.
Proof.
  intros st.
  destruct (addSequences_min [1%nat] 0 [2%nat; 3%nat] st
    (addSequences [1%nat] 0 [2%nat; 3%nat] st).1
    (addSequences [1%nat] 0 [2%nat; 3%nat] st).2 100) as [H _];
    [set_solver|set_solver|reflexivity|].
  rewrite H. reflexivity.
Defined.
