(* ===== verification/Claim.v ===== *)
(** * Claim: [disruptor/ClaimStrategy.hpp]

    The two strategies by which producers claim slots of a ring buffer, and
    the interface ([ClaimStrategy]) the ring buffer is written against.

    The gating sequences ("dependents") are passed as the list of their
    current values.  A wait loop is given the list of the observations of the
    dependents it makes, one per turn; [None] means it is still spinning after
    all of them.

    Sequences are [std::int64_t] in the code, whose overflow is undefined; here they
    are unbounded, so that nothing is said of a claim that would go beyond them. *)

From S2P Require Import Prelude Sequence.
Local Open Scope Z_scope.

(** [isPower2], [floorlog2], [ceillog2] of [opencmw.hpp]; the fuel of
    [floorlog2] bounds the number of halvings of an [unsigned]. *)
Definition isPower2 (n : Z) : bool :=
  (0 <? n) && (Z.land n (n - 1) =? 0).

Fixpoint floorlog2 (fuel : nat) (x : Z) : Z :=
  match fuel with
  | O => 0
  | S fuel' => if x =? 1 then 0 else 1 + floorlog2 fuel' (Z.shiftr x 1)
  end.

Definition ceillog2 (x : Z) : Z := if x =? 1 then 0 else floorlog2 32 (x - 1) + 1.

(** ** The interface

    The ring buffer and its pollers only rely on these laws. [cursor] is the
    value of the shared cursor sequence. *)
Class ClaimStrategy (S : Type) := {
  cs_cursor : S → Z;
  cs_hasAvailableCapacity : S → list Z → Z → Z → bool * S;
  cs_next : S → list (list Z) → Z → option (Z * S);
  cs_tryNext : S → list Z → Z → result Z * S;
  cs_getRemainingCapacity : S → list Z → Z;
  cs_publish : Z → S → S;
  cs_isAvailable : S → Z → bool;
  cs_getHighestPublishedSequence : S → Z → Z → Z;

  (* what is announced to a consumer is available, from the lower bound on *)
  cs_highest_available st lb avail s :
    avail ≤ cs_cursor st →
    lb ≤ s ≤ cs_getHighestPublishedSequence st lb avail → cs_isAvailable st s = true;
  cs_highest_le st lb avail :
    lb - 1 ≤ avail → lb - 1 ≤ cs_getHighestPublishedSequence st lb avail ≤ avail;
  (* a refused claim throws [NoCapacityException] and leaves the cursor *)
  cs_tryNext_throws st deps n e st' :
    cs_tryNext st deps n = (Throw e, st') →
    e = NoCapacityException ∧ cs_cursor st' = cs_cursor st;
  (* a publication makes exactly its sequence's slot available *)
  cs_publish_available st s : cs_isAvailable (cs_publish s st) s = true
}.

(** ** One producer *)

Module Single.

Record t : Type := mk {
  cursor : Z;       (* _cursor, shared with the consumers *)
  nextValue : Z;    (* _nextValue *)
  cachedValue : Z   (* _cachedValue *)
}.

Definition init : t := mk kInitialCursorValue kInitialCursorValue kInitialCursorValue.

Section ops.
Context (SIZE : Z).

Definition hasAvailableCapacity (st : t) (deps : list Z) (requiredCapacity : Z) : bool * t :=
  let wrapPoint := (nextValue st + requiredCapacity) - SIZE in
  if (cachedValue st <? wrapPoint) || (nextValue st <? cachedValue st) then
    let minSequence := min_of deps (nextValue st) in
    let st' := mk (cursor st) (nextValue st) minSequence in
    if minSequence <? wrapPoint then (false, st') else (true, st')
  else (true, st).

(** The spin loop of [next]: the first observation that lets it go on. *)
Fixpoint wait_min (wrapPoint nv : Z) (obs : list (list Z)) : option Z :=
  match obs with
  | [] => None
  | deps :: obs' =>
      let minSequence := min_of deps nv in
      if minSequence <? wrapPoint then wait_min wrapPoint nv obs' else Some minSequence
  end.

Definition next (st : t) (obs : list (list Z)) (n_slots_to_claim : Z) : option (Z * t) :=
  let nextSequence := nextValue st + n_slots_to_claim in
  let wrapPoint := nextSequence - SIZE in
  if (cachedValue st <? wrapPoint) || (nextValue st <? cachedValue st) then
    minSequence ← wait_min wrapPoint (nextValue st) obs;
    (* _cursor.setValue(_nextValue) *)
    Some (nextSequence, mk (nextValue st) nextSequence minSequence)
  else Some (nextSequence, mk (cursor st) nextSequence (cachedValue st)).

Definition tryNext (st : t) (deps : list Z) (n_slots_to_claim : Z) : result Z * t :=
  match hasAvailableCapacity st deps n_slots_to_claim with
  | (false, st') => (Throw NoCapacityException, st')
  | (true, st') =>
      let nextSequence := nextValue st' + n_slots_to_claim in
      (Ok nextSequence, mk (cursor st') nextSequence (cachedValue st'))
  end.

Definition getRemainingCapacity (st : t) (deps : list Z) : Z :=
  let consumed := min_of deps (nextValue st) in
  let produced := nextValue st in
  SIZE - (produced - consumed).
End ops.

Definition publish (sequence : Z) (st : t) : t := mk sequence (nextValue st) (cachedValue st).
Definition isAvailable (st : t) (sequence : Z) : bool := sequence <=? cursor st.
Definition getHighestPublishedSequence (_ : t) (_ availableSequence : Z) : Z := availableSequence.

#[export] Program Instance strategy (SIZE : Z) : ClaimStrategy t := {|
  cs_cursor := cursor;
  cs_hasAvailableCapacity st deps n _ := hasAvailableCapacity SIZE st deps n;
  cs_next := next SIZE;
  cs_tryNext := tryNext SIZE;
  cs_getRemainingCapacity := getRemainingCapacity SIZE;
  cs_publish := publish;
  cs_isAvailable := isAvailable;
  cs_getHighestPublishedSequence := getHighestPublishedSequence
|}.
Next Obligation. intros SIZE st lb avail s. unfold isAvailable, getHighestPublishedSequence. lia. Qed.
Next Obligation. intros SIZE st lb avail. unfold getHighestPublishedSequence. lia. Qed.
Next Obligation.
  intros SIZE st deps n e st'. unfold tryNext, hasAvailableCapacity.
  repeat case_match; naive_solver.
Qed.
Next Obligation. intros SIZE st s. unfold isAvailable, publish. simpl. lia. Qed.

(** The producer never runs more than a buffer ahead of the slowest consumer
    it last looked at. *)
Record wf (SIZE : Z) (deps : list Z) (st : t) : Prop := {
  wf_cache : Forall (λ v, cachedValue st ≤ v) deps;
  wf_window : nextValue st - SIZE ≤ cachedValue st
}.

Lemma wf_advance SIZE deps deps' st :
  Forall2 Z.le deps deps' → wf SIZE deps st → wf SIZE deps' st.
Proof.
  intros Hd [H1 H2]. constructor; [|done].
  eapply Forall2_Forall_r; [exact Hd|]. eapply Forall_impl; [exact H1|]. simpl. lia.
Qed.

Lemma min_of_wf_cache deps m : Forall (λ v, min_of deps m ≤ v) deps.
Proof. rewrite Forall_forall. intros v. apply min_of_le. Qed.

Lemma wait_min_spec wrapPoint nv obs m :
  wait_min wrapPoint nv obs = Some m →
  ∃ deps, deps ∈ obs ∧ m = min_of deps nv ∧ wrapPoint ≤ m.
Proof.
  induction obs as [|deps obs IH]; simpl; [done|].
  destruct (Z.ltb_spec (min_of deps nv) wrapPoint) as [H|H].
  - intros (d & ? & ?)%IH. exists d. split; [by constructor|done].
  - intros [= <-]. exists deps. split; [constructor|lia].
Qed.

Lemma wait_min_Some wrapPoint nv obs deps :
  deps ∈ obs → wrapPoint ≤ min_of deps nv → is_Some (wait_min wrapPoint nv obs).
Proof.
  induction obs as [|d obs IH]; [by intros ?%elem_of_nil|]. simpl.
  destruct (Z.ltb_spec (min_of d nv) wrapPoint) as [H|H]; [|eauto].
  intros [->|Hin]%elem_of_cons Hle; [lia|auto].
Qed.

Lemma tryNext_cases SIZE deps st n :
  wf SIZE deps st → 0 < n →
  match tryNext SIZE st deps n with
  | (Ok hi, st') => n ≤ getRemainingCapacity SIZE st deps ∧ hi = nextValue st + n
                    ∧ nextValue st' = hi ∧ wf SIZE deps st'
                    ∧ Forall (λ v, hi - SIZE ≤ v) deps
  | (Throw e, st') => getRemainingCapacity SIZE st deps < n ∧ e = NoCapacityException
                      ∧ nextValue st' = nextValue st ∧ cursor st' = cursor st
  end.
Proof.
  intros [Hc Hw] Hn. unfold tryNext, hasAvailableCapacity, getRemainingCapacity.
  pose proof (min_of_le_minimum deps (nextValue st)) as Hm.
  pose proof (min_of_wf_cache deps (nextValue st)) as Hd.
  destruct (_ || _) eqn:E.
  - destruct (Z.ltb_spec (min_of deps (nextValue st)) (nextValue st + n - SIZE)) as [H3|H3]; simpl.
    + repeat split; lia.
    + repeat split; simpl; try done; try lia.
      eapply Forall_impl; [exact Hd|]. simpl. lia.
  - apply orb_false_iff in E as [E1 E2].
    assert (cachedValue st ≤ min_of deps (nextValue st)) by (rewrite min_of_ge; split; [lia|done]).
    repeat split; simpl; try done; try lia.
    eapply Forall_impl; [exact Hc|]. simpl. lia.
Qed.

Lemma tryNext_refused_wf SIZE deps st n e st' :
  0 ≤ SIZE → wf SIZE deps st → tryNext SIZE st deps n = (Throw e, st') → wf SIZE deps st'.
Proof.
  intros HS [Hc Hw]. unfold tryNext, hasAvailableCapacity.
  destruct (_ || _); [|done]. destruct (min_of _ _ <? _); [|done]. intros [= _ <-].
  constructor; simpl; [apply min_of_wf_cache|].
  destruct (min_of_in deps (nextValue st)) as [->|Hin]; [lia|].
  rewrite Forall_forall in Hc. specialize (Hc _ Hin). lia.
Qed.

(** With one producer, [tryNext] succeeds exactly when at least the
    requested number of slots is free according to [getRemainingCapacity], it
    then claims the next [n] sequences, and afterwards the producer is still
    at most one buffer ahead of every consumer; a refusal throws
    [NoCapacityException] and claims nothing. *)
Theorem tryNext_spec SIZE deps st n :
  wf SIZE deps st → 0 < n →
  match tryNext SIZE st deps n with
  | (Ok hi, st') => n ≤ getRemainingCapacity SIZE st deps ∧ hi = nextValue st + n
                    ∧ nextValue st' = hi ∧ wf SIZE deps st'
                    ∧ Forall (λ v, hi - SIZE ≤ v) deps
  | (Throw e, st') => getRemainingCapacity SIZE st deps < n ∧ e = NoCapacityException
                      ∧ nextValue st' = nextValue st ∧ cursor st' = cursor st
  end.
Proof. apply tryNext_cases. Qed.

Lemma tryNext_spec_witness :
  wf 4 [0; 2] (mk 2 2 0) ∧ (tryNext 4 (mk 2 2 0) [0; 2] 2).1 = Ok 4
  ∧ 2 ≤ getRemainingCapacity 4 (mk 2 2 0) [0; 2].
Proof.
  assert (W : wf 4 [0; 2] (mk 2 2 0)) by (constructor; simpl; repeat constructor; lia).
  split; [exact W|]. split; [reflexivity|].
  exact (proj1 (tryNext_spec 4 [0; 2] (mk 2 2 0) 2 W eq_refl)).
Defined.

(** [next] returns as soon as one observation of the consumers leaves
    room, it claims the next [n] sequences, and no claimed sequence is a
    buffer length or more beyond a consumer it observed. *)
Theorem next_spec SIZE deps st obs n :
  wf SIZE deps st → 0 < n → Forall (Forall2 Z.le deps) obs →
  Exists (λ d, nextValue st + n - SIZE ≤ min_of d (nextValue st)) obs →
  ∃ st' d, next SIZE st obs n = Some (nextValue st + n, st') ∧ d ∈ deps :: obs
    ∧ nextValue st' = nextValue st + n ∧ wf SIZE d st'
    ∧ Forall (λ v, nextValue st + n - SIZE ≤ v) d.
Proof.
  intros Hwf Hn Hobs Hex. pose proof Hwf as [Hc Hw].
  apply Exists_exists in Hex as (d & Hd & Hroom).
  unfold next.
  destruct (_ || _) eqn:E.
  - destruct (wait_min_Some (nextValue st + n - SIZE) (nextValue st) obs d Hd Hroom) as [m Hm].
    rewrite Hm. simpl. apply wait_min_spec in Hm as (d' & Hd' & -> & Hle).
    exists (mk (nextValue st) (nextValue st + n) (min_of d' (nextValue st))), d'.
    pose proof (min_of_wf_cache d' (nextValue st)) as Hf.
    repeat split; simpl; try done; try lia; [by constructor|].
    eapply Forall_impl; [exact Hf|]. simpl. lia.
  - apply orb_false_iff in E as [E1 E2].
    exists (mk (cursor st) (nextValue st + n) (cachedValue st)), deps.
    repeat split; simpl; try done; try lia; [constructor|].
    eapply Forall_impl; [exact Hc|]. simpl. lia.
Qed.

Lemma next_spec_witness :
  ∃ st' d, next 4 (mk 2 2 0) [[0; 0]; [1; 2]] 3 = Some (5, st') ∧ d ∈ [0; 0] :: [[0; 0]; [1; 2]]
    ∧ nextValue st' = 5 ∧ wf 4 d st' ∧ Forall (λ v, 5 - 4 ≤ v) d.
Proof.
  apply (next_spec 4 [0; 0] (mk 2 2 0) [[0; 0]; [1; 2]] 3).
  - constructor; simpl; repeat constructor; lia.
  - reflexivity.
  - repeat constructor; lia.
  - apply Exists_cons_tl, Exists_cons_hd. reflexivity || (vm_compute; discriminate).
Defined.

End Single.

(** ** Several producers *)

Module Multi.

Record t : Type := mk {
  cursor : Z;                  (* _cursor, shared *)
  available : Z → Z;           (* _availableBuffer, by index *)
  gatingCache : Z              (* _gatingSequenceCache *)
}.

Section ops.
Context (SIZE : Z).

Definition indexMask : Z := SIZE - 1.
Definition indexShift : Z := ceillog2 SIZE.

(** [static_cast<int32_t>(sequence) & _indexMask]. *)
Definition calculateIndex (sequence : Z) : Z := Z.land (wraps 32 sequence) indexMask.

(** [static_cast<int32_t>(static_cast<uint64_t>(sequence) >> _indexShift)]. *)
Definition calculateAvailabilityFlag (sequence : Z) : Z :=
  wraps 32 (Z.shiftr (wrapu 64 sequence) indexShift).

Definition setAvailableBufferValue (index flag : Z) (st : t) : t :=
  mk (cursor st) (<[index := flag]> (available st)) (gatingCache st).

Definition setAvailable (sequence : Z) (st : t) : t :=
  setAvailableBufferValue (calculateIndex sequence) (calculateAvailabilityFlag sequence) st.

Definition init : t := mk kInitialCursorValue (λ _, -1) kInitialCursorValue.

Definition hasAvailableCapacity (st : t) (deps : list Z) (requiredCapacity cursorValue : Z)
  : bool * t :=
  let wrapPoint := (cursorValue + requiredCapacity) - SIZE in
  if (gatingCache st <? wrapPoint) || (cursorValue <? gatingCache st) then
    let minSequence := min_of deps cursorValue in
    let st' := mk (cursor st) (available st) minSequence in
    if minSequence <? wrapPoint then (false, st') else (true, st')
  else (true, st).

(** One turn of the loop of [next], run without interference: [None]
    means "go round again". *)
Definition next_turn (st : t) (deps : list Z) (n_slots_to_claim : Z) : option Z * t :=
  let current := cursor st in
  let nxt := current + n_slots_to_claim in
  let wrapPoint := nxt - SIZE in
  if (gatingCache st <? wrapPoint) || (current <? gatingCache st) then
    let gatingSequence := min_of deps current in
    if gatingSequence <? wrapPoint then (None, st)
    else (None, mk (cursor st) (available st) gatingSequence)
  else (Some nxt, mk nxt (available st) (gatingCache st)).

Fixpoint next (st : t) (obs : list (list Z)) (n_slots_to_claim : Z) : option (Z * t) :=
  match obs with
  | [] => None
  | deps :: obs' =>
      match next_turn st deps n_slots_to_claim with
      | (Some nxt, st') => Some (nxt, st')
      | (None, st') => next st' obs' n_slots_to_claim
      end
  end.

Definition tryNext (st : t) (deps : list Z) (n_slots_to_claim : Z) : result Z * t :=
  let current := cursor st in
  let nxt := current + n_slots_to_claim in
  match hasAvailableCapacity st deps n_slots_to_claim current with
  | (false, st') => (Throw NoCapacityException, st')
  | (true, st') => (Ok nxt, mk nxt (available st') (gatingCache st'))
  end.

Definition getRemainingCapacity (st : t) (deps : list Z) : Z :=
  let produced := cursor st in
  let consumed := min_of deps produced in
  SIZE - (produced - consumed).

Definition publish (sequence : Z) (st : t) : t := setAvailable sequence st.

Definition isAvailable (st : t) (sequence : Z) : bool :=
  available st (calculateIndex sequence) =? calculateAvailabilityFlag sequence.

(** The scan from [lowerBound]; it makes at most
    [availableSequence - lowerBound + 1] turns. *)
Fixpoint scan (st : t) (fuel : nat) (sequence availableSequence : Z) : Z :=
  match fuel with
  | O => availableSequence
  | S fuel' =>
      if sequence <=? availableSequence then
        if isAvailable st sequence then scan st fuel' (sequence + 1) availableSequence
        else sequence - 1
      else availableSequence
  end.

Definition getHighestPublishedSequence (st : t) (lowerBound availableSequence : Z) : Z :=
  scan st (Z.to_nat (availableSequence - lowerBound + 1)) lowerBound availableSequence.

(** *** The scan *)

Lemma scan_spec st fuel s avail :
  s - 1 ≤ avail → (Z.to_nat (avail - s + 1) ≤ fuel)%nat →
  let h := scan st fuel s avail in
  s - 1 ≤ h ≤ avail ∧ (∀ x, s ≤ x ≤ h → isAvailable st x = true)
  ∧ (h < avail → isAvailable st (h + 1) = false).
Proof.
  revert s. induction fuel as [|fuel IH]; intros s Hs Hf; simpl.
  - split; [lia|]. split; [intros; lia|lia].
  - destruct (Z.leb_spec s avail) as [Hle|Hle]; [|split; [lia|split; [intros; lia|lia]]].
    destruct (isAvailable st s) eqn:Ha.
    + destruct (IH (s + 1)) as (H1 & H2 & H3); [lia|lia|].
      split; [lia|]. split; [|done].
      intros x Hx. destruct (decide (x = s)) as [->|]; [done|]. apply H2. lia.
    + split; [lia|]. split; [intros; lia|]. intros _. by replace (s - 1 + 1) with s by lia.
Qed.

Lemma getHighest_spec st lb avail :
  lb - 1 ≤ avail →
  let h := getHighestPublishedSequence st lb avail in
  lb - 1 ≤ h ≤ avail ∧ (∀ x, lb ≤ x ≤ h → isAvailable st x = true)
  ∧ (h < avail → isAvailable st (h + 1) = false).
Proof. intros H. by apply scan_spec. Qed.

Lemma publish_available s st : isAvailable (publish s st) s = true.
Proof.
  unfold isAvailable, publish, setAvailable, setAvailableBufferValue. simpl.
  rewrite fn_lookup_insert. apply Z.eqb_refl.
Qed.
End ops.

#[export] Program Instance strategy (SIZE : Z) : ClaimStrategy t := {|
  cs_cursor := cursor;
  cs_hasAvailableCapacity := hasAvailableCapacity SIZE;
  cs_next := next SIZE;
  cs_tryNext := tryNext SIZE;
  cs_getRemainingCapacity := getRemainingCapacity SIZE;
  cs_publish := publish SIZE;
  cs_isAvailable := isAvailable SIZE;
  cs_getHighestPublishedSequence := getHighestPublishedSequence SIZE
|}.
Next Obligation.
  intros SIZE st lb avail s Hav Hs.
  destruct (decide (lb - 1 ≤ avail)) as [H|H].
  - by apply (getHighest_spec SIZE st lb avail H).
  - exfalso. unfold getHighestPublishedSequence in Hs.
    replace (Z.to_nat (avail - lb + 1)) with 0%nat in Hs by lia. simpl in Hs. lia.
Qed.
Next Obligation. intros SIZE st lb avail H. by apply getHighest_spec. Qed.
Next Obligation.
  intros SIZE st deps n e st'. unfold tryNext, hasAvailableCapacity.
  repeat case_match; naive_solver.
Qed.
Next Obligation. intros. apply publish_available. Qed.

End Multi.
