(* ===== verification/Producers.v ===== *)
(** * Producers: concurrent claims of [MultiThreadedStrategy]

    [MultiThreadedStrategy::next], [publish] and the consumers' progress, cut
    at every atomic access, as a step relation of any number of producer
    threads.  [detail::getMinimumSequence] is a loop of its own: its two
    preprocessor branches read the gating sequences differently, and the
    relation is indexed by the branch. *)

From S2P Require Import Prelude Sequence Claim.
Import Multi.
Local Open Scope Z_scope.

(** ** Indices and availability flags *)

Section bits.
Context (k : Z) (Hk : 0 ≤ k ≤ 31).
Abbreviation SIZE := (2 ^ k).

Lemma size_pos : 0 < 2 ^ k.
Proof using Hk. apply Z.pow_pos_nonneg; lia. Qed.

Lemma pow2_split a b : 0 ≤ a → 0 ≤ b → 2 ^ (a + b) = 2 ^ a * 2 ^ b.
Proof using. apply Z.pow_add_r. Qed.

Lemma ceillog2_pow2 : ceillog2 (2 ^ k) = k.
Proof using Hk.
  assert (H : forallb (λ n, ceillog2 (2 ^ Z.of_nat n) =? Z.of_nat n) (seq 0 32) = true)
    by (vm_compute; reflexivity).
  rewrite forallb_forall in H. specialize (H (Z.to_nat k)).
  rewrite Z2Nat.id in H by lia. apply Z.eqb_eq, H, in_seq. lia.
Qed.

Lemma wraps_mod_pow2 w z : k ≤ w → 0 < w → wraps w z mod 2 ^ k = z mod 2 ^ k.
Proof using Hk.
  intros Hw Hw0. unfold wraps.
  replace w with (k + (w - k)) at 2 by lia. rewrite pow2_split by lia.
  pose proof (Z.div_mod (z + 2 ^ (w - 1)) (2 ^ k * 2 ^ (w - k)) ltac:(
    pose proof size_pos; pose proof (Z.pow_pos_nonneg 2 (w - k) ltac:(lia) ltac:(lia)); nia)) as E.
  set (q := (z + 2 ^ (w - 1)) / (2 ^ k * 2 ^ (w - k))) in E.
  replace ((z + 2 ^ (w - 1)) mod (2 ^ k * 2 ^ (w - k)) - 2 ^ (w - 1))
    with (z + (- (2 ^ (w - k) * q)) * 2 ^ k) by lia.
  apply Z.mod_add. pose proof size_pos. lia.
Qed.

Lemma calculateIndex_mod s : calculateIndex (2 ^ k) s = s mod 2 ^ k.
Proof using Hk.
  unfold calculateIndex, indexMask. rewrite land_mask by lia. apply wraps_mod_pow2; lia.
Qed.

Lemma wraps_eq_iff w x y : 0 < w → wraps w x = wraps w y ↔ x mod 2 ^ w = y mod 2 ^ w.
Proof using.
  intros Hw. unfold wraps. assert (0 < 2 ^ w) by (apply Z.pow_pos_nonneg; lia).
  rewrite <- (Zplus_mod_idemp_l x), <- (Zplus_mod_idemp_l y). split; [|by intros ->].
  intros E. assert (E' : (x mod 2 ^ w + 2 ^ (w - 1)) mod 2 ^ w
                         = (y mod 2 ^ w + 2 ^ (w - 1)) mod 2 ^ w) by lia.
  pose proof (Z.mod_pos_bound x (2 ^ w)). pose proof (Z.mod_pos_bound y (2 ^ w)).
  pose proof (pow2_half w Hw).
  assert (Hm : ∀ a, 0 ≤ a < 2 ^ w → (a + 2 ^ (w - 1)) mod 2 ^ w
           = if a <? 2 ^ (w - 1) then a + 2 ^ (w - 1) else a - 2 ^ (w - 1)).
  { intros a Ha. destruct (Z.ltb_spec a (2 ^ (w - 1))).
    - apply Z.mod_small. lia.
    - rewrite <- (Z.mod_small (a - 2 ^ (w - 1)) (2 ^ w)) by lia.
      replace (a + 2 ^ (w - 1)) with (a - 2 ^ (w - 1) + 1 * 2 ^ w) by lia.
      apply Z.mod_add. lia. }
  rewrite !Hm in E' by lia.
  destruct (Z.ltb_spec (x mod 2 ^ w) (2 ^ (w - 1))), (Z.ltb_spec (y mod 2 ^ w) (2 ^ (w - 1))); lia.
Qed.

(** The flag is the number of the lap around the buffer, to 32 bits. *)
Lemma flag_lap s :
  calculateAvailabilityFlag (2 ^ k) s = wraps 32 (s / 2 ^ k).
Proof using Hk.
  unfold calculateAvailabilityFlag, indexShift, wrapu. rewrite ceillog2_pow2.
  rewrite Z.shiftr_div_pow2 by lia. apply wraps_eq_iff; [lia|].
  pose proof size_pos as Hs.
  assert (H64 : 2 ^ 64 = 2 ^ (64 - k) * 2 ^ k) by (rewrite <- pow2_split by lia; f_equal; lia).
  assert (H32 : 2 ^ (64 - k) = 2 ^ (32 - k) * 2 ^ 32) by (rewrite <- pow2_split by lia; f_equal; lia).
  pose proof (Z.div_mod s (2 ^ 64) ltac:(done)) as E.
  set (q := s / 2 ^ 64) in E. set (r := s mod 2 ^ 64) in *. rewrite H64 in E.
  assert (s / 2 ^ k = r / 2 ^ k + 2 ^ (32 - k) * q * 2 ^ 32) as ->.
  { rewrite E at 1. replace (2 ^ (64 - k) * 2 ^ k * q + r) with (r + (2 ^ (64 - k) * q) * 2 ^ k) by ring.
    rewrite Z.div_add by lia. rewrite H32. ring. }
  symmetry. by apply Z.mod_add.
Qed.

(** Publishing [s] makes the slot of [s] answer for [s] alone: among
    all sequences less than [2^32] laps away (a lap is [SIZE] sequences),
    [isAvailable] changes only on the slot of [s], where it is true of [s]
    and false of every other one. *)
Theorem publish_isAvailable st s t' :
  Z.abs (s - t') < 2 ^ 32 * 2 ^ k →
  isAvailable (2 ^ k) (publish (2 ^ k) s st) t' =
  if bool_decide (t' mod 2 ^ k = s mod 2 ^ k) then bool_decide (t' = s)
  else isAvailable (2 ^ k) st t'.
Proof using Hk.
  intros Hd. unfold isAvailable, publish, setAvailable, setAvailableBufferValue. simpl.
  rewrite !calculateIndex_mod. pose proof size_pos as Hs.
  case_bool_decide as Hi.
  - rewrite Hi, fn_lookup_insert. rewrite !flag_lap.
    apply Bool.eq_iff_eq_true. rewrite Z.eqb_eq, bool_decide_eq_true.
    split; [|by intros ->]. rewrite wraps_eq_iff by lia. intros E.
    pose proof (Z.div_mod s (2 ^ k)). pose proof (Z.div_mod t' (2 ^ k)).
    pose proof (Z.div_mod (s / 2 ^ k) (2 ^ 32) ltac:(done)).
    pose proof (Z.div_mod (t' / 2 ^ k) (2 ^ 32) ltac:(done)).
    assert (Hq : s - t' = (2 ^ 32 * 2 ^ k) * (s / 2 ^ k / 2 ^ 32 - t' / 2 ^ k / 2 ^ 32)) by nia.
    assert (s / 2 ^ k / 2 ^ 32 - t' / 2 ^ k / 2 ^ 32 = 0) by nia. nia.
  - rewrite fn_lookup_insert_ne by done. done.
Qed.
End bits.

Lemma publish_isAvailable_witness :
  (0 ≤ 2 ∧ 2 ≤ 31) ∧ isAvailable (2 ^ 2) (publish (2 ^ 2) 9 (init)) 5 = false
  ∧ isAvailable (2 ^ 2) (publish (2 ^ 2) 9 init) 9 = true.
Proof.
  split; [lia|]. split.
  - rewrite (publish_isAvailable 2 ltac:(lia) init 9 5 ltac:(lia)). reflexivity.
  - rewrite (publish_isAvailable 2 ltac:(lia) init 9 9 ltac:(lia)). reflexivity.
Defined.

(** ** The step relation *)

(** Which preprocessor branch of [getMinimumSequence] is compiled. *)
Inductive stdlib : Type :=
  | Libcxx      (* #else: the values are copied into a vector first *)
  | Libstdcxx.  (* #if not defined(_LIBCPP_VERSION): ranges::min, then value() again *)

(** The program counter of a producer thread in [next(dependents, n)]. *)
Inductive pc : Type :=
  | Idle
  | Ready (n : Z)                               (* top of the loop *)
  | LoadedCursor (n current : Z)
  | LoadedCache (n current cached : Z)
  | Copying (n current : Z) (vs : list Z)       (* Libcxx: values pushed so far *)
  | Comparing (n current : Z) (i best : nat)    (* Libstdcxx: running argmin *)
  | GotMinimum (n current gatingSequence : Z).

Record conc : Type := mkc {
  ring : t;
  gating : list Z;          (* the values of the gating sequences *)
  threads : list pc;
  claims : list (Z * Z);    (* the claimed ranges (lo, hi], newest first *)
  published : gset Z        (* the sequences published so far *)
}.

Definition conc_init (gs : nat) (ts : nat) : conc :=
  mkc init (replicate gs kInitialCursorValue) (replicate ts Idle) [] ∅.

Definition with_pc (i : nat) (p : pc) (c : conc) : conc :=
  mkc (ring c) (gating c) (<[i := p]> (threads c)) (claims c) (published c).
Definition with_ring (r : t) (c : conc) : conc :=
  mkc r (gating c) (threads c) (claims c) (published c).

(** The test of [next] that sends a producer to look at the consumers. *)
Definition must_look (SIZE n current cached : Z) : bool :=
  (cached <? (current + n) - SIZE) || (current <? cached).

Inductive step (lib : stdlib) (SIZE : Z) (c : conc) : conc → Prop :=
  | step_call i n :
      threads c !! i = Some Idle → 0 < n →
      step lib SIZE c (with_pc i (Ready n) c)
  | step_load_cursor i n :
      threads c !! i = Some (Ready n) →
      step lib SIZE c (with_pc i (LoadedCursor n (cursor (ring c))) c)
  | step_load_cache i n cur :
      threads c !! i = Some (LoadedCursor n cur) →
      step lib SIZE c (with_pc i (LoadedCache n cur (gatingCache (ring c))) c)
  | step_cas_ok i n cached :
      threads c !! i = Some (LoadedCache n (cursor (ring c)) cached) →
      must_look SIZE n (cursor (ring c)) cached = false →
      step lib SIZE c
        (mkc (mk (cursor (ring c) + n) (available (ring c)) (gatingCache (ring c)))
             (gating c) (<[i := Idle]> (threads c))
             ((cursor (ring c), cursor (ring c) + n) :: claims c) (published c))
  | step_cas_fail i n cur cached :
      threads c !! i = Some (LoadedCache n cur cached) →
      must_look SIZE n cur cached = false → cur ≠ cursor (ring c) →
      step lib SIZE c (with_pc i (Ready n) c)
  | step_look_copy i n cur cached :
      lib = Libcxx →
      threads c !! i = Some (LoadedCache n cur cached) → must_look SIZE n cur cached = true →
      step lib SIZE c (with_pc i (Copying n cur []) c)
  | step_copy i n cur vs v :
      threads c !! i = Some (Copying n cur vs) → gating c !! length vs = Some v →
      step lib SIZE c (with_pc i (Copying n cur (vs ++ [v])) c)
  | step_copied i n cur vs :
      threads c !! i = Some (Copying n cur vs) → length vs = length (gating c) →
      step lib SIZE c (with_pc i (GotMinimum n cur (min_of vs cur)) c)
  | step_look_compare i n cur cached :
      lib = Libstdcxx → gating c ≠ [] →
      threads c !! i = Some (LoadedCache n cur cached) → must_look SIZE n cur cached = true →
      step lib SIZE c (with_pc i (Comparing n cur 1 0) c)
  | step_look_empty i n cur cached :
      lib = Libstdcxx → gating c = [] →
      threads c !! i = Some (LoadedCache n cur cached) → must_look SIZE n cur cached = true →
      step lib SIZE c (with_pc i (GotMinimum n cur cur) c)
  | step_compare i n cur j best v w :
      threads c !! i = Some (Comparing n cur j best) →
      gating c !! j = Some v → gating c !! best = Some w →
      step lib SIZE c (with_pc i (Comparing n cur (S j) (if v <? w then j else best)) c)
  | step_compared i n cur best w :
      threads c !! i = Some (Comparing n cur (length (gating c)) best) →
      gating c !! best = Some w →
      step lib SIZE c (with_pc i (GotMinimum n cur (Z.min cur w)) c)
  | step_spin i n cur m :
      threads c !! i = Some (GotMinimum n cur m) → m < (cur + n) - SIZE →
      step lib SIZE c (with_pc i (Ready n) c)
  | step_set_cache i n cur m :
      threads c !! i = Some (GotMinimum n cur m) → (cur + n) - SIZE ≤ m →
      step lib SIZE c
        (with_pc i (Ready n) (with_ring (mk (cursor (ring c)) (available (ring c)) m) c))
  (* a claimed sequence is published, in any order *)
  | step_publish s :
      0 ≤ s ≤ cursor (ring c) → s ∉ published c →
      step lib SIZE c
        (mkc (publish SIZE s (ring c)) (gating c) (threads c) (claims c) ({[s]} ∪ published c))
  (* a consumer moves on, as far as it is told that events are published *)
  | step_consume j v v' :
      gating c !! j = Some v →
      v < v' ≤ getHighestPublishedSequence SIZE (ring c) (v + 1) (cursor (ring c)) →
      step lib SIZE c
        (mkc (ring c) (<[j := v']> (gating c)) (threads c) (claims c) (published c)).

Inductive reachable (lib : stdlib) (SIZE : Z) (gs ts : nat) : conc → Prop :=
  | reach_init : reachable lib SIZE gs ts (conc_init gs ts)
  | reach_step c c' :
      reachable lib SIZE gs ts c → step lib SIZE c c' → reachable lib SIZE gs ts c'.

(** ** Claims partition the sequence numbers *)

Inductive contiguous : list (Z * Z) → Z → Prop :=
  | contiguous_nil : contiguous [] kInitialCursorValue
  | contiguous_cons cl lo hi : contiguous cl lo → lo < hi → contiguous ((lo, hi) :: cl) hi.

Lemma contiguous_bounds cl hi lo' hi' :
  contiguous cl hi → (lo', hi') ∈ cl → -1 ≤ lo' ∧ lo' < hi' ≤ hi.
Proof.
  intros H. revert lo' hi'. induction H as [|cl lo hi H IH Hlt]; intros lo' hi'.
  - by intros ?%elem_of_nil.
  - intros [[= -> ->]|Hin]%elem_of_cons.
    + split; [|lia]. clear IH Hlt. induction H; unfold kInitialCursorValue; lia.
    + specialize (IH _ _ Hin). lia.
Qed.

Definition busy_n (p : pc) : option Z :=
  match p with
  | Idle => None
  | Ready n | LoadedCursor n _ | LoadedCache n _ _ | Copying n _ _ | Comparing n _ _ _
  | GotMinimum n _ _ => Some n
  end.

Record claim_inv (c : conc) : Prop := {
  ci_chain : contiguous (claims c) (cursor (ring c));
  ci_pos i p n : threads c !! i = Some p → busy_n p = Some n → 0 < n
}.

Lemma with_pc_pos i p c n0 :
  (∀ i p n, threads c !! i = Some p → busy_n p = Some n → 0 < n) →
  (busy_n p = None ∨ (busy_n p = Some n0 ∧ 0 < n0)) →
  ∀ i' p' n', <[i := p]> (threads c) !! i' = Some p' → busy_n p' = Some n' → 0 < n'.
Proof.
  intros H Hp i' p' n'. rewrite list_lookup_insert. case_decide as Hd; [|eauto].
  intros [= <-] Hb. destruct Hp as [Hp|[Hp ?]]; congruence.
Qed.

Lemma step_claim_inv lib SIZE c c' : claim_inv c → step lib SIZE c c' → claim_inv c'.
Proof.
  intros [Hc Hp] Hs. destruct Hs; constructor; simpl; try done;
    try (eapply (with_pc_pos _ _ _ n); [exact Hp|]; simpl; eauto; fail).
  constructor; [done|]. specialize (Hp _ _ n H eq_refl). lia.
Qed.

Lemma reachable_claim_inv lib SIZE gs ts c : reachable lib SIZE gs ts c → claim_inv c.
Proof.
  induction 1 as [|c c' _ IH Hs]; [|by eapply step_claim_inv].
  constructor; simpl; [constructor|].
  intros i p n [-> _]%lookup_replicate. done.
Qed.

Lemma contiguous_ordered cl hi0 i j lo hi lo' hi' :
  contiguous cl hi0 → cl !! i = Some (lo, hi) → cl !! j = Some (lo', hi') → (i < j)%nat → hi' ≤ lo ∧ lo < hi ∧ lo' < hi' ∧ hi ≤ hi0.
Proof.
  intros Hc. revert i j. induction Hc as [|cl l h Hc IH Hlt]; intros i j Hi Hj Hij; [done|].
  destruct j as [|j]; [lia|]. simpl in Hj. destruct i as [|i]; simpl in Hi.
  - simplify_eq. apply list_elem_of_lookup_2, (contiguous_bounds _ _ _ _ Hc) in Hj. lia.
  - destruct (IH i j Hi Hj) as (? & ? & ? & ?); [lia|]. lia.
Qed.

Lemma contiguous_covers cl hi0 s :
  contiguous cl hi0 → (kInitialCursorValue < s ≤ hi0 ↔ ∃ i lo hi, cl !! i = Some (lo, hi) ∧ lo < s ≤ hi).
Proof.
  induction 1 as [|cl lo hi Hc IH Hlt]; [split; [lia|by intros (? & ? & ? & ? & _)]|]. split.
  - intros Hs. destruct (decide (s ≤ lo)) as [Hle|Hgt].
    + destruct (proj1 IH ltac:(lia)) as (i & l & h & E & Hb). by exists (S i), l, h.
    + exists 0%nat, lo, hi. split; [done|lia].
  - intros ([|i] & l & h & E & Hb); simpl in E.
    + injection E as <- <-. enough (kInitialCursorValue ≤ lo) by lia. clear -Hc. induction Hc; unfold kInitialCursorValue in *; lia.
    + assert (kInitialCursorValue < s ≤ lo); [|lia]. apply IH. eauto.
Qed.

(** C31: In every interleaving, and for both branches of [getMinimumSequence], the
    ranges that have been handed out (newest first) follow each other, each above
    those that came before it, and without gap: the sequences after the initial cursor
    and up to the current one are exactly those that are in a range, each in one. *)
Theorem claims_disjoint lib SIZE gs ts c :
  reachable lib SIZE gs ts c →
  (∀ i j lo hi lo' hi', claims c !! i = Some (lo, hi) → claims c !! j = Some (lo', hi') → (i < j)%nat →
     hi' ≤ lo ∧ lo < hi ∧ lo' < hi' ∧ hi ≤ cursor (ring c)) ∧
  (∀ s, kInitialCursorValue < s ≤ cursor (ring c) ↔ ∃ i lo hi, claims c !! i = Some (lo, hi) ∧ lo < s ≤ hi).
Proof.
  intros [Hc _]%reachable_claim_inv. split; [|intros s; by apply contiguous_covers].
  intros i j lo hi lo' hi'. by eapply contiguous_ordered.
Qed.

(** ** No slot is claimed before every consumer has left it *)

Definition pc_ok (c : conc) (p : pc) : Prop :=
  match p with
  | Idle | Ready _ => True
  | LoadedCursor _ cur => cur ≤ cursor (ring c)
  | LoadedCache _ cur cached =>
      cur ≤ cursor (ring c) ∧ Forall (λ v, cached ≤ v) (gating c)
  | Copying _ cur vs =>
      cur ≤ cursor (ring c) ∧ ∀ j v w, vs !! j = Some v → gating c !! j = Some w → v ≤ w
  | Comparing _ _ _ _ => False
  | GotMinimum _ _ m => Forall (λ v, m ≤ v) (gating c)
  end.

Lemma pc_ok_mono c c' p :
  cursor (ring c) ≤ cursor (ring c') → Forall2 Z.le (gating c) (gating c') →
  pc_ok c p → pc_ok c' p.
Proof.
  intros Hcur Hg.
  assert (Hall : ∀ m, Forall (λ v, m ≤ v) (gating c) → Forall (λ v, m ≤ v) (gating c')).
  { intros m H. eapply Forall2_Forall_r; [exact Hg|].
    eapply Forall_impl; [exact H|]. simpl. lia. }
  destruct p; simpl; try done; try lia; try (intros [??]; split; [lia|auto]; fail); auto.
  intros [? H]. split; [lia|]. intros j v w' Hv Hw'.
  destruct (Forall2_lookup_r _ _ _ _ _ Hg Hw') as (w & Hw & Hle).
  specialize (H j v w Hv Hw). lia.
Qed.

Section safety.
Context (k : Z) (Hk : 0 ≤ k ≤ 31).

(** The sequence whose flag is in the slot of [s], for [s] in the window of
    the last [SIZE] sequences. *)
Definition slot_owner (pub : gset Z) (s : Z) : Z :=
  if decide (s < 0 ∨ s ∈ pub) then s else s - 2 ^ k.

Record safe_inv (c : conc) : Prop := {
  si_ne : gating c ≠ [];
  si_gate v : v ∈ gating c → -1 ≤ v ∧ cursor (ring c) - 2 ^ k ≤ v ≤ cursor (ring c);
  si_cache : Forall (λ v, gatingCache (ring c) ≤ v) (gating c);
  si_pc i p : threads c !! i = Some p → pc_ok c p;
  si_pub s : s ∈ published c → 0 ≤ s ≤ cursor (ring c);
  si_passed v s : v ∈ gating c → 0 ≤ s ≤ v → s ∈ published c;
  si_slot s : cursor (ring c) - 2 ^ k < s ≤ cursor (ring c) →
    available (ring c) (s mod 2 ^ k)
    = calculateAvailabilityFlag (2 ^ k) (slot_owner (published c) s)
}.

Lemma flag_prev_lap s :
  calculateAvailabilityFlag (2 ^ k) (s - 2 ^ k) ≠ calculateAvailabilityFlag (2 ^ k) s.
Proof using Hk.
  rewrite !flag_lap, wraps_eq_iff by lia. pose proof (size_pos k Hk).
  replace (s - 2 ^ k) with (s + (-1) * 2 ^ k) by lia. rewrite Z.div_add by lia.
  pose proof (Z.div_mod (s / 2 ^ k) (2 ^ 32) ltac:(done)).
  pose proof (Z.div_mod (s / 2 ^ k + -1) (2 ^ 32) ltac:(done)). lia.
Qed.

Lemma window_eq a s x :
  a - 2 ^ k < s ≤ a → a - 2 ^ k < x ≤ a → x mod 2 ^ k = s mod 2 ^ k → x = s.
Proof using Hk.
  intros Hs Hx E. pose proof (size_pos k Hk).
  pose proof (Z.div_mod s (2 ^ k) ltac:(lia)). pose proof (Z.div_mod x (2 ^ k) ltac:(lia)).
  assert (x - s = 2 ^ k * (x / 2 ^ k - s / 2 ^ k)) by lia.
  assert (x / 2 ^ k - s / 2 ^ k = 0) by nia. nia.
Qed.

(** In the window, availability is publication. *)
Lemma isAvailable_published c s :
  safe_inv c → 0 ≤ s → cursor (ring c) - 2 ^ k < s ≤ cursor (ring c) →
  isAvailable (2 ^ k) (ring c) s = true ↔ s ∈ published c.
Proof using Hk.
  intros Hi Hs Hw. unfold isAvailable. rewrite (calculateIndex_mod k Hk), Z.eqb_eq.
  rewrite (si_slot c Hi s Hw). unfold slot_owner. case_decide as Hd.
  - split; [intros _|done]. destruct Hd; [lia|done].
  - split; [|intros; exfalso; apply Hd; by right]. intros E. by apply flag_prev_lap in E.
Qed.

Lemma gating_in c : safe_inv c → ∃ v, v ∈ gating c.
Proof using.
  intros Hi. pose proof (si_ne c Hi). destruct (gating c) as [|v g]; [done|].
  exists v. constructor.
Qed.

Lemma safe_init gs ts : (0 < gs)%nat → safe_inv (conc_init gs ts).
Proof using Hk.
  intros Hgs. pose proof (size_pos k Hk). unfold conc_init. constructor; simpl.
  - destruct gs; [lia|done].
  - intros v [-> _]%elem_of_replicate. unfold kInitialCursorValue. lia.
  - apply Forall_replicate. simpl. lia.
  - intros i p [-> _]%lookup_replicate. done.
  - set_solver.
  - intros v s [-> _]%elem_of_replicate. unfold kInitialCursorValue. lia.
  - unfold kInitialCursorValue. intros s Hs. unfold slot_owner. rewrite decide_True by lia.
    rewrite flag_lap by done. assert (s / 2 ^ k = -1) as ->; [|done].
    symmetry. apply (Z.div_unique_pos s (2 ^ k) (-1) (s + 2 ^ k)); lia.
Qed.

(** Steps that change a program counter only. *)
Lemma safe_with_pc c i p : safe_inv c → pc_ok c p → safe_inv (with_pc i p c).
Proof using.
  intros [] Hp. constructor; simpl; try done.
  intros i' p'. rewrite list_lookup_insert. case_decide; [|eauto].
  intros [= <-]. destruct p; done.
Qed.

Lemma safe_cas c i n cached :
  safe_inv c → 0 < n → pc_ok c (LoadedCache n (cursor (ring c)) cached) →
  must_look (2 ^ k) n (cursor (ring c)) cached = false →
  safe_inv
    (mkc (mk (cursor (ring c) + n) (available (ring c)) (gatingCache (ring c)))
         (gating c) (<[i := Idle]> (threads c))
         ((cursor (ring c), cursor (ring c) + n) :: claims c) (published c)).
Proof using Hk.
  intros Hi Hn [_ Hcached] [Hw1 Hw2]%orb_false_iff. apply Z.ltb_ge in Hw1, Hw2.
  rewrite Forall_forall in Hcached. pose proof (gating_in c Hi) as [v0 Hv0].
  pose proof (size_pos k Hk).
  constructor; simpl.
  - by apply si_ne.
  - intros v Hv. pose proof (si_gate c Hi v Hv). specialize (Hcached v Hv). lia.
  - by apply si_cache.
  - intros i' p'. rewrite list_lookup_insert. case_decide; [by intros [= <-]|].
    intros Hp. eapply pc_ok_mono; [| |by eapply si_pc]; simpl; [lia|].
    apply Forall_Forall2_diag, Forall_true. intros; lia.
  - intros s Hs%(si_pub c Hi). lia.
  - apply (si_passed c Hi).
  - intros s Hs. destruct (decide (s ≤ cursor (ring c))) as [Hle|Hgt].
    + apply (si_slot c Hi). lia.
    + assert (Hprev : s - 2 ^ k < 0 ∨ s - 2 ^ k ∈ published c).
      { destruct (decide (s - 2 ^ k < 0)); [by left|right].
        apply (si_passed c Hi v0); [done|]. specialize (Hcached v0 Hv0). lia. }
      assert (s ∉ published c) by (intros ?%(si_pub c Hi); lia).
      pose proof (si_gate c Hi v0 Hv0).
      pose proof (si_slot c Hi (s - 2 ^ k) ltac:(specialize (Hcached v0 Hv0); lia)) as E.
      unfold slot_owner in E |- *. rewrite decide_True in E by done.
      rewrite decide_False by (intros [?|?]; [lia|done]). rewrite <- E. f_equal.
      replace s with (s - 2 ^ k + 1 * 2 ^ k) at 1 by lia. apply Z.mod_add. lia.
Qed.

Lemma safe_publish c s :
  safe_inv c → 0 ≤ s ≤ cursor (ring c) → s ∉ published c →
  safe_inv (mkc (publish (2 ^ k) s (ring c)) (gating c) (threads c) (claims c)
                ({[s]} ∪ published c)).
Proof using Hk.
  intros Hi Hs Hnew. pose proof (gating_in c Hi) as [v0 Hv0].
  assert (Hw : cursor (ring c) - 2 ^ k < s).
  { destruct (decide (s ≤ v0)); [exfalso; apply Hnew, (si_passed c Hi v0); [done|lia]|].
    pose proof (si_gate c Hi v0 Hv0). lia. }
  constructor; simpl.
  - by apply si_ne.
  - apply (si_gate c Hi).
  - by apply si_cache.
  - intros i p Hp. apply (si_pc c Hi) in Hp. by destruct p.
  - intros x [->%elem_of_singleton|Hx]%elem_of_union; [done|]. by apply si_pub.
  - intros v x Hv Hx. apply elem_of_union_r. by eapply si_passed.
  - intros x Hx. rewrite (calculateIndex_mod k Hk).
    destruct (decide (x = s)) as [->|Hne].
    + rewrite fn_lookup_insert. unfold slot_owner. rewrite decide_True by set_solver. done.
    + rewrite fn_lookup_insert_ne by (intros E; apply Hne, (window_eq (cursor (ring c))); [lia|lia|by symmetry]).
      rewrite (si_slot c Hi x Hx). unfold slot_owner.
      destruct (decide (x < 0 ∨ x ∈ published c)) as [Hd|Hd].
      * rewrite decide_True by set_solver. done.
      * rewrite decide_False; [done|]. intros [?|[?%elem_of_singleton|?]%elem_of_union]; naive_solver.
Qed.

Lemma safe_consume c j v v' :
  safe_inv c → gating c !! j = Some v →
  v < v' ≤ getHighestPublishedSequence (2 ^ k) (ring c) (v + 1) (cursor (ring c)) →
  safe_inv (mkc (ring c) (<[j := v']> (gating c)) (threads c) (claims c) (published c)).
Proof using Hk.
  intros Hi Hj Hv'. pose proof (si_gate c Hi v (list_elem_of_lookup_2 _ _ _ Hj)) as Hg.
  destruct (getHighest_spec (2 ^ k) (ring c) (v + 1) (cursor (ring c)) ltac:(lia))
    as (Hh & Hav & _).
  assert (Hle : Forall2 Z.le (gating c) (<[j:=v']> (gating c))).
  { apply Forall2_same_length_lookup_2; [by rewrite length_insert|].
    intros i x y Hx. rewrite list_lookup_insert. case_decide as Hd; intros Hy.
    - destruct Hd as [-> _]. simplify_eq. lia.
    - simplify_eq. lia. }
  assert (Hin : ∀ x, x ∈ <[j:=v']> (gating c) → x = v' ∨ x ∈ gating c).
  { intros x [i Hx]%list_elem_of_lookup. rewrite list_lookup_insert in Hx.
    case_decide; [left; congruence|right]. by eapply list_elem_of_lookup_2. }
  constructor; simpl.
  - intros E. apply (si_ne c Hi). apply (f_equal length) in E. rewrite length_insert in E.
    by apply length_zero_iff_nil.
  - intros x [->|Hx]%Hin; [lia|by apply si_gate].
  - eapply Forall2_Forall_r; [exact Hle|]. eapply Forall_impl; [by apply si_cache|]. simpl. lia.
  - intros i p Hp. eapply (pc_ok_mono c); simpl; [lia|done|]. by eapply si_pc.
  - apply (si_pub c Hi).
  - intros x s [->|Hx]%Hin Hs; [|by eapply si_passed].
    destruct (decide (s ≤ v)); [eapply si_passed; [done|by eapply list_elem_of_lookup_2|lia]|].
    apply (isAvailable_published c s Hi); [lia|lia|]. apply Hav. lia.
  - apply (si_slot c Hi).
Qed.

Lemma step_safe c c' : claim_inv c → safe_inv c → step Libcxx (2 ^ k) c c' → safe_inv c'.
Proof using Hk.
  intros Hcl Hi Hs. destruct Hs; try done;
    try (pose proof (si_pc c Hi _ _ H) as Hp; simpl in Hp; try done);
    try (apply safe_with_pc; [done|]; simpl; auto; fail).
  - apply safe_with_pc; [done|]. simpl. lia.
  - apply safe_with_pc; [done|]. simpl. split; [done|]. by apply si_cache.
  - eapply safe_cas; [done| |done|done]. by eapply ci_pos.
  - pose proof (si_pc c Hi _ _ H0) as [? _]. apply safe_with_pc; [done|]. simpl.
    split; [done|]. intros j v w. by rewrite lookup_nil.
  - destruct Hp as [Hc Hv]. apply safe_with_pc; [done|]. simpl. split; [done|].
    intros j x w Hx Hw. apply lookup_app_Some in Hx as [Hx|[Hj Hx]]; [eauto|].
    apply list_lookup_singleton_Some in Hx as [Hj' ->].
    assert (j = length vs) by lia. subst j. simplify_eq. lia.
  - destruct Hp as [Hc Hv]. apply safe_with_pc; [done|]. simpl.
    rewrite Forall_forall. intros w [j Hw]%list_elem_of_lookup.
    destruct (lookup_lt_is_Some_2 vs j) as [x Hx]; [rewrite H0; by eapply lookup_lt_Some|].
    pose proof (min_of_le vs cur x (list_elem_of_lookup_2 _ _ _ Hx)). specialize (Hv j x w Hx Hw). lia.
  - apply safe_with_pc; [|done]. destruct Hi. by constructor.
  - by apply safe_publish.
  - by eapply safe_consume.
Qed.

Lemma reachable_safe gs ts c :
  (0 < gs)%nat → reachable Libcxx (2 ^ k) gs ts c → safe_inv c.
Proof using Hk.
  intros Hgs. induction 1 as [|c c' Hr IH Hs]; [by apply safe_init|].
  eapply step_safe; [by eapply reachable_claim_inv|done|done].
Qed.
End safety.

(** C10: In every interleaving of any number of producers and consumers
    (with [getMinimumSequence] reading every gating sequence once), the
    producers never get more than a buffer length ahead of any consumer: no
    slot is handed out while a consumer still has to read it. *)
Theorem no_overrun k gs ts c v :
  0 ≤ k ≤ 31 → (0 < gs)%nat → reachable Libcxx (2 ^ k) gs ts c →
  v ∈ gating c → cursor (ring c) - 2 ^ k ≤ v ≤ cursor (ring c).
Proof. intros Hk Hgs Hr Hv. by apply (si_gate k c (reachable_safe k Hk gs ts c Hgs Hr) v). Qed.

(** Under the same conditions the availability buffer is exact: a
    claimed sequence of the current window is reported available if and only
    if it has been published, and everything a consumer has passed has been
    published before. *)
Theorem available_iff_published k gs ts c s :
  0 ≤ k ≤ 31 → (0 < gs)%nat → reachable Libcxx (2 ^ k) gs ts c → 0 ≤ s →
  (cursor (ring c) - 2 ^ k < s ≤ cursor (ring c) →
   isAvailable (2 ^ k) (ring c) s = true ↔ s ∈ published c)
  ∧ (∀ v, v ∈ gating c → s ≤ v → s ∈ published c).
Proof.
  intros Hk Hgs Hr Hs. pose proof (reachable_safe k Hk gs ts c Hgs Hr) as Hi. split.
  - intros Hw. by apply isAvailable_published.
  - intros v Hv Hle. by eapply si_passed.
Qed.

(** ** The other branch of [getMinimumSequence] *)

(** [H] is the reachability of a state; extend it by the step [s]. *)
Tactic Notation "advance" hyp(H) "by" uconstr(s) :=
  eapply reach_step in H; [|eapply s; first [reflexivity | done | by vm_compute | set_solver]].

(** A run of one producer: it claims the whole buffer and publishes it. *)
Definition filled : t := publish 4 3 (publish 4 2 (publish 4 1 (publish 4 0 (mk 3 (λ _, -1) (-1))))).

Lemma filled_reachable lib gs :
  ∃ pub, reachable lib 4 gs 1 (mkc filled (replicate gs (-1)) [Idle] [(-1, 3)] pub).
Proof.
  pose proof (reach_init lib 4 gs 1) as H.
  advance H by (step_call _ _ _ 0%nat 4).
  advance H by (step_load_cursor _ _ _ 0%nat 4).
  advance H by (step_load_cache _ _ _ 0%nat 4 (-1)).
  advance H by (step_cas_ok _ _ _ 0%nat 4 (-1)).
  advance H by (step_publish _ _ _ 0).
  advance H by (step_publish _ _ _ 1).
  advance H by (step_publish _ _ _ 2).
  advance H by (step_publish _ _ _ 3).
  eexists. exact H.
Qed.

(** The branch compiled with libstdc++ first finds the position of the
    minimum and then reads that sequence again.  A consumer that moves on
    between the two reads makes the result too large, and [next] hands out
    slots another consumer has not read: with two consumers the overrun is
    reachable. *)
Theorem libstdcxx_overrun :
  ∃ c v, reachable Libstdcxx 4 2 1 c ∧ v ∈ gating c ∧ v < cursor (ring c) - 4
         ∧ (v + 1, cursor (ring c) - 4) = (0, 3).
Proof.
  destruct (filled_reachable Libstdcxx 2) as [pub H].
  advance H by (step_call _ _ _ 0%nat 4).
  advance H by (step_load_cursor _ _ _ 0%nat 4).
  advance H by (step_load_cache _ _ _ 0%nat 4 3).
  advance H by (step_look_compare _ _ _ 0%nat 4 3 (-1)).
  advance H by (step_compare _ _ _ 0%nat 4 3 1 0 (-1) (-1)).
  advance H by (step_consume _ _ _ 0%nat (-1) 3).
  advance H by (step_compared _ _ _ 0%nat 4 3 0 3).
  advance H by (step_set_cache _ _ _ 0%nat 4 3 3).
  advance H by (step_load_cursor _ _ _ 0%nat 4).
  advance H by (step_load_cache _ _ _ 0%nat 4 3).
  advance H by (step_cas_ok _ _ _ 0%nat 4 3).
  eexists _, (-1). split; [exact H|]. split; [set_solver|]. split; [by vm_compute|reflexivity].
Qed.

(** ** The theorems at concrete runs *)

Lemma two_claims_reachable :
  ∃ c, reachable Libcxx 4 1 1 c ∧ claims c = [(0, 2); (-1, 0)].
Proof.
  pose proof (reach_init Libcxx 4 1 1) as H.
  advance H by (step_call _ _ _ 0%nat 1).
  advance H by (step_load_cursor _ _ _ 0%nat 1).
  advance H by (step_load_cache _ _ _ 0%nat 1 (-1)).
  advance H by (step_cas_ok _ _ _ 0%nat 1 (-1)).
  advance H by (step_call _ _ _ 0%nat 2).
  advance H by (step_load_cursor _ _ _ 0%nat 2).
  advance H by (step_load_cache _ _ _ 0%nat 2 0).
  advance H by (step_cas_ok _ _ _ 0%nat 2 (-1)).
  eexists. split; [exact H|reflexivity].
Qed.

Lemma claims_disjoint_witness :
  ∃ c, reachable Libcxx 4 1 1 c ∧ claims c = [(0, 2); (-1, 0)] ∧
  (∀ i j lo hi lo' hi', claims c !! i = Some (lo, hi) → claims c !! j = Some (lo', hi') → (i < j)%nat →
     hi' ≤ lo ∧ lo < hi ∧ lo' < hi' ∧ hi ≤ cursor (ring c)) ∧
  (∀ s, kInitialCursorValue < s ≤ cursor (ring c) ↔ ∃ i lo hi, claims c !! i = Some (lo, hi) ∧ lo < s ≤ hi).
Proof.
  destruct two_claims_reachable as (c & H & E). exists c. split; [exact H|]. split; [exact E|].
  exact (claims_disjoint Libcxx 4 1 1 c H).
Defined.

Lemma no_overrun_witness : 3 - 2 ^ 2 ≤ -1 ≤ 3.
Proof.
  destruct (filled_reachable Libcxx 1) as [pub H].
  apply (no_overrun 2 1 1 _ (-1) ltac:(lia) ltac:(lia) H). constructor.
Defined.

Lemma available_iff_published_witness :
  ∃ pub : gset Z, reachable Libcxx 4 1 1 (mkc filled [-1] [Idle] [(-1, 3)] pub) ∧ 2 ∈ pub.
Proof.
  destruct (filled_reachable Libcxx 1) as [pub H]. exists pub. split; [exact H|].
  destruct (available_iff_published 2 1 1 _ 2 ltac:(lia) ltac:(lia) H ltac:(lia)) as [Hav _].
  apply Hav; [simpl; lia|]. reflexivity.
Defined.
