(* ===== verification/RingBuffer.v ===== *)
(** * RingBuffer: [disruptor/RingBuffer.hpp]

    The ring of reusable entries, publishing through a translator, and the
    event poller.  Everything is stated against the [ClaimStrategy] interface
    of file Claim; the last section puts a producer and a poller together. *)

From S2P Require Import Prelude Sequence Claim Producers.
Local Open Scope Z_scope.

(** [128 / sizeof(int * )] *)
Definition rbPad : Z := 16.

Record t (S E : Type) : Type := mk {
  claimStrategy : S;      (* _claimStrategy; the cursor is its [cs_cursor] *)
  entries : Z → E         (* _entries, with the padding *)
}.
Arguments mk {S E} claimStrategy entries.
Arguments claimStrategy {S E} r : rename.
Arguments entries {S E} r : rename.

(** The array position of a sequence. *)
Definition entry_index (SIZE sequence : Z) : Z := rbPad + Z.land (wraps 32 sequence) (SIZE - 1).

Section ops.
Context {S E : Type} `{ClaimStrategy S} (SIZE : Z).

Definition at_ (rb : t S E) (sequence : Z) : E := entries rb (entry_index SIZE sequence).

Definition cursor (rb : t S E) : Z := cs_cursor (claimStrategy rb).
Definition hasAvailableCapacity (rb : t S E) (gating : list Z) (requiredCapacity : Z) : bool :=
  (cs_hasAvailableCapacity (claimStrategy rb) gating requiredCapacity (cursor rb)).1.
Definition getRemainingCapacity (rb : t S E) (gating : list Z) : Z :=
  cs_getRemainingCapacity (claimStrategy rb) gating.
Definition publish (sequence : Z) (rb : t S E) : t S E :=
  mk (cs_publish sequence (claimStrategy rb)) (entries rb).
Definition isAvailable (rb : t S E) (sequence : Z) : bool :=
  cs_isAvailable (claimStrategy rb) sequence.
Definition isPublished (rb : t S E) (sequence : Z) : bool := isAvailable rb sequence.
Definition getHighestPublishedSequence (rb : t S E) (nextSequence availableSequence : Z) : Z :=
  cs_getHighestPublishedSequence (claimStrategy rb) nextSequence availableSequence.
Definition getMinimumGatingSequence (rb : t S E) (gating : list Z) : Z :=
  min_of gating (cursor rb).

(** A translator updates the entry in place and may throw after that; what
    it did to the entry stays. *)
Definition translator : Type := E → Z → E * result unit.

Definition translateAndPublish (f : translator) (sequence : Z) (rb : t S E) : t S E :=
  let i := entry_index SIZE sequence in
  let (e, _) := f (entries rb i) sequence in   (* catch (...) *)
  publish sequence (mk (claimStrategy rb) (<[i := e]> (entries rb))).

Definition publishEvent (f : translator) (obs : list (list Z)) (rb : t S E) : option (t S E) :=
  '(sequence, st') ← cs_next (claimStrategy rb) obs 1;
  Some (translateAndPublish f sequence (mk st' (entries rb))).

Definition tryPublishEvent (f : translator) (gating : list Z) (rb : t S E) : bool * t S E :=
  match cs_tryNext (claimStrategy rb) gating 1 with
  | (Ok sequence, st') => (true, translateAndPublish f sequence (mk st' (entries rb)))
  | (Throw _, st') => (false, mk st' (entries rb))
  end.
End ops.

(** ** The poller *)

Inductive PollState : Type := Processing | Gating | Idle | UNKNOWN.

#[export] Instance PollState_eq_dec : EqDecision PollState.
Proof. solve_decision. Defined.

(** One invocation of the event handler. *)
Record call (E : Type) : Type := mkcall { c_event : E; c_sequence : Z; c_endOfBatch : bool }.
Arguments mkcall {E}. Arguments c_event {E}. Arguments c_sequence {E}. Arguments c_endOfBatch {E}.

Record poller : Type := mkpoller {
  sequence : Z;               (* _sequence *)
  lastAvailableSequence : Z   (* _lastAvailableSequence *)
}.

Section poll.
Context {S E : Type} `{ClaimStrategy S} (SIZE : Z).

(** The handler sees its earlier calls (most recent first); its answer is
    the returned bool ([Ok true] for a handler returning void) or what it
    throws. *)
Context (handler : list (call E) → call E → result bool).

(** The do-while loop, after at most [fuel] events.  The result is the
    calls made, the last sequence processed and the exception, if any. *)
Fixpoint poll_loop (rb : t S E) (fuel : nat) (calls : list (call E))
    (processedSequence nextSequence availableSequence : Z) : list (call E) * Z * option exn :=
  match fuel with
  | O => (calls, processedSequence, None)
  | Datatypes.S fuel' =>
      let c := mkcall (at_ SIZE rb nextSequence) nextSequence (nextSequence =? availableSequence) in
      match handler calls c with
      | Throw e => (c :: calls, processedSequence, Some e)
      | Ok processNextEvent =>
          if processNextEvent && (nextSequence + 1 <=? availableSequence)
          then poll_loop rb fuel' (c :: calls) nextSequence (nextSequence + 1) availableSequence
          else (c :: calls, nextSequence, None)
      end
  end.

(** The sequence the poller may read up to; [gating] are the values of its
    gating sequences. *)
Definition poll_available (rb : t S E) (gating : list Z) (p : poller) : Z :=
  let nextSequence := sequence p + 1 in
  let shareSameSign := Bool.eqb (nextSequence <? 0) (lastAvailableSequence p <? 0) in
  let min := if shareSameSign && (nextSequence <? lastAvailableSequence p)
             then lastAvailableSequence p else nextSequence in
  getHighestPublishedSequence rb min (min_of gating int64_max).

Definition poll (rb : t S E) (gating : list Z) (p : poller)
  : list (call E) * result PollState * poller :=
  let nextSequence := sequence p + 1 in
  let availableSequence := poll_available rb gating p in
  if nextSequence <=? availableSequence then
    match poll_loop rb (Z.to_nat (availableSequence - sequence p)) [] (sequence p)
            nextSequence availableSequence with
    | (calls, processed, Some e) => (reverse calls, Throw e, mkpoller processed availableSequence)
    | (calls, processed, None) => (reverse calls, Ok Processing, mkpoller processed availableSequence)
    end
  else if nextSequence <=? cursor rb then ([], Ok Gating, mkpoller (sequence p) availableSequence)
  else ([], Ok Idle, mkpoller (sequence p) availableSequence).

(** *** The calls a poll makes *)

Definition expected_call (rb : t S E) (avail s : Z) : call E :=
  mkcall (at_ SIZE rb s) s (s =? avail).

Definition expected_calls (rb : t S E) (avail from : Z) (n : nat) : list (call E) :=
  (λ i, expected_call rb avail (from + Z.of_nat i)) <$> seq 0 n.

(** How a run of the handler over [cs] ends. *)
Fixpoint answers (calls : list (call E)) (cs : list (call E)) : list (result bool) :=
  match cs with
  | [] => []
  | c :: cs' => handler calls c :: answers (c :: calls) cs'
  end.

Lemma answers_cons calls c cs :
  answers calls (c :: cs) = handler calls c :: answers (c :: calls) cs.
Proof. reflexivity. Qed.

Lemma expected_calls_S rb avail from n :
  expected_calls rb avail from (Datatypes.S n)
  = expected_call rb avail from :: expected_calls rb avail (from + 1) n.
Proof.
  unfold expected_calls. simpl. f_equal; [f_equal; lia|].
  rewrite <- fmap_S_seq, <- list_fmap_compose. apply list_fmap_ext. intros i x _. simpl.
  f_equal. lia.
Qed.

Lemma poll_loop_spec rb avail fuel calls nxt :
  nxt ≤ avail → fuel = Z.to_nat (avail - nxt + 1) →
  ∃ n last, let new := expected_calls rb avail nxt (Datatypes.S n) in
    nxt + Z.of_nat n ≤ avail
    ∧ answers calls new = replicate n (Ok true) ++ [last]
    ∧ poll_loop rb fuel calls (nxt - 1) nxt avail
      = (reverse new ++ calls,
         match last with Throw _ => nxt + Z.of_nat n - 1 | Ok _ => nxt + Z.of_nat n end,
         match last with Throw e => Some e | Ok _ => None end)
    ∧ (last = Ok true → nxt + Z.of_nat n = avail).
Proof.
  revert calls nxt. induction fuel as [|fuel IH]; intros calls nxt Hle Hf; [lia|].
  simpl poll_loop. change (mkcall (at_ SIZE rb nxt) nxt (nxt =? avail)) with (expected_call rb avail nxt).
  destruct (handler calls (expected_call rb avail nxt)) as [[|]|e] eqn:Hh; cbn [andb].
  - destruct (Z.leb_spec (nxt + 1) avail) as [Hle'|Hlt].
    + destruct (IH (expected_call rb avail nxt :: calls) (nxt + 1)) as (n & last & Hn & Ha & Hl & Hlast);
        [lia|lia|].
      exists (Datatypes.S n), last. cbv zeta. rewrite expected_calls_S. split; [lia|]. split.
      { rewrite answers_cons. by rewrite Hh, Ha. }
      replace (nxt + 1 - 1) with nxt in Hl by lia. rewrite Hl.
      rewrite (reverse_cons (expected_calls rb avail (nxt + 1) _)), <- app_assoc. split.
      * by replace (nxt + Z.of_nat (Datatypes.S n)) with (nxt + 1 + Z.of_nat n) by lia.
      * intros E'. specialize (Hlast E'). lia.
    + exists 0%nat, (Ok true). cbv zeta. rewrite expected_calls_S. rewrite answers_cons, Hh.
      split; [lia|]. split; [done|]. split; [|lia]. by rewrite Z.add_0_r.
  - exists 0%nat, (Ok false). cbv zeta. rewrite expected_calls_S. rewrite answers_cons, Hh.
    split; [lia|]. split; [done|]. split; [|done]. by rewrite Z.add_0_r.
  - exists 0%nat, (Throw e). cbv zeta. rewrite expected_calls_S. rewrite answers_cons, Hh.
    split; [lia|]. split; [done|]. split; [|done]. by rewrite Z.add_0_r.
Qed.

Lemma poll_cases rb gating p :
  let avail := poll_available rb gating p in
  let '(calls, r, p') := poll rb gating p in
  lastAvailableSequence p' = avail ∧
  match r with
  | Ok Processing => ∃ n b,
      sequence p + Z.of_nat (Datatypes.S n) ≤ avail
      ∧ calls = expected_calls rb avail (sequence p + 1) (Datatypes.S n)
      ∧ answers [] calls = replicate n (Ok true) ++ [Ok b]
      ∧ sequence p' = sequence p + Z.of_nat (Datatypes.S n)
      ∧ (b = true → sequence p' = avail)
  | Throw e => ∃ n,
      sequence p + Z.of_nat (Datatypes.S n) ≤ avail
      ∧ calls = expected_calls rb avail (sequence p + 1) (Datatypes.S n)
      ∧ answers [] calls = replicate n (Ok true) ++ [Throw e]
      ∧ sequence p' = sequence p + Z.of_nat n
  | Ok Gating => avail ≤ sequence p < cursor rb ∧ calls = [] ∧ sequence p' = sequence p
  | Ok Idle => avail ≤ sequence p ∧ cursor rb ≤ sequence p ∧ calls = []
               ∧ sequence p' = sequence p
  | Ok UNKNOWN => False
  end.
Proof.
  unfold poll. set (avail := poll_available rb gating p).
  destruct (Z.leb_spec (sequence p + 1) avail) as [Hle|Hgt].
  - destruct (poll_loop_spec rb avail (Z.to_nat (avail - sequence p)) [] (sequence p + 1))
      as (n & last & Hn & Ha & Hl & Hlast); [lia|lia|].
    replace (sequence p + 1 - 1) with (sequence p) in Hl by lia. rewrite Hl.
    destruct last as [b|e].
    all: rewrite app_nil_r, reverse_involutive; cbn [lastAvailableSequence sequence].
    + split; [done|]. exists n, b. repeat (split; [done || lia|]). intros ->.
      specialize (Hlast eq_refl). lia.
    + split; [done|]. exists n. repeat (split; [done || lia|]). lia.
  - destruct (Z.leb_spec (sequence p + 1) (cursor rb)); simpl; repeat split; lia.
Qed.

(** A poll calls the handler for the sequences following the poller's
    own, in order and without a gap, each with the entry in its slot and
    with [endOfBatch] exactly at the last available one; it stops when the
    handler returns false or throws, and otherwise only at the last
    available sequence; the poller's sequence is moved to the last event
    the handler returned from, also when it throws; and without an
    available event it reports [Gating] or [Idle] and moves nothing. *)
Theorem poll_spec rb gating p :
  let avail := poll_available rb gating p in
  let '(calls, r, p') := poll rb gating p in
  lastAvailableSequence p' = avail ∧
  match r with
  | Ok Processing => ∃ n b,
      sequence p + Z.of_nat (Datatypes.S n) ≤ avail
      ∧ calls = expected_calls rb avail (sequence p + 1) (Datatypes.S n)
      ∧ answers [] calls = replicate n (Ok true) ++ [Ok b]
      ∧ sequence p' = sequence p + Z.of_nat (Datatypes.S n)
      ∧ (b = true → sequence p' = avail)
  | Throw e => ∃ n,
      sequence p + Z.of_nat (Datatypes.S n) ≤ avail
      ∧ calls = expected_calls rb avail (sequence p + 1) (Datatypes.S n)
      ∧ answers [] calls = replicate n (Ok true) ++ [Throw e]
      ∧ sequence p' = sequence p + Z.of_nat n
  | Ok Gating => avail ≤ sequence p < cursor rb ∧ calls = [] ∧ sequence p' = sequence p
  | Ok Idle => avail ≤ sequence p ∧ cursor rb ≤ sequence p ∧ calls = []
               ∧ sequence p' = sequence p
  | Ok UNKNOWN => False
  end.
Proof. apply poll_cases. Qed.

(** *** Only published events are read *)

Definition poller_ok (rb : t S E) (p : poller) : Prop :=
  ∀ s, sequence p < s ≤ lastAvailableSequence p → isAvailable rb s = true.

Lemma poll_available_ok rb gating p :
  poller_ok rb p → min_of gating int64_max ≤ cursor rb →
  ∀ s, sequence p < s ≤ poll_available rb gating p → isAvailable rb s = true.
Proof.
  intros Hp Hg s Hs. unfold poll_available in Hs.
  destruct (_ && _) eqn:Hm.
  - apply andb_true_iff in Hm as [_ Hm].
    destruct (decide (s ≤ lastAvailableSequence p)); [apply Hp; lia|].
    eapply cs_highest_available; [exact Hg|]. split; [|apply Hs]. lia.
  - eapply cs_highest_available; [exact Hg|]. split; [|apply Hs]. lia.
Qed.

Lemma expected_calls_elem rb avail from n c :
  c ∈ expected_calls rb avail from n →
  ∃ s, from ≤ s < from + Z.of_nat n ∧ c = expected_call rb avail s.
Proof.
  unfold expected_calls. intros (i & -> & Hi%elem_of_seq)%list_elem_of_fmap.
  eexists. split; [|done]. lia.
Qed.

(** As long as the gating sequences do not run ahead of the cursor, a
    poll hands the handler published entries only, and leaves the poller's
    cached bound sound for the next poll. *)
Theorem poll_reads_published rb gating p :
  poller_ok rb p → min_of gating int64_max ≤ cursor rb →
  let '(calls, _, p') := poll rb gating p in
  Forall (λ c, isAvailable rb (c_sequence c) = true
               ∧ c_event c = at_ SIZE rb (c_sequence c)) calls
  ∧ poller_ok rb p'.
Proof.
  intros Hp Hg. pose proof (poll_available_ok rb gating p Hp Hg) as Hav.
  pose proof (poll_cases rb gating p) as Hc. cbv zeta in Hc.
  destruct (poll rb gating p) as [[calls r] p'].
  destruct Hc as [Hl Hc]. unfold poller_ok. rewrite Hl.
  assert (Hx : ∀ n, calls = expected_calls rb (poll_available rb gating p) (sequence p + 1) n →
            sequence p + Z.of_nat n ≤ poll_available rb gating p →
            Forall (λ c, isAvailable rb (c_sequence c) = true
                         ∧ c_event c = at_ SIZE rb (c_sequence c)) calls).
  { intros n -> Hn. rewrite Forall_forall. intros c (s & Hs & ->)%expected_calls_elem.
    split; [|done]. apply Hav. simpl. lia. }
  destruct r as [[| | |]|e]; [|..].
  - destruct Hc as (n & b & Hn & Hcs & _ & Hs & _). split; [by eapply Hx|].
    intros s Hs'. apply Hav. lia.
  - destruct Hc as (? & -> & Hs). split; [constructor|]. intros s Hs'. apply Hav. lia.
  - destruct Hc as (? & ? & -> & Hs). split; [constructor|]. intros s Hs'. apply Hav. lia.
  - done.
  - destruct Hc as (n & Hn & Hcs & _ & Hs). split; [by eapply Hx|].
    intros s Hs'. apply Hav. lia.
Qed.
End poll.

(** ** One producer and one gating poller

    The ring buffer of [newRingBuffer<..., Single>] with a poller of
    [newPoller()] whose sequence was registered by [addGatingSequences]. *)

Section pair.
Context {E : Type} (k : Z) (Hk : 0 ≤ k ≤ 31).
#[local] Existing Instance Single.strategy.
#[local] Instance strat : ClaimStrategy Single.t := Single.strategy (2 ^ k).

(** The events of calls from which the handler returned: not those that it threw at. *)
Definition returned (handler : list (call E) → call E → result bool) (cs : list (call E)) : list E :=
  omap (λ x, match x.2 with Ok _ => Some (c_event x.1) | Throw _ => None end) (zip cs (answers handler [] cs)).

Lemma returned_all handler cs n a :
  length cs = Datatypes.S n → answers handler [] cs = replicate n (Ok true) ++ [a] →
  returned handler cs = c_event <$> take (match a with Ok _ => Datatypes.S n | Throw _ => n end) cs.
Proof.
  unfold returned. intros Hlen ->. revert cs Hlen. induction n as [|n IH]; intros [|c cs] Hlen; try done.
  - destruct cs; [|done]. simpl. by destruct a.
  - simpl. rewrite IH by (simpl in Hlen; lia). by destruct a.
Qed.

Inductive op : Type :=
  | Publish (f : @translator E)
  | Poll (handler : list (call E) → call E → result bool).

Record pair : Type := mkpair {
  ring : t Single.t E;
  reader : poller;
  hist : list E;      (* ghost: the published events, in order *)
  acked : list E      (* ghost: the events the handler returned from *)
}.

Definition step (c : pair) (o : op) : pair :=
  match o with
  | Publish f =>
      match tryPublishEvent (2 ^ k) f [sequence (reader c)] (ring c) with
      | (true, rb) => mkpair rb (reader c) (hist c ++ [at_ (2 ^ k) rb (cursor rb)]) (acked c)
      | (false, rb) => mkpair rb (reader c) (hist c) (acked c)
      end
  | Poll handler =>
      let '(calls, _, p') := poll (2 ^ k) handler (ring c) [cursor (ring c)] (reader c) in
      mkpair (ring c) p' (hist c)
        (acked c ++ returned handler calls)
  end.

Definition run (entries : Z → E) (ops : list op) : pair :=
  fold_left step ops (mkpair (mk Single.init entries) (mkpoller (-1) (-1)) [] []).

Abbreviation st c := (claimStrategy (ring c)).

Record pair_inv (c : pair) : Prop := {
  pi_wf : Single.wf (2 ^ k) [sequence (reader c)] (st c);
  pi_cursor : Single.cursor (st c) = Single.nextValue (st c);
  pi_hist : Z.of_nat (length (hist c)) = Single.nextValue (st c) + 1;
  pi_reader : -1 ≤ sequence (reader c) ≤ Single.nextValue (st c);
  pi_last : lastAvailableSequence (reader c) ≤ Single.nextValue (st c);
  pi_acked : acked c = take (Z.to_nat (sequence (reader c) + 1)) (hist c);
  pi_slots s : sequence (reader c) < s ≤ Single.nextValue (st c) →
               hist c !! Z.to_nat s = Some (at_ (2 ^ k) (ring c) s)
}.

Lemma entry_index_ne a s x :
  a - 2 ^ k < s ≤ a → a - 2 ^ k < x ≤ a → x ≠ s → entry_index (2 ^ k) x ≠ entry_index (2 ^ k) s.
Proof using Hk.
  intros Hs Hx Hne Heq. apply Hne, (window_eq k Hk a); [done|done|].
  rewrite <- !(calculateIndex_mod k Hk). unfold entry_index in Heq.
  unfold Multi.calculateIndex, Multi.indexMask. lia.
Qed.

Lemma step_publish_inv c f : pair_inv c → pair_inv (step c (Publish f)).
Proof using Hk.
  intros [Hwf Hcur Hhist Hrd Hlast Hack Hslots]. unfold step, tryPublishEvent.
  pose proof (Single.tryNext_cases (2 ^ k) [sequence (reader c)] (st c) 1 Hwf eq_refl) as Hn.
  change (cs_tryNext (st c)) with (Single.tryNext (2 ^ k) (st c)).
  destruct (Single.tryNext _ _ _ _) as [[hi|e] st'] eqn:Hty.
  - destruct Hn as (_ & -> & Hnv & Hwf' & Hroom). apply Forall_cons_iff in Hroom as [Hroom _].
    unfold translateAndPublish. simpl.
    destruct (f _ _) as [e r] eqn:Hf. constructor; simpl.
    + by destruct Hwf'; constructor.
    + done.
    + rewrite length_app. simpl. lia.
    + lia.
    + lia.
    + rewrite take_app_le by lia. done.
    + intros s Hs. rewrite Hnv in Hs. unfold at_, cursor. simpl.
      destruct (decide (s = Single.nextValue (st c) + 1)) as [->|Hne].
      * rewrite list_lookup_middle by lia. done.
      * rewrite lookup_app_l by lia. rewrite Hslots by lia. f_equal. unfold at_.
        rewrite fn_lookup_insert_ne; [done|]. intros Heq. symmetry in Heq. revert Heq.
        apply (entry_index_ne (Single.nextValue (st c) + 1)); lia.
  - pose proof (Single.tryNext_refused_wf (2 ^ k) _ _ _ _ _ ltac:(lia) Hwf Hty).
    destruct Hn as (_ & _ & Hnv & Hcur').
    constructor; simpl; rewrite ?Hnv, ?Hcur'; done.
Qed.

Lemma step_poll_inv c h : pair_inv c → pair_inv (step c (Poll h)).
Proof using Hk.
  intros [Hwf Hcur Hhist Hrd Hlast Hack Hslots]. unfold step.
  pose proof (poll_cases (2 ^ k) h (ring c) [cursor (ring c)] (reader c)) as Hp. cbv zeta in Hp.
  assert (Hav : poll_available (ring c) [cursor (ring c)] (reader c) ≤ Single.nextValue (st c)).
  { rewrite <- Hcur. change (Single.cursor (st c)) with (cursor (ring c)).
    change (min_of [cursor (ring c)] int64_max ≤ cursor (ring c)).
    apply min_of_le. constructor. }
  destruct (poll _ _ _ _ _) as [[calls r] p']. destruct Hp as [Hl Hp].
  (* in every case, m events are acknowledged *)
  assert (∃ m, sequence p' = sequence (reader c) + Z.of_nat m
               ∧ sequence (reader c) + Z.of_nat m ≤ Single.nextValue (st c)
               ∧ returned h calls
                 = (λ i, at_ (2 ^ k) (ring c) (sequence (reader c) + 1 + Z.of_nat i)) <$> seq 0 m)
    as (m & Hs & Hm & Hev).
  { destruct r as [[| | |]|e]; [|..].
    - destruct Hp as (n & b & Hn & -> & Ha & Hs & _). exists (S n). split; [done|]. split; [lia|].
      rewrite (returned_all h _ n (Ok b)) by (done || unfold expected_calls; by rewrite length_fmap, length_seq).
      rewrite take_ge by (unfold expected_calls; by rewrite length_fmap, length_seq).
      unfold expected_calls. by rewrite <- list_fmap_compose.
    - destruct Hp as (_ & -> & ->). exists 0%nat. split; [lia|]. split; [lia|done].
    - destruct Hp as (_ & _ & -> & ->). exists 0%nat. split; [lia|]. split; [lia|done].
    - done.
    - destruct Hp as (n & Hn & -> & Ha & Hs). exists n. split; [done|]. split; [lia|].
      rewrite (returned_all h _ n (Throw e)) by (done || unfold expected_calls; by rewrite length_fmap, length_seq).
      unfold expected_calls. rewrite seq_S, fmap_app, take_app_length'
        by (by rewrite length_fmap, length_seq).
      by rewrite <- list_fmap_compose. }
  constructor; simpl; try done; try lia.
  - rewrite Hs. eapply Single.wf_advance; [|exact Hwf]. repeat constructor. lia.
  - rewrite Hack, Hs, Hev.
    replace (Z.to_nat (sequence (reader c) + Z.of_nat m + 1))
      with (Z.to_nat (sequence (reader c) + 1) + m)%nat by lia.
    apply list_eq. intros i.
    destruct (decide (i < Z.to_nat (sequence (reader c) + 1))%nat) as [Hi|Hi].
    + rewrite lookup_app_l by (rewrite length_take; lia). by rewrite !lookup_take_lt by lia.
    + rewrite lookup_app_r by (rewrite length_take; lia). rewrite length_take.
      replace (Z.to_nat (sequence (reader c) + 1) `min` length (hist c))%nat
        with (Z.to_nat (sequence (reader c) + 1)) by lia.
      rewrite list_lookup_fmap.
      destruct (decide (i < Z.to_nat (sequence (reader c) + 1) + m)%nat) as [Hi'|Hi'].
      * rewrite lookup_seq_lt, lookup_take_lt by lia. simpl.
        symmetry. replace i with (Z.to_nat (sequence (reader c) + 1
           + Z.of_nat (i - Z.to_nat (sequence (reader c) + 1)))) at 1 by lia.
        apply Hslots. lia.
      * rewrite lookup_seq_ge, lookup_take_ge by lia. done.
  - intros s Hs'. apply Hslots. lia.
Qed.

Lemma run_inv entries ops : pair_inv (run entries ops).
Proof using Hk.
  unfold run. set (c0 := mkpair _ _ _ _). assert (H0 : pair_inv c0).
  { pose proof (size_pos k Hk). constructor; simpl; unfold kInitialCursorValue;
      try done; try lia; constructor; simpl; unfold kInitialCursorValue; try lia.
    repeat constructor; lia. }
  revert H0. generalize c0. clear c0. induction ops as [|[f|h] ops IH]; intros c Hc; simpl;
    [done|apply IH; by apply step_publish_inv|apply IH; by apply step_poll_inv].
Qed.
End pair.

(** C35: One producer, and one poller that gates it: whatever the translators write, the
    handlers answer or throw, and in whatever order events are published and polled,
    the events from which the handler has returned are the published ones, first in
    first out, none lost, overwritten or returned from twice (one that it threw at is
    handed to it again), and those that are still to come fit in the buffer.  The
    poller's sequence is that of the last event from which the handler returned. *)
Theorem fifo {E} k (entries : Z → E) ops :
  0 ≤ k ≤ 31 →
  let c := run k entries ops in
  (∃ pending, hist c = acked c ++ pending ∧ Z.of_nat (length pending) ≤ 2 ^ k)
  ∧ Z.of_nat (length (acked c)) = sequence (reader c) + 1.
Proof.
  intros Hk c. pose proof (run_inv k Hk entries ops) as Hi. fold c in Hi. clearbody c.
  destruct Hi as [[Hwf1 Hwf2] _ Hh Hr _ Ha _]. apply Forall_cons_iff in Hwf1 as [Hwf1 _].
  assert (Hlen : length (acked c) = Z.to_nat (sequence (reader c) + 1)).
  { rewrite Ha, length_take. lia. }
  split; [|lia]. exists (drop (Z.to_nat (sequence (reader c) + 1)) (hist c)).
  rewrite Ha at 1. rewrite take_drop. split; [done|]. rewrite length_drop. lia.
Qed.

(** A translator that stores its sequence, a handler that throws once. *)
Lemma fifo_witness :
  let store : @translator Z := λ _ s, (10 * s, Throw UserException) in
  let h := λ (cs : list (call Z)) c, if c_sequence c =? 1 then Throw UserException else Ok true in
  let c := run 1 (λ _, 0) [Publish store; Publish store; Publish store; Poll h; Publish store; Poll (λ _ _, Ok true)] in
  hist c = [0; 10; 20] ∧ acked c = [0; 10; 20] ∧ Z.of_nat (length (acked c)) = sequence (reader c) + 1.
Proof.
  intros store h c. split; [vm_compute; reflexivity|]. split; [vm_compute; reflexivity|].
  apply (fifo 1 (λ _, 0) [Publish store; Publish store; Publish store; Poll h; Publish store; Poll (λ _ _, Ok true)]).
  lia.
Defined.

Lemma poll_reads_published_witness :
  let rb := mk (Single.mk 1 1 (-1)) (λ i, i) in
  poll_available (H := Single.strategy 4) rb [1] (mkpoller (-1) (-1)) = 1
  ∧ isAvailable (H := Single.strategy 4) rb 1 = true
  ∧ Forall (λ c, isAvailable (H := Single.strategy 4) rb (c_sequence c) = true
                 ∧ c_event c = at_ 4 rb (c_sequence c))
      (poll (H := Single.strategy 4) 4 (λ _ _, Ok true) rb [1] (mkpoller (-1) (-1))).1.1.
Proof.
  intros rb. split; [reflexivity|]. split; [reflexivity|].
  apply (poll_reads_published (H := Single.strategy 4) 4 (λ _ _, Ok true) rb [1] (mkpoller (-1) (-1))).
  - intros s Hs. simpl in Hs. lia.
  - vm_compute. discriminate.
Defined.

(** The entries stay inside the array, away from the padding. *)
Lemma entry_index_range k s : 0 ≤ k ≤ 31 → rbPad ≤ entry_index (2 ^ k) s < rbPad + 2 ^ k.
Proof.
  intros Hk. unfold entry_index. rewrite land_mask by lia.
  pose proof (Z.mod_pos_bound (wraps 32 s) (2 ^ k) (size_pos k Hk)). lia.
Qed.
