(* ===== verification/Barrier.v ===== *)
(** * Barrier: [disruptor/WaitStrategy.hpp], [ProcessingSequenceBarrier.hpp],
    [BatchEventProcessor.hpp] and [SpinWait.hpp]

    How a consumer waits for events and how the batch processor feeds them to
    its handler.  A wait loop is given what it observes of the other threads,
    turn by turn; [None] means that it is still waiting after all of them. *)

From S2P Require Import Prelude Sequence Claim.
Local Open Scope Z_scope.

(** What one turn of a wait loop reads. *)
Record observation : Type := mkobs {
  o_cursor : Z;          (* the ring buffer's cursor *)
  o_dependents : list Z; (* the dependent sequences *)
  o_alerted : bool;      (* ISequenceBarrier::isAlerted *)
  o_timeout : bool       (* a timed wait on the condition variable ran out *)
}.

(** ** [SpinWait] *)

Module Spin.
Definition YIELD_THRESHOLD : Z := 10.
Definition SLEEP_0_EVERY_HOW_MANY_TIMES : Z := 5.
Definition SLEEP_1_EVERY_HOW_MANY_TIMES : Z := 20.
Definition int32_max : Z := 2 ^ 31 - 1.

Inductive pause : Type := Spins (n : Z) | Yields | Sleeps (ms : Z).

Definition nextSpinWillYield (count : Z) : bool := YIELD_THRESHOLD <? count.

(** What a turn does, and the next count. *)
Definition spinOnce (count : Z) : pause * Z :=
  let p :=
    if nextSpinWillYield count then
      let num := if YIELD_THRESHOLD <=? count then count - 10 else count in
      if Z.rem num SLEEP_1_EVERY_HOW_MANY_TIMES =? SLEEP_1_EVERY_HOW_MANY_TIMES - 1 then Sleeps 1
      else if Z.rem num SLEEP_0_EVERY_HOW_MANY_TIMES =? SLEEP_0_EVERY_HOW_MANY_TIMES - 1
           then Sleeps 0 else Yields
    else Spins (Z.shiftl 4 count) in
  (p, if count =? int32_max then YIELD_THRESHOLD else count + 1).

(** [spinUntil]: each turn gives the value of the condition and the clock;
    [None] while it still spins. *)
Fixpoint spin_loop (turns : list (bool * Z)) (millisecondsTimeout num count : Z) : option bool :=
  match turns with
  | [] => None
  | (condition, tick) :: turns' =>
      if condition then Some true
      else if millisecondsTimeout =? 0 then Some false
      else
        let count' := (spinOnce count).2 in
        if negb (millisecondsTimeout =? 1) && nextSpinWillYield count'
           && (millisecondsTimeout <=? tick - num) then Some false
        else spin_loop turns' millisecondsTimeout num count'
  end.

Definition spinUntil (millisecondsTimeout start : Z) (turns : list (bool * Z))
  : result (option bool) :=
  if millisecondsTimeout <? -1 then Throw OutOfRange
  else
    let num := if negb (millisecondsTimeout =? 0) && negb (millisecondsTimeout =? -1)
               then start else 0 in
    Ok (spin_loop turns millisecondsTimeout num 0).

Lemma spin_loop_yielding turns num count c tick :
  10 ≤ count < int32_max → 0 ≤ tick →
  spin_loop ((false, tick) :: turns) (-1) 0 count = Some false
  ∧ spin_loop ((c, tick) :: turns) 1 num count
    = if c then Some true else spin_loop turns 1 num (count + 1).
Proof.
  intros Hc Ht. unfold int32_max in Hc. split; simpl.
  - unfold spinOnce, nextSpinWillYield, int32_max, YIELD_THRESHOLD. simpl.
    destruct (Z.eqb_spec count (2 ^ 31 - 1)); [lia|].
    destruct (Z.ltb_spec 10 (count + 1)); [|lia].
    destruct (Z.leb_spec (-1) (tick - 0)); [done|lia].
  - destruct c; [done|]. unfold spinOnce, int32_max. simpl.
    destruct (Z.eqb_spec count (2 ^ 31 - 1)); [lia|done].
Qed.

(** [spinUntil(condition)] waits without a limit, through the timeout
    value -1.  The time check excludes the value 1 instead of -1, so the
    unlimited wait gives up in the eleventh turn. *)
Theorem spinUntil_infinite_gives_up ticks :
  (11 ≤ length ticks)%nat → Forall (λ t, 0 ≤ t) ticks →
  spinUntil (-1) 0 ((λ t, (false, t)) <$> ticks) = Ok (Some false).
Proof.
  intros Hl Ht. unfold spinUntil. simpl. f_equal.
  do 10 (destruct ticks as [|? ticks]; [simpl in Hl; lia|]; apply Forall_cons in Ht as [_ Ht];
         simpl fmap; cbn [spin_loop]; unfold nextSpinWillYield; simpl).
  destruct ticks as [|t ticks]; [simpl in Hl; lia|]. apply Forall_cons in Ht as [Ht _].
  apply (spin_loop_yielding _ 0 10 false); [done|lia].
Qed.

Lemma spinUntil_infinite_gives_up_witness :
  spinUntil (-1) 0 ((λ t, (false, t)) <$> replicate 11 5) = Ok (Some false).
Proof.
  apply spinUntil_infinite_gives_up; [simpl; lia|]. simpl. repeat constructor; lia.
Defined.
End Spin.

(** ** Wait strategies *)

(** [while ((available = getMinimumSequence(dependents)) < sequence) barrier.checkAlert();] *)
Fixpoint wait_dependents (sequence : Z) (obs : list observation) : option (result Z) :=
  match obs with
  | [] => None
  | o :: obs' =>
      let availableSequence := min_of (o_dependents o) int64_max in
      if availableSequence <? sequence then
        if o_alerted o then Some (Throw AlertException) else wait_dependents sequence obs'
      else Some (Ok availableSequence)
  end.

Module Blocking.
(** [while (cursor < sequence) { checkAlert(); wait(lock); }], then the
    dependents with what is left to observe. *)
Fixpoint wait_cursor (sequence : Z) (obs : list observation) : option (result Z) :=
  match obs with
  | [] => None
  | o :: obs' =>
      if o_cursor o <? sequence then
        if o_alerted o then Some (Throw AlertException) else wait_cursor sequence obs'
      else wait_dependents sequence obs
  end.
Definition waitFor (sequence : Z) (obs : list observation) : option (result Z) :=
  wait_cursor sequence obs.
End Blocking.

Module BusySpin.
Definition waitFor (sequence : Z) (obs : list observation) : option (result Z) :=
  wait_dependents sequence obs.
End BusySpin.

(** The sleeping and yielding strategies count their turns to choose how to
    pause; [pauses] is what they do between the observations. *)
Module Sleeping.
Definition defaultRetries : Z := 200.
Inductive pause : Type := Spin | Yield | Sleep.

Definition waitMethod (counter : Z) (alerted : bool) : result (pause * Z) :=
  if alerted then Throw AlertException
  else if 100 <? counter then Ok (Spin, counter - 1)
  else if 0 <? counter then Ok (Yield, counter - 1)
  else Ok (Sleep, counter).

Fixpoint loop (counter sequence : Z) (obs : list observation) : option (result Z) :=
  match obs with
  | [] => None
  | o :: obs' =>
      let availableSequence := min_of (o_dependents o) int64_max in
      if availableSequence <? sequence then
        match waitMethod counter (o_alerted o) with
        | Throw e => Some (Throw e)
        | Ok (_, counter') => loop counter' sequence obs'
        end
      else Some (Ok availableSequence)
  end.
Definition waitFor (retries sequence : Z) (obs : list observation) : option (result Z) :=
  loop retries sequence obs.
End Sleeping.

Module SpinWaitWait.
Fixpoint loop (count sequence : Z) (obs : list observation) : option (result Z) :=
  match obs with
  | [] => None
  | o :: obs' =>
      let availableSequence := min_of (o_dependents o) int64_max in
      if availableSequence <? sequence then
        if o_alerted o then Some (Throw AlertException)
        else loop (Spin.spinOnce count).2 sequence obs'
      else Some (Ok availableSequence)
  end.
Definition waitFor (sequence : Z) (obs : list observation) : option (result Z) :=
  loop 0 sequence obs.
End SpinWaitWait.

Module TimeoutBlocking.
Fixpoint wait_cursor (sequence : Z) (obs : list observation) : option (result Z) :=
  match obs with
  | [] => None
  | o :: obs' =>
      if o_cursor o <? sequence then
        if o_alerted o then Some (Throw AlertException)
        else if o_timeout o then Some (Throw TimeoutException)
        else wait_cursor sequence obs'
      else wait_dependents sequence obs
  end.
Definition waitFor (sequence : Z) (obs : list observation) : option (result Z) :=
  wait_cursor sequence obs.
End TimeoutBlocking.

Module Yielding.
Definition spinTries : Z := 100.
Inductive pause : Type := Spin | Yield.

Definition waitMethod (counter : Z) (alerted : bool) : result (pause * Z) :=
  if alerted then Throw AlertException
  else if counter =? 0 then Ok (Yield, counter) else Ok (Spin, counter - 1).

Fixpoint loop (counter sequence : Z) (obs : list observation) : option (result Z) :=
  match obs with
  | [] => None
  | o :: obs' =>
      let availableSequence := min_of (o_dependents o) int64_max in
      if availableSequence <? sequence then
        match waitMethod counter (o_alerted o) with
        | Throw e => Some (Throw e)
        | Ok (_, counter') => loop counter' sequence obs'
        end
      else Some (Ok availableSequence)
  end.
Definition waitFor (sequence : Z) (obs : list observation) : option (result Z) :=
  loop spinTries sequence obs.
End Yielding.

Module NoWait.
Definition waitFor (sequence : Z) (_ : list observation) : option (result Z) :=
  Some (Ok sequence).
End NoWait.

(** *** The interface: what a barrier expects of a strategy that waits *)

Record waits (waitFor : Z → list observation → option (result Z)) : Prop := {
  (* the bound returned was observed as the minimum of the dependents *)
  w_sound sequence obs avail :
    waitFor sequence obs = Some (Ok avail) →
    sequence ≤ avail ∧ ∃ o, o ∈ obs ∧ avail = min_of (o_dependents o) int64_max;
  w_throws sequence obs e :
    waitFor sequence obs = Some (Throw e) →
    e = AlertException ∨ (e = TimeoutException ∧ ∃ o, o ∈ obs ∧ o_timeout o = true);
  (* it returns as soon as an observation shows the sequence *)
  w_live sequence obs o :
    o ∈ obs → sequence ≤ o_cursor o → sequence ≤ min_of (o_dependents o) int64_max →
    is_Some (waitFor sequence obs)
}.

Lemma wait_dependents_sound sequence obs avail :
  wait_dependents sequence obs = Some (Ok avail) →
  sequence ≤ avail ∧ ∃ o, o ∈ obs ∧ avail = min_of (o_dependents o) int64_max.
Proof.
  induction obs as [|o obs IH]; [done|]. simpl.
  destruct (Z.ltb_spec (min_of (o_dependents o) int64_max) sequence) as [Hlt|Hge].
  - destruct (o_alerted o); [done|]. intros (H1 & o' & H2 & H3)%IH. set_solver.
  - intros [= <-]. split; [lia|]. exists o. set_solver.
Qed.

Lemma wait_dependents_throws sequence obs e :
  wait_dependents sequence obs = Some (Throw e) → e = AlertException.
Proof. induction obs as [|o obs IH]; [done|]. simpl. repeat case_match; naive_solver. Qed.

Lemma wait_dependents_live sequence obs o :
  o ∈ obs → sequence ≤ min_of (o_dependents o) int64_max → is_Some (wait_dependents sequence obs).
Proof.
  induction obs as [|o' obs IH]; [by intros ?%elem_of_nil|].
  intros [->|Hin]%elem_of_cons Hle; simpl.
  - destruct (Z.ltb_spec (min_of (o_dependents o') int64_max) sequence); [lia|done].
  - destruct (_ <? _); [|done]. destruct (o_alerted o'); [done|auto].
Qed.

(** The strategies that only observe the dependents are the same function. *)
Lemma sleeping_loop counter sequence obs :
  Sleeping.loop counter sequence obs = wait_dependents sequence obs.
Proof.
  revert counter. induction obs as [|o obs IH]; intros counter; [done|]. simpl.
  unfold Sleeping.waitMethod. repeat case_match; naive_solver.
Qed.

Lemma spinwait_loop count sequence obs :
  SpinWaitWait.loop count sequence obs = wait_dependents sequence obs.
Proof.
  revert count. induction obs as [|o obs IH]; intros count; [done|]. cbn [SpinWaitWait.loop].
  simpl wait_dependents. by rewrite IH.
Qed.

Lemma yielding_loop counter sequence obs :
  Yielding.loop counter sequence obs = wait_dependents sequence obs.
Proof.
  revert counter. induction obs as [|o obs IH]; intros counter; [done|]. simpl.
  unfold Yielding.waitMethod. repeat case_match; naive_solver.
Qed.

Lemma waits_ext f g : (∀ s obs, f s obs = g s obs) → waits f → waits g.
Proof. intros E [H1 H2 H3]. constructor; intros s obs; rewrite <- E; eauto. Qed.

Lemma waits_dependents : waits wait_dependents.
Proof.
  constructor; intros s obs x.
  - apply wait_dependents_sound.
  - intros ->%wait_dependents_throws. by left.
  - intros. by eapply wait_dependents_live.
Qed.

Lemma waits_timeout_blocking : waits TimeoutBlocking.waitFor.
Proof.
  constructor; intros s obs x; unfold TimeoutBlocking.waitFor; induction obs as [|o obs IH]; try done.
  - simpl. destruct (_ <? _); [|exact (wait_dependents_sound s (o :: obs) x)].
    destruct (o_alerted o); [done|]. destruct (o_timeout o); [done|].
    intros (H1 & o' & H2 & H3)%IH. set_solver.
  - simpl. destruct (_ <? _); [|intros ->%(wait_dependents_throws s (o :: obs)); by left].
    destruct (o_alerted o); [intros [= <-]; by left|].
    destruct (o_timeout o) eqn:Ht; [intros [= <-]; right; split; [done|]; exists o; set_solver|].
    intros [->|(-> & o' & ? & ?)]%IH; [by left|right]. split; [done|]. exists o'. set_solver.
  - by intros ?%elem_of_nil.
  - intros Hin Hc Hd. simpl. destruct (Z.ltb_spec (o_cursor o) s) as [Hlt|Hge].
    + apply elem_of_cons in Hin as [->|Hin]; [lia|].
      destruct (o_alerted o); [done|]. destruct (o_timeout o); [done|auto].
    + by apply (wait_dependents_live s (o :: obs) x).
Qed.

Lemma waits_blocking : waits Blocking.waitFor.
Proof.
  constructor; intros s obs x; unfold Blocking.waitFor; induction obs as [|o obs IH]; try done.
  - simpl. destruct (_ <? _); [|exact (wait_dependents_sound s (o :: obs) x)].
    destruct (o_alerted o); [done|]. intros (H1 & o' & H2 & H3)%IH. set_solver.
  - simpl. destruct (_ <? _); [|intros ->%(wait_dependents_throws s (o :: obs)); by left].
    destruct (o_alerted o); [intros [= <-]; by left|].
    intros [->|(-> & o' & ? & ?)]%IH; [by left|right]. split; [done|]. exists o'. set_solver.
  - by intros ?%elem_of_nil.
  - intros Hin Hc Hd. simpl. destruct (Z.ltb_spec (o_cursor o) s) as [Hlt|Hge].
    + apply elem_of_cons in Hin as [->|Hin]; [lia|]. destruct (o_alerted o); [done|auto].
    + by apply (wait_dependents_live s (o :: obs) x).
Qed.

(** Every waiting strategy meets the contract of the barrier: the bound
    it returns is one it observed for all dependents and covers the sequence,
    it only throws [AlertException] or a real timeout, and it returns once it
    observes the sequence. *)
Theorem strategies_wait retries :
  waits Blocking.waitFor ∧ waits BusySpin.waitFor ∧ waits (Sleeping.waitFor retries)
  ∧ waits SpinWaitWait.waitFor ∧ waits TimeoutBlocking.waitFor ∧ waits Yielding.waitFor.
Proof.
  split; [apply waits_blocking|]. split; [apply waits_dependents|].
  split; [eapply waits_ext; [|apply waits_dependents]; intros; symmetry; apply sleeping_loop|].
  split; [eapply waits_ext; [|apply waits_dependents]; intros; symmetry; apply spinwait_loop|].
  split; [apply waits_timeout_blocking|].
  eapply waits_ext; [|apply waits_dependents]; intros; symmetry; apply yielding_loop.
Qed.

(** ** [ProcessingSequenceBarrier] *)

Section barrier.
Context {S : Type} `{ClaimStrategy S}.
Context (strategy_waitFor : Z → list observation → option (result Z)).

(** The dependents of a barrier start with the cursor itself. *)
Definition getDependentSequence (cursor : addr) (dependentSequences : list addr) : list addr :=
  cursor :: dependentSequences.

Definition checkAlert (alerted : bool) : result unit :=
  if alerted then Throw AlertException else Ok ().

(** [barrier_cursor] reads the dependents; [st] is the claim strategy when
    the highest published sequence is looked up. *)
Definition barrier_cursor (dependents : list Z) : Z := min_of dependents int64_max.

Definition barrier_waitFor (alerted : bool) (sequence : Z) (obs : list observation) (st : S)
  : option (result Z) :=
  match checkAlert alerted with
  | Throw e => Some (Throw e)
  | Ok _ =>
      match strategy_waitFor sequence obs with
      | Some (Ok availableSequence) =>
          if availableSequence <? sequence then Some (Ok availableSequence)
          else Some (Ok (cs_getHighestPublishedSequence st sequence availableSequence))
      | r => r
      end
  end.

(** With any of the waiting strategies, the bound a barrier gives to a
    consumer is at least one below the sequence asked for, and every
    sequence from the one asked for up to the bound is published. *)
Theorem barrier_waitFor_published alerted sequence obs st avail :
  waits strategy_waitFor →
  Forall (λ o, min_of (o_dependents o) int64_max ≤ cs_cursor st) obs →
  barrier_waitFor alerted sequence obs st = Some (Ok avail) →
  sequence - 1 ≤ avail ∧ (∀ s, sequence ≤ s ≤ avail → cs_isAvailable st s = true).
Proof.
  intros Hw Hobs. unfold barrier_waitFor, checkAlert. destruct alerted; [done|].
  destruct (strategy_waitFor sequence obs) as [[a|e]|] eqn:Ha; [|done|done].
  apply (w_sound _ Hw) in Ha as (Hle & o & Ho & ->).
  rewrite Forall_forall in Hobs. specialize (Hobs o Ho). simpl in Hobs.
  destruct (Z.ltb_spec (min_of (o_dependents o) int64_max) sequence) as [Hlt|_]; [lia|].
  intros [= <-]. split.
  - apply cs_highest_le. lia.
  - intros s Hs. eapply cs_highest_available; [exact Hobs|]. exact Hs.
Qed.
End barrier.

Lemma barrier_waitFor_published_witness :
  let st := Multi.publish 4 0 (Multi.mk 1 (λ _, -1) (-1)) in
  let o := mkobs 1 [1] false false in
  barrier_waitFor (H := Multi.strategy 4) Yielding.waitFor false 0 [mkobs (-1) [-1] false false; o] st
    = Some (Ok 0)
  ∧ Multi.isAvailable 4 st 0 = true.
Proof.
  intros st o. split; [vm_compute; reflexivity|].
  apply (barrier_waitFor_published (H := Multi.strategy 4) Yielding.waitFor false 0
           [mkobs (-1) [-1] false false; o] st 0).
  - eapply waits_ext; [|apply waits_dependents]; intros; symmetry; apply yielding_loop.
  - repeat constructor; vm_compute; discriminate.
  - vm_compute. reflexivity.
  - lia.
Defined.

(** ** [BatchEventProcessor] *)

Module Batch.

Record t : Type := mk {
  sequence : Z;               (* _sequence, read by the producers *)
  nextSequence : Z;
  calls : list (Z * bool);    (* ghost: onEvent(sequence, endOfBatch), last first *)
  done : list Z               (* ghost: the events finished with, last first *)
}.

(** What the barrier answers in a turn, and [_running] when it is read. *)
Record turn : Type := mkturn { t_wait : Z → result Z; t_running : bool }.

Inductive outcome : Type := Continue (b : t) | Break (b : t) | Propagate (e : exn) (b : t).

Section run.
(** The event handler (with the calls it has had), the timeout handler and
    the exception handler, each of which may be absent or throw. *)
Context (onEvent : list (Z * bool) → Z → bool → result unit)
        (onTimeout : option (Z → result unit))
        (handleOnTimeoutException : option (exn → Z → result unit))
        (handleEventException : exn → Z → result unit).

Definition notifyTimeout (availableSequence : Z) : result unit :=
  match onTimeout with
  | None => Ok ()
  | Some h =>
      match h availableSequence with
      | Ok _ => Ok ()
      | Throw e => match handleOnTimeoutException with
                   | None => Ok ()
                   | Some h' => h' e availableSequence
                   end
      end
  end.

(** [while (nextSequence <= availableSequence) { onEvent; nextSequence++ }],
    after at most [fuel] events. *)
Fixpoint feed (fuel : nat) (availableSequence : Z) (b : t) : t * option exn :=
  match fuel with
  | O => (b, None)
  | S fuel' =>
      let n := nextSequence b in
      if n <=? availableSequence then
        let eob := n =? availableSequence in
        let cs := (n, eob) :: calls b in
        match onEvent (calls b) n eob with
        | Ok _ => feed fuel' availableSequence (mk (sequence b) (n + 1) cs (n :: done b))
        | Throw e => (mk (sequence b) n cs (done b), Some e)
        end
      else (b, None)
  end.

Definition handle (b : t) (e : exn) (running : bool) : outcome :=
  match e with
  | TimeoutException =>
      match notifyTimeout (sequence b) with
      | Ok _ => Continue b
      | Throw e' => Propagate e' b
      end
  | AlertException => if running then Continue b else Break b
  | _ =>
      match handleEventException e (nextSequence b) with
      | Throw e' => Propagate e' b
      | Ok _ => Continue (mk (nextSequence b) (nextSequence b + 1) (calls b) (nextSequence b :: done b))
      end
  end.

Definition run_turn (b : t) (tn : turn) : outcome :=
  match t_wait tn (nextSequence b) with
  | Throw e => handle b e (t_running tn)
  | Ok availableSequence =>
      match feed (Z.to_nat (availableSequence - nextSequence b + 1)) availableSequence b with
      | (b', Some e) => handle b' e (t_running tn)
      | (b', None) => Continue (mk availableSequence (nextSequence b') (calls b') (done b'))
      end
  end.

Fixpoint run_turns (b : t) (turns : list turn) : outcome :=
  match turns with
  | [] => Continue b
  | tn :: turns' =>
      match run_turn b tn with
      | Continue b' => run_turns b' turns'
      | o => o
      end
  end.

Definition start (s : Z) : t := mk s (s + 1) [] [].

Definition result_state (o : outcome) : t :=
  match o with Continue b | Break b | Propagate _ b => b end.

(** *** Order and progress *)

Record inv (s0 : Z) (b : t) : Prop := {
  i_next : s0 < nextSequence b;
  i_done : reverse (done b) = (λ i, s0 + 1 + Z.of_nat i) <$> seq 0 (Z.to_nat (nextSequence b - s0 - 1));
  i_seq : s0 ≤ sequence b < nextSequence b
}.

Lemma inv_advance s0 b sq cs :
  inv s0 b → s0 ≤ sq ≤ nextSequence b →
  inv s0 (mk sq (nextSequence b + 1) cs (nextSequence b :: done b)).
Proof using.
  intros [H1 H2 H3] Hsq. constructor; simpl; [lia| |lia].
  rewrite reverse_cons, H2.
  replace (Z.to_nat (nextSequence b + 1 - s0 - 1)) with (S (Z.to_nat (nextSequence b - s0 - 1))) by lia.
  rewrite seq_S, fmap_app. simpl. repeat f_equal. lia.
Qed.

Lemma feed_inv s0 fuel avail b :
  inv s0 b → avail - nextSequence b + 1 ≤ Z.of_nat fuel →
  let '(b', e) := feed fuel avail b in
  inv s0 b' ∧ sequence b' = sequence b ∧ nextSequence b ≤ nextSequence b'
  ∧ (e = None → avail < nextSequence b' ∧ nextSequence b' ≤ Z.max (nextSequence b) (avail + 1)).
Proof using.
  revert b. induction fuel as [|fuel IH]; intros b Hi Hf; simpl; [split; [done|]; lia|].
  destruct (Z.leb_spec (nextSequence b) avail) as [Hle|Hgt]; [|split; [done|]; lia].
  destruct (onEvent _ _ _) as [u|e].
  - specialize (IH (mk (sequence b) (nextSequence b + 1)
                       ((nextSequence b, nextSequence b =? avail) :: calls b)
                       (nextSequence b :: done b))).
    destruct (feed _ _ _) as [b' e]. destruct IH as (H1 & H2 & H3 & H4); simpl in *.
    + apply inv_advance; [done|]. destruct Hi. lia.
    + lia.
    + split; [done|]. split; [done|]. split; [lia|]. intros He. specialize (H4 He). lia.
  - split; [by destruct Hi; constructor|]. split; [done|]. split; [simpl; lia|done].
Qed.

Lemma handle_inv s0 b e r : inv s0 b → inv s0 (result_state (handle b e r)).
Proof using.
  intros Hi. pose proof (inv_advance s0 b (nextSequence b) (calls b) Hi) as Ha.
  unfold handle. destruct e; simpl; repeat case_match; try done; apply Ha; destruct Hi; lia.
Qed.

Lemma run_turn_inv s0 b tn :
  (∀ n a, t_wait tn n = Ok a → n - 1 ≤ a) → inv s0 b → inv s0 (result_state (run_turn b tn)).
Proof using.
  intros Hw Hi. unfold run_turn. destruct (t_wait tn (nextSequence b)) as [a|e] eqn:Ha;
    [|by apply handle_inv].
  apply Hw in Ha. pose proof (feed_inv s0 (Z.to_nat (a - nextSequence b + 1)) a b Hi ltac:(lia)) as Hf.
  destruct (feed _ _ _) as [b' [e|]]; destruct Hf as (H1 & H2 & H3 & H4); [by apply handle_inv|].
  specialize (H4 eq_refl). destruct H1, Hi. constructor; simpl; [done|done|lia].
Qed.

Lemma run_turns_inv s0 b turns :
  Forall (λ tn, ∀ n a, t_wait tn n = Ok a → n - 1 ≤ a) turns → inv s0 b →
  inv s0 (result_state (run_turns b turns)).
Proof using.
  intros Ht. revert b. induction Ht as [|tn turns Htn _ IH]; intros b Hi; simpl; [done|].
  pose proof (run_turn_inv s0 b tn Htn Hi) as Hr. destruct (run_turn b tn); simpl in *; auto.
Qed.
End run.

(** Whatever the event handler, the exception handlers and the barrier
    answer (the barrier never answering below the sequence before the one
    asked for), the batch processor finishes with the events in order and
    without a gap, an exception included, and the sequence it shows to the
    producers never passes an event it has not finished with. *)
Theorem batch_in_order onEvent onTimeout onTimeoutEx onEventEx s0 turns :
  Forall (λ tn, ∀ n a, t_wait tn n = Ok a → n - 1 ≤ a) turns →
  let b := result_state (run_turns onEvent onTimeout onTimeoutEx onEventEx (start s0) turns) in
  reverse (done b) = (λ i, s0 + 1 + Z.of_nat i) <$> seq 0 (length (done b))
  ∧ s0 ≤ sequence b ≤ s0 + Z.of_nat (length (done b)).
Proof.
  intros Ht b.
  assert (Hi : inv s0 (start s0)).
  { constructor; simpl; [lia| |lia]. by replace (Z.to_nat (s0 + 1 - s0 - 1)) with 0%nat by lia. }
  destruct (run_turns_inv onEvent onTimeout onTimeoutEx onEventEx s0 _ turns Ht Hi) as [H1 H2 H3].
  fold b in H1, H2, H3.
  assert (Hl : length (done b) = Z.to_nat (nextSequence b - s0 - 1)).
  { rewrite <- length_reverse, H2, length_fmap. apply length_seq. }
  rewrite Hl. split; [done|]. lia.
Qed.

(** Event 1 throws and is skipped; the run is then alerted and halted. *)
Lemma batch_in_order_witness :
  let onEvent := λ (_ : list (Z * bool)) (s : Z) (_ : bool), if s =? 1 then Throw UserException else Ok () in
  let turns := [mkturn (λ n, Ok (Z.max (n - 1) 2)) true; mkturn (λ n, Ok (Z.max (n - 1) 3)) true; mkturn (λ _, Throw AlertException) false] in
  let b := result_state (run_turns onEvent None None (λ _ _, Ok ()) (start (-1)) turns) in
  reverse (done b) = [0; 1; 2; 3] ∧ sequence b = 3 ∧ -1 ≤ sequence b ≤ -1 + Z.of_nat (length (done b)).
Proof.
  intros onEvent turns b. split; [vm_compute; reflexivity|]. split; [vm_compute; reflexivity|].
  apply (batch_in_order onEvent None None (λ _ _, Ok ()) (-1) turns).
  repeat constructor; intros n a [= <-]; lia.
Defined.

(** *** The thread around the loop *)

Record processor : Type := mkproc { _running : bool; batch : t }.

Section thread.
Context (onEvent : list (Z * bool) → Z → bool → result unit)
        (onTimeout : option (Z → result unit))
        (handleOnTimeoutException : option (exn → Z → result unit))
        (handleEventException : exn → Z → result unit)
        (onStart onShutdown : option (result unit))
        (handleLifecycleException : option (exn → result unit)).

(** [notifyStart], [notifyShutdown]. *)
Definition notify (f : option (result unit)) : result unit :=
  match f with
  | Some (Throw e) => match handleLifecycleException with None => Ok () | Some h => h e end
  | _ => Ok ()
  end.

(** [run]; [None] while it is still in the loop after [turns]. *)
Definition run (p : processor) (turns : list turn) : option (result unit) * processor :=
  if _running p then (Some (Throw RuntimeError), p)
  else match notify onStart with
       | Throw e => (Some (Throw e), mkproc true (batch p))
       | Ok _ =>
           match run_turns onEvent onTimeout handleOnTimeoutException handleEventException
                   (start (sequence (batch p))) turns with
           | Continue b => (None, mkproc true b)
           | Propagate e b => (Some (Throw e), mkproc true b)
           | Break b => match notify onShutdown with
                        | Throw e => (Some (Throw e), mkproc true b)
                        | Ok _ => (Some (Ok ()), mkproc false b)
                        end
           end
       end.

Definition halt (p : processor) : processor := mkproc false (batch p).

(** A second [run] is refused while one is active; after a clean halt it
    goes on from the sequence reached.  An exception handler that rethrows
    leaves [_running] set: the processor has ended and cannot be run again. *)
Lemma run_twice p turns turns' r p' :
  run p turns = (r, p') →
  match r with
  | Some (Ok _) => _running p' = false
  | _ => _running p' = true ∧ run p' turns' = (Some (Throw RuntimeError), p')
  end.
Proof using.
  assert (Hr : ∀ q, _running q = true → run q turns' = (Some (Throw RuntimeError), q)).
  { intros q Hq. unfold run. by rewrite Hq. }
  unfold run at 1. intros H. repeat case_match; simplify_eq/=; try done; (split; [done|by apply Hr]).
Qed.
End thread.

End Batch.
