(* ===== verification/WorkerPool.v ===== *)
(** * WorkerPool: [disruptor/WorkProcessor.hpp] and [WorkerPool.hpp]

    The workers of a pool share one work sequence and take events from it by
    compare-and-set.  Their loop is cut at every atomic access, as a step
    relation over the whole pool. *)

From S2P Require Import Prelude Sequence Claim.
Local Open Scope Z_scope.

(** Where a worker is in the loop of [WorkProcessor::run]. *)
Inductive pc : Type :=
  | Claiming              (* processedSequence: about to read the work sequence *)
  | Read (n : Z)          (* nextSequence = n computed *)
  | Shown (n : Z)         (* _sequence set to n - 1 *)
  | Holding (n : Z).      (* the compare-and-set succeeded; waiting or in onEvent *)

Record worker : Type := mkw {
  w_pc : pc;
  w_sequence : Z;                 (* _sequence *)
  cachedAvailableSequence : Z
}.

Record pool : Type := mkpool {
  workSequence : Z;               (* _workSequence *)
  workers : list worker;
  finished : gset Z;              (* ghost: events handled, failed or released *)
  handled : list Z                (* ghost: onEvent returned or threw, last first *)
}.

Definition int64_min : Z := - 2 ^ 63.

(** [WorkerPool::start]: everything is set to the ring buffer's cursor. *)
Definition start (cursor : Z) (n : nat) : pool :=
  mkpool cursor (replicate n (mkw Claiming cursor int64_min)) ∅ [].

(** [getWorkerSequences]: what the producers are gated by. *)
Definition getWorkerSequences (p : pool) : list Z := (w_sequence <$> workers p) ++ [workSequence p].

Definition set_worker (i : nat) (w : worker) (p : pool) : pool :=
  mkpool (workSequence p) (<[i := w]> (workers p)) (finished p) (handled p).

(** How [onEvent] ends for the loop: [TimeoutException] and [AlertException]
    are caught as the barrier's and the same event is tried again; any other
    exception goes to the exception handler and the event is finished. *)
Definition finishes (r : result unit) : bool :=
  match r with
  | Throw TimeoutException | Throw AlertException => false
  | _ => true
  end.

Inductive step : pool → pool → Prop :=
  | step_read p i w :
      workers p !! i = Some w → w_pc w = Claiming →
      step p (set_worker i (mkw (Read (workSequence p + 1)) (w_sequence w)
                                (cachedAvailableSequence w)) p)
  | step_show p i w n :
      workers p !! i = Some w → w_pc w = Read n →
      step p (set_worker i (mkw (Shown n) (n - 1) (cachedAvailableSequence w)) p)
  | step_cas_ok p i w n :
      workers p !! i = Some w → w_pc w = Shown n → workSequence p = n - 1 →
      step p (mkpool n (<[i := mkw (Holding n) (w_sequence w) (cachedAvailableSequence w)]> (workers p))
                     (finished p) (handled p))
  | step_cas_fail p i w n :
      workers p !! i = Some w → w_pc w = Shown n → workSequence p ≠ n - 1 →
      step p (set_worker i (mkw Claiming (w_sequence w) (cachedAvailableSequence w)) p)
  (* cachedAvailableSequence = _sequenceBarrier->waitFor(nextSequence) *)
  | step_wait p i w n avail :
      workers p !! i = Some w → w_pc w = Holding n → cachedAvailableSequence w < n →
      step p (set_worker i (mkw (Holding n) (w_sequence w) avail) p)
  | step_event p i w n r :
      workers p !! i = Some w → w_pc w = Holding n → n ≤ cachedAvailableSequence w →
      step p (mkpool (workSequence p)
                (if finishes r
                 then <[i := mkw Claiming (w_sequence w) (cachedAvailableSequence w)]> (workers p)
                 else workers p)
                (if finishes r then {[n]} ∪ finished p else finished p)
                (if finishes r then n :: handled p else handled p))
  (* IEventReleaser::release, called by the handler of the event it holds *)
  | step_release p i w n :
      workers p !! i = Some w → w_pc w = Holding n → n ≤ cachedAvailableSequence w →
      step p (mkpool (workSequence p)
                (<[i := mkw (Holding n) int64_max (cachedAvailableSequence w)]> (workers p))
                ({[n]} ∪ finished p) (handled p)).

Inductive reachable (cursor : Z) (n : nat) : pool → Prop :=
  | reach_start : reachable cursor n (start cursor n)
  | reach_step p p' : reachable cursor n p → step p p' → reachable cursor n p'.

(** ** Invariant *)

Definition worker_ok (c : Z) (p : pool) (w : worker) : Prop :=
  match w_pc w with
  | Claiming => True
  | Read n => c < n ≤ workSequence p + 1
  | Shown n => w_sequence w = n - 1 ∧ c < n ≤ workSequence p + 1
  | Holding n => c < n ≤ workSequence p ∧ (n ∈ finished p ∨ w_sequence w = n - 1) ∧ n ∉ handled p
  end.

Definition holds (p : pool) (i : nat) (n : Z) : Prop :=
  ∃ w, workers p !! i = Some w ∧ w_pc w = Holding n.

Record inv (c : Z) (p : pool) : Prop := {
  i_ok i w : workers p !! i = Some w → worker_ok c p w;
  i_base : c ≤ workSequence p;
  i_handled n : n ∈ handled p → c < n ≤ workSequence p ∧ n ∈ finished p;
  i_nodup : NoDup (handled p);
  (* an event that was taken was handled or is held by a worker *)
  i_taken n : c < n ≤ workSequence p → n ∈ handled p ∨ ∃ i, holds p i n;
  i_unique i j n : holds p i n → holds p j n → i = j
}.

Lemma holds_set p i w j n :
  holds (set_worker i w p) j n →
  (i = j ∧ w_pc w = Holding n) ∨ (i ≠ j ∧ holds p j n).
Proof.
  intros (v & Hv & Hp). simpl in Hv. rewrite list_lookup_insert in Hv. case_decide as Hd.
  - destruct Hd. simplify_eq. by left.
  - destruct (decide (i = j)) as [->|Hne].
    + exfalso. apply Hd. split; [done|]. by eapply lookup_lt_Some.
    + right. split; [done|]. by exists v.
Qed.

Lemma holds_set_ne p i w j n : i ≠ j → holds p j n → holds (set_worker i w p) j n.
Proof. intros Hne (v & Hv & Hp). exists v. simpl. by rewrite list_lookup_insert_ne. Qed.

Lemma set_worker_ok c p p' i w :
  (∀ j v, workers p !! j = Some v → j ≠ i → worker_ok c p' v) → worker_ok c p' w →
  ∀ j v, <[i := w]> (workers p) !! j = Some v → worker_ok c p' v.
Proof.
  intros Hall Hw j v. rewrite list_lookup_insert. case_decide as Hd; [naive_solver|].
  intros Hv. apply (Hall j); [done|]. intros ->. apply Hd. split; [done|]. by eapply lookup_lt_Some.
Qed.

Lemma worker_ok_ext c p p' w :
  workSequence p ≤ workSequence p' → finished p ⊆ finished p' →
  (∀ n, w_pc w = Holding n → n ∈ handled p' → n ∈ handled p) →
  worker_ok c p w → worker_ok c p' w.
Proof.
  unfold worker_ok. intros Hw Hf Hh. destruct (w_pc w) as [|n|n|n]; try lia.
  intros (H1 & H2 & H3). split; [lia|]. split; [set_solver|]. intros H. apply H3. by apply Hh.
Qed.

(** A worker that holds no event moves to where it holds none. *)
Lemma inv_move c p i w w' :
  inv c p → workers p !! i = Some w → (∀ n, w_pc w ≠ Holding n) → (∀ n, w_pc w' ≠ Holding n) →
  worker_ok c p w' → inv c (set_worker i w' p).
Proof.
  intros [H1 H2 H3 H4 H5 H6] Hi Hw Hw' Hok. constructor; simpl; try done.
  - apply (set_worker_ok c p); [|done]. intros j v Hv _. by apply (H1 j).
  - intros n Hn. destruct (H5 n Hn) as [?|(j & Hj)]; [by left|right]. exists j.
    apply holds_set_ne; [|done]. intros <-. destruct Hj as (v & Hv & Hp). simplify_eq. by eapply Hw.
  - intros j k n [[_ ?]|[_ Hj]]%holds_set [[_ ?]|[_ Hk]]%holds_set; [naive_solver..|by eapply H6].
Qed.

(** A worker keeps its event. *)
Lemma inv_keep c p i w w' n fin :
  inv c p → workers p !! i = Some w → w_pc w = Holding n → w_pc w' = Holding n →
  finished p ⊆ fin → (n ∈ fin ∨ w_sequence w' = n - 1) →
  inv c (mkpool (workSequence p) (<[i := w']> (workers p)) fin (handled p)).
Proof.
  intros [H1 H2 H3 H4 H5 H6] Hi Hw Hw' Hf Hn.
  assert (Hh : ∀ j m, holds (set_worker i w' p) j m ↔ holds p j m).
  { intros j m. split.
    - intros [[<- Hm]|[_ Hj]]%holds_set; [|done]. exists w. split; [done|]. congruence.
    - intros Hj. destruct (decide (i = j)) as [<-|Hne]; [|by apply holds_set_ne].
      destruct Hj as (v & Hv & Hp). exists w'. simpl. split; [|congruence].
      rewrite list_lookup_insert_eq; [done|]. by eapply lookup_lt_Some. }
  constructor; simpl; try done.
  - apply (set_worker_ok c p).
    + intros j v Hv _. eapply worker_ok_ext; [| | |by eapply H1]; simpl; [lia|done|done].
    + pose proof (H1 i w Hi) as Hok. unfold worker_ok in *. rewrite Hw in Hok. rewrite Hw'. simpl.
      destruct Hok as (? & _ & ?). done.
  - intros m Hm. specialize (H3 m Hm). set_solver.
  - intros m Hm. destruct (H5 m Hm) as [?|(j & Hj)]; [by left|right]. exists j. by apply Hh.
  - intros j k m Hj Hk. eapply H6; by apply Hh.
Qed.

Lemma inv_take c p i w n :
  inv c p → workers p !! i = Some w → w_pc w = Shown n → workSequence p = n - 1 →
  inv c (mkpool n (<[i := mkw (Holding n) (w_sequence w) (cachedAvailableSequence w)]> (workers p))
               (finished p) (handled p)).
Proof.
  intros [H1 H2 H3 H4 H5 H6] Hi Hw Hws. set (w' := mkw _ _ _).
  pose proof (H1 i w Hi) as Hok. unfold worker_ok in Hok. rewrite Hw in Hok. destruct Hok as [Hs Hc].
  assert (Hlt : ∀ j m, holds p j m → m < n).
  { intros j m (v & Hv & Hp). specialize (H1 j v Hv). unfold worker_ok in H1. rewrite Hp in H1. lia. }
  constructor; simpl; try done; try lia.
  - apply (set_worker_ok c p).
    + intros j v Hv _. eapply worker_ok_ext; [| | |by eapply H1]; simpl; [lia|done|done].
    + unfold worker_ok. simpl. split; [lia|]. split; [by right|]. intros Hn%H3. lia.
  - intros m Hm. destruct (H3 m Hm). split; [lia|done].
  - intros m Hm. destruct (decide (m = n)) as [->|Hne].
    + right. exists i, w'. split; [|done]. simpl.
      rewrite list_lookup_insert_eq; [done|]. by eapply lookup_lt_Some.
    + destruct (H5 m) as [?|(j & Hj)]; [lia|by left|right]. exists j.
      apply (holds_set_ne p i w'); [|done]. intros <-. destruct Hj as (v & Hv & Hp). congruence.
  - intros j k m Hj Hk.
    destruct (holds_set p i w' j m Hj) as [[<- Hj']|[_ Hj']],
      (holds_set p i w' k m Hk) as [[<- Hk']|[_ Hk']]; simplify_eq/=; try done.
    + apply Hlt in Hk'. lia.
    + apply Hlt in Hj'. lia.
    + by eapply H6.
Qed.

Lemma inv_finish c p i w n :
  inv c p → workers p !! i = Some w → w_pc w = Holding n →
  inv c (mkpool (workSequence p)
           (<[i := mkw Claiming (w_sequence w) (cachedAvailableSequence w)]> (workers p))
           ({[n]} ∪ finished p) (n :: handled p)).
Proof.
  intros [H1 H2 H3 H4 H5 H6] Hi Hw. set (w' := mkw _ _ _).
  pose proof (H1 i w Hi) as Hok. unfold worker_ok in Hok. rewrite Hw in Hok.
  destruct Hok as (Hr & _ & Hn).
  constructor; simpl; try done.
  - apply (set_worker_ok c p); [|done].
    intros j v Hv Hj. eapply worker_ok_ext; [| | |by eapply H1]; simpl; [lia|set_solver|].
    intros m Hm [->|?]%elem_of_cons; [|done]. exfalso. apply Hj.
    eapply H6; eexists; eauto.
  - intros m [->|Hm]%elem_of_cons; [set_solver|]. specialize (H3 m Hm). set_solver.
  - by constructor.
  - intros m Hm. destruct (H5 m Hm) as [?|(j & Hj)]; [left; by constructor|].
    destruct (decide (i = j)) as [<-|Hne].
    + left. destruct Hj as (v & Hv & Hp). simplify_eq. replace m with n by congruence. constructor.
    + right. exists j. by apply (holds_set_ne p i w').
  - intros j k m [[_ ?]|[_ Hj]]%(holds_set p i w') [[_ ?]|[_ Hk]]%(holds_set p i w'); [done..|by eapply H6].
Qed.

Lemma pool_step_inv c p p' : inv c p → step p p' → inv c p'.
Proof.
  intros Hi Hs. pose proof (i_base _ _ Hi). destruct Hs as [p i w Hw Hp|p i w n Hw Hp|p i w n Hw Hp Hn
    |p i w n Hw Hp Hn|p i w n a Hw Hp Hn|p i w n r Hw Hp Hn|p i w n Hw Hp Hn];
    pose proof (i_ok _ _ Hi i w Hw) as Hok; unfold worker_ok in Hok; rewrite Hp in Hok.
  - eapply inv_move; [done|done|congruence|done|]. unfold worker_ok. simpl. lia.
  - eapply inv_move; [done|done|congruence|done|]. unfold worker_ok. simpl. lia.
  - by eapply inv_take.
  - eapply inv_move; [done|done|congruence|done|done].
  - eapply inv_keep; [done|done|done|done|done|]. naive_solver.
  - destruct (finishes r); [by eapply inv_finish|]. by destruct p.
  - eapply inv_keep; [done|done|done|done|set_solver|]. left. set_solver.
Qed.

Lemma pool_reachable_inv c n p : reachable c n p → inv c p.
Proof.
  induction 1 as [|p p' _ IH Hs]; [|by eapply pool_step_inv].
  assert (Hh : ∀ i m, ¬ holds (start c n) i m).
  { intros i m (w & [-> _]%lookup_replicate & Hp). done. }
  constructor; simpl; try done; try lia.
  - by intros i w [-> _]%lookup_replicate.
  - by intros m ?%elem_of_nil.
  - constructor.
  - intros i j m Hi. by apply Hh in Hi.
Qed.

(** In every interleaving of the workers of a pool, no event is handled
    twice, an event that was taken has been handled or is held by exactly one
    worker, and the smallest of the sequences the producers are gated by stays
    below every event that is not finished, so that its slot is not reused
    while a worker may still read it. *)
Theorem each_event_once c n p :
  reachable c n p →
  NoDup (handled p)
  ∧ (∀ s, c < s ≤ workSequence p → s ∉ handled p →
       ∃ i, holds p i s ∧ ∀ j, holds p j s → j = i)
  ∧ (∀ s m, c < s → s ∉ finished p → min_of (getWorkerSequences p) m < s).
Proof.
  intros Hr%pool_reachable_inv. destruct Hr as [H1 H2 H3 H4 H5 H6].
  split; [done|]. split.
  - intros s Hs Hn. destruct (H5 s Hs) as [?|(i & Hi)]; [done|]. exists i. split; [done|].
    intros j Hj. by eapply H6.
  - intros s m Hc Hs. destruct (decide (s ≤ workSequence p)) as [Hle|Hgt].
    + destruct (H5 s) as [Hh|(i & w & Hw & Hp)]; [lia|by apply H3 in Hh as [_ ?]|].
      pose proof (H1 i w Hw) as Hok. unfold worker_ok in Hok. rewrite Hp in Hok.
      assert (min_of (getWorkerSequences p) m ≤ w_sequence w); [|naive_solver lia].
      apply min_of_le, elem_of_app. left. apply list_elem_of_fmap. exists w.
      split; [done|]. by eapply list_elem_of_lookup_2.
    + assert (min_of (getWorkerSequences p) m ≤ workSequence p); [|lia].
      apply min_of_le, elem_of_app. right. constructor.
Qed.

(** Two workers race for event 0. *)
Lemma race_reachable :
  ∃ p, reachable (-1) 2 p ∧ workSequence p = 0 ∧ handled p = [] ∧ finished p = ∅.
Proof.
  pose proof (reach_start (-1) 2) as H.
  eapply reach_step in H; [|by eapply (step_read _ 0)].
  eapply reach_step in H; [|by eapply (step_read _ 1)].
  eapply reach_step in H; [|by eapply (step_show _ 0)].
  eapply reach_step in H; [|by eapply (step_show _ 1)].
  eapply reach_step in H; [|by eapply (step_cas_ok _ 1)].
  eapply reach_step in H; [|by eapply (step_cas_fail _ 0)].
  eexists. split; [exact H|]. done.
Qed.

Lemma each_event_once_witness :
  ∃ p, reachable (-1) 2 p ∧ workSequence p = 0
       ∧ (∃ i, holds p i 0 ∧ ∀ j, holds p j 0 → j = i) ∧ min_of (getWorkerSequences p) int64_max < 0.
Proof.
  destruct race_reachable as (p & H & Hw & Hh & Hf). exists p.
  destruct (each_event_once (-1) 2 p H) as (_ & H1 & H2).
  split; [exact H|]. split; [exact Hw|]. split.
  - apply H1; [lia|]. rewrite Hh. apply not_elem_of_nil.
  - apply H2; [lia|]. rewrite Hf. apply not_elem_of_empty.
Defined.
