(* ===== verification/Locks.v ===== *)
(** * Locks: [ReaderWriterLock.hpp], [AtomicMutex] of [SpinWait.hpp] and the
    spin lock of [disruptor/Transactions.hpp]

    Each lock is one atomic word; the threads' programs are cut at every
    access of it. *)

From S2P Require Import Prelude.
Local Open Scope Z_scope.

Inductive ReaderWriterLockType : Type := READ | WRITE.

(** ** [ReaderWriterLock] *)

Module RW.

(** What a thread does with the lock; [Trying] threads are in [lock] (which
    repeats the exchange) or in [tryLock] (which does not). *)
Inductive pc : Type :=
  | Idle
  | Trying (k : ReaderWriterLockType) (expected : Z) (once : bool)
  | Holds (k : ReaderWriterLockType).

Record conc : Type := mk { count : Z (* _activeReaderCount *); threads : list pc }.

(** [if (expected < 0) expected = 0] for readers, [> 0] for writers. *)
Definition clamp (k : ReaderWriterLockType) (expected : Z) : Z :=
  match k with
  | READ => if expected <? 0 then 0 else expected
  | WRITE => if 0 <? expected then 0 else expected
  end.

Definition delta (k : ReaderWriterLockType) : Z := match k with READ => 1 | WRITE => -1 end.

Definition set_pc (i : nat) (p : pc) (c : conc) : conc := mk (count c) (<[i := p]> (threads c)).

Inductive step : conc → conc → Prop :=
  | step_load c i k once :
      threads c !! i = Some Idle → step c (set_pc i (Trying k (count c) once) c)
  (* compare_exchange(expected, expected + delta) *)
  | step_cas_ok c i k e once :
      threads c !! i = Some (Trying k e once) → count c = clamp k e →
      step c (mk (clamp k e + delta k) (<[i := Holds k]> (threads c)))
  | step_cas_fail c i k e :
      threads c !! i = Some (Trying k e false) → count c ≠ clamp k e →
      step c (set_pc i (Trying k (count c) false) c)
  | step_try_fail c i k e :
      threads c !! i = Some (Trying k e true) → count c ≠ clamp k e →
      step c (set_pc i Idle c)
  | step_unlock c i k :
      threads c !! i = Some (Holds k) →
      step c (mk (count c - delta k) (<[i := Idle]> (threads c))).

Inductive reachable (n : nat) : conc → Prop :=
  | reach_init : reachable n (mk 0 (replicate n Idle))
  | reach_step c c' : reachable n c → step c c' → reachable n c'.

(** What a thread contributes to the count. *)
Definition weight (k : ReaderWriterLockType) (p : pc) : Z :=
  match p, k with
  | Holds READ, READ | Holds WRITE, WRITE => 1
  | _, _ => 0
  end.

Definition holders (k : ReaderWriterLockType) (ts : list pc) : Z :=
  foldr (λ p s, weight k p + s) 0 ts.

Lemma holders_nonneg k ts : 0 ≤ holders k ts.
Proof. induction ts as [|p ts IH]; simpl; [done|]. destruct p as [| |[]], k; simpl; lia. Qed.

Lemma lock_holders_insert k i p q ts :
  ts !! i = Some p → holders k (<[i := q]> ts) = holders k ts - weight k p + weight k q.
Proof.
  revert i. induction ts as [|x ts IH]; intros [|i] H; simplify_eq/=; [lia|].
  rewrite (IH i H). lia.
Qed.

Lemma holders_elem k i ts : ts !! i = Some (Holds k) → 0 < holders k ts.
Proof.
  revert i. induction ts as [|x ts IH]; intros [|i] H; simplify_eq/=.
  - pose proof (holders_nonneg k ts). destruct k; simpl; lia.
  - specialize (IH i H). destruct x as [| |[]], k; simpl; lia.
Qed.

Definition inv (c : conc) : Prop :=
  (holders WRITE (threads c) = 0 ∧ count c = holders READ (threads c))
  ∨ (holders READ (threads c) = 0 ∧ count c = - holders WRITE (threads c)).

Lemma rw_step_inv c c' : inv c → step c c' → inv c'.
Proof.
  intros Hi Hs. pose proof (holders_nonneg READ (threads c)).
  pose proof (holders_nonneg WRITE (threads c)). unfold inv in *.
  destruct Hs as [c i k o Hp|c i k e o Hp Hc|c i k e Hp Hc|c i k e Hp Hc|c i k Hp]; simpl;
    rewrite !(lock_holders_insert _ i _ _ _ Hp); simpl.
  - lia.
  - unfold clamp in *. destruct k; simpl.
    + destruct (Z.ltb_spec e 0); lia.
    + destruct (Z.ltb_spec 0 e); lia.
  - lia.
  - lia.
  - pose proof (holders_elem k i _ Hp). destruct k; simpl; lia.
Qed.

Lemma rw_reachable_inv n c : reachable n c → inv c.
Proof.
  induction 1 as [|c c' _ IH Hs]; [|by eapply rw_step_inv].
  left. simpl. assert (H : ∀ k, holders k (replicate n Idle) = 0).
  { intros k. induction n as [|n IH]; simpl; [done|]. by rewrite IH; destruct k. }
  by rewrite !H.
Qed.

(** Readers and writers exclude each other: whenever a thread holds the
    lock for reading no thread holds it for writing, and the counter is the
    number of readers or minus the number of writers (several writers may
    hold it together). *)
Theorem readers_exclude_writers n c i j :
  reachable n c → threads c !! i = Some (Holds READ) → threads c !! j ≠ Some (Holds WRITE)
  ∧ count c = holders READ (threads c) ∧ 0 < count c.
Proof.
  intros Hr%rw_reachable_inv Hi. apply holders_elem in Hi as Hp.
  destruct Hr as [[Hw Hc]|[Hr0 Hc]]; [|lia]. split; [|lia].
  intros Hj%holders_elem. lia.
Qed.

Lemma two_readers_reachable : ∃ c, reachable 3 c ∧ threads c = [Holds READ; Idle; Holds READ].
Proof.
  pose proof (reach_init 3) as H.
  eapply reach_step in H; [|by eapply (step_load _ 0 READ false)].
  eapply reach_step in H; [|by eapply (step_load _ 2 READ true)].
  eapply reach_step in H; [|by eapply (step_cas_ok _ 0)].
  eapply reach_step in H; [|eapply (step_try_fail _ 2); [reflexivity|vm_compute; discriminate]].
  eapply reach_step in H; [|by eapply (step_load _ 2 READ false)].
  eapply reach_step in H; [|by eapply (step_cas_ok _ 2)].
  eexists. split; [exact H|]. done.
Qed.

Lemma readers_exclude_writers_witness : ∃ c, reachable 3 c ∧ 0 < count c.
Proof.
  destruct two_readers_reachable as (c & H & E). exists c. split; [exact H|].
  apply (readers_exclude_writers 3 c 0 1 H). by rewrite E.
Defined.

End RW.

(** ** [AtomicMutex]: test-and-set *)

Module Mutex.

Inductive pc : Type := Idle | Locking | Critical.
Record conc : Type := mk { flag : bool; threads : list pc }.

Inductive step : conc → conc → Prop :=
  | step_lock c i : threads c !! i = Some Idle → step c (mk (flag c) (<[i := Locking]> (threads c)))
  (* _lock.test_and_set(): true means it was taken, and the loop goes round *)
  | step_spin c i : threads c !! i = Some Locking → flag c = true → step c c
  | step_enter c i : threads c !! i = Some Locking → flag c = false →
      step c (mk true (<[i := Critical]> (threads c)))
  | step_unlock c i : threads c !! i = Some Critical →
      step c (mk false (<[i := Idle]> (threads c))).

Inductive reachable (n : nat) : conc → Prop :=
  | reach_init : reachable n (mk false (replicate n Idle))
  | reach_step c c' : reachable n c → step c c' → reachable n c'.

Definition critical (c : conc) (i : nat) : Prop := threads c !! i = Some Critical.

Record inv (c : conc) : Prop := {
  i_unique i j : critical c i → critical c j → i = j;
  i_flag i : critical c i → flag c = true
}.

Lemma critical_insert c f i p j :
  critical (mk f (<[i := p]> (threads c))) j → (i = j ∧ p = Critical) ∨ (i ≠ j ∧ critical c j).
Proof.
  unfold critical. simpl. rewrite list_lookup_insert. case_decide as Hd; [naive_solver|].
  intros H. right. split; [|done]. intros ->. apply Hd. split; [done|]. by eapply lookup_lt_Some.
Qed.

Lemma mutex_step_inv c c' : inv c → step c c' → inv c'.
Proof.
  intros [H1 H2] Hs. destruct Hs as [c i Hi|c i Hi Hf|c i Hi Hf|c i Hi]; [| done| |].
  - constructor; [intros a b Ha Hb|intros a Ha];
      apply critical_insert in Ha as [[_ ?]|[_ Ha]]; try done; [|by eapply H2].
    apply critical_insert in Hb as [[_ ?]|[_ Hb]]; [done|]. by apply H1.
  - assert (Hno : ∀ j, ¬ critical c j) by (intros j Hj%H2; congruence).
    constructor; [|done]. intros a b [[<- _]|[_ Ha]]%critical_insert [[<- _]|[_ Hb]]%critical_insert;
      [done|by apply Hno in Hb|by apply Hno in Ha|by apply Hno in Ha].
  - assert (Hno : ∀ j, ¬ critical (mk false (<[i:=Idle]> (threads c))) j).
    { intros j [[_ ?]|[Hne Hj]]%critical_insert; [done|]. apply Hne. by apply H1. }
    constructor; intros a; [intros b Ha|intros Ha]; by apply Hno in Ha.
Qed.

(** [AtomicMutex] is a mutual exclusion lock. *)
Theorem mutual_exclusion n c i j :
  reachable n c → critical c i → critical c j → i = j.
Proof.
  intros Hr. assert (Hi : inv c); [|apply Hi].
  induction Hr as [|c c' _ IH Hs]; [|by eapply mutex_step_inv].
  constructor; intros a; [intros b Ha|intros Ha]; by apply lookup_replicate in Ha as [? _].
Qed.

Lemma mutual_exclusion_witness :
  ∃ c, reachable 2 c ∧ critical c 1 ∧ ∀ j, critical c j → 1%nat = j.
Proof.
  pose proof (reach_init 2) as H.
  eapply reach_step in H; [|by eapply (step_lock _ 1)].
  eapply reach_step in H; [|by eapply (step_enter _ 1)].
  eexists. split; [exact H|]. split; [done|]. intros j Hj.
  by eapply (mutual_exclusion 2 _ 1 j H).
Defined.

End Mutex.

(** ** The spin lock of the transaction list

    [bool expected = false;
     while (compare_exchange_strong(&_transactionListLock, &expected, true)) ;]
    repeats while the exchange succeeds. *)

Module TransactionList.

Inductive pc : Type := Idle | Spinning (expected : bool) | Critical.
Record conc : Type := mk { flag : bool; threads : list pc }.

Inductive step : conc → conc → Prop :=
  | step_start c i : threads c !! i = Some Idle →
      step c (mk (flag c) (<[i := Spinning false]> (threads c)))
  | step_cas_ok c i e : threads c !! i = Some (Spinning e) → flag c = e →
      step c (mk true (threads c))
  (* the failed exchange stores the flag into [expected] and ends the loop *)
  | step_cas_fail c i e : threads c !! i = Some (Spinning e) → flag c ≠ e →
      step c (mk (flag c) (<[i := Critical]> (threads c)))
  | step_store c i : threads c !! i = Some Critical →
      step c (mk false (<[i := Idle]> (threads c))).

Inductive reachable (n : nat) : conc → Prop :=
  | reach_init : reachable n (mk false (replicate n Idle))
  | reach_step c c' : reachable n c → step c c' → reachable n c'.

(** The loop has the test the wrong way round: a thread that finds the
    lock taken enters at once, and two threads can be in the critical section
    together. *)
Theorem no_mutual_exclusion :
  (∃ c, reachable 2 c ∧ threads c = [Critical; Critical])
  ∧ (∀ c i, flag c = true → threads c !! i = Some (Spinning false) →
       step c (mk true (<[i := Critical]> (threads c)))).
Proof.
  split.
  - pose proof (reach_init 2) as H.
    eapply reach_step in H; [|by eapply (step_start _ 0)].
    eapply reach_step in H; [|by eapply (step_start _ 1)].
    eapply reach_step in H; [|by eapply (step_cas_ok _ 0)].
    eapply reach_step in H; [|by eapply (step_cas_fail _ 0)].
    eapply reach_step in H; [|by eapply (step_cas_fail _ 1)].
    eexists. split; [exact H|]. done.
  - intros c i Hf Hi. pose proof (step_cas_fail c i false Hi) as Hs.
    rewrite Hf in Hs. by apply Hs.
Qed.

End TransactionList.
