(* ===== verification/Text.v ===== *)
(** * Text: numbers in text

    What the sources use of the standard library to write and read integers:
    [std::to_string], [std::format("{}")], [std::from_chars], [std::stoi], and
    hexadecimal digits. *)

From S2P Require Import Prelude.
Local Open Scope Z_scope.

Fixpoint take_while (p : ascii → bool) (s : bytes) : bytes :=
  match s with
  | c :: s' => if p c then c :: take_while p s' else []
  | [] => []
  end.

Definition digit (d : Z) : ascii := chr (48 + d).

(** Decimal digits, most significant first; the fuel is a bound on their
    number. *)
Fixpoint digits (fuel : nat) (n : Z) : bytes :=
  match fuel with
  | O => []
  | S fuel' => if n <? 10 then [digit n] else digits fuel' (n / 10) ++ [digit (n mod 10)]
  end.

Definition to_dec (z : Z) : bytes :=
  let n := Z.abs z in
  let ds := digits (S (Z.to_nat (Z.log2 n))) n in
  if z <? 0 then "-"%char :: ds else ds.

Definition dec_value (s : bytes) : Z := fold_left (λ v c, 10 * v + (code c - 48)) s 0.

(** [std::from_chars] into a [w]-bit signed integer: the error code, with the
    value where it is stored. *)
Inductive from_chars_result : Type := Parsed (z : Z) | invalid_argument | result_out_of_range.

Definition from_chars (w : Z) (s : bytes) : from_chars_result :=
  let '(neg, body) := match s with
                      | c :: s' => if eqc c "-" then (true, s') else (false, s)
                      | [] => (false, s)
                      end in
  match take_while is_digit body with
  | [] => invalid_argument
  | ds => let v := if neg : bool then - dec_value ds else dec_value ds in
          if (- 2 ^ (w - 1) <=? v) && (v <? 2 ^ (w - 1)) then Parsed v else result_out_of_range
  end.

(** [std::stoi]: leading white space and a sign are accepted; it throws
    [std::invalid_argument] or [std::out_of_range]. *)
Definition is_space (c : ascii) : bool := (code c =? 32) || ((9 <=? code c) && (code c <=? 13)).

Fixpoint drop_while (p : ascii → bool) (s : bytes) : bytes :=
  match s with
  | c :: s' => if p c then drop_while p s' else s
  | [] => []
  end.

Definition stoi (s : bytes) : result Z :=
  let s1 := drop_while is_space s in
  let s2 := match s1 with c :: s' => if eqc c "+" then
                match s' with d :: _ => if eqc d "-" then s1 else s' | [] => s' end
              else s1 | [] => [] end in
  match from_chars 32 s2 with
  | Parsed z => Ok z
  | invalid_argument => Throw InvalidArgument
  | result_out_of_range => Throw OutOfRange
  end.

(** Hexadecimal digits: upper case to write, either case to read. *)
Definition hex_digit (d : Z) : ascii := if d <? 10 then chr (48 + d) else chr (55 + d).

Definition hex_value (c : ascii) : Z :=
  if is_digit c then code c - 48 else if is_upper c then code c - 55 else code c - 87.

(** ** Reading back *)

Lemma digit_is_digit d : 0 ≤ d < 10 → is_digit (digit d) = true.
Proof.
  intros Hd. unfold is_digit, in_range, schar, digit. rewrite code_chr.
  rewrite Z.mod_small by lia. destruct (Z.ltb_spec (48 + d) 128); lia.
Qed.

Lemma code_digit d : 0 ≤ d < 10 → code (digit d) = 48 + d.
Proof. intros Hd. unfold digit. rewrite code_chr. apply Z.mod_small. lia. Qed.

Lemma digits_are_digits fuel n : 0 ≤ n → Forall (λ c, is_digit c = true) (digits fuel n).
Proof.
  revert n. induction fuel as [|fuel IH]; intros n Hn; simpl; [constructor|].
  destruct (Z.ltb_spec n 10).
  - repeat constructor. apply digit_is_digit. lia.
  - apply Forall_app. split; [apply IH; by apply Z.div_pos|].
    repeat constructor. apply digit_is_digit. by apply Z.mod_pos_bound.
Qed.

Lemma digits_nonempty fuel n : digits (S fuel) n ≠ [].
Proof. simpl. destruct (_ <? _); [done|]. by destruct (digits fuel (n / 10)). Qed.

Lemma dec_value_digits fuel n : 0 ≤ n < 2 ^ Z.of_nat fuel → dec_value (digits fuel n) = n.
Proof.
  revert n. induction fuel as [|fuel IH]; intros n Hn; simpl; [simpl in Hn; unfold dec_value; simpl; lia|].
  rewrite Nat2Z.inj_succ, Z.pow_succ_r in Hn by lia.
  destruct (Z.ltb_spec n 10) as [Hlt|Hge].
  - unfold dec_value. simpl. rewrite code_digit by lia. lia.
  - unfold dec_value in *. rewrite fold_left_app. simpl. rewrite IH.
    + rewrite code_digit by (by apply Z.mod_pos_bound). pose proof (Z.div_mod n 10). lia.
    + split; [by apply Z.div_pos; lia|]. apply Z.div_lt_upper_bound; lia.
Qed.

Lemma log2_fuel n : 0 ≤ n → n < 2 ^ Z.of_nat (S (Z.to_nat (Z.log2 n))).
Proof.
  intros Hn. pose proof (Z.log2_nonneg n).
  rewrite Nat2Z.inj_succ, Z2Nat.id by done.
  destruct (decide (n = 0)) as [->|]; [done|]. apply Z.log2_spec. lia.
Qed.

Lemma take_while_all p s t :
  Forall (λ c, p c = true) s → match t with [] => True | c :: _ => p c = false end →
  take_while p (s ++ t) = s.
Proof.
  intros H Ht. induction H as [|c s Hc _ IH]; simpl.
  - destruct t as [|c t]; simpl; [done|]. by rewrite Ht.
  - by rewrite Hc, IH.
Qed.

Lemma digit_not_minus c : is_digit c = true → eqc c "-" = false.
Proof.
  assert (H : negb (is_digit c) || negb (eqc c "-") = true) by by_all_chars c.
  intros Hc. rewrite Hc in H. by apply negb_true_iff.
Qed.

(** A number written in decimal and followed by anything but a digit is read
    back. *)
Lemma from_chars_to_dec w z t :
  0 < w → in_s w z → match t with [] => True | c :: _ => is_digit c = false end →
  from_chars w (to_dec z ++ t) = Parsed z.
Proof.
  intros Hw Hz Ht. unfold to_dec.
  set (ds := digits (S (Z.to_nat (Z.log2 (Z.abs z)))) (Z.abs z)).
  assert (Hd : Forall (λ c, is_digit c = true) ds) by (apply digits_are_digits; lia).
  assert (Hv : dec_value ds = Z.abs z).
  { apply dec_value_digits. split; [lia|]. apply log2_fuel. lia. }
  assert (Hne : ds ≠ []) by apply digits_nonempty.
  pose proof (take_while_all is_digit ds t Hd Ht) as Htw. clearbody ds.
  unfold in_s in Hz. unfold from_chars. destruct (Z.ltb_spec z 0) as [Hneg|Hpos].
  - cbn [app]. rewrite eqc_refl, Htw. destruct ds as [|d ds']; [done|]. rewrite Hv. replace (- Z.abs z) with z by lia.
    destruct (Z.leb_spec (- 2 ^ (w - 1)) z), (Z.ltb_spec z (2 ^ (w - 1))); simpl; (done || lia).
  - destruct (ds ++ t) as [|c s'] eqn:Hdt; [by destruct ds|].
    assert (Hc : eqc c "-" = false).
    { apply digit_not_minus. destruct ds as [|d ds']; [done|]. simpl in Hdt. simplify_eq.
      by apply Forall_cons_iff in Hd as [? _]. }
    rewrite Hc, Htw. destruct ds as [|d ds']; [done|]. rewrite Hv. replace (Z.abs z) with z by lia.
    destruct (Z.leb_spec (- 2 ^ (w - 1)) z), (Z.ltb_spec z (2 ^ (w - 1))); simpl; (done || lia).
Qed.

Definition is_dec_char (c : ascii) : bool := is_digit c || eqc c "-".

Lemma to_dec_chars z : Forall (λ c, is_dec_char c = true) (to_dec z).
Proof.
  unfold to_dec. set (ds := digits _ _).
  assert (H : Forall (λ c, is_dec_char c = true) ds).
  { eapply Forall_impl; [apply digits_are_digits; lia|]. unfold is_dec_char. by intros c ->. }
  destruct (z <? 0); [by constructor|done].
Qed.

Lemma to_dec_nonempty z : to_dec z ≠ [].
Proof. unfold to_dec. destruct (z <? 0); [done|]. apply digits_nonempty. Qed.

(** No character of a decimal is [c], for a [c] that is neither a digit nor a
    minus sign. *)
Lemma to_dec_without c z : is_dec_char c = false → Forall (λ d, eqc c d = false) (to_dec z).
Proof.
  intros Hc. eapply Forall_impl; [apply to_dec_chars|]. simpl. intros d Hd.
  apply eqc_false. intros <-. congruence.
Qed.
