(* ===== verification/TimingCtx.v ===== *)
(** * TimingCtx: [core/include/TimingCtx.hpp]

    The FAIR timing selector: its text form, the lazily parsed identifiers,
    and matching with wildcards. *)

From S2P Require Import Prelude Text.
Local Open Scope char_scope.
Local Open Scope Z_scope.

Definition DEFAULT : bytes := str "FAIR.SELECTOR.ALL".
Definition WILDCARD : bytes := str "ALL".
Definition WILDCARD_VALUE : Z := -1.
Definition SELECTOR_PREFIX : bytes := str "FAIR.SELECTOR.".

(** [detail::const_hash]: of the C string, up to a NUL, in [uint32_t]
    arithmetic. *)
Fixpoint const_hash (s : bytes) : Z :=
  match s with
  | [] => 5381
  | c :: s' => if code c =? 0 then 5381 else wrapu 32 (wrapu 32 (schar c) + 33 * const_hash s')
  end.

Definition EMPTY_HASH : Z := const_hash DEFAULT.

Definition toUpper (s : bytes) : bytes := to_upper <$> s.

Record t : Type := mk {
  _hash : Z;
  _cid : Z; _sid : Z; _pid : Z; _gid : Z;
  selector : bytes;
  bpcts : Z
}.

(** The loop of [parse] writes the identifiers one after the other. *)
Record ids : Type := mkids { i_cid : Z; i_sid : Z; i_pid : Z; i_gid : Z }.

#[export] Instance ids_eq_dec : EqDecision ids.
Proof. solve_decision. Defined.

Definition wildcards : ids := mkids (-1) (-1) (-1) (-1).

(** The value of a tag; an integer out of range leaves the initial 0, since
    only [std::errc::invalid_argument] is looked at. *)
Definition parse_value (valueString : bytes) : result Z :=
  if bool_decide (valueString = WILDCARD) then Ok (-1)
  else match from_chars 32 valueString with
       | Parsed intValue => Ok intValue
       | result_out_of_range => Ok 0
       | invalid_argument => Throw InvalidArgument
       end.

Definition parse_tag (tag : bytes) (i : ids) : result ids :=
  if (length tag <? 3)%nat then Throw InvalidArgument
  else match find_if (eqc "=") tag with
       | Some 1%nat =>
           match find_from (eqc "=") tag 2 with
           | Some _ => Throw InvalidArgument
           | None =>
               let valueString := drop 2 tag in
               match parse_value valueString with
               | Throw e => Throw e
               | Ok value =>
                   match head tag with
                   | Some k =>
                       if eqc k "C" then Ok (mkids value (i_sid i) (i_pid i) (i_gid i))
                       else if eqc k "S" then Ok (mkids (i_cid i) value (i_pid i) (i_gid i))
                       else if eqc k "P" then Ok (mkids (i_cid i) (i_sid i) value (i_gid i))
                       else if eqc k "T" then Ok (mkids (i_cid i) (i_sid i) (i_pid i) value)
                       else Throw InvalidArgument
                   | None => Throw InvalidArgument
                   end
               end
           end
       | _ => Throw InvalidArgument
       end.

(** [while (true)]: the view gets shorter by at least one byte per turn.  The
    identifiers read before an exception stay assigned. *)
Fixpoint parse_tags (fuel : nat) (view : bytes) (i : ids) : result unit * ids :=
  match fuel with
  | O => (Throw InvalidArgument, i)
  | S fuel' =>
      let posColon := find_if (eqc ":") view in
      let tag := match posColon with Some p => take p view | None => view end in
      match parse_tag tag i with
      | Throw e => (Throw e, i)
      | Ok i' => match posColon with
                 | None => (Ok (), i')
                 | Some p => parse_tags fuel' (drop (p + 1) view) i'
                 end
      end
  end.

Definition with_ids (hash : Z) (i : ids) (c : t) : t :=
  mk hash (i_cid i) (i_sid i) (i_pid i) (i_gid i) (selector c) (bpcts c).

(** [parse]: the exceptions of the tags reset the hash; the one of an unknown
    prefix does not. *)
Definition parse (c : t) : result unit * t :=
  let selectorHash := const_hash (selector c) in
  if _hash c =? selectorHash then (Ok (), c)
  else
    let upperCaseSelector := toUpper (selector c) in
    if bool_decide (upperCaseSelector = []) || bool_decide (upperCaseSelector = WILDCARD)
    then (Ok (), with_ids selectorHash wildcards c)
    else if negb (starts_with upperCaseSelector SELECTOR_PREFIX)
    then (Throw InvalidArgument, with_ids selectorHash wildcards c)
    else
      let view := drop (length SELECTOR_PREFIX) upperCaseSelector in
      if bool_decide (view = WILDCARD) then (Ok (), with_ids selectorHash wildcards c)
      else match parse_tags (S (length view)) view wildcards with
           | (Ok _, i) => (Ok (), with_ids selectorHash i c)
           | (Throw e, i) => (Throw e, with_ids 0 i c)
           end.

Definition isWildcard (x : Z) : bool := x =? -1.
Definition wildcardMatch (lhs rhs : Z) : bool := isWildcard rhs || (lhs =? rhs).

(** [toString<false>]: of the identifiers as they are. *)
Definition toString_ids (i : ids) : bytes :=
  if isWildcard (i_cid i) && isWildcard (i_sid i) && isWildcard (i_pid i) && isWildcard (i_gid i)
  then SELECTOR_PREFIX ++ WILDCARD
  else
    let seg (k : ascii) (v : Z) := if isWildcard v then [] else [k :: "=" :: to_dec v] in
    SELECTOR_PREFIX ++
    join (str ":") (seg "C" (i_cid i) ++ seg "S" (i_sid i) ++ seg "P" (i_pid i) ++ seg "T" (i_gid i)).

Definition ids_of (c : t) : ids := mkids (_cid c) (_sid c) (_pid c) (_gid c).

(** The constructors; an exception of [parse] leaves no object. *)
Definition from_selector (selectorToken : bytes) (bpcTimeStamp : Z) : result t :=
  match parse (mk EMPTY_HASH (-1) (-1) (-1) (-1) (toUpper selectorToken) bpcTimeStamp) with
  | (Ok _, c) => Ok c
  | (Throw e, _) => Throw e
  end.

Definition from_ids (i : ids) (bpcTimeStamp : Z) : result t :=
  match parse (mk EMPTY_HASH (i_cid i) (i_sid i) (i_pid i) (i_gid i) (toString_ids i) bpcTimeStamp) with
  | (Ok _, c) => Ok c
  | (Throw e, _) => Throw e
  end.

(** The observers parse first, and pass on its exception. *)
Definition parsed {A} (f : t → A) (c : t) : result A :=
  match parse c with (Ok _, c') => Ok (f c') | (Throw e, _) => Throw e end.

Definition cid : t → result Z := parsed _cid.
Definition sid : t → result Z := parsed _sid.
Definition pid : t → result Z := parsed _pid.
Definition gid : t → result Z := parsed _gid.
Definition toString : t → result bytes := parsed (λ c, toString_ids (ids_of c)).

Definition matches_ids (i j : ids) : bool :=
  wildcardMatch (i_cid i) (i_cid j) && wildcardMatch (i_sid i) (i_sid j)
  && wildcardMatch (i_pid i) (i_pid j) && wildcardMatch (i_gid i) (i_gid j).

(** [matches] parses this object only. *)
Definition matches (c other : t) : result bool :=
  parsed (λ c', matches_ids (ids_of c') (ids_of other)) c.

Definition matchesWithBpcts (c other : t) : result bool :=
  parsed (λ c', ((bpcts other =? 0) || (bpcts c' =? bpcts other))
                && matches_ids (ids_of c') (ids_of other)) c.

Definition eq_ctx (c other : t) : result bool :=
  parsed (λ c', (bpcts c' =? bpcts other) && (_cid c' =? _cid other) && (_sid c' =? _sid other)
                && (_pid c' =? _pid other) && (_gid c' =? _gid other)) c.

Example parse_example :
  cid <$> [mk 0 (-1) (-1) (-1) (-1) (str "fair.selector.c=1:s=2:t=all") 0] = [Ok 1].
Proof. reflexivity. Qed.

(** ** Reading back what [toString] writes *)

Definition assign (k : ascii) (v : Z) (i : ids) : ids :=
  if eqc k "C" then mkids v (i_sid i) (i_pid i) (i_gid i)
  else if eqc k "S" then mkids (i_cid i) v (i_pid i) (i_gid i)
  else if eqc k "P" then mkids (i_cid i) (i_sid i) v (i_gid i)
  else mkids (i_cid i) (i_sid i) (i_pid i) v.

Definition is_key (k : ascii) : bool := one_of (str "CSPT") k.

Lemma is_key_cases k : is_key k = true → k = "C"%char ∨ k = "S"%char ∨ k = "P"%char ∨ k = "T"%char.
Proof.
  unfold is_key, one_of. simpl. rewrite !orb_true_iff, !eqc_true. intros [|[|[|[|]]]]; auto. done.
Qed.

Lemma parse_value_to_dec v : in_s 32 v → parse_value (to_dec v) = Ok v.
Proof.
  intros Hv. unfold parse_value. rewrite bool_decide_false.
  - pose proof (from_chars_to_dec 32 v [] eq_refl Hv I) as H. rewrite app_nil_r in H. by rewrite H.
  - intros E. pose proof (to_dec_chars v) as H. rewrite E in H. apply Forall_cons_iff in H as [H _].
    vm_compute in H. done.
Qed.

Lemma parse_tag_seg k v i :
  is_key k = true → in_s 32 v → parse_tag (k :: "=" :: to_dec v) i = Ok (assign k v i).
Proof.
  intros Hk Hv. unfold parse_tag.
  assert (Hlen : (length (k :: "="%char :: to_dec v) <? 3)%nat = false).
  { pose proof (to_dec_nonempty v). destruct (to_dec v); [done|]. done. }
  rewrite Hlen. assert (Hf : find_if (eqc "=") (k :: "="%char :: to_dec v) = Some 1%nat).
  { by destruct (is_key_cases k Hk) as [->|[->|[->| ->]]]. }
  rewrite Hf. unfold find_from. change (drop 2 (k :: "="%char :: to_dec v)) with (to_dec v).
  rewrite (proj2 (find_if_None (eqc "=") (to_dec v))) by (by apply to_dec_without). simpl.
  rewrite parse_value_to_dec by done.
  by destruct (is_key_cases k Hk) as [->|[->|[->| ->]]].
Qed.

Definition seg (kv : ascii * Z) : bytes := kv.1 :: "="%char :: to_dec kv.2.

Lemma seg_no_colon kv : is_key kv.1 = true → Forall (λ c, eqc ":" c = false) (seg kv).
Proof.
  intros Hk. unfold seg. repeat constructor; [|by apply to_dec_without].
  by destruct (is_key_cases _ Hk) as [->|[->|[->| ->]]].
Qed.

Lemma parse_tags_segs kvs fuel i :
  kvs ≠ [] → Forall (λ kv, is_key kv.1 = true ∧ in_s 32 kv.2) kvs → (length kvs ≤ fuel)%nat →
  parse_tags fuel (join (str ":") (seg <$> kvs)) i
  = (Ok (), fold_left (λ i kv, assign kv.1 kv.2 i) kvs i).
Proof.
  intros Hne H. revert fuel i. induction H as [|kv kvs [Hk Hv] H IH]; [done|].
  intros [|fuel] i Hf; [simpl in Hf; lia|].
  destruct kvs as [|kv' kvs].
  - change (join (str ":") (seg <$> [kv])) with (seg kv). cbn [parse_tags].
    rewrite (proj2 (find_if_None (eqc ":") (seg kv))) by (by apply seg_no_colon).
    unfold seg. by rewrite parse_tag_seg.
  - change (join (str ":") (seg <$> (kv :: kv' :: kvs)))
      with (seg kv ++ ":"%char :: join (str ":") (seg <$> (kv' :: kvs))).
    cbn [parse_tags]. rewrite find_if_stop by (done || by apply seg_no_colon).
    rewrite take_app_length. unfold seg at 1. rewrite parse_tag_seg by done.
    rewrite drop_app_ge by lia. replace (length (seg kv) + 1 - length (seg kv))%nat with 1%nat by lia.
    rewrite skipn_cons, drop_0. simpl length in Hf. rewrite IH by (done || simpl; lia). done.
Qed.

(** The segments [toString] writes. *)
Definition segments (i : ids) : list (ascii * Z) :=
  filter (λ kv, kv.2 ≠ -1)
    [("C"%char, i_cid i); ("S"%char, i_sid i); ("P"%char, i_pid i); ("T"%char, i_gid i)].

Lemma toString_segments i :
  i ≠ wildcards → toString_ids i = SELECTOR_PREFIX ++ join (str ":") (seg <$> segments i) ∧ segments i ≠ [].
Proof.
  intros Hi. unfold toString_ids, segments, isWildcard. destruct i as [c s p g]. cbn [i_cid i_sid i_pid i_gid].
  destruct (Z.eqb_spec c (-1)) as [Hc|Hc], (Z.eqb_spec s (-1)) as [Hs|Hs],
    (Z.eqb_spec p (-1)) as [Hp|Hp], (Z.eqb_spec g (-1)) as [Hg|Hg]; subst; [done|..];
    rewrite !filter_cons; cbn [snd];
    repeat (rewrite (decide_True _ _ Hc) || rewrite (decide_True _ _ Hs) || rewrite (decide_True _ _ Hp)
            || rewrite (decide_True _ _ Hg) || rewrite decide_False by (intros H; by apply H));
    by split.
Qed.

Lemma assign_segments i : fold_left (λ i kv, assign kv.1 kv.2 i) (segments i) wildcards = i.
Proof.
  unfold segments. destruct i as [c s p g]. rewrite !filter_cons. cbn [snd i_cid i_sid i_pid i_gid].
  destruct (decide (c ≠ -1)) as [?|?%dec_stable], (decide (s ≠ -1)) as [?|?%dec_stable],
    (decide (p ≠ -1)) as [?|?%dec_stable], (decide (g ≠ -1)) as [?|?%dec_stable]; subst; done.
Qed.

Lemma seg_upper kv : is_key kv.1 = true → toUpper (seg kv) = seg kv.
Proof.
  intros Hk. unfold toUpper, seg. simpl. f_equal.
  - by destruct (is_key_cases _ Hk) as [->|[->|[->| ->]]].
  - f_equal. induction (to_dec_chars kv.2) as [|c s Hc _ IH]; simpl; [done|]. f_equal; [|done].
    assert (H : ∀ c, negb (is_dec_char c) || eqc (to_upper c) c = true) by (intros d; by_all_chars d).
    specialize (H c). rewrite Hc in H. by apply eqc_true.
Qed.

Lemma join_upper kvs :
  Forall (λ kv, is_key kv.1 = true) kvs →
  toUpper (join (str ":") (seg <$> kvs)) = join (str ":") (seg <$> kvs).
Proof.
  induction 1 as [|kv kvs Hk H IH]; [done|]. destruct kvs as [|kv' kvs]; [by apply seg_upper|].
  change (join (str ":") (seg <$> (kv :: kv' :: kvs)))
    with (seg kv ++ ":"%char :: join (str ":") (seg <$> (kv' :: kvs))).
  unfold toUpper in *. rewrite fmap_app, fmap_cons, IH.
  pose proof (seg_upper kv Hk) as E. unfold toUpper in E. by rewrite E.
Qed.

Lemma segments_ok i :
  in_s 32 (i_cid i) → in_s 32 (i_sid i) → in_s 32 (i_pid i) → in_s 32 (i_gid i) →
  Forall (λ kv, is_key kv.1 = true ∧ in_s 32 kv.2) (segments i).
Proof.
  intros. rewrite Forall_forall. intros kv [_ Hin]%list_elem_of_filter.
  rewrite !elem_of_cons, elem_of_nil in Hin. by destruct Hin as [->|[->|[->|[->|[]]]]].
Qed.

Lemma length_join_segs kvs : (length kvs ≤ length (join (str ":") (seg <$> kvs)))%nat.
Proof.
  induction kvs as [|kv kvs IH]; [done|]. destruct kvs as [|kv' kvs]; [simpl; lia|].
  change (join (str ":") (seg <$> (kv :: kv' :: kvs)))
    with (seg kv ++ ":"%char :: join (str ":") (seg <$> (kv' :: kvs))).
  rewrite length_app. cbn [length] in *. lia.
Qed.

Lemma toString_upper i :
  Forall (λ kv, is_key kv.1 = true ∧ in_s 32 kv.2) (segments i) →
  toUpper (toString_ids i) = toString_ids i.
Proof.
  intros Hok. destruct (decide (i = wildcards)) as [->|Hi]; [done|].
  destruct (toString_segments i Hi) as [-> _]. unfold toUpper. rewrite fmap_app. f_equal.
  apply join_upper. eapply Forall_impl; [exact Hok|]. by intros ? [].
Qed.

(** Parsing what [toString] wrote, with any identifiers in place before. *)
Lemma parse_toString i h j ts :
  Forall (λ kv, is_key kv.1 = true ∧ in_s 32 kv.2) (segments i) →
  h ≠ const_hash (toString_ids i) →
  ∃ h', parse (mk h (i_cid j) (i_sid j) (i_pid j) (i_gid j) (toString_ids i) ts)
        = (Ok (), mk h' (i_cid i) (i_sid i) (i_pid i) (i_gid i) (toString_ids i) ts).
Proof.
  intros Hok Hh. pose proof (toString_upper i Hok) as Hup. unfold parse. cbn [_hash selector].
  destruct (Z.eqb_spec h (const_hash (toString_ids i))); [done|]. rewrite Hup.
  destruct (decide (i = wildcards)) as [->|Hi]; [by eexists|].
  destruct (toString_segments i Hi) as [E Hne]. rewrite E, starts_with_app, drop_app_length.
  destruct (segments i) as [|kv kvs] eqn:Hseg; [done|].
  rewrite bool_decide_false by done. rewrite bool_decide_false by done. cbn [orb negb].
  rewrite bool_decide_false.
  - rewrite parse_tags_segs; [|done|done|].
    + rewrite <- Hseg, assign_segments. by eexists.
    + pose proof (length_join_segs (kv :: kvs)). lia.
  - by destruct kvs.
Qed.

(** A context made of any four 32-bit identifiers keeps them: the
    constructor writes the selector and parses it without an exception, and a
    context made of that text has the same identifiers again (unless the text
    has the hash of the default selector, by which [parse] recognises what it
    need not read). *)
Theorem from_ids_roundtrip i ts :
  in_s 32 (i_cid i) → in_s 32 (i_sid i) → in_s 32 (i_pid i) → in_s 32 (i_gid i) →
  ∃ c, from_ids i ts = Ok c ∧ ids_of c = i ∧ selector c = toString_ids i ∧ bpcts c = ts
       ∧ (const_hash (selector c) ≠ EMPTY_HASH →
          ∃ c', from_selector (selector c) ts = Ok c' ∧ ids_of c' = i).
Proof.
  intros Hc Hs Hp Hg. pose proof (segments_ok i Hc Hs Hp Hg) as Hok.
  unfold from_ids, from_selector. destruct i as [c s p g]. cbn [i_cid i_sid i_pid i_gid].
  destruct (decide (EMPTY_HASH = const_hash (toString_ids (mkids c s p g)))) as [Heq|Hne].
  - eexists. split; [unfold parse at 1; cbn [_hash selector]; by rewrite (proj2 (Z.eqb_eq _ _) Heq)|].
    repeat split. cbn [selector]. intros H. by symmetry in Heq.
  - destruct (parse_toString (mkids c s p g) EMPTY_HASH (mkids c s p g) ts Hok Hne) as [h' Hpar].
    cbn [i_cid i_sid i_pid i_gid] in Hpar. rewrite Hpar. clear Hpar.
    eexists. split; [done|]. repeat split. cbn [selector]. intros _.
    rewrite toString_upper by done.
    destruct (parse_toString (mkids c s p g) EMPTY_HASH wildcards ts Hok Hne) as [h'' Hpar].
    cbn [i_cid i_sid i_pid i_gid wildcards] in Hpar. rewrite Hpar. by eexists.
Qed.

Lemma from_ids_roundtrip_witness :
  let i := mkids 1 (-2) (-1) 2147483647 in
  toString_ids i = str "FAIR.SELECTOR.C=1:S=-2:T=2147483647"
  ∧ ∃ c, from_ids i 7 = Ok c ∧ ids_of c = i ∧ selector c = toString_ids i ∧ bpcts c = 7
         ∧ (const_hash (selector c) ≠ EMPTY_HASH →
            ∃ c', from_selector (selector c) 7 = Ok c' ∧ ids_of c' = i).
Proof.
  intros i. split; [reflexivity|]. apply (from_ids_roundtrip i 7); vm_compute; split; congruence.
Defined.

Lemma matches_ids_trans i j k :
  matches_ids i j = true → matches_ids j k = true → matches_ids i k = true.
Proof.
  destruct i as [c1 s1 p1 g1], j as [c2 s2 p2 g2], k as [c3 s3 p3 g3].
  unfold matches_ids, wildcardMatch, isWildcard. cbn [i_cid i_sid i_pid i_gid].
  rewrite !andb_true_iff, !orb_true_iff, !Z.eqb_eq. intuition lia.
Qed.

(** Matching is a preorder of identifiers whose top is the context of
    all wildcards; two contexts match both ways only if they are equal. *)
Theorem matches_preorder i j k :
  matches_ids i i = true ∧ matches_ids i wildcards = true
  ∧ (matches_ids i j = true → matches_ids j k = true → matches_ids i k = true)
  ∧ (matches_ids i j = true → matches_ids j i = true → i = j).
Proof.
  split_and!; [| |apply matches_ids_trans|]; destruct i as [c1 s1 p1 g1], j as [c2 s2 p2 g2];
    unfold matches_ids, wildcardMatch, isWildcard; cbn [i_cid i_sid i_pid i_gid wildcards];
    rewrite !andb_true_iff, !orb_true_iff, !Z.eqb_eq; [tauto..|].
  intros H1 H2. f_equal; intuition lia.
Qed.

(** [parse] is too lenient: text after the digits of a value is ignored,
    a value out of the range of [int32_t] is taken for 0, and a selector
    without the prefix is refused only once, the next use of the same object
    taking it for the wildcard context. *)
Theorem parse_lenient :
  (∃ c, from_selector (str "FAIR.SELECTOR.C=1XYZ") 0 = Ok c ∧ cid c = Ok 1)
  ∧ (∃ c, from_selector (str "FAIR.SELECTOR.C=4294967297") 0 = Ok c ∧ cid c = Ok 0)
  ∧ (let c := mk EMPTY_HASH (-1) (-1) (-1) (-1) (str "WRONG.C=1") 0 in
     (parse c).1 = Throw InvalidArgument ∧ (parse (parse c).2).1 = Ok ()
     ∧ ids_of (parse (parse c).2).2 = wildcards).
Proof.
  split; [eexists; split; [vm_compute; reflexivity|reflexivity]|].
  split; [eexists; split; [vm_compute; reflexivity|reflexivity]|].
  repeat split.
Qed.
