(* ===== verification/Settings.v ===== *)
(** * Settings: [disruptor/Transactions.hpp]

    Transactional settings with a bounded history on a ring buffer, run by one
    thread (file Locks has the locks).  [now] is the caller's time stamp and
    [clock] what [system_clock::now()] reads during the call. *)

From S2P Require Import Prelude Sequence Claim Producers RingBuffer TimingCtx.
Local Open Scope Z_scope.

Record node (U : Type) : Type := mknode { value : U; validSince : Z; lastAccess : Z }.
Arguments mknode {U}. Arguments value {U}. Arguments validSince {U}. Arguments lastAccess {U}.

Definition touch {U} (clock : Z) (n : node U) : node U := mknode (value n) (validSince n) clock.

Definition BUFFER_MARGIN : Z := 8.

Section setting.
(** [SettingBase<T, U, TransactionToken, N_HISTORY, TimeDiff, timeOut,
    timeOutTransactions>]; the empty token is [NullToken]. *)
Context {T U : Type} (k : Z) (timeOut timeOutTransactions : Z) (onCommit : U → T → result U).
Abbreviation N_HISTORY := (2 ^ k).
#[local] Instance strat : ClaimStrategy Multi.t := Multi.strategy (2 ^ k).

Record setting : Type := mks {
  ringBuffer : RingBuffer.t Multi.t (node U);
  sequenceHead : Z;
  sequenceTail : Z;
  transactionList : list (bytes * node T)
}.

Definition entry (s : setting) (i : Z) : node U := at_ N_HISTORY (ringBuffer s) i.

Definition set_entry (i : Z) (n : node U) (s : setting) : setting :=
  mks (RingBuffer.mk (claimStrategy (ringBuffer s))
         (<[entry_index N_HISTORY i := n]> (entries (ringBuffer s))))
      (sequenceHead s) (sequenceTail s) (transactionList s).

(** The constructor: the default value is published, and both sequences are
    set to the cursor by [addGatingSequences]. *)
Definition init (u0 : U) (clock : Z) (entries0 : Z → node U) : setting :=
  let '(_, rb) := tryPublishEvent N_HISTORY
                    (λ e _, (mknode u0 (validSince e) (lastAccess e), Ok tt)) []
                    (RingBuffer.mk Multi.init entries0) in
  mks rb (cursor rb) (cursor rb) [].

Definition nHistory (s : setting) : Z := sequenceHead s - sequenceTail s + 1.

Definition get (idx clock : Z) (s : setting) : result (node U) * setting :=
  if 0 <? idx then (Throw OutOfRange, s)
  else
    let readIdx := sequenceHead s + idx in
    if readIdx <? sequenceTail s then (Throw OutOfRange, s)
    else let n := touch clock (entry s readIdx) in (Ok n, set_entry readIdx n s).

(** The walk back from the head; at most [nHistory] turns. *)
Fixpoint get_walk (fuel : nat) (timeStamp lHead : Z) (s : setting) : Z :=
  match fuel with
  | O => lHead
  | S fuel' =>
      if (timeStamp <? validSince (entry s lHead)) && negb (lHead =? sequenceTail s)
      then get_walk fuel' timeStamp (lHead - 1) s else lHead
  end.

Definition get_at (timeStamp clock : Z) (s : setting) : result (node U) * setting :=
  let lHead := get_walk (Z.to_nat (nHistory s)) timeStamp (sequenceHead s) s in
  if timeStamp <? validSince (entry s lHead) then (Throw OutOfRange, s)
  else let n := touch clock (entry s lHead) in (Ok n, set_entry lHead n s).

(** [while (tail != head && head - tail > N_HISTORY - BUFFER_MARGIN) tail++]. *)
Fixpoint expire_count (fuel : nat) (head tail : Z) : Z :=
  match fuel with
  | O => tail
  | S fuel' =>
      if negb (tail =? head) && (N_HISTORY - BUFFER_MARGIN <? head - tail)
      then expire_count fuel' head (tail + 1) else tail
  end.

(** The loop over the entries by age; [None] when the fuel runs out. *)
Fixpoint expire_time (fuel : nat) (now : Z) (s : setting) (tail tailPosition : Z) : option Z :=
  match fuel with
  | O => None
  | S fuel' =>
      if tailPosition =? sequenceHead s then Some tail
      else if lastAccess (entry s tailPosition) - now + timeOut <? 0
      then expire_time fuel' now s (tail + 1) (tail + 1)
      else expire_time fuel' now s tail (tailPosition + 1)
  end.

Definition expire_fuel (s : setting) (tail : Z) : nat :=
  let d := Z.to_nat (sequenceHead s - tail) in ((d + 1) * (d + 1) + 1)%nat.

Definition retireExpired (now : Z) (s : setting) : setting :=
  let list :=
    if 0 <? timeOutTransactions
    then filter (λ p, ¬ (lastAccess p.2 - now + timeOutTransactions < 0)) (transactionList s)
    else transactionList s in
  let tail := expire_count (Z.to_nat (nHistory s)) (sequenceHead s) (sequenceTail s) in
  let s' := mks (ringBuffer s) (sequenceHead s) tail list in
  if 0 <? timeOut
  then match expire_time (expire_fuel s tail) now s' tail tail with
       | Some tail' => mks (ringBuffer s) (sequenceHead s) tail' list
       | None => s'
       end
  else s'.

(** [tryPublishEvent] with the translators of [stage] and [modifySetting]:
    the old value is read (and touched) by [get()], the new node is stored
    and the head is moved; an exception of the update skips the last two,
    and the sequence is published all the same. *)
Definition publish_update (update : U → result U) (now clock : Z) (s : setting) : bool * setting :=
  let gating := [sequenceHead s; sequenceTail s] in
  match Multi.tryNext N_HISTORY (claimStrategy (ringBuffer s)) gating 1 with
  | (Throw _, st') =>
      (false, mks (RingBuffer.mk st' (entries (ringBuffer s)))
                  (sequenceHead s) (sequenceTail s) (transactionList s))
  | (Ok sequence, st') =>
      let s1 := mks (RingBuffer.mk st' (entries (ringBuffer s)))
                    (sequenceHead s) (sequenceTail s) (transactionList s) in
      let s3 := match get 0 clock s1 with
                | (Throw _, s2) => s2
                | (Ok old, s2) =>
                    match update (value old) with
                    | Throw _ => s2
                    | Ok v =>
                        let s3 := set_entry sequence (mknode v now now) s2 in
                        mks (ringBuffer s3) sequence (sequenceTail s3) (transactionList s3)
                    end
                end in
      (true, mks (RingBuffer.publish sequence (ringBuffer s3)) (sequenceHead s3)
                 (sequenceTail s3) (transactionList s3))
  end.

Definition modifySetting (f : U → result U) (now clock : Z) (s : setting) : bool * setting :=
  let (r, s') := publish_update f now clock s in (r, retireExpired clock s').

Fixpoint upsert (tok : bytes) (n : node T) (l : list (bytes * node T)) : list (bytes * node T) :=
  match l with
  | [] => [(tok, n)]
  | (tok', n') :: l' => if decide (tok' = tok) then (tok', n) :: l' else (tok', n') :: upsert tok n l'
  end.

(** [stage]: with the empty token the value is committed at once. *)
Definition stage (t : T) (transactionToken : bytes) (now clock : Z) (s : setting) : bool * setting :=
  match transactionToken with
  | [] => let (isCommitted, s') := publish_update (λ u, onCommit u t) now clock s in
          (isCommitted, retireExpired clock s')
  | _ => let s' := mks (ringBuffer s) (sequenceHead s) (sequenceTail s)
                       (upsert transactionToken (mknode t clock clock) (transactionList s)) in
         (false, retireExpired clock s')
  end.

Definition commit_value (t : T) (now clock : Z) (s : setting) : bool * setting := stage t [] now clock s.

Definition token_matches (transactionToken tok : bytes) : bool :=
  bool_decide (transactionToken = []) || bool_decide (tok = transactionToken).

(** [commit(transactionToken)]: [remove_if] commits the matching values in
    order; with [timeOutTransactions > 0] the nested call would change the
    list it walks over, which the model excludes by taking the list apart
    first. *)
Definition commit (transactionToken : bytes) (now clock : Z) (s : setting) : bool * setting :=
  let chosen := filter (λ p, token_matches transactionToken p.1 = true) (transactionList s) in
  let kept := filter (λ p, token_matches transactionToken p.1 = false) (transactionList s) in
  let s' := fold_left (λ s p, (commit_value (value p.2) now clock s).2) chosen s in
  (negb (bool_decide (chosen = [])),
   mks (ringBuffer s') (sequenceHead s') (sequenceTail s') kept).

Definition getPendingTransactions (s : setting) : list bytes := fst <$> transactionList s.

Definition retireStaged (transactionToken : bytes) (s : setting) : bool * setting :=
  let chosen := filter (λ p, token_matches transactionToken p.1 = true) (transactionList s) in
  (negb (bool_decide (chosen = [])),
   mks (ringBuffer s) (sequenceHead s) (sequenceTail s)
       (filter (λ p, token_matches transactionToken p.1 = false) (transactionList s))).

(** ** The history as a list, newest first *)

Context (Hk : 4 ≤ k ≤ 31).

Lemma history_size : 16 ≤ 2 ^ k.
Proof using Hk. change 16 with (2 ^ 4). apply Z.pow_le_mono_r; lia. Qed.

Record refines (hist : list (U * Z)) (s : setting) : Prop := {
  r_cursor : Multi.cursor (claimStrategy (ringBuffer s)) = sequenceHead s;
  r_len : Z.of_nat (length hist) = nHistory s;
  r_nonempty : sequenceTail s ≤ sequenceHead s;
  r_bounded : nHistory s ≤ 2 ^ k - BUFFER_MARGIN + 1;
  r_entries i : sequenceTail s ≤ i ≤ sequenceHead s →
    hist !! Z.to_nat (sequenceHead s - i) = Some (value (entry s i), validSince (entry s i))
}.

Lemma entry_set_entry s i n : entry (set_entry i n s) i = n.
Proof using. unfold entry, at_. simpl. by rewrite fn_lookup_insert. Qed.

Lemma entry_set_entry_ne s i j n :
  i ≠ j → Z.abs (i - j) < 2 ^ k → entry (set_entry j n s) i = entry s i.
Proof using Hk.
  intros Hne Hd. unfold entry, at_. simpl. rewrite fn_lookup_insert_ne; [done|].
  apply (entry_index_ne k ltac:(lia) (Z.max i j)); lia.
Qed.

Lemma refines_touch hist s i clock :
  refines hist s → sequenceTail s ≤ i ≤ sequenceHead s →
  refines hist (set_entry i (touch clock (entry s i)) s).
Proof using Hk.
  intros [H1 H2 H3 H4 H5] Hi. constructor; [exact H1|exact H2|exact H3|exact H4|].
  intros j Hj. change (sequenceHead (set_entry _ _ s)) with (sequenceHead s) in *.
  change (sequenceTail (set_entry _ _ s)) with (sequenceTail s) in *. rewrite (H5 j Hj). unfold nHistory, BUFFER_MARGIN in H4.
  destruct (decide (j = i)) as [->|Hne]; [by rewrite entry_set_entry|].
  rewrite entry_set_entry_ne; [done|done|lia].
Qed.

Lemma expire_count_spec fuel head tail :
  tail ≤ head → head - tail ≤ Z.of_nat fuel →
  expire_count fuel head tail = Z.max tail (head - (2 ^ k - BUFFER_MARGIN)).
Proof using Hk.
  pose proof history_size. unfold BUFFER_MARGIN.
  revert tail. induction fuel as [|fuel IH]; intros tail Ht Hf; simpl; [lia|].
  destruct (Z.eqb_spec tail head); simpl; [lia|]. unfold BUFFER_MARGIN.
  destruct (Z.ltb_spec (2 ^ k - 8) (head - tail)); simpl; [|lia]. rewrite IH; lia.
Qed.

(** With the expiry by age switched off, cleaning up drops what is beyond
    the length of the history. *)
Lemma retireExpired_refines hist s now :
  timeOut ≤ 0 →
  Multi.cursor (claimStrategy (ringBuffer s)) = sequenceHead s →
  Z.of_nat (length hist) = nHistory s → sequenceTail s ≤ sequenceHead s →
  (∀ i, sequenceTail s ≤ i ≤ sequenceHead s →
    hist !! Z.to_nat (sequenceHead s - i) = Some (value (entry s i), validSince (entry s i))) →
  refines (take (Z.to_nat (2 ^ k - BUFFER_MARGIN + 1)) hist) (retireExpired now s).
Proof using Hk.
  pose proof history_size. unfold BUFFER_MARGIN, nHistory.
  intros Hto Hc Hl Ht He. unfold retireExpired.
  destruct (Z.ltb_spec 0 timeOut); [lia|].
  rewrite expire_count_spec by (unfold nHistory; lia). unfold BUFFER_MARGIN.
  constructor; unfold nHistory, BUFFER_MARGIN; simpl; [done| |lia|lia|].
  - rewrite length_take. lia.
  - intros i Hi. rewrite lookup_take_lt by lia. apply He. lia.
Qed.

Lemma publish_update_refines u t0 hist s update v now clock :
  refines ((u, t0) :: hist) s → update u = Ok v →
  ∃ s', publish_update update now clock s = (true, s')
    ∧ sequenceHead s' = sequenceHead s + 1 ∧ sequenceTail s' = sequenceTail s
    ∧ Multi.cursor (claimStrategy (ringBuffer s')) = sequenceHead s'
    ∧ (∀ i, sequenceTail s' ≤ i ≤ sequenceHead s' →
        ((v, now) :: (u, t0) :: hist) !! Z.to_nat (sequenceHead s' - i)
        = Some (value (entry s' i), validSince (entry s' i))).
Proof using Hk.
  intros [H1 H2 H3 H4 H5] Hv. pose proof history_size.
  unfold nHistory, BUFFER_MARGIN in *. unfold publish_update.
  assert (Htry : ∃ st', Multi.tryNext (2 ^ k) (claimStrategy (ringBuffer s))
            [sequenceHead s; sequenceTail s] 1 = (Ok (sequenceHead s + 1), st')
            ∧ Multi.cursor st' = sequenceHead s + 1).
  { unfold Multi.tryNext, Multi.hasAvailableCapacity. rewrite H1.
    destruct (_ || _); [|by eexists]. simpl.
    destruct (Z.ltb_spec (sequenceHead s `min` (sequenceHead s `min` sequenceTail s))
                (sequenceHead s + 1 - 2 ^ k)); [lia|by eexists]. }
  destruct Htry as (st' & -> & Hcur). unfold get. cbn [sequenceHead sequenceTail Z.ltb Z.compare].
  rewrite Z.add_0_r. destruct (Z.ltb_spec (sequenceHead s) (sequenceTail s)); [lia|].
  set (s1 := mks (RingBuffer.mk st' (entries (ringBuffer s))) (sequenceHead s)
                 (sequenceTail s) (transactionList s)).
  assert (Hold : value (entry s (sequenceHead s)) = u).
  { specialize (H5 (sequenceHead s) ltac:(lia)). rewrite Z.sub_diag in H5. simpl in H5. congruence. }
  assert (He1 : ∀ i, entry s1 i = entry s i) by done.
  rewrite He1. simpl value. rewrite Hold, Hv. eexists. split; [done|]. simpl.
  split; [done|]. split; [done|]. split; [done|]. intros i Hi.
  set (s2 := set_entry (sequenceHead s) (touch clock (entry s (sequenceHead s))) s1).
  set (s3 := set_entry (sequenceHead s + 1) (mknode v now now) s2).
  change (entry _ i) with (entry s3 i). unfold s3.
  destruct (decide (i = sequenceHead s + 1)) as [->|Hne].
  - rewrite entry_set_entry. by rewrite Z.sub_diag.
  - rewrite entry_set_entry_ne by lia. unfold s2.
    replace (Z.to_nat (sequenceHead s + 1 - i)) with (S (Z.to_nat (sequenceHead s - i))) by lia.
    simpl. rewrite (H5 i) by lia.
    destruct (decide (i = sequenceHead s)) as [->|Hne']; [by rewrite entry_set_entry|].
    rewrite entry_set_entry_ne; [done|done|lia].
Qed.

(** C38: Where values do not expire by their age ([timeOut <= 0]) and the callback
    accepts the new value, a commit succeeds and puts the value, which the callback
    computes from the latest one, in front of the history, which keeps the last
    [N_HISTORY - 7] values. *)
Theorem commit_refines u t0 hist s t v now clock :
  timeOut ≤ 0 → refines ((u, t0) :: hist) s → onCommit u t = Ok v →
  (commit_value t now clock s).1 = true
  ∧ refines (take (Z.to_nat (2 ^ k - BUFFER_MARGIN + 1)) ((v, now) :: (u, t0) :: hist))
            (commit_value t now clock s).2.
Proof using Hk.
  intros Hto Hr Hv. unfold commit_value, stage.
  destruct (publish_update_refines u t0 hist s (λ u, onCommit u t) v now clock Hr Hv)
    as (s' & -> & Hh & Ht & Hc & He). split; [done|]. cbn [snd].
  destruct Hr as [_ Hl Hne _ _]. unfold nHistory in Hl.
  apply retireExpired_refines; [done|done| |lia|done].
  unfold nHistory. rewrite Hh, Ht. simpl in *. lia.
Qed.

(** [get(idx)] is the element [-idx] of the history and throws
    [std::out_of_range] for a positive index and beyond the history. *)
Theorem get_refines hist s idx clock :
  refines hist s →
  match hist !! Z.to_nat (- idx) with
  | Some (v, t0) =>
      idx ≤ 0 → ∃ n s', get idx clock s = (Ok n, s') ∧ value n = v ∧ validSince n = t0
                        ∧ refines hist s'
  | None => get idx clock s = (Throw OutOfRange, s)
  end ∧ (0 < idx → get idx clock s = (Throw OutOfRange, s)).
Proof using Hk.
  intros Hr. pose proof Hr as [H1 H2 H3 H4 H5]. unfold nHistory in H2. split.
  - destruct (hist !! Z.to_nat (- idx)) as [[v t0]|] eqn:E.
    + intros Hi. apply lookup_lt_Some in E as Hlt. unfold get.
      destruct (Z.ltb_spec 0 idx); [lia|].
      destruct (Z.ltb_spec (sequenceHead s + idx) (sequenceTail s)); [lia|].
      specialize (H5 (sequenceHead s + idx) ltac:(lia)).
      replace (sequenceHead s - (sequenceHead s + idx)) with (- idx) in H5 by lia.
      rewrite E in H5. simplify_eq. eexists _, _. split; [done|]. split; [done|]. split; [done|].
      apply refines_touch; [done|lia].
    + apply lookup_ge_None in E. unfold get. destruct (Z.ltb_spec 0 idx); [done|].
      destruct (Z.ltb_spec (sequenceHead s + idx) (sequenceTail s)); [done|lia].
  - intros Hi. unfold get. by destruct (Z.ltb_spec 0 idx); [|lia].
Qed.

Lemma get_walk_spec hist s fuel timeStamp i :
  refines hist s → sequenceTail s ≤ i ≤ sequenceHead s → i - sequenceTail s ≤ Z.of_nat fuel →
  let j := get_walk fuel timeStamp i s in
  sequenceTail s ≤ j ≤ i ∧ (∀ x, j < x ≤ i → timeStamp < validSince (entry s x))
  ∧ (validSince (entry s j) ≤ timeStamp ∨ j = sequenceTail s).
Proof using.
  intros Hr. revert i. induction fuel as [|fuel IH]; intros i Hi Hf; simpl.
  - split; [lia|]. split; [lia|]. right. lia.
  - destruct (Z.ltb_spec timeStamp (validSince (entry s i))) as [Hlt|Hge];
      [|simpl; split; [lia|]; split; [lia|]; by left].
    destruct (Z.eqb_spec i (sequenceTail s)) as [->|Hne]; simpl; [split; [lia|]; split; [lia|]; by right|].
    destruct (IH (i - 1)) as (H1 & H2 & H3); [lia|lia|]. split; [lia|]. split; [|done].
    intros x Hx. destruct (decide (x = i)) as [->|]; [done|]. apply H2. lia.
Qed.

(** [get(timeStamp)] is the newest value of the history that is not
    younger than the time stamp, and throws [std::out_of_range] exactly if
    there is none. *)
Theorem get_at_refines hist s timeStamp clock :
  refines hist s →
  match list_find (λ p, p.2 ≤ timeStamp) hist with
  | Some (_, (v, t0)) => ∃ n s', get_at timeStamp clock s = (Ok n, s') ∧ value n = v
                                  ∧ validSince n = t0 ∧ refines hist s'
  | None => get_at timeStamp clock s = (Throw OutOfRange, s)
  end.
Proof using Hk.
  intros Hr. pose proof Hr as [H1 H2 H3 H4 H5]. unfold nHistory in H2.
  destruct (get_walk_spec hist s (Z.to_nat (nHistory s)) timeStamp (sequenceHead s) Hr)
    as (Hj & Hbefore & Hend); [lia|unfold nHistory; lia|].
  unfold get_at. set (j := get_walk _ _ _ _) in *.
  assert (Hlook : ∀ x, sequenceTail s ≤ x ≤ sequenceHead s →
    hist !! Z.to_nat (sequenceHead s - x) = Some (value (entry s x), validSince (entry s x)))
    by done.
  destruct (Z.ltb_spec timeStamp (validSince (entry s j))) as [Hlt|Hge].
  - assert (list_find (λ p, p.2 ≤ timeStamp) hist = None) as ->; [|done].
    apply list_find_None, Forall_lookup. intros i p Hp.
    apply lookup_lt_Some in Hp as Hi.
    specialize (Hlook (sequenceHead s - Z.of_nat i) ltac:(lia)).
    replace (Z.to_nat (sequenceHead s - (sequenceHead s - Z.of_nat i))) with i in Hlook by lia.
    rewrite Hp in Hlook. simplify_eq. simpl.
    destruct (decide (sequenceHead s - Z.of_nat i = j)) as [->|]; [lia|].
    assert (timeStamp < validSince (entry s (sequenceHead s - Z.of_nat i))); [|lia].
    apply Hbefore. lia.
  - assert (list_find (λ p, p.2 ≤ timeStamp) hist
            = Some (Z.to_nat (sequenceHead s - j), (value (entry s j), validSince (entry s j)))) as ->.
    { apply list_find_Some. split; [apply Hlook; lia|]. split; [done|].
      intros i p Hp Hi. specialize (Hlook (sequenceHead s - Z.of_nat i) ltac:(lia)).
      replace (Z.to_nat (sequenceHead s - (sequenceHead s - Z.of_nat i))) with i in Hlook by lia.
      rewrite Hp in Hlook. simplify_eq. simpl.
      assert (timeStamp < validSince (entry s (sequenceHead s - Z.of_nat i))); [|lia].
      apply Hbefore. lia. }
    eexists _, _. split; [done|]. split; [done|]. split; [done|]. apply refines_touch; [done|lia].
Qed.
End setting.

(** ** Concrete runs *)

(** Integers that replace each other; 0 makes the update throw. *)
Definition replace_int (old new : Z) : result Z := if new =? 0 then Throw UserException else Ok new.

Definition blank (i : Z) : node Z := mknode (- i) 0 0.

Definition fresh : @setting Z Z := init 4 7 0 blank.

Lemma fresh_refines : refines 4 [(7, 0)] fresh.
Proof.
  constructor; [reflexivity|reflexivity|vm_compute; discriminate|vm_compute; discriminate|].
  intros i Hi. change (0 ≤ i ≤ 0) in Hi. by replace i with 0 by lia.
Qed.

Lemma commit_refines_witness :
  refines 4 [(7, 0)] fresh ∧ (commit_value 4 (-1) (-1) replace_int 9 100 100 fresh).1 = true
  ∧ refines 4 (take (Z.to_nat (2 ^ 4 - BUFFER_MARGIN + 1)) [(9, 100); (7, 0)])
      (commit_value 4 (-1) (-1) replace_int 9 100 100 fresh).2.
Proof.
  split; [exact fresh_refines|].
  apply (commit_refines 4 (-1) (-1) replace_int ltac:(lia) 7 0 [] fresh 9 9 100 100).
  - discriminate.
  - exact fresh_refines.
  - reflexivity.
Defined.

Lemma get_refines_witness :
  get 4 (-1) 5 fresh = (Throw OutOfRange, fresh).
Proof. exact (proj1 (get_refines 4 ltac:(lia) [(7, 0)] fresh (-1) 5 fresh_refines)). Defined.

Lemma get_at_refines_witness :
  get_at 4 (-1) 5 fresh = (Throw OutOfRange, fresh).
Proof. exact (get_at_refines 4 ltac:(lia) [(7, 0)] fresh (-1) 5 fresh_refines). Defined.

(** When the update throws, the sequence is published with the slot left as
    it was and the caller is told that the value is committed; the next commit
    takes the slot into the history. *)
Lemma failed_commit_reported :
  let run := commit_value 4 (-1) (-1) replace_int in
  let s1 := run 0 100 100 fresh in
  let s2 := run 9 200 200 s1.2 in
  s1.1 = true ∧ value <$> [entry 4 s1.2 (sequenceHead s1.2)] = [7]
  ∧ rbind (get 4 (-1) 300 s2.2).1 (λ n, Ok (value n)) = Ok (-17).
Proof.
  intros run s1 s2. split; [vm_compute; reflexivity|]. split; vm_compute; reflexivity.
Qed.

(** The expiry by age walks from the tail to the head and, at an expired
    entry, drops the one at the tail, expired or not: a value that was read at
    time 1000 is dropped at time 1001 by a time-out of 10 because the one
    committed after it has expired. *)
Lemma expiry_drops_fresh :
  let s0 := (commit_value 4 10 (-1) replace_int 8 3 3 fresh).2 in      (* 7 at 0, 8 at 3 *)
  let s1 := (commit_value 4 10 (-1) replace_int 9 4 4 s0).2 in
  let s2 := (get 4 (-2) 1000 s1).2 in                                  (* 7 is read *)
  rbind (get 4 (-2) 1000 s1).1 (λ n, Ok (value n)) = Ok 7
  ∧ nHistory s2 = 3
  ∧ lastAccess (entry 4 s2 (sequenceTail s2)) = 1000
  ∧ nHistory (retireExpired 4 10 (-1) 1001 s2) = 1
  ∧ lastAccess (entry 4 s2 (sequenceTail (retireExpired 4 10 (-1) 1001 s2))) = 4.
Proof.
  intros s0 s1 s2. repeat (split; [vm_compute; reflexivity|]). vm_compute. reflexivity.
Qed.

(** ** [CtxSetting]: settings by timing context *)

Module Ctx.
Section ctx.
Context {T : Type} (default : T).

(** The [std::unordered_map] in its iteration order; keys have been parsed. *)
Definition map : Type := list ((TimingCtx.ids * Z) * node T).

Fixpoint assign (key : TimingCtx.ids * Z) (n : node T) (m : map) : map :=
  match m with
  | [] => [(key, n)]
  | (key', n') :: m' => if decide (key' = key) then (key', n) :: m' else (key', n') :: assign key n m'
  end.

(** [_onCommit]: copy the map and assign. *)
Definition onCommit (clock : Z) (oldMap : map) (newValue : (TimingCtx.ids * Z) * T) : result map :=
  Ok (assign newValue.1 (mknode newValue.2 clock clock) oldMap).

Definition no_gid (i : ids) : ids := mkids (i_cid i) (i_sid i) (i_pid i) (-1).
Definition no_pid (i : ids) : ids := mkids (i_cid i) (i_sid i) (-1) (-1).
Definition no_sid (i : ids) : ids := mkids (i_cid i) (-1) (-1) (-1).

(** The conditions of the five loops of [get]. *)
Definition is_exact (c : ids) (bpcts : Z) (key : ids) (ts : Z) : bool :=
  bool_decide (key = c) && (ts =? bpcts).
Definition is_no_gid (c key : ids) (_ : Z) : bool :=
  matches_ids key (no_gid c) && (i_gid key =? -1).
Definition is_no_pid (c key : ids) (_ : Z) : bool :=
  matches_ids key (no_pid c) && (i_gid key =? -1) && (i_pid key =? -1).
Definition is_no_sid (c key : ids) (_ : Z) : bool :=
  matches_ids key (no_sid c) && (i_gid key =? -1) && (i_pid key =? -1) && (i_sid key =? -1).

(** The element a [get] finds, with the context it reports: the exact
    context, then the ones without gid, pid and sid, then the global one. *)
Definition first (p : ids → Z → bool) (res : ids) (m : map) : option (ids * ((ids * Z) * node T)) :=
  Datatypes.pair res <$> (snd <$> list_find (λ e, p e.1.1 e.1.2 = true) m).

Definition lookup (timingCtx : ids) (bpcts : Z) (m : map) : option (ids * ((ids * Z) * node T)) :=
  match first (is_exact timingCtx bpcts) timingCtx m with
  | Some r => Some r
  | None =>
  match first (is_no_gid timingCtx) (no_gid timingCtx) m with
  | Some r => Some r
  | None =>
  match first (is_no_pid timingCtx) (no_pid timingCtx) m with
  | Some r => Some r
  | None =>
  match first (is_no_sid timingCtx) (no_sid timingCtx) m with
  | Some r => Some r
  | None => first (is_exact wildcards bpcts) wildcards m
  end end end end.

(** [get]: the context the value was found under, and the value (a default
    one when there is none). *)
Definition get (timingCtx : ids) (bpcts clock : Z) (m : map) : ids * T :=
  match lookup timingCtx bpcts m with
  | Some (res, (_, n)) => (res, value n)
  | None => (wildcards, default)
  end.

(** [retire<exactMatch>]. *)
Definition retire (exactMatch : bool) (ctx : ids) (bpcts : Z) (m : map) : bool * map :=
  let hit e := if exactMatch then bool_decide (e.1.1 = ctx) && (e.1.2 =? bpcts)
               else matches_ids e.1.1 ctx in
  (negb (bool_decide (filter (λ e, hit e = true) m = [])), filter (λ e, hit e = false) m).

(** [retireOldSettings]. *)
Definition retireOldSettings (timeOut now : Z) (m : map) : map :=
  filter (λ e, ¬ (lastAccess e.2 - now + timeOut < 0)) m.

Lemma find_first (p : (ids * Z) * node T → Prop) `{∀ e, Decision (p e)} m e :
  snd <$> list_find p m = Some e → e ∈ m ∧ p e.
Proof.
  destruct (list_find p m) as [[i e']|] eqn:E; simpl; [|done]. intros [= <-].
  apply list_find_Some in E as (Hl & Hp & _). split; [by eapply list_elem_of_lookup_2|done].
Qed.

Lemma first_spec (p : ids → Z → bool) (res r : ids) (m : map) key ts n :
  first p res m = Some (r, (key, ts, n)) →
  r = res ∧ (key, ts, n) ∈ m ∧ p key ts = true.
Proof.
  unfold first. destruct (snd <$> _) as [e|] eqn:E; [|done]. simpl. intros [= <- ->].
  by apply find_first in E as [? ?].
Qed.

Lemma first_miss (p : ids → Z → bool) (res : ids) (m : map) e :
  first p res m = None →
  e ∈ m → p e.1.1 e.1.2 = false.
Proof.
  unfold first. intros H He. destruct (list_find _ _) as [x|] eqn:E; [done|].
  apply list_find_None in E. rewrite Forall_forall in E. specialize (E e He).
  by apply not_true_is_false.
Qed.

(** What [get] returns was stored: the value's key is the context asked
    for with its own time stamp, or a context that matches the one reported,
    which is the one asked for without its gid, then pid, then sid, then
    cid; for a context without wildcards key and reported context agree, and
    a value stored for the exact context and time stamp is never passed
    over. *)
Theorem lookup_less_specific c ts m res key ts' n :
  lookup c ts m = Some (res, ((key, ts'), n)) →
  ((key, ts'), n) ∈ m ∧ matches_ids c res = true ∧ matches_ids key res = true
  ∧ (i_cid c ≠ -1 → i_sid c ≠ -1 → i_pid c ≠ -1 → key = res)
  ∧ (∀ n', ((c, ts), n') ∈ m → key = c ∧ ts' = ts).
Proof.
  intros Hl. unfold lookup in Hl.
  assert (Hcase : ∃ p, first p res m = Some (res, (key, ts', n)) ∧
    ((p = is_exact c ts ∧ res = c) ∨
     ((p = is_no_gid c ∧ res = no_gid c ∨ p = is_no_pid c ∧ res = no_pid c
       ∨ p = is_no_sid c ∧ res = no_sid c ∨ p = is_exact wildcards ts ∧ res = wildcards)
      ∧ first (is_exact c ts) c m = None))).
  { repeat case_match; simplify_eq;
      match goal with H : first ?p ?r m = Some _ |- _ =>
        pose proof (first_spec _ _ _ _ _ _ _ H) as (-> & _ & _); exists p; split; [done|]; tauto
      end. }
  destruct Hcase as (p & Hf & Hres). apply first_spec in Hf as (_ & Hin & Hp). split; [done|].
  assert (Hmiss : first (is_exact c ts) c m = None → ∀ n', ((c, ts), n') ∉ m).
  { intros Hn n' Hin'. apply (first_miss _ _ _ _ Hn) in Hin'. unfold is_exact in Hin'. simpl in Hin'.
    by rewrite bool_decide_true, Z.eqb_refl in Hin'. }
  destruct c as [c s pp g], key as [kc ks kp kg].
  destruct Hres as [[-> ->]|[Hres Hn]];
    [|specialize (Hmiss Hn); clear Hn; destruct Hres as [[-> ->]|[[-> ->]|[[-> ->]|[-> ->]]]]];
    unfold is_exact, is_no_gid, is_no_pid, is_no_sid, no_gid, no_pid, no_sid, matches_ids,
      wildcardMatch, isWildcard, wildcards in *;
    cbn [i_cid i_sid i_pid i_gid] in *;
    rewrite ?andb_true_iff, ?orb_true_iff, ?bool_decide_eq_true, ?Z.eqb_eq in *.
  all: split; [tauto|].
  1: destruct Hp as [[= -> -> -> ->] ->]; tauto.
  4: destruct Hp as [[= -> -> -> ->] ->].
  all: split; [tauto|]; split; [intros; f_equal; lia|]; intros n' Hn'; by apply Hmiss in Hn'.
Qed.

Definition example_map (v : T) : map :=
  [((mkids 1 1 (-1) (-1), 0), mknode v 0 0); ((mkids 1 1 1 (-1), 0), mknode v 0 0)].
End ctx.

(** The fall-back of the class documentation. *)
Lemma lookup_less_specific_witness :
  lookup (mkids 1 1 2 2) 0 (example_map 103) = Some (mkids 1 1 (-1) (-1), ((mkids 1 1 (-1) (-1), 0), mknode 103 0 0))
  ∧ matches_ids (mkids 1 1 2 2) (mkids 1 1 (-1) (-1)) = true.
Proof.
  split; [reflexivity|].
  apply (lookup_less_specific (mkids 1 1 2 2) 0 (example_map 103) _ (mkids 1 1 (-1) (-1)) 0 (mknode 103 0 0)).
  reflexivity.
Defined.
End Ctx.
