(* ===== verification/Topic.v ===== *)
(** * Topic: [core/include/Topic.hpp]

    A topic is a service name with query parameters; it is written as a ZeroMQ
    subscription topic (parameters in key order) and as an MDP reference. *)

From stdpp Require Import sorting.
From S2P Require Import Prelude Text Uri.
Local Open Scope char_scope.
Local Open Scope nat_scope.

Definition is_service_char (ch : ascii) : bool :=
  one_of (str "/._") ch || is_digit ch || is_lower ch || is_upper ch.

Definition isValidServiceName (s : bytes) : bool :=
  starts_with_char s "/" && (1 <? length s) && negb (ends_with s (str "/")) && forallb is_service_char s.

(** [std::map] with [std::string] keys: a finite map, iterated in the order of
    the bytes. *)
Fixpoint bytes_le (s t : bytes) : bool :=
  match s, t with
  | [], _ => true
  | _ :: _, [] => false
  | c :: s', d :: t' => (code c <? code d)%Z || ((code c =? code d)%Z && bytes_le s' t')
  end.

Definition key_le (x y : bytes * option bytes) : Prop := bytes_le x.1 y.1 = true.

#[export] Instance key_le_dec x y : Decision (key_le x y).
Proof. unfold key_le. apply _. Defined.

Definition in_order (m : params) : list (bytes * option bytes) := merge_sort key_le (map_to_list m).

Record t : Type := mk { _service : bytes; _params : params }.

#[export] Instance t_eq_dec : EqDecision t.
Proof. solve_decision. Defined.

(** [while (str.ends_with("/")) str.remove_suffix(1);], on the reversed text. *)
Definition strip_slashes (s : bytes) : bytes := reverse (drop_while (eqc "/") (reverse s)).

Definition parseService (s : bytes) : bytes :=
  let s1 := match find_if (eqc "?") s with Some queryPos => take queryPos s | None => s end in
  let r := strip_slashes s1 in
  if starts_with_char r "/" then r else "/" :: r.

Section topic.
(** What the decoder of the URI class may read: see [Uri.decode]. *)
Context (uninit : Z).

(** The constructor. *)
Definition make (serviceOrServiceAndQuery : bytes) (params0 : params) : result t :=
  let service := parseService serviceOrServiceAndQuery in
  rbind
    (if bool_decide (find_if (eqc "?") serviceOrServiceAndQuery = None) then Ok params0
     else if negb (bool_decide (params0 = ∅)) then Throw InvalidArgument
     else rbind (parseURI RELAXED serviceOrServiceAndQuery) (λ u,
            let after := match u_fragment u with [] => chr 0 | _ => "#" end in
            match queryParamMap RELAXED after uninit (u_query u) ∅ with
            | (Ok _, queryMap) => Ok (params0 ∪ queryMap)   (* insert keeps what is there *)
            | (Throw e, _) => Throw e
            end))
    (λ ps, if isValidServiceName service then Ok (mk service ps) else Throw InvalidArgument).

Definition fromString (s : bytes) (ps : params) : result t := make s ps.

(** From a parsed reference and its parameters. *)
Definition fromMdpTopic (check : uri_check) (u : uri) : result t :=
  let after := match u_fragment u with [] => chr 0 | _ => "#" end in
  match queryParamMap check after uninit (u_query u) ∅ with
  | (Ok _, queryMap) => make (default (str "/") (returnOpt (u_path u))) queryMap
  | (Throw e, _) => Throw e
  end.

Definition fromZmqTopic (topic : bytes) : result t :=
  fromString (if ends_with topic (str "#") then take (length topic - 1) topic else topic) ∅.

(** The parameters reach the factory as a hash map: in any order. *)
Definition toMdpTopic (order : list (bytes * option bytes)) (tp : t) : result uri :=
  build STRICT (mkfactory [] [] [] [] [] None (_service tp) [] [] order).

Definition zmq_item (kv : bytes * option bytes) : bytes :=
  kv.1 ++ match kv.2 with Some v => "=" :: encode v | None => [] end.

Definition toZmqTopic (delimitWithPound : bool) (tp : t) : bytes :=
  let pound := if delimitWithPound then str "#" else [] in
  if bool_decide (_params tp = ∅) then _service tp ++ pound
  else _service tp ++ "?" :: join (str "&") (zmq_item <$> in_order (_params tp)) ++ pound.

Definition addParam (key v : bytes) (tp : t) : t := mk (_service tp) (<[key := Some v]> (_params tp)).
End topic.

(** ** Round trips *)

Lemma in_order_perm m : in_order m ≡ₚ map_to_list m.
Proof. apply merge_sort_Permutation. Qed.

Lemma in_order_map m : list_to_map (in_order m) = m.
Proof.
  rewrite <- (list_to_map_to_list m) at 2. apply list_to_map_proper; [|apply in_order_perm].
  rewrite (in_order_perm m). apply NoDup_fst_map_to_list.
Qed.

Lemma in_order_NoDup m : NoDup (in_order m).*1.
Proof. rewrite (in_order_perm m). apply NoDup_fst_map_to_list. Qed.

Lemma ends_with_char s c : ends_with (s ++ [c]) [c] = true.
Proof. unfold ends_with. rewrite reverse_app. simpl. by rewrite eqc_refl. Qed.

Lemma ends_with_no_char s c : Forall (λ d, eqc c d = false) s → ends_with s [c] = false.
Proof.
  intros H. unfold ends_with. destruct s as [|x s _] using rev_ind; [done|].
  apply Forall_app in H as [_ H]. apply Forall_cons_iff in H as [H _].
  rewrite reverse_app. simpl. assert (eqc x c = false) as ->; [|done].
  apply eqc_false. intros ->. by rewrite eqc_refl in H.
Qed.

Section service.
Context (s : bytes) (Hv : isValidServiceName s = true).

Lemma service_chars : Forall (λ c, is_service_char c = true) s.
Proof using Hv. unfold isValidServiceName in Hv. apply Forall_forallb. by destruct (forallb _ s); [|rewrite andb_false_r in Hv]. Qed.

Lemma service_slash : starts_with_char s "/" = true.
Proof using Hv. unfold isValidServiceName in Hv. by destruct (starts_with_char s "/"). Qed.

Lemma service_nonempty : s ≠ [].
Proof using Hv. intros ->. done. Qed.

Lemma service_head : ∃ r, s = "/" :: r.
Proof using Hv.
  pose proof service_slash as H. destruct s as [|c r]; [done|]. apply bool_decide_eq_true in H.
  simplify_eq/=. by eexists.
Qed.

Lemma strip_service : strip_slashes s = s.
Proof using Hv.
  assert (He : ends_with s (str "/") = false).
  { unfold isValidServiceName in Hv. destruct (ends_with s (str "/")); [|done].
    by rewrite andb_false_r in Hv. }
  unfold strip_slashes, ends_with in *. destruct (reverse s) as [|c r] eqn:E.
  - apply (f_equal reverse) in E. by rewrite reverse_involutive in E.
  - simpl in He. rewrite andb_true_r in He. simpl.
    assert (eqc "/" c = false) as ->.
    { apply eqc_false. intros <-. by rewrite eqc_refl in He. }
    by rewrite <- E, reverse_involutive.
Qed.

Lemma parseService_query t :
  parseService (s ++ match t with [] => [] | _ => "?" :: t end) = s.
Proof using Hv.
  assert (Hq : Forall (λ c, eqc "?" c = false) s)
    by (eapply Forall_class_not; [|apply service_chars]; char_class).
  unfold parseService. destruct t as [|c t].
  - rewrite app_nil_r, find_if_none by done. by rewrite strip_service, service_slash.
  - rewrite find_if_stop, take_app_length by done. by rewrite strip_service, service_slash.
Qed.
End service.

(** Parameters a subscription topic can carry: see [Uri.readable]; keys are
    not coded in it. *)
Definition carried (kv : bytes * option bytes) : Prop :=
  readable kv ∧ Forall (λ c, isUnreserved c = true) kv.1.

Lemma zmq_item_query kvs : Forall carried kvs → zmq_item <$> kvs = query_item <$> kvs.
Proof.
  induction 1 as [|kv kvs [_ Hu] H IH]; [done|]. rewrite !fmap_cons, IH. f_equal.
  unfold zmq_item, query_item. by rewrite encode_unreserved.
Qed.

Lemma make_with_query uninit s kvs ps :
  isValidServiceName s = true → Forall readable kvs → kvs ≠ [] → NoDup kvs.*1 →
  ps = list_to_map kvs →
  make uninit (s ++ "?" :: join (str "&") (query_item <$> kvs)) ∅ = Ok (mk s ps).
Proof.
  intros Hv Hr Hne Hnd ->. unfold make. set (q := join _ _).
  assert (Hq : q ≠ []).
  { pose proof (length_join_items kvs Hr) as Hl. fold q in Hl. destruct kvs; [done|].
    destruct q; [simpl in Hl; lia|done]. }
  assert (Hps : parseService (s ++ "?" :: q) = s).
  { pose proof (parseService_query s Hv q) as H. by destruct q. }
  rewrite Hps.
  assert (Hf : find_if (eqc "?") (s ++ "?" :: q) = Some (length s)).
  { apply find_if_stop; [|done]. eapply Forall_class_not; [|by apply service_chars]. char_class. }
  rewrite Hf. rewrite bool_decide_false by done. rewrite bool_decide_true by done. cbn [negb].
  destruct (service_head s Hv) as [r Er].
  assert (Hparse : parseURI RELAXED (s ++ "?" :: q) = Ok (mkuri (s ++ "?" :: q) [] [] s q [])).
  { pose proof (parse_rest_built RELAXED [] s q [] [] []) as H. cbn [app] in H.
    assert (query_part q ++ fragment_part [] = "?" :: q) as E by (destruct q; [done|by rewrite app_nil_r]).
    rewrite E in H. unfold parseURI. cbn [strict_all]. rewrite Er at 1. cbn [app]. rewrite eqc_refl.
    apply H; [..|done].
    - eapply Forall_class_not; [|by apply service_chars]. char_class.
    - eapply Forall_class_not; [|apply join_items_chars]. char_class. }
  rewrite Hparse. cbn [rbind u_fragment u_query]. unfold q. rewrite read_items by done.
  cbn [rbind]. rewrite Hv, insert_params_map, (left_id_L ∅ (∪)) by done. done.
Qed.

Lemma make_plain uninit s ps : isValidServiceName s = true → make uninit s ps = Ok (mk s ps).
Proof.
  intros Hv. unfold make. pose proof (parseService_query s Hv []) as H. rewrite app_nil_r in H. rewrite H.
  rewrite find_if_none; [|eapply Forall_class_not; [|by apply service_chars]; char_class].
  rewrite bool_decide_true by done. cbn [rbind]. by rewrite Hv.
Qed.

Lemma zmq_text_no_pound uninit tp :
  isValidServiceName (_service tp) = true → map_Forall (λ k v, carried (k, v)) (_params tp) →
  ∃ text, toZmqTopic false tp = text ∧ toZmqTopic true tp = text ++ ["#"]
          ∧ Forall (λ d, eqc "#" d = false) text ∧ fromString uninit text ∅ = Ok tp.
Proof.
  destruct tp as [s ps]. simpl. intros Hv Hc. unfold toZmqTopic. cbn [_params _service].
  assert (Hs : Forall (λ d, eqc "#" d = false) s)
    by (eapply Forall_class_not; [|by apply service_chars]; char_class).
  destruct (bool_decide_reflect (ps = ∅)) as [->|Hne].
  - exists s. rewrite app_nil_r. split; [done|]. split; [done|]. split; [done|]. by apply make_plain.
  - assert (Hall : Forall carried (in_order ps)).
    { rewrite Forall_forall. intros [key v]. rewrite (in_order_perm ps), elem_of_map_to_list. apply Hc. }
    rewrite zmq_item_query by done. rewrite !app_nil_r.
    exists (s ++ "?" :: join (str "&") (query_item <$> in_order ps)).
    split; [done|]. split; [by rewrite <- app_assoc|]. split.
    + apply Forall_app. split; [done|]. constructor; [done|].
      eapply Forall_class_not; [|apply join_items_chars]. char_class.
    + apply make_with_query; [done| | |apply in_order_NoDup|by rewrite in_order_map].
      * eapply List.Forall_impl; [|exact Hall]. by intros ? [].
      * intros E. apply Hne. rewrite <- (in_order_map ps), E. done.
Qed.

(** A subscription topic reads back as the topic it was made from, with
    and without the closing [#]; in particular two topics that differ are
    never written alike. *)
Theorem zmq_roundtrip uninit pound tp :
  isValidServiceName (_service tp) = true → map_Forall (λ k v, carried (k, v)) (_params tp) →
  fromZmqTopic uninit (toZmqTopic pound tp) = Ok tp.
Proof.
  intros Hv Hc. destruct (zmq_text_no_pound uninit tp Hv Hc) as (text & E1 & E2 & Hp & Ht).
  unfold fromZmqTopic. change (str "#") with ["#"]. destruct pound.
  - rewrite E2, ends_with_char, length_app, Nat.add_sub, take_app_length. done.
  - by rewrite E1, ends_with_no_char.
Qed.

Lemma zmq_roundtrip_witness :
  let tp := mk (str "/Dev/Acq") (<[str "sig" := Some (str "a b")]> {[str "all" := None]}) in
  toZmqTopic true tp = str "/Dev/Acq?all&sig=a%20b#"
  ∧ fromZmqTopic 0 (toZmqTopic true tp) = Ok tp.
Proof.
  intros tp. split; [vm_compute; reflexivity|]. apply (zmq_roundtrip 0 true tp).
  - reflexivity.
  - apply map_Forall_insert_2; [|apply map_Forall_singleton].
    + split; [done|]. by apply Forall_forallb.
    + split; [split; [done|]|]; by apply Forall_forallb.
Defined.

(** The reference a topic is sent as reads back as the topic, in whatever
    order the hash map hands the parameters to the factory. *)
Theorem mdp_roundtrip uninit order tp :
  isValidServiceName (_service tp) = true → order ≡ₚ map_to_list (_params tp) →
  Forall readable order →
  ∃ u, toMdpTopic order tp = Ok u ∧ fromMdpTopic uninit STRICT u = Ok tp.
Proof.
  intros Hv Hperm Hr. destruct tp as [s ps]. simpl in *. unfold toMdpTopic. cbn [_service].
  eexists. split.
  - apply build_buildable. constructor; cbn; [constructor|constructor| | |constructor|done|].
    + eapply Forall_class; [|by apply service_chars]. char_class.
    + right. by apply service_slash.
    + right. repeat split. by apply service_nonempty.
  - unfold fromMdpTopic. cbn [u_fragment u_query u_path f_fragment f_path].
    rewrite read_written_query by done. cbn [f_queryMap].
    assert (Hnd : NoDup order.*1) by (rewrite Hperm; apply NoDup_fst_map_to_list).
    rewrite insert_params_map by done.
    assert (Hm : list_to_map order = ps).
    { rewrite <- (list_to_map_to_list ps). by apply list_to_map_proper. }
    rewrite Hm. destruct (service_head s Hv) as [r Er].
    assert (Hd : default (str "/") (returnOpt s) = s) by (by rewrite Er).
    rewrite Hd. by apply make_plain.
Qed.

Lemma mdp_roundtrip_witness :
  let tp := mk (str "/Dev/Acq") {[str "a&b" := Some (str "1")]} in
  ∃ u, toMdpTopic [(str "a&b", Some (str "1"))] tp = Ok u ∧ fromMdpTopic 0 STRICT u = Ok tp.
Proof.
  intros tp. apply (mdp_roundtrip 0 [(str "a&b", Some (str "1"))] tp).
  - reflexivity.
  - unfold tp. cbn [_params]. by rewrite map_to_list_singleton.
  - repeat constructor. discriminate.
Defined.

(** Keys are not coded in a subscription topic, so topics whose keys hold
    separators are written alike. *)
Lemma zmq_topics_collide :
  let tp1 := mk (str "/d") {[str "a&b" := None]} in
  let tp2 := mk (str "/d") (<[str "a" := None]> {[str "b" := None]}) in
  tp1 ≠ tp2 ∧ toZmqTopic true tp1 = toZmqTopic true tp2.
Proof. split; [by apply (bool_decide_unpack _); vm_compute|vm_compute; reflexivity]. Qed.
