(* ===== verification/Message.v ===== *)
(** * Message: [core/include/MdpMessage.hpp], [zmq/include/zmq/ZmqUtils.hpp]

    The Majordomo message, its frames on a ZeroMQ socket, and the two loops
    that write and read them.  ZeroMQ itself is a parameter: the sequence of
    results its calls give. *)

From S2P Require Import Prelude Uri.
Local Open Scope Z_scope.

Inductive MessageFormat : Type := WithSourceId | WithoutSourceId.

Inductive Command : Type :=
  | Invalid | Get | Set_ | Partial | Final | Ready | Disconnect | Subscribe | Unsubscribe | Notify
  | Heartbeat.

#[export] Instance MessageFormat_eq_dec : EqDecision MessageFormat.
Proof. solve_decision. Defined.
#[export] Instance Command_eq_dec : EqDecision Command.
Proof. solve_decision. Defined.

Definition command_code (c : Command) : Z :=
  match c with
  | Invalid => 0 | Get => 1 | Set_ => 2 | Partial => 3 | Final => 4 | Ready => 5 | Disconnect => 6
  | Subscribe => 7 | Unsubscribe => 8 | Notify => 9 | Heartbeat => 10
  end.

Definition commands : list Command :=
  [Invalid; Get; Set_; Partial; Final; Ready; Disconnect; Subscribe; Unsubscribe; Notify; Heartbeat].

(** [static_cast<Command>] of a byte; only applied to bytes up to [0x0a]. *)
Definition command_of (b : ascii) : Command := nth (Z.to_nat (code b)) commands Invalid.

Definition clientProtocol : bytes := str "MDPC03".
Definition workerProtocol : bytes := str "MDPW03".

(** [std::conditional_t<..., std::string, std::monostate>] *)
Definition source_id (f : MessageFormat) : Type :=
  match f with WithSourceId => bytes | WithoutSourceId => unit end.

(** [id], [arrivalTime] and [timeout] stay with the process: they are not in
    the frames. *)
Record message (f : MessageFormat) : Type := mkmsg {
  sourceId : source_id f;
  id : Z;
  arrivalTime : Z;
  timeout : Z;                (* milliseconds *)
  protocolName : bytes;
  command : Command;
  serviceName : bytes;
  clientRequestID : bytes;
  topic : uri;
  data : bytes;
  error : bytes;
  rbac : bytes
}.
Arguments mkmsg {f}.
Arguments sourceId {f} _.
Arguments id {f} _.
Arguments arrivalTime {f} _.
Arguments timeout {f} _.
Arguments protocolName {f} _.
Arguments command {f} _.
Arguments serviceName {f} _.
Arguments clientRequestID {f} _.
Arguments topic {f} _.
Arguments data {f} _.
Arguments error {f} _.
Arguments rbac {f} _.

(** ** Frames *)

Definition RequiredFrameCount (f : MessageFormat) : nat :=
  match f with WithSourceId => 9%nat | WithoutSourceId => 8%nat end.

Definition source_frame (f : MessageFormat) : source_id f → list bytes :=
  match f with WithSourceId => λ s, [s] | WithoutSourceId => λ _, [] end.

(** The array that [send(BasicMessage &&, socket)] fills, in the order of the
    enumeration [Frame]. *)
Definition frames_of {f} (m : message f) : list bytes :=
  source_frame f (sourceId m)
  ++ [protocolName m; [chr (command_code (command m))]; serviceName m; clientRequestID m;
      u_str (topic m); data m; error m; rbac m].

(** ** Sending

    What [zmq_msg_send] answers: the frame was queued, or an error number. *)
Inductive send_result : Type := Queued | EAGAIN | SendError (errno : Z).

(** A frame on the wire and its [ZMQ_SNDMORE] flag. *)
Definition wire_frame : Type := bytes * bool.

Inductive outcome : Type := Sent | Failed (errno : Z).

(** [sendFrame(socket, index, flags)]: [None] while every answer so far was
    [EAGAIN], the loop still busy. *)
Fixpoint sendFrame (answers : list send_result) : option (outcome * list send_result) :=
  match answers with
  | [] => None
  | Queued :: rest => Some (Sent, rest)
  | EAGAIN :: rest => sendFrame rest
  | SendError e :: rest => Some (Failed e, rest)
  end.

(** [ZmqMessage::send]: the frames queued, with the flags they got. *)
Fixpoint send_frames (frames : list bytes) (answers : list send_result)
    : option (outcome * list wire_frame * list send_result) :=
  match frames with
  | [] => Some (Sent, [], answers)
  | b :: frames' =>
      match sendFrame answers with
      | None => None
      | Some (Failed e, rest) => Some (Failed e, [], rest)
      | Some (Sent, rest) =>
          let more := match frames' with [] => false | _ => true end in
          match send_frames frames' rest with
          | None => None
          | Some (o, w, rest') => Some (o, (b, more) :: w, rest')
          end
      end
  end.

Definition send {f} (m : message f) (answers : list send_result)
    : option (outcome * list wire_frame * list send_result) :=
  send_frames (frames_of m) answers.

(** ** Receiving

    One turn of the receiving loop: what [zmq_msg_recv] gives, and what
    [zmq_getsockopt] says about [ZMQ_RCVMORE] ([None]: the call fails). *)
Inductive recv_result : Type :=
  | Received (b : bytes) (more : option bool)
  | RecvError.

(** The loop: the number of frames, the frames kept in the array of [size]
    frames, what is left.  No turn left is the answer [EAGAIN] of an empty
    queue. *)
Fixpoint receive_loop (size : nat) (turns : list recv_result) (framesReceived : nat) (kept : list bytes)
    : option (nat * list bytes) * list recv_result :=
  match turns with
  | [] => (None, [])
  | RecvError :: rest => (None, rest)
  | Received b more :: rest =>
      let kept' := if (framesReceived <? size)%nat then kept ++ [b] else kept in
      match more with
      | None => (None, rest)
      | Some true => receive_loop size rest (S framesReceived) kept'
      | Some false => (Some (S framesReceived, kept'), rest)
      end
  end.

Definition split_source (f : MessageFormat) : list bytes → option (source_id f * list bytes) :=
  match f with
  | WithSourceId => λ l, match l with s :: l' => Some (s, l') | [] => None end
  | WithoutSourceId => λ l, Some (tt, l)
  end.

(** What a default-initialised message holds where the frames say nothing:
    [id] is uninitialised, the time point is zero, the timeout ten seconds. *)
Definition default_timeout : Z := 10000.
Definition root_topic : uri := mkuri (str "/") [] [] (str "/") [] [].

(** The part of [receive] after the loop. *)
Definition decode (f : MessageFormat) (uninit_id : Z) (n : nat) (frames : list bytes)
    : result (option (message f)) :=
  if negb (n =? RequiredFrameCount f)%nat then Ok None
  else
    match split_source f frames with
    | Some (src, [protocol; commandStr; service; reqId; tp; body; err; rb]) =>
        match commandStr with
        | [c] =>
            if code c >? command_code Heartbeat then Ok None
            else
              rbind (parseURI STRICT tp) (λ u,
                Ok (Some (mkmsg src uninit_id 0 default_timeout protocol (command_of c) service reqId u
                            body err rb)))
        | _ => Ok None
        end
    | _ => Ok None
    end.

Definition receive (f : MessageFormat) (uninit_id : Z) (turns : list recv_result)
    : result (option (message f)) * list recv_result :=
  match receive_loop (RequiredFrameCount f) turns 0 [] with
  | (None, rest) => (Ok None, rest)
  | (Some (n, frames), rest) => (decode f uninit_id n frames, rest)
  end.

(** ** The endpoint of a URI *)

Definition toZeroMQEndpoint (cached : authority_parts) (u : uri) : option bytes :=
  if bool_decide (u_scheme u = str "mdp") || bool_decide (u_scheme u = str "mds") then
    f ← factory_of cached u; Some (toString (set_scheme (str "tcp") f)).1
  else Some (u_str u).

(** ** What is sent is what arrives *)

Lemma command_code_range c : 0 ≤ command_code c ≤ 10.
Proof. destruct c; simpl; lia. Qed.

Lemma code_command c : code (chr (command_code c)) = command_code c.
Proof. rewrite code_chr, Z.mod_small; [done|]. pose proof (command_code_range c). lia. Qed.

Lemma command_of_code c : command_of (chr (command_code c)) = c.
Proof. by destruct c. Qed.

Lemma gtb_false x y : x ≤ y → (x >? y) = false.
Proof. intros. destruct (Z.gtb_spec x y); [lia|done]. Qed.

Lemma frames_of_length {f} (m : message f) : length (frames_of m) = RequiredFrameCount f.
Proof. by destruct f. Qed.

(** The frames as they cross the wire: every one but the last announces a
    further one. *)
Fixpoint on_wire (frames : list bytes) : list wire_frame :=
  match frames with
  | [] => []
  | [b] => [(b, false)]
  | b :: frames' => (b, true) :: on_wire frames'
  end.

(** A socket that answers every frame with some [EAGAIN]s before it takes
    it. *)
Definition patient (tries : list nat) : list send_result :=
  concat ((λ n, replicate n EAGAIN ++ [Queued]) <$> tries).

Lemma sendFrame_EAGAIN n answers : sendFrame (replicate n EAGAIN ++ answers) = sendFrame answers.
Proof. by induction n. Qed.

Lemma send_frames_patient frames tries rest :
  length tries = length frames →
  send_frames frames (patient tries ++ rest) = Some (Sent, on_wire frames, rest).
Proof.
  revert tries. induction frames as [|b frames IH]; intros [|n tries] Hl; simplify_eq/=; [done|].
  assert (patient (n :: tries) ++ rest = replicate n EAGAIN ++ Queued :: patient tries ++ rest) as ->
    by (unfold patient; simpl; by rewrite <- !app_assoc).
  simpl. rewrite sendFrame_EAGAIN. simpl. rewrite IH by done. by destruct frames.
Qed.

(** Whatever ZeroMQ answers, the frames queued are an initial part of the
    message in its order, each queued once: all of them exactly when the
    result is [Sent]. *)
Lemma send_frames_prefix frames answers o w rest :
  send_frames frames answers = Some (o, w, rest) →
  w = take (length w) (on_wire frames)
  ∧ match o with Sent => length w = length frames | Failed _ => (length w < length frames)%nat end.
Proof.
  revert answers o w rest.
  induction frames as [|b frames IH]; simpl; intros answers o w rest H; [by simplify_eq|].
  destruct (sendFrame answers) as [[[|e] r]|]; [|simplify_eq; simpl; split; [done|lia]|done].
  destruct (send_frames frames r) as [[[o' w'] r']|] eqn:E; simplify_eq/=.
  destruct (IH _ _ _ _ E) as [Hw Ho]. destruct frames as [|b' frames]; simpl in *.
  - destruct w'; simpl in *; [|by destruct o; lia]. by destruct o; [|lia].
  - split; [by rewrite <- Hw|]. destruct o; lia.
Qed.

(** The turns of a reader that finds these frames. *)
Definition arriving (w : list wire_frame) : list recv_result :=
  (λ x, Received x.1 (Some x.2)) <$> w.

Lemma receive_loop_message size frames rest n kept :
  frames ≠ [] →
  receive_loop size (arriving (on_wire frames) ++ rest) n kept
  = (Some ((n + length frames)%nat, kept ++ take (size - n) frames), rest).
Proof.
  revert n kept. induction frames as [|b frames IH]; intros n kept H; [done|].
  destruct frames as [|b' frames].
  - simpl. f_equal. f_equal. f_equal; [lia|].
    destruct (size - n)%nat as [|k] eqn:E; destruct (Nat.ltb_spec n size); try lia; simpl.
    + by rewrite app_nil_r.
    + by rewrite take_nil.
  - change (on_wire (b :: b' :: frames)) with ((b, true) :: on_wire (b' :: frames)).
    cbn [arriving fmap list_fmap app fst snd receive_loop].
    change (list_fmap _ _ _ (on_wire (b' :: frames))) with (arriving (on_wire (b' :: frames))).
    rewrite IH by done. f_equal. f_equal. f_equal; [simpl; lia|].
    destruct (size - n)%nat as [|k] eqn:E; destruct (Nat.ltb_spec n size); try lia.
    + by replace (size - S n)%nat with 0%nat by lia.
    + replace (size - S n)%nat with k by lia. by rewrite <- app_assoc.
Qed.

(** A ZeroMQ message is never empty. *)
Lemma receive_message f uninit frames rest :
  frames ≠ [] →
  receive f uninit (arriving (on_wire frames) ++ rest)
  = (decode f uninit (length frames) (take (RequiredFrameCount f) frames), rest).
Proof.
  intros H. unfold receive. rewrite receive_loop_message by done. simpl. by rewrite Nat.sub_0_r.
Qed.

(** The message as the other side sees it. *)
Definition arrived {f} (uninit_id : Z) (m : message f) : message f :=
  mkmsg (sourceId m) uninit_id 0 default_timeout (protocolName m) (command m) (serviceName m)
    (clientRequestID m) (topic m) (data m) (error m) (rbac m).

Lemma decode_frames_of {f} uninit (m : message f) :
  parseURI STRICT (u_str (topic m)) = Ok (topic m) →
  decode f uninit (length (frames_of m)) (take (RequiredFrameCount f) (frames_of m))
  = Ok (Some (arrived uninit m)).
Proof.
  intros Ht. rewrite take_ge by (rewrite frames_of_length; lia).
  unfold decode. rewrite frames_of_length, Nat.eqb_refl. pose proof (command_code_range (command m)).
  destruct f; simpl; rewrite code_command;
    rewrite (gtb_false _ 10) by lia; rewrite Ht; simpl; rewrite command_of_code; unfold arrived; by destruct (sourceId m).
Qed.

(** C12: Sending a message over any socket that takes each of its frames after
    finitely many refusals, and receiving what is on the wire, gives the
    message back, in both formats: every field but [id], [arrivalTime] and
    [timeout], which the frames do not carry.  The reader stops exactly at the
    end of the message. *)
Theorem message_roundtrip {f} uninit (m : message f) tries rest turns :
  parseURI STRICT (u_str (topic m)) = Ok (topic m) →
  length tries = RequiredFrameCount f →
  ∃ w, send m (patient tries ++ rest) = Some (Sent, w, rest)
       ∧ receive f uninit (arriving w ++ turns) = (Ok (Some (arrived uninit m)), turns).
Proof.
  intros Ht Hl. exists (on_wire (frames_of m)). split.
  - apply send_frames_patient. by rewrite frames_of_length.
  - rewrite receive_message by (by destruct f). by rewrite decode_frames_of.
Qed.

Definition example_message : message WithSourceId :=
  @mkmsg WithSourceId (str "client#1") 7 100 10000 clientProtocol Subscribe (str "/dev") (str "1")
    (mkuri (str "/dev?a=1") [] [] (str "/dev") (str "a=1") []) [] [] [].

Lemma message_roundtrip_witness :
  ∃ w, send example_message (patient [0; 2; 0; 0; 1; 0; 0; 0; 0]%nat) = Some (Sent, w, [])
       ∧ receive WithSourceId 0 (arriving w ++ []) = (Ok (Some (arrived 0 example_message)), []).
Proof.
  rewrite <- (app_nil_r (patient _)).
  apply (message_roundtrip 0 example_message [0; 2; 0; 0; 1; 0; 0; 0; 0]%nat [] []); reflexivity.
Defined.

(** ** What the reader makes of any message *)

(** The results of as many calls of [receive] as there are messages. *)
Definition receives (f : MessageFormat) (uninit : Z) : list (list bytes) → list recv_result → list (result (option (message f))) * list recv_result :=
  fix go msgs turns :=
    match msgs with
    | [] => ([], turns)
    | _ :: msgs' => let '(r, turns') := receive f uninit turns in
                    let '(rs, turns'') := go msgs' turns' in (r :: rs, turns'')
    end.

(** Whatever messages arrive, of any number of frames and any content: every
    call of [receive] reads exactly one of them and decides by its frames
    alone, so that the reader is at the start of the next message whatever it
    found. *)
Theorem receive_in_sync f uninit msgs rest :
  Forall (λ fr, fr ≠ []) msgs →
  receives f uninit msgs (concat ((λ fr, arriving (on_wire fr)) <$> msgs) ++ rest)
  = ((λ fr, decode f uninit (length fr) (take (RequiredFrameCount f) fr)) <$> msgs, rest).
Proof.
  induction 1 as [|fr msgs Hf _ IH]; [done|].
  cbn [fmap list_fmap concat receives]. rewrite <- app_assoc, receive_message by done.
  change (concat (list_fmap _ _ _ msgs)) with (concat ((λ fr, arriving (on_wire fr)) <$> msgs)).
  by rewrite IH.
Qed.

Lemma receive_in_sync_witness :
  receives WithoutSourceId 0 [[str "x"]; frames_of example_message]
    (concat ((λ fr, arriving (on_wire fr)) <$> [[str "x"]; frames_of example_message]) ++ [])
  = ([Ok None; Ok None], []).
Proof.
  apply (receive_in_sync WithoutSourceId 0 [[str "x"]; frames_of example_message] []).
  by repeat constructor.
Defined.

(** A message is accepted exactly when it has the frames of the format, with
    a command of one byte that is a command's code and a topic that parses;
    and then it is the message of those frames. *)
Theorem decode_accepts f uninit frames m :
  decode f uninit (length frames) (take (RequiredFrameCount f) frames) = Ok (Some m) ↔
  ∃ c tp,
    frames = source_frame f (sourceId m)
             ++ [protocolName m; [c]; serviceName m; clientRequestID m; tp; data m; error m; rbac m]
    ∧ code c ≤ 10 ∧ command m = command_of c ∧ parseURI STRICT tp = Ok (topic m)
    ∧ id m = uninit ∧ arrivalTime m = 0 ∧ timeout m = default_timeout.
Proof.
  split.
  - unfold decode. destruct (Nat.eqb_spec (length frames) (RequiredFrameCount f)) as [Hl|]; [|done].
    rewrite take_ge by lia. simpl.
    destruct (split_source f frames) as [[src l]|] eqn:Hs; [|done].
    destruct l as [|a [|[|c [|]] [|s [|rq [|tp [|b [|e [|rb [|]]]]]]]]]; try done.
    destruct (Z.gtb_spec (code c) 10); [done|]. intros (u & Hu & Hm)%rbind_Ok_inv. simplify_eq/=.
    exists c, tp. repeat split; try done.
    destruct f; simpl in *; [destruct frames|]; by simplify_eq.
  - intros (c & tp & Hf & Hc & Hcmd & Ht & Hi & Ha & Hto). destruct m. simpl in *. subst frames.
    destruct f; unfold decode; simpl; rewrite (gtb_false _ 10) by lia; rewrite Ht; simpl; subst; [done|].
    by destruct sourceId0.
Qed.

(** A well-formed message whose topic is not a reference makes [receive]
    throw instead of returning no message. *)
Lemma malformed_topic_throws :
  decode WithSourceId 0 9 [str "client"; clientProtocol; [chr 1]; str "/service"; str "1"; str "/a b"; []; []; []]
  = Throw URISyntaxException.
Proof. reflexivity. Qed.

(** ** The endpoint ZeroMQ connects to *)

Lemma toString_factory_of f u :
  factory_of (mkauth [] [] [] []) u = Some f →
  f = mkfactory (u_authority u) (u_scheme u) [] [] [] None (u_path u) (u_query u) (u_fragment u) [].
Proof. unfold factory_of. simpl. naive_solver. Qed.

(** The address of an [mdp] or [mds] reference without fragment is the same
    reference with the scheme [tcp]; every other reference is left alone. *)
Theorem endpoint_is_tcp f u :
  buildable f → f_authority f ≠ [] → f_fragment f = [] → build STRICT f = Ok u →
  toZeroMQEndpoint (mkauth [] [] [] []) u
  = Some (if bool_decide (f_scheme f ∈ [str "mdp"; str "mds"])
          then (toString (set_scheme (str "tcp") f)).1 else u_str u).
Proof.
  intros Hb Ha Hf Hu. rewrite build_buildable in Hu by done. injection Hu as <-.
  unfold toZeroMQEndpoint. cbn [u_scheme u_str].
  assert (bool_decide (f_scheme f = str "mdp") || bool_decide (f_scheme f = str "mds")
          = bool_decide (f_scheme f ∈ [str "mdp"; str "mds"])) as ->.
  { apply eq_bool_prop_intro. rewrite orb_True, !bool_decide_spec. set_solver. }
  case_bool_decide; [|done].
  unfold factory_of. cbn [a_port mbind option_bind u_authority u_path u_query u_fragment]. f_equal.
  unfold set_scheme, toString, factory_query at 1 3, factory_authority. cbn.
  rewrite Hf. destruct (f_authority f); [done|]. reflexivity.
Qed.

Lemma endpoint_is_tcp_witness :
  let f := mkfactory (str "localhost:12345") (str "mds") [] [] [] None (str "/notify") [] [] [] in
  toZeroMQEndpoint (mkauth [] [] [] [])
    (mkuri (str "mds://localhost:12345/notify") (str "mds") (str "localhost:12345") (str "/notify") [] [])
  = Some (str "tcp://localhost:12345/notify").
Proof.
  intros f. rewrite (endpoint_is_tcp f); [reflexivity| |done|done|reflexivity].
  constructor; try (apply Forall_forallb; reflexivity); [by right|done|by left].
Defined.
