(* ===== verification/Matching.v ===== *)
(** * Matching: [core/include/Filters.hpp], [majordomo/SubscriptionMatcher.hpp]

    The filters of subscription parameters and the relation between a notified
    topic and a subscribed one.  A filter class is a function of the two
    texts; [FilterLaws] is what the matcher needs of one. *)

From S2P Require Import Prelude Text TimingCtx Uri Topic.
Local Open Scope Z_scope.

(** [AbstractFilter::operator()(notified, subscribed)] *)
Definition AbstractFilter : Type := bytes → bytes → bool.

(** [DomainFilter<T, MatchFunctor>] for a class [T] built from a text: [make]
    is its constructor; every exception means no match. *)
Definition DomainFilter {T} (make : bytes → result T) (matchFunctor : T → T → result bool) : AbstractFilter :=
  λ notified subscribed,
    match make notified with
    | Throw _ => false
    | Ok n => match make subscribed with
              | Throw _ => false
              | Ok s => match matchFunctor n s with Ok b => b | Throw _ => false end
              end
    end.

(** [DomainFilter<std::string_view>] compares the texts. *)
Definition ContentTypeFilter : AbstractFilter := λ notified subscribed, bool_decide (notified = subscribed).

Definition TimingCtxFilter : AbstractFilter :=
  DomainFilter (λ s, from_selector s 0) TimingCtx.matches.

(** [parseNumber] into a [w]-bit signed integer: the error and the number, left
    as it was unless one was read. *)
Inductive parse_error : Type := no_error | invalid | out_of_range.

Definition number_length (s : bytes) : nat :=
  match s with
  | c :: s' => if eqc c "-" then S (length (take_while is_digit s')) else length (take_while is_digit s)
  | [] => 0%nat
  end.

Definition parseNumber (w : Z) (s : bytes) (number : Z) : parse_error * Z :=
  match from_chars w s with
  | invalid_argument => (invalid, number)
  | result_out_of_range => (out_of_range, number)
  | Parsed z => (if (number_length s =? length s)%nat then no_error else invalid, z)
  end.

Definition NumberFilter (w : Z) : AbstractFilter :=
  λ notified subscribed,
    let '(rc1, subscribedNumber) := parseNumber w subscribed 0 in
    match rc1 with
    | invalid => false
    | _ => let '(rc2, notifiedNumber) := parseNumber w notified 0 in
           match rc2 with
           | invalid => false
           | _ => subscribedNumber =? notifiedNumber
           end
    end.

(** [SubscriptionMatcher]: the map of filters by parameter. *)
Definition matcher : Type := gmap bytes AbstractFilter.

(** [emplace]: a key that has a filter keeps it. *)
Definition addFilter (key : bytes) (f : AbstractFilter) (m : matcher) : matcher :=
  match m !! key with Some _ => m | None => <[key := f]> m end.

Definition doesSatisfy (m : matcher) (notificationQuery : params) (p : bytes * option bytes) : bool :=
  match m !! p.1 with
  | None => true
  | Some filter =>
      match notificationQuery !! p.1 with
      | None => false
      | Some nv => filter (default [] nv) (default [] p.2)
      end
  end.

Definition testQueries (m : matcher) (notified subscriber : Topic.t) : bool :=
  if bool_decide (_params subscriber = ∅) then true
  else forallb (doesSatisfy m (_params notified)) (map_to_list (_params subscriber)).

Definition match_topics (m : matcher) (notified subscriber : Topic.t) : bool :=
  bool_decide (_service notified = _service subscriber) && testQueries m notified subscriber.

(** ** The filters *)

Class FilterLaws (f : AbstractFilter) : Prop :=
  filter_trans a b c : f a b = true → f b c = true → f a c = true.

#[export] Instance ContentTypeFilter_laws : FilterLaws ContentTypeFilter.
Proof. intros a b c. unfold ContentTypeFilter. rewrite !bool_decide_eq_true. congruence. Qed.

#[export] Instance NumberFilter_laws w : FilterLaws (NumberFilter w).
Proof.
  intros a b c. unfold NumberFilter.
  destruct (parseNumber w a 0) as [[] na], (parseNumber w b 0) as [[] nb], (parseNumber w c 0) as [[] nc];
    try done; rewrite !Z.eqb_eq; congruence.
Qed.

(** A context that parsed has nothing left to parse. *)
Lemma parse_idem c c' : parse c = (Ok (), c') → parse c' = (Ok (), c').
Proof.
  unfold parse. intros H.
  assert (Hh : _hash c' = const_hash (selector c')).
  { destruct (Z.eqb_spec (_hash c) (const_hash (selector c))); [by simplify_eq|].
    repeat case_match; by simplify_eq. }
  by rewrite Hh, Z.eqb_refl.
Qed.

Lemma from_selector_parsed s ts c : from_selector s ts = Ok c → parse c = (Ok (), c).
Proof.
  unfold from_selector.
  destruct (parse (TimingCtx.mk EMPTY_HASH (-1) (-1) (-1) (-1) (toUpper s) ts)) as [[[]|] c'] eqn:E; [|done].
  intros [= ->]. by eapply parse_idem.
Qed.

Lemma TimingCtxFilter_spec n s :
  TimingCtxFilter n s = true ↔
  ∃ c d, from_selector n 0 = Ok c ∧ from_selector s 0 = Ok d ∧ matches_ids (ids_of c) (ids_of d) = true.
Proof.
  unfold TimingCtxFilter, DomainFilter, matches, parsed.
  destruct (from_selector n 0) as [c|] eqn:Hc; [|naive_solver].
  destruct (from_selector s 0) as [d|]; [|naive_solver].
  rewrite (from_selector_parsed _ _ _ Hc). naive_solver.
Qed.

#[export] Instance TimingCtxFilter_laws : FilterLaws TimingCtxFilter.
Proof.
  intros a b c. rewrite !TimingCtxFilter_spec. intros (x & y & Hx & Hy & H1) (y' & z & Hy' & Hz & H2).
  rewrite Hy in Hy'. injection Hy' as <-. exists x, z. split_and!; [done..|]. by eapply matches_ids_trans.
Qed.

(** ** The matcher *)

Lemma doesSatisfy_spec m nq k v :
  doesSatisfy m nq (k, v) = true ↔
  ∀ f, m !! k = Some f → ∃ nv, nq !! k = Some nv ∧ f (default [] nv) (default [] v) = true.
Proof. unfold doesSatisfy. simpl. destruct (m !! k), (nq !! k); naive_solver. Qed.

Lemma match_topics_iff m n s :
  match_topics m n s = true ↔
  _service n = _service s
  ∧ ∀ k v f, _params s !! k = Some v → m !! k = Some f →
      ∃ nv, _params n !! k = Some nv ∧ f (default [] nv) (default [] v) = true.
Proof.
  unfold match_topics, testQueries. rewrite andb_true_iff, bool_decide_eq_true.
  apply and_iff_compat_l. case_bool_decide as He.
  - split; [|done]. intros _ k v f. by rewrite He, lookup_empty.
  - rewrite forallb_forall. split.
    + intros H k v f Hk. apply doesSatisfy_spec, H, list_elem_of_In. by apply elem_of_map_to_list.
    + intros H [k v] Hin. apply doesSatisfy_spec. intros f Hf.
      apply (H k v f); [|done]. by apply elem_of_map_to_list, list_elem_of_In.
Qed.

(** What a notification has to carry to reach a subscriber: the same service
    and, for each parameter of the subscription that has a filter, a value of
    the same parameter that the filter accepts.  The order in which the hash
    map is walked does not matter; parameters without a filter are ignored, on
    both sides. *)
Theorem match_spec m n s :
  match_topics m n s = true ↔
  _service n = _service s
  ∧ ∀ k v f, _params s !! k = Some v → m !! k = Some f →
      ∃ nv, _params n !! k = Some nv ∧ f (default [] nv) (default [] v) = true.
Proof. apply match_topics_iff. Qed.

(** With lawful filters the relation is transitive, and asking for less gets
    at least as much: a subscriber whose parameters are among those of another
    receives whatever the other receives. *)
Theorem match_order m a b c :
  (∀ k f, m !! k = Some f → FilterLaws f) →
  (match_topics m a b = true → match_topics m b c = true → match_topics m a c = true)
  ∧ (_service b = _service c → _params c ⊆ _params b → match_topics m a b = true → match_topics m a c = true).
Proof.
  intros Hlaws. rewrite !match_topics_iff. split.
  - intros [Hs1 H1] [Hs2 H2]. split; [congruence|]. intros k v f Hk Hf.
    destruct (H2 k v f Hk Hf) as (w & Hw & Hwv). destruct (H1 k w f Hw Hf) as (u & Hu & Huw).
    exists u. split; [done|]. by eapply (Hlaws k f Hf).
  - intros Hs Hsub [Hs1 H1]. split; [congruence|]. intros k v f Hk Hf.
    apply (H1 k v f); [|done]. by eapply lookup_weaken.
Qed.

(** The filters the broker installs. *)
Definition example_matcher : matcher :=
  addFilter (str "ctx") TimingCtxFilter (addFilter (str "contentType") ContentTypeFilter ∅).

Lemma addFilter_laws m key g :
  (∀ k f, m !! k = Some f → FilterLaws f) → FilterLaws g →
  ∀ k f, addFilter key g m !! k = Some f → FilterLaws f.
Proof.
  intros Hm Hg k f. unfold addFilter. destruct (m !! key); [by apply Hm|].
  intros [[_ <-]|[_ H]]%lookup_insert_Some; [done|]. by apply (Hm k).
Qed.

Lemma example_matcher_laws k f : example_matcher !! k = Some f → FilterLaws f.
Proof.
  apply addFilter_laws; [|apply _]. apply addFilter_laws; [|apply _]. intros k' f' H. by apply lookup_empty_Some in H.
Qed.

Definition example_topic (ps : list (bytes * option bytes)) : Topic.t :=
  Topic.mk (str "/dev") (list_to_map ps).

Lemma match_order_witness :
  let a := example_topic [(str "ctx", Some (str "FAIR.SELECTOR.C=1:S=2")); (str "x", None)] in
  let b := example_topic [(str "ctx", Some (str "FAIR.SELECTOR.C=1"))] in
  let c := example_topic [] in
  match_topics example_matcher a b = true ∧ match_topics example_matcher a c = true
  ∧ match_topics example_matcher b a = false.
Proof.
  intros a b c. assert (Hab : match_topics example_matcher a b = true) by (vm_compute; reflexivity).
  split_and!; [done| |vm_compute; reflexivity].
  apply (proj1 (match_order example_matcher a b c example_matcher_laws)); [done|vm_compute; reflexivity].
Defined.

(** A number that does not fit the type is taken for zero by both sides of the
    filter. *)
Lemma number_out_of_range_is_zero :
  NumberFilter 32 (str "0") (str "99999999999") = true
  ∧ NumberFilter 32 (str "-99999999999") (str "88888888888") = true
  ∧ NumberFilter 32 (str "0x") (str "0") = false.
Proof. repeat split. Qed.
