(* ===== verification/LongPolling.v ===== *)
(** * LongPolling: [core/include/LongPollingBatch.hpp]

    The multipart body in which the REST server sends several notifications,
    and its decoder. *)

From S2P Require Import Prelude Text.
Local Open Scope Z_scope.

Definition CRLF : bytes := [chr 13; chr 10].
Definition kBoundary : bytes := str "opencmw-long-polling-multipart-boundary".
Definition kIndexParameter : bytes := str "LongPollingIdx".
Definition kBatchParameter : bytes := str "LongPollingBatch".
Definition kAllAvailable : bytes := str "AllAvailable".

Record BatchPart : Type := mkpart { index : Z; topic : bytes; serviceName : bytes; payload : bytes }.

#[export] Instance BatchPart_eq_dec : EqDecision BatchPart.
Proof. solve_decision. Defined.

(** The texts of the errors. *)
Inductive batch_error : Type :=
  | MalformedNumber | LineBreakInHeader | MissingBoundary | BoundaryLength | DataAfterEnd
  | IncompleteHeaders | MissingHeader | PayloadTooShort | NotConsecutive | NoBoundaryAfterPayload
  | MissingFinalBoundary.

#[export] Instance batch_error_eq_dec : EqDecision batch_error.
Proof. solve_decision. Defined.

(** [std::expected<A, std::string>] *)
Abbreviation expected A := (A + batch_error)%type (only parsing).

(** Into a 64-bit unsigned integer; [std::from_chars] takes no sign there. *)
Definition parseUnsigned (value : bytes) : expected Z :=
  match value with
  | [] => inr MalformedNumber
  | _ =>
      match take_while is_digit value with
      | [] => inr MalformedNumber
      | ds => if (dec_value ds <? 2 ^ 64) && (length ds =? length value)%nat then inl (dec_value ds)
              else inr MalformedNumber
      end
  end.

(** ** Encoding *)

Definition is_break (c : ascii) : bool := one_of CRLF c.

Definition idx_header : bytes := str "x-opencmw-long-polling-idx: ".
Definition topic_header : bytes := str "x-opencmw-topic: ".
Definition service_header : bytes := str "x-opencmw-service-name: ".
Definition length_header : bytes := str "content-length: ".

Definition size (s : bytes) : Z := Z.of_nat (length s).

Definition encode_part (p : BatchPart) : bytes :=
  str "--" ++ kBoundary
  ++ CRLF ++ idx_header ++ to_dec (index p)
  ++ CRLF ++ topic_header ++ topic p
  ++ CRLF ++ service_header ++ serviceName p
  ++ CRLF ++ length_header ++ to_dec (size (payload p))
  ++ CRLF ++ CRLF ++ payload p ++ CRLF.

Definition encodeBatch (parts : list BatchPart) : expected bytes :=
  if existsb (λ p, existsb is_break (topic p) || existsb is_break (serviceName p)) parts
  then inr LineBreakInHeader
  else inl (fold_left (λ body p, body ++ encode_part p) parts [] ++ str "--" ++ kBoundary ++ str "--" ++ CRLF).

(** ** Decoding

    [rest] is [body.substr(position)]. *)

Record headers : Type := mkheaders {
  h_index : option Z;
  h_length : option Z;
  h_topic : option bytes;
  h_service : option bytes
}.

Definition no_headers : headers := mkheaders None None None None.

Definition read_line (line : bytes) (h : headers) : expected headers :=
  let after (hd : bytes) := drop (length hd) line in
  if starts_with line idx_header then
    match parseUnsigned (after idx_header) with
    | inl v => inl (mkheaders (Some v) (h_length h) (h_topic h) (h_service h))
    | inr e => inr e
    end
  else if starts_with line topic_header then
    inl (mkheaders (h_index h) (h_length h) (Some (after topic_header)) (h_service h))
  else if starts_with line service_header then
    inl (mkheaders (h_index h) (h_length h) (h_topic h) (Some (after service_header)))
  else if starts_with line length_header then
    match parseUnsigned (after length_header) with
    | inl v => inl (mkheaders (h_index h) (Some v) (h_topic h) (h_service h))
    | inr e => inr e
    end
  else inl h.

(** The loop over the header lines, on what follows [headerPosition], with
    [n] bytes left before [headerEnd].  Every turn skips two bytes at least. *)
Fixpoint read_headers (fuel : nat) (rest : bytes) (n : nat) (h : headers) : expected headers :=
  match fuel with
  | O => inl h
  | S fuel' =>
      if (0 <? n)%nat then
        let e := Nat.min (default n (find_sub rest CRLF)) n in
        match read_line (take e rest) h with
        | inr err => inr err
        | inl h' => read_headers fuel' (drop (e + 2) rest) (n - (e + 2)) h'
        end
      else inl h
  end.

Definition follows (parts : list BatchPart) (i : Z) : bool :=
  match last parts with
  | None => true
  | Some p => negb (index p =? 2 ^ 64 - 1) && (i =? index p + 1)
  end.

Section decode.
Context (boundary : bytes).

(** One turn for a part, after its boundary line: the parts with the new
    one, and what follows its payload's line break. *)
Definition decode_part (rest : bytes) (parts : list BatchPart) : expected (list BatchPart * bytes) :=
  match find_sub rest (CRLF ++ CRLF) with
  | None => inr IncompleteHeaders
  | Some headerEnd =>
      match read_headers (S headerEnd) rest headerEnd no_headers with
      | inr e => inr e
      | inl (mkheaders (Some i) (Some contentLength) (Some t) (Some s)) =>
          let rest1 := drop (headerEnd + 4) rest in
          if contentLength >? size rest1 then inr PayloadTooShort
          else if negb (follows parts i) then inr NotConsecutive
          else
            let n := Z.to_nat contentLength in
            let rest2 := drop n rest1 in
            if starts_with rest2 CRLF
            then inl (parts ++ [mkpart i t s (take n rest1)], drop 2 rest2)
            else inr NoBoundaryAfterPayload
      | inl _ => inr MissingHeader
      end
  end.

Fixpoint decode_parts (fuel : nat) (rest : bytes) (parts : list BatchPart) : expected (list BatchPart) :=
  match fuel, rest with
  | _, [] => inr MissingFinalBoundary
  | O, _ => inr MissingFinalBoundary
  | S fuel', _ =>
      let finalBoundary := boundary ++ str "--" ++ CRLF in
      let partBoundary := boundary ++ CRLF in
      if starts_with rest finalBoundary then
        match drop (length finalBoundary) rest with
        | [] => inl parts
        | _ => inr DataAfterEnd
        end
      else if negb (starts_with rest partBoundary) then inr MissingBoundary
      else match decode_part (drop (length partBoundary) rest) parts with
           | inr e => inr e
           | inl (parts', rest') => decode_parts fuel' rest' parts'
           end
  end.
End decode.

Definition decodeBatch (body : bytes) : expected (list BatchPart) :=
  match find_sub body CRLF with
  | None => inr MissingBoundary
  | Some boundaryEnd =>
      if negb (starts_with body (str "--")) then inr MissingBoundary
      else
        let boundaryLine := take boundaryEnd body in
        if (length boundaryLine <=? 2)%nat || (72 <? length boundaryLine)%nat then inr BoundaryLength
        else decode_parts boundaryLine (length body) body []
  end.

Example batch_example :
  match encodeBatch [mkpart 7 (str "/a?x=1") (str "/a") (str "hello"); mkpart 8 (str "/a") (str "/a") CRLF] with
  | inl body => decodeBatch body
  | inr e => inr e
  end = inl [mkpart 7 (str "/a?x=1") (str "/a") (str "hello"); mkpart 8 (str "/a") (str "/a") CRLF].
Proof. vm_compute. reflexivity. Qed.

(** ** What was encoded is decoded *)

Definition no_break (s : bytes) : Prop := existsb is_break s = false.

Lemma no_break_app s t : no_break s → no_break t → no_break (s ++ t).
Proof. unfold no_break. rewrite existsb_app. by intros -> ->. Qed.

Lemma no_break_cons c s : no_break (c :: s) → is_break c = false ∧ no_break s.
Proof. unfold no_break. simpl. by rewrite orb_false_iff. Qed.

Lemma not_break_CR c : is_break c = false → eqc c (chr 13) = false.
Proof. unfold is_break, CRLF, one_of. simpl. rewrite orb_false_iff. by intros [? _]. Qed.

Lemma no_break_to_dec z : no_break (to_dec z).
Proof.
  unfold no_break. pose proof (to_dec_chars z) as H. induction H as [|c s Hc _ IH]; [done|]. simpl.
  rewrite IH, orb_false_r. clear -Hc. apply not_true_is_false. intros H. revert Hc.
  assert (E : negb (is_break c && is_dec_char c) = true) by (clear H; by_all_chars c).
  rewrite H in E. simpl in E. destruct (is_dec_char c); done.
Qed.

(** A needle that starts with a carriage return is not in a text without
    line breaks. *)
Lemma find_sub_skip s t needle :
  no_break s → find_sub (s ++ t) (chr 13 :: needle) = Nat.add (length s) <$> find_sub t (chr 13 :: needle).
Proof.
  induction s as [|c s IH]; intros Hs; [cbn [app length]; by destruct (find_sub t (chr 13 :: needle))|].
  apply no_break_cons in Hs as [Hc%not_break_CR Hs]. cbn [app find_sub starts_with].
  rewrite Hc. cbn [andb]. rewrite IH by done.
  by destruct (find_sub t (chr 13 :: needle)).
Qed.

Lemma find_sub_line l t : no_break l → find_sub (l ++ CRLF ++ t) CRLF = Some (length l).
Proof.
  intros Hl. unfold CRLF at 2. rewrite find_sub_skip by done. cbn. rewrite ?eqc_refl. cbn. f_equal. lia.
Qed.

(** The blank line after a header is looked for past the other line ends. *)
Lemma find_blank_skip l c t :
  no_break l → eqc c (chr 13) = false →
  find_sub (l ++ CRLF ++ c :: t) (CRLF ++ CRLF) = Nat.add (length l + 2) <$> find_sub (c :: t) (CRLF ++ CRLF).
Proof.
  intros Hl Hc. unfold CRLF at 2 4. cbn [app]. rewrite find_sub_skip by done.
  unfold CRLF. cbn [app find_sub starts_with]. rewrite eqc_refl. cbn [andb].
  replace (eqc (chr 10) (chr 10)) with true by done. rewrite Hc. cbn [andb].
  replace (eqc (chr 10) (chr 13)) with false by done. cbn [andb].
  destruct (find_sub t [chr 13; chr 10; chr 13; chr 10]); cbn; [f_equal; lia|done].
Qed.

Lemma find_blank_end l t : no_break l → find_sub (l ++ CRLF ++ CRLF ++ t) (CRLF ++ CRLF) = Some (length l).
Proof.
  intros Hl. unfold CRLF at 3. cbn [app]. rewrite find_sub_skip by done. cbn. rewrite ?eqc_refl. cbn. f_equal. lia.
Qed.

Lemma parseUnsigned_to_dec z : 0 ≤ z < 2 ^ 64 → parseUnsigned (to_dec z) = inl z.
Proof.
  intros Hz. unfold to_dec. destruct (Z.ltb_spec z 0); [lia|].
  set (ds := digits (S (Z.to_nat (Z.log2 (Z.abs z)))) (Z.abs z)).
  assert (Hd : Forall (λ c, is_digit c = true) ds) by (apply digits_are_digits; lia).
  assert (Hv : dec_value ds = z).
  { transitivity (Z.abs z); [|lia]. apply dec_value_digits. split; [lia|]. apply log2_fuel. lia. }
  assert (Hne : ds ≠ []) by apply digits_nonempty.
  pose proof (take_while_all is_digit ds [] Hd I) as Htw. rewrite app_nil_r in Htw. clearbody ds.
  unfold parseUnsigned. destruct ds as [|d ds']; [done|]. rewrite Htw, Hv, Nat.eqb_refl, andb_true_r.
  by rewrite (proj2 (Z.ltb_lt _ _)) by lia.
Qed.

Lemma read_headers_step fuel l rest n h :
  no_break l → (0 < n)%nat → (length l ≤ n)%nat →
  read_headers (S fuel) (l ++ CRLF ++ rest) n h
  = match read_line l h with
    | inr e => inr e
    | inl h' => read_headers fuel rest (n - (length l + 2)) h'
    end.
Proof.
  intros Hl Hn Hle. cbn [read_headers]. rewrite (proj2 (Nat.ltb_lt _ _) Hn), find_sub_line by done.
  cbv zeta. cbn [default from_option]. unfold id. rewrite Nat.min_l, take_app_length by done.
  destruct (read_line l h); [|done]. f_equal. rewrite app_assoc, drop_app_length'; [done|].
  by rewrite length_app.
Qed.

Lemma read_line_index z h : 0 ≤ z < 2 ^ 64 →
  read_line (idx_header ++ to_dec z) h = inl (mkheaders (Some z) (h_length h) (h_topic h) (h_service h)).
Proof. intros. unfold read_line. rewrite starts_with_app, drop_app_length, parseUnsigned_to_dec; done. Qed.
Lemma read_line_topic t h :
  read_line (topic_header ++ t) h = inl (mkheaders (h_index h) (h_length h) (Some t) (h_service h)).
Proof. reflexivity. Qed.
Lemma read_line_service t h :
  read_line (service_header ++ t) h = inl (mkheaders (h_index h) (h_length h) (h_topic h) (Some t)).
Proof. reflexivity. Qed.
Lemma read_line_length z h : 0 ≤ z < 2 ^ 64 →
  read_line (length_header ++ to_dec z) h = inl (mkheaders (h_index h) (Some z) (h_topic h) (h_service h)).
Proof.
  intros. unfold read_line. rewrite starts_with_app, drop_app_length, parseUnsigned_to_dec; done.
Qed.

Record part_ok (p : BatchPart) : Prop := {
  ok_index : 0 ≤ index p < 2 ^ 64;
  ok_size : size (payload p) < 2 ^ 64;
  ok_topic : no_break (topic p);
  ok_service : no_break (serviceName p)
}.

(** The headers of a part, up to its blank line. *)
Definition header_text (p : BatchPart) : bytes :=
  idx_header ++ to_dec (index p) ++ CRLF ++ topic_header ++ topic p
  ++ CRLF ++ service_header ++ serviceName p ++ CRLF ++ length_header ++ to_dec (size (payload p)).

Lemma encode_part_header p t :
  encode_part p ++ t
  = (str "--" ++ kBoundary ++ CRLF) ++ header_text p ++ CRLF ++ CRLF ++ payload p ++ CRLF ++ t.
Proof. unfold encode_part, header_text. by rewrite <- !app_assoc. Qed.

Lemma header_text_lines p t :
  header_text p ++ t
  = (idx_header ++ to_dec (index p)) ++ CRLF ++ (topic_header ++ topic p)
    ++ CRLF ++ (service_header ++ serviceName p) ++ CRLF ++ (length_header ++ to_dec (size (payload p))) ++ t.
Proof. unfold header_text. by rewrite <- !app_assoc. Qed.

Create HintDb headers.
#[export] Hint Resolve no_break_app no_break_to_dec ok_topic ok_service ok_index : headers.
#[export] Hint Extern 1 (no_break idx_header) => reflexivity : headers.
#[export] Hint Extern 1 (no_break topic_header) => reflexivity : headers.
#[export] Hint Extern 1 (no_break service_header) => reflexivity : headers.
#[export] Hint Extern 1 (no_break length_header) => reflexivity : headers.

Lemma find_header_end p t :
  part_ok p → find_sub (header_text p ++ CRLF ++ CRLF ++ t) (CRLF ++ CRLF) = Some (length (header_text p)).
Proof.
  intros Hp. rewrite header_text_lines.
  change (topic_header ++ topic p) with ("x"%char :: drop 1 topic_header ++ topic p). cbn [app].
  rewrite find_blank_skip by auto with headers.
  change ("x"%char :: (drop 1 topic_header ++ topic p) ++ ?r) with ((topic_header ++ topic p) ++ r).
  change (service_header ++ serviceName p) with ("x"%char :: drop 1 service_header ++ serviceName p). cbn [app].
  rewrite find_blank_skip by auto with headers.
  change ("x"%char :: (drop 1 service_header ++ serviceName p) ++ ?r) with ((service_header ++ serviceName p) ++ r).
  change (length_header ++ ?l) with ("c"%char :: drop 1 length_header ++ l). cbn [app].
  rewrite find_blank_skip by auto with headers.
  change ("c"%char :: (drop 1 length_header ++ ?l) ++ ?r) with ((length_header ++ l) ++ r).
  rewrite find_blank_end by auto with headers. cbn [fmap option_fmap option_map]. f_equal.
  unfold header_text. rewrite !length_app. change (length CRLF) with 2%nat. lia.
Qed.

Lemma read_header_text p t n :
  part_ok p → (6 ≤ n)%nat →
  read_headers n (header_text p ++ CRLF ++ t) (length (header_text p)) no_headers
  = inl (mkheaders (Some (index p)) (Some (size (payload p))) (Some (topic p)) (Some (serviceName p))).
Proof.
  intros Hp Hn. destruct n as [|[|[|[|[|n]]]]]; try lia.
  rewrite header_text_lines. pose proof (ok_index p Hp) as Hi.
  assert (Hl : length (header_text p)
    = (length (idx_header ++ to_dec (index p)) + 2 + (length (topic_header ++ topic p) + 2
       + (length (service_header ++ serviceName p) + 2 + length (length_header ++ to_dec (size (payload p))))))%nat).
  { unfold header_text. rewrite !length_app. change (length CRLF) with 2%nat. lia. }
  assert (0 < length (length_header ++ to_dec (size (payload p))))%nat by (rewrite length_app; cbn; lia).
  rewrite read_headers_step by (try lia; auto with headers). rewrite read_line_index by done.
  rewrite read_headers_step by (try lia; auto with headers). rewrite read_line_topic.
  rewrite read_headers_step by (try lia; auto with headers). rewrite read_line_service.
  rewrite read_headers_step by (try lia; auto with headers).
  rewrite read_line_length by (pose proof (ok_size p Hp); unfold size in *; lia).
  cbn [read_headers]. by rewrite (proj2 (Nat.ltb_ge _ _)) by lia.
Qed.

Lemma decode_part_encoded p parts t :
  part_ok p → follows parts (index p) = true →
  decode_part (header_text p ++ CRLF ++ CRLF ++ payload p ++ CRLF ++ t) parts = inl (parts ++ [p], t).
Proof.
  intros Hp Hf. unfold decode_part. rewrite find_header_end, read_header_text; [|done| |done].
  2:{ unfold header_text. rewrite length_app. cbn. lia. }
  assert (Hd : drop (length (header_text p) + 4) (header_text p ++ CRLF ++ CRLF ++ payload p ++ CRLF ++ t)
               = payload p ++ CRLF ++ t).
  { rewrite <- drop_drop, drop_app_length. reflexivity. }
  rewrite Hd, Hf. cbn [negb].
  replace (size (payload p) >? size (payload p ++ CRLF ++ t)) with false.
  2:{ symmetry. unfold size. rewrite length_app. destruct (Z.gtb_spec (Z.of_nat (length (payload p)))
        (Z.of_nat (length (payload p) + length (CRLF ++ t)))); [lia|done]. }
  unfold size. rewrite Nat2Z.id, drop_app_length, take_app_length. by destruct p.
Qed.

(** Parts follow one another when their indices do; [prev] is the index of the
    part before. *)
Fixpoint consecutive (prev : option Z) (parts : list BatchPart) : Prop :=
  match parts with
  | [] => True
  | p :: parts' =>
      match prev with None => True | Some i => index p = i + 1 end ∧ consecutive (Some (index p)) parts'
  end.

Definition final_line : bytes := str "--" ++ kBoundary ++ str "--" ++ CRLF.

Lemma decode_parts_encoded ps done fuel :
  Forall part_ok ps → consecutive (index <$> last done) ps → (length ps < fuel)%nat →
  decode_parts (str "--" ++ kBoundary) fuel (concat (encode_part <$> ps) ++ final_line) done = inl (done ++ ps).
Proof.
  intros Hok. revert done fuel. induction Hok as [|p ps Hp _ IH]; intros done [|fuel] Hc Hf; try (simpl in Hf; lia).
  - by rewrite app_nil_r.
  - simpl in Hf. cbn [fmap list_fmap concat]. rewrite <- app_assoc, encode_part_header.
    change (concat (list_fmap _ _ _ ps)) with (concat (encode_part <$> ps)).
    set (rest := concat (encode_part <$> ps) ++ final_line) in *.
    cbn [consecutive] in Hc. destruct Hc as [Hi Hc].
    assert (Hfo : follows done (index p) = true).
    { unfold follows. pose proof (ok_index p Hp). destruct (last done) as [q|]; [|done]. simpl in Hi.
      rewrite Hi, Z.eqb_refl, andb_true_r. apply negb_true_iff, Z.eqb_neq. lia. }
    assert (IH' := IH (done ++ [p]) fuel). rewrite last_snoc, <- app_assoc in IH'. simpl in IH'.
    rewrite <- (IH' Hc) by lia. subst rest.
    change (decode_parts ?b (S fuel) ?r done) with
      (match decode_part (header_text p ++ CRLF ++ CRLF ++ payload p ++ CRLF
                          ++ concat (encode_part <$> ps) ++ final_line) done with
       | inr e => inr e
       | inl (parts', rest') => decode_parts (str "--" ++ kBoundary) fuel rest' parts'
       end).
    by rewrite decode_part_encoded.
Qed.

Lemma fold_left_concat {A} (g : A → bytes) l b : fold_left (λ s x, s ++ g x) l b = b ++ concat (g <$> l).
Proof.
  revert b. induction l as [|x l IH]; intros b; [by rewrite app_nil_r|]. cbn. by rewrite IH, <- app_assoc.
Qed.

Lemma encodeBatch_ok ps :
  Forall part_ok ps → encodeBatch ps = inl (concat (encode_part <$> ps) ++ final_line).
Proof.
  intros Hok. unfold encodeBatch. rewrite fold_left_concat.
  replace (existsb _ ps) with false; [done|]. symmetry. clear -Hok.
  induction Hok as [|p ps Hp _ IH]; [done|]. simpl. rewrite IH. by destruct Hp as [_ _ -> ->].
Qed.

Lemma length_parts ps : (length ps ≤ length (concat (encode_part <$> ps)))%nat.
Proof.
  induction ps as [|p ps IH]; [done|]. cbn [fmap list_fmap concat length].
  rewrite length_app. assert (0 < length (encode_part p))%nat by (unfold encode_part; cbn; lia).
  change (list_fmap _ _ _ ps) with (encode_part <$> ps). lia.
Qed.

(** C13: A batch of one or more notifications, with consecutive indices and with topics
    and services that hold no line break, is encoded, and what it is encoded to is
    decoded to the notifications it was made of; the payloads are any bytes, boundary
    lines included.  Indices and sizes are 64-bit integers. *)
Theorem batch_roundtrip ps :
  ps ≠ [] → Forall part_ok ps → consecutive None ps →
  ∃ body, encodeBatch ps = inl body ∧ decodeBatch body = inl ps.
Proof.
  intros Hne Hok Hc. eexists. split; [by apply encodeBatch_ok|].
  destruct ps as [|p ps]; [done|].
  assert (Hbody : ∃ t, concat (encode_part <$> p :: ps) ++ final_line = (str "--" ++ kBoundary) ++ CRLF ++ t).
  { cbn [fmap list_fmap concat]. eexists. unfold encode_part at 1. rewrite <- !app_assoc. reflexivity. }
  unfold decodeBatch. destruct Hbody as [t Ht]. rewrite Ht, find_sub_line by done.
  rewrite <- app_assoc, starts_with_app. cbn [negb]. rewrite app_assoc, take_app_length, <- Ht.
  cbn -[decode_parts encode_part final_line]. change (list_fmap _ _ _ ps) with (encode_part <$> ps).
  pose proof (length_parts (p :: ps)) as Hlen. cbn [fmap list_fmap concat] in Hlen.
  apply (decode_parts_encoded (p :: ps) []); [done..|].
  rewrite length_app. change (length final_line) with 45%nat. lia.
Qed.

Lemma batch_roundtrip_witness :
  let ps := [mkpart 18446744073709551614 (str "/a?ctx=1") (str "/a") (str "--" ++ kBoundary ++ str "--" ++ CRLF);
             mkpart 18446744073709551615 (str "/a") (str "/a") []] in
  ∃ body, encodeBatch ps = inl body ∧ decodeBatch body = inl ps.
Proof.
  intros ps. apply (batch_roundtrip ps); [done| |by split_and!].
  by repeat (constructor; [by constructor|]).
Defined.

(** ** What the decoder lets through *)

Lemma last_app_consecutive ps p :
  consecutive None ps → follows ps (index p) = true → consecutive None (ps ++ [p]).
Proof.
  destruct ps as [|q ps]; [done|]. cbn [consecutive app]. intros [_ H] Hf. split; [done|].
  revert q H Hf. induction ps as [|r ps IH]; intros q H Hf.
  - unfold follows in Hf. cbn in *. split; [|done]. apply andb_true_iff in Hf as [_ Hf]. by apply Z.eqb_eq.
  - cbn in *. destruct H as [Hr H]. split; [done|]. by apply IH.
Qed.

Lemma decode_part_consecutive rest parts parts' rest' :
  consecutive None parts → decode_part rest parts = inl (parts', rest') →
  consecutive None parts' ∧ ∃ p, parts' = parts ++ [p].
Proof.
  intros Hc. unfold decode_part.
  destruct (find_sub rest _) as [he|]; [|done]. destruct (read_headers _ _ _ _) as [[[i|] [n|] [t|] [s|]]|]; try done.
  destruct (n >? _); [done|]. destruct (follows parts i) eqn:Hf; [|done]. cbn [negb].
  destruct (starts_with _ _); [|done]. intros H. simplify_eq. split; [|by eexists].
  by apply last_app_consecutive.
Qed.

Lemma decode_parts_consecutive b fuel rest parts ps :
  consecutive None parts → decode_parts b fuel rest parts = inl ps → consecutive None ps.
Proof.
  revert rest parts. induction fuel as [|fuel IH]; intros [|c rest] parts Hc; try done.
  cbn [decode_parts]. destruct (starts_with _ _).
  - destruct (drop _ _); [|done]. by intros [= <-].
  - destruct (starts_with _ _); [|done]. cbn [negb].
    destruct (decode_part _ parts) as [[parts' rest']|] eqn:E; [|done].
    apply decode_part_consecutive in E as [Hc' _]; [|done]. by apply IH.
Qed.

(** Whatever text arrives, the parts the decoder returns have consecutive
    indices: no notification of the batch is missing, repeated or out of
    order. *)
Theorem decode_consecutive body ps : decodeBatch body = inl ps → consecutive None ps.
Proof.
  unfold decodeBatch. destruct (find_sub body CRLF); [|done].
  destruct (starts_with body (str "--")); [|done]. cbn [negb]. destruct (_ || _); [done|].
  by apply decode_parts_consecutive.
Qed.

Lemma decode_consecutive_witness :
  let p := mkpart 3 (str "/a") (str "/a") (str "x") in
  match encodeBatch [p] with inl body => decodeBatch body = inl [p] ∧ consecutive None [p] | inr _ => False end.
Proof.
  intros p. destruct (encodeBatch [p]) as [body|] eqn:E; [|by vm_compute in E].
  assert (H : decodeBatch body = inl [p]).
  { vm_compute in E. injection E as <-. vm_compute. reflexivity. }
  split; [done|]. by apply (decode_consecutive body).
Defined.

(** The encoder makes a body of no parts that the decoder refuses. *)
Lemma empty_batch_refused :
  match encodeBatch [] with inl body => decodeBatch body = inr IncompleteHeaders | inr _ => False end.
Proof. vm_compute. reflexivity. Qed.

