(* ===== verification/Rbac.v ===== *)
(** * Rbac: [majordomo/Rbac.hpp]

    The roles and the token [RBAC=<role>,<hash>] a message carries. *)

From S2P Require Import Prelude.
Local Open Scope char_scope.

Inductive Permission : Type := RW | RO | WO | NONE.

#[export] Instance Permission_eq_dec : EqDecision Permission.
Proof. solve_decision. Defined.

(** [Role<roleName, accessRights>] *)
Record Role : Type := mkrole { name : bytes; rights : Permission }.

#[export] Instance Role_eq_dec : EqDecision Role.
Proof. solve_decision. Defined.

Definition ADMIN : Role := mkrole (str "ADMIN") RW.
Definition ANY : Role := mkrole (str "ANY") RW.
Definition ANY_RO : Role := mkrole (str "ANY") RO.
Definition NONE_role : Role := mkrole (str "NONE") NONE.

Definition RBAC_PREFIX : bytes := str "RBAC=".

Definition role (token : bytes) : bytes :=
  if negb (starts_with token RBAC_PREFIX) then []
  else
    let t := drop (length RBAC_PREFIX) token in
    match find_if (eqc ",") t with
    | None => []
    | Some commaPos => take commaPos t
    end.

Definition hash (token : bytes) : bytes :=
  if negb (starts_with token RBAC_PREFIX) then []
  else
    match find_if (eqc ",") token with
    | None => []
    | Some commaPos => drop (commaPos + 1) token
    end.

Definition roleAndHash (token : bytes) : bytes * bytes :=
  if negb (starts_with token RBAC_PREFIX) then ([], [])
  else
    let t := drop (length RBAC_PREFIX) token in
    match find_if (eqc ",") t with
    | None => ([], [])
    | Some commaPos => (take commaPos t, drop (commaPos + 1) t)
    end.

(** The three readers agree on every token, and read back the token made of a
    role without comma and any hash. *)
Theorem rbac_readers_agree token :
  roleAndHash token = (role token, hash token)
  ∧ ∀ r h, Forall (λ c, eqc "," c = false) r →
      role (RBAC_PREFIX ++ r ++ "," :: h) = r ∧ hash (RBAC_PREFIX ++ r ++ "," :: h) = h.
Proof.
  split.
  - unfold roleAndHash, role, hash. destruct (starts_with token RBAC_PREFIX) eqn:Hs; [|done]. simpl.
    apply starts_with_true in Hs. remember (drop (length RBAC_PREFIX) token) as t eqn:Ht. subst token.
    clear Ht. rewrite find_if_app_r by (by repeat constructor).
    change (drop 5 (RBAC_PREFIX ++ t)) with t. destruct (find_if (eqc ",") t) as [i|]; [|done]. reflexivity.
  - intros r h Hr. unfold role, hash. rewrite starts_with_app. cbn [negb].
    rewrite drop_app_length, find_if_stop by done. rewrite take_app_length. split; [done|].
    rewrite app_assoc, find_if_stop; [|apply Forall_app; split; [by repeat constructor|done]|done].
    rewrite <- drop_drop, drop_app_length. done.
Qed.

(** ** Roles and rights, without the readers *)

(** The role a token names: what stands between the prefix and the first comma, and
    nothing in a token of any other form. *)
Inductive role_of : bytes → bytes → Prop :=
  | role_given r h : ","%char ∉ r → role_of (str "RBAC=" ++ r ++ "," :: h) r
  | role_absent t : (∀ r h, t ≠ str "RBAC=" ++ r ++ "," :: h) → role_of t [].

(** The right a list of roles gives: that of the first role of the name, and of the
    last role of the list where the name is not listed. *)
Inductive right_of : list Role → bytes → Permission → Prop :=
  | right_listed pre r p post : r ∉ map name pre → right_of (pre ++ mkrole r p :: post) r p
  | right_unlisted pre x r : r ∉ map name (pre ++ [x]) → right_of (pre ++ [x]) r (rights x).

Lemma find_if_at c s n : find_if (eqc c) s = Some n → s = take n s ++ c :: drop (n + 1) s ∧ c ∉ take n s.
Proof.
  revert n. induction s as [|d s IH]; intros n; simpl; [done|]. destruct (eqc c d) eqn:E.
  - apply eqc_true in E as <-. intros [= <-]. split; [done|]. apply not_elem_of_nil.
  - destruct (find_if (eqc c) s) as [k|]; simpl; [|done]. intros [= <-]. destruct (IH k eq_refl) as [H1 H2]. simpl.
    split; [by rewrite H1 at 1|]. apply eqc_false in E. rewrite not_elem_of_cons. done.
Qed.

Lemma eqc_absent c s : find_if (eqc c) s = None → c ∉ s.
Proof.
  induction s as [|d s IH]; simpl; [intros _; apply not_elem_of_nil|]. destruct (eqc c d) eqn:E; [done|].
  destruct (find_if (eqc c) s); simpl; [done|]. intros _. apply eqc_false in E. rewrite not_elem_of_cons. auto.
Qed.

Lemma role_spec t r : role_of t r ↔ r = role t.
Proof.
  split.
  - intros [r' h Hr|t' Ht].
    + symmetry. apply rbac_readers_agree; [exact t|]. apply Forall_forall. intros c Hc. apply eqc_false. by intros <-.
    + unfold role. destruct (starts_with t' RBAC_PREFIX) eqn:Hs; [|done]. cbn [negb].
      destruct (find_if _ _) as [n|] eqn:Hn; [|done]. apply find_if_at in Hn as [Hn _].
      apply starts_with_true in Hs. rewrite Hn in Hs. by apply Ht in Hs.
  - intros ->. unfold role. destruct (starts_with t RBAC_PREFIX) eqn:Hs; cbn [negb].
    + apply starts_with_true in Hs. destruct (find_if _ _) as [n|] eqn:Hn.
      * apply find_if_at in Hn as [Hn Hc]. rewrite Hs, Hn at 1. by constructor.
      * constructor. intros r h ->. apply eqc_absent in Hn. apply Hn. apply elem_of_app. right. by left.
    + constructor. intros r h ->. change (str "RBAC=") with RBAC_PREFIX in Hs. by rewrite starts_with_app in Hs.
Qed.

Definition right_in (l : list Role) (r : bytes) : option Permission :=
  match find (λ x, bool_decide (name x = r)) l with Some x => Some (rights x) | None => rights <$> last l end.

Lemma role_found (l : list Role) r x :
  find (λ x, bool_decide (name x = r)) l = Some x → ∃ pre post, l = pre ++ x :: post ∧ (r ∉ map name pre) ∧ name x = r.
Proof.
  induction l as [|y l IH]; simpl; [done|]. case_bool_decide as Hy.
  - intros [= <-]. exists [], l. split; [done|]. split; [apply not_elem_of_nil|done].
  - intros (pre & post & -> & Hn & Hx)%IH. exists (y :: pre), post. split; [done|]. split; [|done].
    simpl. rewrite not_elem_of_cons. auto.
Qed.

Lemma find_none (l : list Role) r : find (λ x, bool_decide (name x = r)) l = None → r ∉ map name l.
Proof.
  induction l as [|y l IH]; simpl; [intros _; apply not_elem_of_nil|]. case_bool_decide; [done|].
  intros H1%IH. rewrite not_elem_of_cons. auto.
Qed.

Lemma find_skip (pre l : list Role) r :
  r ∉ map name pre → find (λ x, bool_decide (name x = r)) (pre ++ l) = find (λ x, bool_decide (name x = r)) l.
Proof.
  induction pre as [|y pre IH]; simpl; [done|]. rewrite not_elem_of_cons. intros [H1 H2].
  rewrite bool_decide_false by congruence. auto.
Qed.

Lemma right_spec l r p : right_of l r p ↔ right_in l r = Some p.
Proof.
  split.
  - intros [pre r' p' post Hn|pre x r' Hn]; unfold right_in.
    + rewrite find_skip by done. simpl. by rewrite bool_decide_true.
    + pose proof (find_skip (pre ++ [x]) [] r' Hn) as E. rewrite app_nil_r in E. rewrite E. simpl. by rewrite last_snoc.
  - unfold right_in. destruct (find _ l) as [x|] eqn:E.
    + apply role_found in E as (pre & post & -> & Hn & <-). intros [= <-]. destruct x. by constructor.
    + apply find_none in E. destruct l as [|x l _] using rev_ind; [done|]. rewrite last_snoc. intros [= <-]. by constructor.
Qed.
