(* ===== verification/Service.v ===== *)
(** * Service: the request queues of a service, [Broker::Service] in
    [majordomo/Broker.hpp]

    A queue per role of the broker, in the order of their priority, and the
    workers that wait for a request. *)

From S2P Require Import Prelude Rbac Uri Message.

Abbreviation BrokerMessage := (message WithSourceId).

(** The handlers of the internal services; the only callers of
    [addInternalService]. *)
Inductive internal : Type := MmiDns | MmiEcho | MmiService | MmiOpenapi.

#[export] Instance internal_eq_dec : EqDecision internal.
Proof. solve_decision. Defined.

(** [waiting] holds pointers to workers: their addresses. *)
Record service : Type := mkservice {
  internalHandler : option internal;
  s_name : bytes;
  description : bytes;
  waiting : list nat;
  requestsByPriority : list (bytes * list BrokerMessage);
  requestCount : nat
}.

Definition makePriorityQueue (roles : list bytes) : list (bytes * list BrokerMessage) :=
  match roles with
  | [] => [([], [])]
  | _ => (λ r, (r, [])) <$> roles
  end.

(** The constructors. *)
Definition new_service (roles : list bytes) (nm desc : bytes) : service :=
  mkservice None nm desc [] (makePriorityQueue roles) 0.

Definition new_internal (roles : list bytes) (nm : bytes) (h : internal) : service :=
  mkservice (Some h) nm [] [] (makePriorityQueue roles) 0.

(** [queueForRole(role).emplace_back(message)]: the first queue of the role,
    or the last queue. *)
Fixpoint emplace_for_role (r : bytes) (m : BrokerMessage) (qs : list (bytes * list BrokerMessage))
    : list (bytes * list BrokerMessage) :=
  match qs with
  | [] => []
  | [(n, q)] => [(n, q ++ [m])]
  | (n, q) :: qs' => if bool_decide (n = r) then (n, q ++ [m]) :: qs' else (n, q) :: emplace_for_role r m qs'
  end.

Definition putMessage (m : BrokerMessage) (s : service) : service :=
  mkservice (internalHandler s) (s_name s) (description s) (waiting s)
    (emplace_for_role (role (rbac m)) m (requestsByPriority s)) (S (requestCount s)).

(** The first message of the first queue that has one. *)
Fixpoint take_first (qs : list (bytes * list BrokerMessage))
    : option (BrokerMessage * list (bytes * list BrokerMessage)) :=
  match qs with
  | [] => None
  | (n, m :: q) :: qs' => Some (m, (n, q) :: qs')
  | (n, []) :: qs' => '(m, qs'') ← take_first qs'; Some (m, (n, []) :: qs'')
  end.

(** [None]: no queue has a message, which the code takes for impossible. *)
Definition takeNextMessage (s : service) : option (BrokerMessage * service) :=
  '(m, qs) ← take_first (requestsByPriority s);
  Some (m, mkservice (internalHandler s) (s_name s) (description s) (waiting s) qs (pred (requestCount s))).

Definition takeNextWorker (s : service) : option (nat * service) :=
  match waiting s with
  | [] => None
  | w :: ws => Some (w, mkservice (internalHandler s) (s_name s) (description s) ws (requestsByPriority s)
                          (requestCount s))
  end.

Definition set_waiting (ws : list nat) (s : service) : service :=
  mkservice (internalHandler s) (s_name s) (description s) ws (requestsByPriority s) (requestCount s).

(** ** The queue as its users see it

    The requests in the order in which they will be taken. *)

Definition pending (s : service) : list BrokerMessage := concat (snd <$> requestsByPriority s).

(** The counter is the number of requests, and there is a queue. *)
Record service_ok (s : service) : Prop := {
  so_count : requestCount s = length (pending s);
  so_queues : requestsByPriority s ≠ []
}.

(** The place of a role among the queues. *)
Fixpoint priority (qs : list bytes) (r : bytes) : nat :=
  match qs with
  | [] | [_] => 0
  | n :: qs' => if bool_decide (n = r) then 0 else S (priority qs' r)
  end.

Definition roles_of (s : service) : list bytes := fst <$> requestsByPriority s.

Lemma emplace_cons r m n q x qs :
  emplace_for_role r m ((n, q) :: x :: qs)
  = if bool_decide (n = r) then (n, q ++ [m]) :: x :: qs else (n, q) :: emplace_for_role r m (x :: qs).
Proof. reflexivity. Qed.

Lemma priority_cons n x qs r :
  priority (n :: x :: qs) r = if bool_decide (n = r) then 0 else S (priority (x :: qs) r).
Proof. reflexivity. Qed.

Lemma emplace_names r m qs : fst <$> emplace_for_role r m qs = fst <$> qs.
Proof.
  induction qs as [|[n q] qs IH]; [done|]. destruct qs as [|x qs]; [done|].
  rewrite emplace_cons. case_bool_decide; [done|]. rewrite !(fmap_cons fst (n, q)). f_equal. apply IH.
Qed.

(** Where the queue of a role is split: before it the more urgent requests,
    in it the earlier ones of its own. *)
Lemma emplace_split r m qs :
  qs ≠ [] →
  ∃ qs1 n q qs2, qs = qs1 ++ (n, q) :: qs2 ∧ emplace_for_role r m qs = qs1 ++ (n, q ++ [m]) :: qs2
    ∧ length qs1 = priority (fst <$> qs) r.
Proof.
  induction qs as [|[n q] qs IH]; [done|]. intros _. destruct qs as [|x qs].
  - by exists [], n, q, [].
  - rewrite emplace_cons, !fmap_cons, priority_cons. cbn [fst]. case_bool_decide.
    + by exists [], n, q, (x :: qs).
    + destruct (IH ltac:(done)) as (qs1 & n' & q' & qs2 & Hq & He & Hl).
      exists ((n, q) :: qs1), n', q', qs2. rewrite He, Hq. rewrite fmap_cons in Hl. cbn [app length].
      by rewrite Hl.
Qed.

Lemma take_first_spec qs :
  match take_first qs with
  | None => concat (snd <$> qs) = []
  | Some (m, qs') => concat (snd <$> qs) = m :: concat (snd <$> qs') ∧ fst <$> qs' = fst <$> qs
  end.
Proof.
  induction qs as [|[n [|m q]] qs IH]; [done| |done]. cbn [take_first].
  destruct (take_first qs) as [[m qs']|]; [|done]. cbn. destruct IH as [-> ->]. done.
Qed.

Lemma new_service_ok roles nm desc : service_ok (new_service roles nm desc).
Proof.
  assert (H : concat (snd <$> makePriorityQueue roles) = []).
  { destruct roles as [|r roles]; [done|]. unfold makePriorityQueue.
    generalize (r :: roles). induction l as [|x l IH]; [done|]. by simpl. }
  split; [unfold pending; simpl; by rewrite H|]. by destruct roles.
Qed.

Lemma new_internal_ok roles nm h : service_ok (new_internal roles nm h).
Proof. destruct (new_service_ok roles nm []) as [H1 H2]. by split. Qed.

Lemma putMessage_ok m s : service_ok s → service_ok (putMessage m s).
Proof.
  intros [Hc Hq]. destruct (emplace_split (role (rbac m)) m _ Hq) as (qs1 & n & q & qs2 & He & He' & _).
  split; unfold pending in *; simpl; rewrite He'; [|by destruct qs1].
  rewrite Hc, He, !fmap_app, !concat_app. simpl. rewrite !length_app. simpl. lia.
Qed.

Lemma takeNextMessage_ok m s s' : service_ok s → takeNextMessage s = Some (m, s') → service_ok s'.
Proof.
  intros [Hc Hq]. unfold takeNextMessage. pose proof (take_first_spec (requestsByPriority s)) as H.
  destruct (take_first _) as [[m' qs]|]; [|done]. destruct H as [H1 H2]. simpl. intros [= -> <-].
  unfold pending in *. split; simpl; [by rewrite Hc, H1|]. intros ->. by destruct (requestsByPriority s).
Qed.

Lemma takeNextMessage_total s : service_ok s → 0 < requestCount s → is_Some (takeNextMessage s).
Proof.
  intros [Hc _] Hp. unfold takeNextMessage. pose proof (take_first_spec (requestsByPriority s)) as H.
  destruct (take_first _) as [[m qs]|]; [by eexists|]. unfold pending in Hc. rewrite Hc, H in Hp. simpl in Hp. lia.
Qed.

(** A put request comes after all requests of the roles before its own and
    after the earlier ones of its own role, and before those of the roles
    after it.  [takeNextMessage] takes the first of them all; it finds one
    whenever the counter is positive. *)
Theorem service_queue m s :
  service_ok s →
  (∃ l1 l2, pending s = l1 ++ l2 ∧ pending (putMessage m s) = l1 ++ m :: l2
    ∧ l1 = concat (snd <$> take (S (priority (roles_of s) (role (rbac m)))) (requestsByPriority s)))
  ∧ service_ok (putMessage m s) ∧ roles_of (putMessage m s) = roles_of s
  ∧ match takeNextMessage s with
    | Some (x, s') => pending s = x :: pending s' ∧ service_ok s' ∧ roles_of s' = roles_of s
    | None => requestCount s = 0 ∧ pending s = []
    end.
Proof.
  intros Hok. pose proof Hok as [Hc Hq]. split_and!; [| by apply putMessage_ok | apply emplace_names | ].
  - destruct (emplace_split (role (rbac m)) m _ Hq) as (qs1 & n & q & qs2 & He & He' & Hl).
    exists (concat (snd <$> qs1) ++ q), (concat (snd <$> qs2)). unfold pending, roles_of. simpl.
    rewrite <- Hl, He', He, !fmap_app, !concat_app. simpl. rewrite <- !app_assoc. split_and!; [done..|].
    rewrite take_app_ge by lia. replace (S (length qs1) - length qs1) with 1 by lia. cbn [take].
    rewrite take_0, fmap_app, concat_app. simpl. by rewrite app_nil_r.
  - pose proof (takeNextMessage_ok) as Hto. unfold takeNextMessage in *.
    pose proof (take_first_spec (requestsByPriority s)) as H.
    destruct (take_first _) as [[x qs]|] eqn:E; simpl in *.
    + destruct H as [H1 H2]. split_and!; [done| |done]. apply (Hto x s); [done|]. by rewrite E.
    + unfold pending in *. by rewrite Hc, H.
Qed.

Definition sample_request (r b : bytes) : BrokerMessage :=
  @mkmsg WithSourceId (str "c") 0 0 10000 clientProtocol Get (str "/s") [] (mkuri [] [] [] [] [] []) b []
    (RBAC_PREFIX ++ r ++ str ",h").

Lemma service_queue_witness :
  let s0 := new_service [str "ADMIN"; str "ANY"] (str "/s") [] in
  let s1 := putMessage (sample_request (str "ANY") (str "1")) s0 in
  let s2 := putMessage (sample_request (str "ADMIN") (str "2")) s1 in
  service_ok s2 ∧ data <$> pending s2 = [str "2"; str "1"].
Proof.
  intros s0 s1 s2.
  assert (H1 : service_ok s1) by (apply putMessage_ok, new_service_ok).
  destruct (service_queue (sample_request (str "ADMIN") (str "2")) s1 H1) as (_ & H2 & _ & _).
  split; [exact H2|reflexivity].
Defined.
