(* ===== verification/Subscriptions.v ===== *)
(** * Subscriptions: the subscription tables of [majordomo/Broker.hpp]

    The number of subscriptions of each topic, the clients subscribed to it,
    and the filters the broker's own SUB socket has.  The messages a
    notification is sent in follow from them. *)

From stdpp Require Import sorting.
From S2P Require Import Prelude TimingCtx Uri Topic Message Matching Rbac Service.
Local Open Scope Z_scope.

#[export] Instance topic_countable : Countable Topic.t.
Proof.
  refine (inj_countable' (λ t, (_service t, _params t)) (λ p, Topic.mk p.1 p.2) _). by intros [].
Defined.

(** What the broker does to the outside. *)
Inductive socket : Type := RouterSocket | PubSocket | SubSocket | DnsSocket.

#[export] Instance socket_eq_dec : EqDecision socket.
Proof. solve_decision. Defined.

Inductive output : Type :=
  | Send (s : socket) (m : BrokerMessage)
  | SendDns (m : message WithoutSourceId)
  | RestResponse (m : BrokerMessage)
  | RestNotification (t : Topic.t) (m : BrokerMessage)
  | ZmqSubscribe (topic : bytes)
  | ZmqUnsubscribe (topic : bytes).

Definition toZmq (t : Topic.t) : bytes := toZmqTopic true t.

Definition kRestSourceId : bytes := str "rest".

Record tables : Type := mktables {
  subscribedClientsByTopic : gmap Topic.t (gset bytes);
  subscribedTopics : gmap Topic.t Z
}.

Definition no_subscriptions : tables := mktables ∅ ∅.

Definition subscribe (t : Topic.t) (s : tables) : tables * list output :=
  let c := default 0 (subscribedTopics s !! t) + 1 in
  (mktables (subscribedClientsByTopic s) (<[t := c]> (subscribedTopics s)),
   if c =? 1 then [ZmqSubscribe (toZmq t)] else []).

Definition unsubscribe (t : Topic.t) (s : tables) : tables * list output :=
  match subscribedTopics s !! t with
  | None => (s, [])
  | Some n =>
      let c := n - 1 in
      if c =? 0 then (mktables (subscribedClientsByTopic s) (delete t (subscribedTopics s)), [ZmqUnsubscribe (toZmq t)])
      else (mktables (subscribedClientsByTopic s) (<[t := c]> (subscribedTopics s)), [])
  end.

(** The [Subscribe] and [Unsubscribe] cases of [receiveMessage] and
    [handleRestMessage], once the topic is parsed. *)
Definition client_subscribe (id : bytes) (t : Topic.t) (s : tables) : tables * list output :=
  let '(s1, o) := subscribe t s in
  (mktables (<[t := default ∅ (subscribedClientsByTopic s1 !! t) ∪ {[id]}]> (subscribedClientsByTopic s1))
     (subscribedTopics s1), o).

Definition client_unsubscribe (id : bytes) (t : Topic.t) (s : tables) : tables * list output :=
  let '(s1, o) := unsubscribe t s in
  match subscribedClientsByTopic s1 !! t with
  | None => (s1, o)
  | Some ids =>
      let ids' := ids ∖ {[id]} in
      (mktables (if bool_decide (ids' = ∅) then delete t (subscribedClientsByTopic s1)
                 else <[t := ids']> (subscribedClientsByTopic s1))
         (subscribedTopics s1), o)
  end.

(** The order of a [std::set] of strings. *)
Definition id_le (x y : bytes) : Prop := bytes_le x y = true.

#[export] Instance id_le_dec x y : Decision (id_le x y).
Proof. unfold id_le. apply _. Defined.

Definition in_set_order (ids : gset bytes) : list bytes := merge_sort id_le (elements ids).

Section pub.
Context (uninit : Z).

(** [receivePubMessage], on the frame that was received. *)
Definition receivePubMessage (data : bytes) (s : tables) : bool * tables * list output :=
  match data with
  | c :: _ :: _ =>
      if negb (eqc c (chr 0) || eqc c (chr 1)) then (false, s, [])
      else match fromZmqTopic uninit (drop 1 data) with
           | Throw _ => (false, s, [])
           | Ok topic => let '(s', o) := if eqc c (chr 1) then subscribe topic s else unsubscribe topic s in
                         (true, s', o)
           end
  | _ => (false, s, [])
  end.

(** [dispatchMessageToMatchingSubscribers]; [topics] and [clients] are the
    orders in which the tables are walked. *)
Definition set_source (id : bytes) (m : BrokerMessage) : BrokerMessage :=
  @mkmsg WithSourceId id (Message.id m) (arrivalTime m) (timeout m) (protocolName m) (command m) (serviceName m)
    (clientRequestID m) (topic m) (data m) (error m) (rbac m).

Context (hasRest : bool) (matcher : Matching.matcher).

Definition to_client (m : BrokerMessage) (t : Topic.t) (id : bytes) : list output :=
  if bool_decide (id = kRestSourceId)
  then if hasRest then [RestNotification t m] else []
  else [Send RouterSocket (set_source id m)].

Definition to_topic (m : BrokerMessage) (notification : Topic.t) (s : tables) (t : Topic.t) : list output :=
  if match_topics matcher notification t
  then Send PubSocket (set_source (toZmq t) m)
       :: match subscribedClientsByTopic s !! t with
          | None => []
          | Some ids => concat (to_client m t <$> in_set_order ids)
          end
  else [].

Definition dispatchMessageToMatchingSubscribers (topics : list Topic.t) (m : BrokerMessage) (s : tables) : list output :=
  match fromMdpTopic uninit STRICT (topic m) with
  | Throw _ => []
  | Ok notification => concat (to_topic m notification s <$> topics)
  end.
End pub.

(** ** Invariant: counts and filters

    [filters z] is the number of times the SUB socket was told to subscribe to
    [z] less the number of times it was told to unsubscribe. *)

Definition output_filter (z : bytes) (o : output) : Z :=
  match o with
  | ZmqSubscribe z' => if bool_decide (z' = z) then 1 else 0
  | ZmqUnsubscribe z' => if bool_decide (z' = z) then -1 else 0
  | _ => 0
  end.

Fixpoint filters (z : bytes) (outs : list output) : Z :=
  match outs with
  | [] => 0
  | o :: outs' => output_filter z o + filters z outs'
  end.

Lemma filters_app z o1 o2 : filters z (o1 ++ o2) = filters z o1 + filters z o2.
Proof. induction o1 as [|o o1 IH]; simpl; [done|]. rewrite IH. lia. Qed.

Inductive event : Type :=
  | Subscribed (t : Topic.t)                       (* on the publisher socket *)
  | Unsubscribed (t : Topic.t)
  | ClientSubscribed (id : bytes) (t : Topic.t)
  | ClientUnsubscribed (id : bytes) (t : Topic.t).

Definition handle (e : event) (s : tables) : tables * list output :=
  match e with
  | Subscribed t => subscribe t s
  | Unsubscribed t => unsubscribe t s
  | ClientSubscribed id t => client_subscribe id t s
  | ClientUnsubscribed id t => client_unsubscribe id t s
  end.

Fixpoint handle_all (es : list event) (s : tables) : tables * list output :=
  match es with
  | [] => (s, [])
  | e :: es' => let '(s1, o1) := handle e s in
                let '(s2, o2) := handle_all es' s1 in (s2, o1 ++ o2)
  end.

(** The counted topics that have [z] as the text of their filter. *)
Definition topics_of (z : bytes) (s : tables) : Z :=
  Z.of_nat (size (filter (λ t, toZmq t = z) (dom (subscribedTopics s)))).

Definition counts_positive (s : tables) : Prop := map_Forall (λ _ n, 1 ≤ n) (subscribedTopics s).

Lemma size_filter_insert (P : Topic.t → Prop) `{!∀ x, Decision (P x)} t (X : gset Topic.t) :
  t ∉ X → Z.of_nat (size (filter P ({[t]} ∪ X))) = Z.of_nat (size (filter P X)) + (if decide (P t) then 1 else 0).
Proof.
  intros Ht. destruct (decide (P t)) as [HP|HP].
  - replace (filter P ({[t]} ∪ X)) with ({[t]} ∪ filter P X) by set_solver.
    rewrite size_union by set_solver. rewrite size_singleton. lia.
  - replace (filter P ({[t]} ∪ X)) with (filter P X) by set_solver. lia.
Qed.

Lemma topics_of_insert z t n s cs :
  subscribedTopics s !! t = None →
  topics_of z (mktables cs (<[t := n]> (subscribedTopics s)))
  = topics_of z s + (if bool_decide (toZmq t = z) then 1 else 0).
Proof.
  intros Ht. unfold topics_of. simpl. rewrite dom_insert_L, size_filter_insert by (by apply not_elem_of_dom).
  f_equal. by case_decide; case_bool_decide.
Qed.

Lemma topics_of_update z t n k s cs :
  subscribedTopics s !! t = Some k →
  topics_of z (mktables cs (<[t := n]> (subscribedTopics s))) = topics_of z s.
Proof.
  intros Ht. unfold topics_of. simpl. rewrite dom_insert_L.
  apply elem_of_dom_2 in Ht. by replace ({[t]} ∪ dom (subscribedTopics s)) with (dom (subscribedTopics s)) by set_solver.
Qed.

Lemma topics_of_delete z t k s cs :
  subscribedTopics s !! t = Some k →
  topics_of z (mktables cs (delete t (subscribedTopics s)))
  = topics_of z s - (if bool_decide (toZmq t = z) then 1 else 0).
Proof.
  intros Ht.
  pose proof (topics_of_insert z t k (mktables cs (delete t (subscribedTopics s))) cs) as H. simpl in H.
  rewrite lookup_delete_eq, insert_delete_eq, insert_id in H by done.
  specialize (H eq_refl). unfold topics_of in *. simpl in *. lia.
Qed.

(** What one event does to the filters and to the counts. *)
Definition in_sync_step (s : tables) (r : tables * list output) : Prop :=
  counts_positive r.1 ∧ ∀ z, filters z r.2 = topics_of z r.1 - topics_of z s.

Lemma subscribe_sync t s : counts_positive s → in_sync_step s (subscribe t s).
Proof.
  intros Hp. unfold subscribe, in_sync_step. simpl.
  destruct (subscribedTopics s !! t) as [n|] eqn:Ht; simpl.
  - assert (1 ≤ n) by (by apply (Hp t n)). split; [apply map_Forall_insert_2; [lia|done]|].
    intros z. rewrite (topics_of_update _ _ _ n) by done. rewrite (proj2 (Z.eqb_neq _ _)) by lia. simpl. lia.
  - split; [apply map_Forall_insert_2; [lia|done]|]. intros z. rewrite topics_of_insert by done. simpl. lia.
Qed.

Lemma unsubscribe_sync t s : counts_positive s → in_sync_step s (unsubscribe t s).
Proof.
  intros Hp. unfold unsubscribe, in_sync_step.
  destruct (subscribedTopics s !! t) as [n|] eqn:Ht; [|split; [done|intros z; simpl; lia]].
  assert (1 ≤ n) by (by apply (Hp t n)).
  destruct (Z.eqb_spec (n - 1) 0); simpl.
  - split; [by apply map_Forall_delete|]. intros z. rewrite (topics_of_delete _ _ n) by done.
    simpl. case_bool_decide; lia.
  - split; [apply map_Forall_insert_2; [lia|done]|]. intros z. rewrite (topics_of_update _ _ _ n) by done. lia.
Qed.

Lemma in_sync_clients s r cs :
  in_sync_step s r → in_sync_step s (mktables cs (subscribedTopics r.1), r.2).
Proof. done. Qed.

Lemma handle_sync e s : counts_positive s → in_sync_step s (handle e s).
Proof.
  intros Hp. destruct e; simpl; [by apply subscribe_sync|by apply unsubscribe_sync| |].
  - unfold client_subscribe. destruct (subscribe t s) as [s1 o] eqn:E.
    apply (in_sync_clients s (s1, o)). rewrite <- E. by apply subscribe_sync.
  - unfold client_unsubscribe. destruct (unsubscribe t s) as [s1 o] eqn:E.
    destruct (subscribedClientsByTopic s1 !! t); [apply (in_sync_clients s (s1, o))|];
      rewrite <- E; by apply unsubscribe_sync.
Qed.

Lemma handle_all_sync es s : counts_positive s → in_sync_step s (handle_all es s).
Proof.
  revert s. induction es as [|e es IH]; intros s Hp; [split; [done|intros z; simpl; lia]|].
  cbn [handle_all]. pose proof (handle_sync e s Hp) as H1. destruct (handle e s) as [s1 o1].
  destruct H1 as [Hp1 H1]. specialize (IH s1 Hp1). destruct (handle_all es s1) as [s2 o2].
  destruct IH as [Hp2 H2]. unfold in_sync_step. simpl in *. split; [done|]. intros z. rewrite filters_app, H1, H2. lia.
Qed.

(** After any sequence of subscriptions and cancellations, in any order and
    by anyone: every topic in the table has a positive count, and the SUB
    socket holds a filter for a text exactly as many times as there are
    counted topics with that text. *)
Theorem filters_in_sync es z :
  let '(s, outs) := handle_all es no_subscriptions in
  counts_positive s ∧ filters z outs = topics_of z s ∧ 0 ≤ filters z outs.
Proof.
  pose proof (handle_all_sync es no_subscriptions (map_Forall_empty _)) as H.
  destruct (handle_all es no_subscriptions) as [s outs]. destruct H as [Hp H]. simpl in *.
  assert (H0 : topics_of z no_subscriptions = 0).
  { unfold topics_of. simpl. rewrite dom_empty_L.
    by replace (filter (λ t, toZmq t = z) (∅ : gset Topic.t)) with (∅ : gset Topic.t) by set_solver. }
  rewrite H, H0. split_and!; [done|lia|unfold topics_of; lia].
Qed.

(** ** Who receives a notification

    A history in which everyone subscribes only what he does not have and
    cancels only what he has; [holders] is who has what.  A subscriber on the
    publisher socket is known by a number the broker does not see. *)

Inductive source : Type := PubSource (k : nat) | ClientSource (id : bytes).

#[export] Instance source_eq_dec : EqDecision source.
Proof. solve_decision. Defined.

#[export] Instance source_countable : Countable source.
Proof.
  refine (inj_countable' (λ s, match s with PubSource k => inl k | ClientSource i => inr i end)
            (λ x, match x with inl k => PubSource k | inr i => ClientSource i end) _). by intros [].
Defined.

Definition event_of (src : source) (sub : bool) (t : Topic.t) : event :=
  match src, sub with
  | PubSource _, true => Subscribed t
  | PubSource _, false => Unsubscribed t
  | ClientSource id, true => ClientSubscribed id t
  | ClientSource id, false => ClientUnsubscribed id t
  end.

Abbreviation holdings := (gset (source * Topic.t)).

Inductive history : tables → holdings → Prop :=
  | history_start : history no_subscriptions ∅
  | history_sub s h src t :
      history s h → (src, t) ∉ h → history (handle (event_of src true t) s).1 ({[(src, t)]} ∪ h)
  | history_unsub s h src t :
      history s h → (src, t) ∈ h → history (handle (event_of src false t) s).1 (h ∖ {[(src, t)]}).

Definition holders (t : Topic.t) (h : holdings) : holdings := filter (λ x, x.2 = t) h.

Definition count_of (t : Topic.t) (s : tables) : Z := default 0 (subscribedTopics s !! t).

Definition clients_of (t : Topic.t) (s : tables) : gset bytes := default ∅ (subscribedClientsByTopic s !! t).

Lemma subscribe_count t s t' : count_of t' (subscribe t s).1 = count_of t' s + (if decide (t = t') then 1 else 0).
Proof.
  unfold count_of, subscribe. simpl. rewrite lookup_insert. case_decide; [subst; simpl; lia|lia].
Qed.

Lemma unsubscribe_count t s t' :
  1 ≤ count_of t s → count_of t' (unsubscribe t s).1 = count_of t' s - (if decide (t = t') then 1 else 0).
Proof.
  unfold count_of, unsubscribe. destruct (subscribedTopics s !! t) as [n|] eqn:E; simpl; [|lia]. intros Hn.
  destruct (Z.eqb_spec (n - 1) 0); simpl; [rewrite lookup_delete|rewrite lookup_insert];
    case_decide; subst; rewrite ?E; simpl; lia.
Qed.

Lemma subscribe_clients t s : subscribedClientsByTopic (subscribe t s).1 = subscribedClientsByTopic s.
Proof. done. Qed.

Lemma unsubscribe_clients t s : subscribedClientsByTopic (unsubscribe t s).1 = subscribedClientsByTopic s.
Proof. unfold unsubscribe. destruct (subscribedTopics s !! t); [|done]. by case_match. Qed.

Lemma holders_insert (t : Topic.t) (x : source * Topic.t) (h : holdings) :
  x ∉ h → Z.of_nat (size (holders t ({[x]} ∪ h))) = Z.of_nat (size (holders t h)) + (if decide (x.2 = t) then 1 else 0).
Proof.
  intros Hx. unfold holders. case_decide as Ht.
  - replace (filter (λ x, x.2 = t) ({[x]} ∪ h)) with ({[x]} ∪ filter (λ x, x.2 = t) h) by set_solver.
    rewrite size_union by set_solver. rewrite size_singleton. lia.
  - replace (filter (λ x, x.2 = t) ({[x]} ∪ h)) with (filter (λ x, x.2 = t) h) by set_solver. lia.
Qed.

Lemma holders_remove (t : Topic.t) (x : source * Topic.t) (h : holdings) :
  x ∈ h → Z.of_nat (size (holders t (h ∖ {[x]}))) = Z.of_nat (size (holders t h)) - (if decide (x.2 = t) then 1 else 0).
Proof.
  intros Hx. pose proof (holders_insert t x (h ∖ {[x]}) ltac:(set_solver)) as H.
  replace ({[x]} ∪ h ∖ {[x]}) with h in H; [lia|].
  apply set_eq. intros y. destruct (decide (y = x)); set_solver.
Qed.

Lemma holders_pos (src : source) (t : Topic.t) (h : holdings) : (src, t) ∈ h → (0 < size (holders t h))%nat.
Proof.
  intros Hin. assert (Hs : (size ({[(src, t)]} : holdings) ≤ size (holders t h))%nat).
  { apply subseteq_size, singleton_subseteq_l. unfold holders. by apply elem_of_filter. }
  rewrite size_singleton in Hs. lia.
Qed.

Lemma handle_count src b t s t' :
  (b = false → 1 ≤ count_of t s) →
  count_of t' (handle (event_of src b t) s).1
  = count_of t' s + (if decide (t = t') then if b then 1 else -1 else 0).
Proof.
  intros Hc. destruct src as [k|id], b; simpl.
  - apply subscribe_count.
  - rewrite unsubscribe_count by auto. case_decide; lia.
  - apply subscribe_count.
  - unfold client_unsubscribe. pose proof (unsubscribe_count t s t' (Hc eq_refl)) as H.
    destruct (unsubscribe t s) as [s1 o]. simpl in H.
    transitivity (count_of t' s1); [by destruct (subscribedClientsByTopic s1 !! t)|].
    rewrite H. case_decide; lia.
Qed.

Lemma handle_clients src b t s t' id :
  id ∈ clients_of t' (handle (event_of src b t) s).1 ↔
  if decide ((src, t) = (ClientSource id, t')) then b = true else id ∈ clients_of t' s.
Proof.
  destruct src as [k|i], b; simpl.
  - done.
  - unfold clients_of. by rewrite unsubscribe_clients.
  - unfold clients_of, client_subscribe, subscribe. simpl. rewrite lookup_insert.
    destruct (decide (t = t')) as [<-|]; case_decide; simpl; set_solver.
  - unfold clients_of, client_unsubscribe. pose proof (unsubscribe_clients t s) as H.
    destruct (unsubscribe t s) as [s1 o]. simpl in H. rewrite <- H.
    destruct (subscribedClientsByTopic s1 !! t) as [ids|] eqn:E; simpl.
    + case_bool_decide; [rewrite lookup_delete|rewrite lookup_insert];
        destruct (decide (t = t')) as [<-|]; rewrite ?E; case_decide; simpl; set_solver.
    + case_decide; [|done]. simplify_eq. rewrite E. set_solver.
Qed.

(** The tables are what the holdings say: the count of a topic is the number
    of its holders, its clients are its holders that are clients. *)
Lemma history_tables s h :
  history s h →
  (∀ t, count_of t s = Z.of_nat (size (holders t h)))
  ∧ (∀ t id, id ∈ clients_of t s ↔ (ClientSource id, t) ∈ h).
Proof.
  induction 1 as [|s h src t _ [IHc IHi] Hn|s h src t _ [IHc IHi] Hn].
  - split; [|set_solver]. intros t. unfold holders.
    by replace (filter (λ x, x.2 = t) (∅ : holdings)) with (∅ : holdings) by set_solver.
  - split.
    + intros t'. rewrite handle_count by done. rewrite holders_insert, IHc by done.
      simpl. case_decide; lia.
    + intros t' id. rewrite handle_clients. case_decide; [simplify_eq; set_solver|].
      rewrite IHi. set_solver.
  - split.
    + intros t'. rewrite handle_count.
      * rewrite holders_remove, IHc by done. simpl. case_decide; lia.
      * intros _. rewrite IHc. pose proof (holders_pos src t h Hn). lia.
    + intros t' id. rewrite handle_clients. case_decide; [simplify_eq; set_solver|].
      rewrite IHi. set_solver.
Qed.

Lemma in_set_order_elem id ids : id ∈ in_set_order ids ↔ id ∈ ids.
Proof. unfold in_set_order. by rewrite merge_sort_Permutation, elem_of_elements. Qed.

Section notify.
Context (uninit : Z) (hasRest : bool) (matcher : Matching.matcher).

Lemma to_topic_elem m n s t o :
  o ∈ to_topic hasRest matcher m n s t ↔
  match_topics matcher n t = true
  ∧ (o = Send PubSocket (set_source (toZmq t) m)
     ∨ ∃ id, id ∈ clients_of t s ∧ o ∈ to_client hasRest m t id).
Proof.
  unfold to_topic, clients_of. destruct (match_topics matcher n t).
  2:{ rewrite elem_of_nil. naive_solver. }
  rewrite elem_of_cons. destruct (subscribedClientsByTopic s !! t) as [ids|]; simpl.
  - rewrite list_elem_of_In, in_concat. setoid_rewrite <- list_elem_of_In.
    setoid_rewrite list_elem_of_fmap. setoid_rewrite in_set_order_elem. naive_solver.
  - rewrite elem_of_nil. set_solver.
Qed.

Lemma dispatch_elem topics m n s o :
  fromMdpTopic uninit STRICT (topic m) = Ok n →
  o ∈ dispatchMessageToMatchingSubscribers uninit hasRest matcher topics m s ↔
  ∃ t, t ∈ topics ∧ o ∈ to_topic hasRest matcher m n s t.
Proof.
  intros Hn. unfold dispatchMessageToMatchingSubscribers. rewrite Hn.
  rewrite list_elem_of_In, in_concat. setoid_rewrite <- list_elem_of_In.
  setoid_rewrite list_elem_of_fmap. naive_solver.
Qed.

Lemma in_topics_count s h t src topics :
  history s h → topics ≡ₚ (map_to_list (subscribedTopics s)).*1 → (src, t) ∈ h → t ∈ topics.
Proof.
  intros Hh Hp Hin. destruct (history_tables s h Hh) as [Hc _].
  rewrite Hp. apply list_elem_of_fmap. specialize (Hc t). unfold count_of in Hc.
  destruct (subscribedTopics s !! t) as [k|] eqn:E.
  - exists (t, k). split; [done|]. by apply elem_of_map_to_list.
  - simpl in Hc. pose proof (holders_pos src t h Hin). lia.
Qed.
End notify.


Definition dev_topic : Topic.t := Topic.mk (str "/dev") ∅.

Definition dev_notification : BrokerMessage :=
  @mkmsg WithSourceId (str "worker") 0 0 10000 clientProtocol Final (str "/dev") []
    (mkuri (str "/dev") [] [] (str "/dev") [] []) (str "42") [] [].

Lemma dev_notification_topic : fromMdpTopic 0 STRICT (topic dev_notification) = Ok dev_topic.
Proof. reflexivity. Qed.


(** A cancellation counts whoever sends it: a client that never subscribed
    takes the topic away from one that did, which stays in the table of
    clients but receives nothing any more. *)
Lemma foreign_unsubscribe :
  let s := (handle_all [ClientSubscribed (str "a") dev_topic; ClientUnsubscribed (str "b") dev_topic]
              no_subscriptions).1 in
  str "a" ∈ clients_of dev_topic s ∧ count_of dev_topic s = 0
  ∧ dispatchMessageToMatchingSubscribers 0 false ∅ (map_to_list (subscribedTopics s)).*1 dev_notification s = [].
Proof.
  split; [apply (bool_decide_unpack _); vm_compute; exact I|]. split; vm_compute; reflexivity.
Qed.
