(* ===== verification/Pool.v ===== *)
(** * Pool: workers and services of [majordomo/Broker.hpp]

    The registered workers, the services with their waiting workers, and the
    assignment of requests to workers.  A waiting list holds pointers into the
    table of workers: a worker has an address, and using the address of a
    worker that was erased is undefined behaviour, the result [None]. *)

From S2P Require Import Prelude Rbac Uri Topic Message Service Subscriptions.
Local Open Scope nat_scope.

Record worker : Type := mkworker {
  w_socket : socket;
  w_id : bytes;
  w_serviceName : bytes;
  w_expiry : Z
}.

Record pool : Type := mkpool {
  workers : gmap bytes nat;            (* id -> address *)
  heap : gmap nat worker;              (* the live workers *)
  next_address : nat;
  services : gmap bytes service
}.

Definition set_services (ss : gmap bytes service) (p : pool) : pool :=
  mkpool (workers p) (heap p) (next_address p) ss.

Definition update_service (n : bytes) (g : service → service) (p : pool) : pool :=
  set_services (alter g n (services p)) p.

(** [_workers.try_emplace(id, socket, id, serviceName, expiry)]; the boolean is
    [_workers.contains(id)] before. *)
Definition emplace_worker (sock : socket) (id serviceName : bytes) (expiry : Z) (p : pool) : nat * bool * pool :=
  match workers p !! id with
  | Some a => (a, true, p)
  | None =>
      let a := next_address p in
      (a, false, mkpool (<[id := a]> (workers p)) (<[a := mkworker sock id serviceName expiry]> (heap p)) (S a)
                   (services p))
  end.

(** [_workers.erase(id)] *)
Definition erase_worker (id : bytes) (p : pool) : pool :=
  match workers p !! id with
  | None => p
  | Some a => mkpool (delete id (workers p)) (delete a (heap p)) (next_address p) (services p)
  end.

Definition requireService (roles : list bytes) (nm desc : bytes) (p : pool) : pool :=
  match services p !! nm with
  | Some _ => p
  | None => set_services (<[nm := new_service roles nm desc]> (services p)) p
  end.

Definition addInternalService (roles : list bytes) (nm : bytes) (h : internal) (p : pool) : pool :=
  match services p !! nm with
  | Some _ => p
  | None => set_services (<[nm := new_internal roles nm h]> (services p)) p
  end.

(** The inner loop of [purgeWorkers], for the service [n]: its waiting list is
    [kept ++ rest], the iterator at the head of [rest]. *)
Fixpoint purge_loop (now : Z) (n : bytes) (kept rest : list nat) (p : pool) : option pool :=
  match rest with
  | [] => Some p
  | a :: rest' =>
      w ← heap p !! a;
      if (w_expiry w <? now)%Z
      then purge_loop now n kept rest' (erase_worker (w_id w) (update_service n (set_waiting (kept ++ rest')) p))
      else purge_loop now n (kept ++ [a]) rest' p
  end.

(** [order]: the names in the order in which the table is walked. *)
Fixpoint purgeWorkers (now : Z) (order : list bytes) (p : pool) : option pool :=
  match order with
  | [] => Some p
  | n :: order' =>
      svc ← services p !! n;
      p' ← purge_loop now n [] (waiting svc) p;
      purgeWorkers now order' p'
  end.

(** What [dispatch] does to the message it sends. *)
Definition to_worker (w : worker) (m : BrokerMessage) : BrokerMessage :=
  @mkmsg WithSourceId (w_id w) (id m) (arrivalTime m) (timeout m) workerProtocol (command m) (sourceId m)
    (clientRequestID m) (topic m) (data m) (error m) (rbac m).

(** The loop of [dispatch]: every turn takes a waiting worker. *)
Fixpoint dispatch_loop (fuel : nat) (hp : gmap nat worker) (svc : service) : option (service * list output) :=
  match fuel with
  | O => Some (svc, [])
  | S fuel' =>
      match waiting svc with
      | [] => Some (svc, [])
      | _ =>
          if 0 <? requestCount svc then
            '(m, svc1) ← takeNextMessage svc;
            '(a, svc2) ← takeNextWorker svc1;
            w ← hp !! a;
            '(svc3, outs) ← dispatch_loop fuel' hp svc2;
            Some (svc3, Send (w_socket w) (to_worker w m) :: outs)
          else Some (svc, [])
      end
  end.

Definition dispatch (now : Z) (order : list bytes) (n : bytes) (p : pool) : option (pool * list output) :=
  p1 ← purgeWorkers now order p;
  svc ← services p1 !! n;
  '(svc', outs) ← dispatch_loop (length (waiting svc)) (heap p1) svc;
  Some (set_services (<[n := svc']> (services p1)) p1, outs).

Definition set_expiry (e : Z) (w : worker) : worker := mkworker (w_socket w) (w_id w) (w_serviceName w) e.

(** The order in which the table of services is walked: some order of its
    keys, which may differ from table to table. *)
Abbreviation walk := (gmap bytes service → list bytes).

(** [workerWaiting(worker)]; the service of the worker is looked up without a
    check. *)
Definition workerWaiting (expiry now : Z) (order : walk) (a : nat) (p : pool) : option (pool * list output) :=
  w ← heap p !! a;
  svc ← services p !! w_serviceName w;
  let p1 := update_service (w_serviceName w) (set_waiting (waiting svc ++ [a])) p in
  let p2 := mkpool (workers p1) (<[a := set_expiry expiry w]> (heap p1)) (next_address p1) (services p1) in
  dispatch now (order (services p2)) (w_serviceName w) p2.

(** The parts of [processWorker] for [Ready], and for a reply of a known
    worker. *)
Definition worker_ready (roles : list bytes) (sock : socket) (id serviceName desc : bytes) (expiry0 expiry now : Z)
    (order : walk) (p : pool) : option (pool * list output) :=
  let '(a, _, p1) := emplace_worker sock id serviceName expiry0 p in
  workerWaiting expiry now order a (requireService roles serviceName desc p1).

Definition put_request (m : BrokerMessage) (n : bytes) (now : Z) (order : walk) (p : pool) : option (pool * list output) :=
  svc ← services p !! n;
  let p1 := update_service n (putMessage m) p in
  dispatch now (order (services p1)) n p1.

Definition deleteWorker (a : nat) (p : pool) : option pool :=
  w ← heap p !! a;
  let p1 := update_service (w_serviceName w) (λ s, set_waiting (filter (λ x, x ≠ a) (waiting s)) s) p in
  Some (erase_worker (w_id w) p1).

(** A message made by the broker itself; [id] is left uninitialised. *)
Definition broker_message (uninit_id : Z) (src protocol : bytes) (c : Command) (service reqId : bytes) (t : uri)
    (body : bytes) (token : bytes) : BrokerMessage :=
  @mkmsg WithSourceId src uninit_id 0 default_timeout protocol c service reqId t body [] token.

Definition rbac_token : bytes := str "RBAC=ADMIN,abcdef12345".

Definition disconnect_message (uninit_id : Z) (w : worker) : BrokerMessage :=
  broker_message uninit_id (w_id w) workerProtocol Disconnect (w_serviceName w) [] root_topic
    (str "broker shutdown") rbac_token.

Definition disconnectWorker (uninit_id : Z) (a : nat) (p : pool) : option (pool * list output) :=
  w ← heap p !! a;
  p' ← deleteWorker a p;
  Some (p', [Send (w_socket w) (disconnect_message uninit_id w)]).

(** The heartbeats to the waiting workers of every service. *)
Definition heartbeat_message (uninit_id : Z) (w : worker) : BrokerMessage :=
  broker_message uninit_id (w_id w) workerProtocol Heartbeat (w_serviceName w) [] root_topic [] rbac_token.

Definition service_heartbeats (uninit_id : Z) (p : pool) (n : bytes) : option (list output) :=
  svc ← services p !! n;
  mapM (λ a, w ← heap p !! a; Some (Send (w_socket w) (heartbeat_message uninit_id w))) (waiting svc).

Definition heartbeats (uninit_id : Z) (order : list bytes) (p : pool) : option (list output) :=
  concat (A:=output) <$> mapM (service_heartbeats uninit_id p) order.

(** [bestMatchingService]; [order] as above.  The empty name has no first
    character to look at. *)
Definition removeSlash (s : bytes) : bytes :=
  match s with c :: s' => if eqc c "/" then s' else s | [] => [] end.

Definition lessByLength (l r : bytes) : bool :=
  if length l =? length r then bytes_le l r && negb (bool_decide (l = r)) else length l <? length r.

Fixpoint best_match (sn : bytes) (order : list bytes) (best : option (bytes * bytes)) : option bytes :=
  match order with
  | [] => snd <$> best
  | name :: order' =>
      let n := removeSlash name in
      if negb (starts_with sn n) then best_match sn order' best
      else match best with
           | Some (bestName, _) => if lessByLength n bestName then best_match sn order' (Some (n, name))
                                   else best_match sn order' best
           | None => best_match sn order' (Some (n, name))
           end
  end.

Definition bestMatchingService (order : list bytes) (serviceName : bytes) : option bytes :=
  best_match (removeSlash serviceName) order None.

(** ** The invariant

    The table and the live workers agree; a waiting list holds each of its
    workers once, all of them live and of that service. *)
Record pool_ok (p : pool) : Prop := {
  po_workers id a : workers p !! id = Some a → ∃ w, heap p !! a = Some w ∧ w_id w = id;
  po_heap a w : heap p !! a = Some w → workers p !! w_id w = Some a;
  po_next a w : heap p !! a = Some w → a < next_address p;
  po_waiting n svc a : services p !! n = Some svc → a ∈ waiting svc →
    ∃ w, heap p !! a = Some w ∧ w_serviceName w = n;
  po_nodup n svc : services p !! n = Some svc → NoDup (waiting svc);
  po_service n svc : services p !! n = Some svc → service_ok svc
}.

Lemma set_waiting_ok ws s : service_ok s → service_ok (set_waiting ws s).
Proof. by intros []. Qed.

Lemma lookup_update_service n g p n' :
  services (update_service n g p) !! n' = (if decide (n = n') then g <$> services p !! n' else services p !! n').
Proof. unfold update_service. simpl. rewrite lookup_alter. case_decide; congruence. Qed.

(** Replacing a waiting list by a part of it keeps the invariant. *)
Lemma pool_ok_shrink n p svc ws :
  pool_ok p → services p !! n = Some svc → ws `sublist_of` waiting svc →
  pool_ok (update_service n (set_waiting ws) p).
Proof.
  intros [Hw Hh Hn Hwt Hnd Hs] Hsvc Hsub. split; try done.
  - intros n' svc' a. rewrite lookup_update_service. case_decide as E; [subst|by apply Hwt].
    rewrite Hsvc. intros [= <-] Ha. simpl in Ha. apply (Hwt n' svc a Hsvc). by eapply elem_of_submseteq, sublist_submseteq.
  - intros n' svc'. rewrite lookup_update_service. case_decide as E; [subst|by apply Hnd].
    rewrite Hsvc. intros [= <-]. simpl. eapply sublist_NoDup; [by eapply Hnd|done].
  - intros n' svc'. rewrite lookup_update_service. case_decide as E; [subst|by apply Hs].
    rewrite Hsvc. intros [= <-]. by apply set_waiting_ok, (Hs n').
Qed.

(** A worker that waits nowhere can be erased. *)
Lemma pool_ok_erase p a w :
  pool_ok p → heap p !! a = Some w →
  (∀ n svc, services p !! n = Some svc → a ∉ waiting svc) →
  pool_ok (erase_worker (w_id w) p) ∧ heap (erase_worker (w_id w) p) = delete a (heap p)
  ∧ services (erase_worker (w_id w) p) = services p.
Proof.
  intros [Hw Hh Hn Hwt Hnd Hs] Ha Hnot. unfold erase_worker. rewrite (Hh _ _ Ha). split; [|done].
  split; simpl; try done.
  - intros i b [Hne Hb]%lookup_delete_Some. destruct (Hw i b Hb) as (v & Hv & Hi).
    exists v. split; [|done]. rewrite lookup_delete_ne; [done|]. intros ->. rewrite Ha in Hv. naive_solver.
  - intros b v [Hne Hb]%lookup_delete_Some. rewrite lookup_delete_ne; [by apply Hh|].
    intros E. pose proof (Hh b v Hb) as H1. pose proof (Hh a w Ha) as H2. rewrite E in H2. congruence.
  - intros b v [_ Hb]%lookup_delete_Some. by eapply Hn.
  - intros n svc b Hsvc Hb. destruct (Hwt n svc b Hsvc Hb) as (v & Hv & Hvn). exists v. split; [|done].
    rewrite lookup_delete_ne; [done|]. intros ->. by eapply Hnot.
Qed.

(** ** Purging *)

Definition alive (now : Z) (hp : gmap nat worker) (a : nat) : Prop :=
  match hp !! a with Some w => (now ≤ w_expiry w)%Z | None => False end.

#[export] Instance alive_dec now hp a : Decision (alive now hp a).
Proof. unfold alive. destruct (hp !! a); apply _. Defined.

Lemma filter_ext_in {A} (P Q : A → Prop) `{!∀ x, Decision (P x), !∀ x, Decision (Q x)} (l : list A) :
  (∀ x, x ∈ l → P x ↔ Q x) → filter P l = filter Q l.
Proof.
  induction l as [|x l IH]; intros Hin; [done|]. rewrite !filter_cons.
  rewrite IH by (intros y Hy; apply Hin; by right).
  pose proof (Hin x ltac:(by left)). repeat case_decide; tauto.
Qed.

Lemma alive_delete now hp a b : a ≠ b → alive now (delete a hp) b ↔ alive now hp b.
Proof. intros. unfold alive. by rewrite lookup_delete_ne. Qed.

(** The waiting lists hold no worker twice, also between services. *)
Lemma waiting_once p n svc kept a rest n' svc' :
  pool_ok p → services p !! n = Some svc → waiting svc = kept ++ a :: rest →
  services (update_service n (set_waiting (kept ++ rest)) p) !! n' = Some svc' → a ∉ waiting svc'.
Proof.
  intros Hp Hsvc Hw. rewrite lookup_update_service. case_decide as E.
  - subst n'. rewrite Hsvc. intros [= <-]. simpl. pose proof (po_nodup p Hp n svc Hsvc) as Hnd. rewrite Hw in Hnd.
    apply NoDup_app in Hnd as (_ & Hd & Hnd). apply NoDup_cons in Hnd as [Hr _].
    rewrite elem_of_app. intros [Hk|Hk]; [|done]. apply (Hd a Hk). by left.
  - intros Hsvc' Ha. destruct (po_waiting p Hp n' svc' a Hsvc' Ha) as (w & H1 & H2).
    destruct (po_waiting p Hp n svc a Hsvc) as (w' & H1' & H2'); [rewrite Hw; set_solver|]. congruence.
Qed.

(** One turn of the loop that erases. *)
Lemma erase_waiting p n svc kept a rest w :
  pool_ok p → services p !! n = Some svc → waiting svc = kept ++ a :: rest → heap p !! a = Some w →
  let p1 := erase_worker (w_id w) (update_service n (set_waiting (kept ++ rest)) p) in
  pool_ok p1 ∧ heap p1 = delete a (heap p)
  ∧ ∀ n', services p1 !! n' = if decide (n = n') then Some (set_waiting (kept ++ rest) svc) else services p !! n'.
Proof.
  intros Hp Hsvc Hw Ha p1.
  destruct (pool_ok_erase (update_service n (set_waiting (kept ++ rest)) p) a w) as (H1 & H2 & H3).
  - apply (pool_ok_shrink n p svc); [done..|]. rewrite Hw. apply sublist_app; [done|]. by apply sublist_cons.
  - done.
  - intros n' svc'. by eapply waiting_once.
  - split_and!; [done|done|]. intros n'. unfold p1. rewrite H3, lookup_update_service.
    case_decide; [subst; by rewrite Hsvc|done].
Qed.

Lemma purge_loop_spec now n rest kept p svc :
  pool_ok p → services p !! n = Some svc → waiting svc = kept ++ rest →
  ∃ p', purge_loop now n kept rest p = Some p' ∧ pool_ok p'
    ∧ (∀ n', n' ≠ n → services p' !! n' = services p !! n')
    ∧ services p' !! n = Some (set_waiting (kept ++ filter (alive now (heap p)) rest) svc)
    ∧ ∀ a, heap p' !! a = if decide (a ∈ rest ∧ ¬ alive now (heap p) a) then None else heap p !! a.
Proof.
  revert kept p svc. induction rest as [|a rest IH]; intros kept p svc Hp Hsvc Hw.
  { exists p. split_and!; [done..| |].
    - rewrite Hsvc. f_equal. rewrite app_nil_r in *. subst kept. by destruct svc.
    - intros a. rewrite decide_False; [done|]. intros [?%elem_of_nil _]. done. }
  destruct (po_waiting p Hp n svc a Hsvc) as (w & Ha & _); [rewrite Hw; set_solver|].
  cbn [purge_loop]. rewrite Ha. cbn [mbind option_bind]. destruct (Z.ltb_spec (w_expiry w) now) as [Hexp|Hexp].
  - destruct (erase_waiting p n svc kept a rest w Hp Hsvc Hw Ha) as (Hp1 & Hh1 & Hs1).
    set (p1 := erase_worker _ _) in *. pose proof (Hs1 n) as Hs1n. rewrite decide_True in Hs1n by done.
    destruct (IH kept p1 _ Hp1 Hs1n eq_refl) as (p' & -> & Hp' & Ho & Hs & Hh).
    assert (Hr : a ∉ rest).
    { pose proof (po_nodup p Hp n svc Hsvc) as Hnd. rewrite Hw in Hnd.
      apply NoDup_app in Hnd as (_ & _ & Hnd). by apply NoDup_cons in Hnd as [? _]. }
    assert (Hna : ¬ alive now (heap p) a) by (unfold alive; rewrite Ha; lia).
    exists p'. split_and!; [done|done| | |].
    + intros n' Hn. rewrite Ho, Hs1, decide_False by done. done.
    + rewrite Hs. rewrite filter_cons_False by done. f_equal. unfold set_waiting. simpl. do 2 f_equal.
      apply filter_ext_in. intros b Hb. rewrite Hh1. apply alive_delete. congruence.
    + intros b. rewrite Hh, Hh1. destruct (decide (a = b)) as [<-|Hab].
      * rewrite lookup_delete_eq, (decide_True (P := a ∈ a :: rest ∧ _)) by set_solver. by case_decide.
      * rewrite lookup_delete_ne by done. pose proof (alive_delete now (heap p) a b Hab).
        assert (b ∈ a :: rest ↔ b ∈ rest) by set_solver. repeat case_decide; tauto.
  - assert (Hal : alive now (heap p) a) by (unfold alive; by rewrite Ha).
    destruct (IH (kept ++ [a]) p svc Hp Hsvc) as (p' & -> & Hp' & Ho & Hs & Hh); [by rewrite <- app_assoc|].
    exists p'. split_and!; [done..| |].
    + rewrite Hs, filter_cons_True by done. by rewrite <- app_assoc.
    + intros b. rewrite Hh. repeat case_decide; set_solver.
Qed.

Definition purged (now : Z) (hp : gmap nat worker) (svc : service) : service :=
  set_waiting (filter (alive now hp) (waiting svc)) svc.

(** The worker at [a] waits in one of the services [order] and is overdue. *)
Definition overdue (now : Z) (order : list bytes) (p : pool) (a : nat) (w : worker) : Prop :=
  (w_expiry w < now)%Z ∧ w_serviceName w ∈ order
  ∧ ∃ svc, services p !! w_serviceName w = Some svc ∧ a ∈ waiting svc.

Lemma alive_ext now hp hp' a : hp !! a = hp' !! a → alive now hp a ↔ alive now hp' a.
Proof. unfold alive. by intros ->. Qed.

Lemma purge_one now n p svc :
  pool_ok p → services p !! n = Some svc →
  ∃ p', purge_loop now n [] (waiting svc) p = Some p' ∧ pool_ok p'
    ∧ (∀ n', services p' !! n' = if decide (n = n') then Some (purged now (heap p) svc) else services p !! n')
    ∧ (∀ a w, heap p' !! a = Some w ↔ heap p !! a = Some w ∧ ¬ overdue now [n] p a w).
Proof.
  intros Hp Hsvc. destruct (purge_loop_spec now n (waiting svc) [] p svc Hp Hsvc eq_refl) as (p' & He & Hp' & Ho & Hs & Hh).
  exists p'. split_and!; [done|done| |].
  - intros n'. case_decide; [by subst|]. by apply Ho.
  - intros a w. rewrite Hh. unfold overdue. setoid_rewrite list_elem_of_singleton.
    destruct (decide (a ∈ waiting svc)) as [Hin|Hin].
    + destruct (po_waiting p Hp n svc a Hsvc Hin) as (v & Hv & Hn).
      assert (Hal : alive now (heap p) a ↔ (now ≤ w_expiry v)%Z) by (unfold alive; by rewrite Hv).
      case_decide as Hd; [split; [done|]|].
      * intros [Hw Hnot]. simplify_eq. destruct Hnot. rewrite Hal in Hd. split_and!; [lia|done|eauto].
      * split; [|tauto]. intros Hw. split; [done|]. simplify_eq. intros (? & _). apply Hd. rewrite Hal. split; [done|]. lia.
    + rewrite decide_False by tauto. split; [|tauto]. intros Ha. split; [done|].
      intros (_ & Hn & svc' & Hs' & Hin'). rewrite Hn in Hs'. by simplify_eq.
Qed.

Lemma purgeWorkers_spec now order p :
  pool_ok p → NoDup order → (∀ n, n ∈ order → is_Some (services p !! n)) →
  ∃ p', purgeWorkers now order p = Some p' ∧ pool_ok p'
    ∧ (∀ n, services p' !! n = if decide (n ∈ order) then purged now (heap p) <$> services p !! n else services p !! n)
    ∧ (∀ a w, heap p' !! a = Some w ↔ heap p !! a = Some w ∧ ¬ overdue now order p a w).
Proof.
  intros Hp Hnd. revert p Hp. induction Hnd as [|n order Hn Hnd IH]; intros p Hp Hall.
  { exists p. split_and!; [done|done| |].
    - intros n. by rewrite decide_False by (by intros ?%elem_of_nil).
    - intros a w. unfold overdue. setoid_rewrite elem_of_nil. tauto. }
  destruct (Hall n ltac:(by left)) as [svc Hsvc].
  destruct (purge_one now n p svc Hp Hsvc) as (p1 & He & Hp1 & Hs1 & Hh1).
  cbn [purgeWorkers]. rewrite Hsvc. cbn [mbind option_bind]. rewrite He. cbn [mbind option_bind].
  assert (Hother : ∀ n' a, n' ∈ order → (∃ svc', services p !! n' = Some svc' ∧ a ∈ waiting svc') →
            heap p1 !! a = heap p !! a).
  { intros n' a Hn' (svc' & Hs' & Ha). destruct (po_waiting p Hp n' svc' a Hs' Ha) as (w & Hw & Hwn).
    rewrite Hw. apply Hh1. split; [done|]. intros (_ & Hnw & _). apply list_elem_of_singleton in Hnw. congruence. }
  destruct (IH p1 Hp1) as (p' & He' & Hp' & Hs' & Hh').
  { intros n' Hn'. rewrite Hs1. case_decide; [by eexists|]. apply Hall. by right. }
  exists p'. split_and!; [done|done| |].
  - intros n'. rewrite Hs', Hs1. destruct (decide (n = n')) as [<-|Hnn].
    + rewrite decide_False, decide_True by set_solver. by rewrite Hsvc.
    + destruct (decide (n' ∈ order)) as [Hin|Hin].
      * rewrite decide_True by set_solver. destruct (services p !! n') as [svc'|] eqn:E; [|done]. simpl. f_equal.
        unfold purged. f_equal. apply filter_ext_in. intros a Ha. apply alive_ext, (Hother n'); eauto.
      * rewrite decide_False by set_solver. done.
  - intros a w. rewrite Hh', Hh1. unfold overdue. setoid_rewrite list_elem_of_singleton. setoid_rewrite elem_of_cons.
    split.
    + intros [[Ha H1] H2]. split; [done|]. intros (He1 & [Hw|Hw] & svc' & Hsv & Hin).
      * apply H1. eauto.
      * apply H2. split_and!; [done|done|].
        exists (if decide (n = w_serviceName w) then purged now (heap p) svc else svc').
        rewrite Hs1. case_decide; [set_solver|done].
    + intros [Ha H]. split; [split; [done|]|]; [naive_solver|].
      intros (He1 & Hw & svc' & Hsv & Hin). apply H. split_and!; [done|by right|].
      rewrite Hs1 in Hsv. case_decide; [set_solver|]. eauto.
Qed.

(** ** Dispatching *)

Definition assign (w : worker) (m : BrokerMessage) : output := Send (w_socket w) (to_worker w m).

Lemma takeNextMessage_frame s m s' :
  takeNextMessage s = Some (m, s') →
  waiting s' = waiting s ∧ internalHandler s' = internalHandler s ∧ s_name s' = s_name s
  ∧ pending s = m :: pending s' ∧ requestCount s' = pred (requestCount s).
Proof.
  unfold takeNextMessage, pending. pose proof (take_first_spec (requestsByPriority s)) as H.
  destruct (take_first _) as [[x qs]|]; [|done]. simpl. intros [= -> <-]. simpl. by destruct H as [-> _].
Qed.

(** The waiting workers get the pending requests, in the order of both, until
    one side is exhausted. *)
Lemma dispatch_loop_spec fuel hp svc ws :
  service_ok svc → mapM (λ a, hp !! a) (waiting svc) = Some ws → length (waiting svc) ≤ fuel →
  ∃ svc', dispatch_loop fuel hp svc = Some (svc', zip_with assign ws (pending svc))
    ∧ service_ok svc'
    ∧ internalHandler svc' = internalHandler svc ∧ s_name svc' = s_name svc
    ∧ waiting svc' = drop (length (pending svc)) (waiting svc)
    ∧ pending svc' = drop (length (waiting svc)) (pending svc).
Proof.
  revert svc ws. induction fuel as [|fuel IH]; intros svc ws Hok Hws Hf.
  - destruct (waiting svc) eqn:E; [|simpl in Hf; lia]. exists svc. injection Hws as <-.
    rewrite E. split_and!; (done || by rewrite drop_nil).
  - cbn [dispatch_loop]. destruct (waiting svc) as [|a was] eqn:E.
    { exists svc. injection Hws as <-. rewrite E. split_and!; (done || by rewrite drop_nil). }
    apply bind_Some in Hws as (w & Hw & Hws). apply bind_Some in Hws as (ws' & Hws & [= <-]).
    pose proof (so_count svc Hok) as Hc. destruct (Nat.ltb_spec 0 (requestCount svc)) as [Hr|Hr].
    + destruct (takeNextMessage_total svc Hok Hr) as [[m svc1] Ht]. rewrite Ht. cbn [mbind option_bind].
      destruct (takeNextMessage_frame _ _ _ Ht) as (Hw1 & Hi1 & Hn1 & Hp1 & _).
      pose proof (takeNextMessage_ok _ _ _ Hok Ht) as Hok1.
      unfold takeNextWorker. rewrite Hw1, E. cbn [mbind option_bind]. rewrite Hw. cbn [mbind option_bind].
      set (svc2 := mkservice _ _ _ was _ _).
      assert (Hok2 : service_ok svc2) by (by destruct Hok1).
      destruct (IH svc2 ws' Hok2) as (svc' & Hd & Ho' & Hi' & Hn' & Hw' & Hp'); [done|simpl in *; lia|].
      rewrite Hd. cbn [mbind option_bind]. exists svc'. rewrite Hp1. cbn [zip_with length drop].
      split_and!; [done|done|by rewrite Hi'|by rewrite Hn'|done|done].
    + assert (Hp0 : pending svc = []) by (apply nil_length_inv; lia).
      exists svc. rewrite Hp0, E. split_and!; done.
Qed.

Lemma mapM_ext_in {A B} (g h : A → option B) (l : list A) :
  (∀ x, x ∈ l → g x = h x) → mapM g l = mapM h l.
Proof.
  induction l as [|x l IH]; intros Hin; [done|]. cbn. rewrite Hin by (by left).
  destruct (h x); [|done]. cbn. rewrite IH; [done|]. intros y Hy. apply Hin. by right.
Qed.

Lemma waiting_workers p svc n :
  pool_ok p → services p !! n = Some svc → ∃ ws, mapM (λ a, heap p !! a) (waiting svc) = Some ws.
Proof.
  intros Hp Hsvc.
  assert (H : Forall (λ a, is_Some (heap p !! a)) (waiting svc)).
  { apply Forall_forall. intros a Ha. destruct (po_waiting p Hp n svc a Hsvc Ha) as (w & Hw & _). by eexists. }
  apply mapM_is_Some_2 in H as [ws Hws]. by exists ws.
Qed.

Lemma pool_ok_replace n svc svc' p :
  pool_ok p → services p !! n = Some svc → service_ok svc' → waiting svc' `sublist_of` waiting svc →
  pool_ok (set_services (<[n := svc']> (services p)) p).
Proof.
  intros [Hw Hh Hn Hwt Hnd Hs] Hsvc Hok Hsub. split; try done; simpl.
  - intros n' x a [[<- <-]|[_ Hx]]%lookup_insert_Some Ha; [|by eapply Hwt].
    apply (Hwt n svc a Hsvc). by eapply elem_of_sublist.
  - intros n' x [[<- <-]|[_ Hx]]%lookup_insert_Some; [|by eapply Hnd]. eapply sublist_NoDup; [|done]. by eapply Hnd.
  - intros n' x [[<- <-]|[_ Hx]]%lookup_insert_Some; [done|by eapply Hs].
Qed.

(** [order] lists the names of the services, each once. *)
Definition walks (order : list bytes) (p : pool) : Prop :=
  NoDup order ∧ ∀ n, n ∈ order ↔ is_Some (services p !! n).

Lemma walks_same order p p' :
  (∀ n, is_Some (services p' !! n) ↔ is_Some (services p !! n)) → walks order p → walks order p'.
Proof. intros H [H1 H2]. split; [done|]. intros n. by rewrite H2, H. Qed.

Lemma dispatch_lemma now order n p svc :
  pool_ok p → walks order p → services p !! n = Some svc →
  ∃ p' ws, dispatch now order n p = Some (p', zip_with assign ws (pending svc))
    ∧ mapM (λ a, heap p !! a) (filter (alive now (heap p)) (waiting svc)) = Some ws
    ∧ pool_ok p' ∧ walks order p'
    ∧ (∃ svc', services p' !! n = Some svc'
         ∧ internalHandler svc' = internalHandler svc
         ∧ waiting svc' = drop (length (pending svc)) (filter (alive now (heap p)) (waiting svc))
         ∧ pending svc' = drop (length ws) (pending svc))
    ∧ (∀ n', n' ≠ n → services p' !! n' = purged now (heap p) <$> services p !! n')
    ∧ (∀ a w, heap p' !! a = Some w ↔ heap p !! a = Some w ∧ ¬ overdue now order p a w).
Proof.
  intros Hp [Hnd Hor] Hsvc.
  destruct (purgeWorkers_spec now order p Hp Hnd) as (p1 & He & Hp1 & Hs1 & Hh1).
  { intros n' Hn'. by apply Hor. }
  unfold dispatch. rewrite He. cbn [mbind option_bind].
  assert (Hsvc1 : services p1 !! n = Some (purged now (heap p) svc)).
  { rewrite Hs1, Hsvc, decide_True; [done|]. apply Hor. by eexists. }
  rewrite Hsvc1. cbn [mbind option_bind].
  destruct (waiting_workers p1 _ n Hp1 Hsvc1) as [ws Hws].
  destruct (dispatch_loop_spec (length (waiting (purged now (heap p) svc))) (heap p1) (purged now (heap p) svc) ws)
    as (svc' & Hd & Hok' & Hi' & Hn' & Hw' & Hpe'); [by apply (po_service p1 Hp1 n)|done|done|].
  rewrite Hd. cbn [mbind option_bind]. eexists _, ws. split; [done|].
  change (waiting (purged now (heap p) svc)) with (filter (alive now (heap p)) (waiting svc)) in *.
  assert (Hlen : length ws = length (filter (alive now (heap p)) (waiting svc))).
  { symmetry. by eapply length_mapM. }
  split_and!.
  - rewrite <- Hws. apply mapM_ext_in. intros a Ha.
    apply list_elem_of_filter in Ha as [Hal Ha]. destruct (po_waiting p Hp n svc a Hsvc Ha) as (w & Hw & Hwn).
    rewrite Hw. symmetry. apply Hh1. split; [done|]. intros (Hlt & _). unfold alive in Hal. rewrite Hw in Hal. lia.
  - apply (pool_ok_replace n (purged now (heap p) svc)); [done..|]. rewrite Hw'. apply sublist_drop.
  - split; [done|]. intros n'. simpl. rewrite lookup_insert. case_decide as E.
    + subst n'. rewrite Hor, Hsvc. split; intros _; by eexists.
    + rewrite Hs1. case_decide as E2; [rewrite fmap_is_Some|]; apply Hor.
  - exists svc'. simpl. rewrite lookup_insert_eq. rewrite Hw', Hpe', Hi', Hlen. done.
  - intros n' Hne. simpl. rewrite lookup_insert_ne by done. rewrite Hs1. case_decide as E; [done|].
    destruct (services p !! n') eqn:E'; [|done]. destruct E. apply Hor. by eexists.
  - exact Hh1.
Qed.

(** ** Safety

    Which events keep the broker from using an erased worker: a worker
    announces itself once, for the service it was first seen with, and replies
    once to each request. *)

Class WalkOrder (order : walk) : Prop :=
  walk_perm ss : order ss ≡ₚ (map_to_list ss).*1.

Lemma walks_order order p : WalkOrder order → walks (order (services p)) p.
Proof.
  intros Ho. split; [rewrite walk_perm; apply NoDup_fst_map_to_list|].
  intros n. rewrite walk_perm, list_elem_of_fmap. split.
  - intros ([n' svc] & -> & Hin%elem_of_map_to_list). by eexists.
  - intros [svc Hs]. exists (n, svc). split; [done|]. by apply elem_of_map_to_list.
Qed.

#[export] Instance map_order_walk : WalkOrder (λ ss, (map_to_list ss).*1).
Proof. by intros ss. Qed.

Definition idle (p : pool) (a : nat) : Prop := ∀ n svc, services p !! n = Some svc → a ∉ waiting svc.

Lemma pool_ok_wait p a w svc e :
  pool_ok p → heap p !! a = Some w → services p !! w_serviceName w = Some svc → idle p a →
  pool_ok (mkpool (workers p) (<[a := set_expiry e w]> (heap p)) (next_address p)
             (alter (set_waiting (waiting svc ++ [a])) (w_serviceName w) (services p))).
Proof.
  intros [Hw Hh Hn Hwt Hnd Hs] Ha Hsvc Hidle. split; cbn [workers heap next_address services].
  - intros i b Hb. destruct (Hw i b Hb) as (v & Hv & Hi). rewrite lookup_insert. case_decide as E; [|eauto].
    subst b. exists (set_expiry e w). split; [done|]. simpl. by simplify_eq.
  - intros b v [[<- <-]|[_ Hb]]%lookup_insert_Some; [by apply (Hh a w)|by apply Hh].
  - intros b v [[<- <-]|[_ Hb]]%lookup_insert_Some; by eapply Hn.
  - intros n x b. rewrite lookup_alter. intros Hx Hb.
    assert (Hor : b = a ∧ n = w_serviceName w ∨ ∃ y, services p !! n = Some y ∧ b ∈ waiting y).
    { case_decide as E; [|eauto]. subst n. rewrite Hsvc in Hx. simplify_eq/=.
      apply elem_of_app in Hb as [Hb|Hb%list_elem_of_singleton]; eauto. }
    clear Hx Hb. rewrite lookup_insert. destruct Hor as [[-> ->]|(y & Hy & Hby)].
    + rewrite decide_True by done. by exists (set_expiry e w).
    + destruct (Hwt n y b Hy Hby) as (v & Hv & Hvn). case_decide as E; [|eauto].
      subst b. exfalso. by eapply Hidle.
  - intros n x. rewrite lookup_alter. case_decide as E; [|by apply Hnd]. subst n. rewrite Hsvc. intros [= <-]. simpl.
    apply NoDup_app. split_and!; [by eapply Hnd| |apply NoDup_singleton].
    intros b Hb ->%list_elem_of_singleton. by eapply Hidle.
  - intros n x. rewrite lookup_alter. case_decide as E; [|by apply Hs]. subst n. rewrite Hsvc. intros [= <-].
    apply set_waiting_ok. by eapply Hs.
Qed.

Lemma workerWaiting_ok e now order a p w :
  WalkOrder order → pool_ok p → heap p !! a = Some w → is_Some (services p !! w_serviceName w) → idle p a →
  ∃ p' outs, workerWaiting e now order a p = Some (p', outs) ∧ pool_ok p'.
Proof.
  intros Ho Hp Ha [svc Hsvc] Hidle. unfold workerWaiting. rewrite Ha. cbn [mbind option_bind]. rewrite Hsvc.
  cbn [mbind option_bind].
  pose proof (pool_ok_wait p a w svc e Hp Ha Hsvc Hidle) as Hp2.
  set (p2 := mkpool _ _ _ _) in *.
  destruct (dispatch_lemma now (order (services p2)) (w_serviceName w) p2 (set_waiting (waiting svc ++ [a]) svc))
    as (p' & ws & Hd & _ & Hp' & _); [done|by apply walks_order| |].
  - unfold p2. simpl. by rewrite lookup_alter_eq, Hsvc.
  - unfold p2 in Hd. eauto.
Qed.

(** The worker is put behind those that wait for its service, with a new expiry, and
    the requests that are pending go to the waiting workers that are alive. *)
Lemma workerWaiting_waits e now order a p w svc :
  WalkOrder order → pool_ok p → heap p !! a = Some w → services p !! w_serviceName w = Some svc → idle p a → (now ≤ e)%Z →
  ∃ p' ws svc', workerWaiting e now order a p = Some (p', zip_with assign (ws ++ [w]) (pending svc)) ∧ pool_ok p'
    ∧ mapM (λ b, heap p !! b) (filter (alive now (heap p)) (waiting svc)) = Some ws
    ∧ services p' !! w_serviceName w = Some svc'
    ∧ waiting svc' = drop (length (pending svc)) (filter (alive now (heap p)) (waiting svc) ++ [a])
    ∧ heap p' !! a = Some (set_expiry e w).
Proof.
  intros Ho Hp Ha Hsvc Hidle He. unfold workerWaiting. rewrite Ha. cbn [mbind option_bind]. rewrite Hsvc.
  cbn [mbind option_bind]. pose proof (pool_ok_wait p a w svc e Hp Ha Hsvc Hidle) as Hp2.
  set (p2 := mkpool _ _ _ _) in *.
  destruct (dispatch_lemma now (order (services p2)) (w_serviceName w) p2 (set_waiting (waiting svc ++ [a]) svc))
    as (p' & ws2 & Hd & Hws & Hp' & _ & (svc' & Hs' & _ & Hw' & _) & _ & Hh); [done|by apply walks_order| |].
  { unfold p2. simpl. by rewrite lookup_alter_eq, Hsvc. }
  assert (Hne : ∀ b, b ∈ waiting svc → heap p2 !! b = heap p !! b).
  { intros b Hb. unfold p2. simpl. apply lookup_insert_ne. intros <-. by eapply Hidle. }
  assert (Haw : heap p2 !! a = Some (set_expiry e w)) by (unfold p2; simpl; by rewrite lookup_insert_eq).
  assert (Hf : filter (alive now (heap p2)) (waiting svc ++ [a]) = filter (alive now (heap p)) (waiting svc) ++ [a]).
  { rewrite filter_app. f_equal; [apply filter_ext_in; intros b Hb; by apply alive_ext, Hne|].
    rewrite filter_cons, decide_True; [done|]. unfold alive. by rewrite Haw. }
  change (waiting (set_waiting (waiting svc ++ [a]) svc)) with (waiting svc ++ [a]) in *.
  change (pending (set_waiting (waiting svc ++ [a]) svc)) with (pending svc) in *. rewrite Hf in Hws, Hw'.
  apply mapM_Some, Forall2_app_inv_l in Hws as (ws & ws' & Hws & HF & ->).
  apply Forall2_cons_inv_l in HF as (x & ws3 & Hx & HF & ->). apply Forall2_nil_inv_l in HF as ->. rewrite Haw in Hx. injection Hx as <-.
  apply mapM_Some in Hws.
  exists p', ws, svc'. split_and!; try done.
  - rewrite Hd. do 2 f_equal.
    clear. revert ws. induction (pending svc) as [|m ms IH]; intros [|x ws]; try done. simpl. f_equal. apply IH.
  - rewrite <- Hws. apply mapM_ext_in. intros b Hb. symmetry. apply Hne. by apply list_elem_of_filter in Hb as [_ Hb].
  - apply Hh. split; [done|]. intros (Hlt & _). simpl in Hlt. lia.
Qed.

Lemma emplace_worker_ok sock id nm e p :
  pool_ok p →
  let '(a, known, p') := emplace_worker sock id nm e p in
  pool_ok p' ∧ services p' = services p ∧ workers p' !! id = Some a
  ∧ (known = false → idle p' a ∧ heap p' !! a = Some (mkworker sock id nm e))
  ∧ (known = true → p' = p).
Proof.
  intros Hp. unfold emplace_worker. destruct (workers p !! id) as [a|] eqn:E; [by split_and!|].
  destruct Hp as [Hw Hh Hn Hwt Hnd Hs].
  assert (Hnew : ∀ v, heap p !! next_address p ≠ Some v) by (intros v Hv; apply Hn in Hv; lia).
  split_and!; simpl; [|done|by rewrite lookup_insert_eq| |done].
  - split; simpl; try done.
    + intros i b [[<- <-]|[Hne Hb]]%lookup_insert_Some.
      * exists (mkworker sock id nm e). by rewrite lookup_insert_eq.
      * destruct (Hw i b Hb) as (v & Hv & Hi). exists v. split; [|done]. rewrite lookup_insert_ne; [done|].
        intros <-. by apply (Hnew v).
    + intros b v [[<- <-]|[Hne Hb]]%lookup_insert_Some; [by rewrite lookup_insert_eq|].
      rewrite lookup_insert_ne; [by apply Hh|]. intros Hi. apply Hh in Hb. rewrite <- Hi, E in Hb. done.
    + intros b v [[<- <-]|[Hne Hb]]%lookup_insert_Some; [lia|]. apply Hn in Hb. lia.
    + intros n svc b Hsvc Hb. destruct (Hwt n svc b Hsvc Hb) as (v & Hv & Hvn). exists v. split; [|done].
      rewrite lookup_insert_ne; [done|]. intros <-. by apply (Hnew v).
  - intros _. split; [|by rewrite lookup_insert_eq]. intros n svc Hsvc Hb. simpl in Hsvc.
    destruct (Hwt n svc _ Hsvc Hb) as (v & Hv & _). by apply (Hnew v).
Qed.

Lemma requireService_ok roles nm desc p :
  pool_ok p →
  pool_ok (requireService roles nm desc p)
  ∧ heap (requireService roles nm desc p) = heap p
  ∧ workers (requireService roles nm desc p) = workers p
  ∧ is_Some (services (requireService roles nm desc p) !! nm)
  ∧ (∀ a, idle p a → idle (requireService roles nm desc p) a).
Proof.
  intros Hp. unfold requireService. destruct (services p !! nm) as [s|] eqn:E; [by split_and!|].
  destruct Hp as [Hw Hh Hn Hwt Hnd Hs].
  split_and!; simpl; [|done|done|by rewrite lookup_insert_eq|].
  - split; cbn [workers heap next_address services set_services]; [done|done|done| | |].
    + intros n svc a [[<- <-]|[Hne Hx]]%lookup_insert_Some; [by intros ?%elem_of_nil|by eapply Hwt].
    + intros n svc [[<- <-]|[Hne Hx]]%lookup_insert_Some; [apply NoDup_nil_2|by eapply Hnd].
    + intros n svc [[<- <-]|[Hne Hx]]%lookup_insert_Some; [apply new_service_ok|by eapply Hs].
  - intros a Hi n svc. simpl. intros [[<- <-]|[Hne Hx]]%lookup_insert_Some; [by intros ?%elem_of_nil|by eapply Hi].
Qed.

Lemma pool_ok_update n g p :
  pool_ok p → (∀ s, waiting (g s) = waiting s) → (∀ s, service_ok s → service_ok (g s)) →
  pool_ok (update_service n g p).
Proof.
  intros [Hw Hh Hn Hwt Hnd Hs] Hgw Hgs. split; try done.
  - intros n' svc a. rewrite lookup_update_service. case_decide; [|by apply Hwt].
    intros (s & Hsv & ->)%fmap_Some. rewrite Hgw. eauto.
  - intros n' svc. rewrite lookup_update_service. case_decide; [|by apply Hnd].
    intros (s & Hsv & ->)%fmap_Some. rewrite Hgw. eauto.
  - intros n' svc. rewrite lookup_update_service. case_decide; [|by apply Hs].
    intros (s & Hsv & ->)%fmap_Some. eauto.
Qed.

Lemma pool_ok_expiry p a w e :
  pool_ok p → heap p !! a = Some w →
  pool_ok (mkpool (workers p) (<[a := set_expiry e w]> (heap p)) (next_address p) (services p)).
Proof.
  intros [Hw Hh Hn Hwt Hnd Hs] Ha. split; simpl; try done.
  - intros i b Hb. destruct (Hw i b Hb) as (v & Hv & Hi). rewrite lookup_insert. case_decide as E; [|eauto].
    subst b. exists (set_expiry e w). split; [done|]. simpl. by simplify_eq.
  - intros b v [[<- <-]|[_ Hb]]%lookup_insert_Some; [by apply (Hh a w)|by apply Hh].
  - intros b v [[<- <-]|[_ Hb]]%lookup_insert_Some; by eapply Hn.
  - intros n svc b Hsvc Hb. destruct (Hwt n svc b Hsvc Hb) as (v & Hv & Hvn). rewrite lookup_insert.
    case_decide; [|eauto]. subst b. exists (set_expiry e w). split; [done|]. simpl. by simplify_eq.
Qed.

(** Erasing a worker with all its entries. *)
Lemma deleteWorker_ok p a w :
  pool_ok p → heap p !! a = Some w → ∃ p', deleteWorker a p = Some p' ∧ pool_ok p'.
Proof.
  intros Hp Ha. unfold deleteWorker. rewrite Ha. cbn [mbind option_bind]. eexists. split; [done|].
  set (g := λ s, set_waiting _ s).
  assert (Hp1 : pool_ok (update_service (w_serviceName w) g p)).
  { destruct (services p !! w_serviceName w) as [svc|] eqn:E.
    - replace (update_service (w_serviceName w) g p)
        with (update_service (w_serviceName w) (set_waiting (filter (λ x, x ≠ a) (waiting svc))) p).
      + apply (pool_ok_shrink _ _ svc); [done..|]. apply sublist_filter.
      + unfold update_service. f_equal. apply map_eq. intros n. rewrite !lookup_alter.
        case_decide; [|done]. subst n. by rewrite E.
    - unfold update_service. replace (alter g _ _) with (services p); [by destruct p|].
      apply map_eq. intros n. rewrite lookup_alter. case_decide; [|done]. subst n. by rewrite E. }
  apply (pool_ok_erase _ a w); [done|done|].
  intros n svc. rewrite lookup_update_service. case_decide as E.
  - intros (s & Hs & ->)%fmap_Some. simpl. rewrite list_elem_of_filter. tauto.
  - intros Hs Hin. destruct (po_waiting p Hp n svc a Hs Hin) as (v & Hv & Hvn). congruence.
Qed.

(** The events of the broker that touch the pool. *)
Inductive pool_event : Type :=
  | WorkerReady (sock : socket) (id serviceName desc : bytes) (expiry0 expiry now : Z)
  | WorkerReply (id : bytes) (expiry now : Z)              (* the client is still there *)
  | WorkerUnknown (sock : socket) (id serviceName : bytes) (expiry0 : Z)
                                                           (* reply or heartbeat of an unknown worker *)
  | WorkerSeen (sock : socket) (id serviceName : bytes) (expiry0 : Z)
                                                           (* a notification, or anything else *)
  | WorkerHeartbeat (id : bytes) (expiry : Z)
  | Request (m : BrokerMessage) (service : bytes) (now : Z)
  | Purge (now : Z).

Section pool_events.
Context (roles : list bytes) (order : walk) (uninit_id : Z).

Definition run_event (e : pool_event) (p : pool) : option (pool * list output) :=
  match e with
  | WorkerReady sock id nm desc expiry0 expiry now => worker_ready roles sock id nm desc expiry0 expiry now order p
  | WorkerReply id expiry now => a ← workers p !! id; workerWaiting expiry now order a p
  | WorkerUnknown sock id nm expiry0 =>
      let '(a, _, p1) := emplace_worker sock id nm expiry0 p in disconnectWorker uninit_id a p1
  | WorkerSeen sock id nm expiry0 => Some ((emplace_worker sock id nm expiry0 p).2, [])
  | WorkerHeartbeat id expiry =>
      a ← workers p !! id; w ← heap p !! a;
      Some (mkpool (workers p) (<[a := set_expiry expiry w]> (heap p)) (next_address p) (services p), [])
  | Request m n now => put_request m n now order p
  | Purge now => p' ← purgeWorkers now (order (services p)) p; Some (p', [])
  end.

(** What the other side has to keep to. *)
Definition well_behaved (e : pool_event) (p : pool) : Prop :=
  match e with
  | WorkerReady _ id nm _ _ _ _ =>
      match workers p !! id with
      | None => True
      | Some a => idle p a ∧ w_serviceName <$> heap p !! a = Some nm
      end
  | WorkerReply id _ _ =>
      ∃ a w, workers p !! id = Some a ∧ heap p !! a = Some w ∧ idle p a
             ∧ is_Some (services p !! w_serviceName w)
  | WorkerUnknown _ id _ _ => workers p !! id = None
  | WorkerHeartbeat id _ => is_Some (workers p !! id)
  | Request _ n _ => is_Some (services p !! n)
  | WorkerSeen _ _ _ _ | Purge _ => True
  end.

Context `{!WalkOrder order}.

Lemma run_ready sock id nm desc e0 e now p :
  pool_ok p → well_behaved (WorkerReady sock id nm desc e0 e now) p →
  ∃ p' outs, run_event (WorkerReady sock id nm desc e0 e now) p = Some (p', outs) ∧ pool_ok p'.
Proof.
  intros Hp Hw. simpl in *. unfold worker_ready. pose proof (emplace_worker_ok sock id nm e0 p Hp) as He.
  assert (Hk : (emplace_worker sock id nm e0 p).1.2 = bool_decide (is_Some (workers p !! id))).
  { unfold emplace_worker. by destruct (workers p !! id). }
  destruct (emplace_worker sock id nm e0 p) as [[a known] p1]. simpl in Hk.
  destruct He as (Hp1 & Hs1 & Hwa & Hnew & Hold).
  destruct (requireService_ok roles nm desc p1 Hp1) as (Hp2 & Hh2 & Hw2 & Hs2 & Hi2).
  assert (∃ w, heap p1 !! a = Some w ∧ w_serviceName w = nm ∧ idle p1 a) as (w & Hwh & Hwn & Hidle).
  { destruct known.
    - rewrite (Hold eq_refl) in *. rewrite Hwa in Hw. destruct Hw as [Hi Hn]. apply fmap_Some in Hn as (w & ? & ?). eauto.
    - destruct (Hnew eq_refl) as [Hi Hh]. eauto. }
  apply (workerWaiting_ok _ _ _ _ _ w); [done|done|by rewrite Hh2|by rewrite Hwn|by apply Hi2].
Qed.

Lemma run_event_ok e p :
  pool_ok p → well_behaved e p → ∃ p' outs, run_event e p = Some (p', outs) ∧ pool_ok p'.
Proof.
  intros Hp Hw. destruct e as [| | | | |m n now|now]; [by apply run_ready|..]; simpl in *.
  - destruct Hw as (a & w & Ha & Hh & Hi & Hs). rewrite Ha. simpl. by eapply workerWaiting_ok.
  - pose proof (emplace_worker_ok sock id serviceName expiry0 p Hp) as He. unfold emplace_worker in *.
    rewrite Hw in *. destruct He as (Hp1 & _ & _ & Hnew & _). destruct (Hnew eq_refl) as [_ Hh].
    unfold disconnectWorker. rewrite Hh. cbn [mbind option_bind].
    destruct (deleteWorker_ok _ _ _ Hp1 Hh) as (p' & -> & Hp'). cbn [mbind option_bind]. eauto.
  - pose proof (emplace_worker_ok sock id serviceName expiry0 p Hp) as He.
    destruct (emplace_worker sock id serviceName expiry0 p) as [[a k] p1]. destruct He as (Hp1 & _). eauto.
  - destruct Hw as [a Ha]. destruct (po_workers p Hp id a Ha) as (w & Hw & _). rewrite Ha. simpl. rewrite Hw. simpl.
    eexists _, _. split; [done|]. by apply pool_ok_expiry.
  - destruct Hw as [svc Hs]. unfold put_request. rewrite Hs. cbn [mbind option_bind].
    assert (Hp1 : pool_ok (update_service n (putMessage m) p)).
    { apply pool_ok_update; [done|done|]. intros s. apply putMessage_ok. }
    set (p1 := update_service n (putMessage m) p) in *.
    destruct (dispatch_lemma now (order (services p1)) n p1 (putMessage m svc)) as (p' & ws & Hd & _ & Hp' & _);
      [done|by apply walks_order| |eauto].
    unfold p1. by rewrite lookup_update_service, decide_True, Hs.
  - destruct (walks_order order p _) as [Hnd Hor].
    destruct (purgeWorkers_spec now (order (services p)) p Hp Hnd) as (p' & -> & Hp' & _); [by intros n; apply Hor|].
    simpl. eauto.
Qed.

(** The pools the broker goes through. *)
Inductive pool_reachable : pool → Prop :=
  | pool_start p :
      p = foldr (λ x, addInternalService roles x.1 x.2) (mkpool ∅ ∅ 0 ∅)
            [(str "/mmi.dns", MmiDns); (str "/mmi.echo", MmiEcho); (str "/mmi.service", MmiService);
             (str "/mmi.openapi", MmiOpenapi)] →
      pool_reachable p
  | pool_step p e p' outs :
      pool_reachable p → well_behaved e p → run_event e p = Some (p', outs) → pool_reachable p'.

Lemma addInternalService_ok nm h p : pool_ok p → pool_ok (addInternalService roles nm h p).
Proof.
  intros [Hw Hh Hn Hwt Hnd Hs]. unfold addInternalService. destruct (services p !! nm); [done|].
  split; cbn [workers heap next_address services set_services]; [done|done|done| | |].
  - intros n svc a [[<- <-]|[Hne Hx]]%lookup_insert_Some; [by intros ?%elem_of_nil|by eapply Hwt].
  - intros n svc [[<- <-]|[Hne Hx]]%lookup_insert_Some; [apply NoDup_nil_2|by eapply Hnd].
  - intros n svc [[<- <-]|[Hne Hx]]%lookup_insert_Some; [apply new_internal_ok|by eapply Hs].
Qed.

Lemma pool_reachable_ok p : pool_reachable p → pool_ok p.
Proof.
  induction 1 as [p ->|p e p' outs _ IH Hw Hr].
  - simpl. repeat apply addInternalService_ok. split; simpl; intros *; rewrite lookup_empty; done.
  - destruct (run_event_ok e p IH Hw) as (p'' & outs' & He & Hok). rewrite Hr in He. by simplify_eq.
Qed.
End pool_events.

(** As long as workers keep to the protocol, the broker never touches a worker
    it has erased, whatever the order of events, the times at which workers
    expire and the order in which the tables are walked: every event is
    handled, and the invariant holds after it. *)
Theorem pool_safety roles order uninit_id `{!WalkOrder order} p e :
  pool_reachable roles order uninit_id p → well_behaved e p →
  ∃ p' outs, run_event roles order uninit_id e p = Some (p', outs) ∧ pool_ok p'
    ∧ pool_reachable roles order uninit_id p'.
Proof.
  intros Hr Hw. destruct (run_event_ok roles order uninit_id e p) as (p' & outs & He & Hp'); [|done|].
  { by eapply pool_reachable_ok. }
  exists p', outs. split_and!; [done..|]. by eapply pool_step.
Qed.

Definition sample_walk : walk := λ ss, (map_to_list ss).*1.

Definition start_pool (roles : list bytes) : pool :=
  foldr (λ x, addInternalService roles x.1 x.2) (mkpool ∅ ∅ 0 ∅)
    [(str "/mmi.dns", MmiDns); (str "/mmi.echo", MmiEcho); (str "/mmi.service", MmiService);
     (str "/mmi.openapi", MmiOpenapi)].

Definition sample_ready : pool_event := WorkerReady RouterSocket (str "w") (str "/s") [] 0 1000 0.

Lemma pool_safety_witness :
  well_behaved sample_ready (start_pool [])
  ∧ ∃ p' outs, run_event [] sample_walk 0 sample_ready (start_pool []) = Some (p', outs) ∧ pool_ok p'
    ∧ pool_reachable [] sample_walk 0 p'.
Proof.
  assert (Hw : well_behaved sample_ready (start_pool [])) by exact I.
  split; [exact Hw|]. apply (pool_safety [] sample_walk 0); [by apply pool_start|exact Hw].
Defined.

(** [dispatch] first drops the overdue workers, then hands the pending
    requests, in their order, to the waiting workers of the service, in
    theirs: nothing is lost or sent twice, and afterwards there is no idle
    worker or no pending request left.  Other services keep their requests. *)
Theorem dispatch_spec now order n p svc :
  WalkOrder order → pool_ok p → services p !! n = Some svc →
  ∃ p' svc' ws,
    dispatch now (order (services p)) n p = Some (p', zip_with assign ws (pending svc))
    ∧ services p' !! n = Some svc'
    ∧ mapM (λ a, heap p !! a) (filter (alive now (heap p)) (waiting svc)) = Some ws
    ∧ pending svc = take (length ws) (pending svc) ++ pending svc'
    ∧ (waiting svc' = [] ∨ pending svc' = [])
    ∧ (∀ n' x, n' ≠ n → services p !! n' = Some x →
         ∃ y, services p' !! n' = Some y ∧ pending y = pending x)
    ∧ pool_ok p'.
Proof.
  intros Ho Hp Hsvc.
  destruct (dispatch_lemma now (order (services p)) n p svc Hp (walks_order order p Ho) Hsvc)
    as (p' & ws & Hd & Hws & Hp' & _ & (svc' & Hs' & _ & Hw & Hpe) & Hoth & _).
  exists p', svc', ws. assert (Hlen := length_mapM _ _ _ Hws). split_and!; [done..| | | |done].
  - by rewrite Hpe, take_drop.
  - rewrite Hw, Hpe. destruct (Nat.le_ge_cases (length ws) (length (pending svc))).
    + left. apply drop_ge. lia.
    + right. by apply drop_ge.
  - intros n' x Hne Hx. rewrite Hoth, Hx by done. by exists (purged now (heap p) x).
Qed.

Definition run_events (es : list pool_event) (p : pool) : option (pool * list output) :=
  foldl (λ r e, '(p, o) ← r; '(p', o') ← run_event [] sample_walk 0 e p; Some (p', o ++ o')) (Some (p, [])) es.

Lemma dispatch_spec_witness :
  let p := start_pool [] in
  ∃ p' svc' ws, dispatch 0 (sample_walk (services p)) (str "/mmi.echo") p = Some (p', zip_with assign ws [])
    ∧ services p' !! str "/mmi.echo" = Some svc' ∧ (waiting svc' = [] ∨ pending svc' = []).
Proof.
  intros p.
  assert (Hp : pool_ok p) by (by apply (pool_reachable_ok [] sample_walk 0), pool_start).
  destruct (dispatch_spec 0 sample_walk (str "/mmi.echo") p (new_internal [] (str "/mmi.echo") MmiEcho) _ Hp)
    as (p' & svc' & ws & Hd & Hs & _ & _ & Hw & _); [reflexivity|].
  exists p', svc', ws. split; [exact Hd|]. by split.
Defined.

(** Sending [Ready] twice, or a [Partial] reply before the [Final] one, puts
    the same worker into the waiting list twice; when it is overdue, the
    broker erases it and then looks at it again. *)
Lemma second_ready_undefined :
  is_Some (run_events [sample_ready; sample_ready] (start_pool []))
  ∧ run_events [sample_ready; sample_ready; Purge 2000] (start_pool []) = None.
Proof. vm_compute. split; [by eexists|reflexivity]. Qed.

Lemma partial_reply_undefined :
  let es := [sample_ready; Request (sample_request [] (str "body")) (str "/s") 10;
             WorkerReply (str "w") 1010 11; WorkerReply (str "w") 1020 12] in
  is_Some (run_events es (start_pool [])) ∧ run_events (es ++ [Purge 3000]) (start_pool []) = None.
Proof. vm_compute. split; [by eexists|reflexivity]. Qed.

(** A worker first seen through a notification for one service that then
    announces another has its own service looked up without success. *)
Lemma ready_for_other_service_undefined :
  run_events [WorkerSeen RouterSocket (str "w") (str "/a") 0;
              WorkerReady RouterSocket (str "w") (str "/b") [] 0 1000 0] (start_pool []) = None.
Proof. vm_compute. reflexivity. Qed.

(** ** The service of a request *)

Definition matches (sn name : bytes) : Prop := starts_with sn (removeSlash name) = true.

Lemma lessByLength_length l r : lessByLength l r = true → length l ≤ length r.
Proof.
  unfold lessByLength. destruct (Nat.eqb_spec (length l) (length r)); [lia|]. intros ?%Nat.ltb_lt. lia.
Qed.

Lemma not_lessByLength_length l r : lessByLength l r = false → length r ≤ length l.
Proof.
  unfold lessByLength. destruct (Nat.eqb_spec (length l) (length r)); [lia|]. intros ?%Nat.ltb_ge. lia.
Qed.

(** The candidate so far is a shortest match among those seen. *)
Definition best_so_far (sn : bytes) (seen : list bytes) (best : option (bytes * bytes)) : Prop :=
  match best with
  | None => ∀ n, n ∈ seen → ¬ matches sn n
  | Some (bn, name) =>
      bn = removeSlash name ∧ name ∈ seen ∧ matches sn name
      ∧ ∀ n, n ∈ seen → matches sn n → length bn ≤ length (removeSlash n)
  end.

Lemma best_match_inv sn order seen best :
  best_so_far sn seen best →
  ∃ best', best_match sn order best = snd <$> best' ∧ best_so_far sn (seen ++ order) best'.
Proof.
  revert seen best. induction order as [|name order IH]; intros seen best Hb.
  { exists best. by rewrite app_nil_r. }
  assert (Hcons : seen ++ name :: order = (seen ++ [name]) ++ order) by (by rewrite <- app_assoc).
  rewrite Hcons. cbn [best_match]. destruct (starts_with sn (removeSlash name)) eqn:Hm; cbn [negb].
  - destruct best as [[bn nm]|].
    + destruct Hb as (-> & Hin & Hmb & Hmin). destruct (lessByLength (removeSlash name) (removeSlash nm)) eqn:Hl; apply IH.
      * apply lessByLength_length in Hl. split_and!; [done|set_solver|done|].
        intros n [Hn| ->%list_elem_of_singleton]%elem_of_app Hmn; [|done]. pose proof (Hmin n Hn Hmn). lia.
      * apply not_lessByLength_length in Hl. split_and!; [done|set_solver|done|].
        intros n [Hn| ->%list_elem_of_singleton]%elem_of_app Hmn; [by apply Hmin|done].
    + apply IH. split_and!; [done|set_solver|done|].
      intros n [Hn| ->%list_elem_of_singleton]%elem_of_app Hmn; [by destruct (Hb n Hn)|done].
  - apply IH. assert (Hnm : ¬ matches sn name) by (unfold matches; by rewrite Hm).
    destruct best as [[bn nm]|].
    + destruct Hb as (-> & Hin & Hmb & Hmin). split_and!; [done|set_solver|done|].
      intros n [Hn| ->%list_elem_of_singleton]%elem_of_app Hmn; [by apply Hmin|done].
    + intros n [Hn| ->%list_elem_of_singleton]%elem_of_app; [by apply Hb|done].
Qed.

(** A request goes to a service whose name is a prefix of the requested one,
    leading slashes aside, and none is found only if there is none.  Of several
    it is the shortest name, so the same up to the slash for every order in
    which the table is walked. *)
Theorem best_match_spec order serviceName :
  let sn := removeSlash serviceName in
  match bestMatchingService order serviceName with
  | None => ∀ n, n ∈ order → ¬ matches sn n
  | Some name =>
      name ∈ order ∧ matches sn name
      ∧ ∀ n, n ∈ order → matches sn n →
          length (removeSlash name) ≤ length (removeSlash n)
          ∧ (length (removeSlash n) = length (removeSlash name) → removeSlash n = removeSlash name)
  end.
Proof.
  intros sn. unfold bestMatchingService. fold sn.
  destruct (best_match_inv sn order [] None) as (best & -> & Hb); [by intros n ?%elem_of_nil|]. simpl in Hb.
  destruct best as [[bn name]|]; [|done]. destruct Hb as (-> & Hin & Hm & Hmin). simpl. split_and!; [done..|].
  intros n Hn Hmn. split; [by apply Hmin|]. intros Hl.
  unfold matches in *. apply starts_with_true in Hm, Hmn. rewrite Hm in Hmn.
  by apply app_inj_1 in Hmn as [? _].
Qed.

(** So a service is hidden by any other whose name is a prefix of its own,
    also within a path segment. *)
Lemma prefix_hides_service :
  bestMatchingService [str "/dev/power"; str "/de"; str "/dev"] (str "/dev/power") = Some (str "/de").
Proof. reflexivity. Qed.
