(* ===== verification/Broker.v ===== *)
(** * Broker: the message loop of [majordomo/Broker.hpp]

    The whole state of the broker and its handlers: messages of clients,
    workers, DNS peers and the REST server, the internal services, and the
    maintenance tasks.  An exception that leaves a handler and a use of an
    erased worker are results of their own. *)

From stdpp Require Import sorting.
From S2P Require Import Prelude Text Rbac Uri Topic Message Matching Service Subscriptions Pool.
Local Open Scope Z_scope.

Record client : Type := mkclient {
  c_socket : option socket;
  c_id : bytes;
  requests : list BrokerMessage;
  c_expiry : Z
}.

Record DnsServiceItem : Type := mkdns {
  address : bytes;
  d_serviceName : bytes;
  uris : gset bytes;               (* references are ordered by their text *)
  d_expiry : Z
}.

Record broker : Type := mkbroker {
  b_heartbeatAt : Z;
  b_tables : tables;
  b_clients : gmap bytes client;
  b_pool : pool;
  b_dnsCache : gmap bytes DnsServiceItem;
  b_dnsAddresses : gset bytes;
  b_dnsHeartbeatAt : Z;
  b_clock : nat;                   (* readings of the clock so far *)
  b_out : list output
}.

Definition set_tables (t : tables) (b : broker) : broker :=
  mkbroker (b_heartbeatAt b) t (b_clients b) (b_pool b) (b_dnsCache b) (b_dnsAddresses b) (b_dnsHeartbeatAt b)
    (b_clock b) (b_out b).
Definition set_clients (c : gmap bytes client) (b : broker) : broker :=
  mkbroker (b_heartbeatAt b) (b_tables b) c (b_pool b) (b_dnsCache b) (b_dnsAddresses b) (b_dnsHeartbeatAt b)
    (b_clock b) (b_out b).
Definition set_pool (p : pool) (b : broker) : broker :=
  mkbroker (b_heartbeatAt b) (b_tables b) (b_clients b) p (b_dnsCache b) (b_dnsAddresses b) (b_dnsHeartbeatAt b)
    (b_clock b) (b_out b).
Definition set_dnsCache (c : gmap bytes DnsServiceItem) (b : broker) : broker :=
  mkbroker (b_heartbeatAt b) (b_tables b) (b_clients b) (b_pool b) c (b_dnsAddresses b) (b_dnsHeartbeatAt b)
    (b_clock b) (b_out b).
Definition set_dnsAddresses (a : gset bytes) (b : broker) : broker :=
  mkbroker (b_heartbeatAt b) (b_tables b) (b_clients b) (b_pool b) (b_dnsCache b) a (b_dnsHeartbeatAt b)
    (b_clock b) (b_out b).
Definition set_times (h d : Z) (b : broker) : broker :=
  mkbroker h (b_tables b) (b_clients b) (b_pool b) (b_dnsCache b) (b_dnsAddresses b) d (b_clock b) (b_out b).
Definition tick (b : broker) : broker :=
  mkbroker (b_heartbeatAt b) (b_tables b) (b_clients b) (b_pool b) (b_dnsCache b) (b_dnsAddresses b)
    (b_dnsHeartbeatAt b) (S (b_clock b)) (b_out b).
Definition add_out (o : list output) (b : broker) : broker :=
  mkbroker (b_heartbeatAt b) (b_tables b) (b_clients b) (b_pool b) (b_dnsCache b) (b_dnsAddresses b)
    (b_dnsHeartbeatAt b) (b_clock b) (b_out b ++ o).

(** ** The monad of the handlers *)

Inductive ending (A : Type) : Type := Val (a : A) | Exn (e : exn) | Undefined.
Arguments Val {A}.
Arguments Exn {A}.
Arguments Undefined {A}.

Definition M (A : Type) : Type := broker → ending A * broker.

#[export] Instance M_ret : MRet M := λ A a b, (Val a, b).
#[export] Instance M_bind : MBind M := λ A B k m b,
  match m b with
  | (Val a, b') => k a b'
  | (Exn e, b') => (Exn e, b')
  | (Undefined, b') => (Undefined, b')
  end.

Definition gets {A} (g : broker → A) : M A := λ b, (Val (g b), b).
Definition modify (g : broker → broker) : M () := λ b, (Val (), g b).
Definition lift {A} (r : result A) : M A := λ b, (match r with Ok a => Val a | Throw e => Exn e end, b).
Definition emit (o : list output) : M () := modify (add_out o).
Definition undefined {A} : M A := λ b, (Undefined, b).

Definition with_pool (g : pool → option (pool * list output)) : M () := λ b,
  match g (b_pool b) with
  | Some (p, o) => (Val (), add_out o (set_pool p b))
  | None => (Undefined, b)
  end.

Fixpoint for_each {A} (l : list A) (g : A → M ()) : M () :=
  match l with
  | [] => mret ()
  | x :: l' => g x ;; for_each l' g
  end.

(** ** What surrounds the broker

    Its settings and options; the clock, by number of reading; the orders in
    which the hash maps are walked; what uninitialised variables hold. *)
Record environment : Type := mkenv {
  roles : list bytes;
  brokerName : bytes;
  heartbeatInterval : Z;
  heartbeatLiveness : Z;
  clientTimeout : Z;
  dnsTimeout : Z;
  hasRest : bool;
  rbacHandler : option (BrokerMessage → BrokerMessage);
  subscriptionMatcher : Matching.matcher;
  clock : nat → Z;
  walk_services : walk;
  walk_clients : gmap bytes client → list bytes;
  walk_topics : gmap Topic.t Z → list Topic.t;
  walk_dns : gmap bytes DnsServiceItem → list bytes;
  uninit_id : Z;
  uninit : Z
}.

Definition INTERNAL_SERVICE_NAMES : bytes := str "/mmi.service".
Definition INTERNAL_SERVICE_NAMES_URI : uri := mkuri (str "/mmi.service") [] [] (str "/mmi.service") [] [].

(** ** Text helpers of the DNS service *)

Definition whitespace (c : ascii) : bool := one_of [" "%char; chr 12; chr 10; chr 13; chr 9; chr 11] c.

Definition trimmed (s : bytes) : bytes := reverse (drop_while whitespace (reverse (drop_while whitespace s))).

(** [split]: it steps over one character, whatever the delimiter. *)
Fixpoint split (fuel : nat) (s delim : bytes) : list bytes :=
  match fuel with
  | O => [s]
  | S fuel' => match find_sub s delim with
               | None => [s]
               | Some pos => take pos s :: split fuel' (drop (pos + 1) s) delim
               end
  end.

Definition stripStart (s stripChars : bytes) : bytes := drop_while (one_of stripChars) s.

Definition iequal (l r : bytes) : bool := bool_decide (to_lower <$> l = to_lower <$> r).

Definition sort_strings (l : list bytes) : list bytes := merge_sort id_le l.

Definition uri_matches (queryScheme : option bytes) (strippedQueryPath stripFrom : bytes) (dnsEntry : uri) : bool :=
  match queryScheme with
  | Some q => iequal (default [] (returnOpt (u_scheme dnsEntry))) q
  | None => true
  end
  && starts_with (stripStart (default [] (returnOpt (u_path dnsEntry))) stripFrom) strippedQueryPath.

(** The references in the cache are kept by their text, which parsed when it
    was stored. *)
Definition stored_uri (s : bytes) : uri :=
  match parseURI RELAXED s with Ok u => u | Throw _ => mkuri s [] [] [] [] [] end.

Definition findDnsEntry (name : bytes) (items : list DnsServiceItem) (s : bytes) : result bytes :=
  rbind (parseURI RELAXED s) (λ query,
    let strippedQueryPath := stripStart (default [] (returnOpt (u_path query))) (str "/") in
    let stripFrom := if starts_with strippedQueryPath (str "/mmi.") then "/"%char :: name else str "/" in
    let results := concat ((λ i, filter (λ x, uri_matches (returnOpt (u_scheme query)) strippedQueryPath stripFrom (stored_uri x) = true)
                                   (sort_strings (elements (uris i)))) <$> items) in
    Ok (str "[" ++ s ++ str ": "
        ++ join (str ",") (match sort_strings results with [] => [str "null"] | r => r end) ++ str "]")).

Definition format_item (i : DnsServiceItem) : bytes :=
  str "[" ++ d_serviceName i ++ str ": " ++ join (str ",") (sort_strings (elements (uris i))) ++ str "]".

Definition item_le (x y : DnsServiceItem) : Prop := id_le (d_serviceName x) (d_serviceName y).

#[export] Instance item_le_dec x y : Decision (item_le x y).
Proof. unfold item_le. apply _. Defined.

Section broker.
Context (E : environment).

Definition now : M Z := λ b, (Val (clock E (b_clock b)), tick b).

Definition updatedClientExpiry : M Z := t ← now; mret (t + clientTimeout E).
Definition updatedWorkerExpiry : M Z := t ← now; mret (t + heartbeatInterval E * heartbeatLiveness E).
Definition updatedDnsExpiry : M Z := t ← now; mret (t + dnsTimeout E * heartbeatLiveness E).

(** ** DNS registration *)

Definition ready_message (t : uri) : message WithoutSourceId :=
  @mkmsg WithoutSourceId tt (uninit_id E) 0 default_timeout clientProtocol Ready (brokerName E) (str "clientID") t
    [] [] rbac_token.

Definition emplace_dns (key addr name : bytes) : M DnsServiceItem :=
  c ← gets b_dnsCache;
  match c !! key with
  | Some i => mret i
  | None => let i := mkdns addr name ∅ 0 in modify (set_dnsCache (<[key := i]> c)) ;; mret i
  end.

Definition insert_uri (key u : bytes) : M () :=
  modify (λ b, set_dnsCache (alter (λ i, mkdns (address i) (d_serviceName i) ({[u]} ∪ uris i) (d_expiry i)) key
                               (b_dnsCache b)) b).

Definition set_dns_expiry (key : bytes) (e : Z) : M () :=
  modify (λ b, set_dnsCache (alter (λ i, mkdns (address i) (d_serviceName i) (uris i) e) key (b_dnsCache b)) b).

Definition registerWithDnsServices (t : uri) : M () :=
  _ ← emplace_dns (brokerName E) [] (brokerName E);
  u ← lift (parseURI RELAXED (u_str t));
  insert_uri (brokerName E) (u_str u) ;;
  e ← updatedDnsExpiry;
  set_dns_expiry (brokerName E) e ;;
  emit [SendDns (ready_message t)].

Definition register_address (suffix : bytes) (dnsAddress : bytes) : M () :=
  t ← lift (parseURI STRICT (dnsAddress ++ suffix));
  registerWithDnsServices t.

Definition registerNewService (serviceName : bytes) : M () :=
  as_ ← gets b_dnsAddresses;
  for_each (in_set_order as_) (register_address (str "/" ++ stripStart serviceName (str "/"))).

Definition sendDnsHeartbeats (force : bool) : M () :=
  t ← now;
  b ← gets (λ b, b);
  if (b_dnsHeartbeatAt b <? t) || force then
    for_each (in_set_order (b_dnsAddresses b)) (register_address []) ;;
    for_each (walk_services E (services (b_pool b))) registerNewService
  else mret ().

Definition registerDnsAddress (addr : uri) : M () :=
  modify (λ b, set_dnsAddresses ({[u_str addr]} ∪ b_dnsAddresses b) b) ;;
  _ ← emplace_dns (brokerName E) [] (brokerName E);
  u ← lift (parseURI RELAXED (u_str addr));
  insert_uri (brokerName E) (u_str u) ;;
  sendDnsHeartbeats true.

(** ** Workers *)

Definition pool_workerWaiting (a : nat) : M () :=
  e ← updatedWorkerExpiry; t ← now;
  with_pool (workerWaiting e t (walk_services E) a).

Definition service_names_notice : BrokerMessage :=
  broker_message (uninit_id E) INTERNAL_SERVICE_NAMES [] Invalid INTERNAL_SERVICE_NAMES (brokerName E)
    INTERNAL_SERVICE_NAMES_URI [] [].

Definition deref (a : nat) : M worker :=
  p ← gets b_pool;
  match heap p !! a with Some w => mret w | None => undefined end.

(** A message with other names, as the code assigns them in place. *)
Definition readdress (src protocol service : bytes) (c : Command) (m : BrokerMessage) : BrokerMessage :=
  @mkmsg WithSourceId src (id m) (arrivalTime m) (timeout m) protocol c service (clientRequestID m) (topic m)
    (data m) (error m) (rbac m).

Definition answer (c : client) (m : BrokerMessage) : M () :=
  if bool_decide (c_id c = kRestSourceId) then
    if hasRest E then emit [RestResponse m] else mret ()
  else match c_socket c with
       | Some s => emit [Send s m]
       | None => lift (Throw RuntimeError)          (* std::bad_optional_access *)
       end.

Definition worker_reply (a : nat) (m : BrokerMessage) : M () :=
  cs ← gets b_clients;
  match cs !! serviceName m with
  | None => mret ()
  | Some c =>
      w ← deref a;
      let m' := readdress (serviceName m) clientProtocol (w_serviceName w) (command m) m in
      (if bool_decide (sourceId m' = kRestSourceId) then
         if hasRest E then emit [RestResponse m'] else mret ()
       else match c_socket c with
            | Some s => emit [Send s m']
            | None => lift (Throw RuntimeError)
            end) ;;
      pool_workerWaiting a
  end.

Definition processWorker (sock : socket) (m : BrokerMessage) : M () :=
  e ← updatedWorkerExpiry;
  p ← gets b_pool;
  let '(a, knownWorker, p1) := emplace_worker sock (sourceId m) (serviceName m) e p in
  modify (set_pool p1) ;;
  match command m with
  | Ready =>
      modify (λ b, set_pool (requireService (roles E) (serviceName m) (data m) (b_pool b)) b) ;;
      pool_workerWaiting a ;;
      registerNewService (serviceName m) ;;
      emit [Send PubSocket service_names_notice]
  | Partial | Final =>
      if knownWorker : bool then worker_reply a m else with_pool (disconnectWorker (uninit_id E) a)
  | Notify =>
      w ← deref a;
      let m' := readdress (sourceId m) clientProtocol (w_serviceName w) Final m in
      t ← gets b_tables;
      emit (dispatchMessageToMatchingSubscribers (uninit E) (hasRest E) (subscriptionMatcher E)
              (walk_topics E (subscribedTopics t)) m' t)
  | Heartbeat =>
      if knownWorker : bool then
        e' ← updatedWorkerExpiry;
        with_pool (λ q, w ← heap q !! a;
                        Some (mkpool (workers q) (<[a := set_expiry e' w]> (heap q)) (next_address q) (services q), []))
      else with_pool (disconnectWorker (uninit_id E) a)
  | _ => mret ()
  end.

(** ** Messages of clients *)

Definition with_tables (g : tables → tables * list output) : M () :=
  modify (λ b, let '(t, o) := g (b_tables b) in add_out o (set_tables t b)).

Definition enqueue (c0 : client) (m : BrokerMessage) : M () :=
  modify (λ b,
    let c := default c0 (b_clients b !! c_id c0) in
    set_clients (<[c_id c0 := mkclient (c_socket c) (c_id c) (requests c ++ [m]) (c_expiry c)]> (b_clients b)) b).

Definition receive_client (sock : socket) (m : BrokerMessage) : M bool :=
  match command m with
  | Ready =>
      u ← lift (parseURI RELAXED (u_str (topic m)));
      match returnOpt (u_scheme u) with
      | Some _ =>
          _ ← emplace_dns (serviceName m) (sourceId m) (serviceName m);
          insert_uri (serviceName m) (u_str u) ;;
          e ← updatedDnsExpiry;
          set_dns_expiry (serviceName m) e ;; mret true
      | None => mret true
      end
  | Subscribe =>
      match fromMdpTopic (uninit E) STRICT (topic m) with
      | Throw _ => mret false
      | Ok t => with_tables (client_subscribe (sourceId m) t) ;; mret true
      end
  | Unsubscribe =>
      match fromMdpTopic (uninit E) STRICT (topic m) with
      | Throw _ => mret false
      | Ok t => with_tables (client_unsubscribe (sourceId m) t) ;; mret true
      end
  | c =>
      (match c with Heartbeat => sendDnsHeartbeats true | _ => mret () end) ;;
      e ← updatedClientExpiry;
      enqueue (mkclient (Some sock) (sourceId m) [] e) m ;; mret true
  end.

(** [receiveMessage]; the result of [zmq::receive] is the argument. *)
Definition receiveMessage (sock : socket) (received : result (option BrokerMessage)) : M bool :=
  maybeMessage ← lift received;
  match maybeMessage with
  | None => mret false
  | Some m =>
      if bool_decide (protocolName m = clientProtocol) then receive_client sock m
      else processWorker sock m ;; mret true
  end.

Definition handleRestMessage (m0 : BrokerMessage) : M () :=
  let m := readdress kRestSourceId clientProtocol (serviceName m0) (command m0) m0 in
  match command m with
  | Get | Set_ => enqueue (mkclient None kRestSourceId [] 0) m
  | Subscribe =>
      match fromMdpTopic (uninit E) STRICT (topic m) with
      | Throw _ => mret ()
      | Ok t => with_tables (client_subscribe (sourceId m) t)
      end
  | Unsubscribe =>
      match fromMdpTopic (uninit E) STRICT (topic m) with
      | Throw _ => mret ()
      | Ok t => with_tables (client_unsubscribe (sourceId m) t)
      end
  | _ => mret ()
  end.

Definition receivePub (frame : option bytes) : M bool :=
  match frame with
  | None => mret false
  | Some f => λ b, let '(r, t, o) := receivePubMessage (uninit E) f (b_tables b) in
                   (Val r, add_out o (set_tables t b))
  end.

(** ** The internal services *)

Definition set_reply (c : Command) (body err : bytes) (m : BrokerMessage) : BrokerMessage :=
  @mkmsg WithSourceId (sourceId m) (id m) (arrivalTime m) (timeout m) (protocolName m) c (serviceName m)
    (clientRequestID m) (topic m) body err (rbac m).

Fixpoint map_result {A B} (g : A → result B) (l : list A) : result (list B) :=
  match l with
  | [] => Ok []
  | x :: l' => rbind (g x) (λ y, rbind (map_result g l') (λ ys, Ok (y :: ys)))
  end.

Definition dns_items (b : broker) : list DnsServiceItem :=
  omap (λ k, b_dnsCache b !! k) (walk_dns E (b_dnsCache b)).

Definition mmi_dns (m : BrokerMessage) : M BrokerMessage :=
  b ← gets (λ b, b);
  reply ← lift (if is_nil (data m) || bool_decide (find_if (one_of (str ",:/")) (data m) = None)
                then Ok (join (str ",") (format_item <$> merge_sort item_le (dns_items b)))
                else rbind (map_result (λ v, findDnsEntry (brokerName E) (dns_items b) (trimmed v))
                              (split (length (data m)) (data m) (str ",")))
                       (λ rs, Ok (join (str ",") rs)));
  mret (set_reply Final reply (error m) m).

Definition run_internal (h : internal) (m : BrokerMessage) : M BrokerMessage :=
  match h with
  | MmiDns => mmi_dns m
  | MmiEcho => mret m
  | MmiService =>
      ss ← gets (services ∘ b_pool);
      mret (if is_nil (data m)
            then set_reply Final (join (str ",") (sort_strings (walk_services E ss))) (error m) m
            else set_reply Final (match ss !! data m with Some _ => str "200" | None => str "404" end) (error m) m)
  | MmiOpenapi =>
      ss ← gets (services ∘ b_pool);
      mret (match ss !! data m with
            | Some s => set_reply Final (description s) [] m
            | None => set_reply Final [] (str "Requested invalid service '" ++ data m ++ str "'") m
            end)
  end.

(** ** Serving the clients *)

Definition unknown_service (m : BrokerMessage) : BrokerMessage :=
  @mkmsg WithSourceId (sourceId m) (id m) (arrivalTime m) (timeout m) (protocolName m) Final (serviceName m)
    (clientRequestID m) INTERNAL_SERVICE_NAMES_URI []
    (str "unknown service (error 501): '" ++ serviceName m ++ str "'") rbac_token.

(** One request of the client; [true]: the loop returns. *)
Definition serve (c : client) (m0 : BrokerMessage) : M bool :=
  let m := match rbacHandler E with Some h => h m0 | None => m0 end in
  p ← gets b_pool;
  match bestMatchingService (walk_services E (services p)) (serviceName m) with
  | None => answer c (unknown_service m) ;; mret false
  | Some n =>
      match services p !! n ≫= internalHandler with
      | Some h => reply ← run_internal h m; answer c reply ;; mret true
      | None => t ← now; with_pool (put_request m n t (walk_services E)) ;; mret true
      end
  end.

Fixpoint serve_clients (order : list bytes) : M () :=
  match order with
  | [] => mret ()
  | i :: order' =>
      cs ← gets b_clients;
      match cs !! i with
      | None => serve_clients order'
      | Some c =>
          match requests c with
          | [] => serve_clients order'
          | m :: rest =>
              modify (set_clients (<[i := mkclient (c_socket c) (c_id c) rest (c_expiry c)]> cs)) ;;
              stop ← serve c m;
              if stop : bool then mret () else serve_clients order'
          end
      end
  end.

Definition processClients : M () := cs ← gets b_clients; serve_clients (walk_clients E cs).

(** ** Maintenance *)

Definition purge_workers : M () :=
  t ← now;
  with_pool (λ p, p' ← purgeWorkers t (walk_services E (services p)) p; Some (p', [])).

Definition purgeClients : M () :=
  if clientTimeout E =? 0 then mret ()
  else t ← now;
       modify (λ b, set_clients (filter (λ x, ¬ (x.1 ≠ kRestSourceId ∧ c_expiry x.2 < t)) (b_clients b)) b).

Definition sendHeartbeats : M () :=
  t ← now;
  b ← gets (λ b, b);
  if t <? b_heartbeatAt b then mret ()
  else
    with_pool (λ p, o ← heartbeats (uninit_id E) (walk_services E (services p)) p; Some (p, o)) ;;
    t' ← now;
    modify (λ b, set_times (t' + heartbeatInterval E) (b_dnsHeartbeatAt b) b).

Definition challenge (i : DnsServiceItem) : BrokerMessage :=
  broker_message (uninit_id E) (address i) clientProtocol Heartbeat (d_serviceName i) (str "dnsChallenge")
    root_topic [] rbac_token.

Definition challenge_service (newExpiry : Z) (k : bytes) : M () :=
  c ← gets b_dnsCache;
  match c !! k with
  | None => mret ()
  | Some i => if bool_decide (d_serviceName i = brokerName E) then set_dns_expiry k newExpiry
              else emit [Send RouterSocket (challenge i)]
  end.

Definition purgeDnsServices : M () :=
  t ← now;
  b ← gets (λ b, b);
  if t <? b_dnsHeartbeatAt b then mret ()
  else
    sendDnsHeartbeats false ;;
    newExpiry ← updatedDnsExpiry;
    c ← gets b_dnsCache;
    for_each (walk_dns E c) (challenge_service newExpiry) ;;
    modify (λ b, set_dnsCache (filter (λ x, ¬ d_expiry x.2 < t) (b_dnsCache b)) b) ;;
    modify (λ b, set_times (b_heartbeatAt b) (t + dnsTimeout E) b).

(** ** The loop *)

(** What one turn of the loop finds on the sockets. *)
Record arrivals : Type := mkarrivals {
  on_router : result (option BrokerMessage);
  on_dns : result (option BrokerMessage);
  on_sub : result (option BrokerMessage);
  on_pub : option bytes
}.

Definition turn (loopCount : nat) (x : arrivals) : M bool :=
  a1 ← receiveMessage RouterSocket (on_router x);
  a2 ← receiveMessage DnsSocket (on_dns x);
  a3 ← receiveMessage SubSocket (on_sub x);
  a4 ← receivePub (on_pub x);
  processClients ;;
  (if (loopCount mod 10 =? 0)%nat
   then purge_workers ;; purgeClients ;; sendHeartbeats ;; purgeDnsServices
   else mret ()) ;;
  mret (a1 || a2 || a3 || a4).

(** [processMessages] up to its poll: the messages of the REST server, then
    turns until one receives nothing; what is left of the arrivals. *)
Fixpoint turns (loopCount : nat) (xs : list arrivals) : M (list arrivals) :=
  match xs with
  | [] => mret []
  | x :: xs' => anythingReceived ← turn loopCount x;
                if anythingReceived : bool then turns (S loopCount) xs' else mret xs'
  end.

Definition processMessages (rest : list BrokerMessage) (xs : list arrivals) : M (list arrivals) :=
  for_each rest handleRestMessage ;; turns 0 xs.

Definition cleanup (order : list bytes) : M () :=
  for_each order (λ i, p ← gets b_pool;
                       match workers p !! i with
                       | Some a => with_pool (disconnectWorker (uninit_id E) a)
                       | None => mret ()
                       end).
End broker.

(** ** What the handlers leave alone

    [keeps R m]: [m] relates the state before and after by [R], however it
    ends. *)

Definition keeps {A} (R : broker → broker → Prop) (m : M A) : Prop := ∀ b, R b (m b).2.

Definition same_clients (b b' : broker) : Prop := b_clients b' = b_clients b.

Create HintDb keeps.

Section keeps.
Context (R : broker → broker → Prop) `{!PreOrder R}.

Lemma keeps_ret {A} (a : A) : keeps R (mret a).
Proof. intros b. reflexivity. Qed.
Lemma keeps_gets {A} (g : broker → A) : keeps R (gets g).
Proof. intros b. reflexivity. Qed.
Lemma keeps_lift {A} (r : result A) : keeps R (lift r).
Proof. intros b. reflexivity. Qed.
Lemma keeps_bind {A B} (m : M A) (k : A → M B) :
  keeps R m → (∀ a, keeps R (k a)) → keeps R (m ≫= k).
Proof.
  intros Hm Hk b. unfold mbind, M_bind. specialize (Hm b).
  destruct (m b) as [[a|e|] b']; [|done|done]. simpl in *. etrans; [done|apply Hk].
Qed.
Lemma keeps_for_each {A} (l : list A) (g : A → M ()) : (∀ x, keeps R (g x)) → keeps R (for_each l g).
Proof.
  intros Hg. induction l as [|x l IH]; [apply keeps_ret|]. apply keeps_bind; [apply Hg|by intros _].
Qed.
Lemma keeps_modify g : (∀ b, R b (g b)) → keeps R (modify g).
Proof. intros H b. apply H. Qed.
End keeps.

#[export] Instance same_clients_preorder : PreOrder same_clients.
Proof. split; unfold same_clients; [by intros b|intros x y z; congruence]. Qed.

#[export] Hint Resolve keeps_ret keeps_gets keeps_lift keeps_bind keeps_for_each keeps_modify : keeps.
#[export] Hint Extern 1 (PreOrder _) => apply _ : keeps.
#[export] Hint Extern 1 (same_clients _ _) => reflexivity : keeps.

Lemma keeps_now E : keeps same_clients (now E).
Proof. intros b. reflexivity. Qed.
Lemma keeps_emit o : keeps same_clients (emit o).
Proof. intros b. reflexivity. Qed.
Lemma keeps_with_pool g : keeps same_clients (with_pool g).
Proof. intros b. unfold with_pool. by destruct (g (b_pool b)) as [[p o]|]. Qed.
#[export] Hint Resolve keeps_now keeps_emit keeps_with_pool : keeps.

Lemma keeps_answer E c m : keeps same_clients (answer E c m).
Proof. unfold answer. case_bool_decide; [destruct (hasRest E)|destruct (c_socket c)]; auto with keeps. Qed.

Lemma keeps_run_internal E h m : keeps same_clients (run_internal E h m).
Proof. destruct h; unfold run_internal, mmi_dns; auto 10 with keeps. Qed.
#[export] Hint Resolve keeps_answer keeps_run_internal : keeps.

Lemma keeps_serve E c m : keeps same_clients (serve E c m).
Proof.
  unfold serve. apply keeps_bind; [apply _|auto with keeps|]. intros p.
  destruct (bestMatchingService _ _) as [n|]; [|auto with keeps].
  destruct (services p !! n ≫= internalHandler); auto with keeps.
Qed.

(** ** Requests are served in their order, and some request is *)

Definition queue (b : broker) (i : bytes) : list BrokerMessage :=
  match b_clients b !! i with Some c => requests c | None => [] end.

(** Every queue is as it was or has lost its first request. *)
Definition served (b b' : broker) (i : bytes) : Prop := ∃ m, queue b i = m :: queue b' i.

Lemma serve_clients_queues E order b b' :
  NoDup order → serve_clients E order b = (Val (), b') →
  (∀ i, queue b' i = queue b i ∨ served b b' i)
  ∧ (∀ i, i ∉ order → queue b' i = queue b i)
  ∧ ((∃ i, i ∈ order ∧ queue b i ≠ []) → ∃ i, served b b' i).
Proof.
  revert b. induction order as [|i order IH]; intros b Hnd Hs.
  { injection Hs as <-. split_and!; [by left|done|]. by intros (i & ?%elem_of_nil & _). }
  apply NoDup_cons in Hnd as [Hi Hnd]. cbn [serve_clients] in Hs. unfold mbind, M_bind at 1, gets in Hs.
  assert (Hskip : queue b i = [] → serve_clients E order b = (Val (), b') →
    (∀ j, queue b' j = queue b j ∨ served b b' j) ∧ (∀ j, j ∉ i :: order → queue b' j = queue b j)
    ∧ ((∃ j, j ∈ i :: order ∧ queue b j ≠ []) → ∃ j, served b b' j)).
  { intros Hq Hs'. destruct (IH b Hnd Hs') as (H1 & H2 & H3). split_and!; [done|set_solver|].
    intros (j & [->|Hj]%elem_of_cons & Hne); [done|]. eauto. }
  destruct (b_clients b !! i) as [c|] eqn:Hc.
  2:{ apply Hskip; [unfold queue; by rewrite Hc|done]. }
  destruct (requests c) as [|m rest] eqn:Hr.
  { apply Hskip; [unfold queue; by rewrite Hc|done]. }
  clear Hskip. set (b1 := set_clients (<[i := mkclient (c_socket c) (c_id c) rest (c_expiry c)]> (b_clients b)) b).
  change (match serve E c m b1 with
          | (Val stop, b2) => (if stop then mret () else serve_clients E order) b2
          | (Exn e, b2) => (Exn e, b2)
          | (Undefined, b2) => (Undefined, b2)
          end = (Val (), b')) in Hs.
  pose proof (keeps_serve E c m b1) as Hk. destruct (serve E c m b1) as [[stop|e|] b2]; [|done|done].
  simpl in Hk. unfold same_clients in Hk.
  assert (Hq2 : ∀ j, queue b2 j = if decide (i = j) then rest else queue b j).
  { intros j. unfold queue. rewrite Hk. simpl. rewrite lookup_insert. by case_decide. }
  assert (Hqi : queue b i = m :: rest) by (unfold queue; by rewrite Hc).
  destruct stop.
  - injection Hs as <-. split_and!.
    + intros j. rewrite (Hq2 j). case_decide; [subst|by left]. right. exists m. rewrite Hq2, decide_True; done.
    + intros j Hj. rewrite Hq2, decide_False; [done|]. set_solver.
    + intros _. exists i, m. rewrite Hq2, decide_True; done.
  - destruct (IH b2 Hnd Hs) as (H1 & H2 & _).
    assert (Hbi : queue b' i = rest) by (rewrite H2, Hq2, decide_True; done).
    split_and!.
    + intros j. destruct (decide (i = j)) as [<-|Hij]; [right; exists m; by rewrite Hbi|].
      destruct (H1 j) as [Hj|[x Hj]]; rewrite Hq2, decide_False in Hj by done; [by left|right; by exists x].
    + intros j Hj. rewrite H2, Hq2, decide_False by set_solver. done.
    + intros _. exists i, m. by rewrite Hbi.
Qed.

(** One call of [processClients] removes at most the first request of each
    client, so every client's requests are taken in the order of their arrival
    and none is skipped; and while any client has a request, some request is
    taken, whatever the order in which the clients are walked. *)
Theorem processClients_progress E b b' :
  (∀ cs, walk_clients E cs ≡ₚ (map_to_list cs).*1) →
  processClients E b = (Val (), b') →
  (∀ i, queue b' i = queue b i ∨ served b b' i)
  ∧ ((∃ i, queue b i ≠ []) → ∃ i, served b b' i).
Proof.
  intros Hw Hs. unfold processClients, mbind, M_bind, gets in Hs.
  destruct (serve_clients_queues E (walk_clients E (b_clients b)) b b') as (H1 & _ & H3); [rewrite Hw; apply NoDup_fst_map_to_list|exact Hs|].
  split; [done|]. intros (i & Hi). apply H3. exists i. split; [|done].
  rewrite Hw. apply list_elem_of_fmap. unfold queue in Hi.
  destruct (b_clients b !! i) as [c|] eqn:Hc; [|done].
  exists (i, c). split; [done|]. by apply elem_of_map_to_list.
Qed.

Definition sample_env (clk : nat → Z) : environment :=
  mkenv [] (str "broker") 1000 3 10000 10000 false None ∅ clk sample_walk (λ cs, (map_to_list cs).*1)
    (λ ts, (map_to_list ts).*1) (λ ds, (map_to_list ds).*1) 0 0.

Definition start_broker : broker := mkbroker 1000 no_subscriptions ∅ (start_pool []) ∅ ∅ 0 0 [].

Definition echo_request (i : bytes) : BrokerMessage :=
  @mkmsg WithSourceId i 0 0 10000 clientProtocol Get (str "/mmi.echo") (str "1") root_topic (str "hello") [] [].

Lemma processClients_progress_witness :
  let E := sample_env Z.of_nat in
  let b := (receiveMessage E RouterSocket (Ok (Some (echo_request (str "c")))) start_broker).2 in
  ∃ b', processClients E b = (Val (), b') ∧ b_out b' = [Send RouterSocket (echo_request (str "c"))]
        ∧ ∃ i, served b b' i.
Proof.
  intros E b. exists (processClients E b).2.
  assert (Hs : processClients E b = (Val (), (processClients E b).2)) by (vm_compute; reflexivity).
  split; [exact Hs|]. split; [vm_compute; reflexivity|].
  apply (processClients_progress E b (processClients E b).2); [by intros cs|exact Hs|].
  exists (str "c"). vm_compute. discriminate.
Defined.

(** ** Safety of the whole broker

    [safe m]: [m] keeps the invariant of the pool and uses no erased worker. *)

Definition safe {A} (m : M A) : Prop :=
  ∀ b, pool_ok (b_pool b) → (m b).1 ≠ Undefined ∧ pool_ok (b_pool (m b).2).

Create HintDb safe.

Lemma safe_ret {A} (a : A) : safe (mret a).
Proof. by intros b. Qed.
Lemma safe_gets {A} (g : broker → A) : safe (gets g).
Proof. by intros b. Qed.
Lemma safe_lift {A} (r : result A) : safe (lift r).
Proof. intros b. by destruct r. Qed.
Lemma safe_emit o : safe (emit o).
Proof. by intros b. Qed.
Lemma safe_now E : safe (now E).
Proof. by intros b. Qed.
Lemma safe_bind {A B} (m : M A) (k : A → M B) : safe m → (∀ a, safe (k a)) → safe (m ≫= k).
Proof.
  intros Hm Hk b Hb. unfold mbind, M_bind. destruct (Hm b Hb) as [H1 H2].
  destruct (m b) as [[a|e|] b']; [by apply Hk|done|done].
Qed.
Lemma safe_modify g : (∀ b, b_pool (g b) = b_pool b) → safe (modify g).
Proof. intros H b Hb. simpl. by rewrite H. Qed.
Lemma safe_for_each {A} (l : list A) (g : A → M ()) : (∀ x, safe (g x)) → safe (for_each l g).
Proof. intros Hg. induction l as [|x l IH]; [apply safe_ret|]. apply safe_bind; [apply Hg|by intros _]. Qed.
Lemma safe_with_pool g :
  (∀ p, pool_ok p → ∃ p' o, g p = Some (p', o) ∧ pool_ok p') → safe (with_pool g).
Proof. intros Hg b Hb. unfold with_pool. destruct (Hg _ Hb) as (p' & o & -> & Hp). done. Qed.

#[export] Hint Resolve safe_ret safe_gets safe_lift safe_emit safe_now safe_bind safe_modify safe_for_each : safe.

Lemma safe_with_tables g : safe (with_tables g).
Proof. intros b Hb. unfold with_tables, modify. by destruct (g (b_tables b)). Qed.
Lemma safe_receivePub E f : safe (receivePub E f).
Proof. destruct f as [f|]; [|by intros b]. intros b Hb. unfold receivePub. by destruct (receivePubMessage _ _ _) as [[r t] o]. Qed.
Lemma safe_expiry E : safe (updatedClientExpiry E) ∧ safe (updatedWorkerExpiry E) ∧ safe (updatedDnsExpiry E).
Proof. unfold updatedClientExpiry, updatedWorkerExpiry, updatedDnsExpiry. auto with safe. Qed.
Lemma safe_client_expiry E : safe (updatedClientExpiry E).
Proof. apply safe_expiry. Qed.
Lemma safe_dns_expiry E : safe (updatedDnsExpiry E).
Proof. apply safe_expiry. Qed.
#[export] Hint Resolve safe_with_tables safe_receivePub safe_client_expiry safe_dns_expiry : safe.

Lemma safe_emplace_dns k a n : safe (emplace_dns k a n).
Proof. unfold emplace_dns. apply safe_bind; [auto with safe|]. intros c. destruct (c !! k); auto with safe. Qed.
Lemma safe_insert_uri k u : safe (insert_uri k u).
Proof. by apply safe_modify. Qed.
Lemma safe_set_dns_expiry k e : safe (set_dns_expiry k e).
Proof. by apply safe_modify. Qed.
#[export] Hint Resolve safe_emplace_dns safe_insert_uri safe_set_dns_expiry : safe.

Lemma safe_register_address E s a : safe (register_address E s a).
Proof. unfold register_address, registerWithDnsServices. auto 10 with safe. Qed.
#[export] Hint Resolve safe_register_address : safe.
Lemma safe_registerNewService E n : safe (registerNewService E n).
Proof. unfold registerNewService. auto with safe. Qed.
#[export] Hint Resolve safe_registerNewService : safe.
Lemma safe_sendDnsHeartbeats E force : safe (sendDnsHeartbeats E force).
Proof.
  unfold sendDnsHeartbeats. apply safe_bind; [auto with safe|]. intros t. apply safe_bind; [auto with safe|].
  intros b. destruct (_ || _); auto with safe.
Qed.
#[export] Hint Resolve safe_sendDnsHeartbeats : safe.

Lemma safe_registerDnsAddress E u : safe (registerDnsAddress E u).
Proof. unfold registerDnsAddress. auto 10 with safe. Qed.

Lemma safe_answer E c m : safe (answer E c m).
Proof. unfold answer. case_bool_decide; [destruct (hasRest E)|destruct (c_socket c)]; auto with safe. Qed.
Lemma safe_run_internal E h m : safe (run_internal E h m).
Proof. destruct h; unfold run_internal, mmi_dns; auto 10 with safe. Qed.
Lemma safe_enqueue c m : safe (enqueue c m).
Proof. by apply safe_modify. Qed.
#[export] Hint Resolve safe_answer safe_run_internal safe_enqueue : safe.

Lemma safe_receive_client E sock m : safe (receive_client E sock m).
Proof.
  unfold receive_client. destruct (command m); auto 10 with safe.
  - apply safe_bind; [auto with safe|]. intros u. destruct (returnOpt _); auto 10 with safe.
  - destruct (fromMdpTopic _ _ _); auto with safe.
  - destruct (fromMdpTopic _ _ _); auto with safe.
Qed.

Lemma safe_handleRestMessage E m : safe (handleRestMessage E m).
Proof.
  unfold handleRestMessage. cbv zeta. destruct (command _); auto with safe; destruct (fromMdpTopic _ _ _); auto with safe.
Qed.

(** A handler that begins by reading the pool may use what it read. *)
Definition safe_in {A} (p : pool) (m : M A) : Prop :=
  ∀ b, b_pool b = p → (m b).1 ≠ Undefined ∧ pool_ok (b_pool (m b).2).

Lemma safe_gets_pool {A} (k : pool → M A) : (∀ p, pool_ok p → safe_in p (k p)) → safe (p ← gets b_pool; k p).
Proof. intros Hk b Hb. unfold mbind, M_bind, gets. by apply Hk. Qed.

Lemma safe_in_safe {A} p (m : M A) : pool_ok p → safe m → safe_in p m.
Proof. intros Hp Hm b <-. by apply Hm. Qed.

Lemma safe_in_now {A} E p (k : Z → M A) : (∀ t, safe_in p (k t)) → safe_in p (t ← now E; k t).
Proof. intros Hk b Hb. unfold mbind, M_bind, now. by apply Hk. Qed.

Lemma safe_in_with_pool {A} p g (k : () → M A) :
  (∃ p' o, g p = Some (p', o) ∧ pool_ok p') → (∀ u, safe (k u)) → safe_in p (u ← with_pool g; k u).
Proof.
  intros (p' & o & Hg & Hp) Hk b Hb. unfold mbind, M_bind, with_pool. rewrite Hb, Hg. by apply Hk.
Qed.

Section safe.
Context (E : environment) (HE : WalkOrder (walk_services E)).

Lemma best_match_service p sn n :
  bestMatchingService (walk_services E (services p)) sn = Some n → is_Some (services p !! n).
Proof.
  intros H. unfold bestMatchingService in H.
  destruct (best_match_inv (removeSlash sn) (walk_services E (services p)) [] None) as (best & Hb & Hs);
    [by intros x ?%elem_of_nil|].
  rewrite H in Hb. destruct best as [[bn x]|]; simplify_eq/=. destruct Hs as (_ & Hin & _).
  by apply (walks_order (walk_services E) p HE).
Qed.

Lemma safe_serve c m : safe (serve E c m).
Proof.
  unfold serve. cbv zeta. apply safe_gets_pool. intros p Hp.
  set (m' := match rbacHandler E with Some h => h m | None => m end).
  destruct (bestMatchingService _ _) as [n|] eqn:Hn; [|apply safe_in_safe; auto with safe].
  destruct (services p !! n ≫= internalHandler); [apply safe_in_safe; auto with safe|].
  apply safe_in_now. intros t. apply safe_in_with_pool; [|auto with safe].
  apply (run_event_ok [] (walk_services E) 0 (Request m' n t)); [done|]. by eapply best_match_service.
Qed.

Lemma safe_serve_clients order : safe (serve_clients E order).
Proof.
  induction order as [|i order IH]; [apply safe_ret|]. cbn [serve_clients].
  apply safe_bind; [auto with safe|]. intros cs. destruct (cs !! i) as [c|]; [|done].
  destruct (requests c) as [|m rest]; [done|]. apply safe_bind; [by apply safe_modify|]. intros _.
  apply safe_bind; [apply safe_serve|]. intros [|]; [apply safe_ret|done].
Qed.

Lemma safe_purge_workers : safe (purge_workers E).
Proof.
  unfold purge_workers. apply safe_bind; [auto with safe|]. intros t. apply safe_with_pool. intros p Hp.
  apply (run_event_ok [] (walk_services E) 0 (Purge t)); done.
Qed.

Lemma heartbeats_total p : pool_ok p → is_Some (heartbeats (uninit_id E) (walk_services E (services p)) p).
Proof.
  intros Hp. unfold heartbeats. apply fmap_is_Some, mapM_is_Some_2, Forall_forall. intros n Hn.
  apply (walks_order (walk_services E) p HE) in Hn as [svc Hs]. unfold compose, service_heartbeats.
  rewrite Hs. cbn [mbind option_bind]. apply mapM_is_Some_2, Forall_forall. intros a Ha. unfold compose. destruct (po_waiting p Hp n svc a Hs Ha) as (w & -> & _).
  by eexists.
Qed.

Lemma safe_sendHeartbeats : safe (sendHeartbeats E).
Proof.
  unfold sendHeartbeats. apply safe_bind; [auto with safe|]. intros t. apply safe_bind; [auto with safe|].
  intros b. destruct (_ <? _); [auto with safe|]. apply safe_bind; [|auto with safe].
  apply safe_with_pool. intros p Hp. destruct (heartbeats_total p Hp) as [o ->]. simpl. eauto.
Qed.

Lemma safe_purgeClients : safe (purgeClients E).
Proof. unfold purgeClients. destruct (_ =? _); auto with safe. Qed.

Lemma safe_challenge e k : safe (challenge_service E e k).
Proof.
  unfold challenge_service. apply safe_bind; [auto with safe|]. intros c. destruct (c !! k); [|auto with safe].
  case_bool_decide; auto with safe.
Qed.

Lemma safe_purgeDnsServices : safe (purgeDnsServices E).
Proof.
  pose proof safe_challenge. unfold purgeDnsServices. apply safe_bind; [auto with safe|]. intros t.
  apply safe_bind; [auto with safe|]. intros b. destruct (_ <? _); auto 10 with safe.
Qed.

(** ** Messages of workers *)

(** What a worker's message has to respect: it announces itself when it is
    not waiting, for the service it was first seen with, and it replies when
    it is not waiting. *)
Definition polite (m : BrokerMessage) (p : pool) : Prop :=
  match workers p !! (sourceId m : bytes) with
  | None => True
  | Some a =>
      match command m with
      | Ready => idle p a ∧ w_serviceName <$> heap p !! a = Some (serviceName m)
      | Partial | Final => idle p a ∧ ∃ w, heap p !! a = Some w ∧ is_Some (services p !! w_serviceName w)
      | _ => True
      end
  end.

Lemma safe_in_waiting {A} p a w (k : () → M A) :
  pool_ok p → heap p !! a = Some w → is_Some (services p !! w_serviceName w) → idle p a → (∀ u, safe (k u)) →
  safe_in p (u ← pool_workerWaiting E a; k u).
Proof.
  intros Hp Ha Hs Hi Hk b Hb. unfold pool_workerWaiting, updatedWorkerExpiry, mbind, M_bind, now, mret, M_ret.
  unfold with_pool. cbn [b_pool tick]. rewrite Hb.
  destruct (workerWaiting_ok (clock E (b_clock b) + heartbeatInterval E * heartbeatLiveness E)
              (clock E (S (b_clock b))) (walk_services E) a p w HE Hp Ha Hs Hi) as (p' & o & Hw & Hp').
  cbn [b_clock tick]. rewrite Hw. by apply Hk.
Qed.

Lemma safe_worker_ready sock m e p :
  pool_ok p → command m = Ready → polite m p →
  let '(a, _, p1) := emplace_worker sock (sourceId m) (serviceName m) e p in
  let p2 := requireService (roles E) (serviceName m) (data m) p1 in
  pool_ok p2 ∧ idle p2 a ∧ ∃ w, heap p2 !! a = Some w ∧ is_Some (services p2 !! w_serviceName w).
Proof.
  intros Hp Hc Hpol. pose proof (emplace_worker_ok sock (sourceId m) (serviceName m) e p Hp) as He.
  unfold polite in Hpol. rewrite Hc in Hpol.
  destruct (emplace_worker sock (sourceId m) (serviceName m) e p) as [[a known] p1] eqn:Hem.
  destruct He as (Hp1 & Hs1 & Hwa & Hnew & Hold).
  destruct (requireService_ok (roles E) (serviceName m) (data m) p1 Hp1) as (Hp2 & Hh2 & Hw2 & Hs2 & Hi2).
  cbv zeta. assert (∃ w, heap p1 !! a = Some w ∧ w_serviceName w = serviceName m ∧ idle p1 a) as (w & Hw & Hn & Hi).
  { destruct known.
    - rewrite (Hold eq_refl) in *. rewrite Hwa in Hpol. destruct Hpol as [Hi Hn].
      apply fmap_Some in Hn as (w & ? & ?). eauto.
    - destruct (Hnew eq_refl) as [Hi Hh]. eauto. }
  split_and!; [done|by apply Hi2|]. exists w. rewrite Hh2, Hn. done.
Qed.
Lemma safe_in_bind {A B} p (m : M A) (k : A → M B) :
  safe_in p m → (∀ a, safe (k a)) → safe_in p (m ≫= k).
Proof.
  intros Hm Hk b Hb. unfold mbind, M_bind. destruct (Hm b Hb) as [H1 H2].
  destruct (m b) as [[a|e|] b']; [by apply Hk|done|done].
Qed.

(** [m] does not touch the pool. *)
Lemma safe_in_frame {A B} p (m : M A) (k : A → M B) :
  pool_ok p → (∀ b, (m b).1 ≠ Undefined ∧ b_pool (m b).2 = b_pool b) → (∀ a, safe_in p (k a)) →
  safe_in p (m ≫= k).
Proof.
  intros Hp Hm Hk b Hb. unfold mbind, M_bind. destruct (Hm b) as [H1 H2]. rewrite Hb in H2.
  destruct (m b) as [[a|e|] b']; simpl in *; [by apply Hk|by rewrite H2|done].
Qed.

Lemma safe_in_deref {B} p a w (k : worker → M B) :
  heap p !! a = Some w → safe_in p (k w) → safe_in p (deref a ≫= k).
Proof. intros Ha Hk b Hb. unfold deref, mbind, M_bind, gets. rewrite Hb, Ha. by apply Hk. Qed.

Lemma safe_in_workerWaiting p a w :
  pool_ok p → heap p !! a = Some w → is_Some (services p !! w_serviceName w) → idle p a →
  safe_in p (pool_workerWaiting E a).
Proof.
  intros Hp Ha Hs Hi b Hb. destruct (safe_in_waiting p a w mret Hp Ha Hs Hi (λ u, safe_ret u) b Hb) as [H1 H2].
  unfold mbind, M_bind in H1, H2. destruct (pool_workerWaiting E a b) as [[u|e|] b']; done.
Qed.

Lemma safe_in_disconnect p a w : pool_ok p → heap p !! a = Some w → safe_in p (with_pool (disconnectWorker (uninit_id E) a)).
Proof.
  intros Hp Ha b Hb. unfold with_pool, disconnectWorker. rewrite Hb, Ha. cbn [mbind option_bind].
  destruct (deleteWorker_ok p a w Hp Ha) as (p' & -> & Hp'). done.
Qed.

Lemma safe_in_reply p a w m :
  pool_ok p → heap p !! a = Some w → is_Some (services p !! w_serviceName w) → idle p a →
  safe_in p (worker_reply E a m).
Proof.
  intros Hp Ha Hs Hi. unfold worker_reply. apply safe_in_frame; [done|by intros b|]. intros cs.
  destruct (cs !! serviceName m) as [c|]; [|by apply safe_in_safe, safe_ret].
  apply (safe_in_deref _ _ w); [done|]. cbv zeta. apply safe_in_frame; [done| |].
  - intros b. case_bool_decide; [by destruct (hasRest E)|by destruct (c_socket c)].
  - intros _. by eapply safe_in_workerWaiting.
Qed.

Lemma safe_in_set_pool {B} p (g : pool → pool) (k : () → M B) :
  safe_in (g p) (k ()) → safe_in p (modify (λ b, set_pool (g (b_pool b)) b) ≫= k).
Proof. intros Hk b Hb. unfold mbind, M_bind, modify. apply Hk. simpl. by rewrite Hb. Qed.

Lemma safe_in_read {B} p (k : pool → M B) : safe_in p (k p) → safe_in p (gets b_pool ≫= k).
Proof. intros Hk b Hb. unfold mbind, M_bind, gets. rewrite Hb. by apply Hk. Qed.

Lemma polite_known (m : BrokerMessage) p a :
  pool_ok p → workers p !! (sourceId m : bytes) = Some a → polite m p →
  (command m = Partial ∨ command m = Final) →
  ∃ w, heap p !! a = Some w ∧ is_Some (services p !! w_serviceName w) ∧ idle p a.
Proof.
  unfold polite. intros Hp -> Hpol Hc.
  destruct Hc as [Hc|Hc]; rewrite Hc in Hpol; destruct Hpol as (Hi & w & Hw & Hs); eauto.
Qed.

Lemma safe_in_processWorker sock m p : pool_ok p → polite m p → safe_in p (processWorker E sock m).
Proof.
  intros Hp Hpol. unfold processWorker. apply safe_in_frame; [done|by intros b|]. intros e. apply safe_in_read.
  pose proof (emplace_worker_ok sock (sourceId m) (serviceName m) e p Hp) as He.
  pose proof (safe_worker_ready sock m e p Hp) as Hready.
  destruct (emplace_worker sock (sourceId m) (serviceName m) e p) as [[a known] p1] eqn:Hem.
  destruct He as (Hp1 & Hs1 & Hwa & Hnew & Hold).
  destruct (po_workers p1 Hp1 _ _ Hwa) as (w1 & Hw1 & _).
  apply (safe_in_set_pool p (λ _, p1)).
  assert (Hreply : command m = Partial ∨ command m = Final →
    safe_in p1 (if known then worker_reply E a m else with_pool (disconnectWorker (uninit_id E) a))).
  { intros Hc. destruct known; [|by eapply safe_in_disconnect].
    rewrite (Hold eq_refl) in *. destruct (polite_known m p a Hp Hwa Hpol Hc) as (w & Hw & Hs & Hi).
    by apply (safe_in_reply p a w). }
  destruct (command m) eqn:Hc; try (by apply safe_in_safe, safe_ret); try (apply Hreply; auto).
  - apply safe_in_set_pool. destruct (Hready eq_refl Hpol) as (Hp2 & Hi2 & w & Hw & Hs).
    apply safe_in_bind; [by eapply safe_in_workerWaiting|auto with safe].
  - apply (safe_in_deref _ _ w1); [done|]. cbv zeta. apply safe_in_safe; auto with safe.
  - destruct known; [|by eapply safe_in_disconnect]. apply safe_in_frame; [done|by intros b|]. intros e'.
    intros b Hb. unfold with_pool. rewrite Hb, Hw1. simpl. split; [done|]. by apply pool_ok_expiry.
Qed.

End safe.

(** The events of the broker; together they are everything a turn does. *)
Inductive broker_event : Type :=
  | Received (s : socket) (r : result (option BrokerMessage))
  | PubFrame (f : option bytes)
  | FromRest (m : BrokerMessage)
  | AddressRegistered (u : uri)
  | ServeClients
  | PurgeWorkers
  | PurgeClients
  | SendHeartbeats
  | PurgeDns.

Definition perform (E : environment) (e : broker_event) : M () :=
  match e with
  | Received s r => _ ← receiveMessage E s r; mret ()
  | PubFrame f => _ ← receivePub E f; mret ()
  | FromRest m => handleRestMessage E m
  | AddressRegistered u => registerDnsAddress E u
  | ServeClients => processClients E
  | PurgeWorkers => purge_workers E
  | PurgeClients => purgeClients E
  | SendHeartbeats => sendHeartbeats E
  | PurgeDns => purgeDnsServices E
  end.

(** Only the messages of workers are asked anything. *)
Definition polite_event (e : broker_event) (b : broker) : Prop :=
  match e with
  | Received _ (Ok (Some m)) => protocolName m = clientProtocol ∨ polite m (b_pool b)
  | _ => True
  end.

Lemma safe_in_received E p s r b :
  WalkOrder (walk_services E) → pool_ok p → b_pool b = p → polite_event (Received s r) b →
  (receiveMessage E s r b).1 ≠ Undefined ∧ pool_ok (b_pool (receiveMessage E s r b).2).
Proof.
  intros HE Hp Hb Hpol. unfold receiveMessage, mbind at 1 3, M_bind at 1 3, lift.
  destruct r as [[m|]|e]; simpl; [|by rewrite Hb..].
  destruct (decide (protocolName m = clientProtocol)) as [Hc|Hc].
  - rewrite bool_decide_true by done. apply safe_receive_client. by rewrite Hb.
  - rewrite bool_decide_false by done. destruct Hpol as [?|Hpol]; [done|]. rewrite Hb in Hpol.
    apply (safe_in_bind p); [by apply safe_in_processWorker|auto with safe|done].
Qed.

Lemma broker_step_safe E e b :
  WalkOrder (walk_services E) → pool_ok (b_pool b) → polite_event e b →
  (perform E e b).1 ≠ Undefined ∧ pool_ok (b_pool (perform E e b).2).
Proof.
  intros HE Hp Hpol. destruct e; unfold perform.
  - apply (safe_in_bind (b_pool b)); [|auto with safe|done]. intros b' Hb'.
    assert (polite_event (Received s r) b') by (unfold polite_event in *; by rewrite Hb').
    by apply (safe_in_received E (b_pool b)).
  - by apply safe_bind; [apply safe_receivePub|auto with safe|].
  - by apply safe_handleRestMessage.
  - by apply safe_registerDnsAddress.
  - unfold processClients. apply safe_bind; [auto with safe| |done]. intros cs. by apply safe_serve_clients.
  - by apply safe_purge_workers.
  - by apply safe_purgeClients.
  - by apply safe_sendHeartbeats.
  - by apply safe_purgeDnsServices.
Qed.

Lemma broker_invariant E e b :
  WalkOrder (walk_services E) → pool_ok (b_pool b) → polite_event e b → pool_ok (b_pool (perform E e b).2).
Proof. intros HE Hp Hpol. by apply broker_step_safe. Qed.

(** C1: Whatever clients, subscribers, DNS peers and the REST server send, and
    whatever the state of the clocks and the order of the tables: as long as
    the workers keep to the protocol, no handler of the broker uses an erased
    worker, and the tables stay consistent. *)
Theorem broker_safe E e b :
  WalkOrder (walk_services E) → pool_ok (b_pool b) → polite_event e b →
  (perform E e b).1 ≠ Undefined ∧ pool_ok (b_pool (perform E e b).2).
Proof. apply broker_step_safe. Qed.

Definition worker_message (i : bytes) (c : Command) (service body : bytes) : BrokerMessage :=
  @mkmsg WithSourceId i 0 0 10000 workerProtocol c service [] root_topic body [] [].

Lemma start_pool_ok : pool_ok (b_pool start_broker).
Proof. apply (pool_reachable_ok [] sample_walk 0), pool_start. done. Qed.

Lemma broker_safe_witness :
  let E := sample_env Z.of_nat in
  let e := Received RouterSocket (Ok (Some (worker_message (str "w") Ready (str "/s") []))) in
  polite_event e start_broker
  ∧ (perform E e start_broker).1 ≠ Undefined ∧ pool_ok (b_pool (perform E e start_broker).2).
Proof.
  intros E e. assert (Hp : polite_event e start_broker) by (right; exact I).
  split; [exact Hp|]. apply (broker_safe E e start_broker); [by intros ss|apply start_pool_ok|exact Hp].
Defined.

(** ** The way back of a reply *)

Lemma dispatch_loop_assigns fuel hp svc svc' outs :
  dispatch_loop fuel hp svc = Some (svc', outs) → Forall (λ o, ∃ w m, o = assign w m) outs.
Proof.
  revert svc svc' outs. induction fuel as [|fuel IH]; intros svc svc' outs H; [by injection H as <- <-|].
  cbn [dispatch_loop] in H. destruct (waiting svc); [by injection H as <- <-|].
  destruct (0 <? requestCount svc)%nat; [|by injection H as <- <-].
  apply bind_Some in H as ([m svc1] & _ & H). apply bind_Some in H as ([a svc2] & _ & H).
  apply bind_Some in H as (w & _ & H). apply bind_Some in H as ([svc3 o] & Hd & H). injection H as <- <-.
  constructor; [by exists w, m|]. by eapply IH.
Qed.

Lemma workerWaiting_assigns e t order a p p' outs :
  workerWaiting e t order a p = Some (p', outs) → Forall (λ o, ∃ w m, o = assign w m) outs.
Proof.
  unfold workerWaiting, dispatch. intros H. apply bind_Some in H as (w & _ & H). apply bind_Some in H as (svc & _ & H).
  apply bind_Some in H as (p1 & _ & H). apply bind_Some in H as (s1 & _ & H).
  apply bind_Some in H as ([s2 o] & Hd & H). injection H as <- <-. by eapply dispatch_loop_assigns.
Qed.

(** C30: A reply of a worker that is not waiting, for a client that is there, which is
    not the REST server: it is sent to that client and nobody else, under the client's
    protocol and the worker's service, with its request id, topic, body and error as
    they are.  The worker then waits again, behind those of its service that are alive,
    with a new expiry (which the clock has not passed): the requests that are pending go
    to these workers, in the order of both, and the workers that are left wait on. *)
Theorem reply_routed E b sock (m : BrokerMessage) a w c s svc :
  let expiry := clock E (S (b_clock b)) + heartbeatInterval E * heartbeatLiveness E in
  let now := clock E (S (S (b_clock b))) in
  let alive_waiting := filter (alive now (heap (b_pool b))) (waiting svc) in
  WalkOrder (walk_services E) → pool_ok (b_pool b) → command m ∈ [Partial; Final] →
  workers (b_pool b) !! (sourceId m : bytes) = Some a → heap (b_pool b) !! a = Some w → idle (b_pool b) a →
  services (b_pool b) !! w_serviceName w = Some svc → now ≤ expiry →
  b_clients b !! serviceName m = Some c → c_socket c = Some s → serviceName m ≠ kRestSourceId →
  ∃ b' ws svc', processWorker E sock m b = (Val (), b')
    ∧ b_out b' = b_out b
                 ++ Send s (readdress (serviceName m) clientProtocol (w_serviceName w) (command m) m)
                    :: zip_with assign (ws ++ [w]) (pending svc)
    ∧ mapM (λ x, heap (b_pool b) !! x) alive_waiting = Some ws
    ∧ services (b_pool b') !! w_serviceName w = Some svc'
    ∧ waiting svc' = drop (length (pending svc)) (alive_waiting ++ [a])
    ∧ heap (b_pool b') !! a = Some (set_expiry expiry w)
    ∧ b_clients b' = b_clients b ∧ pool_ok (b_pool b').
Proof.
  intros expiry t alive_waiting HE Hp Hc Ha Hw Hi Hs Ht Hcl Hsock Hne.
  destruct (workerWaiting_waits expiry t (walk_services E) a (b_pool b) w svc HE Hp Hw Hs Hi Ht)
    as (p' & ws & svc' & Hww & Hp' & Hws & Hs' & Hw' & Hh').
  eexists (add_out _ (set_pool p' _)), ws, svc'.
  assert (Hr : processWorker E sock m b
    = worker_reply E a m (set_pool (b_pool b) (tick b))).
  { unfold processWorker, mbind, M_bind, updatedWorkerExpiry, now, gets, mret, M_ret, modify. simpl.
    unfold mbind, M_bind, emplace_worker. simpl. rewrite Ha.
    apply list_elem_of_In in Hc as [Hc|[Hc|[]]]; rewrite <- Hc; reflexivity. }
  rewrite Hr. unfold worker_reply, mbind, M_bind, gets. cbn [set_pool tick b_clients]. rewrite Hcl.
  unfold deref, mbind, M_bind, gets. cbn [set_pool tick b_pool]. rewrite Hw. cbn [mret M_ret].
  cbv zeta. cbn [sourceId readdress]. rewrite bool_decide_false by done. rewrite Hsock.
  unfold emit, modify, pool_workerWaiting, updatedWorkerExpiry, now, mbind, M_bind, mret, M_ret, with_pool.
  cbn [add_out set_pool tick b_pool b_clock]. fold expiry. fold t. rewrite Hww. split; [reflexivity|].
  cbn. rewrite <- app_assoc. by split_and!.
Qed.

Definition run_broker (E : environment) (es : list broker_event) (b : broker) : ending () * broker :=
  for_each es (perform E) b.

Definition sample_client_request (i : bytes) : BrokerMessage :=
  @mkmsg WithSourceId i 0 0 10000 clientProtocol Get (str "/s") (str "1") root_topic (str "in") [] [].

(** A worker is ready and a client's request was given to it. *)
Definition sample_events : list broker_event :=
  [Received RouterSocket (Ok (Some (worker_message (str "w") Ready (str "/s") [])));
   Received RouterSocket (Ok (Some (sample_client_request (str "c")))); ServeClients].

Definition after (b : broker) (e : broker_event) : broker := (perform (sample_env Z.of_nat) e b).2.

Definition working : broker := foldl after start_broker sample_events.

Lemma after_ok b e : pool_ok (b_pool b) → polite_event e b → pool_ok (b_pool (after b e)).
Proof. intros. apply broker_invariant; [by intros ss|done|done]. Qed.

Lemma working_ok : pool_ok (b_pool working).
Proof.
  apply after_ok; [|exact I]. apply after_ok; [|left; reflexivity].
  apply after_ok; [apply start_pool_ok|right; exact I].
Qed.

Lemma reply_routed_witness :
  let m := worker_message (str "w") Final (str "c") (str "out") in
  let w := mkworker RouterSocket (str "w") (str "/s") 3001 in
  ∃ b' ws svc svc' e, processWorker (sample_env Z.of_nat) RouterSocket m working = (Val (), b')
    ∧ b_out b' = b_out working ++ Send RouterSocket (readdress (str "c") clientProtocol (str "/s") Final m)
                                  :: zip_with assign (ws ++ [w]) (pending svc)
    ∧ services (b_pool b') !! (str "/s" : bytes) = Some svc'
    ∧ heap (b_pool b') !! 0%nat = Some (set_expiry e w).
Proof.
  intros m w. assert (Hsome : is_Some (services (b_pool working) !! (str "/s" : bytes))) by (vm_compute; by eexists).
  destruct Hsome as [svc Hsvc].
  destruct (reply_routed (sample_env Z.of_nat) working RouterSocket m 0
              (mkworker RouterSocket (str "w") (str "/s") 3001)
              (mkclient (Some RouterSocket) (str "c") [] 10003) RouterSocket svc)
    as (b' & ws & svc' & H1 & H2 & _ & H4 & _ & H6 & _).
  - by intros ss.
  - apply working_ok.
  - by right; left.
  - vm_compute. reflexivity.
  - vm_compute. reflexivity.
  - intros n svc' Hn Hin. destruct (po_waiting _ working_ok n svc' 0 Hn Hin) as (w' & Hw & Hwn).
    assert (Hw' : heap (b_pool working) !! 0%nat = Some (mkworker RouterSocket (str "w") (str "/s") 3001))
      by (vm_compute; reflexivity).
    rewrite Hw in Hw'. injection Hw' as ->. simpl in Hwn. subst n.
    assert (Hq : waiting <$> services (b_pool working) !! str "/s" = Some []) by (vm_compute; reflexivity).
    change (waiting <$> services (b_pool working) !! ["/"%char; "s"%char] = Some []) in Hq.
    rewrite Hn in Hq. injection Hq as Hq. rewrite Hq in Hin. by apply elem_of_nil in Hin.
  - exact Hsvc.
  - vm_compute. discriminate.
  - vm_compute. reflexivity.
  - reflexivity.
  - discriminate.
  - eexists b', ws, svc, svc', _. exact (conj H1 (conj H2 (conj H4 H6))).
Defined.

(** ** What modelling showed *)

(** The expiry of a client is set by its first message and never again: a
    client that keeps sending is erased with the requests it still has
    pending. *)
Lemma active_client_expires :
  let E := sample_env (λ n, nth n [0; 9000; 10001] 0) in
  let m := Received RouterSocket (Ok (Some (sample_client_request (str "c")))) in
  length (queue (run_broker E [m; m] start_broker).2 (str "c")) = 2%nat
  ∧ queue (run_broker E [m; m; PurgeClients] start_broker).2 (str "c") = [].
Proof. vm_compute. by split. Qed.

(** A reply for a client that is gone leaves its worker out of the waiting
    list: the worker is not given the next request. *)
Lemma orphaned_reply_loses_worker :
  let reply := Received RouterSocket (Ok (Some (worker_message (str "w") Final (str "gone") []))) in
  let r := run_broker (sample_env Z.of_nat) [reply] working in
  r.1 = Val () ∧ (waiting <$> services (b_pool r.2) !! str "/s") = Some [].
Proof. vm_compute. by split. Qed.

(** With a public address, a worker that announces a service whose name is not
    the path of a reference makes the handler throw, and nothing catches it. *)
Lemma malformed_service_throws :
  let b := set_dnsAddresses {[str "mdp://localhost:1"]} start_broker in
  (run_broker (sample_env Z.of_nat)
     [Received RouterSocket (Ok (Some (worker_message (str "w") Ready (str "/a b") [])))] b).1
  = Exn URISyntaxException.
Proof. vm_compute. reflexivity. Qed.

(** A message whose topic is not a reference does the same. *)
Lemma malformed_topic_ends_loop :
  (run_broker (sample_env Z.of_nat)
     [Received RouterSocket (decode WithSourceId 0 9
        [str "client"; clientProtocol; [chr 1]; str "/service"; str "1"; str "/a b"; []; []; []])] start_broker).1
  = Exn URISyntaxException.
Proof. vm_compute. reflexivity. Qed.

(** The broker's name is never cropped from the paths it searches: the test
    for it looks for a leading slash where the slashes were removed. *)
Lemma mmi_never_cropped path :
  starts_with (stripStart path (str "/")) (str "/mmi.") = false.
Proof.
  unfold stripStart. induction path as [|c path IH]; [done|]. cbn [drop_while].
  destruct (one_of (str "/") c) eqn:Hc; [done|]. cbn. unfold one_of in Hc. cbn in Hc.
  rewrite orb_false_r in Hc. by rewrite Hc.
Qed.
