(* ===== verification/IoBuffer.v ===== *)
(** * IoBuffer: [serialiser/include/IoBuffer.hpp]

    The byte buffer of the serialisers: its memory grows before every write;
    reads are not checked.  Reading or writing outside the memory is undefined
    behaviour, the result [None].  The target is little-endian. *)

From S2P Require Import Prelude.
Local Open Scope nat_scope.

(** [mem] is [_buffer], as long as [_capacity]. *)
Record iobuffer : Type := mkbuf { mem : bytes; position : nat; size : nat }.

Definition capacity (b : iobuffer) : nat := length (mem b).

(** The bytes written so far. *)
Definition content (b : iobuffer) : bytes := take (size b) (mem b).

(** ** Integers as bytes, the low one first *)

Fixpoint le_bytes (n : nat) (z : Z) : bytes :=
  match n with
  | O => []
  | S n' => chr z :: le_bytes n' (Z.shiftr z 8)
  end.

Fixpoint le_value (s : bytes) : Z :=
  match s with
  | [] => 0
  | c :: s' => Z.lor (code c) (Z.shiftl (le_value s') 8)
  end.

Definition width (n : nat) : Z := 8 * Z.of_nat n.

Section iobuffer.
(** What fresh memory holds. *)
Context (junk : ascii).

Definition reallocate (cap : nat) (b : iobuffer) : iobuffer :=
  if cap =? 0 then mkbuf [] (position b) (size b)
  else if cap =? capacity b then b
  else mkbuf (take cap (mem b ++ repeat junk cap)) (position b) (size b).

Definition reserve (minCapacity : nat) (b : iobuffer) : iobuffer :=
  if minCapacity <? capacity b then b else reallocate minCapacity b.

Definition shrink_to_fit (b : iobuffer) : iobuffer := reallocate (size b) b.

(** [capacity - size] does not underflow: [wf] below. *)
Definition reserve_spare (additional : nat) (b : iobuffer) : iobuffer :=
  if capacity b - size b <=? additional then reserve (4 * (size b + additional)) b else b.

Definition resize (newSize : nat) (b : iobuffer) : iobuffer :=
  let b1 := if capacity b <? newSize then reserve newSize b else b in
  mkbuf (mem b1) (position b1) newSize.

Definition new_buffer (initialCapacity : nat) : iobuffer :=
  let b := mkbuf [] 0 0 in
  if 0 <? initialCapacity then reallocate initialCapacity b else b.

(** [memmove] to [_buffer + at]. *)
Definition store (pos : nat) (s : bytes) (b : iobuffer) : option iobuffer :=
  if pos + length s <=? capacity b
  then Some (mkbuf (take pos (mem b) ++ s ++ drop (pos + length s) (mem b)) (position b) (size b))
  else None.

(** [memmove] to the end, and [_size += n]. *)
Definition append (s : bytes) (b : iobuffer) : option iobuffer :=
  b' ← store (size b) s b; Some (mkbuf (mem b') (position b') (size b + length s)).

Definition from_data (data : bytes) : option iobuffer :=
  let b := resize (length data) (new_buffer (length data)) in
  store 0 data b.

(** [put] of a number of [n] bytes. *)
Definition put (n : nat) (z : Z) (b : iobuffer) : option iobuffer :=
  append (le_bytes n z) (reserve_spare n b).

Definition put_size (n : nat) (b : iobuffer) : option iobuffer := put 4 (wraps 32 (Z.of_nat n)) b.

Definition put_string (s : bytes) (b : iobuffer) : option iobuffer :=
  b1 ← put_size (length s + 1) (reserve_spare (length s + 4 + 1) b);
  b2 ← append s b1;
  put 1 0 b2.

(** With [WITHOUT]: the terminating zero is written behind the end. *)
Definition put_string_raw (s : bytes) (b : iobuffer) : option iobuffer :=
  b1 ← append s (reserve_spare (length s + 4 + 1) b);
  store (size b1) [chr 0] b1.

(** [put(std::span<const I>)] of numbers of [n] bytes. *)
Definition put_span (n : nat) (zs : list Z) (b : iobuffer) : option iobuffer :=
  b1 ← put_size (length zs) (reserve_spare (length zs * n + 4 + n) b);
  append (concat (le_bytes n <$> zs)) b1.

Fixpoint put_all (f : Z → iobuffer → option iobuffer) (zs : list Z) (b : iobuffer) : option iobuffer :=
  match zs with
  | [] => Some b
  | z :: zs' => b' ← f z b; put_all f zs' b'
  end.

(** [putBoolContainer]; [meta] is [WITH]. *)
Definition putBoolContainer (meta : bool) (vs : list bool) (b : iobuffer) : option iobuffer :=
  b1 ← (if meta then put_size (length vs) (reserve_spare (length vs + 4) b)
        else Some (reserve_spare (length vs) b));
  put_all (put 1) (Z.b2z <$> vs) b1.

Fixpoint put_strings_from (ss : list bytes) (b : iobuffer) : option iobuffer :=
  match ss with
  | [] => Some b
  | s :: ss' => b' ← put_string s b; put_strings_from ss' b'
  end.

(** [put(std::span<const I>)] of strings. *)
Definition put_strings (ss : list bytes) (b : iobuffer) : option iobuffer :=
  b1 ← put_size (length ss) (reserve_spare (length ss * 25 + 4 + 1) b);
  put_strings_from ss b1.

Definition reset (b : iobuffer) : iobuffer := mkbuf (mem b) 0 (size b).
Definition set_position (p : nat) (b : iobuffer) : iobuffer := mkbuf (mem b) p (size b).
Definition clear (b : iobuffer) : iobuffer := mkbuf (mem b) 0 0.

(** [skip]: [int] to [std::size_t], and the sum of two of them. *)
Definition skip (n : Z) (b : iobuffer) : result iobuffer :=
  let p := wrapu 64 (Z.of_nat (position b) + wrapu 64 n) in
  if (Z.of_nat (size b) <? p)%Z then Throw OutOfRange else Ok (set_position (Z.to_nat p) b).

(** ** Reading *)

Definition load (pos n : nat) (b : iobuffer) : option bytes :=
  if pos + n <=? capacity b then Some (take n (drop pos (mem b))) else None.

(** [get<R>()] of a number of [n] bytes, as an unsigned value. *)
Definition get_u (n : nat) (b : iobuffer) : option (Z * iobuffer) :=
  s ← load (position b) n b; Some (le_value s, set_position (position b + n) b).

Definition get_s (n : nat) (b : iobuffer) : option (Z * iobuffer) :=
  '(z, b') ← get_u n b; Some (wraps (width n) z, b').

(** The length on the wire counts the terminating zero. *)
Definition extractStringView (b : iobuffer) : option (bytes * iobuffer) :=
  '(n, b1) ← get_s 4 b;
  let strLength := Z.to_nat (wrapu 64 (n - 1)) in
  s ← load (position b1) strLength b1;
  Some (s, set_position (position b1 + strLength + 1) b1).

(** The number of elements [getArray] reads: the length on the wire, at
    most the number of bytes left, at most what is asked for. *)
Definition array_size (requested : option nat) (n : Z) (b : iobuffer) : nat :=
  let arraySize := Nat.min (Z.to_nat (wrapu 64 n)) (size b - position b) in
  match requested with Some r => Nat.min arraySize r | None => arraySize end.

Fixpoint chunks (k n : nat) (s : bytes) : list bytes :=
  match k with O => [] | S k' => take n s :: chunks k' n (drop n s) end.

(** [getArray] of numbers of [n] bytes that are copied at once. *)
Definition getArray (n : nat) (requested : option nat) (b : iobuffer) : option (list Z * iobuffer) :=
  '(len, b1) ← get_s 4 b;
  let k := array_size requested len b1 in
  s ← load (position b1) (k * n) b1;
  Some (le_value <$> chunks k n s, set_position (position b1 + k * n) b1).

Fixpoint get_each {A} (g : iobuffer → option (A * iobuffer)) (k : nat) (b : iobuffer) : option (list A * iobuffer) :=
  match k with
  | O => Some ([], b)
  | S k' => '(x, b1) ← g b; '(xs, b2) ← get_each g k' b1; Some (x :: xs, b2)
  end.

(** [getArray] of elements that are read one by one: booleans, strings. *)
Definition getArray_each {A} (g : iobuffer → option (A * iobuffer)) (requested : option nat) (b : iobuffer)
    : option (list A * iobuffer) :=
  '(len, b1) ← get_s 4 b;
  get_each g (array_size requested len b1) b1.

Definition asString (index : nat) (requestedSize : Z) (b : iobuffer) : result bytes :=
  if size b <? index then Throw OutOfRange
  else if (0 <=? requestedSize)%Z && (Z.of_nat (size b) <? Z.of_nat index + requestedSize)%Z then Throw OutOfRange
  else if (requestedSize <? 0)%Z then Ok (take (size b - index) (drop index (mem b)))
  else Ok (take (Nat.min (size b - index) (Z.to_nat requestedSize)) (drop index (mem b))).
End iobuffer.

(** ** Writing stays inside *)

Definition wf (b : iobuffer) : Prop := size b ≤ capacity b.

(** [b'] is [b] with [s] written behind its content. *)
Definition wrote (s : bytes) (b b' : iobuffer) : Prop :=
  wf b' ∧ content b' = content b ++ s ∧ position b' = position b.

Lemma length_le_bytes n z : length (le_bytes n z) = n.
Proof. revert z. induction n as [|n IH]; intros z; simpl; [done|]. by rewrite IH. Qed.

Lemma length_content b : wf b → length (content b) = size b.
Proof. unfold wf, content, capacity. intros. rewrite length_take. lia. Qed.

Lemma take_repeat_keeps junk cap (m : bytes) n :
  n ≤ length m → n ≤ cap → take n (take cap (m ++ repeat junk cap)) = take n m.
Proof. intros H1 H2. rewrite take_take, Nat.min_l by lia. by rewrite take_app_le. Qed.

Lemma length_reallocate junk cap b : 0 < cap → capacity (reallocate junk cap b) = cap.
Proof.
  intros H. unfold reallocate. destruct (Nat.eqb_spec cap 0); [lia|].
  destruct (Nat.eqb_spec cap (capacity b)); [done|]. unfold capacity. simpl.
  rewrite length_take, length_app, repeat_length. lia.
Qed.

Lemma reallocate_keeps junk cap b :
  wf b → size b ≤ cap → 0 < cap →
  wrote [] b (reallocate junk cap b) ∧ size (reallocate junk cap b) = size b.
Proof.
  intros Hw Hs Hc. pose proof (length_reallocate junk cap b Hc) as Hl. unfold wrote, wf. rewrite Hl, app_nil_r.
  unfold reallocate in *. destruct (Nat.eqb_spec cap 0); [lia|].
  destruct (Nat.eqb_spec cap (capacity b)); [done|]. split_and!; [done| |done|done].
  unfold content. simpl. by apply take_repeat_keeps.
Qed.

Lemma reserve_spare_keeps junk n b :
  wf b → wrote [] b (reserve_spare junk n b) ∧ size (reserve_spare junk n b) = size b
         ∧ size b + n ≤ capacity (reserve_spare junk n b).
Proof.
  intros Hw. unfold reserve_spare. destruct (Nat.leb_spec (capacity b - size b) n) as [Hle|Hlt].
  - unfold reserve. destruct (Nat.ltb_spec (4 * (size b + n)) (capacity b)) as [Hc|Hc].
    + unfold wrote. rewrite app_nil_r. split_and!; [done..|lia].
    + destruct (decide (4 * (size b + n) = 0)) as [H0|H0].
      * unfold wf in Hw. unfold reallocate. rewrite (proj2 (Nat.eqb_eq _ _) H0).
        unfold wrote, wf, content, capacity in *. simpl in *.
        replace (size b) with 0 by lia. simpl. split_and!; (done || lia).
      * destruct (reallocate_keeps junk (4 * (size b + n)) b) as [H1 H2]; [done|lia..|].
        rewrite length_reallocate by lia. split_and!; [done..|lia].
  - unfold wrote. rewrite app_nil_r. unfold wf in Hw. split_and!; [done..|lia].
Qed.

Lemma append_ok s b :
  wf b → size b + length s ≤ capacity b → ∃ b', append s b = Some b' ∧ wrote s b b' ∧ size b' = size b + length s
    ∧ capacity b' = capacity b.
Proof.
  intros Hw Hc. unfold append, store. rewrite (proj2 (Nat.leb_le _ _)) by done. cbn [mbind option_bind].
  eexists. split; [done|]. unfold wrote, wf, content, capacity in *. simpl in *.
  assert (Hl : length (take (size b) (mem b)) = size b) by (rewrite length_take; lia).
  split_and!; try done.
  - rewrite !length_app, length_drop, Hl. lia.
  - rewrite app_assoc. rewrite take_app_length'; [done|]. rewrite length_app. lia.
  - rewrite !length_app, length_drop, Hl. lia.
Qed.

Lemma wrote_trans s t b b1 b2 : wrote s b b1 → wrote t b1 b2 → wrote (s ++ t) b b2.
Proof. intros (H1 & H2 & H3) (H4 & H5 & H6). split_and!; [done|by rewrite H5, H2, app_assoc|congruence]. Qed.

Lemma wrote_nil_l s b b1 b2 : wrote [] b b1 → wrote s b1 b2 → wrote s b b2.
Proof. apply (wrote_trans []). Qed.

Lemma put_wrote junk n z b : wf b → ∃ b', put junk n z b = Some b' ∧ wrote (le_bytes n z) b b'.
Proof.
  intros Hw. destruct (reserve_spare_keeps junk n b Hw) as (H1 & H2 & H3).
  destruct (append_ok (le_bytes n z) (reserve_spare junk n b)) as (b' & He & Hb & _); [apply H1|rewrite length_le_bytes; lia|].
  exists b'. split; [done|]. by eapply wrote_nil_l.
Qed.

(** [put] writes inside what was reserved before it, if it was enough. *)
Lemma put_inside junk n z b :
  wf b → size b + n < capacity b →
  ∃ b', put junk n z b = Some b' ∧ wrote (le_bytes n z) b b' ∧ size b' = size b + n ∧ capacity b' = capacity b.
Proof.
  intros Hw Hc. unfold put, reserve_spare. destruct (Nat.leb_spec (capacity b - size b) n); [lia|].
  destruct (append_ok (le_bytes n z) b) as (b' & He & Hb & Hs & Hcap); [done|rewrite length_le_bytes; lia|].
  rewrite length_le_bytes in Hs. eauto.
Qed.

Definition enc_size (n : nat) : bytes := le_bytes 4 (wraps 32 (Z.of_nat n)).
Definition enc_string (s : bytes) : bytes := enc_size (length s + 1) ++ s ++ [chr 0].
Definition enc_span (n : nat) (zs : list Z) : bytes := enc_size (length zs) ++ concat (le_bytes n <$> zs).
Definition enc_strings (ss : list bytes) : bytes := enc_size (length ss) ++ concat (enc_string <$> ss).

Lemma length_enc_size n : length (enc_size n) = 4.
Proof. apply length_le_bytes. Qed.

Lemma length_concat_le n zs : length (concat (le_bytes n <$> zs)) = length zs * n.
Proof. induction zs as [|z zs IH]; [done|].
  cbn [fmap list_fmap concat length] in *. rewrite length_app, length_le_bytes, IH. lia.
Qed.

(** A length field and [s] after room was made for both. *)
Lemma size_then_append junk m n s b :
  wf b → length s + 4 < m →
  ∃ b1 b2, put_size junk n (reserve_spare junk m b) = Some b1 ∧ append s b1 = Some b2 ∧ wrote (enc_size n ++ s) b b2.
Proof.
  intros Hw Hm. destruct (reserve_spare_keeps junk m b Hw) as (H1 & H2 & H3).
  destruct (put_inside junk 4 (wraps 32 (Z.of_nat n)) (reserve_spare junk m b)) as (b1 & He & Hb1 & Hs1 & Hc1);
    [apply H1|lia|].
  destruct (append_ok s b1) as (b2 & He2 & Hb2 & _); [apply Hb1|lia|].
  exists b1, b2. split_and!; [done..|]. eapply wrote_nil_l; [done|]. by eapply wrote_trans.
Qed.

Lemma put_string_wrote junk s b : wf b → ∃ b', put_string junk s b = Some b' ∧ wrote (enc_string s) b b'.
Proof.
  intros Hw. destruct (size_then_append junk (length s + 4 + 1) (length s + 1) s b) as (b1 & b2 & H1 & H2 & H3);
    [done|lia|].
  destruct (put_wrote junk 1 0 b2) as (b3 & H4 & H5); [apply H3|].
  exists b3. unfold put_string. rewrite H1. cbn [mbind option_bind]. rewrite H2. cbn [mbind option_bind].
  split; [done|]. unfold enc_string. rewrite app_assoc. by eapply wrote_trans.
Qed.

Lemma put_span_wrote junk n zs b : 0 < n → wf b → ∃ b', put_span junk n zs b = Some b' ∧ wrote (enc_span n zs) b b'.
Proof.
  intros Hn Hw.
  destruct (size_then_append junk (length zs * n + 4 + n) (length zs) (concat (le_bytes n <$> zs)) b)
    as (b1 & b2 & H1 & H2 & H3); [done|rewrite length_concat_le; lia|].
  exists b2. unfold put_span. by rewrite H1.
Qed.

Lemma put_all_wrote junk n zs b :
  wf b → ∃ b', put_all (put junk n) zs b = Some b' ∧ wrote (concat (le_bytes n <$> zs)) b b'.
Proof.
  revert b. induction zs as [|z zs IH]; intros b Hw.
  - exists b. unfold wrote. by rewrite app_nil_r.
  - destruct (put_wrote junk n z b Hw) as (b1 & H1 & H2). destruct (IH b1) as (b2 & H3 & H4); [apply H2|].
    exists b2. cbn [put_all]. rewrite H1. split; [done|]. by eapply wrote_trans.
Qed.

Lemma put_size_wrote junk n b : wf b → ∃ b', put_size junk n b = Some b' ∧ wrote (enc_size n) b b'.
Proof. apply put_wrote. Qed.

Lemma putBool_wrote junk vs b :
  wf b → ∃ b', putBoolContainer junk true vs b = Some b' ∧ wrote (enc_span 1 (Z.b2z <$> vs)) b b'.
Proof.
  intros Hw. destruct (reserve_spare_keeps junk (length vs + 4) b Hw) as (H1 & _).
  destruct (put_size_wrote junk (length vs) (reserve_spare junk (length vs + 4) b)) as (b1 & H2 & H3); [apply H1|].
  destruct (put_all_wrote junk 1 (Z.b2z <$> vs) b1) as (b2 & H4 & H5); [apply H3|].
  exists b2. unfold putBoolContainer. rewrite H2. split; [done|]. unfold enc_span. rewrite length_fmap.
  eapply wrote_nil_l; [done|]. by eapply wrote_trans.
Qed.

Lemma put_strings_wrote junk ss b : wf b → ∃ b', put_strings junk ss b = Some b' ∧ wrote (enc_strings ss) b b'.
Proof.
  intros Hw. destruct (reserve_spare_keeps junk (length ss * 25 + 4 + 1) b Hw) as (H1 & _).
  destruct (put_size_wrote junk (length ss) (reserve_spare junk (length ss * 25 + 4 + 1) b)) as (b1 & H2 & H3);
    [apply H1|].
  assert (Hall : ∀ ts c, wf c → ∃ c', put_strings_from junk ts c = Some c' ∧ wrote (concat (enc_string <$> ts)) c c').
  { induction ts as [|t ts IH]; intros c Hc.
    - exists c. unfold wrote. by rewrite app_nil_r.
    - destruct (put_string_wrote junk t c Hc) as (c1 & H4 & H5). destruct (IH c1) as (c2 & H6 & H7); [apply H5|].
      exists c2. cbn [put_strings_from]. rewrite H4. split; [done|]. by eapply wrote_trans. }
  destruct (Hall ss b1) as (b2 & H4 & H5); [apply H3|]. exists b2. unfold put_strings. rewrite H2.
  split; [done|]. eapply wrote_nil_l; [done|]. by eapply wrote_trans.
Qed.

Lemma put_string_raw_wrote junk s b : wf b → ∃ b', put_string_raw junk s b = Some b' ∧ wrote s b b'.
Proof.
  intros Hw.
  destruct (reserve_spare_keeps junk (length s + 4 + 1) b Hw) as (H1 & H2 & H3).
  destruct (append_ok s (reserve_spare junk (length s + 4 + 1) b)) as (b1 & He & Hb & Hs & Hc); [apply H1|lia|].
  unfold put_string_raw. rewrite He. cbn [mbind option_bind]. unfold store.
  rewrite (proj2 (Nat.leb_le _ _)) by (simpl; lia). eexists. split; [done|].
  eapply wrote_nil_l; [done|]. destruct Hb as (Hwf & Hco & Hpo).
  assert (Hl : length (take (size b1) (mem b1)) = size b1) by (rewrite length_take; unfold wf, capacity in *; lia).
  unfold wrote, wf, content, capacity in *. simpl in *. split_and!; [|by rewrite take_app_length'|done].
  rewrite !length_app, Hl. simpl. rewrite length_drop. lia.
Qed.

(** C39: Every write of the buffer succeeds within its memory, whatever was
    reserved before: it grows as needed, keeps what was written and the
    reading position, and adds the bytes of the value behind it. *)
Theorem puts_in_bounds junk n z s zs vs ss b :
  wf b → 0 < n →
  (∃ b', put junk n z b = Some b' ∧ wrote (le_bytes n z) b b')
  ∧ (∃ b', put_string junk s b = Some b' ∧ wrote (enc_string s) b b')
  ∧ (∃ b', put_span junk n zs b = Some b' ∧ wrote (enc_span n zs) b b')
  ∧ (∃ b', putBoolContainer junk true vs b = Some b' ∧ wrote (enc_span 1 (Z.b2z <$> vs)) b b')
  ∧ (∃ b', put_strings junk ss b = Some b' ∧ wrote (enc_strings ss) b b')
  ∧ (∃ b', put_string_raw junk s b = Some b' ∧ wrote s b b').
Proof.
  intros Hw Hn. split_and!; [by apply put_wrote|by apply put_string_wrote|by apply put_span_wrote
    |by apply putBool_wrote|by apply put_strings_wrote|by apply put_string_raw_wrote].
Qed.

Lemma puts_in_bounds_witness :
  let b := new_buffer "?"%char 3 in
  wf b ∧ ∃ b', put_string "?"%char (str "abc") b = Some b' ∧ wrote (enc_string (str "abc")) b b'
               ∧ content b' = [chr 4; chr 0; chr 0; chr 0] ++ str "abc" ++ [chr 0].
Proof.
  intros b. assert (Hw : wf b) by (unfold wf, b; simpl; lia). split; [exact Hw|].
  destruct (puts_in_bounds "?"%char 4 0 (str "abc") [] [] [] b Hw) as (_ & (b' & H1 & H2) & _); [lia|].
  exists b'. split_and!; [exact H1|exact H2|]. destruct H2 as (_ & -> & _). reflexivity.
Defined.

(** ** Reading back

    [reads b s rest]: the bytes to be read are [s], then [rest]. *)

Definition reads (b : iobuffer) (s rest : bytes) : Prop :=
  wf b ∧ position b ≤ size b ∧ drop (position b) (content b) = s ++ rest.

Lemma reads_app b s t rest : reads b (s ++ t) rest ↔ reads b s (t ++ rest).
Proof. unfold reads. by rewrite app_assoc. Qed.

Lemma reads_length b s rest : reads b s rest → position b + length s ≤ size b.
Proof.
  intros (Hw & Hp & Heq). pose proof (f_equal length Heq) as Hl.
  rewrite length_drop, length_content, length_app in Hl by done. lia.
Qed.

Lemma reads_advance b s rest : reads b s rest → reads (set_position (position b + length s) b) [] rest.
Proof.
  intros Hr. pose proof (reads_length _ _ _ Hr). destruct Hr as (Hw & Hp & Heq). split_and!; [done|done|].
  unfold content in *. simpl. rewrite <- drop_drop, Heq. apply drop_app_length.
Qed.

Lemma reads_load b s rest : reads b s rest → load (position b) (length s) b = Some s.
Proof.
  intros Hr. pose proof (reads_length _ _ _ Hr) as Hl. destruct Hr as (Hw & Hp & Heq).
  unfold load. unfold wf in Hw. rewrite (proj2 (Nat.leb_le _ _)) by lia. f_equal.
  unfold content in Heq. rewrite List.skipn_firstn_comm in Heq. apply (f_equal (take (length s))) in Heq.
  rewrite take_take, take_app_length, Nat.min_l in Heq by lia. done.
Qed.

Lemma le_value_bytes n z : le_value (le_bytes n z) = wrapu (width n) z.
Proof.
  unfold width, wrapu. revert z. induction n as [|n IH]; intros z; [by rewrite Z.mod_1_r|].
  cbn [le_bytes le_value]. rewrite IH, code_chr, Z.lor_comm, lor_shiftl_add by (lia || apply Z.mod_pos_bound; lia).
  rewrite Z.shiftr_div_pow2 by lia. change (2 ^ 8)%Z with 256%Z.
  replace (8 * Z.of_nat (S n))%Z with (8 + 8 * Z.of_nat n)%Z by lia.
  rewrite Z.pow_add_r by lia. change (2 ^ 8)%Z with 256%Z.
  rewrite (Z.rem_mul_r z 256) by lia. lia.
Qed.

Lemma wraps_wrapu n z : (0 < n)%Z → wraps n (wrapu n z) = wraps n z.
Proof.
  intros Hn. unfold wraps, wrapu. f_equal. rewrite Zplus_mod_idemp_l. done.
Qed.

Lemma wrapu_wraps n z : wrapu n (wraps n z) = wrapu n z.
Proof.
  unfold wraps, wrapu. rewrite Zminus_mod_idemp_l. f_equal. lia.
Qed.

Lemma get_u_reads n z b rest :
  reads b (le_bytes n z) rest →
  get_u n b = Some (wrapu (width n) z, set_position (position b + n) b)
  ∧ reads (set_position (position b + n) b) [] rest.
Proof.
  intros Hr. pose proof (reads_load _ _ _ Hr) as Hl. pose proof (reads_advance _ _ _ Hr) as Ha.
  rewrite length_le_bytes in Hl, Ha. unfold get_u. rewrite Hl. cbn [mbind option_bind].
  by rewrite le_value_bytes.
Qed.

Lemma get_s_reads n z b rest :
  0 < n → in_s (width n) z → reads b (le_bytes n z) rest →
  get_s n b = Some (z, set_position (position b + n) b) ∧ reads (set_position (position b + n) b) [] rest.
Proof.
  intros Hn Hz Hr. destruct (get_u_reads n z b rest Hr) as [H1 H2]. split; [|done].
  unfold get_s. rewrite H1. cbn [mbind option_bind].
  rewrite wraps_wrapu, wraps_id by (unfold width in *; (lia || done)). done.
Qed.

(** Lengths that fit the [int32_t] on the wire. *)
Definition fits (n : nat) : Prop := (Z.of_nat n < 2 ^ 31)%Z.

Lemma get_size_reads n b rest :
  fits n → reads b (enc_size n) rest →
  get_s 4 b = Some (Z.of_nat n, set_position (position b + 4) b) ∧ reads (set_position (position b + 4) b) [] rest.
Proof.
  intros Hn Hr. unfold enc_size in Hr. rewrite wraps_id in Hr by (unfold in_s, fits in *; lia).
  apply get_s_reads; [lia|unfold in_s, width, fits in *; simpl; lia|done].
Qed.

Lemma extractStringView_reads s b rest :
  fits (length s + 1) → reads b (enc_string s) rest →
  ∃ b', extractStringView b = Some (s, b') ∧ reads b' [] rest ∧ mem b' = mem b ∧ size b' = size b.
Proof.
  intros Hf Hr. unfold enc_string in Hr. rewrite reads_app, <- app_assoc in Hr.
  destruct (get_size_reads _ _ _ Hf Hr) as [H1 H2].
  set (b1 := set_position (position b + 4) b) in *.
  assert (Hr1 : reads b1 s ([chr 0] ++ rest)) by (by apply (reads_app b1 []) in H2).
  unfold extractStringView. rewrite H1. cbn [mbind option_bind]. fold b1.
  replace (Z.to_nat (wrapu 64 (Z.of_nat (length s + 1) - 1))) with (length s)
    by (rewrite wrapu_id by (unfold in_u, fits in *; lia); lia).
  rewrite (reads_load _ _ _ Hr1). cbn [mbind option_bind].
  eexists. split; [done|]. split_and!; [|done|done].
  assert (Hr2 : reads b1 (s ++ [chr 0]) rest) by (by rewrite reads_app).
  apply reads_advance in Hr2. rewrite length_app in Hr2. by rewrite Nat.add_assoc in Hr2.
Qed.

Lemma chunks_concat n zs t : chunks (length zs) n (concat (le_bytes n <$> zs) ++ t) = le_bytes n <$> zs.
Proof.
  induction zs as [|z zs IH]; [done|]. cbn [length chunks fmap list_fmap concat]. rewrite <- app_assoc.
  rewrite take_app_length' by (by rewrite length_le_bytes). f_equal.
  rewrite drop_app_length' by (by rewrite length_le_bytes). apply IH.
Qed.

(** A reader that asks for at least [n] elements. *)
Definition asks (n : nat) (requested : option nat) : Prop :=
  match requested with Some r => n ≤ r | None => True end.

Lemma array_size_all n requested b :
  fits n → asks n requested → n ≤ size b - position b → array_size requested (Z.of_nat n) b = n.
Proof.
  intros Hf Ha Hn. unfold array_size. rewrite wrapu_id by (unfold in_u, fits in *; lia). rewrite Nat2Z.id.
  destruct requested; simpl in *; lia.
Qed.

Lemma getArray_reads n zs b rest requested :
  0 < n → fits (length zs) → asks (length zs) requested → reads b (enc_span n zs) rest →
  ∃ b', getArray n requested b = Some (wrapu (width n) <$> zs, b') ∧ reads b' [] rest ∧ mem b' = mem b ∧ size b' = size b.
Proof.
  intros Hn Hf Hask Hr. unfold enc_span in Hr. rewrite reads_app in Hr.
  destruct (get_size_reads _ _ _ Hf Hr) as [H1 H2]. set (b1 := set_position (position b + 4) b) in *.
  apply (reads_app b1 []) in H2. simpl in H2.
  pose proof (reads_length _ _ _ H2) as Hlen. pose proof (reads_load _ _ _ H2) as Hld.
  apply reads_advance in H2. rewrite length_concat_le in Hlen, Hld, H2.
  unfold getArray. rewrite H1. cbn [mbind option_bind]. fold b1.
  assert (Hk : array_size requested (Z.of_nat (length zs)) b1 = length zs).
  { apply array_size_all; [done..|]. assert (length zs ≤ length zs * n) by nia. lia. }
  rewrite Hk, Hld. cbn [mbind option_bind]. eexists. split; [|done]. do 2 f_equal.
  rewrite <- (app_nil_r (concat _)), chunks_concat, <- list_fmap_compose. apply list_fmap_ext.
  intros i z _. apply le_value_bytes.
Qed.

(** One by one, with a reader [g] of the elements. *)
Lemma get_each_reads {A} (g : iobuffer → option (A * iobuffer)) (enc : A → bytes) (P : A → Prop) xs b rest :
  (∀ x c t, P x → reads c (enc x) t →
     ∃ c', g c = Some (x, c') ∧ reads c' [] t ∧ mem c' = mem c ∧ size c' = size c) →
  Forall P xs → reads b (concat (enc <$> xs)) rest →
  ∃ b', get_each g (length xs) b = Some (xs, b') ∧ reads b' [] rest ∧ mem b' = mem b ∧ size b' = size b.
Proof.
  intros Hg HP. revert b. induction HP as [|x xs Hx _ IH]; intros b Hr.
  - exists b. done.
  - cbn [fmap list_fmap concat] in Hr. rewrite reads_app in Hr.
    destruct (Hg x b _ Hx Hr) as (b1 & H1 & H2 & Hm & Hs). apply (reads_app b1 []) in H2. simpl in H2.
    destruct (IH b1 H2) as (b2 & H3 & H4 & Hm2 & Hs2). exists b2. cbn [length get_each]. rewrite H1.
    cbn [mbind option_bind]. rewrite H3. split_and!; [done|done|congruence|congruence].
Qed.

Lemma getArray_each_reads {A} (g : iobuffer → option (A * iobuffer)) (enc : A → bytes) (P : A → Prop) xs b rest requested :
  (∀ x c t, P x → reads c (enc x) t →
     ∃ c', g c = Some (x, c') ∧ reads c' [] t ∧ mem c' = mem c ∧ size c' = size c) →
  Forall P xs → (∀ x, P x → 0 < length (enc x)) → fits (length xs) → asks (length xs) requested →
  reads b (enc_size (length xs) ++ concat (enc <$> xs)) rest →
  ∃ b', getArray_each g requested b = Some (xs, b') ∧ reads b' [] rest ∧ mem b' = mem b ∧ size b' = size b.
Proof.
  intros Hg HP Hpos Hf Hask Hr. rewrite reads_app in Hr.
  destruct (get_size_reads _ _ _ Hf Hr) as [H1 H2]. set (b1 := set_position (position b + 4) b) in *.
  apply (reads_app b1 []) in H2. simpl in H2. pose proof (reads_length _ _ _ H2) as Hlen.
  unfold getArray_each. rewrite H1. cbn [mbind option_bind]. fold b1.
  assert (Hle : length xs ≤ length (concat (enc <$> xs))).
  { clear -HP Hpos. induction HP as [|x xs Hx _ IH]; [done|]. cbn [fmap list_fmap concat length].
    rewrite length_app. pose proof (Hpos x Hx). change (list_fmap _ _ enc xs) with (enc <$> xs). lia. }
  rewrite array_size_all by (done || lia). destruct (get_each_reads g enc P xs b1 rest Hg HP H2) as (b2 & H3 & H4 & Hm & Hs). eauto.
Qed.

(** Reading an array checks the number of elements against the number of bytes
    left: with wider elements it reads past the end of the memory. *)
Lemma getArray_overread :
  let wire := le_bytes 4 3 ++ le_bytes 8 1 in
  (b ← from_data (chr 0) wire; getArray 8 None b) = None
  ∧ is_Some (b ← from_data (chr 0) wire; Some b).
Proof. split; [vm_compute; reflexivity|vm_compute; by eexists]. Qed.

(** [skip] refuses every step that leaves the content, on either side. *)
Theorem skip_in_bounds n b :
  in_s 32 n → position b ≤ size b → (Z.of_nat (size b) < 2 ^ 32)%Z →
  skip n b = if decide (0 ≤ Z.of_nat (position b) + n ≤ Z.of_nat (size b))%Z
             then Ok (set_position (Z.to_nat (Z.of_nat (position b) + n)) b) else Throw OutOfRange.
Proof.
  intros Hn Hp Hs. unfold skip, in_s in *. set (p := Z.of_nat (position b)) in *. set (s := Z.of_nat (size b)) in *.
  assert (0 ≤ p ≤ s)%Z by lia.
  assert (Hw : wrapu 64 (p + wrapu 64 n) = wrapu 64 (p + n)).
  { unfold wrapu. by rewrite Zplus_mod_idemp_r. }
  rewrite Hw. case_decide as Hd.
  - rewrite wrapu_id by (unfold in_u; lia). rewrite (proj2 (Z.ltb_ge _ _)) by lia. done.
  - destruct (decide (p + n < 0)%Z).
    + assert (wrapu 64 (p + n) = p + n + 2 ^ 64)%Z as ->.
      { unfold wrapu. symmetry. apply (Z.mod_unique_pos _ _ (-1)); lia. }
      rewrite (proj2 (Z.ltb_lt _ _)) by lia. done.
    + rewrite wrapu_id by (unfold in_u; lia). rewrite (proj2 (Z.ltb_lt _ _)) by lia. done.
Qed.

Lemma skip_in_bounds_witness :
  let b := mkbuf (str "abcdef") 2 6 in
  skip (-3) b = Throw OutOfRange ∧ skip 4 b = Ok (set_position 6 b).
Proof.
  intros b. split; rewrite skip_in_bounds by (unfold in_s; simpl; lia); reflexivity.
Defined.
