(* ===== verification/MultiArray.v ===== *)
(** * MultiArray: [serialiser/include/MultiArray.hpp]

    Arrays of a fixed number of dimensions over a vector of elements; sizes,
    strides and offsets are 32-bit unsigned.  Reading outside the vector and
    dividing by a stride of zero are undefined, the result [None].  Not
    modelled: the arithmetic of the elements, which is that of their type. *)

From S2P Require Import Prelude.
Local Open Scope Z_scope.

Record t (A : Type) : Type := mk {
  elements : list A;
  element_count : Z;
  dimensions : list Z;
  strides : list Z;
  offsets : list Z
}.
Arguments mk {A}.
Arguments elements {A}.
Arguments element_count {A}.
Arguments dimensions {A}.
Arguments strides {A}.
Arguments offsets {A}.

#[export] Instance multi_array_eq_dec {A} `{EqDecision A} : EqDecision (t A).
Proof. solve_decision. Defined.

(** The loop of the constructors, from the last dimension: the number of
    elements and the strides.  There is at least one dimension. *)
Fixpoint row_major (dims : list Z) : Z * list Z :=
  match dims with
  | [] => (1, [])
  | [d] => (d, [1])
  | d :: (d' :: _) as dims' =>
      let '(n, ss) := row_major dims' in
      (wrapu 32 (n * d), wrapu 32 (hd 0 ss * d') :: ss)
  end.

(** [MultiArray(elements, dimensions)] *)
Definition make {A} (elems : list A) (dims : list Z) : t A :=
  let '(n, ss) := row_major dims in mk elems n dims ss (replicate (length dims) 0).

(** [MultiArray(dimensions)]; [zero] is a value-initialised element. *)
Definition make_empty {A} (zero : A) (dims : list Z) : t A :=
  let '(n, ss) := row_major dims in
  mk (replicate (Z.to_nat n) zero) n dims ss (replicate (length dims) 0).

(** The constructor that is given everything. *)
Definition make_custom {A} (elems : list A) (dims ss os : list Z) : t A :=
  mk elems (wrapu 32 (Z.of_nat (length elems))) dims ss os.

Fixpoint index_loop (os ix ss : list Z) (acc : Z) : Z :=
  match os, ix, ss with
  | o :: os', i :: ix', s :: ss' => index_loop os' ix' ss' (wrapu 32 (acc + wrapu 32 (wrapu 32 (o + i) * s)))
  | _, _, _ => acc
  end.

Definition index {A} (m : t A) (ix : list Z) : Z := index_loop (offsets m) ix (strides m) 0.

Fixpoint indices_loop (os ss : list Z) (index_ : Z) : option (list Z) :=
  match os, ss with
  | o :: os', s :: ss' =>
      let i0 := wrapu 32 (index_ - o) in
      if s =? 0 then None
      else
        let i := i0 / s in
        ix ← indices_loop os' ss' (wrapu 32 (i0 - wrapu 32 (i * s)));
        Some (i :: ix)
  | _, _ => Some []
  end.

Definition indices {A} (m : t A) (i : Z) : option (list Z) := indices_loop (offsets m) (strides m) i.

(** [operator[]] and [operator()], and the accessors that check. *)
Definition at_index {A} (m : t A) (i : Z) : option A := elements m !! Z.to_nat i.
Definition at_indices {A} (m : t A) (ix : list Z) : option A := at_index m (index m ix).

Definition get {A} (m : t A) (i : Z) : result A :=
  match elements m !! Z.to_nat i with Some x => Ok x | None => Throw OutOfRange end.
Definition get_indices {A} (m : t A) (ix : list Z) : result A := get m (index m ix).

(** [operator==]: [std::equal] compares the elements up to the count and
    stops at the first that differs. *)
Fixpoint std_equal {A} `{EqDecision A} (n : nat) (xs ys : list A) : option bool :=
  match n, xs, ys with
  | O, _, _ => Some true
  | S n', x :: xs', y :: ys' => if bool_decide (x = y) then std_equal n' xs' ys' else Some false
  | _, _, _ => None
  end.

Definition equal {A} `{EqDecision A} (m m' : t A) : option bool :=
  if bool_decide (dimensions m = dimensions m') && (element_count m =? element_count m')
  then
    let n := Z.to_nat (element_count m) in
    if (length (elements m) <? n)%nat then None else std_equal n (elements m) (elements m')
  else Some false.

(** ** Row-major order *)

Fixpoint product (dims : list Z) : Z :=
  match dims with [] => 1 | d :: dims' => d * product dims' end.

Fixpoint suffix_products (dims : list Z) : list Z :=
  match dims with [] => [] | _ :: dims' => product dims' :: suffix_products dims' end.

(** The position of an element in row-major order. *)
Fixpoint flat (dims ix : list Z) : Z :=
  match dims, ix with
  | _ :: dims', i :: ix' => i * product dims' + flat dims' ix'
  | _, _ => 0
  end.

Definition in_range : list Z → list Z → Prop := Forall2 (λ i d, 0 ≤ i < d).

(** Dimensions of at least one element, and less than [2^32] in all. *)
Definition dims_ok (dims : list Z) : Prop :=
  dims ≠ [] ∧ Forall (λ d, 0 < d) dims ∧ product dims < 2 ^ 32.

Lemma product_pos dims : Forall (λ d, 0 < d) dims → 0 < product dims.
Proof. induction 1; simpl; nia. Qed.

Lemma flat_range dims ix : in_range ix dims → 0 ≤ flat dims ix < product dims.
Proof. induction 1 as [|i d ix dims Hi _ IH]; simpl; nia. Qed.

Lemma in_range_pos dims ix : in_range ix dims → Forall (λ d, 0 < d) dims.
Proof. induction 1 as [|i d ix dims Hi _ IH]; constructor; [lia|done]. Qed.

Lemma row_major_spec dims :
  dims_ok dims → row_major dims = (product dims, suffix_products dims).
Proof.
  intros (Hne & Hp & Hlt). induction dims as [|d [|d' dims] IH]; [done|simpl; f_equal; lia|].
  apply Forall_cons in Hp as [Hd Hp]. pose proof (product_pos _ Hp) as Hpp.
  change (row_major (d :: d' :: dims)) with
    (let '(n, ss) := row_major (d' :: dims) in (wrapu 32 (n * d), wrapu 32 (hd 0 ss * d') :: ss)).
  change (product (d :: d' :: dims)) with (d * product (d' :: dims)) in *.
  rewrite IH by (done || nia). cbn [suffix_products hd].
  rewrite !wrapu_id by (unfold in_u; cbn [product] in *; nia). f_equal; [lia|].
  f_equal. cbn [product]. lia.
Qed.

Lemma index_loop_flat dims ix acc :
  in_range ix dims → 0 ≤ acc → acc + product dims ≤ 2 ^ 32 →
  index_loop (replicate (length dims) 0) ix (suffix_products dims) acc = acc + flat dims ix.
Proof.
  intros Hr. revert acc. induction Hr as [|i d ix dims Hi Hr IH]; intros acc H0 Hb; [simpl; lia|].
  pose proof (product_pos _ (in_range_pos _ _ Hr)). cbn [product] in Hb.
  cbn [length replicate suffix_products index_loop flat].
  pose proof (flat_range _ _ Hr). assert (i * product dims + product dims ≤ d * product dims) by nia.
  assert (i < 2 ^ 32) by nia.
  rewrite (Z.add_0_l i), (wrapu_id 32 i) by (unfold in_u; lia).
  rewrite (wrapu_id 32 (i * _)) by (unfold in_u; nia). rewrite wrapu_id by (unfold in_u; nia).
  rewrite IH; [lia|nia|nia].
Qed.

Lemma indices_loop_flat dims ix :
  in_range ix dims → product dims ≤ 2 ^ 32 →
  indices_loop (replicate (length dims) 0) (suffix_products dims) (flat dims ix) = Some ix.
Proof.
  intros Hr. induction Hr as [|i d ix dims Hi Hr IH]; intros Hb; [done|].
  pose proof (product_pos _ (in_range_pos _ _ Hr)) as Hp. pose proof (flat_range _ _ Hr) as Hf.
  cbn [product] in Hb. cbn [length replicate suffix_products indices_loop flat].
  rewrite Z.sub_0_r, wrapu_id by (unfold in_u; nia).
  rewrite (proj2 (Z.eqb_neq _ _)) by lia.
  replace ((i * product dims + flat dims ix) / product dims) with i
    by (rewrite Z.div_add_l by lia; rewrite Z.div_small by lia; lia).
  rewrite (wrapu_id 32 (i * product dims)) by (unfold in_u; nia).
  replace (i * product dims + flat dims ix - i * product dims) with (flat dims ix) by lia.
  rewrite wrapu_id by (unfold in_u; nia). rewrite IH by nia. done.
Qed.

(** Every position is that of some indices. *)
Lemma flat_onto dims i : Forall (λ d, 0 < d) dims → 0 ≤ i < product dims → ∃ ix, in_range ix dims ∧ flat dims ix = i.
Proof.
  intros Hd. revert i. induction Hd as [|d dims Hd Hp IH]; intros i Hi; simpl in *.
  - exists []. split; [constructor|lia].
  - pose proof (product_pos _ Hp). destruct (IH (i mod product dims)) as (ix & Hr & Hf); [by apply Z.mod_pos_bound|].
    exists (i / product dims :: ix). split.
    + constructor; [|done]. split; [apply Z.div_pos; lia|apply Z.div_lt_upper_bound; lia].
    + rewrite Hf, Z.mul_comm. symmetry. apply Z.div_mod. lia.
Qed.

(** An array made from dimensions of less than [2^32] elements lists its
    elements in row-major order: indices in range and positions below the
    number of elements correspond one to one, by [index] and [indices], and
    with as many elements as the dimensions ask for every indices in range
    have theirs, with and without the check. *)
Theorem index_bijection {A} (elems : list A) dims ix i :
  dims_ok dims →
  let m := make elems dims in
  element_count m = product dims
  ∧ (in_range ix dims →
     0 ≤ index m ix < element_count m ∧ index m ix = flat dims ix ∧ indices m (index m ix) = Some ix)
  ∧ (0 ≤ i < element_count m → ∃ ix', in_range ix' dims ∧ index m ix' = i ∧ indices m i = Some ix')
  ∧ (in_range ix dims → Z.of_nat (length elems) = product dims →
     ∃ x, at_indices m ix = Some x ∧ get_indices m ix = Ok x ∧ elems !! Z.to_nat (flat dims ix) = Some x).
Proof.
  intros Hok m. pose proof (row_major_spec dims Hok) as Hrm. destruct Hok as (Hne & Hd & Hlt).
  assert (Hm : m = mk elems (product dims) dims (suffix_products dims) (replicate (length dims) 0))
    by (unfold m, make; by rewrite Hrm).
  assert (Hi : ∀ js, in_range js dims → index m js = flat dims js).
  { intros js Hjs. rewrite Hm. unfold index. simpl. rewrite index_loop_flat by (done || lia). lia. }
  assert (Hj : ∀ js, in_range js dims → indices m (index m js) = Some js).
  { intros js Hjs. rewrite Hi by done. rewrite Hm. unfold indices. simpl. apply indices_loop_flat; [done|lia]. }
  assert (Hc : element_count m = product dims) by (by rewrite Hm). split_and!; [done| | |].
  - intros Hr. rewrite Hj, Hi, Hc by done. split; [by apply flat_range|done].
  - rewrite Hc. intros Hrange. destruct (flat_onto dims i Hd Hrange) as (ix' & Hr & <-).
    exists ix'. rewrite <- (Hi ix') by done. auto.
  - intros Hr Hlen. pose proof (flat_range _ _ Hr) as Hf.
    destruct (lookup_lt_is_Some_2 elems (Z.to_nat (flat dims ix))) as [x Hx]; [lia|].
    exists x. unfold at_indices, at_index, get_indices, get. rewrite Hi by done. rewrite Hm. simpl. by rewrite Hx.
Qed.

Lemma index_bijection_witness :
  let m := make (str "abcdef") [2; 3] in
  element_count m = 6 ∧ index m [1; 2] = 5 ∧ indices m 5 = Some [1; 2] ∧ get_indices m [1; 2] = Ok "f"%char.
Proof.
  assert (Hok : dims_ok [2; 3]) by (split_and!; [done|by repeat constructor|done]).
  assert (Hr : in_range [1; 2] [2; 3]) by (repeat constructor; lia).
  destruct (index_bijection (str "abcdef") [2; 3] [1; 2] 5 Hok) as (H1 & H2 & _ & H4).
  destruct (H2 Hr) as (_ & H5 & H6). rewrite H5 in H6. destruct (H4 Hr eq_refl) as (x & _ & H7 & H8).
  split_and!; [exact H1|exact H5|exact H6|]. rewrite H7. vm_compute in H8. by injection H8 as <-.
Defined.

(** With more than [2^32] elements the count and the strides wrap: two
    indices in range share their position. *)
Lemma index_wraps :
  let dims := [4; 2 ^ 30; 2 ^ 2] in
  in_range [0; 0; 0] dims ∧ in_range [1; 0; 0] dims
  ∧ index (make (A := Z) [] dims) [0; 0; 0] = index (make (A := Z) [] dims) [1; 0; 0]
  ∧ element_count (make (A := Z) [] dims) = 0.
Proof. split_and!; [repeat constructor; lia..|reflexivity|reflexivity]. Qed.
