(* ===== verification/Yas.v ===== *)
(** * Yas: [serialiser/include/IoSerialiserYaS.hpp]

    The wire format of the YaS serialiser: numbers, strings, arrays,
    multi-dimensional arrays and maps, the header of a message and of a
    field.  A type of the model is a C++ type the serialiser has an instance
    for; a value is written by the buffer's [put] and read by its [get]. *)

From S2P Require Import Prelude IoBuffer.
From S2P Require MultiArray.
Local Open Scope nat_scope.

(** The numbers: integers by value, floating-point numbers by their bits. *)
Inductive number : Type := Bool | Int8 | Int16 | Int32 | Int64 | Float | Double | Char.

#[export] Instance number_eq_dec : EqDecision number.
Proof. solve_decision. Defined.

Definition bytes_of (t : number) : nat :=
  match t with
  | Bool | Int8 | Char => 1 | Int16 => 2 | Int32 | Float => 4 | Int64 | Double => 8
  end.

(** The primitive types and the values they have. *)
Inductive prim : Type := Number (t : number) | String.

Definition carrier (a : prim) : Type := match a with Number _ => Z | String => bytes end.

#[export] Instance carrier_eq_dec a : EqDecision (carrier a).
Proof. destruct a; apply _. Defined.
#[export] Instance carrier_countable a : Countable (carrier a).
Proof. destruct a; apply _. Defined.

(** [yas::getDataTypeId]; vectors and sets of a type have [ARRAY_TYPE_OFFSET]
    more. *)
Definition type_id (a : prim) : Z :=
  match a with
  | Number Bool => 1 | Number Int8 => 2 | Number Int16 => 3 | Number Int32 => 4 | Number Int64 => 5
  | Number Float => 6 | Number Double => 7 | Number Char => 8 | String => 9
  end.

Definition ARRAY_TYPE_OFFSET : Z := 100.
Definition START_MARKER_ID : Z := 0.
Definition OTHER_ID : Z := 253.
Definition END_MARKER_ID : Z := 254.
Definition MAP_ID : Z := 203.

(** What a value of the type can be. *)
Definition in_number (t : number) (z : Z) : Prop :=
  match t with
  | Bool => (0 ≤ z < 2)%Z
  | Float | Double => in_u (width (bytes_of t)) z
  | _ => in_s (width (bytes_of t)) z
  end.

Definition prim_ok (a : prim) : carrier a → Prop :=
  match a with Number t => in_number t | String => λ s, fits (length s + 1) end.

(** The value of the bits that were read. *)
Definition of_bits (t : number) (z : Z) : Z :=
  match t with
  | Bool | Float | Double => z
  | _ => wraps (width (bytes_of t)) z
  end.

Section yas.
Context (junk : ascii).

Definition put_prim (a : prim) : carrier a → iobuffer → option iobuffer :=
  match a with Number t => put junk (bytes_of t) | String => put_string junk end.

Definition get_prim (a : prim) : iobuffer → option (carrier a * iobuffer) :=
  match a with
  | Number t => λ b, '(z, b') ← get_u (bytes_of t) b; Some (of_bits t z, b')
  | String => extractStringView
  end.

(** [put] of a vector or an array, and [getArray]. *)
Definition put_vector (a : prim) : list (carrier a) → iobuffer → option iobuffer :=
  match a with
  | Number Bool => λ zs, putBoolContainer junk true ((λ z, negb (z =? 0)%Z) <$> zs)
  | Number t => put_span junk (bytes_of t)
  | String => put_strings junk
  end.

Definition get_numbers (t : number) (requested : option nat) (b : iobuffer) : option (list Z * iobuffer) :=
  match getArray (bytes_of t) requested b with
  | Some (zs, b') => Some (of_bits t <$> zs, b')
  | None => None
  end.

Definition get_vector (a : prim) (requested : option nat) : iobuffer → option (list (carrier a) * iobuffer) :=
  match a with
  | Number Bool => getArray_each (get_prim (Number Bool)) requested
  | Number t => get_numbers t requested
  | String => getArray_each extractStringView requested
  end.

(** The array with the dimensions. *)
Definition put_dims (dims : list Z) : iobuffer → option iobuffer :=
  put_span junk 4 (wraps 32 <$> dims).

(** [IoSerialiser<YaS, ArrayOrVector>] *)
Definition serialise_vector (a : prim) (xs : list (carrier a)) (b : iobuffer) : option iobuffer :=
  b1 ← put_dims [Z.of_nat (length xs)] b; put_vector a xs b1.

Definition deserialise_vector (a : prim) (b : iobuffer) : option (list (carrier a) * iobuffer) :=
  '(_, b1) ← getArray 4 (Some 1) b; get_vector a None b1.

(** [IoSerialiser<YaS, MultiArray>]: the dimensions and the elements; what
    is read has the count and the strides of the row-major order. *)
Definition serialise_multi (a : prim) (m : MultiArray.t (carrier a)) (b : iobuffer) : option iobuffer :=
  b1 ← put_dims (MultiArray.dimensions m) b; put_vector a (MultiArray.elements m) b1.

Definition deserialise_multi (a : prim) (n_dims : nat) (b : iobuffer)
    : option (MultiArray.t (carrier a) * iobuffer) :=
  '(wire, b1) ← getArray 4 (Some n_dims) b;
  let dims := wrapu 32 ∘ wraps 32 <$> wire in
  let '(n, ss) := MultiArray.row_major dims in
  '(xs, b2) ← get_vector a None b1;
  Some (MultiArray.mk xs n dims ss (replicate (length dims) 0%Z), b2).

(** [IoSerialiser<YaS, MapLike>]; [entries] is the map as it is walked. *)
Fixpoint put_prims (a : prim) (xs : list (carrier a)) (b : iobuffer) : option iobuffer :=
  match xs with
  | [] => Some b
  | x :: xs' => b' ← put_prim a x b; put_prims a xs' b'
  end.

Definition put_column (a : prim) (n : nat) (xs : list (carrier a)) (b : iobuffer) : option iobuffer :=
  let b0 := reserve_spare junk (n * 17 + 9) b in
  b1 ← put junk 1 (type_id a) b0;
  b2 ← put_size junk n b1;
  put_prims a xs b2.

Definition serialise_map (k v : prim) (entries : list (carrier k * carrier v)) (b : iobuffer) : option iobuffer :=
  b1 ← put_size junk (length entries) b;
  b2 ← put_column k (length entries) entries.*1 b1;
  put_column v (length entries) entries.*2 b2.

(** [IoSerialiser<YaS, std::set<V>>]; [xs] is the set as it is walked.  The
    size is also the initial size of the vector that is read into. *)
Definition serialise_set (a : prim) (xs : list (carrier a)) (b : iobuffer) : option iobuffer :=
  b1 ← put_dims [Z.of_nat (length xs)] b;
  b2 ← put_size junk (length xs) b1;
  put_prims a xs b2.

Definition deserialise_set (a : prim) (b : iobuffer) : option (gset (carrier a) * iobuffer) :=
  '(wire, b1) ← getArray 4 (Some 1) b;
  let n := wraps 32 (default 0%Z (head wire)) in
  '(xs, b2) ← get_vector a (Some (Z.to_nat (wrapu 64 n))) b1;
  Some (list_to_set xs, b2).

(** The type and the number of elements in front of a column. *)
Definition check_column (a : prim) (nElements : Z) (b : iobuffer) : option (result () * iobuffer) :=
  '(t, b1) ← get_u 1 b;
  if negb (t =? type_id a)%Z then Some (Throw ProtocolException, b1)
  else
    '(n, b2) ← get_u 4 b1;
    if negb (n =? nElements)%Z then Some (Throw ProtocolException, b2) else Some (Ok (), b2).

Definition deserialise_map (k v : prim) (b : iobuffer) : option (result (gmap (carrier k) (carrier v)) * iobuffer) :=
  '(n, b1) ← get_u 4 b;
  '(r1, b2) ← check_column k n b1;
  match r1 with
  | Throw e => Some (Throw e, b2)
  | Ok _ =>
      '(ks, b3) ← get_each (get_prim k) (Z.to_nat n) b2;
      '(r2, b4) ← check_column v n b3;
      match r2 with
      | Throw e => Some (Throw e, b4)
      | Ok _ =>
          '(vs, b5) ← get_each (get_prim v) (Z.to_nat n) b4;
          Some (Ok (foldl (λ m x, <[x.1 := x.2]> m) ∅ (zip ks vs)), b5)
      end
  end.
End yas.

(** ** The bytes of the values *)

Definition enc_prim (a : prim) : carrier a → bytes :=
  match a with Number t => le_bytes (bytes_of t) | String => enc_string end.

Definition enc_vector (a : prim) (xs : list (carrier a)) : bytes :=
  enc_size (length xs) ++ concat (enc_prim a <$> xs).

Definition enc_dims (dims : list Z) : bytes := enc_span 4 (wraps 32 <$> dims).

Lemma bytes_of_pos t : 0 < bytes_of t.
Proof. destruct t; simpl; lia. Qed.

Lemma of_bits_wrapu t z : in_number t z → of_bits t (wrapu (width (bytes_of t)) z) = z.
Proof.
  intros Hz. destruct t; simpl in *;
    try (apply wrapu_id; exact Hz);
    try (rewrite wraps_wrapu, wraps_id by (unfold width; simpl; (lia || exact Hz)); done).
  apply wrapu_id. unfold in_u, width. simpl. lia.
Qed.

Lemma length_enc_prim a x : 0 < length (enc_prim a x).
Proof.
  destruct a as [t|]; simpl; [rewrite length_le_bytes; apply bytes_of_pos|].
  unfold enc_string. rewrite !length_app. simpl. lia.
Qed.

(** [c'] is [c] read further on. *)
Definition reading (c c' : iobuffer) : Prop := mem c' = mem c ∧ size c' = size c.

Lemma get_prim_reads a x c rest :
  prim_ok a x → reads c (enc_prim a x) rest →
  ∃ c', get_prim a c = Some (x, c') ∧ reads c' [] rest ∧ mem c' = mem c ∧ size c' = size c.
Proof.
  destruct a as [t|]; simpl; intros Hx Hr; [|by apply extractStringView_reads].
  destruct (get_u_reads _ _ _ _ Hr) as [H1 H2]. rewrite H1. cbn [mbind option_bind].
  rewrite of_bits_wrapu by done. eauto.
Qed.

Lemma put_prim_wrote junk a x b : wf b → ∃ b', put_prim junk a x b = Some b' ∧ wrote (enc_prim a x) b b'.
Proof. destruct a as [t|]; [apply put_wrote|apply put_string_wrote]. Qed.

Lemma put_vector_wrote junk a xs b :
  wf b → Forall (prim_ok a) xs → ∃ b', put_vector junk a xs b = Some b' ∧ wrote (enc_vector a xs) b b'.
Proof.
  intros Hw Hx. destruct a as [t|]; [|by apply put_strings_wrote].
  destruct (decide (t = Bool)) as [->|Ht].
  2:{ destruct t; try done; apply put_span_wrote; simpl; (lia || done). }
  destruct (putBool_wrote junk ((λ z, negb (z =? 0)%Z) <$> xs) b Hw) as (b' & H1 & H2).
  exists b'. split; [exact H1|]. rewrite <- list_fmap_compose in H2.
  replace (Z.b2z ∘ (λ z, negb (z =? 0)%Z) <$> xs) with xs in H2; [exact H2|].
  symmetry. rewrite <- (list_fmap_id xs) at 2. clear -Hx. induction Hx as [|z zs Hz _ IH]; [done|].
  rewrite !fmap_cons, IH. f_equal. simpl in Hz. unfold compose, id. destruct (Z.eqb_spec z 0); simpl; lia.
Qed.

Lemma get_vector_reads a xs c rest requested :
  Forall (prim_ok a) xs → fits (length xs) → asks (length xs) requested → reads c (enc_vector a xs) rest →
  ∃ c', get_vector a requested c = Some (xs, c') ∧ reads c' [] rest ∧ mem c' = mem c ∧ size c' = size c.
Proof.
  intros Hx Hf Ha Hr. destruct a as [t|].
  2:{ apply (getArray_each_reads extractStringView enc_string (prim_ok String)); try done.
      - intros x d u Hok. by apply (get_prim_reads String).
      - intros x _. apply (length_enc_prim String). }
  destruct (decide (t = Bool)) as [->|Ht].
  { apply (getArray_each_reads (get_prim (Number Bool)) (enc_prim (Number Bool)) (prim_ok (Number Bool))); try done.
    - intros x d u Hok. by apply (get_prim_reads (Number Bool)).
    - intros x _. apply (length_enc_prim (Number Bool)). }
  destruct (getArray_reads (bytes_of t) xs c rest requested) as (c' & H1 & H2); [apply bytes_of_pos|done..|].
  exists c'. split; [|done].
  assert (Hn : get_numbers t requested c = Some (xs, c')).
  { unfold get_numbers. rewrite H1. f_equal. f_equal. rewrite <- list_fmap_compose.
    rewrite <- (list_fmap_id xs) at 2. clear -Hx. induction Hx as [|z zs Hz _ IH]; [done|].
    rewrite !fmap_cons, IH. f_equal. by apply of_bits_wrapu. }
  by destruct t.
Qed.

Lemma put_dims_wrote junk dims b : wf b → ∃ b', put_dims junk dims b = Some b' ∧ wrote (enc_dims dims) b b'.
Proof. apply put_span_wrote. lia. Qed.

Lemma get_dims_reads dims c rest :
  fits (length dims) → reads c (enc_dims dims) rest →
  ∃ c', getArray 4 (Some (length dims)) c = Some (wrapu 32 ∘ wraps 32 <$> dims, c')
        ∧ reads c' [] rest ∧ mem c' = mem c ∧ size c' = size c.
Proof.
  intros Hd Hr. unfold enc_dims in Hr.
  destruct (getArray_reads 4 (wraps 32 <$> dims) c rest (Some (length dims))) as (c' & H1 & H2);
    [lia|by rewrite length_fmap|simpl; by rewrite length_fmap|done|].
  exists c'. split; [|done]. rewrite H1. by rewrite <- list_fmap_compose.
Qed.

Lemma wrote_reads s b b' : wf b → position b = size b → wrote s b b' → reads b' s [].
Proof.
  intros Hw Hp (Hw' & Hc & Hp'). pose proof (f_equal length Hc) as Hl.
  rewrite length_content, length_app, length_content in Hl by done.
  split_and!; [done|lia|]. rewrite Hp', Hp, Hc, app_nil_r. apply drop_app_length'. by rewrite length_content.
Qed.

Lemma reads_end b : reads b [] [] → position b = size b.
Proof.
  intros (Hw & Hp & Hd). apply (f_equal length) in Hd. rewrite length_drop, length_content in Hd by done. simpl in Hd. lia.
Qed.

(** ** Round trips *)

(** A value written to a buffer whose content was read is read back, up to the
    end of the content. *)
Definition round_trip {A} (write : iobuffer → option iobuffer) (read : iobuffer → option (A * iobuffer)) (x : A)
    (b : iobuffer) : Prop :=
  ∃ b1 b2, write b = Some b1 ∧ read b1 = Some (x, b2) ∧ position b2 = size b2 ∧ wf b2 ∧ content b2 = content b1.

Lemma round_trip_intro {A} (write : iobuffer → option iobuffer) (read : iobuffer → option (A * iobuffer)) x b s :
  wf b → position b = size b →
  (∃ b', write b = Some b' ∧ wrote s b b') →
  (∀ c, reads c s [] → ∃ c', read c = Some (x, c') ∧ reads c' [] [] ∧ mem c' = mem c ∧ size c' = size c) →
  round_trip write read x b.
Proof.
  intros Hw Hp (b1 & H1 & H2) Hr. destruct (Hr b1) as (b2 & H3 & H4 & Hm & Hs); [by eapply wrote_reads|].
  exists b1, b2. split_and!; [done|done|by apply reads_end|apply H4|]. unfold content. by rewrite Hm, Hs.
Qed.

(** What follows in the content is what comes next to read. *)
Lemma reads_next c s rest : reads c [] (s ++ rest) → reads c s rest.
Proof. intros Hr. by apply (reads_app c []). Qed.

Lemma reading_trans c1 c2 c3 : reading c1 c2 → reading c2 c3 → reading c1 c3.
Proof. unfold reading. intros [] []. split; congruence. Qed.

Lemma vector_wrote junk a xs b :
  wf b → Forall (prim_ok a) xs →
  ∃ b', serialise_vector junk a xs b = Some b'
        ∧ wrote (enc_dims [Z.of_nat (length xs)] ++ enc_vector a xs) b b'.
Proof.
  intros Hw Hx. destruct (put_dims_wrote junk [Z.of_nat (length xs)] b Hw) as (b1 & H1 & H2).
  destruct (put_vector_wrote junk a xs b1) as (b2 & H3 & H4); [apply H2|done|].
  exists b2. unfold serialise_vector. rewrite H1. split; [done|]. by eapply wrote_trans.
Qed.

Lemma vector_reads a xs c rest :
  fits (length xs) → Forall (prim_ok a) xs →
  reads c (enc_dims [Z.of_nat (length xs)] ++ enc_vector a xs) rest →
  ∃ c', deserialise_vector a c = Some (xs, c') ∧ reads c' [] rest ∧ reading c c'.
Proof.
  intros Hf Hx Hr. rewrite reads_app in Hr.
  destruct (get_dims_reads [Z.of_nat (length xs)] c _ ltac:(done) Hr) as (c1 & H1 & H2 & E1).
  destruct (get_vector_reads a xs c1 rest None Hx Hf I (reads_next _ _ _ H2)) as (c2 & H3 & H4 & E2).
  exists c2. unfold deserialise_vector. change (length [Z.of_nat (length xs)]) with 1 in H1. rewrite H1.
  cbn [mbind option_bind]. split_and!; [done|done|]. by eapply reading_trans.
Qed.

Lemma multi_wrote junk a (m : MultiArray.t (carrier a)) b :
  wf b → Forall (prim_ok a) (MultiArray.elements m) →
  ∃ b', serialise_multi junk a m b = Some b'
        ∧ wrote (enc_dims (MultiArray.dimensions m) ++ enc_vector a (MultiArray.elements m)) b b'.
Proof.
  intros Hw Hx. destruct (put_dims_wrote junk (MultiArray.dimensions m) b Hw) as (b1 & H1 & H2).
  destruct (put_vector_wrote junk a (MultiArray.elements m) b1) as (b2 & H3 & H4); [apply H2|done|].
  exists b2. unfold serialise_multi. rewrite H1. split; [done|]. by eapply wrote_trans.
Qed.

Lemma multi_reads a xs dims c rest :
  Forall (in_u 32) dims → fits (length dims) → fits (length xs) → Forall (prim_ok a) xs →
  reads c (enc_dims dims ++ enc_vector a xs) rest →
  ∃ c', deserialise_multi a (length dims) c = Some (MultiArray.make xs dims, c') ∧ reads c' [] rest ∧ reading c c'.
Proof.
  intros Hd Hfd Hf Hx Hr. rewrite reads_app in Hr.
  destruct (get_dims_reads dims c _ Hfd Hr) as (c1 & H1 & H2 & E1).
  destruct (get_vector_reads a xs c1 rest None Hx Hf I (reads_next _ _ _ H2)) as (c2 & H3 & H4 & E2).
  exists c2. unfold deserialise_multi. rewrite H1. cbn [mbind option_bind].
  replace (wrapu 32 ∘ wraps 32 <$> (wrapu 32 ∘ wraps 32 <$> dims)) with dims.
  - unfold MultiArray.make. destruct (MultiArray.row_major dims) as [k ls]. rewrite H3.
    cbn [mbind option_bind]. split_and!; [done|done|]. by eapply reading_trans.
  - rewrite <- list_fmap_compose. rewrite <- (list_fmap_id dims) at 1. clear -Hd.
    induction Hd as [|z dims Hz _ IH]; [done|]. rewrite !fmap_cons, IH. f_equal. unfold compose, id.
    rewrite wraps_wrapu by lia. by rewrite !wrapu_wraps, (wrapu_id 32 z).
Qed.

(** ** Sets and maps *)

Definition enc_column (a : prim) (n : nat) (xs : list (carrier a)) : bytes :=
  le_bytes 1 (type_id a) ++ enc_size n ++ concat (enc_prim a <$> xs).

Lemma put_prims_wrote junk a xs b :
  wf b → ∃ b', put_prims junk a xs b = Some b' ∧ wrote (concat (enc_prim a <$> xs)) b b'.
Proof.
  revert b. induction xs as [|x xs IH]; intros b Hw.
  - exists b. unfold wrote. by rewrite app_nil_r.
  - destruct (put_prim_wrote junk a x b Hw) as (b1 & H1 & H2). destruct (IH b1) as (b2 & H3 & H4); [apply H2|].
    exists b2. cbn [put_prims]. rewrite H1. split; [done|]. by eapply wrote_trans.
Qed.

Lemma set_wrote junk a xs b :
  wf b → ∃ b', serialise_set junk a xs b = Some b'
               ∧ wrote (enc_dims [Z.of_nat (length xs)] ++ enc_vector a xs) b b'.
Proof.
  intros Hw. destruct (put_dims_wrote junk [Z.of_nat (length xs)] b Hw) as (b1 & H1 & H2).
  destruct (put_size_wrote junk (length xs) b1) as (b2 & H3 & H4); [apply H2|].
  destruct (put_prims_wrote junk a xs b2) as (b3 & H5 & H6); [apply H4|].
  exists b3. unfold serialise_set. rewrite H1. cbn [mbind option_bind]. rewrite H3. split; [done|].
  eapply wrote_trans; [done|]. by eapply wrote_trans.
Qed.

Lemma set_reads a (X : gset (carrier a)) xs c rest :
  xs ≡ₚ elements X → fits (length xs) → Forall (prim_ok a) xs →
  reads c (enc_dims [Z.of_nat (length xs)] ++ enc_vector a xs) rest →
  ∃ c', deserialise_set a c = Some (X, c') ∧ reads c' [] rest ∧ reading c c'.
Proof.
  intros Hp Hf Hx Hr. rewrite reads_app in Hr.
  destruct (get_dims_reads [Z.of_nat (length xs)] c _ ltac:(done) Hr) as (c1 & H1 & H2 & E1).
  destruct (get_vector_reads a xs c1 rest (Some (length xs)) Hx Hf (Nat.le_refl _) (reads_next _ _ _ H2))
    as (c2 & H3 & H4 & E2).
  exists c2. unfold deserialise_set. change (length [Z.of_nat (length xs)]) with 1 in H1. rewrite H1.
  cbn [mbind option_bind fmap list_fmap head default]. unfold compose. cbn [from_option id].
  rewrite wraps_wrapu by lia. unfold fits in Hf.
  rewrite !(wraps_id 32 (Z.of_nat (length xs))) by (unfold in_s; lia). rewrite wrapu_id by (unfold in_u; lia). rewrite Nat2Z.id, H3.
  cbn [mbind option_bind]. split_and!; [|done|by eapply reading_trans].
  do 2 f_equal. apply set_eq. intros x. rewrite elem_of_list_to_set, Hp. by rewrite elem_of_elements.
Qed.

Lemma put_column_wrote junk a n xs b :
  wf b → ∃ b', put_column junk a n xs b = Some b' ∧ wrote (enc_column a n xs) b b'.
Proof.
  intros Hw. destruct (reserve_spare_keeps junk (n * 17 + 9) b Hw) as (H0 & _).
  destruct (put_wrote junk 1 (type_id a) (reserve_spare junk (n * 17 + 9) b)) as (b1 & H1 & H2); [apply H0|].
  destruct (put_size_wrote junk n b1) as (b2 & H3 & H4); [apply H2|].
  destruct (put_prims_wrote junk a xs b2) as (b3 & H5 & H6); [apply H4|].
  exists b3. unfold put_column. rewrite H1. cbn [mbind option_bind]. rewrite H3. split; [done|].
  eapply wrote_nil_l; [done|]. eapply wrote_trans; [done|]. by eapply wrote_trans.
Qed.

Lemma type_id_range a : (0 < type_id a < 10)%Z.
Proof. destruct a as [[]|]; simpl; lia. Qed.

Lemma get_size_u n c rest :
  fits n → reads c (enc_size n) rest →
  ∃ c', get_u 4 c = Some (Z.of_nat n, c') ∧ reads c' [] rest ∧ reading c c'.
Proof.
  intros Hf Hr. destruct (get_u_reads _ _ _ _ Hr) as [H1 H2]. eexists. split; [|done]. rewrite H1. do 2 f_equal.
  unfold fits in Hf. rewrite wraps_id by (unfold in_s; lia). apply wrapu_id. unfold in_u, width. simpl. lia.
Qed.

Lemma check_column_reads a n c rest :
  fits n → reads c (le_bytes 1 (type_id a) ++ enc_size n) rest →
  ∃ c', check_column a (Z.of_nat n) c = Some (Ok (), c') ∧ reads c' [] rest ∧ reading c c'.
Proof.
  intros Hf Hr. rewrite reads_app in Hr. destruct (get_u_reads _ _ _ _ Hr) as [H1 H2].
  set (c1 := set_position (position c + 1) c) in *. apply (reads_app c1 []) in H2. simpl in H2.
  destruct (get_size_u n c1 rest Hf H2) as (c2 & H3 & H4 & Hr2).
  exists c2. unfold check_column. rewrite H1. cbn [mbind option_bind].
  pose proof (type_id_range a). rewrite wrapu_id by (unfold in_u, width; simpl; lia). rewrite Z.eqb_refl.
  cbn [negb]. rewrite H3. cbn [mbind option_bind]. by rewrite Z.eqb_refl.
Qed.

Lemma foldl_insert_from {K V} `{Countable K} (l : list (K * V)) (m : gmap K V) :
  NoDup l.*1 → foldl (λ m x, <[x.1 := x.2]> m) m l = list_to_map l ∪ m.
Proof.
  revert m. induction l as [|[k v] l IH]; intros m Hnd; cbn [foldl list_to_map].
  - symmetry. apply (left_id_L (∅ : gmap K V) (∪)).

  - apply NoDup_cons in Hnd as [Hk Hnd]. rewrite IH by done. simpl.
    rewrite <- insert_union_l, insert_union_r; [done|]. by apply not_elem_of_list_to_map_1.
Qed.

Lemma foldl_insert_map {K V} `{Countable K} (l : list (K * V)) :
  NoDup l.*1 → foldl (λ m x, <[x.1 := x.2]> m) ∅ l = (list_to_map l : gmap K V).
Proof. intros. rewrite foldl_insert_from by done. apply (right_id_L (∅ : gmap K V) (∪)). Qed.

Lemma column_reads a (xs : list (carrier a)) c rest :
  fits (length xs) → Forall (prim_ok a) xs → reads c (enc_column a (length xs) xs) rest →
  ∃ c1 c2, check_column a (Z.of_nat (length xs)) c = Some (Ok (), c1)
           ∧ get_each (get_prim a) (length xs) c1 = Some (xs, c2) ∧ reads c2 [] rest ∧ reading c c2.
Proof.
  intros Hf Hx Hr. unfold enc_column in Hr. rewrite app_assoc, reads_app in Hr.
  destruct (check_column_reads a _ _ _ Hf Hr) as (c1 & H1 & R1 & E1). apply reads_next in R1.
  destruct (get_each_reads (get_prim a) (enc_prim a) (prim_ok a) xs c1 rest (get_prim_reads a) Hx R1)
    as (c2 & H2 & R2 & E2).
  exists c1, c2. split_and!; [done..|]. unfold reading in *. destruct E1, E2. split; congruence.
Qed.

Definition enc_map (k v : prim) (entries : list (carrier k * carrier v)) : bytes :=
  enc_size (length entries) ++ enc_column k (length entries) entries.*1
  ++ enc_column v (length entries) entries.*2.

Lemma map_wrote junk k v entries b :
  wf b → ∃ b', serialise_map junk k v entries b = Some b' ∧ wrote (enc_map k v entries) b b'.
Proof.
  intros Hw. destruct (put_size_wrote junk (length entries) b Hw) as (b1 & H1 & H2).
  destruct (put_column_wrote junk k (length entries) entries.*1 b1) as (b2 & H3 & H4); [apply H2|].
  destruct (put_column_wrote junk v (length entries) entries.*2 b2) as (b3 & H5 & H6); [apply H4|].
  exists b3. unfold serialise_map. rewrite H1. cbn [mbind option_bind]. rewrite H3. split; [done|].
  eapply wrote_trans; [done|]. by eapply wrote_trans.
Qed.

Lemma map_reads k v (m : gmap (carrier k) (carrier v)) entries c rest :
  entries ≡ₚ map_to_list m → fits (length entries) → Forall (prim_ok k) entries.*1 → Forall (prim_ok v) entries.*2 →
  reads c (enc_map k v entries) rest →
  ∃ c', deserialise_map k v c = Some (Ok m, c') ∧ reads c' [] rest ∧ reading c c'.
Proof.
  intros Hp Hf Hk Hv Hr. unfold enc_map in Hr. rewrite reads_app in Hr.
  destruct (get_size_u _ _ _ Hf Hr) as (c1 & H1 & R1 & E1). apply reads_next in R1. rewrite reads_app in R1.
  assert (Hl1 : length entries.*1 = length entries) by apply length_fmap.
  assert (Hl2 : length entries.*2 = length entries) by apply length_fmap.
  rewrite <- Hl1 in R1 at 1. destruct (column_reads k entries.*1 c1 (enc_column v (length entries) entries.*2 ++ rest)) as (c2 & c3 & H2 & H3 & R3 & E3); [by rewrite Hl1|done..|].
  apply reads_next in R3. rewrite <- Hl2 in R3 at 1.
  destruct (column_reads v entries.*2 c3 rest) as (c4 & c5 & H4 & H5 & R5 & E5); [by rewrite Hl2|done..|].
  rewrite Hl1 in H2, H3. rewrite Hl2 in H4, H5.
  exists c5. unfold deserialise_map. rewrite H1. cbn [mbind option_bind]. rewrite H2. cbn [mbind option_bind].
  rewrite Nat2Z.id, H3. cbn [mbind option_bind]. rewrite H4. cbn [mbind option_bind]. rewrite H5. cbn [mbind option_bind].
  split; [|split; [done|unfold reading in *; destruct E1, E3, E5; split; congruence]]. do 3 f_equal.
  rewrite zip_fst_snd, foldl_insert_map; [|by rewrite Hp; apply NoDup_fst_map_to_list].
  rewrite (list_to_map_proper entries (map_to_list m)); [apply list_to_map_to_list| |done].
  rewrite Hp. apply NoDup_fst_map_to_list.
Qed.

(** Whatever the buffer's memory and capacity: a vector of any primitive type,
    an array of any dimensions, of which the elements and the dimensions are
    kept and the strides are those of the row-major order, a set and a map of
    any primitive types, written and then read with the same type, come back
    as they were, and the reader stops at the end of what was written; the set
    and the map come back whatever the order in which they were walked. *)
Theorem yas_roundtrip junk b a k v xs (m : MultiArray.t (carrier a)) (X : gset (carrier a)) ys
    (mp : gmap (carrier k) (carrier v)) entries :
  wf b → position b = size b →
  (fits (length xs) → Forall (prim_ok a) xs →
   round_trip (serialise_vector junk a xs) (deserialise_vector a) xs b)
  ∧ (Forall (in_u 32) (MultiArray.dimensions m) → fits (length (MultiArray.dimensions m)) →
     fits (length (MultiArray.elements m)) → Forall (prim_ok a) (MultiArray.elements m) →
     round_trip (serialise_multi junk a m) (deserialise_multi a (length (MultiArray.dimensions m)))
       (MultiArray.make (MultiArray.elements m) (MultiArray.dimensions m)) b)
  ∧ (ys ≡ₚ elements X → fits (length ys) → Forall (prim_ok a) ys →
     round_trip (serialise_set junk a ys) (deserialise_set a) X b)
  ∧ (entries ≡ₚ map_to_list mp → fits (length entries) → Forall (prim_ok k) entries.*1 →
     Forall (prim_ok v) entries.*2 →
     round_trip (serialise_map junk k v entries) (deserialise_map k v) (Ok mp) b).
Proof.
  intros Hw Hp. split_and!; intros; (eapply round_trip_intro; [done|done| |]).
  - by apply vector_wrote.
  - intros c Hr. by apply vector_reads.
  - by apply multi_wrote.
  - intros c Hr. by apply multi_reads.
  - by apply set_wrote.
  - intros c Hr. by eapply set_reads.
  - by apply map_wrote.
  - intros c Hr. by eapply map_reads.
Qed.

Lemma yas_roundtrip_witness :
  let b := new_buffer "?"%char 5 in
  let m : MultiArray.t (carrier (Number Double)) := MultiArray.make [1; 2; 3; 4]%Z [2; 2]%Z in
  let entries : list (carrier String * carrier (Number Int16)) := [(str "x", (-7)%Z); (str "y", 300%Z)] in
  round_trip (serialise_vector "?"%char (Number Double) [1; 2 ^ 63; 7]%Z) (deserialise_vector (Number Double))
    [1; 2 ^ 63; 7]%Z b
  ∧ round_trip (serialise_multi "?"%char (Number Double) m) (deserialise_multi (Number Double) 2) m b
  ∧ round_trip (serialise_set "?"%char (Number Double) [5; 3]%Z) (deserialise_set (Number Double)) {[3%Z; 5%Z]} b
  ∧ round_trip (serialise_map "?"%char String (Number Int16) entries) (deserialise_map String (Number Int16))
      (Ok (list_to_map entries)) b.
Proof.
  intros b m entries. assert (Hw : wf b) by (unfold wf, b; simpl; lia).
  destruct (yas_roundtrip "?"%char b (Number Double) String (Number Int16) [1; 2 ^ 63; 7]%Z m
              {[3%Z; 5%Z]} [5; 3]%Z (list_to_map entries) entries Hw eq_refl) as (H1 & H2 & H4 & H3).
  split_and!.
  - apply H1; [done|]. repeat constructor; unfold in_u, width; simpl; lia.
  - apply H2; [repeat constructor; unfold in_u; lia|done..|]. repeat constructor; unfold in_u, width; simpl; lia.
  - apply H4; [|done|repeat constructor; unfold in_u, width; simpl; lia].
    apply (bool_decide_unpack _). vm_compute. exact I.
  - apply H3; [|done| |].
    + symmetry. apply map_to_list_to_map. repeat constructor; set_solver.
    + by repeat constructor.
    + repeat constructor; unfold in_s, width; simpl; lia.
Defined.

(** A map column of another type, or of another length, is an error. *)
Lemma check_column_mismatch :
  let wire := [chr 3; chr 2; chr 0; chr 0; chr 0] in
  (b ← from_data (chr 0) wire; fst <$> check_column String 2 b) = Some (Throw ProtocolException)
  ∧ (b ← from_data (chr 0) wire; fst <$> check_column (Number Int16) 3 b) = Some (Throw ProtocolException)
  ∧ (b ← from_data (chr 0) wire; fst <$> check_column (Number Int16) 2 b) = Some (Ok ()).
Proof. repeat split. Qed.
