(* ===== verification/YasHeader.v ===== *)
(** * YasHeader: the headers of [serialiser/include/IoSerialiserYaS.hpp]

    The header in front of every field: type, offset of the data, size of the
    data, name and, for an annotated field, its meta information; the offset
    and the size are written when they are known.  And the header in front of
    a message.  Positions are those of the buffer, 64-bit unsigned. *)

From S2P Require Import Prelude IoBuffer Yas.
Local Open Scope nat_scope.

Inductive ProtocolCheck : Type := IGNORE | LENIENT | ALWAYS.

#[export] Instance ProtocolCheck_eq_dec : EqDecision ProtocolCheck.
Proof. solve_decision. Defined.

(** What an annotation says of a field. *)
Record meta : Type := mkmeta {
  m_unit : bytes; m_quantity : bytes; m_description : bytes; m_modifier : Z
}.

Definition RW : Z := 0.
Definition UNKNOWN : Z := 255.

Definition is_readonly (m : Z) : bool := (m mod 2 =? 1)%Z.
Definition is_deprecated (m : Z) : bool := (0 <? Z.land m 2)%Z.
Definition is_private (m : Z) : bool := (0 <? Z.land m 4)%Z.
Definition get_ext_modifier (b : Z) : Z := if (b <? 6)%Z then b else UNKNOWN.

(** [FieldDescriptionLong] *)
Record field : Type := mkfield {
  headerStart : Z; dataStartPosition : Z; dataEndPosition : Z; subfields : Z;
  fieldName : bytes; fieldMeta : meta; intDataType : Z; hierarchyDepth : Z
}.

Section header.
Context (junk : ascii).

(** [buffer.at<int32_t, false>(position) = value] *)
Definition put_at (pos : nat) (z : Z) (b : iobuffer) : option iobuffer := store pos (le_bytes 4 (wraps 32 z)) b.

Definition put_meta (m : option meta) (b : iobuffer) : option iobuffer :=
  match m with
  | None => Some b
  | Some m =>
      b1 ← put_string junk (m_unit m) b;
      b2 ← put_string junk (m_quantity m) b1;
      b3 ← put_string junk (m_description m) b2;
      put junk 1 (m_modifier m) b3
  end.

(** [FieldHeaderWriter<YaS>::put]: [sizeof] is the size of the data's type,
    [body] writes the data.  Returns where the size was written. *)
Definition put_header (sizeof : nat) (id : Z) (name : bytes) (m : option meta)
    (body : iobuffer → option iobuffer) (b : iobuffer) : option (nat * iobuffer) :=
  let b0 := reserve_spare junk (length name + 18 + sizeof) b in
  let headerStart := size b0 in
  b1 ← put junk 1 id b0;
  let dataStartOffsetPosition := size b1 in
  b2 ← put junk 4 (-1) b1;
  let dataSizePosition := size b2 in
  b3 ← put junk 4 (-1) b2;
  b4 ← put_string junk name b3;
  b5 ← put_meta m b4;
  let dataStart := size b5 in
  b6 ← put_at dataStartOffsetPosition (Z.of_nat dataStart - Z.of_nat headerStart) b5;
  b7 ← body b6;
  b8 ← put_at dataSizePosition (Z.of_nat (size b7) - Z.of_nat dataStart) b7;
  Some (dataSizePosition, b8).

Definition updateSize (posSizePositionStart posStartDataStart : nat) (b : iobuffer) : option iobuffer :=
  put_at posSizePositionStart (Z.of_nat (size b) - Z.of_nat posStartDataStart) b.

(** A string of the meta information, if the data does not start here. *)
Definition get_meta_string (dataStart : Z) (b : iobuffer) : option (bytes * iobuffer) :=
  if (Z.of_nat (position b) =? dataStart)%Z then Some ([], b) else extractStringView b.

Definition get_meta (check : ProtocolCheck) (dataStart : Z) (b : iobuffer) : option (meta * iobuffer) :=
  match check with
  | IGNORE => Some (mkmeta [] [] [] RW, b)
  | _ =>
      '(u, b1) ← get_meta_string dataStart b;
      '(q, b2) ← get_meta_string dataStart b1;
      '(d, b3) ← get_meta_string dataStart b2;
      if (Z.of_nat (position b3) =? dataStart)%Z then Some (mkmeta u q d RW, b3)
      else '(m, b4) ← get_u 1 b3; Some (mkmeta u q d (get_ext_modifier m), b4)
  end.

(** [FieldHeaderReader<YaS>::get]; [f] keeps its depth and subfields. *)
Definition get_header (check : ProtocolCheck) (f : field) (b : iobuffer) : option (field * iobuffer) :=
  let start := Z.of_nat (position b) in
  '(t, b1) ← get_u 1 b;
  '(o, b2) ← get_s 4 b1;
  '(n, b3) ← get_s 4 b2;
  '(name, b4) ← extractStringView b3;
  let dataStart := wrapu 64 (start + wrapu 64 o) in
  let dataEnd := wrapu 64 (dataStart + wrapu 64 n) in
  '(m, b5) ← get_meta check dataStart b4;
  Some (mkfield start dataStart dataEnd (subfields f) name m t (hierarchyDepth f), b5).

(** ** The header of a message *)

Definition VERSION_MAGIC_NUMBER : Z := -1.
Definition PROTOCOL_NAME : bytes := str "YaS".
Definition VERSION_MAJOR : Z := 1.

Definition putHeaderInfo (b : iobuffer) : option iobuffer :=
  let b0 := reserve_spare junk (2 * 4 + 7) b in
  b1 ← put junk 4 VERSION_MAGIC_NUMBER b0;
  b2 ← put_string junk PROTOCOL_NAME b1;
  b3 ← put junk 1 VERSION_MAJOR b2;
  b4 ← put junk 1 0 b3;
  put junk 1 0 b4.

(** What a check finds wrong: the exception it records or throws. *)
Inductive header_error : Type := WrongMagic | WrongName | WrongVersion.

#[export] Instance header_error_eq_dec : EqDecision header_error.
Proof. solve_decision. Defined.

Definition checkHeaderInfo (b : iobuffer) : option (option header_error * iobuffer) :=
  '(magic, b1) ← get_s 4 b;
  if negb (magic =? VERSION_MAGIC_NUMBER)%Z then Some (Some WrongMagic, b1)
  else
    '(name, b2) ← extractStringView b1;
    if negb (bool_decide (name = PROTOCOL_NAME)) then Some (Some WrongName, b2)
    else
      '(major, b3) ← get_s 1 b2;
      '(_, b4) ← get_s 1 b3;
      '(_, b5) ← get_s 1 b4;
      Some (if negb (major =? VERSION_MAJOR)%Z then Some WrongVersion else None, b5).
End header.

(** ** The bytes of the headers *)

Definition enc_meta (m : option meta) : bytes :=
  match m with
  | None => []
  | Some m => enc_string (m_unit m) ++ enc_string (m_quantity m) ++ enc_string (m_description m)
              ++ le_bytes 1 (m_modifier m)
  end.

Definition header_length (name : bytes) (m : option meta) : nat := 9 + length (enc_string name) + length (enc_meta m).

Definition enc_header (id : Z) (name : bytes) (m : option meta) (n : nat) : bytes :=
  le_bytes 1 id ++ le_bytes 4 (wraps 32 (Z.of_nat (header_length name m))) ++ le_bytes 4 (wraps 32 (Z.of_nat n))
  ++ enc_string name ++ enc_meta m.

Definition enc_info : bytes := le_bytes 4 (-1) ++ enc_string PROTOCOL_NAME ++ [chr 1; chr 0; chr 0].

Lemma length_enc_header id name m n : length (enc_header id name m n) = header_length name m.
Proof. unfold enc_header, header_length. rewrite !length_app, !length_le_bytes. lia. Qed.

(** Overwriting a part of the content. *)
Lemma store_inside p old new q b :
  wf b → content b = p ++ old ++ q → length old = length new →
  ∃ b', store (length p) new b = Some b' ∧ wf b' ∧ content b' = p ++ new ++ q
        ∧ position b' = position b ∧ size b' = size b.
Proof.
  intros Hw Hc Hl. pose proof (f_equal length Hc) as Hs. rewrite length_content, !length_app in Hs by done.
  unfold wf in Hw. unfold store. rewrite (proj2 (Nat.leb_le _ _)) by lia. eexists. split; [done|].
  assert (Ht : take (length p) (mem b) = p).
  { apply (f_equal (take (length p))) in Hc. unfold content in Hc.
    by rewrite take_take, take_app_length, Nat.min_l in Hc by lia. }
  assert (Hd : take (size b - (length p + length new)) (drop (length p + length new) (mem b)) = q).
  { apply (f_equal (drop (length p + length new))) in Hc. unfold content in Hc.
    rewrite app_assoc, drop_app_length' in Hc by (rewrite length_app; lia).
    rewrite <- Hc. by rewrite List.skipn_firstn_comm. }
  unfold wf, capacity, content in *. cbn [mem size position]. rewrite Ht.
  split_and!; [rewrite !length_app, length_drop; lia| |done|done].
  replace (size b) with (length p + (length new + (size b - (length p + length new)))) by lia.
  rewrite take_app_add, take_app_add. do 2 f_equal. rewrite <- Hd. f_equal.
Qed.

Lemma wrote_size s b b' : wf b → wrote s b b' → size b' = size b + length s.
Proof.
  intros Hw (Hw' & Hc & _). apply (f_equal length) in Hc.
  by rewrite length_app, !length_content in Hc.
Qed.

Lemma put_meta_wrote junk m b : wf b → ∃ b', put_meta junk m b = Some b' ∧ wrote (enc_meta m) b b'.
Proof.
  intros Hw. destruct m as [m|]; cbn [put_meta enc_meta]; [|exists b; split; [done|]; unfold wrote; by rewrite app_nil_r].
  destruct (put_string_wrote junk (m_unit m) b Hw) as (b1 & H1 & W1).
  destruct (put_string_wrote junk (m_quantity m) b1) as (b2 & H2 & W2); [apply W1|].
  destruct (put_string_wrote junk (m_description m) b2) as (b3 & H3 & W3); [apply W2|].
  destruct (put_wrote junk 1 (m_modifier m) b3) as (b4 & H4 & W4); [apply W3|].
  exists b4. rewrite H1. cbn [mbind option_bind]. rewrite H2. cbn [mbind option_bind]. rewrite H3.
  split; [exact H4|]. eapply wrote_trans; [done|]. eapply wrote_trans; [done|]. by eapply wrote_trans.
Qed.

(** [put_at] fills a placeholder of four bytes. *)
Lemma put_at_wrote p old q z pos b b' :
  wf b → wrote (p ++ old ++ q) b b' → length old = 4 → pos = size b + length p →
  ∃ b'', put_at pos z b' = Some b'' ∧ wrote (p ++ le_bytes 4 (wraps 32 z) ++ q) b b'' ∧ size b'' = size b'.
Proof.
  intros Hw (Hw' & Hc & Hp) Ho ->. unfold put_at. rewrite app_assoc in Hc.
  destruct (store_inside (content b ++ p) old (le_bytes 4 (wraps 32 z)) q b' Hw' Hc) as (b'' & H1 & H2 & H3 & H4 & H5);
    [by rewrite length_le_bytes|].
  rewrite length_app, length_content in H1 by done. exists b''. split; [done|]. split; [|done].
  split; [done|]. split; [|congruence]. by rewrite H3, <- app_assoc.
Qed.

Lemma put_header_wrote junk sizeof id name m body s b :
  wf b → (∀ c, wf c → ∃ c', body c = Some c' ∧ wrote s c c') →
  ∃ b', put_header junk sizeof id name m body b = Some (size b + 5, b')
        ∧ wrote (enc_header id name m (length s) ++ s) b b'.
Proof.
  intros Hw Hbody. unfold put_header.
  destruct (reserve_spare_keeps junk (length name + 18 + sizeof) b Hw) as (W0 & S0 & _). rewrite S0.
  set (b0 := reserve_spare _ _ _) in *. assert (Hw0 : wf b0) by apply W0.
  destruct (put_wrote junk 1 id b0 Hw0) as (b1 & H1 & W1).
  destruct (put_wrote junk 4 (-1) b1) as (b2 & H2 & W2); [apply W1|].
  destruct (put_wrote junk 4 (-1) b2) as (b3 & H3 & W3); [apply W2|].
  destruct (put_string_wrote junk name b3) as (b4 & H4 & W4); [apply W3|].
  destruct (put_meta_wrote junk m b4) as (b5 & H5 & W5); [apply W4|].
  rewrite H1. cbn [mbind option_bind]. rewrite H2. cbn [mbind option_bind]. rewrite H3. cbn [mbind option_bind].
  rewrite H4. cbn [mbind option_bind]. rewrite H5. cbn [mbind option_bind].
  pose proof (wrote_size _ _ _ Hw0 W1) as S1. pose proof (wrote_trans _ _ _ _ _ W1 W2) as W12.
  pose proof (wrote_size _ _ _ Hw0 W12) as S2. pose proof (wrote_trans _ _ _ _ _ W12 (wrote_trans _ _ _ _ _ W3 (wrote_trans _ _ _ _ _ W4 W5))) as W15.
  rewrite <- app_assoc in W15. rewrite length_app in S2. rewrite !length_le_bytes in *.
  pose proof (wrote_size _ _ _ Hw0 W15) as S5.
  destruct (put_at_wrote (le_bytes 1 id) (le_bytes 4 (-1)) _ (Z.of_nat (size b5) - Z.of_nat (size b)) (size b1) b0 b5 Hw0 W15)
    as (b6 & H6 & W6 & S6); [done|by rewrite S1, length_le_bytes|].
  rewrite H6. cbn [mbind option_bind]. destruct (Hbody b6) as (b7 & H7 & W7); [apply W6|].
  rewrite H7. cbn [mbind option_bind]. pose proof (wrote_trans _ _ _ _ _ W6 W7) as W17.
  rewrite <- !app_assoc in W17. rewrite app_assoc in W17.
  pose proof (wrote_size _ _ _ ltac:(apply W6) W7) as S7.
  destruct (put_at_wrote _ (le_bytes 4 (-1)) _ (Z.of_nat (size b7) - Z.of_nat (size b5)) (size b2) b0 b7 Hw0 W17)
    as (b8 & H8 & W8 & _); [done|rewrite S2, length_app, !length_le_bytes; lia|].
  rewrite H8. cbn [mbind option_bind]. exists b8. rewrite S2, S0. split; [done|].
  eapply wrote_nil_l; [exact W0|]. unfold enc_header. rewrite <- !app_assoc in *.
  replace (Z.of_nat (size b5) - Z.of_nat (size b))%Z with (Z.of_nat (header_length name m)) in W8
    by (rewrite S5, !length_app, !length_le_bytes, S0; unfold header_length; lia).
  replace (Z.of_nat (size b7) - Z.of_nat (size b5))%Z with (Z.of_nat (length s)) in W8 by lia. exact W8.
Qed.

(** ** Reading headers *)

Definition no_meta : meta := mkmeta [] [] [] RW.

(** The meta information a reader has of a field that was written with [m]. *)
Definition meta_read (check : ProtocolCheck) (m : option meta) : meta :=
  match check, m with
  | IGNORE, _ | _, None => no_meta
  | _, Some m => mkmeta (m_unit m) (m_quantity m) (m_description m) (get_ext_modifier (m_modifier m))
  end.

Definition meta_ok (m : option meta) : Prop :=
  match m with
  | None => True
  | Some m => fits (length (m_unit m) + 1) ∧ fits (length (m_quantity m) + 1)
              ∧ fits (length (m_description m) + 1) ∧ in_u 8 (m_modifier m)
  end.

Lemma reading_position c c' p : reading c c' → set_position p c' = set_position p c.
Proof. unfold set_position. by intros [-> ->]. Qed.

Lemma get_int_reads z c s rest :
  in_s 32 z → reads c (le_bytes 4 (wraps 32 z) ++ s) rest →
  ∃ c', get_s 4 c = Some (z, c') ∧ reads c' s rest ∧ reading c c' ∧ position c' = position c + 4.
Proof.
  intros Hz Hr. rewrite wraps_id in Hr by (lia || done). rewrite reads_app in Hr.
  destruct (get_s_reads 4 z c _ ltac:(lia) Hz Hr) as [H1 H2]. apply reads_next in H2.
  exists (set_position (position c + 4) c). by split_and!.
Qed.

Lemma string_reads s c t rest :
  fits (length s + 1) → reads c (enc_string s ++ t) rest →
  ∃ c', extractStringView c = Some (s, c') ∧ reads c' t rest ∧ reading c c'
        ∧ position c' = position c + length (enc_string s).
Proof.
  intros Hf Hr. pose proof Hr as Hr0. rewrite reads_app in Hr.
  destruct (extractStringView_reads s c _ Hf Hr) as (c' & H1 & H2 & H3).
  exists c'. split; [done|]. split; [by apply reads_next|]. split; [exact H3|].
  destruct Hr0 as (_ & _ & E0), H2 as (Hw' & Hp' & E'). apply (f_equal length) in E0, E'.
  unfold content in *. destruct H3 as [Hm Hs]. rewrite Hm, Hs in *.
  rewrite length_drop, !length_app in E0. rewrite length_drop, length_app in E'.
  unfold wf, capacity in Hw'. rewrite Hm in Hw'. rewrite length_take in E0, E'. simpl in E'.
  rewrite length_app in E'. assert (0 < length (enc_string s)) by (unfold enc_string; rewrite length_app, length_enc_size; lia).
  rewrite Hs in Hw'. lia.
Qed.

Lemma length_enc_string s : length (enc_string s) = 5 + length s.
Proof. unfold enc_string. rewrite !length_app, length_enc_size. simpl. lia. Qed.

(** A string that is there although the data does not start yet. *)
Lemma meta_string_reads s c t rest dataStart :
  fits (length s + 1) → (dataStart ≠ Z.of_nat (position c))%Z → reads c (enc_string s ++ t) rest →
  ∃ c', get_meta_string dataStart c = Some (s, c') ∧ reads c' t rest ∧ reading c c'
        ∧ position c' = position c + length (enc_string s).
Proof.
  intros Hf Hd Hr. unfold get_meta_string. rewrite (proj2 (Z.eqb_neq _ _)) by done. by apply string_reads.
Qed.

Lemma get_meta_reads check m c rest :
  meta_ok m → reads c (enc_meta m) rest →
  ∃ c', get_meta check (Z.of_nat (position c + length (enc_meta m))) c = Some (meta_read check m, c') ∧ reading c c'.
Proof.
  intros Hm Hr. destruct (decide (check = IGNORE)) as [->|Hc]; [by exists c|].
  destruct m as [m|]; cbn [enc_meta] in *.
  - destruct Hm as (F1 & F2 & F3 & F4).
    set (d := Z.of_nat (position c + _)).
    assert (Hd : d = Z.of_nat (position c + length (enc_string (m_unit m)) + length (enc_string (m_quantity m))
                               + length (enc_string (m_description m)) + 1)).
    { unfold d. rewrite !length_app, length_le_bytes. lia. }
    pose proof (length_enc_string (m_unit m)) as L1. pose proof (length_enc_string (m_quantity m)) as L2.
    pose proof (length_enc_string (m_description m)) as L3.
    destruct (meta_string_reads (m_unit m) c _ rest d F1 ltac:(lia) Hr) as (c1 & H1 & R1 & E1 & P1).
    destruct (meta_string_reads (m_quantity m) c1 _ rest d F2 ltac:(lia) R1) as (c2 & H2 & R2 & E2 & P2).
    destruct (meta_string_reads (m_description m) c2 _ rest d F3 ltac:(lia) R2) as (c3 & H3 & R3 & E3 & P3).
    destruct (get_u_reads _ _ _ _ R3) as [H4 _]. rewrite wrapu_id in H4 by done.
    exists (set_position (position c3 + 1) c3). split.
    + destruct check; [done| |]; unfold get_meta; rewrite H1; cbn [mbind option_bind]; rewrite H2;
        cbn [mbind option_bind]; rewrite H3; cbn [mbind option_bind];
        rewrite (proj2 (Z.eqb_neq _ _)) by lia; by rewrite H4.
    + eapply reading_trans; [done|]. by eapply reading_trans.
  - rewrite Nat.add_0_r. exists c. split; [|done].
    assert (Hs : get_meta_string (Z.of_nat (position c)) c = Some ([], c)) by (unfold get_meta_string; by rewrite Z.eqb_refl).
    destruct check; [done| |]; unfold get_meta; rewrite Hs; cbn [mbind option_bind]; rewrite Hs;
      cbn [mbind option_bind]; rewrite Hs; cbn [mbind option_bind]; by rewrite Z.eqb_refl.
Qed.

Lemma get_header_reads check f id name m n c rest :
  in_u 8 id → fits (length name + 1) → meta_ok m → fits (size c) → fits n →
  reads c (enc_header id name m n) rest →
  let start := Z.of_nat (position c) in
  let dataStart := Z.of_nat (position c + header_length name m) in
  ∃ c', get_header check f c
        = Some (mkfield start dataStart (dataStart + Z.of_nat n) (subfields f) name (meta_read check m) id
                  (hierarchyDepth f), c')
        ∧ reading c c' ∧ reads (set_position (position c + header_length name m) c) [] rest.
Proof.
  intros Hid Hn Hm Hs Hz Hr start dataStart. pose proof (reads_length _ _ _ Hr) as Hl. pose proof (reads_advance _ _ _ Hr) as Ha.
  rewrite length_enc_header in Hl, Ha. unfold fits in *. unfold enc_header in Hr. pose proof Hr as Hr0. rewrite reads_app in Hr.
  destruct (get_u_reads _ _ _ _ Hr) as [H1 R1]. apply reads_next in R1. rewrite wrapu_id in H1 by done.
  set (c1 := set_position (position c + 1) c) in *. assert (P1 : position c1 = position c + 1) by done.
  destruct (get_int_reads (Z.of_nat (header_length name m)) c1
    (le_bytes 4 (wraps 32 (Z.of_nat n)) ++ enc_string name ++ enc_meta m) rest) as (c2 & H2 & R2 & E2 & P2);
    [unfold in_s; lia|done|].
  destruct (get_int_reads (Z.of_nat n) c2 (enc_string name ++ enc_meta m) rest) as (c3 & H3 & R3 & E3 & P3); [unfold in_s; lia|done|].
  destruct (string_reads name c3 _ rest Hn R3) as (c4 & H4 & R4 & E4 & P4).
  destruct (get_meta_reads check m c4 rest Hm R4) as (c5 & H5 & E5).
  exists c5. split; [|split; [|exact Ha]].
  - unfold get_header. rewrite H1. cbn [mbind option_bind]. rewrite H2. cbn [mbind option_bind]. rewrite H3.
    cbn [mbind option_bind]. rewrite H4. cbn [mbind option_bind].
    assert (Hds : wrapu 64 (Z.of_nat (position c) + wrapu 64 (Z.of_nat (header_length name m))) = dataStart).
    { rewrite (wrapu_id 64 (Z.of_nat _)) by (unfold in_u; lia). rewrite wrapu_id by (unfold in_u; lia).
      unfold dataStart. lia. }
    rewrite Hds. replace (Z.of_nat (position c4 + length (enc_meta m))) with dataStart in H5
      by (unfold dataStart, header_length in *; lia).
    rewrite H5. cbn [mbind option_bind]. do 3 f_equal.
    rewrite (wrapu_id 64 (Z.of_nat n)) by (unfold in_u; lia). apply wrapu_id. unfold in_u, dataStart. lia.
  - eapply reading_trans; [|exact E5]. eapply reading_trans; [|exact E4]. eapply reading_trans; [|exact E3]. exact E2.
Qed.

Lemma putHeaderInfo_wrote junk b : wf b → ∃ b', putHeaderInfo junk b = Some b' ∧ wrote enc_info b b'.
Proof.
  intros Hw. unfold putHeaderInfo. destruct (reserve_spare_keeps junk (2 * 4 + 7) b Hw) as (W0 & _).
  set (b0 := reserve_spare _ _ _) in *.
  destruct (put_wrote junk 4 VERSION_MAGIC_NUMBER b0) as (b1 & H1 & W1); [apply W0|].
  destruct (put_string_wrote junk PROTOCOL_NAME b1) as (b2 & H2 & W2); [apply W1|].
  destruct (put_wrote junk 1 VERSION_MAJOR b2) as (b3 & H3 & W3); [apply W2|].
  destruct (put_wrote junk 1 0 b3) as (b4 & H4 & W4); [apply W3|].
  destruct (put_wrote junk 1 0 b4) as (b5 & H5 & W5); [apply W4|].
  rewrite H1. cbn [mbind option_bind]. rewrite H2. cbn [mbind option_bind]. rewrite H3. cbn [mbind option_bind].
  rewrite H4. exists b5. split; [exact H5|]. eapply wrote_nil_l; [exact W0|].
  change enc_info with (le_bytes 4 VERSION_MAGIC_NUMBER ++ enc_string PROTOCOL_NAME
                        ++ le_bytes 1 VERSION_MAJOR ++ le_bytes 1 0 ++ le_bytes 1 0).
  eapply wrote_trans; [done|]. eapply wrote_trans; [done|]. eapply wrote_trans; [done|]. by eapply wrote_trans.
Qed.

Lemma get_byte_reads z c s rest :
  in_s 8 z → reads c (le_bytes 1 z ++ s) rest → ∃ c', get_s 1 c = Some (z, c') ∧ reads c' s rest ∧ reading c c'.
Proof.
  intros Hz Hr. rewrite reads_app in Hr. destruct (get_s_reads 1 z c _ ltac:(lia) Hz Hr) as [H1 H2].
  exists (set_position (position c + 1) c). split; [done|]. split; [by apply reads_next|done].
Qed.

Lemma checkHeaderInfo_reads c rest :
  reads c enc_info rest → ∃ c', checkHeaderInfo c = Some (None, c') ∧ reads c' [] rest ∧ reading c c'.
Proof.
  intros Hr.
  change enc_info with (le_bytes 4 (wraps 32 VERSION_MAGIC_NUMBER) ++ enc_string PROTOCOL_NAME
                        ++ le_bytes 1 VERSION_MAJOR ++ le_bytes 1 0 ++ le_bytes 1 0 ++ []) in Hr.
  destruct (get_int_reads VERSION_MAGIC_NUMBER c _ rest ltac:(done) Hr) as (c1 & H1 & R1 & E1 & _).
  destruct (string_reads PROTOCOL_NAME c1 _ rest ltac:(done) R1) as (c2 & H2 & R2 & E2 & _).
  destruct (get_byte_reads VERSION_MAJOR c2 _ rest ltac:(done) R2) as (c3 & H3 & R3 & E3).
  destruct (get_byte_reads 0 c3 _ rest ltac:(done) R3) as (c4 & H4 & R4 & E4).
  destruct (get_byte_reads 0 c4 _ rest ltac:(done) R4) as (c5 & H5 & R5 & E5).
  exists c5. unfold checkHeaderInfo. rewrite H1. cbn [mbind option_bind]. rewrite Z.eqb_refl. cbn [negb].
  rewrite H2. cbn [mbind option_bind]. rewrite bool_decide_true by done. cbn [negb].
  rewrite H3. cbn [mbind option_bind]. rewrite H4. cbn [mbind option_bind]. rewrite H5. cbn [mbind option_bind].
  rewrite Z.eqb_refl. split; [done|]. split; [done|].
  do 4 (eapply reading_trans; [eassumption|]). exact E5.
Qed.
