(* ===== verification/Serialiser.v ===== *)
(** * Serialiser: [serialiser/include/IoSerialiser.hpp] with the YaS protocol

    Writing an object, member by member, and reading into an object whose
    class may have other members: unknown fields, other types and other
    annotations are skipped and reported.  An object is modelled together with
    the description of its class that reflection provides.  Out of the model:
    members that are constant, [std::array] members, and the state the caller
    sees of an object whose reading ended with an exception. *)

From S2P Require Import Prelude IoBuffer Yas YasHeader.
From S2P Require MultiArray.
Local Open Scope nat_scope.

(** ** Objects *)

(** The types of members that are not classes. *)
Inductive leaf : Type :=
  | Prim (a : prim)
  | Vec (a : prim)
  | Multi (a : prim) (n_dims : nat)
  | SetOf (a : prim)
  | MapOf (k v : prim).

#[export] Instance prim_eq_dec : EqDecision prim.
Proof. solve_decision. Defined.
#[export] Instance leaf_eq_dec : EqDecision leaf.
Proof. solve_decision. Defined.

Definition leaf_carrier (l : leaf) : Type :=
  match l with
  | Prim a => carrier a
  | Vec a => list (carrier a)
  | Multi a _ => MultiArray.t (carrier a)
  | SetOf a => gset (carrier a)
  | MapOf k v => gmap (carrier k) (carrier v)
  end.

(** [IoSerialiser<YaS, T>::getDataTypeId()] *)
Definition leaf_id (l : leaf) : Z :=
  match l with
  | Prim a => type_id a
  | Vec a | Multi a _ | SetOf a => ARRAY_TYPE_OFFSET + type_id a
  | MapOf _ _ => MAP_ID
  end.

(** A member: its name, its annotation, whether it is a smart pointer, and
    whether that is null; the value of a null pointer is the one that is
    created when it is read. *)
Record member (C : Type) : Type := mkmember {
  f_name : bytes; f_annotation : option meta; f_pointer : bool; f_null : bool; f_value : C
}.
Arguments mkmember {C}.
Arguments f_name {C}.
Arguments f_annotation {C}.
Arguments f_pointer {C}.
Arguments f_null {C}.
Arguments f_value {C}.

#[warnings="-register-all"]
Inductive content : Type :=
  | Leaf (l : leaf) (x : leaf_carrier l)
  | Object (name : bytes) (members : list (member content)).

(** The induction principle that goes through the members. *)
Section content_ind.
Context (P : content → Prop).
Context (P_leaf : ∀ l x, P (Leaf l x)).
Context (P_object : ∀ n ms, Forall (λ m, P (f_value m)) ms → P (Object n ms)).

Definition content_nested_ind : ∀ c, P c :=
  fix go (c : content) : P c :=
    match c with
    | Leaf l x => P_leaf l x
    | Object n ms =>
        P_object n ms
          ((fix all (ms : list (member content)) : Forall (λ m, P (f_value m)) ms :=
              match ms with
              | [] => @List.Forall_nil _ _
              | m :: ms' => @List.Forall_cons _ _ m ms' (go (f_value m)) (all ms')
              end) ms)
    end.
End content_ind.

(** ** Leaves *)

(** The orders in which sets and maps are walked. *)
Record walks : Type := mkwalks {
  walk_set : ∀ a, gset (carrier a) → list (carrier a);
  walk_map : ∀ k v, gmap (carrier k) (carrier v) → list (carrier k * carrier v)
}.

Class Walks (w : walks) : Prop := {
  walk_set_perm a X : walk_set w a X ≡ₚ elements X;
  walk_map_perm k v m : walk_map w k v m ≡ₚ map_to_list m
}.

Section serialise.
Context (junk : ascii) (w : walks).
(** [sizeof] of the types, and [writeMetaInfo]. *)
Context (sizeof : leaf → nat) (writeMetaInfo : bool).

Definition put_leaf (l : leaf) : leaf_carrier l → iobuffer → option iobuffer :=
  match l with
  | Prim a => put_prim junk a
  | Vec a => serialise_vector junk a
  | Multi a _ => serialise_multi junk a
  | SetOf a => λ X, serialise_set junk a (walk_set w a X)
  | MapOf k v => λ m, serialise_map junk k v (walk_map w k v m)
  end.

(** [sanitizeFieldName] *)
Definition sanitize (name : bytes) : bytes :=
  if (2 <? length name) && starts_with name (str "x_") then drop 2 name else name.

(** ** Writing *)

Fixpoint each {A B} (f : A → B → option B) (xs : list A) (b : B) : option B :=
  match xs with
  | [] => Some b
  | x :: xs' => b' ← f x b; each f xs' b'
  end.

(** A nested object, between its markers. *)
Definition put_marked (name : bytes) (body : iobuffer → option iobuffer) (b : iobuffer) : option iobuffer :=
  '(posSizePositionStart, b1) ← put_header junk 1 START_MARKER_ID name None Some b;
  let posStartDataStart := size b1 in
  b2 ← body b1;
  '(_, b3) ← put_header junk 1 END_MARKER_ID name None Some b2;
  updateSize posSizePositionStart posStartDataStart b3.

(** The meta information is written if the member's own type is annotated; a
    pointer to an annotated type is not. *)
Definition written_meta {C} (m : member C) : option meta :=
  if writeMetaInfo && negb (f_pointer m) then f_annotation m else None.

(** [detail::serialise] for one member. *)
Fixpoint put_content (m : member content) (c : content) (b : iobuffer) : option iobuffer :=
  if f_pointer m && f_null m then Some b
  else
    match c with
    | Leaf l x =>
        '(_, b') ← put_header junk (sizeof l) (leaf_id l) (sanitize (f_name m)) (written_meta m) (put_leaf l x) b;
        Some b'
    | Object _ ms => put_marked (sanitize (f_name m)) (each (λ m', put_content m' (f_value m')) ms) b
    end.

Definition put_member (m : member content) : iobuffer → option iobuffer := put_content m (f_value m).

(** [serialise] *)
Definition serialise (name : bytes) (ms : list (member content)) (b : iobuffer) : option iobuffer :=
  b1 ← putHeaderInfo junk b; put_marked (sanitize name) (each put_member ms) b1.
End serialise.

(** ** Reading *)

(** What is reported. *)
Inductive deser_error : Type :=
  | HeaderError (e : header_error)
  | UnexpectedClass (name : bytes)
  | MissingField (parent name : bytes)
  | MismatchedType (name : bytes)
  | DeprecatedAccess (name : bytes)
  | PrivateAccess (name : bytes)
  | MismatchedUnit (name : bytes)
  | MismatchedQuantity (name : bytes)
  | ReadOnlyField (name : bytes)
  | NotConsumed (name : bytes)
  | NotAllRead
  | EmptyName
  | NoColon
  | UnexpectedChar (c : ascii).

#[export] Instance deser_error_eq_dec : EqDecision deser_error.
Proof. solve_decision. Defined.

Record info : Type := mkinfo {
  setFields : gmap bytes (list bool);
  additionalFields : list (bytes * Z);
  exceptions : list deser_error
}.

Definition no_info : info := mkinfo ∅ [] [].

(** How reading ends: [Thrown] with a [ProtocolException]; [Undefined] by
    reading or writing outside of memory; [OutOfFuel] is the model's own. *)
Inductive outcome (A : Type) : Type := Done (a : A) | Thrown | Undefined | OutOfFuel.
Arguments Done {A}.
Arguments Thrown {A}.
Arguments Undefined {A}.
Arguments OutOfFuel {A}.

#[export] Instance outcome_bind : MBind outcome :=
  λ A B f m, match m with Done a => f a | Thrown => Thrown | Undefined => Undefined | OutOfFuel => OutOfFuel end.

(** Reading the buffer inside its memory. *)
Definition defined {A} (o : option A) : outcome A := match o with Some a => Done a | None => Undefined end.

Definition get_leaf (l : leaf) : iobuffer → option (result (leaf_carrier l) * iobuffer) :=
  match l with
  | Prim a => λ b, '(x, b') ← get_prim a b; Some (Ok x, b')
  | Vec a => λ b, '(x, b') ← deserialise_vector a b; Some (Ok x, b')
  | Multi a n => λ b, '(x, b') ← deserialise_multi a n b; Some (Ok x, b')
  | SetOf a => λ b, '(x, b') ← deserialise_set a b; Some (Ok x, b')
  | MapOf k v => deserialise_map k v
  end.

(** [findMemberIndex] *)
Definition findMemberIndex {C} (name : bytes) (ms : list (member C)) : option nat :=
  fst <$> list_find (λ m, sanitize (f_name m) = name) ms.

Section deserialise.
Context (check : ProtocolCheck).

Definition handleDeserialisationError (e : deser_error) (i : info) : outcome info :=
  match check with
  | ALWAYS => Thrown
  | _ => Done (mkinfo (setFields i) (additionalFields i) (exceptions i ++ [e]))
  end.

(** Reported unless the check is [IGNORE]. *)
Definition report (e : deser_error) (i : info) : outcome info :=
  match check with IGNORE => Done i | _ => handleDeserialisationError e i end.

Definition report_if (p : bool) (e : deser_error) (i : info) : outcome info := if p then report e i else Done i.

Definition moveToFieldEndBufferPosition (f : field) (b : iobuffer) : iobuffer :=
  if (dataEndPosition f =? 2 ^ 64 - 1)%Z then b else set_position (Z.to_nat (dataEndPosition f)) b.

(** The bits of a class start unset. *)
Definition init_fields (parent : bytes) (n : nat) (i : info) : info :=
  match check with
  | IGNORE => i
  | _ => let bits := match setFields i !! parent with
                     | Some old => replicate (length old) false
                     | None => replicate n false
                     end in
         mkinfo (<[parent := bits]> (setFields i)) (additionalFields i) (exceptions i)
  end.

(** [info.setFields[parent][idx] = true]: undefined outside the vector. *)
Definition set_field (parent : bytes) (idx : nat) (i : info) : outcome info :=
  match check with
  | IGNORE => Done i
  | _ => let bits := default [] (setFields i !! parent) in
         if idx <? length bits
         then Done (mkinfo (<[parent := <[idx := true]> bits]> (setFields i)) (additionalFields i) (exceptions i))
         else Undefined
  end.

Definition add_field (parent name : bytes) (t : Z) (i : info) : info :=
  match check with
  | IGNORE => i
  | _ => mkinfo (setFields i) (additionalFields i ++ [(parent ++ str "::" ++ name, t)]) (exceptions i)
  end.

(** What an annotated member demands of the field: the exceptions recorded,
    and whether the field may be read. *)
Definition check_annotation (a : option meta) (name : bytes) (got : meta) (i : info) : outcome (bool * info) :=
  match a with
  | None => Done (true, i)
  | Some a =>
      if bool_decide (check = IGNORE) then Done (true, i)
      else
        i1 ← report_if (is_deprecated (m_modifier a)) (DeprecatedAccess name) i;
        i2 ← report_if (is_private (m_modifier a)) (PrivateAccess name) i1;
        if negb (bool_decide (m_unit a = m_unit got)) then
          i3 ← handleDeserialisationError (MismatchedUnit name) i2; Done (false, i3)
        else if negb (bool_decide (m_quantity a = m_quantity got)) then
          i3 ← handleDeserialisationError (MismatchedQuantity name) i2; Done (false, i3)
        else if is_readonly (m_modifier a) then
          i3 ← handleDeserialisationError (ReadOnlyField name) i2; Done (false, i3)
        else Done (true, i2)
  end.

Definition set_value (c : content) (m : member content) : member content :=
  mkmember (f_name m) (f_annotation m) (f_pointer m) false c.

(** The first [for_each] on a member that is not a class. *)
Definition read_leaf (parent : bytes) (idx : nat) (m : member content) (l : leaf) (f : field) (i : info) (b : iobuffer)
    : outcome (member content * info * iobuffer) :=
  if negb (leaf_id l =? intDataType f)%Z && negb (leaf_id l =? OTHER_ID)%Z then
    let b' := moveToFieldEndBufferPosition f b in
    i' ← report (MismatchedType (f_name m)) i; Done (m, i', b')
  else
    '(readable, i1) ← check_annotation (f_annotation m) (f_name m) (fieldMeta f) i;
    if readable : bool then
      '(r, b1) ← defined (get_leaf l b);
      match r with
      | Throw _ => Thrown
      | Ok x => i2 ← set_field parent idx i1; Done (set_value (Leaf l x) m, i2, b1)
      end
    else Done (m, i1, moveToFieldEndBufferPosition f b).

Definition with_type (t : Z) (f : field) : field :=
  mkfield (headerStart f) (dataStartPosition f) (dataEndPosition f) (subfields f) (fieldName f) (fieldMeta f) t
    (hierarchyDepth f).
Definition with_depth (d : Z) (f : field) : field :=
  mkfield (headerStart f) (dataStartPosition f) (dataEndPosition f) (subfields f) (fieldName f) (fieldMeta f)
    (intDataType f) (wrapu 8 d).
Definition with_name (n : bytes) (f : field) : field :=
  mkfield (headerStart f) (dataStartPosition f) (dataEndPosition f) (subfields f) n (fieldMeta f) (intDataType f)
    (hierarchyDepth f).
Definition with_subfields (n : Z) (f : field) : field :=
  mkfield (headerStart f) (dataStartPosition f) (dataEndPosition f) n (fieldName f) (fieldMeta f) (intDataType f)
    (hierarchyDepth f).

(** The end of a field: what was not consumed is skipped. *)
Definition finish_field (f : field) (i : info) (b : iobuffer) : outcome (info * iobuffer) :=
  if negb (dataEndPosition f =? 2 ^ 64 - 1)%Z && negb (dataEndPosition f =? Z.of_nat (position b))%Z then
    i' ← report (NotConsumed (fieldName f)) i; Done (i', moveToFieldEndBufferPosition f b)
  else Done (i, b).

(** The members read so far, the information and the buffer. *)
Definition state : Type := list (member content) * info * iobuffer.

(** The beginning of [detail::deserialise]: the object's own header, then the
    loop over its fields. *)
Definition enter (loop : field → state → outcome state) (name : bytes) (parent : field) (s : state) : outcome state :=
  let '(ms, i, b) := s in
  let i0 := init_fields (fieldName parent) (length ms) i in
  let f0 := mkfield 0 0 0 (-1) [] no_meta 0 (hierarchyDepth parent) in
  '(f, b1) ← defined (get_header check f0 b);
  i1 ← report_if ((hierarchyDepth f =? 0)%Z && negb (bool_decide (fieldName f = name))
                  && negb (bool_decide (fieldName f = []))) (UnexpectedClass (fieldName f)) i0;
  loop f (ms, i1, set_position (Z.to_nat (dataStartPosition f)) b1).

(** A field that belongs to member [idx]; [rec] reads a nested object. *)
Definition read_member (rec : bytes → field → state → outcome state) (parent : bytes) (prev : Z) (idx : nat)
    (m : member content) (f : field) (i : info) (b : iobuffer) : outcome (member content * info * iobuffer * field) :=
  match f_value m with
  | Leaf l _ =>
      '(m', i', b') ← read_leaf parent idx m l f i b;
      Done (m', i', b', f)
  | Object n ms' =>
      let f1 := with_depth (hierarchyDepth f + 1) (with_name (sanitize (f_name m)) (with_type START_MARKER_ID f)) in
      '(ms'', i', b') ← rec n f1 (ms', i, set_position (Z.to_nat (headerStart f)) b);
      i2 ← set_field parent idx i';
      Done (set_value (Object n ms'') m, i2, b', with_subfields (prev - 1) (with_depth (hierarchyDepth f1 - 1) f1))
  end.

(** The loop of [detail::deserialise]; every turn reads one field. *)
Fixpoint loop (fuel : nat) (parent : bytes) (f : field) (s : state) : outcome state :=
  match fuel with
  | O => OutOfFuel
  | S fuel' =>
      let '(ms, i, b) := s in
      if position b <? size b then
        let previousSubFields := subfields f in
        '(f1, b1) ← defined (get_header check f b);
        let b2 := set_position (Z.to_nat (dataStartPosition f1)) b1 in
        if (intDataType f1 =? END_MARKER_ID)%Z then Done (ms, i, b2)
        else
          match findMemberIndex (fieldName f1) ms with
          | None =>
              i1 ← report (MissingField parent (fieldName f1)) i;
              loop fuel' parent f1
                (ms, add_field parent (fieldName f1) (intDataType f1) i1, moveToFieldEndBufferPosition f1 b2)
          | Some idx =>
              m ← defined (ms !! idx);
              '(m', i1, b3, f2) ← read_member (λ n fp, enter (loop fuel' (fieldName fp)) n fp) parent
                                    previousSubFields idx m f1 i b2;
              '(i2, b4) ← finish_field f2 i1 b3;
              loop fuel' parent f2 (<[idx := m']> ms, i2, b4)
          end
      else if (hierarchyDepth f =? 0)%Z && negb (position b =? size b) then
        i' ← report NotAllRead i; Done (ms, i', b)
      else Done s
  end.

Definition ROOT_NAME : bytes := str "root".

(** [deserialise] into the object of class [name] with members [ms]. *)
Definition deserialise (fuel : nat) (name : bytes) (ms : list (member content)) (i : info) (b : iobuffer)
    : outcome state :=
  '(e, b1) ← defined (checkHeaderInfo b);
  i1 ← match e with Some e => report (HeaderError e) i | None => Done i end;
  if bool_decide (check = LENIENT) && negb (bool_decide (exceptions i1 = [])) then Done (ms, i1, b1)
  else
    let root := mkfield (Z.of_nat (size b1)) (Z.of_nat (size b1)) (Z.of_nat (size b1)) (-1) ROOT_NAME no_meta
                  255 0 in
    enter (loop fuel ROOT_NAME) name root (ms, i1, b1).
End deserialise.

(** ** Computations with an outcome *)

Lemma outcome_bind_Done {A B} (m : outcome A) (f : A → outcome B) y :
  m ≫= f = Done y ↔ ∃ x, m = Done x ∧ f x = Done y.
Proof. split; [|by intros (x & -> & ?)]. destruct m as [x| | |]; [by exists x|done..]. Qed.

Lemma defined_Done {A} (o : option A) x : defined o = Done x ↔ o = Some x.
Proof. destruct o; simpl; split; intros [= <-]; done. Qed.

(** A computation that has enough fuel. *)
Definition ends {A} (m : outcome A) : Prop := m ≠ OutOfFuel.

Create HintDb ends.

Lemma ends_bind {A B} (m : outcome A) (f : A → outcome B) :
  ends m → (∀ x, m = Done x → ends (f x)) → ends (m ≫= f).
Proof. unfold ends. destruct m; simpl; auto. Qed.

Lemma ends_done {A} (x : A) : ends (Done x). Proof. done. Qed.
Lemma ends_thrown {A} : ends (@Thrown A). Proof. done. Qed.
Lemma ends_undefined {A} : ends (@Undefined A). Proof. done. Qed.
Lemma ends_defined {A} (o : option A) : ends (defined o). Proof. by destruct o. Qed.
#[export] Hint Resolve ends_done ends_thrown ends_undefined ends_defined : ends.

(** Splits a computation into its steps. *)
Ltac ends_tac :=
  repeat match goal with
         | |- ends (_ ≫= _) => apply ends_bind; [|intros ? ?]
         | |- ends (let '_ := ?p in _) => destruct p
         | |- ends (match ?p with _ => _ end) => destruct p eqn:?
         | _ => progress auto with ends
         end.
