(* ===== verification/SerialiserSpec.v ===== *)
(** * SerialiserSpec: what reading a written object does

    The wire format and the reader of file Serialiser against a specification
    without bytes: reading what was written merges the written members into
    those of the object that is read, by name. *)

From S2P Require Import Prelude IoBuffer Yas YasHeader Serialiser.
From S2P Require MultiArray.
Local Open Scope nat_scope.

(** ** The bytes of an object *)

Section encoding.
Context (w : walks) (writeMetaInfo : bool).

Definition enc_leaf (l : leaf) : leaf_carrier l → bytes :=
  match l with
  | Prim a => enc_prim a
  | Vec a => λ xs, enc_dims [Z.of_nat (length xs)] ++ enc_vector a xs
  | Multi a _ => λ m, enc_dims (MultiArray.dimensions m) ++ enc_vector a (MultiArray.elements m)
  | SetOf a => λ X, enc_dims [Z.of_nat (length (walk_set w a X))] ++ enc_vector a (walk_set w a X)
  | MapOf k v => λ m, enc_map k v (walk_map w k v m)
  end.

(** The values that fit the format. *)
Definition leaf_ok (l : leaf) : leaf_carrier l → Prop :=
  match l with
  | Prim a => prim_ok a
  | Vec a => λ xs, fits (length xs) ∧ Forall (prim_ok a) xs
  | Multi a n => λ m, m = MultiArray.make (MultiArray.elements m) (MultiArray.dimensions m)
      ∧ length (MultiArray.dimensions m) = n ∧ fits n ∧ Forall (in_u 32) (MultiArray.dimensions m)
      ∧ fits (length (MultiArray.elements m)) ∧ Forall (prim_ok a) (MultiArray.elements m)
  | SetOf a => λ X, fits (length (elements X)) ∧ set_Forall (prim_ok a) X
  | MapOf k v => λ m, fits (length (map_to_list m)) ∧ map_Forall (λ x y, prim_ok k x ∧ prim_ok v y) m
  end.

Definition enc_marked (name : bytes) (body : bytes) : bytes :=
  enc_header START_MARKER_ID name None (length body + header_length name None)
  ++ body ++ enc_header END_MARKER_ID name None 0.

Definition skipped {C} (m : member C) : bool := f_pointer m && f_null m.

Fixpoint enc_content (m : member content) (c : content) : bytes :=
  if skipped m then []
  else
    let name := sanitize (f_name m) in
    match c with
    | Leaf l x => enc_header (leaf_id l) name (written_meta writeMetaInfo m) (length (enc_leaf l x)) ++ enc_leaf l x
    | Object _ ms => enc_marked name (concat ((λ m', enc_content m' (f_value m')) <$> ms))
    end.

Definition enc_member (m : member content) : bytes := enc_content m (f_value m).
Definition enc_fields (ms : list (member content)) : bytes := concat (enc_member <$> ms).

Definition enc_object (name : bytes) (ms : list (member content)) : bytes :=
  enc_info ++ enc_marked (sanitize name) (enc_fields ms).

(** Every value, name and annotation of the object fits the format. *)
Fixpoint content_ok (m : member content) (c : content) : Prop :=
  fits (length (f_name m) + 1) ∧ meta_ok (f_annotation m)
  ∧ match c with
    | Leaf l x => leaf_ok l x
    | Object _ ms => foldr (λ m' P, content_ok m' (f_value m') ∧ P) True ms
    end.

Definition member_ok (m : member content) : Prop := content_ok m (f_value m).
End encoding.

(** ** The specification *)

(** How deep classes are nested, and how many fields there are. *)
Fixpoint depth (c : content) : nat :=
  match c with Leaf _ _ => 0 | Object _ ms => S (foldr (λ m n, depth (f_value m) `max` n) 0 ms) end.

Fixpoint weight (c : content) : nat :=
  match c with Leaf _ _ => 1 | Object _ ms => 2 + foldr (λ m n, weight (f_value m) + n) 0 ms end.

Definition fields_depth (ms : list (member content)) : nat := foldr (λ m n, depth (f_value m) `max` n) 0 ms.
Definition fields_weight (ms : list (member content)) : nat := 1 + foldr (λ m n, weight (f_value m) + n) 0 ms.

Definition wire_id (c : content) : Z := match c with Leaf l _ => leaf_id l | Object _ _ => START_MARKER_ID end.

Section merge.
Context (check : ProtocolCheck) (writeMetaInfo : bool).

Fixpoint merge_each {A S} (f : A → S → outcome S) (xs : list A) (s : S) : outcome S :=
  match xs with
  | [] => Done s
  | x :: xs' => s' ← f x s; merge_each f xs' s'
  end.

(** One written member.  [Undefined]: two types that share an identifier, or
    a value where a class is expected. *)
Fixpoint assign (parent : bytes) (m : member content) (c : content) (s : list (member content) * info)
    : outcome (list (member content) * info) :=
  if skipped m then Done s
  else
    let name := sanitize (f_name m) in
    let '(ms, i) := s in
    match findMemberIndex name ms with
    | None =>
        i1 ← report check (MissingField parent name) i;
        Done (ms, add_field check parent name (wire_id c) i1)
    | Some idx =>
        t ← defined (ms !! idx);
        match f_value t, c with
        | Leaf l _, Leaf l' x =>
            if negb (leaf_id l =? leaf_id l')%Z then
              i' ← report check (MismatchedType (f_name t)) i; Done (ms, i')
            else if negb (bool_decide (l = l')) then Undefined
            else
              '(readable, i1) ← check_annotation check (f_annotation t) (f_name t)
                                  (meta_read check (written_meta writeMetaInfo m)) i;
              if readable : bool then
                i2 ← set_field check parent idx i1; Done (<[idx := set_value (Leaf l' x) t]> ms, i2)
              else Done (ms, i1)
        | Leaf _ _, Object _ _ => i' ← report check (MismatchedType (f_name t)) i; Done (ms, i')
        | Object n ms', Object _ ws =>
            '(ms'', i') ← merge_each (λ m', assign name m' (f_value m')) ws
                            (ms', init_fields check name (length ms') i);
            i2 ← set_field check parent idx i';
            Done (<[idx := set_value (Object n ms'') t]> ms, i2)
        | Object _ _, Leaf _ _ => Undefined
        end
    end.

Definition assign_member (parent : bytes) (m : member content) := assign parent m (f_value m).
Definition merge_fields (parent : bytes) := merge_each (assign_member parent).

(** Reading the object [ws] of class [written] into the object [ms] of class
    [name]. *)
Definition merge (name : bytes) (ms : list (member content)) (written : bytes) (ws : list (member content)) (i : info)
    : outcome (list (member content) * info) :=
  let i0 := init_fields check ROOT_NAME (length ms) i in
  i1 ← report_if check (negb (bool_decide (sanitize written = name)) && negb (bool_decide (sanitize written = [])))
         (UnexpectedClass (sanitize written)) i0;
  merge_fields ROOT_NAME ws (ms, i1).
End merge.

(** ** Writing *)

Section writing.
Context (junk : ascii) (w : walks) `{HW : Walks w} (sizeof : leaf → nat) (writeMetaInfo : bool).

Lemma walk_set_ok a X : set_Forall (prim_ok a) X → Forall (prim_ok a) (walk_set w a X).
Proof using HW. intros HX. rewrite walk_set_perm. by apply set_Forall_elements. Qed.

Lemma walk_map_ok k v (m : gmap (carrier k) (carrier v)) :
  map_Forall (λ x y, prim_ok k x ∧ prim_ok v y) m →
  Forall (prim_ok k) (walk_map w k v m).*1 ∧ Forall (prim_ok v) (walk_map w k v m).*2.
Proof using HW.
  intros Hm%map_Forall_to_list. rewrite !walk_map_perm, !Forall_fmap.
  split; (eapply Forall_impl; [exact Hm|]); by intros [x y] [].
Qed.

Lemma put_leaf_wrote l x b :
  wf b → leaf_ok l x → ∃ b', put_leaf junk w l x b = Some b' ∧ wrote (enc_leaf w l x) b b'.
Proof using HW.
  intros Hw. destruct l as [a|a|a n|a|k v]; cbn [put_leaf leaf_ok enc_leaf]; intros Hx.
  - by apply put_prim_wrote.
  - apply vector_wrote; [done|apply Hx].
  - apply multi_wrote; [done|apply Hx].
  - by apply set_wrote.
  - by apply map_wrote.
Qed.

Lemma put_marked_wrote name body s b :
  wf b → (∀ c, wf c → ∃ c', body c = Some c' ∧ wrote s c c') →
  ∃ b', put_marked junk name body b = Some b' ∧ wrote (enc_marked name s) b b'.
Proof using Type.
  intros Hw Hbody. unfold put_marked.
  assert (Hnop : ∀ c, wf c → ∃ c', Some c = Some c' ∧ wrote [] c c').
  { intros c Hc. exists c. unfold wrote. by rewrite app_nil_r. }
  destruct (put_header_wrote junk 1 START_MARKER_ID name None Some [] b Hw Hnop) as (b1 & H1 & W1).
  rewrite H1. cbn [mbind option_bind]. destruct (Hbody b1) as (b2 & H2 & W2); [apply W1|].
  rewrite H2. cbn [mbind option_bind].
  destruct (put_header_wrote junk 1 END_MARKER_ID name None Some [] b2) as (b3 & H3 & W3); [apply W2|done|].
  rewrite H3. cbn [mbind option_bind]. unfold updateSize. rewrite !app_nil_r in *. cbn [length] in *.
  pose proof (wrote_size _ _ _ Hw W1) as S1.
  pose proof (wrote_trans _ _ _ _ _ W2 W3) as W23. pose proof (wrote_size _ _ _ ltac:(apply W1) W23) as S3.
  pose proof (wrote_trans _ _ _ _ _ W1 W23) as W. unfold enc_header in W at 1. rewrite <- !app_assoc in W.
  rewrite app_assoc in W.
  destruct (put_at_wrote _ (le_bytes 4 (wraps 32 (Z.of_nat 0))) _ (Z.of_nat (size b3) - Z.of_nat (size b1)) (size b + 5) b b3 Hw W)
    as (b4 & H4 & W4 & _); [done|rewrite length_app, !length_le_bytes; lia|].
  exists b4. split; [exact H4|]. unfold enc_marked. unfold enc_header at 1. rewrite <- !app_assoc in *.
  replace (Z.of_nat (size b3) - Z.of_nat (size b1))%Z with (Z.of_nat (length s + header_length name None)) in W4.
  - exact W4.
  - rewrite S3, length_app, length_enc_header. lia.
Qed.

Lemma members_ok_Forall ms : foldr (λ m P, member_ok m ∧ P) True ms ↔ Forall member_ok ms.
Proof using Type. induction ms as [|m ms IH]; simpl; [done|]. by rewrite IH, Forall_cons. Qed.

Lemma each_wrote {A} (f : A → iobuffer → option iobuffer) (enc : A → bytes) xs b :
  wf b → Forall (λ x, ∀ c, wf c → ∃ c', f x c = Some c' ∧ wrote (enc x) c c') xs →
  ∃ b', each f xs b = Some b' ∧ wrote (concat (enc <$> xs)) b b'.
Proof using Type.
  intros Hw Hx. revert b Hw. induction Hx as [|x xs Hx _ IH]; intros b Hw.
  - exists b. unfold wrote. by rewrite app_nil_r.
  - destruct (Hx b Hw) as (b1 & H1 & W1). destruct (IH b1) as (b2 & H2 & W2); [apply W1|].
    exists b2. cbn [each]. rewrite H1. split; [done|]. by eapply wrote_trans.
Qed.

Lemma put_content_wrote c m b :
  wf b → content_ok m c →
  ∃ b', put_content junk w sizeof writeMetaInfo m c b = Some b' ∧ wrote (enc_content w writeMetaInfo m c) b b'.
Proof using HW.
  revert m b. induction c as [l x|n ms IH] using content_nested_ind; intros m b Hw; cbn [put_content enc_content];
    change (f_pointer m && f_null m) with (skipped m); intros (Hn & Hm & Hc);
    (destruct (skipped m); [exists b; split; [done|]; unfold wrote; by rewrite app_nil_r|]).
  - destruct (put_header_wrote junk (sizeof l) (leaf_id l) (sanitize (f_name m)) (written_meta writeMetaInfo m)
                (put_leaf junk w l x) (enc_leaf w l x) b Hw) as (b1 & H1 & W1).
    { intros c Hwc. by apply put_leaf_wrote. }
    exists b1. by rewrite H1.
  - apply put_marked_wrote; [done|]. intros c Hwc. apply each_wrote; [done|].
    apply (members_ok_Forall ms) in Hc. rewrite Forall_forall in *. intros m' Hm' c' Hc'. apply IH; [done..|]. by apply Hc.
Qed.

(** Writing an object succeeds and appends its bytes. *)
Lemma serialise_wrote name ms b :
  wf b → Forall member_ok ms →
  ∃ b', serialise junk w sizeof writeMetaInfo name ms b = Some b' ∧ wrote (enc_object w writeMetaInfo name ms) b b'.
Proof using HW.
  intros Hw Hms. destruct (putHeaderInfo_wrote junk b Hw) as (b1 & H1 & W1).
  destruct (put_marked_wrote (sanitize name) (each (put_member junk w sizeof writeMetaInfo) ms)
              (enc_fields w writeMetaInfo ms) b1) as (b2 & H2 & W2); [apply W1| |].
  - intros c Hc. apply each_wrote; [done|]. eapply Forall_impl; [exact Hms|]. intros m Hm d Hd.
    by apply put_content_wrote.
  - exists b2. unfold serialise. rewrite H1. split; [exact H2|]. by eapply wrote_trans.
Qed.
End writing.

(** ** Reading *)

(** The buffer [n] bytes further. *)
Definition after (n : nat) (b : iobuffer) : iobuffer := set_position (position b + n) b.

Lemma after_after n k b : after n (after k b) = after (k + n) b.
Proof. unfold after, set_position. simpl. f_equal. lia. Qed.

Lemma reads_after s t rest b : reads b (s ++ t) rest → reads (after (length s) b) t rest.
Proof. intros Hr. rewrite reads_app in Hr. apply reads_advance in Hr. by apply reads_next. Qed.

Lemma reads_tail b s rest : reads b s rest → rest = drop (position b + length s) (IoBuffer.content b).
Proof. intros (_ & _ & E). rewrite <- drop_drop, E. by rewrite drop_app_length. Qed.

(** A reader that stops in front of what follows has advanced by what it
    read. *)
Lemma reading_after s rest b c : reads b s rest → reading b c → reads c [] rest → c = after (length s) b.
Proof.
  intros Hb [Hm Hs] (Hw & Hp & E). pose proof (reads_length _ _ _ Hb) as Hl. pose proof (reads_tail _ _ _ Hb) as Ht.
  apply (f_equal length) in Ht. apply (f_equal length) in E. destruct Hb as (Hwb & _ & _).
  rewrite length_drop, length_content in Ht, E by done. simpl in E.
  destruct c as [cm cp cs]. unfold after, set_position. simpl in *. subst. f_equal. lia.
Qed.

Lemma after_position_nat b n : set_position (Z.to_nat (Z.of_nat (position b + n))) b = after n b.
Proof. by rewrite Nat2Z.id. Qed.

Lemma length_enc_marked name body :
  length (enc_marked name body) = header_length name None + (length body + header_length name None).
Proof. unfold enc_marked. rewrite !length_app, !length_enc_header. done. Qed.

Lemma header_length_pos name m : 0 < header_length name m.
Proof. unfold header_length. lia. Qed.

Lemma leaf_id_range l : in_u 8 (leaf_id l) ∧ leaf_id l ≠ END_MARKER_ID ∧ leaf_id l ≠ OTHER_ID ∧ leaf_id l ≠ START_MARKER_ID.
Proof.
  assert (H : ∀ a, (0 < type_id a < 10)%Z) by apply type_id_range.
  unfold in_u, END_MARKER_ID, OTHER_ID, START_MARKER_ID.
  destruct l as [a|a|a n|a|k v]; unfold leaf_id, ARRAY_TYPE_OFFSET, MAP_ID; try specialize (H a); lia.
Qed.

Section reading.
Context (w : walks) `{HW : Walks w} (writeMetaInfo : bool) (check : ProtocolCheck).

Lemma get_leaf_reads l x c rest :
  leaf_ok l x → reads c (enc_leaf w l x) rest → get_leaf l c = Some (Ok x, after (length (enc_leaf w l x)) c).
Proof using HW.
  intros Hx Hr.
  assert (∃ c', get_leaf l c = Some (Ok x, c') ∧ reads c' [] rest ∧ reading c c') as (c' & H1 & H2 & H3);
    [|by rewrite <- (reading_after _ _ _ _ Hr H3 H2)].
  destruct l as [a|a|a n|a|k v]; cbn [get_leaf leaf_ok enc_leaf] in *.
  - destruct (get_prim_reads a x c rest Hx Hr) as (c' & H1 & H2). exists c'. by rewrite H1.
  - destruct Hx as [Hf Hx]. destruct (vector_reads a x c rest Hf Hx Hr) as (c' & H1 & H2). exists c'. by rewrite H1.
  - destruct Hx as (Hm & Hl & Hf & Hd & Hfe & Hx). rewrite <- Hl in *.
    destruct (multi_reads a _ _ c rest Hd Hf Hfe Hx Hr) as (c' & H1 & H2). exists c'. by rewrite H1, <- Hm.
  - destruct Hx as [Hf Hx].
    destruct (set_reads a x (walk_set w a x) c rest) as (c' & H1 & H2);
      [apply walk_set_perm|by rewrite walk_set_perm|by apply walk_set_ok|done|]. exists c'. by rewrite H1.
  - destruct Hx as [Hf Hx]. destruct (walk_map_ok w k v x Hx) as [Hk Hv].
    destruct (map_reads k v x (walk_map w k v x) c rest) as (c' & H1 & H2);
      [apply walk_map_perm|by rewrite walk_map_perm|done..|]. exists c'. by rewrite H1.
Qed.

(** The field description a header gives. *)
Definition field_at (f : field) (b : iobuffer) (id : Z) (name : bytes) (m : option meta) (n : nat) : field :=
  let start := Z.of_nat (position b) in
  let dataStart := Z.of_nat (position b + header_length name m) in
  mkfield start dataStart (dataStart + Z.of_nat n) (subfields f) name (meta_read check m) id (hierarchyDepth f).

Lemma header_reads f id name m n b s rest :
  in_u 8 id → fits (length name + 1) → meta_ok m → fits (size b) → n = length s →
  reads b (enc_header id name m n ++ s) rest →
  ∃ b1, get_header check f b = Some (field_at f b id name m n, b1)
        ∧ (∀ p, set_position p b1 = set_position p b)
        ∧ reads (after (header_length name m) b) s rest.
Proof using Type.
  intros Hid Hn Hm Hs -> Hr. pose proof (reads_length _ _ _ Hr) as Hl. rewrite length_app in Hl.
  pose proof (reads_after _ _ _ _ Hr) as Ha. rewrite length_enc_header in Ha. rewrite reads_app in Hr.
  destruct (get_header_reads check f id name m (length s) b (s ++ rest)) as (b1 & H1 & H2 & _);
    [done..|unfold fits in *; lia|done|].
  exists b1. split; [exact H1|]. split; [|done]. intros p. by apply reading_position.
Qed.

(** The field ends at the end of its data. *)
Lemma field_end f b id name m n k :
  fits (position b + header_length name m + n) →
  moveToFieldEndBufferPosition (field_at f b id name m n) (after k b) = after (header_length name m + n) b.
Proof using Type.
  intros Hf. unfold fits in Hf. unfold moveToFieldEndBufferPosition. cbn [dataEndPosition field_at].
  rewrite (proj2 (Z.eqb_neq _ _)) by lia. unfold after, set_position. cbn [mem size position]. f_equal. lia.
Qed.

Lemma finish_at_end f i b :
  dataEndPosition f = Z.of_nat (position b) → finish_field check f i b = Done (i, b).
Proof using Type. intros E. unfold finish_field. rewrite E, Z.eqb_refl. by rewrite andb_false_r. Qed.

(** One turn of the loop, up to the member the field belongs to. *)
Definition after_header (fuel : nat) (parent : bytes) (f1 : field) (prev : Z) (s : state) : outcome state :=
  let '(ms, i, b2) := s in
  match findMemberIndex (fieldName f1) ms with
  | None =>
      i1 ← report check (MissingField parent (fieldName f1)) i;
      loop check fuel parent f1
        (ms, add_field check parent (fieldName f1) (intDataType f1) i1, moveToFieldEndBufferPosition f1 b2)
  | Some idx =>
      m ← defined (ms !! idx);
      '(m', i1, b3, f2) ← read_member check (λ n fp, enter check (loop check fuel (fieldName fp)) n fp) parent
                            prev idx m f1 i b2;
      '(i2, b4) ← finish_field check f2 i1 b3;
      loop check fuel parent f2 (<[idx := m']> ms, i2, b4)
  end.

Lemma loop_turn fuel parent f ms i b id name m n s rest :
  in_u 8 id → id ≠ END_MARKER_ID → fits (length name + 1) → meta_ok m → fits (size b) → n = length s →
  reads b (enc_header id name m n ++ s) rest →
  loop check (S fuel) parent f (ms, i, b)
  = after_header fuel parent (field_at f b id name m n) (subfields f) (ms, i, after (header_length name m) b).
Proof using Type.
  intros Hid Hne Hn Hm Hs Hl Hr. destruct (header_reads f id name m n b s rest Hid Hn Hm Hs Hl Hr) as (b1 & H1 & Hp & _).
  apply reads_length in Hr. rewrite length_app, length_enc_header in Hr. pose proof (header_length_pos name m).
  cbn [loop]. rewrite (proj2 (Nat.ltb_lt _ _)) by lia. rewrite H1. cbn [defined mbind outcome_bind].
  change (intDataType (field_at f b id name m n)) with id. rewrite (proj2 (Z.eqb_neq _ _)) by done.
  rewrite Hp. cbn [dataStartPosition field_at]. by rewrite after_position_nat.
Qed.

Lemma loop_end fuel parent f ms i b name rest :
  fits (length name + 1) → fits (size b) → reads b (enc_header END_MARKER_ID name None 0) rest →
  loop check (S fuel) parent f (ms, i, b) = Done (ms, i, after (header_length name None) b).
Proof using Type.
  intros Hn Hs Hr. pose proof Hr as Hr0. rewrite <- (app_nil_r (enc_header _ _ _ _)) in Hr0.
  destruct (header_reads f END_MARKER_ID name None 0 b [] rest ltac:(done) Hn I Hs eq_refl Hr0) as (b1 & H1 & Hp & _).
  apply reads_length in Hr. rewrite length_enc_header in Hr. pose proof (header_length_pos name None).
  cbn [loop]. rewrite (proj2 (Nat.ltb_lt _ _)) by lia. rewrite H1. cbn [defined mbind outcome_bind].
  change (intDataType (field_at f b END_MARKER_ID name None 0)) with END_MARKER_ID. rewrite Z.eqb_refl.
  rewrite Hp. cbn [dataStartPosition field_at]. by rewrite after_position_nat.
Qed.

Lemma sanitize_fits name : fits (length name + 1) → fits (length (sanitize name) + 1).
Proof using Type.
  unfold fits, sanitize. intros H. destruct (_ && _); [|done]. rewrite length_drop. lia.
Qed.

Lemma written_meta_ok {C} (m : member C) : meta_ok (f_annotation m) → meta_ok (written_meta writeMetaInfo m).
Proof using Type. unfold written_meta. by destruct (_ && _). Qed.

(** What one written member does to a turn of the loop. *)
Definition turn_spec (c : content) : Prop :=
  ∀ m fuel parent f ms i b rest,
    skipped m = false → content_ok m c → fits (size b) →
    (0 ≤ hierarchyDepth f)%Z → (hierarchyDepth f + Z.of_nat (depth c) < 256)%Z → weight c ≤ fuel →
    reads b (enc_content w writeMetaInfo m c) rest →
    match assign check writeMetaInfo parent m c (ms, i) with
    | Done (ms', i') =>
        ∃ f', hierarchyDepth f' = hierarchyDepth f
              ∧ loop check (S fuel) parent f (ms, i, b)
                = loop check fuel parent f' (ms', i', after (length (enc_content w writeMetaInfo m c)) b)
    | Thrown => loop check (S fuel) parent f (ms, i, b) = Thrown
    | _ => True
    end.

(** A field that is not known. *)
Lemma after_header_missing fuel parent f b id name m n prev ms i k :
  fits (position b + header_length name m + n) → findMemberIndex name ms = None →
  after_header fuel parent (field_at f b id name m n) prev (ms, i, after k b)
  = (i1 ← report check (MissingField parent name) i;
     loop check fuel parent (field_at f b id name m n)
       (ms, add_field check parent name id i1, after (header_length name m + n) b)).
Proof using Type.
  intros Hf Hx. unfold after_header. cbn [fieldName field_at]. rewrite Hx. by rewrite field_end.
Qed.

(** A field of a member that is not a class. *)
Lemma after_header_leaf fuel parent f b id name m n prev ms i k idx t l x0 :
  fits (position b + header_length name m + n) → findMemberIndex name ms = Some idx → ms !! idx = Some t →
  f_value t = Leaf l x0 →
  after_header fuel parent (field_at f b id name m n) prev (ms, i, after k b)
  = ('(m', i1, b3) ← read_leaf check parent idx t l (field_at f b id name m n) i (after k b);
     '(i2, b4) ← finish_field check (field_at f b id name m n) i1 b3;
     loop check fuel parent (field_at f b id name m n) (<[idx := m']> ms, i2, b4)).
Proof using Type.
  intros Hf Hx Ht Hv. unfold after_header. cbn [fieldName field_at]. rewrite Hx, Ht. cbn [defined mbind outcome_bind].
  unfold read_member. rewrite Hv. by destruct (read_leaf _ _ _ _ _ _ _ _) as [[[??]?]| | |].
Qed.

Lemma findMemberIndex_lookup name (ms : list (member content)) idx :
  findMemberIndex name ms = Some idx → ∃ t, ms !! idx = Some t ∧ sanitize (f_name t) = name.
Proof using Type.
  unfold findMemberIndex. destruct (list_find _ _) as [[j t]|] eqn:E; [|done]. simpl. intros [= ->].
  apply list_find_Some in E as (E & Hn & _). eauto.
Qed.

Lemma read_leaf_mismatch parent idx t l f i b :
  leaf_id l ≠ intDataType f →
  read_leaf check parent idx t l f i b
  = (i' ← report check (MismatchedType (f_name t)) i; Done (t, i', moveToFieldEndBufferPosition f b)).
Proof using Type.
  intros Hne. unfold read_leaf. rewrite (proj2 (Z.eqb_neq _ _)) by done.
  by rewrite (proj2 (Z.eqb_neq _ OTHER_ID)) by apply leaf_id_range.
Qed.

Lemma finish_at_after f b id name m n i :
  finish_field check (field_at f b id name m n) i (after (header_length name m + n) b)
  = Done (i, after (header_length name m + n) b).
Proof using Type. apply finish_at_end. cbn [dataEndPosition field_at after position set_position]. lia. Qed.

Lemma reads_fits b s rest n : fits (size b) → reads b s rest → n ≤ length s → fits (position b + n).
Proof using Type. intros Hf Hr%reads_length Hn. unfold fits in *. lia. Qed.

(** A field of another type is skipped. *)
Lemma after_header_mismatch fuel parent f b id name m n prev ms i k idx t l x0 :
  fits (position b + header_length name m + n) → findMemberIndex name ms = Some idx → ms !! idx = Some t →
  f_value t = Leaf l x0 → leaf_id l ≠ id →
  after_header fuel parent (field_at f b id name m n) prev (ms, i, after k b)
  = (i' ← report check (MismatchedType (f_name t)) i;
     loop check fuel parent (field_at f b id name m n) (ms, i', after (header_length name m + n) b)).
Proof using Type.
  intros Hf Hx Ht Hv Hne. erewrite after_header_leaf by done. rewrite read_leaf_mismatch by done.
  destruct (report _ _ _) as [i'| | |]; [|done..]. cbn [mbind outcome_bind]. rewrite field_end by done.
  rewrite finish_at_after. cbn [mbind outcome_bind]. by rewrite list_insert_id.
Qed.

(** The loop goes on with the field that was read last. *)
#[local] Ltac turn_done := eexists; split; [|reflexivity].

Lemma turn_leaf l x : turn_spec (Leaf l x).
Proof using HW.
  intros m fuel parent f ms i b rest Hs (Hn & Hm & Hx) Hf Hd _ _ Hr.
  cbn [enc_content] in *. rewrite Hs in Hr |- *. set (name := sanitize (f_name m)) in *.
  set (wm := written_meta writeMetaInfo m) in *. set (body := enc_leaf w l x) in *.
  pose proof (leaf_id_range l) as (Hid & Hne & _ & _).
  assert (Hfit : fits (position b + header_length name wm + length body)).
  { rewrite <- Nat.add_assoc. eapply reads_fits; [done..|]. rewrite length_app, length_enc_header. lia. }
  rewrite (loop_turn fuel parent f ms i b (leaf_id l) name wm (length body) body rest) by
    (done || apply sanitize_fits, Hn || apply written_meta_ok, Hm).
  apply reads_after in Hr. rewrite length_enc_header in Hr.
  rewrite length_app, length_enc_header. cbn [assign]. rewrite Hs. fold name.
  destruct (findMemberIndex name ms) as [idx|] eqn:Hfind.
  - destruct (findMemberIndex_lookup _ _ _ Hfind) as (t & Ht & Hname_t). rewrite Ht. cbn [defined mbind outcome_bind].
    destruct (f_value t) as [l0 x0|n0 ms0] eqn:Hv; [|done].
    destruct (Z.eqb_spec (leaf_id l0) (leaf_id l)) as [He|He]; cbn [negb].
    + case_bool_decide as Hl; [|done]. subst l0. erewrite after_header_leaf by done. unfold read_leaf.
      rewrite Z.eqb_refl. cbn [negb andb]. change (fieldMeta (field_at f b (leaf_id l) name wm (length body)))
        with (meta_read check wm). fold wm.
      destruct (check_annotation _ _ _ _ _) as [[[] i1]| | |]; [| |done..]; cbn [mbind outcome_bind].
      * rewrite (get_leaf_reads l x _ rest Hx Hr). cbn [defined mbind outcome_bind]. fold body.
        destruct (set_field _ _ _ _) as [i2| | |]; [|done..]. cbn [mbind outcome_bind].
        rewrite after_after, finish_at_after. cbn [mbind outcome_bind]. by turn_done.
      * rewrite field_end, finish_at_after by done. cbn [mbind outcome_bind]. rewrite list_insert_id by done. by turn_done.
    + erewrite after_header_mismatch by done.
      destruct (report _ _ _) as [i1| | |]; [|done..]. cbn [mbind outcome_bind]. by turn_done.
  - rewrite after_header_missing by done.
    destruct (report _ _ _) as [i1| | |]; [|done..]. cbn [mbind outcome_bind wire_id]. by turn_done.
Qed.

Lemma enc_skipped (m : member content) c : skipped m = true → enc_content w writeMetaInfo m c = [].
Proof using Type. intros Hs. destruct c; cbn [enc_content]; by rewrite Hs. Qed.

Lemma assign_skipped parent m c s : skipped m = true → assign check writeMetaInfo parent m c s = Done s.
Proof using Type. intros Hs. destruct c; cbn [assign]; by rewrite Hs. Qed.

(** What the written members do to the loop, up to the end marker. *)
Lemma fields_read ws :
  Forall (λ m, turn_spec (f_value m)) ws →
  ∀ fuel parent f ms i b name rest,
    Forall member_ok ws → fits (length name + 1) → fits (size b) →
    (0 ≤ hierarchyDepth f)%Z → (hierarchyDepth f + Z.of_nat (fields_depth ws) < 256)%Z → fields_weight ws ≤ fuel →
    reads b (enc_fields w writeMetaInfo ws ++ enc_header END_MARKER_ID name None 0) rest →
    match merge_each (λ m, assign check writeMetaInfo parent m (f_value m)) ws (ms, i) with
    | Done (ms', i') =>
        loop check fuel parent f (ms, i, b)
        = Done (ms', i', after (length (enc_fields w writeMetaInfo ws) + header_length name None) b)
    | Thrown => loop check fuel parent f (ms, i, b) = Thrown
    | _ => True
    end.
Proof using HW.
  induction 1 as [|m ws Hm _ IH]; intros fuel parent f ms i b name rest Hok Hn Hf Hd0 Hd Hfuel Hr.
  - destruct fuel as [|fuel]; [unfold fields_weight in Hfuel; simpl in Hfuel; lia|]. by apply (loop_end fuel parent f ms i b name rest).
  - apply Forall_cons in Hok as [Hmok Hok]. unfold fields_depth, fields_weight in *. cbn [foldr] in *.
    unfold enc_fields in *. cbn [merge_each fmap list_fmap concat] in *. unfold enc_member in *.
    change (concat (list_fmap _ _ _ ws)) with (concat ((λ m0, enc_content w writeMetaInfo m0 (f_value m0)) <$> ws)) in *.
    rewrite <- app_assoc in Hr.
    destruct (skipped m) eqn:Hs.
    + rewrite assign_skipped, enc_skipped in * by done. cbn [mbind outcome_bind app] in *. apply (IH fuel parent f ms i b name rest); try done; lia.
    + destruct fuel as [|fuel]; [lia|].
      assert (Hw1 : 1 ≤ weight (f_value m)) by (destruct (f_value m); simpl; lia).
      pose proof Hr as Hr1. rewrite reads_app in Hr1.
      pose proof (Hm m fuel parent f ms i b _ Hs Hmok Hf Hd0 ltac:(lia) ltac:(lia) Hr1) as Hturn.
      destruct (assign _ _ _ _ _ _) as [[ms1 i1]| | |]; [|exact Hturn|done|done].
      destruct Hturn as (f1 & Hf1 & ->). cbn [mbind outcome_bind].
      apply reads_after in Hr.
      pose proof (IH fuel parent f1 ms1 i1 (after (length (enc_content w writeMetaInfo m (f_value m))) b) name rest
                    Hok Hn Hf ltac:(lia) ltac:(lia) ltac:(lia) Hr) as Hrec.
      destruct (merge_each _ _ _) as [[ms' i']| | |]; [|exact Hrec|done|done].
      rewrite Hrec, after_after. by rewrite length_app, Nat.add_assoc.
Qed.

(** Reading an object from its start marker to its end marker. *)
Lemma enter_reads ws fuel n0 fp ms0 i b name rest :
  Forall (λ m, turn_spec (f_value m)) ws →
  Forall member_ok ws → fits (length name + 1) → fits (size b) →
  (0 ≤ hierarchyDepth fp)%Z → (hierarchyDepth fp + Z.of_nat (fields_depth ws) < 256)%Z → fields_weight ws ≤ fuel →
  reads b (enc_marked name (enc_fields w writeMetaInfo ws)) rest →
  match
    (i1 ← report_if check ((hierarchyDepth fp =? 0)%Z && negb (bool_decide (name = n0)) && negb (bool_decide (name = [])))
            (UnexpectedClass name) (init_fields check (fieldName fp) (length ms0) i);
     merge_each (λ m, assign check writeMetaInfo (fieldName fp) m (f_value m)) ws (ms0, i1))
  with
  | Done (ms', i') =>
      enter check (loop check fuel (fieldName fp)) n0 fp (ms0, i, b)
      = Done (ms', i', after (length (enc_marked name (enc_fields w writeMetaInfo ws))) b)
  | Thrown => enter check (loop check fuel (fieldName fp)) n0 fp (ms0, i, b) = Thrown
  | _ => True
  end.
Proof using HW.
  intros Hws Hok Hn Hf Hd0 Hd Hfuel Hr. unfold enc_marked in Hr. set (body := enc_fields w writeMetaInfo ws) in *.
  set (f0 := mkfield 0 0 0 (-1) [] no_meta 0 (hierarchyDepth fp)).
  destruct (header_reads f0 START_MARKER_ID name None (length body + header_length name None) b
              (body ++ enc_header END_MARKER_ID name None 0) rest) as (b1 & H1 & Hp & Hr1);
    [done..|by rewrite length_app, length_enc_header|done|].
  unfold enter. fold f0. rewrite H1. cbn [defined mbind outcome_bind].
  change (hierarchyDepth (field_at f0 b _ name None _)) with (hierarchyDepth fp).
  change (fieldName (field_at f0 b _ name None _)) with name.
  destruct (report_if _ _ _ _) as [i1| | |]; [|done..]. cbn [mbind outcome_bind].
  cbn [dataStartPosition field_at]. rewrite Hp, after_position_nat.
  pose proof (fields_read ws Hws fuel (fieldName fp)
                (field_at f0 b START_MARKER_ID name None (length body + header_length name None))
                ms0 i1 (after (header_length name None) b) name rest Hok Hn Hf Hd0 Hd Hfuel Hr1) as Hloop.
  destruct (merge_each _ _ _) as [[ms' i']| | |]; [|exact Hloop|done|done].
  rewrite Hloop, after_after, length_enc_marked. done.
Qed.

(** A field of a member that is a class. *)
Lemma after_header_object fuel parent f b name n prev ms i k idx t n0 ms0 :
  findMemberIndex name ms = Some idx → ms !! idx = Some t → sanitize (f_name t) = name → f_value t = Object n0 ms0 →
  (0 ≤ hierarchyDepth f < 255)%Z →
  ∃ f1 f2,
    hierarchyDepth f1 = (hierarchyDepth f + 1)%Z ∧ fieldName f1 = name ∧ hierarchyDepth f2 = hierarchyDepth f
    ∧ dataEndPosition f2 = Z.of_nat (position b + header_length name None + n)
    ∧ after_header fuel parent (field_at f b START_MARKER_ID name None n) prev (ms, i, after k b)
      = ('(ms'', i', b') ← enter check (loop check fuel (fieldName f1)) n0 f1 (ms0, i, b);
         i2 ← set_field check parent idx i';
         '(i3, b4) ← finish_field check f2 i2 b';
         loop check fuel parent f2 (<[idx := set_value (Object n0 ms'') t]> ms, i3, b4)).
Proof using Type.
  intros Hfind Ht Hnt Hv Hd. set (f0 := field_at f b START_MARKER_ID name None n).
  set (f1 := with_depth (hierarchyDepth f0 + 1) (with_name (sanitize (f_name t)) (with_type START_MARKER_ID f0))).
  exists f1, (with_subfields (prev - 1) (with_depth (hierarchyDepth f1 - 1) f1)).
  assert (H1 : hierarchyDepth f1 = (hierarchyDepth f + 1)%Z) by (apply wrapu_id; unfold in_u, f0; simpl; lia).
  split_and!; [done|exact Hnt| | |].
  - cbn [hierarchyDepth with_subfields with_depth]. rewrite H1. rewrite wrapu_id by (unfold in_u; lia). lia.
  - cbn [dataEndPosition with_subfields with_depth f1 with_name with_type f0 field_at]. lia.
  - unfold after_header. change (fieldName f0) with name. rewrite Hfind, Ht. cbn [defined mbind outcome_bind].
    unfold read_member. rewrite Hv. fold f1.
    replace (set_position (Z.to_nat (headerStart f0)) (after k b)) with b
      by (unfold f0, after, set_position; cbn [headerStart field_at]; rewrite Nat2Z.id; by destruct b).
    destruct (enter _ _ _ _ _) as [[[??]?]| | |]; [|done..]. cbn [mbind outcome_bind].
    by destruct (set_field _ _ _ _).
Qed.

Lemma turn_object n ws : Forall (λ m, turn_spec (f_value m)) ws → turn_spec (Object n ws).
Proof using HW.
  intros Hws m fuel parent f ms i b rest Hs (Hn & Hm & Hok%(members_ok_Forall ws)) Hf Hd0 Hd Hfuel Hr.
  cbn [enc_content] in *. rewrite Hs in Hr |- *. set (name := sanitize (f_name m)) in *.
  change (concat ((λ m', enc_content w writeMetaInfo m' (f_value m')) <$> ws)) with (enc_fields w writeMetaInfo ws) in *.
  set (body := enc_fields w writeMetaInfo ws) in *. pose proof (sanitize_fits _ Hn) as Hname. fold name in Hname.
  assert (Hfit : fits (position b + header_length name None + (length body + header_length name None))).
  { rewrite <- Nat.add_assoc. eapply reads_fits; [done..|]. by rewrite length_enc_marked. }
  rewrite (loop_turn fuel parent f ms i b START_MARKER_ID name None (length body + header_length name None)
             (body ++ enc_header END_MARKER_ID name None 0) rest)
    by (done || by rewrite length_app, length_enc_header).
  rewrite length_enc_marked. cbn [assign]. rewrite Hs. fold name.
  destruct (findMemberIndex name ms) as [idx|] eqn:Hfind.
  2:{ rewrite after_header_missing by done.
      destruct (report _ _ _) as [i1| | |]; [|done..]. cbn [mbind outcome_bind wire_id]. by turn_done. }
  destruct (findMemberIndex_lookup _ _ _ Hfind) as (t & Ht & Hname_t). rewrite Ht. cbn [defined mbind outcome_bind].
  destruct (f_value t) as [l0 x0|n0 ms0] eqn:Hv.
  { erewrite after_header_mismatch by (done || apply leaf_id_range).
    destruct (report _ _ _) as [i1| | |]; [|done..]. cbn [mbind outcome_bind]. by turn_done. }
  destruct (after_header_object fuel parent f b name (length body + header_length name None) (subfields f) ms i
              (header_length name None) idx t n0 ms0 Hfind Ht Hname_t Hv) as (f1 & f2 & Hd1 & Hn1 & Hd2 & He2 & ->);
    [cbn [depth] in Hd; lia|].
  pose proof (enter_reads ws fuel n0 f1 ms0 i b name rest Hws Hok Hname Hf) as Henter.
  rewrite Hd1, Hn1, (proj2 (Z.eqb_neq (hierarchyDepth f + 1) 0)) in Henter by lia.
  cbn [report_if andb mbind outcome_bind] in Henter. fold body in Henter. rewrite length_enc_marked in Henter.
  assert (Hdw : (hierarchyDepth f + 1 + Z.of_nat (fields_depth ws) < 256)%Z ∧ fields_weight ws ≤ fuel)
    by (cbn [depth weight] in Hd, Hfuel; unfold fields_depth, fields_weight; lia).
  specialize (Henter ltac:(lia) (proj1 Hdw) (proj2 Hdw) Hr). rewrite Hn1.
  destruct (merge_each _ _ _) as [[ms'' i']| | |]; [|by rewrite Henter|done|done].
  rewrite Henter. cbn [mbind outcome_bind].
  destruct (set_field _ _ _ _) as [i2| | |]; [|done..]. cbn [mbind outcome_bind].
  rewrite finish_at_end by (rewrite He2; cbn [after position set_position]; f_equal; lia). cbn [mbind outcome_bind].
  by exists f2.
Qed.

(** Every written member does to the loop what [assign] says. *)
Lemma turn_all c : turn_spec c.
Proof using HW.
  induction c as [l x|n ms IH] using content_nested_ind; [apply turn_leaf|by apply turn_object].
Qed.
End reading.

(** ** Reading what was written *)

Section refinement.
Context (junk : ascii) (w : walks) `{HW : Walks w} (sizeof : leaf → nat) (writeMetaInfo : bool) (check : ProtocolCheck).

(** The result of the reader is that of the specification, where this is
    defined, and the whole buffer is read. *)
Definition implements (spec : outcome (list (member content) * info)) (got : outcome state) (b : iobuffer) : Prop :=
  match spec with
  | Done (ms, i) => got = Done (ms, i, set_position (size b) b)
  | Thrown => got = Thrown
  | Undefined | OutOfFuel => True
  end.

Lemma deserialise_object fuel name ms wname ws i b :
  exceptions i = [] → Forall member_ok ws → fits (length wname + 1) → fits (size b) → fields_depth ws < 256 →
  fields_weight ws ≤ fuel → reads b (enc_object w writeMetaInfo wname ws) [] →
  implements (merge check writeMetaInfo name ms wname ws i) (deserialise check fuel name ms i b) b.
Proof using HW.
  intros Hi Hok Hn Hf Hd Hfuel Hr. pose proof Hr as Hr0. unfold enc_object in Hr.
  rewrite reads_app in Hr. destruct (checkHeaderInfo_reads b _ Hr) as (b1 & H1 & R1 & E1).
  unfold deserialise. rewrite H1. cbn [defined mbind outcome_bind]. rewrite Hi, (bool_decide_eq_true_2 ([] = [])) by done.
  cbn [negb]. rewrite andb_false_r. set (root := mkfield _ _ _ _ _ _ _ _).
  apply (reads_next b1 (enc_marked _ _) []) in R1.
  pose proof (enter_reads w writeMetaInfo check ws fuel name root ms i b1 (sanitize wname) []
                ltac:(apply Forall_true; intros m; apply turn_all, HW) Hok (sanitize_fits _ Hn) ltac:(by rewrite (proj2 E1))
                ltac:(done) ltac:(simpl; lia) Hfuel R1) as Henter.
  cbn [hierarchyDepth root fieldName Z.eqb andb] in Henter. unfold merge, implements.
  change (λ m, assign check writeMetaInfo ROOT_NAME m (f_value m)) with (assign_member check writeMetaInfo ROOT_NAME) in Henter.
  change (merge_each (assign_member check writeMetaInfo ROOT_NAME)) with (merge_fields check writeMetaInfo ROOT_NAME) in Henter.
  destruct (report_if _ _ _ _) as [i1| | |]; [|by rewrite Henter|done..]. cbn [mbind outcome_bind] in *.
  destruct (merge_fields _ _ _ _ _) as [[ms' i']| | |]; [|by rewrite Henter|done..].
  rewrite Henter. do 2 f_equal. unfold after.
  pose proof (reads_length _ _ _ R1). pose proof (reads_tail _ _ _ R1) as Ht. symmetry in Ht.
  apply (f_equal length) in Ht. rewrite length_drop, length_content in Ht by apply R1.
  destruct E1 as [E1 E2]. rewrite E2 in *. cbn [length] in Ht.
  replace (position b1 + _) with (size b) by lia. unfold set_position. by rewrite E1, E2.
Qed.
End refinement.

(** C4: An object that is written at the end of what has been read, whatever the
    classes of the two objects and their annotations: writing succeeds, and
    reading gives what merging the members gives, with the same exceptions, set
    fields and additional fields, and leaves the reader at the end of the
    buffer; where the specification throws, so does the reader.  The turns of
    the reading loop are bounded by the number of the written fields. *)
Theorem deserialise_refines junk w sizeof writeMetaInfo check wname ws b :
  Walks w → wf b → position b = size b → Forall member_ok ws → fits (length wname + 1) →
  fits (size b + length (enc_object w writeMetaInfo wname ws)) → fields_depth ws < 256 →
  ∃ b1, serialise junk w sizeof writeMetaInfo wname ws b = Some b1
    ∧ size b1 = size b + length (enc_object w writeMetaInfo wname ws)
    ∧ ∀ fuel name ms i, fields_weight ws ≤ fuel → exceptions i = [] →
        implements (merge check writeMetaInfo name ms wname ws i) (deserialise check fuel name ms i b1) b1.
Proof.
  intros HW Hw Hp Hok Hn Hf Hd. destruct (serialise_wrote junk w sizeof writeMetaInfo wname ws b Hw Hok) as (b1 & H1 & W1).
  pose proof (wrote_size _ _ _ Hw W1) as Hs. exists b1. split_and!; [done..|]. intros fuel name ms i Hfuel Hi.
  apply (deserialise_object w); try done; [by rewrite Hs|]. by eapply wrote_reads.
Qed.

(** ** Objects of the same class *)

#[warnings="-register-all"]
Inductive class : Type :=
  | LeafClass (l : leaf)
  | ObjectClass (name : bytes) (members : list (member class)).

Fixpoint class_of (c : content) : class :=
  match c with
  | Leaf l _ => LeafClass l
  | Object n ms =>
      ObjectClass n ((λ m, mkmember (f_name m) (f_annotation m) (f_pointer m) false (class_of (f_value m))) <$> ms)
  end.

Definition member_class (m : member content) : member class :=
  mkmember (f_name m) (f_annotation m) (f_pointer m) false (class_of (f_value m)).

Definition members_class (ms : list (member content)) : list (member class) := member_class <$> ms.

Definition names {C} (ms : list (member C)) : list bytes := sanitize ∘ f_name <$> ms.

Lemma names_class ms : names (members_class ms) = names ms.
Proof. unfold names, members_class. by rewrite <- list_fmap_compose. Qed.

Lemma findMemberIndex_names {C} (ms : list (member C)) idx name :
  NoDup (names ms) → names ms !! idx = Some name → findMemberIndex name ms = Some idx.
Proof.
  intros Hnd Hx. unfold names in Hx. apply list_lookup_fmap_Some in Hx as (m & -> & Hm).
  unfold findMemberIndex. rewrite fmap_Some. exists (idx, m). split; [|done].
  apply list_find_Some. split_and!; [done|done|]. intros j y Hy Hlt Heq.
  assert (j = idx); [|lia]. apply (NoDup_lookup (names ms) j idx (sanitize (f_name y))); [done| |];
    unfold names; rewrite list_lookup_fmap; [by rewrite Hy|]. rewrite Hm. simpl. by rewrite Heq.
Qed.

(** A member whose value can be written and read back: it is not null, no two
    members of a class have the same name, and an annotation is that of a value
    that may be written and is on the wire. *)
Section readable.
Context (writeMetaInfo : bool) (check : ProtocolCheck).

Definition plain (m : member content) : Prop :=
  f_null m = false
  ∧ match f_annotation m with
    | Some a => check = IGNORE ∨ (m_modifier a = RW ∧ f_pointer m = false ∧ writeMetaInfo = true)
    | None => True
    end.

(** [sizes] tells how many members the class has whose fields are recorded
    under a name: classes that share a name share the record. *)
Fixpoint readable (sizes : bytes → nat) (m : member content) (c : content) : Prop :=
  plain m
  ∧ match c with
    | Leaf _ _ => True
    | Object _ ms =>
        NoDup (names ms) ∧ (check = IGNORE ∨ sizes (sanitize (f_name m)) = length ms)
        ∧ foldr (λ m' P, readable sizes m' (f_value m') ∧ P) True ms
    end.

Lemma readable_Forall sizes ms :
  foldr (λ m P, readable sizes m (f_value m) ∧ P) True ms ↔ Forall (λ m, readable sizes m (f_value m)) ms.
Proof using Type. induction ms as [|m ms IH]; simpl; [done|]. by rewrite IH, Forall_cons. Qed.

Definition all_readable (sizes : bytes → nat) (ms : list (member content)) : Prop :=
  NoDup (names ms) ∧ Forall (λ m, readable sizes m (f_value m)) ms.

(** The records of the set fields have those sizes. *)
Definition sized (sizes : bytes → nat) (i : info) : Prop :=
  map_Forall (λ k bits, length bits = sizes k) (setFields i).

(** Nothing is reported between [i] and [i']. *)
Definition quiet (i i' : info) : Prop :=
  exceptions i' = exceptions i ∧ additionalFields i' = additionalFields i
  ∧ dom (setFields i) ⊆ dom (setFields i').

Lemma quiet_trans i1 i2 i3 : quiet i1 i2 → quiet i2 i3 → quiet i1 i3.
Proof using Type. intros (E1 & A1 & D1) (E2 & A2 & D2). split_and!; [congruence|congruence|set_solver]. Qed.

(** The records of [parent] are there and long enough. *)
Definition recorded (sizes : bytes → nat) (parent : bytes) (n : nat) (i : info) : Prop :=
  check = IGNORE ∨ (parent ∈ dom (setFields i) ∧ sizes parent = n).

Lemma recorded_quiet sizes parent n i i' : quiet i i' → recorded sizes parent n i → recorded sizes parent n i'.
Proof using Type. intros (_ & _ & D) [?|[??]]; [by left|right; split; [set_solver|done]]. Qed.

Lemma set_field_quiet sizes parent n idx i :
  sized sizes i → recorded sizes parent n i → idx < n →
  ∃ i', set_field check parent idx i = Done i' ∧ sized sizes i' ∧ quiet i i'.
Proof using Type.
  intros Hs Hrec Hidx. unfold set_field.
  destruct check eqn:Hc; [exists i; unfold quiet; by split_and!| |];
    (destruct Hrec as [?|[Hp Hn]]; [congruence|]);
    apply elem_of_dom in Hp as [bits Hb]; rewrite Hb; simpl; pose proof (Hs _ _ Hb) as Hl; simpl in Hl;
    rewrite (proj2 (Nat.ltb_lt _ _)) by lia; eexists; (split; [done|]);
    (split; [|unfold quiet; simpl; split_and!; [done|done|set_solver]]);
    intros k bs; simpl; rewrite lookup_insert_Some; intros [[<- <-]|[_ Hk]];
      (by rewrite length_insert) || by apply Hs.
Qed.

Lemma init_fields_quiet sizes parent n i :
  sized sizes i → check = IGNORE ∨ sizes parent = n →
  sized sizes (init_fields check parent n i) ∧ quiet i (init_fields check parent n i)
  ∧ recorded sizes parent n (init_fields check parent n i).
Proof using Type.
  intros Hs Hn. unfold init_fields, recorded.
  destruct check eqn:Hc; [unfold quiet; split_and!; (done || by left)| |];
    (destruct Hn as [?|Hn]; [congruence|]); (split; [|split; [unfold quiet; simpl; split_and!; [done|done|set_solver]|
      right; simpl; split; [set_solver|done]]]);
    intros k bs; simpl; rewrite lookup_insert_Some; (intros [[<- <-]|[_ Hk]]; [|by apply Hs]);
    (destruct (setFields i !! parent) as [old|] eqn:E; rewrite length_replicate; [by apply (Hs _ _ E)|done]).
Qed.

Lemma check_annotation_plain m i :
  plain m →
  check_annotation check (f_annotation m) (f_name m) (meta_read check (written_meta writeMetaInfo m)) i = Done (true, i).
Proof using Type.
  intros [_ Ha]. unfold check_annotation, written_meta. destruct (f_annotation m) as [a|]; [|done].
  case_bool_decide as Hc; [done|]. destruct Ha as [?|(Hrw & -> & ->)]; [done|]. rewrite Hrw.
  cbn [andb negb is_deprecated is_private is_readonly report_if mbind outcome_bind].
  unfold meta_read. destruct check; [done| |]; simpl; rewrite !bool_decide_eq_true_2 by done; done.
Qed.

(** What [put] does with a member and an object of its class, where the member
    belongs. *)
Definition merges_in (sizes : bytes → nat) (parent : bytes) (m : member content)
    (put : list (member content) * info → outcome (list (member content) * info)) : Prop :=
  ∀ ms i idx t,
    ms !! idx = Some t → member_class t = member_class m →
    findMemberIndex (sanitize (f_name m)) ms = Some idx → sized sizes i → recorded sizes parent (length ms) i →
    ∃ i', put (ms, i) = Done (<[idx := m]> ms, i') ∧ sized sizes i' ∧ quiet i i'.

Lemma merge_same put ws sizes parent pre rest i :
  Forall (λ m, merges_in sizes parent m (put m)) ws →
  members_class rest = members_class ws → NoDup (names (pre ++ rest)) → sized sizes i →
  recorded sizes parent (length (pre ++ rest)) i →
  ∃ i', merge_each put ws (pre ++ rest, i) = Done (pre ++ ws, i') ∧ sized sizes i' ∧ quiet i i'.
Proof using Type.
  intros Hws. revert pre rest i. induction Hws as [|m ws Hm _ IH]; intros pre rest i Hc Hnd Hs Hrec.
  - destruct rest as [|? ?]; [|done]. exists i. split_and!; [done|done|]. by unfold quiet.
  - destruct rest as [|t rest]; [done|].
    unfold members_class in Hc. rewrite !fmap_cons in Hc. apply (inj2 cons) in Hc as [Htm Hc].
    assert (Hname : f_name t = f_name m) by (by apply (f_equal f_name) in Htm).
    assert (Hlook : (pre ++ t :: rest) !! length pre = Some t) by (by apply list_lookup_middle).
    destruct (Hm (pre ++ t :: rest) i (length pre) t) as (i1 & H1 & S1 & Q1); try done.
    { apply findMemberIndex_names; [done|]. unfold names. rewrite list_lookup_fmap, Hlook. simpl. by rewrite Hname. }
    cbn [merge_each]. rewrite H1. cbn [mbind outcome_bind]. rewrite insert_app_r_alt, Nat.sub_diag by lia. cbn [insert list_insert].
    rewrite (cons_middle m), (app_assoc pre [m]), (cons_middle m pre ws), (app_assoc pre [m]).
    destruct (IH (pre ++ [m]) rest i1) as (i2 & H2 & S2 & Q2); try done.
    + rewrite <- app_assoc. unfold names in *. rewrite !fmap_app, !fmap_cons in *. simpl in *. by rewrite <- Hname.
    + eapply recorded_quiet; [exact Q1|]. rewrite <- app_assoc, length_app in *. exact Hrec.
    + exists i2. split_and!; [done..|]. by eapply quiet_trans.
Qed.

(** A member that is merged into an object of its class. *)
Definition assigns (c : content) : Prop :=
  ∀ sizes m parent, f_value m = c → readable sizes m c →
    merges_in sizes parent m (assign check writeMetaInfo parent m c).

Lemma all_assign ws sizes parent :
  Forall (λ m, assigns (f_value m)) ws → Forall (λ m, readable sizes m (f_value m)) ws →
  Forall (λ m, merges_in sizes parent m (assign check writeMetaInfo parent m (f_value m))) ws.
Proof using Type. intros Hws. rewrite !Forall_forall in *. intros Hr m Hm. by apply Hws, Hr. Qed.

Lemma assigns_all c : assigns c.
Proof using Type.
  induction c as [l x|n ws IH] using content_nested_ind; intros sizes m parent Hv Hr ms i idx t Ht Hcl Hfind Hs Hrec;
    cbn [assign]; pose proof (proj1 Hr) as Hp; destruct Hp as [Hnull _]; pose proof (lookup_lt_Some _ _ _ Ht) as Hlt;
    unfold skipped; rewrite Hnull, andb_false_r; cbv zeta; rewrite Hfind, Ht; cbn [defined mbind outcome_bind];
    pose proof (f_equal f_name Hcl) as Hn1; pose proof (f_equal f_annotation Hcl) as Ha1;
    pose proof (f_equal f_pointer Hcl) as Hp1; pose proof (f_equal f_value Hcl) as Hv1; simpl in Hn1, Ha1, Hp1, Hv1;
    rewrite Hv in Hv1; destruct t as [tn ta tp tnu [l' x'|n' ms']]; simpl in Hv1, Hn1, Ha1, Hp1; try discriminate;
    destruct m as [mn ma mp mnu mv]; simpl in *; subst mn ma mp mv mnu; cbn [f_value].
  - injection Hv1 as ->. rewrite Z.eqb_refl, bool_decide_eq_true_2 by done. cbn [negb].
    rewrite (check_annotation_plain (mkmember tn ta tp false (Leaf l x))) by apply Hr. cbn [mbind outcome_bind].
    destruct (set_field_quiet sizes parent _ idx i Hs Hrec Hlt) as (i1 & -> & S1 & Q1). cbn [mbind outcome_bind].
    by exists i1.
  - injection Hv1 as Hn Hms. subst n'. destruct Hr as (_ & Hnd & Hsz & Hall).
    destruct (init_fields_quiet sizes (sanitize tn) (length ms') i Hs) as (S0 & Q0 & R0).
    { apply (f_equal length) in Hms. rewrite !length_fmap in Hms. by rewrite Hms. }
    destruct (merge_same _ ws sizes (sanitize tn) [] ms' (init_fields check (sanitize tn) (length ms') i)
                (all_assign ws sizes (sanitize tn) IH (proj1 (readable_Forall sizes ws) Hall)))
      as (i1 & H1 & S1 & Q1); try done.
    { rewrite <- names_class. change (members_class ([] ++ ms')) with (members_class ms').
      unfold members_class, member_class. by rewrite Hms, names_class. }
    cbn [app] in H1. rewrite H1. cbn [mbind outcome_bind].
    destruct (set_field_quiet sizes parent (length ms) idx i1 S1) as (i2 & -> & S2 & Q2).
    { eapply recorded_quiet; [exact Q1|]. by eapply recorded_quiet. } { done. }
    cbn [mbind outcome_bind]. exists i2. split_and!; [done..|]. eapply quiet_trans; [exact Q0|]. by eapply quiet_trans.
Qed.
End readable.

Lemma merge_same_class writeMetaInfo check name ms ws sizes :
  members_class ms = members_class ws → all_readable writeMetaInfo check sizes ws → sanitize name = name →
  check = IGNORE ∨ sizes ROOT_NAME = length ws →
  ∃ i', merge check writeMetaInfo name ms name ws no_info = Done (ws, i') ∧ exceptions i' = [] ∧ additionalFields i' = [].
Proof.
  intros Hc [Hnd Hr] Hn Hsz. unfold merge. rewrite Hn, bool_decide_eq_true_2 by done. cbn [negb andb report_if mbind outcome_bind].
  assert (Hl : length ms = length ws) by (apply (f_equal length) in Hc; unfold members_class in Hc; by rewrite !length_fmap in Hc).
  destruct (init_fields_quiet check sizes ROOT_NAME (length ms) no_info) as (S0 & Q0 & R0); [done|by rewrite Hl|].
  destruct (merge_same check _ ws sizes ROOT_NAME [] ms (init_fields check ROOT_NAME (length ms) no_info)
              (all_assign _ _ ws sizes ROOT_NAME ltac:(apply Forall_true; intros m; apply assigns_all) Hr) Hc) as (i1 & H1 & _ & Q1); try done.
  { simpl. rewrite <- (names_class ms), Hc. by rewrite names_class. }
  exists i1. split; [exact H1|]. destruct (quiet_trans _ _ _ Q0 Q1) as (E & A & _). done.
Qed.

Lemma written_then_read junk w sizeof writeMetaInfo check name ms ws b sizes :
  Walks w → wf b → position b = size b → Forall member_ok ws → fits (length name + 1) →
  fits (size b + length (enc_object w writeMetaInfo name ws)) → fields_depth ws < 256 →
  members_class ms = members_class ws → all_readable writeMetaInfo check sizes ws → sanitize name = name →
  check = IGNORE ∨ sizes ROOT_NAME = length ws →
  ∃ b1 i', serialise junk w sizeof writeMetaInfo name ws b = Some b1
    ∧ exceptions i' = [] ∧ additionalFields i' = []
    ∧ ∀ fuel, fields_weight ws ≤ fuel →
        deserialise check fuel name ms no_info b1 = Done (ws, i', set_position (size b1) b1).
Proof.
  intros HW Hw Hp Hok Hn Hf Hd Hc Hr Hname Hsz.
  destruct (merge_same_class writeMetaInfo check name ms ws sizes Hc Hr Hname Hsz) as (i' & Hm & He & Ha).
  destruct (serialise_wrote junk w sizeof writeMetaInfo name ws b Hw Hok) as (b1 & H1 & W1).
  pose proof (wrote_size _ _ _ Hw W1) as Hs. exists b1, i'. split_and!; [done..|]. intros fuel Hfuel.
  pose proof (deserialise_object w writeMetaInfo check fuel name ms name ws no_info b1) as Himpl.
  unfold implements in Himpl. rewrite Hm in Himpl. apply Himpl; try done; [by rewrite Hs|]. by eapply wrote_reads.
Qed.


(** *** Examples *)

(** A class with a nested class, a vector, an annotated value and a map, and an
    older version of it: a member is missing, another has another type. *)
Definition example_walks : walks := mkwalks (λ a X, elements X) (λ k v m, map_to_list m).

#[export] Instance example_walks_ok : Walks example_walks.
Proof. split; done. Qed.

Definition inner_members (x : Z) (s : bytes) : list (member content) :=
  [mkmember (str "gain") (Some (mkmeta (str "V") (str "voltage") (str "the gain") RW)) false false (Leaf (Prim (Number Double)) x);
   mkmember (str "label") None false false (Leaf (Prim String) s)].

Definition outer_members (n : Z) (xs : list Z) (x : Z) (s : bytes) : list (member content) :=
  [mkmember (str "count") None false false (Leaf (Prim (Number Int32)) n);
   mkmember (str "x_inner") None false false (Object (str "Inner") (inner_members x s));
   mkmember (str "samples") None false false (Leaf (Vec (Number Int16)) xs)].

Definition older_members : list (member content) :=
  [mkmember (str "samples") None false false (Leaf (Vec (Number Double)) []);
   mkmember (str "inner") None false false (Object (str "Inner") (inner_members 0 []))].

Definition example_sizes (k : bytes) : nat := if bool_decide (k = ROOT_NAME) then 3 else 2.
Lemma example_ok n xs x s :
  in_s 32 n → fits (length xs) → Forall (in_s 16) xs → in_u 64 x → fits (length s + 1) →
  Forall member_ok (outer_members n xs x s).
Proof. intros Hn Hl Hxs Hx Hs. repeat first [done | apply Forall_nil | apply Forall_cons; split | split]. Qed.


Lemma deserialise_refines_witness :
  let b := new_buffer "?"%char 4 in
  let ws := outer_members 7 [1; (-2); 3]%Z (2 ^ 63) (str "abc") in
  ∃ b1, serialise "?"%char example_walks (λ _, 8) true (str "Outer") ws b = Some b1
    ∧ ∀ fuel, 20 ≤ fuel →
        implements
          (Done ([mkmember (str "samples") None false false (Leaf (Vec (Number Double)) []);
                  mkmember (str "inner") None false false (Object (str "Inner") (inner_members (2 ^ 63) (str "abc")))],
                 mkinfo (<[str "inner" := [true; true]]> (<[ROOT_NAME := [false; true]]> ∅))
                   [(str "root::count", 4%Z)]
                   [UnexpectedClass (str "Outer"); MissingField ROOT_NAME (str "count"); MismatchedType (str "samples")]))
          (deserialise LENIENT fuel (str "OuterV1") older_members no_info b1) b1.
Proof.
  intros b ws.
  destruct (deserialise_refines "?"%char example_walks (λ _, 8) true LENIENT (str "Outer") ws b)
    as (b1 & H1 & _ & H2).
  - apply _.
  - unfold wf, b. simpl. lia.
  - done.
  - apply example_ok; repeat first [done | apply Forall_nil | apply Forall_cons; split | split].
  - done.
  - unfold fits. vm_compute. done.
  - simpl. lia.
  - exists b1. split; [done|]. intros fuel Hfuel. specialize (H2 fuel (str "OuterV1") older_members no_info).
    assert (Hm : merge LENIENT true (str "OuterV1") older_members (str "Outer") ws no_info
                 = Done ([mkmember (str "samples") None false false (Leaf (Vec (Number Double)) []);
                  mkmember (str "inner") None false false (Object (str "Inner") (inner_members (2 ^ 63) (str "abc")))],
                 mkinfo (<[str "inner" := [true; true]]> (<[ROOT_NAME := [false; true]]> ∅))
                   [(str "root::count", 4%Z)]
                   [UnexpectedClass (str "Outer"); MissingField ROOT_NAME (str "count"); MismatchedType (str "samples")]))
      by (vm_compute; reflexivity).
    rewrite Hm in H2. apply H2; [unfold fields_weight; cbn; lia|done].
Defined.
