(* ===== verification/SerialiserSafety.v ===== *)
(** * SerialiserSafety: what the reader does with any bytes

    Properties of [deserialise] (file Serialiser) that hold whatever is in the
    buffer, written by this serialiser or not: the class of the object is kept,
    the buffer is not changed, and reading ends if every header points
    forward. *)

From S2P Require Import Prelude IoBuffer Yas YasHeader Serialiser SerialiserSpec.
From S2P Require MultiArray.
Local Open Scope nat_scope.

(** ** Reading does not change the buffer *)

(** A reader moves the position and nothing else. *)
Class Keeps {A} (g : iobuffer → option (A * iobuffer)) : Prop :=
  keeps b x b' : g b = Some (x, b') → reading b b'.

#[local] Ltac keep :=
  intros ?b ?x ?b' ?E; repeat (simplify_option_eq || case_match);
  repeat match goal with
         | H : get_each _ _ _ = Some _ |- _ => apply keeps in H as [? ?]
         | H : ?g ?b = Some (_, _) |- _ => apply keeps in H as [? ?]
         end; split; simpl in *; congruence.

#[export] Instance get_u_keeps n : Keeps (get_u n).
Proof. unfold get_u. keep. Qed.
#[export] Instance get_s_keeps n : Keeps (get_s n).
Proof. unfold get_s. keep. Qed.
#[export] Instance extractStringView_keeps : Keeps extractStringView.
Proof. unfold extractStringView. keep. Qed.
#[export] Instance getArray_keeps n r : Keeps (getArray n r).
Proof. unfold getArray. keep. Qed.
#[export] Instance get_each_keeps {A} (g : iobuffer → option (A * iobuffer)) k : Keeps g → Keeps (get_each g k).
Proof.
  intros Hg. induction k as [|k IH]; cbn [get_each]; [keep|]. intros b x b' E. simplify_option_eq.
  repeat case_match; simplify_option_eq. repeat case_match; simplify_option_eq.
  match goal with H : g _ = _, H' : get_each _ _ _ = _ |- _ => apply keeps in H as [? ?]; apply IH in H' as [? ?] end.
  split; congruence.
Qed.
#[export] Instance getArray_each_keeps {A} (g : iobuffer → option (A * iobuffer)) r : Keeps g → Keeps (getArray_each g r).
Proof. intros Hg. unfold getArray_each. keep. Qed.
#[export] Instance get_prim_keeps a : Keeps (get_prim a).
Proof. destruct a; unfold get_prim; [keep|apply _]. Qed.
#[export] Instance get_numbers_keeps t r : Keeps (get_numbers t r).
Proof. unfold get_numbers. keep. Qed.
#[export] Instance get_vector_keeps a r : Keeps (get_vector a r).
Proof. destruct a as [[]|]; unfold get_vector; apply _. Qed.
#[export] Instance deserialise_vector_keeps a : Keeps (deserialise_vector a).
Proof. unfold deserialise_vector. keep. Qed.
#[export] Instance deserialise_multi_keeps a n : Keeps (deserialise_multi a n).
Proof. unfold deserialise_multi. keep. Qed.
#[export] Instance deserialise_set_keeps a : Keeps (deserialise_set a).
Proof. unfold deserialise_set. keep. Qed.
#[export] Instance check_column_keeps a n : Keeps (check_column a n).
Proof. unfold check_column. keep. Qed.
#[export] Instance deserialise_map_keeps k v : Keeps (deserialise_map k v).
Proof. unfold deserialise_map. keep. Qed.
#[export] Instance get_leaf_keeps l : Keeps (get_leaf l).
Proof. destruct l; cbn [get_leaf]; [keep..|apply _]. Qed.
#[export] Instance get_meta_string_keeps d : Keeps (get_meta_string d).
Proof. unfold get_meta_string. keep. Qed.
#[export] Instance get_meta_keeps check d : Keeps (get_meta check d).
Proof. unfold get_meta. destruct check; keep. Qed.
#[export] Instance get_header_keeps check f : Keeps (get_header check f).
Proof. unfold get_header. keep. Qed.
#[export] Instance checkHeaderInfo_keeps : Keeps checkHeaderInfo.
Proof. unfold checkHeaderInfo. keep. Qed.

(** ** The class of the object is kept *)

Lemma members_class_insert ms idx m t :
  ms !! idx = Some m → member_class t = member_class m → members_class (<[idx := t]> ms) = members_class ms.
Proof.
  intros Hm Ht. unfold members_class. rewrite list_fmap_insert, Ht. apply list_insert_id. by rewrite list_lookup_fmap, Hm.
Qed.

Section keeps.
Context (check : ProtocolCheck).

(** The steps of a computation that ended well. *)
#[local] Ltac steps :=
  repeat match goal with
         | H : _ ≫= _ = Done _ |- _ => apply outcome_bind_Done in H as (? & ? & ?)
         | H : defined _ = Done _ |- _ => apply defined_Done in H
         | H : Done _ = Done _ |- _ => injection H as ?; subst
         | H : context [match ?p with (_, _) => _ end] |- _ => destruct p
         | H : get_header _ _ _ = Some _ |- _ => apply keeps in H as [? ?]
         | H : get_leaf _ _ = Some _ |- _ => apply keeps in H as [? ?]
         | H : checkHeaderInfo _ = Some _ |- _ => apply keeps in H as [? ?]
         end.

#[local] Ltac same := unfold reading, moveToFieldEndBufferPosition in *; repeat case_match; simpl in *; split; congruence.

Lemma read_leaf_keeps parent idx m l x f i b m' i' b' :
  f_value m = Leaf l x → read_leaf check parent idx m l f i b = Done (m', i', b') →
  member_class m' = member_class m ∧ reading b b'.
Proof using Type.
  intros Hv H. unfold read_leaf in H. destruct (_ && _) eqn:?; steps; [split; [done|same]|].
  destruct b0; steps; [|split; [done|same]]. destruct r; [|done]. steps. split; [|split; congruence].
  unfold member_class. simpl. by rewrite Hv.
Qed.

Lemma finish_field_keeps f i b i' b' : finish_field check f i b = Done (i', b') → reading b b'.
Proof using Type. intros H. unfold finish_field in H. destruct (_ && _); steps; same. Qed.

(** A loop that keeps the classes and the buffer. *)
Definition keeping (r : state → outcome state) : Prop :=
  ∀ ms i b ms' i' b', r (ms, i, b) = Done (ms', i', b') → members_class ms' = members_class ms ∧ reading b b'.

Lemma enter_keeps r name parent : (∀ f, keeping (r f)) → keeping (enter check r name parent).
Proof using Type.
  intros Hr ms i b ms' i' b' H. unfold enter in H. steps.
  match goal with H : r _ _ = Done _ |- _ => apply Hr in H as [? [? ?]] end. split; [done|]. split; simpl in *; congruence.
Qed.

Lemma read_member_keeps r parent prev idx m f i b m' i' b' f' :
  (∀ n fp, keeping (r n fp)) → read_member check r parent prev idx m f i b = Done (m', i', b', f') →
  member_class m' = member_class m ∧ reading b b'.
Proof using Type.
  intros Hr H. unfold read_member in H. destruct (f_value m) as [l x|n ms] eqn:Hv; steps.
  - by eapply read_leaf_keeps.
  - match goal with H : r _ _ _ = Done _ |- _ => apply Hr in H as [Hc [? ?]] end.
    split; [|split; simpl in *; congruence].
    unfold member_class. simpl. rewrite Hv. unfold members_class, member_class in Hc. simpl. by rewrite Hc.
Qed.

Lemma loop_keeps fuel parent f : keeping (loop check fuel parent f).
Proof using Type.
  revert parent f. induction fuel as [|fuel IH]; intros parent f ms i b ms' i' b' H; cbn [loop] in H; [done|].
  destruct (_ <? _); [|destruct (_ && _); steps; done].
  steps. destruct (_ =? _)%Z; steps; [split; [done|same]|].
  destruct (findMemberIndex _ ms) as [idx|]; steps.
  - match goal with H : read_member _ _ _ _ _ _ _ _ _ = _ |- _ =>
      apply read_member_keeps in H as [Hm [? ?]]; [|intros n fp; apply enter_keeps, IH] end.
    match goal with H : finish_field _ _ _ _ = _ |- _ => apply finish_field_keeps in H as [? ?] end.
    match goal with H : loop _ _ _ _ _ = _ |- _ => apply IH in H as [Hc [? ?]] end. split.
    + rewrite Hc. by eapply members_class_insert.
    + split; simpl in *; congruence.
  - match goal with H : loop _ _ _ _ _ = _ |- _ => apply IH in H as [Hc [? ?]] end. split; [done|]. same.
Qed.
End keeps.

(** Whatever bytes are read into an object, its class is kept: the members, with
    their names and annotations, are those it had, every value has the type of
    its member, at every depth; and reading does not change the buffer. *)
Lemma deserialise_keeps_class check fuel name ms i b ms' i' b' :
  deserialise check fuel name ms i b = Done (ms', i', b') →
  members_class ms' = members_class ms ∧ mem b' = mem b ∧ size b' = size b.
Proof.
  unfold deserialise. intros H. apply outcome_bind_Done in H as ([e b1] & H1%defined_Done%keeps & H).
  apply outcome_bind_Done in H as (i1 & _ & H). destruct H1 as [? ?]. destruct (_ && _).
  - injection H as -> -> ->. done.
  - apply enter_keeps in H as [? [? ?]]; [|intros f; apply loop_keeps]. split_and!; congruence.
Qed.

(** ** Reading ends *)

(** The positions [ps] are those of headers.  Each, if it can be read and is
    not an end marker, says that its data starts and ends behind it, and ends
    at one of the positions; so does the start of a field that is named as one
    of the classes [ns]. *)
Definition at_positions (ps : list nat) (z : Z) : bool := bool_decide (Z.to_nat z ∈ ps).

Definition header_at (check : ProtocolCheck) (b : iobuffer) (p : nat) : option field :=
  fst <$> get_header check (mkfield 0 0 0 0 [] no_meta 0 0) (set_position p b).

Definition advances (check : ProtocolCheck) (ns : list bytes) (ps : list nat) (b : iobuffer) (p : nat) : bool :=
  match header_at check b p with
  | Some f =>
      (intDataType f =? END_MARKER_ID)%Z
      || (Z.of_nat p <? dataStartPosition f)%Z && (Z.of_nat p <? dataEndPosition f)%Z
         && negb (dataEndPosition f =? 2 ^ 64 - 1)%Z && at_positions ps (dataEndPosition f)
         && (negb (bool_decide (fieldName f ∈ ns)) || at_positions ps (dataStartPosition f))
  | None => true
  end.

Definition framed (check : ProtocolCheck) (ns : list bytes) (ps : list nat) (b : iobuffer) : bool :=
  forallb (λ p, if size b <=? p then true else advances check ns ps b p) ps.

(** The fields of the outer object start at one of the positions. *)
Definition starts (check : ProtocolCheck) (ps : list nat) (b : iobuffer) : bool :=
  match checkHeaderInfo b with
  | Some (_, b1) => match header_at check b1 (position b1) with
                    | Some f => at_positions ps (dataStartPosition f)
                    | None => true
                    end
  | None => true
  end.

(** The names of the members that are classes, at every depth. *)
Fixpoint class_names (c : content) : list bytes :=
  match c with
  | Leaf _ _ => []
  | Object _ ms =>
      concat ((λ m, match f_value m with Leaf _ _ => [] | Object _ _ => [sanitize (f_name m)] end
                    ++ class_names (f_value m)) <$> ms)
  end.

Definition classes_in (ns : list bytes) (ms : list (member content)) : Prop := class_names (Object [] ms) ⊆ ns.

Lemma framed_reading check ns ps b c : reading b c → framed check ns ps c = framed check ns ps b.
Proof.
  intros [Hm Hs]. unfold framed. rewrite Hs. f_equal. unfold advances, header_at, set_position. by rewrite Hm, Hs.
Qed.

(** What a header says does not depend on the description it is read into. *)
Lemma get_header_positions check f f' b f1 b1 :
  get_header check f b = Some (f1, b1) →
  ∃ f2, get_header check f' b = Some (f2, b1)
        ∧ headerStart f1 = Z.of_nat (position b) ∧ headerStart f2 = headerStart f1
        ∧ dataStartPosition f2 = dataStartPosition f1
        ∧ dataEndPosition f2 = dataEndPosition f1 ∧ fieldName f2 = fieldName f1 ∧ intDataType f2 = intDataType f1.
Proof.
  unfold get_header. intros E.
  do 4 (match type of E with (?m ≫= _) = _ => destruct m as [[? ?]|]; [|done] end; cbn [mbind option_bind] in * ).
  match type of E with (?m ≫= _) = _ => destruct m as [[? ?]|]; [|done] end. cbn [mbind option_bind] in *.
  injection E as <- <-. eexists. split; [reflexivity|]. done.
Qed.

Lemma header_at_header check f b f1 b1 :
  get_header check f b = Some (f1, b1) →
  ∃ f2, header_at check b (position b) = Some f2 ∧ dataStartPosition f2 = dataStartPosition f1
        ∧ dataEndPosition f2 = dataEndPosition f1 ∧ fieldName f2 = fieldName f1 ∧ intDataType f2 = intDataType f1.
Proof.
  intros Hh. destruct (get_header_positions _ _ (mkfield 0 0 0 0 [] no_meta 0 0) _ _ _ Hh) as (f2 & H2 & _ & _ & ?).
  exists f2. unfold header_at. replace (set_position (position b) b) with b by (by destruct b). by rewrite H2.
Qed.

Lemma framed_advances check ns ps b f f1 b1 :
  framed check ns ps b = true → position b ∈ ps → position b < size b → get_header check f b = Some (f1, b1) →
  intDataType f1 ≠ END_MARKER_ID →
  (Z.of_nat (position b) < dataStartPosition f1)%Z ∧ (Z.of_nat (position b) < dataEndPosition f1)%Z
  ∧ dataEndPosition f1 ≠ (2 ^ 64 - 1)%Z ∧ Z.to_nat (dataEndPosition f1) ∈ ps
  ∧ (fieldName f1 ∈ ns → Z.to_nat (dataStartPosition f1) ∈ ps).
Proof.
  intros Hf Hin Hp Hh Hne. unfold framed in Hf. rewrite forallb_forall in Hf.
  specialize (Hf _ (proj1 (list_elem_of_In _ _) Hin)). rewrite (proj2 (Nat.leb_gt _ _)) in Hf by done. unfold advances in Hf.
  destruct (header_at_header _ _ _ _ _ Hh) as (f2 & H2 & E1 & E2 & E3 & E4).
  rewrite H2, E1, E2, E3, E4, (proj2 (Z.eqb_neq _ _)) in Hf by done. unfold at_positions in Hf.
  rewrite !orb_false_l, !andb_true_iff, orb_true_iff, !negb_true_iff, bool_decide_eq_true, bool_decide_eq_false,
    bool_decide_eq_true, Z.eqb_neq, !Z.ltb_lt in Hf. tauto.
Qed.

Lemma classes_in_lookup ns ms idx m n ms' :
  classes_in ns ms → ms !! idx = Some m → f_value m = Object n ms' → sanitize (f_name m) ∈ ns ∧ classes_in ns ms'.
Proof.
  unfold classes_in. intros Hc Hm Hv.
  assert (Hsub : (match f_value m with Leaf _ _ => [] | Object _ _ => [sanitize (f_name m)] end
                  ++ class_names (f_value m)) ⊆ ns).
  { intros x Hx. apply Hc. cbn [class_names]. apply list_elem_of_In, in_concat. eexists. split; [|by apply list_elem_of_In].
    apply list_elem_of_In, list_elem_of_fmap. exists m. split; [done|]. by eapply list_elem_of_lookup_2. }
  rewrite Hv in Hsub. split; [apply Hsub; set_solver|]. intros x Hx. apply Hsub, elem_of_app. right. exact Hx.
Qed.

(** The names depend on the class only. *)
Fixpoint names_of_class (c : class) : list bytes :=
  match c with
  | LeafClass _ => []
  | ObjectClass _ ms =>
      concat ((λ m, match f_value m with LeafClass _ => [] | ObjectClass _ _ => [sanitize (f_name m)] end
                    ++ names_of_class (f_value m)) <$> ms)
  end.

Lemma class_names_class c : class_names c = names_of_class (class_of c).
Proof.
  induction c as [l x|n ms IH] using content_nested_ind; [done|]. cbn [class_names names_of_class class_of].
  rewrite <- list_fmap_compose. f_equal. apply list_fmap_ext. intros i m Hm. rewrite Forall_lookup in IH.
  specialize (IH i m Hm). simpl. rewrite IH. by destruct (f_value m).
Qed.

Lemma classes_in_same ns ms ms' : members_class ms = members_class ms' → classes_in ns ms → classes_in ns ms'.
Proof.
  intros E. unfold classes_in. rewrite !class_names_class. cbn [class_of].
  unfold members_class, member_class in E. by rewrite E.
Qed.

Section termination.
Context (check : ProtocolCheck).

Lemma report_ends e i : ends (report check e i).
Proof using Type. unfold report, handleDeserialisationError. destruct check; auto with ends. Qed.
Hint Resolve report_ends : ends.

Lemma handle_ends e i : ends (handleDeserialisationError check e i).
Proof using Type. unfold handleDeserialisationError. destruct check; auto with ends. Qed.
Hint Resolve handle_ends : ends.

Lemma report_if_ends p e i : ends (report_if check p e i).
Proof using Type. unfold report_if. destruct p; auto with ends. Qed.
Hint Resolve report_if_ends : ends.

Lemma set_field_ends parent idx i : ends (set_field check parent idx i).
Proof using Type. unfold set_field. destruct check; ends_tac. Qed.
Hint Resolve set_field_ends : ends.

Lemma check_annotation_ends a name got i : ends (check_annotation check a name got i).
Proof using Type. unfold check_annotation. ends_tac. Qed.
Hint Resolve check_annotation_ends : ends.

Lemma read_leaf_ends parent idx m l f i b : ends (read_leaf check parent idx m l f i b).
Proof using Type. unfold read_leaf. ends_tac. Qed.
Hint Resolve read_leaf_ends : ends.

Lemma finish_field_ends f i b : ends (finish_field check f i b).
Proof using Type. unfold finish_field. ends_tac. Qed.
Hint Resolve finish_field_ends : ends.

Lemma read_member_ends r parent prev idx m f i b :
  (∀ n fp ms, f_value m = Object n ms → ends (r n fp (ms, i, set_position (Z.to_nat (headerStart f)) b))) →
  ends (read_member check r parent prev idx m f i b).
Proof using Type. intros Hr. unfold read_member. destruct (f_value m); ends_tac. Qed.

Lemma read_member_end r parent prev idx m f i b m' i' b' f' :
  read_member check r parent prev idx m f i b = Done (m', i', b', f') → dataEndPosition f' = dataEndPosition f.
Proof using Type.
  unfold read_member. destruct (f_value m) as [l x|n ms]; intros H; apply outcome_bind_Done in H as ([[??]?] & _ & H).
  - by injection H as <- <- <- <-.
  - apply outcome_bind_Done in H as (? & _ & H). by injection H as <- <- <- <-.
Qed.

Lemma finish_field_position f i b i' b' :
  dataEndPosition f ≠ (2 ^ 64 - 1)%Z → finish_field check f i b = Done (i', b') →
  position b' = Z.to_nat (dataEndPosition f).
Proof using Type.
  intros He. unfold finish_field, moveToFieldEndBufferPosition. rewrite (proj2 (Z.eqb_neq _ _)) by done. cbn [negb andb].
  destruct (Z.eqb_spec (dataEndPosition f) (Z.of_nat (position b))) as [->|_]; cbn [negb]; intros H.
  - injection H as <- <-. by rewrite Nat2Z.id.
  - apply outcome_bind_Done in H as (? & _ & H). by injection H as <- <-.
Qed.

Lemma enter_ends r name parent ms i b :
  (∀ f f1 b1 i1, get_header check f b = Some (f1, b1) →
     ends (r f1 (ms, i1, set_position (Z.to_nat (dataStartPosition f1)) b1))) →
  ends (enter check r name parent (ms, i, b)).
Proof using Type.
  intros Hr. unfold enter. apply ends_bind; [auto with ends|]. intros [f1 b1] H1%defined_Done.
  apply ends_bind; [apply report_if_ends|]. intros i1 _. by eapply Hr.
Qed.

Lemma loop_ends b0 ns ps fuel parent f ms i b :
  framed check ns ps b0 = true → reading b0 b → position b ∈ ps → classes_in ns ms → size b - position b < fuel →
  ends (loop check fuel parent f (ms, i, b)).
Proof using Type.
  intros Hf. revert parent f ms i b. induction fuel as [|fuel IH]; intros parent f ms i b Hb Hin Hns Hfuel; [lia|].
  cbn [loop]. destruct (Nat.ltb_spec (position b) (size b)) as [Hp|Hp]; [|by ends_tac].
  apply ends_bind; [auto with ends|]. intros [f1 b1] H1%defined_Done.
  destruct (Z.eqb_spec (intDataType f1) END_MARKER_ID) as [_|Hne]; [done|].
  pose proof (eq_trans (framed_reading _ _ _ _ _ Hb) Hf) as Hfb.
  destruct (framed_advances _ _ _ _ _ _ _ Hfb Hin Hp H1 Hne) as (Hs & He & Hmax & Hend & Hstart).
  pose proof (keeps _ _ _ H1) as [Hm1 Hs1].
  assert (Hnext : ∀ c ms', reading b c → position c = Z.to_nat (dataEndPosition f1) → members_class ms = members_class ms' →
                  ∀ p g i', ends (loop check fuel p g (ms', i', c))).
  { intros c ms' [? E] Hpc Hcl p g i'. apply IH; [destruct Hb; split; congruence|by rewrite Hpc|
      by eapply classes_in_same|rewrite Hpc; lia]. }
  destruct (findMemberIndex _ ms) as [idx|] eqn:Hfind.
  - destruct (findMemberIndex_lookup _ _ _ Hfind) as (m & Hm & Hname). rewrite Hm. cbn [defined mbind outcome_bind].
    set (b2 := set_position _ b1). apply ends_bind.
    + apply read_member_ends. intros n fp ms' Hv. destruct (classes_in_lookup _ _ _ _ _ _ Hns Hm Hv) as [Hin_ns Hns'].
      rewrite Hname in Hin_ns. apply enter_ends. intros f' f3 b3 i1 H3.
      destruct (get_header_positions _ _ f' _ _ _ H1) as (f3' & H3' & Hh & _ & E3 & _).
      replace (set_position (Z.to_nat (headerStart f1)) b2) with b in H3
        by (rewrite Hh, Nat2Z.id; unfold b2, set_position; simpl; destruct b; simpl in *; congruence).
      rewrite H3 in H3'. injection H3' as <-. apply keeps in H3 as [? ?]. rewrite E3.
      apply IH; [destruct Hb; split; simpl; congruence|by apply Hstart|done|simpl in *; lia].
    + intros [[[m' i1] b3] f2] Hr. pose proof (read_member_end _ _ _ _ _ _ _ _ _ _ _ _ Hr) as He2.
      apply read_member_keeps in Hr as [Hmc [Hm3 Hs3]]; [|intros n fp; apply enter_keeps, loop_keeps].
      apply ends_bind; [apply finish_field_ends|]. intros [i2 b4] H4.
      pose proof (finish_field_position _ _ _ _ _ ltac:(by rewrite He2) H4) as Hp4. rewrite He2 in Hp4.
      apply finish_field_keeps in H4 as [Hm4 Hs4].
      apply Hnext; [split; simpl in *; congruence|done|]. symmetry. by eapply members_class_insert.
  - apply ends_bind; [apply report_ends|]. intros i1 _. unfold moveToFieldEndBufferPosition.
    rewrite (proj2 (Z.eqb_neq _ _)) by done. by apply Hnext.
Qed.
End termination.

(** C29: Reading ends, whatever is in the buffer, if the headers the reader can come
    to point forward: the reading loop takes at most one turn for each byte, at every
    depth.  It ends with a result, with an exception, or at a read that the language
    leaves undefined: the theorem says that the reader does not go on for ever, not
    that it stays inside the memory. *)
Theorem deserialise_terminates check ns ps fuel name ms i b :
  framed check ns ps b = true → starts check ps b = true → classes_in ns ms → size b < fuel →
  deserialise check fuel name ms i b ≠ OutOfFuel.
Proof.
  intros Hf Hs Hns Hfuel. change (ends (deserialise check fuel name ms i b)). unfold deserialise.
  apply ends_bind; [auto with ends|]. intros [e b1] H1%defined_Done. unfold starts in Hs. rewrite H1 in Hs.
  apply keeps in H1 as [? ?].
  apply ends_bind; [destruct e; [apply report_ends|done]|]. intros i1 _. destruct (_ && _); [done|].
  apply enter_ends. intros f f1 b2 i2 H2. destruct (header_at_header _ _ _ _ _ H2) as (f2 & E & Es & _).
  rewrite E, Es in Hs. apply bool_decide_eq_true in Hs. apply keeps in H2 as [? ?].
  eapply (loop_ends check b ns ps); [done|split; simpl; congruence|done|done|simpl; lia].
Qed.

(** One field without data that points at itself, and is not a member, is
    skipped again and again. *)
Theorem stuck_field_never_ends check fuel parent f ms i b f1 b1 :
  check ≠ ALWAYS → position b < size b → get_header check f b = Some (f1, b1) →
  intDataType f1 ≠ END_MARKER_ID → findMemberIndex (fieldName f1) ms = None →
  dataEndPosition f1 = Z.of_nat (position b) → (Z.of_nat (position b) < 2 ^ 64 - 1)%Z →
  loop check fuel parent f (ms, i, b) = OutOfFuel.
Proof.
  intros Hc Hp Hh Hne Hfind He Hmax. revert f i f1 b1 Hh Hne Hfind He.
  induction fuel as [|fuel IH]; intros f i f1 b1 Hh Hne Hfind He; [done|].
  cbn [loop]. rewrite (proj2 (Nat.ltb_lt _ _)) by done. rewrite Hh. cbn [defined mbind outcome_bind].
  rewrite (proj2 (Z.eqb_neq _ _)) by done. rewrite Hfind.
  assert (Hrep : ∃ i1, report check (MissingField parent (fieldName f1)) i = Done i1)
    by (unfold report, handleDeserialisationError; destruct check; [by eexists..|done]).
  destruct Hrep as [i1 ->]. cbn [mbind outcome_bind]. unfold moveToFieldEndBufferPosition.
  rewrite (proj2 (Z.eqb_neq _ _)) by lia. rewrite He, Nat2Z.id. pose proof (keeps _ _ _ Hh) as [? ?].
  match goal with |- loop _ _ _ _ (_, _, ?c) = _ => assert (Hb : c = b) by (unfold set_position; destruct b; simpl in *; congruence) end.
  rewrite Hb. destruct (get_header_positions _ _ f1 _ _ _ Hh) as (f2 & H2 & _ & _ & _ & E1 & E2 & E3).
  eapply IH; [exact H2|by rewrite E3|by rewrite E2|by rewrite E1].
Qed.

(** *** Examples *)

(** The object of the examples as it was written. *)
Definition written_example : iobuffer :=
  default (new_buffer "?"%char 0)
    (serialise "?"%char example_walks (λ _, 8) true (str "Outer") (outer_members 7 [1; (-2); 3]%Z (2 ^ 63) (str "abc"))
       (new_buffer "?"%char 4)).

(** A message with one field, of size 0 and with its data at its own start. *)
Definition stuck_message : bytes :=
  enc_info ++ enc_header START_MARKER_ID (str "A") None 16
  ++ le_bytes 1 4 ++ le_bytes 4 0 ++ le_bytes 4 0 ++ enc_string (str "zz").

Definition stuck_buffer : iobuffer := mkbuf stuck_message 0 (length stuck_message).

Lemma deserialise_keeps_class_example :
  let ms := outer_members 0 [] 0 [] in
  let b := mkbuf (IoBuffer.content written_example) 0 200 in
  ∃ ms' i' b', deserialise LENIENT 20 (str "Outer") ms no_info b = Done (ms', i', b')
    ∧ ms' ≠ ms ∧ members_class ms' = members_class ms.
Proof.
  intros ms b. destruct (deserialise LENIENT 20 (str "Outer") ms no_info b) as [[[ms' i'] b']| | |] eqn:E;
    [|exfalso; revert E; vm_compute; discriminate..].
  exists ms', i', b'. split_and!; [done| |by apply (deserialise_keeps_class _ _ _ _ _ _ _ _ _ E)].
  intros ->. apply (f_equal (λ o, match o with Done (mkmember _ _ _ _ (Leaf (Prim (Number _)) x) :: _, _, _) => x | _ => 0%Z end)) in E.
  revert E. vm_compute. discriminate.
Defined.

Lemma deserialise_terminates_witness :
  deserialise LENIENT 239 (str "Outer") (outer_members 0 [] 0 []) no_info written_example ≠ OutOfFuel.
Proof.
  apply (deserialise_terminates LENIENT [str "inner"] [34; 57; 180; 219; 76; 134; 161; 238]).
  - vm_compute. reflexivity.
  - vm_compute. reflexivity.
  - intros x Hx. exact Hx.
  - vm_compute. lia.
Defined.

Lemma stuck_field_never_ends_witness :
  ∀ fuel, deserialise IGNORE fuel (str "A") (inner_members 0 []) no_info stuck_buffer = OutOfFuel.
Proof.
  intros fuel. unfold deserialise.
  replace (checkHeaderInfo stuck_buffer) with (Some (@None header_error, set_position 15 stuck_buffer))
    by (vm_compute; reflexivity).
  cbn [defined mbind outcome_bind]. rewrite (bool_decide_eq_false_2 (IGNORE = LENIENT)) by done. cbn [andb]. unfold enter.
  replace (get_header IGNORE _ (set_position 15 stuck_buffer))
    with (Some (mkfield 15 30 46 (-1) (str "A") no_meta 0 0, set_position 30 stuck_buffer)) by (vm_compute; reflexivity).
  cbn [defined mbind outcome_bind report_if]. unfold report_if, report. destruct (_ && _); cbn [mbind outcome_bind];
    (apply (stuck_field_never_ends IGNORE fuel ROOT_NAME _ _ _ _ (mkfield 30 30 30 (-1) (str "zz") no_meta 4 0)
              (set_position 46 stuck_buffer)); [done|vm_compute; lia|vm_compute; reflexivity|done|done|done|vm_compute; done]).
Defined.

(** The record of the set fields is found by the name of the member alone: a
    class in a member [d] whose only member is a class, also called [d], with
    more members, shares its record of one bit with it, and the bit of the
    second member of the inner class is outside.  Without the check the object
    is read. *)
Definition shared_members (x y : Z) : list (member content) :=
  [mkmember (str "d") None false false (Object (str "D")
     [mkmember (str "d") None false false (Object (str "E")
        [mkmember (str "x") None false false (Leaf (Prim (Number Int32)) x);
         mkmember (str "y") None false false (Leaf (Prim (Number Int32)) y)])])].

Lemma shared_record_undefined :
  match serialise "?"%char example_walks (λ _, 4) true (str "S") (shared_members 1 2) (new_buffer "?"%char 0) with
  | Some b => deserialise LENIENT 20 (str "S") (shared_members 0 0) no_info b = Undefined
              ∧ deserialise IGNORE 20 (str "S") (shared_members 0 0) no_info b
                = Done (shared_members 1 2, no_info, set_position (size b) b)
  | None => False
  end.
Proof. vm_compute. split; reflexivity. Qed.

(** A pointer to an annotated value is written without its unit and quantity,
    but they are checked when it is read: it is refused. *)
Lemma pointer_annotation_refused :
  let ms x := [mkmember (str "gain") (Some (mkmeta (str "V") (str "voltage") [] RW)) true false (Leaf (Prim (Number Double)) x)] in
  match serialise "?"%char example_walks (λ _, 8) true (str "S") (ms 7%Z) (new_buffer "?"%char 0) with
  | Some b => match deserialise LENIENT 20 (str "S") (ms 0%Z) no_info b with
              | Done (ms', i, _) => ms' = ms 0%Z ∧ exceptions i = [MismatchedUnit (str "gain")]
              | _ => False
              end
  | None => False
  end.
Proof. vm_compute. split; reflexivity. Qed.
