(* ===== verification/Worker.v ===== *)
(** * Worker: [BasicWorker] of [majordomo/Worker.hpp]

    The worker's side of the protocol: its connection to the broker, the run
    loop with its heartbeats, requests with their access control, subscriptions
    and notifications.  The sockets are what is received on them and a log of
    what happened on each connection; that a message is sent is taken for
    granted.  Of the handler of the application only its result is known. *)

From S2P Require Import Prelude Rbac Uri Topic Message Matching Service Subscriptions.
Local Open Scope Z_scope.

Abbreviation WorkerMessage := (message WithoutSourceId).

(** What happened: on the connection number [k], and in the application. *)
Inductive entry : Type :=
  | Recv (k : nat) (m : WorkerMessage)
  | Sent (k : nat) (m : WorkerMessage)
  | Invoked (m : WorkerMessage).

Record worker : Type := mkworker {
  shutdownRequested : bool;
  liveness : Z;
  heartbeatAt : Z;
  workerSocket : option nat;            (* the number of the connection *)
  pubSocket : option nat;
  connections : nat;
  activeSubscriptions : gset Topic.t;
  notificationHandlers : gmap nat Z;    (* thread -> last use *)
  w_clock : nat;                        (* readings of the clock so far *)
  w_log : list entry
}.

Definition new_worker : worker := mkworker false 0 0 None None 0 ∅ ∅ 0 [].

Definition set_shutdown (w : worker) : worker :=
  mkworker true (liveness w) (heartbeatAt w) (workerSocket w) (pubSocket w) (connections w) (activeSubscriptions w)
    (notificationHandlers w) (w_clock w) (w_log w).
Definition set_liveness (l : Z) (w : worker) : worker :=
  mkworker (shutdownRequested w) l (heartbeatAt w) (workerSocket w) (pubSocket w) (connections w)
    (activeSubscriptions w) (notificationHandlers w) (w_clock w) (w_log w).
Definition set_heartbeatAt (t : Z) (w : worker) : worker :=
  mkworker (shutdownRequested w) (liveness w) t (workerSocket w) (pubSocket w) (connections w)
    (activeSubscriptions w) (notificationHandlers w) (w_clock w) (w_log w).
Definition set_sockets (d p : option nat) (w : worker) : worker :=
  mkworker (shutdownRequested w) (liveness w) (heartbeatAt w) d p (connections w) (activeSubscriptions w)
    (notificationHandlers w) (w_clock w) (w_log w).
(** [_workerSocket.emplace]: the number of connections so far. *)
Definition open_socket (w : worker) : worker :=
  mkworker (shutdownRequested w) (liveness w) (heartbeatAt w) (Some (connections w)) None (S (connections w))
    (activeSubscriptions w) (notificationHandlers w) (w_clock w) (w_log w).
Definition set_subscriptions (s : gset Topic.t) (w : worker) : worker :=
  mkworker (shutdownRequested w) (liveness w) (heartbeatAt w) (workerSocket w) (pubSocket w) (connections w) s
    (notificationHandlers w) (w_clock w) (w_log w).
Definition set_handlers (h : gmap nat Z) (w : worker) : worker :=
  mkworker (shutdownRequested w) (liveness w) (heartbeatAt w) (workerSocket w) (pubSocket w) (connections w)
    (activeSubscriptions w) h (w_clock w) (w_log w).
Definition tick (w : worker) : worker :=
  mkworker (shutdownRequested w) (liveness w) (heartbeatAt w) (workerSocket w) (pubSocket w) (connections w)
    (activeSubscriptions w) (notificationHandlers w) (S (w_clock w)) (w_log w).
Definition add_log (l : list entry) (w : worker) : worker :=
  mkworker (shutdownRequested w) (liveness w) (heartbeatAt w) (workerSocket w) (pubSocket w) (connections w)
    (activeSubscriptions w) (notificationHandlers w) (w_clock w) (w_log w ++ l).

(** ** The monad of the operations

    [Undefined]: an empty [std::optional] is used; [Aborted]: an assertion
    fails. *)
Inductive ending (A : Type) : Type := Val (a : A) | Exn (e : exn) | Undefined | Aborted.
Arguments Val {A}.
Arguments Exn {A}.
Arguments Undefined {A}.
Arguments Aborted {A}.

Definition M (A : Type) : Type := worker → ending A * worker.

#[export] Instance M_ret : MRet M := λ A a w, (Val a, w).
#[export] Instance M_bind : MBind M := λ A B k m w,
  match m w with
  | (Val a, w') => k a w'
  | (Exn e, w') => (Exn e, w')
  | (Undefined, w') => (Undefined, w')
  | (Aborted, w') => (Aborted, w')
  end.

Definition gets {A} (g : worker → A) : M A := λ w, (Val (g w), w).
Definition modify (g : worker → worker) : M () := λ w, (Val (), g w).
Definition lift {A} (r : result A) : M A := λ w, (match r with Ok a => Val a | Throw e => Exn e end, w).
Definition undefined {A} : M A := λ w, (Undefined, w).
Definition aborted {A} : M A := λ w, (Aborted, w).

(** [*socket] *)
Definition deref (g : worker → option nat) : M nat :=
  s ← gets g; match s with Some k => mret k | None => undefined end.

(** How the application's handler ends: the reply as it left it, or an
    exception, with its text if it is a [std::exception]. *)
Inductive handled : Type := Replied (m : WorkerMessage) | Threw (what : bytes) | ThrewOther.

(** What surrounds a worker: its type's parameters, its settings, the
    application, the clock by number of reading, and whether the two
    [zmq_connect] of a connection succeed. *)
Record environment : Type := mkenv {
  name : bytes;
  serviceDescription : bytes;
  roles : list Role;
  rbacPredicate : option (bytes → bool);
  handler : worker → WorkerMessage → WorkerMessage → handled;
  subscriptionMatcher : matcher;
  heartbeatInterval : Z;
  heartbeatLiveness : Z;
  clock : nat → Z;
  connects : nat → bool * bool;
  uninit_id : Z;
  uninit : Z
}.

Section worker.
Context (E : environment).

Definition now : M Z := λ w, (Val (clock E (w_clock w)), tick w).

Definition defaultRbacToken : bytes := str "RBAC=NONE,".

(** ** Messages *)

Definition createMessage (c : Command) : WorkerMessage :=
  @mkmsg WithoutSourceId tt (uninit_id E) 0 default_timeout workerProtocol c (name E) [] root_topic [] [] defaultRbacToken.

Definition with_data (d : bytes) (m : WorkerMessage) : WorkerMessage :=
  @mkmsg WithoutSourceId tt (id m) (arrivalTime m) (timeout m) (protocolName m) (command m) (serviceName m)
    (clientRequestID m) (topic m) d (error m) (rbac m).

Definition with_error (e : bytes) (m : WorkerMessage) : WorkerMessage :=
  @mkmsg WithoutSourceId tt (id m) (arrivalTime m) (timeout m) (protocolName m) (command m) (serviceName m)
    (clientRequestID m) (topic m) (data m) e (rbac m).

Definition replyFromRequest (request : WorkerMessage) : WorkerMessage :=
  @mkmsg WithoutSourceId tt (uninit_id E) 0 default_timeout (protocolName request) Final (serviceName request)
    (clientRequestID request) (topic request) [] [] (rbac request).

(** [zmq::send(message, *_workerSocket).assertSuccess()] *)
Definition send (m : WorkerMessage) : M () :=
  k ← deref workerSocket; modify (add_log [Sent k m]).

(** ** Requests *)

Definition permissionByRole (r : bytes) : option Permission :=
  snd <$> find (λ p, bool_decide (p.1 = r)) ((λ r, (Rbac.name r, rights r)) <$> roles E).

(** [_permissionsByRole.data.back().second] *)
Definition defaultPermission : Permission := default NONE (rights <$> last (roles E)).

Definition permission (request : WorkerMessage) : Permission :=
  default defaultPermission (permissionByRole (Rbac.role (rbac request))).

Definition processRequest (request : WorkerMessage) : M WorkerMessage :=
  let clientRole := Rbac.role (rbac request) in
  let p := permission request in
  if match rbacPredicate E with Some pred => negb (pred (rbac request)) | None => false end then
    mret (with_error (str "request rejected by RBAC handler") (replyFromRequest request))
  else if bool_decide (command request = Get) && negb (bool_decide (p = RW) || bool_decide (p = RO)) then
    mret (with_error (str "GET access denied to role '" ++ clientRole ++ str "'") (replyFromRequest request))
  else if bool_decide (command request = Set_) && negb (bool_decide (p = RW) || bool_decide (p = WO)) then
    mret (with_error (str "SET access denied to role '" ++ clientRole ++ str "'") (replyFromRequest request))
  else
    w ← gets (λ w, w);
    modify (add_log [Invoked request]) ;;
    match handler E w request (replyFromRequest request) with
    | Replied reply => mret reply
    | Threw what =>
        mret (with_error (str "Caught exception for service '" ++ name E ++ str "'" ++ [chr 10]
                          ++ str "request message: " ++ data request ++ [chr 10] ++ str "exception: " ++ what)
                (replyFromRequest request))
    | ThrewOther =>
        mret (with_error (str "Caught unexpected exception for service '" ++ name E ++ str "'" ++ [chr 10]
                          ++ str "request message: " ++ data request) (replyFromRequest request))
    end.

(** ** The connection *)

(** A connection that fails leaves what was opened before: the first failure
    the worker's socket, the second the one for subscriptions. *)
Definition connectToBroker : M bool :=
  k ← gets connections;
  modify open_socket ;;
  let '(router, sub) := connects E k in
  if negb router then mret false
  else
    modify (set_sockets (Some k) (Some k)) ;;
    if negb sub then modify (set_sockets None (Some k)) ;; mret false
    else
      send (with_data (serviceDescription E) (createMessage Ready)) ;;
      modify (set_liveness (heartbeatLiveness E)) ;;
      t ← now;
      modify (set_heartbeatAt (t + heartbeatInterval E)) ;;
      mret true.

Definition disconnect : M () :=
  send (createMessage Disconnect) ;;
  modify (set_sockets None None).

(** ** What is received *)

Definition handleDealerMessage (m : WorkerMessage) : M () :=
  modify (set_liveness (heartbeatLiveness E)) ;;
  if bool_decide (protocolName m = workerProtocol) then
    match command m with
    | Get | Set_ => reply ← processRequest m; send reply
    | Heartbeat => mret ()
    | Disconnect =>
        if bool_decide (data m = str "broker shutdown") then modify set_shutdown
        else _ ← connectToBroker; mret ()
    | _ => aborted
    end
  else aborted.

(** Nothing arrives on a socket that is not connected. *)
Definition receiveDealerMessage (r : result (option WorkerMessage)) : M bool :=
  k ← deref workerSocket;
  o ← lift (if (connects E k).1 then r else Ok None);
  match o with
  | Some m => modify (add_log [Recv k m]) ;; handleDealerMessage m ;; mret true
  | None => mret false
  end.

Definition receiveSubscriptionMessage (frame : option bytes) : M bool :=
  _ ← deref pubSocket;
  match frame with
  | None => mret false
  | Some (c :: ((_ :: _) as topicString)) =>
      if negb (eqc c (chr 0) || eqc c (chr 1)) then mret true
      else
        match fromZmqTopic (uninit E) topicString with
        | Throw _ => mret false
        | Ok subscription =>
            if negb (bool_decide (_service subscription = name E)) then mret true
            else
              s ← gets activeSubscriptions;
              modify (set_subscriptions (if eqc c (chr 1) then s ∪ {[subscription]} else s ∖ {[subscription]})) ;;
              mret true
        end
  | Some _ => mret true
  end.

Definition receiveNotificationMessage (r : result (option WorkerMessage)) : M bool :=
  o ← lift r;
  match o with
  | None => mret false
  | Some m =>
      currentSubscription ← lift (fromMdpTopic (uninit E) STRICT (topic m));
      w ← gets (λ w, w);
      (if bool_decide (is_Some (workerSocket w))
          && existsb (match_topics (subscriptionMatcher E) currentSubscription) (elements (activeSubscriptions w))
       then send m else mret ()) ;;
      mret true
  end.

(** ** Notifications of the application *)

Definition notification (m : WorkerMessage) : WorkerMessage :=
  @mkmsg WithoutSourceId tt (id m) (arrivalTime m) (timeout m) workerProtocol Notify (name E) (clientRequestID m)
    (topic m) (data m) (error m) defaultRbacToken.

(** The socket of the thread, made if there is none; then it is used, without
    the lock. *)
Definition notificationHandlerForThisThread (thread : nat) (w : worker) : worker :=
  match notificationHandlers w !! thread with
  | Some _ => w
  | None => set_handlers (<[thread := 0]> (notificationHandlers w)) w
  end.

Definition notification_send (thread : nat) (m : WorkerMessage) : M WorkerMessage :=
  t ← now;
  h ← gets notificationHandlers;
  match h !! thread with
  | None => undefined
  | Some _ => modify (set_handlers (<[thread := t]> h)) ;; mret m
  end.

Definition notify (thread : nat) (m : WorkerMessage) : M WorkerMessage :=
  modify (notificationHandlerForThisThread thread) ;;
  notification_send thread (notification m).

Definition cleanupNotificationHandlers : M () :=
  t ← now;
  modify (λ w, set_handlers (filter (λ x, ¬ x.2 < t - 30000) (notificationHandlers w)) w).

(** ** The run loop *)

(** What one turn finds on the sockets. *)
Record arrivals : Type := mkarrivals {
  on_dealer : result (option WorkerMessage);
  on_pub : option bytes;
  on_notify : result (option WorkerMessage)
}.

Definition turn (x : arrivals) : M bool :=
  a1 ← receiveDealerMessage (on_dealer x);
  a2 ← receiveSubscriptionMessage (on_pub x);
  a3 ← receiveNotificationMessage (on_notify x);
  mret (a1 || a2 || a3).

(** Turns until one receives nothing. *)
Fixpoint turns (xs : list arrivals) : M () :=
  match xs with
  | [] => mret ()
  | x :: xs' => anythingReceived ← turn x; if anythingReceived : bool then turns xs' else mret ()
  end.

(** After the messages: [false] if the broker cannot be reached again. *)
Definition maintain : M bool :=
  t ← now;
  h ← gets heartbeatAt;
  go ← (if h <? t then
          modify (λ w, set_liveness (liveness w - 1) w) ;;
          l ← gets liveness;
          if l =? 0 then connectToBroker else mret true
        else mret true);
  if negb go then mret false
  else
    t' ← now;
    h' ← gets heartbeatAt;
    (if h' <? t' then
       send (createMessage Heartbeat) ;;
       t'' ← now;
       modify (set_heartbeatAt (t'' + heartbeatInterval E)) ;;
       cleanupNotificationHandlers
     else mret ()) ;;
    mret true.

(** A pass: what arrives during it, and whether the poll after it is valid. *)
Fixpoint passes (ps : list (list arrivals * bool)) : M () :=
  match ps with
  | [] => mret ()
  | (xs, polled) :: ps' =>
      turns xs ;;
      go ← maintain;
      if negb go then mret ()
      else
        s ← gets shutdownRequested;
        if negb s && polled then passes ps' else disconnect
  end.

Definition run (ps : list (list arrivals * bool)) : M () :=
  connected ← connectToBroker;
  if negb connected then mret () else passes ps.
End worker.

(** ** The protocol of one connection

    The worker's messages on a connection, as its peer sees them: it announces
    itself first and once, answers each request at once, and is silent after
    it has taken its leave. *)

Inductive dialog_event : Type := Said (m : WorkerMessage) | Heard (m : WorkerMessage).

Inductive phase : Type := Connecting | Serving | Owing (request : WorkerMessage) | Left.

Definition answers (request reply : WorkerMessage) : Prop :=
  protocolName reply = protocolName request ∧ command reply = Final
  ∧ serviceName reply = serviceName request ∧ clientRequestID reply = clientRequestID request.

#[export] Instance answers_dec request reply : Decision (answers request reply).
Proof. unfold answers. apply _. Defined.

Definition is_request (m : WorkerMessage) : bool :=
  bool_decide (protocolName m = workerProtocol) && (bool_decide (command m = Get) || bool_decide (command m = Set_)).

(** [n] is the service of the worker. *)
Section dialog.
Context (n : bytes).

Definition own (m : WorkerMessage) : Prop := protocolName m = workerProtocol ∧ serviceName m = n.

Inductive dialog_step : phase → dialog_event → phase → Prop :=
  | dialog_ready m : command m = Ready → own m → dialog_step Connecting (Said m) Serving
  | dialog_request m : is_request m = true → dialog_step Serving (Heard m) (Owing m)
  | dialog_heard m : is_request m = false → dialog_step Serving (Heard m) Serving
  | dialog_answer m r : answers m r → dialog_step (Owing m) (Said r) Serving
  | dialog_spontaneous m : command m = Heartbeat ∨ command m = Notify → own m → dialog_step Serving (Said m) Serving
  | dialog_leave m : command m = Disconnect → own m → dialog_step Serving (Said m) Left.

Inductive dialog : phase → list dialog_event → phase → Prop :=
  | dialog_nil p : dialog p [] p
  | dialog_snoc p es q e r : dialog p es q → dialog_step q e r → dialog p (es ++ [e]) r.

(** What happened on the connection [k]. *)
Definition heard_said (k : nat) (x : entry) : list dialog_event :=
  match x with
  | Recv k' m => if decide (k' = k) then [Heard m] else []
  | Sent k' m => if decide (k' = k) then [Said m] else []
  | Invoked _ => []
  end.

Definition on_connection (k : nat) (l : list entry) : list dialog_event := concat (heard_said k <$> l).

Lemma on_connection_app k l l' : on_connection k (l ++ l') = on_connection k l ++ on_connection k l'.
Proof. unfold on_connection. by rewrite fmap_app, concat_app. Qed.

Lemma on_connection_cons k x l : on_connection k (x :: l) = heard_said k x ++ on_connection k l.
Proof. done. Qed.

(** The connection [k] is in phase [p]. *)
Definition in_phase (k : nat) (p : phase) (w : worker) : Prop := dialog Connecting (on_connection k (w_log w)) p.

(** Every connection that was made is in a phase; only the present one is in
    use. *)
Record orderly (w : worker) : Prop := mkorderly {
  or_future k : (connections w ≤ k)%nat → on_connection k (w_log w) = [];
  or_past k : ∃ p, in_phase k p w ∧ ∀ m, p ≠ Owing m;
  or_present k : workerSocket w = Some k → (k < connections w)%nat
}.

(** The present connection serves, if both sockets are there. *)
Definition serving (w : worker) : Prop :=
  ∀ k, workerSocket w = Some k → is_Some (pubSocket w) → in_phase k Serving w.

Definition good (w : worker) : Prop := orderly w ∧ serving w.

(** The socket for subscriptions is there if the other one is. *)
Definition steady (w : worker) : Prop := good w ∧ (is_Some (workerSocket w) → is_Some (pubSocket w)).

(** [P] before; [Q] after, or an ending that leaves the connections orderly. *)
Definition triple {A} (P : worker → Prop) (m : M A) (Q : A → worker → Prop) : Prop :=
  ∀ w, P w → match m w with (Val a, w') => Q a w' | (_, w') => orderly w' end.

Lemma triple_bind {A B} P (m : M A) Q (f : A → M B) R :
  triple P m Q → (∀ a, triple (Q a) (f a) R) → triple P (m ≫= f) R.
Proof.
  intros Hm Hf w Hw. unfold mbind, M_bind. specialize (Hm w Hw). destruct (m w) as [[a|e| |] w']; [|done..]. by apply Hf.
Qed.

Lemma triple_ret {A} (Q : A → worker → Prop) a : triple (Q a) (mret a) Q.
Proof. by intros w. Qed.

Lemma triple_weaken {A} (P P' : worker → Prop) (m : M A) (Q Q' : A → worker → Prop) :
  triple P m Q → (∀ w, P' w → P w) → (∀ a w, Q a w → Q' a w) → triple P' m Q'.
Proof.
  intros Hm HP HQ w Hw. specialize (Hm w (HP w Hw)). destruct (m w) as [[a|e| |] w']; [|done..]. by apply HQ.
Qed.

Lemma triple_modify (P : worker → Prop) (Q : () → worker → Prop) g :
  (∀ w, P w → Q () (g w)) → triple P (modify g) Q.
Proof. intros H w Hw. by apply H. Qed.

Lemma triple_deref {A} (P : worker → Prop) g (f : nat → M A) Q :
  (∀ w, P w → orderly w) → (∀ k, triple (λ w, P w ∧ g w = Some k) (f k) Q) → triple P (deref g ≫= f) Q.
Proof.
  intros HP Hf w Hw. unfold deref, mbind, M_bind, gets. destruct (g w) as [k|] eqn:Hk; [by apply (Hf k)|by apply HP].
Qed.

Lemma triple_lift {A B} (P : worker → Prop) (r : result A) (f : A → M B) Q :
  (∀ w, P w → orderly w) → (∀ a, r = Ok a → triple P (f a) Q) → triple P (lift r ≫= f) Q.
Proof.
  intros HP Hf w Hw. unfold lift, mbind, M_bind. destruct r as [a|e]; [by apply (Hf a)|by apply HP].
Qed.

(** What is not part of the connections. *)
Definition same_connections (w w' : worker) : Prop :=
  w_log w' = w_log w ∧ connections w' = connections w ∧ workerSocket w' = workerSocket w ∧ pubSocket w' = pubSocket w.

Lemma orderly_same w w' : same_connections w w' → orderly w → orderly w'.
Proof.
  intros (Hl & Hc & Hs & _) [F P Pr]. split; unfold in_phase in *; rewrite ?Hl, ?Hc, ?Hs; done.
Qed.

Lemma steady_same w w' : same_connections w w' → steady w → steady w'.
Proof.
  intros H [[Ho Hs] Hb]. pose proof (orderly_same _ _ H Ho) as Ho'. destruct H as (Hl & Hc & Hw & Hp).
  split; [split; [done|]|by rewrite Hw, Hp]. intros k. unfold in_phase. rewrite Hw, Hp, Hl. apply Hs.
Qed.

Lemma triple_same {A} (m : M A) :
  (∀ w, same_connections w (m w).2) → triple steady m (λ _, steady).
Proof.
  intros Hm w Hw. specialize (Hm w). pose proof (steady_same _ _ Hm Hw) as Hs.
  destruct (m w) as [[a|e| |] w']; [done|apply Hs..].
Qed.

Lemma on_connection_other k k' l :
  k ≠ k' → Forall (λ x, match x with Recv j _ | Sent j _ => j = k' | Invoked _ => True end) l → on_connection k l = [].
Proof.
  intros Hne. induction 1 as [|x l Hx _ IH]; [done|]. rewrite on_connection_cons, IH, app_nil_r.
  destruct x; simpl; try done; subst; by rewrite decide_False.
Qed.

(** The present connection goes on. *)
Lemma orderly_extend w k l p :
  orderly w → workerSocket w = Some k →
  Forall (λ x, match x with Recv j _ | Sent j _ => j = k | Invoked _ => True end) l →
  dialog Connecting (on_connection k (w_log w ++ l)) p → (∀ m, p ≠ Owing m) → orderly (add_log l w).
Proof.
  intros [F P Pr] Hk Hl Hd Hp. assert (Hlt : (k < connections w)%nat) by by apply Pr. split; simpl.
  - intros j Hj. rewrite on_connection_app, F by done. by apply (on_connection_other j k); [lia|].
  - intros j. unfold in_phase. simpl. destruct (decide (j = k)) as [->|Hne]; [by exists p|].
    rewrite on_connection_app, (on_connection_other j k l), app_nil_r by done. apply P.
  - done.
Qed.
End dialog.
Arguments dialog_snoc {n}.
Arguments orderly_same {n}.
Arguments steady_same {n}.
Arguments orderly_extend {n}.
Arguments triple_bind {n A B}.
Arguments triple_ret {n A}.
Arguments triple_weaken {n A}.
Arguments triple_modify {n}.
Arguments triple_deref {n A}.
Arguments triple_lift {n A B}.

Section session.
Context (E : environment).

Local Abbreviation dialog := (dialog (name E)).
Local Abbreviation in_phase := (in_phase (name E)).
Local Abbreviation orderly := (orderly (name E)).
Local Abbreviation good := (good (name E)).
Local Abbreviation steady := (steady (name E)).
Local Abbreviation triple := (triple (name E)).

(** What the handler must leave alone in the reply it is given. *)
Definition disciplined : Prop :=
  ∀ w request r m, answers request r → handler E w request r = Replied m → answers request m.

Context (Hhandler : disciplined).

(** The message can be sent in between. *)
Lemma triple_send m p :
  (∀ es, dialog Connecting es Serving → dialog Connecting (es ++ [Said m]) p) → (∀ r, p ≠ Owing r) →
  triple steady (send m) (λ _ w, orderly w ∧ ∃ k, workerSocket w = Some k ∧ is_Some (pubSocket w) ∧ in_phase k p w).
Proof using Type.
  intros Hd Hp w [[Ho Hs] Hb]. unfold send, deref, mbind, M_bind, gets, modify, mret, M_ret, undefined.
  destruct (workerSocket w) as [k|] eqn:Hk; [|done]. specialize (Hs k Hk (Hb (mk_is_Some _ _ eq_refl))).
  assert (Hd' : dialog Connecting (on_connection k (w_log w ++ [Sent k m])) p).
  { rewrite on_connection_app. unfold on_connection at 2. simpl. rewrite decide_True by done. by apply Hd. }
  split; [by apply (orderly_extend w k _ p); [..|repeat constructor| |]|]. exists k. split_and!; [done|by apply Hb|done].
Qed.

Lemma triple_send_steady m :
  command m = Heartbeat ∨ command m = Notify → own (name E) m → triple steady (send m) (λ _, steady).
Proof using Type.
  intros Hm Hown. eapply triple_weaken; [apply (triple_send m Serving)| |]; [|done|done|].
  - intros es Hes. eapply dialog_snoc; [done|]. by apply dialog_spontaneous.
  - intros _ w (Ho & k & Hk & Hb & Hd). split; [split; [done|]|done]. intros j Hj _. rewrite Hk in Hj. by injection Hj as <-.
Qed.

Lemma triple_connect : triple orderly (connectToBroker E) (λ ok w, if ok then steady w else good w ∧ ¬ (is_Some (workerSocket w) ∧ is_Some (pubSocket w))).
Proof using Type.
  intros w [F P Pr]. unfold connectToBroker, mbind, M_bind, gets, modify, mret, M_ret.
  assert (Hempty : in_phase (connections w) Connecting w) by (unfold in_phase; rewrite F by lia; constructor).
  assert (Ho : ∀ s p, orderly (set_sockets s p (open_socket w)) ∨ s ≠ None ∧ s ≠ Some (connections w)).
  { intros s p. destruct s as [j|]; [destruct (decide (j = connections w)) as [->|Hne]; [|right; split; congruence]|]; left;
      (split; simpl; [intros j Hj; apply F; lia|done|intros j [= <-]; lia || done]). }
  destruct (connects E (connections w)) as [[] sub]; cbn [negb]; cbn beta iota.
  2:{ split; [split|by intros [_ [? ?]]]; [|by intros k _ [? ?]].
      destruct (Ho (Some (connections w)) None) as [H|[_ H]]; [exact H|done]. }
  destruct sub; cbn [negb]; cbn beta iota.
  2:{ split; [split|by intros [[? ?] _]]; [|by intros k]. destruct (Ho None (Some (connections w))) as [H|[H _]]; done. }
  unfold send, deref, mbind, M_bind, gets, modify, mret, M_ret, now. cbn -[decide on_connection].
  destruct (Ho (Some (connections w)) (Some (connections w))) as [H|[_ H]]; [|done].
  set (m := with_data _ _).
  assert (Hd : dialog Connecting (on_connection (connections w) (w_log w ++ [Sent (connections w) m])) Serving).
  { rewrite on_connection_app, F by lia. unfold on_connection. simpl. rewrite decide_True by done.
    eapply (dialog_snoc _ []); [constructor|]. by apply dialog_ready. }
  pose proof (orderly_extend _ (connections w) [Sent (connections w) m] Serving H eq_refl ltac:(repeat constructor) Hd) as Hoe.
  split; [split|done].
  - eapply orderly_same; [|apply Hoe; done]. done.
  - intros k [= <-] _. exact Hd.
Qed.

Lemma answers_reply request : answers request (replyFromRequest E request).
Proof using Type. done. Qed.

Lemma answers_error request e : answers request (with_error e (replyFromRequest E request)).
Proof using Type. done. Qed.

(** The reply to a request answers it, and the connections are left alone. *)
Lemma processRequest_answers request w :
  ∃ r l, processRequest E request w = (Val r, add_log l w) ∧ answers request r
         ∧ (l = [] ∨ l = [Invoked request]).
Proof using Hhandler.
  assert (Hnil : ∀ A (x : A), (x, w) = (x, add_log [] w)).
  { intros A x. unfold add_log. rewrite app_nil_r. by destruct w. }
  unfold processRequest.
  destruct (match rbacPredicate E with Some pred => _ | None => _ end).
  { eexists _, []. rewrite <- Hnil. split; [done|]. split; [apply answers_error|by left]. }
  destruct (bool_decide (command request = Get) && _).
  { eexists _, []. rewrite <- Hnil. split; [done|]. split; [apply answers_error|by left]. }
  destruct (bool_decide (command request = Set_) && _).
  { eexists _, []. rewrite <- Hnil. split; [done|]. split; [apply answers_error|by left]. }
  unfold mbind, M_bind, gets, modify.
  destruct (handler E w request _) as [m|what|] eqn:Hh; eexists _, [Invoked request];
    (split; [done|]); (split; [|by right]); first [apply answers_error | exact (Hhandler _ _ _ _ (answers_reply _) Hh)].
Qed.

(** The part of the connection that is used now. *)
Lemma steady_present w k : steady w → workerSocket w = Some k → in_phase k Serving w.
Proof using Type. intros [[_ Hs] Hb] Hk. apply Hs; [done|]. apply Hb. by eexists. Qed.

Lemma steady_extend w k l :
  steady w → workerSocket w = Some k →
  Forall (λ x, match x with Recv j _ | Sent j _ => j = k | Invoked _ => True end) l →
  dialog Connecting (on_connection k (w_log w ++ l)) Serving → steady (add_log l w).
Proof using Type.
  intros Hst Hk Hl Hd. pose proof Hst as [[Ho Hs] Hb]. split; [split|done].
  - by apply (orderly_extend w k l Serving).
  - intros j Hj _. simpl in Hj. rewrite Hk in Hj. by injection Hj as <-.
Qed.

Lemma answer_request w k m r l :
  steady w → workerSocket w = Some k → is_request m = true → answers m r → l = [] ∨ l = [Invoked m] →
  steady (add_log [Sent k r] (add_log l (add_log [Recv k m] w))).
Proof using Type.
  intros Hst Hk Hm Hr Hl. pose proof (steady_present _ _ Hst Hk) as Hd.
  assert (E1 : add_log [Sent k r] (add_log l (add_log [Recv k m] w)) = add_log ([Recv k m] ++ l ++ [Sent k r]) w).
  { unfold add_log. simpl. by rewrite <- !app_assoc. }
  rewrite E1. apply (steady_extend w k); [done|done|destruct Hl as [->| ->]; repeat constructor|].
  rewrite !on_connection_app. assert (E2 : on_connection k l = []) by (by destruct Hl as [->| ->]).
  rewrite E2, app_nil_l, app_assoc. rewrite !on_connection_cons. simpl. rewrite !decide_True by done.
  eapply dialog_snoc; [|by apply dialog_answer]. eapply dialog_snoc; [exact Hd|]. by apply dialog_request.
Qed.

Lemma hear w k m :
  steady w → workerSocket w = Some k → is_request m = false → steady (add_log [Recv k m] w).
Proof using Type.
  intros Hst Hk Hm. pose proof (steady_present _ _ Hst Hk) as Hd. apply (steady_extend w k); [done|done|repeat constructor|].
  rewrite on_connection_app, on_connection_cons. simpl. rewrite decide_True by done.
  eapply dialog_snoc; [exact Hd|]. by apply dialog_heard.
Qed.

Lemma handle_other m w :
  steady w → is_request m = false →
  match handleDealerMessage E m w with (Val _, w') => good w' | (_, w') => orderly w' end.
Proof using Type.
  intros Hst Hm. unfold handleDealerMessage, mbind at 1, M_bind at 1, modify at 1.
  set (w1 := set_liveness _ w). assert (Hst1 : steady w1) by by apply (steady_same w).
  unfold is_request in Hm. destruct (bool_decide (protocolName m = workerProtocol)); [|apply Hst1].
  destruct (command m); vm_compute in Hm; try discriminate Hm; clear Hm; try apply Hst1.
  - case_bool_decide; [by apply (steady_same w1)|].
    unfold mbind, M_bind, mret, M_ret. pose proof (triple_connect w1 (proj1 (proj1 Hst1))) as Hc.
    destruct (connectToBroker E w1) as [[ok|e| |] w2]; [|done..]. destruct ok; apply Hc.
Qed.

Lemma triple_dealer r : triple steady (receiveDealerMessage E r) (λ _, good).
Proof using Hhandler.
  apply triple_deref; [intros w Hw; apply Hw|]. intros k. apply triple_lift; [intros w Hw; apply Hw|].
  intros [m|] _ w [Hst Hk]; [|apply Hst]. unfold mbind, M_bind, modify. destruct (is_request m) eqn:Hm.
  - unfold handleDealerMessage, mbind, M_bind, modify. pose proof Hm as Hm0. unfold is_request in Hm.
    apply andb_true_iff in Hm as [-> Hc]. rewrite orb_true_iff, !bool_decide_eq_true in Hc.
    set (w1 := set_liveness _ _). destruct (processRequest_answers m w1) as (reply & l & Hp & Ha & Hl).
    assert (Hres : steady (add_log [Sent k reply] (add_log l w1))).
    { apply (steady_same (add_log [Sent k reply] (add_log l (add_log [Recv k m] w)))); [done|].
      by apply answer_request. }
    assert (Hsend : send reply (add_log l w1) = (Val (), add_log [Sent k reply] (add_log l w1))).
    { unfold send, deref, mbind, M_bind, gets. cbn [workerSocket add_log]. change (workerSocket w1) with (workerSocket w).
      by rewrite Hk. }
    destruct Hc as [-> | ->]; rewrite Hp, Hsend; apply Hres.
  - pose proof (handle_other m _ (hear w k m Hst Hk Hm) Hm) as H.
    by destruct (handleDealerMessage E m _) as [[u|e| |] w'].
Qed.

Lemma triple_subscription frame : triple good (receiveSubscriptionMessage E frame) (λ _, steady).
Proof using Type.
  apply triple_deref; [intros w Hw; apply Hw|]. intros k w [Hg Hk].
  assert (Hst : steady w) by (split; [done|intros _; rewrite Hk; by eexists]).
  destruct frame as [[|c [|c' s]]|]; [done|done| |done].
  destruct (negb _); [done|]. destruct (fromZmqTopic _ _) as [t|e]; [|done]. destruct (negb _); [done|].
  by apply (steady_same w).
Qed.

Lemma triple_notification r :
  (∀ m, r = Ok (Some m) → command m = Notify ∧ own (name E) m) → triple steady (receiveNotificationMessage E r) (λ _, steady).
Proof using Type.
  intros Hr w Hst. unfold receiveNotificationMessage, mbind, M_bind, lift, gets, mret, M_ret.
  destruct r as [[m|]|e]; [|done|apply Hst]. destruct (fromMdpTopic _ _ _) as [t|e]; [|apply Hst].
  destruct (_ && _); [|done]. destruct (Hr m eq_refl) as [Hn Ho]. pose proof (triple_send_steady m (or_intror Hn) Ho w Hst) as H.
  by destruct (send m w) as [[u|e| |] w'].
Qed.

Lemma triple_maintain : triple steady (maintain E) (λ ok w, if ok then steady w else orderly w).
Proof using Type.
  assert (Htail : ∀ w, steady w → ∀ t, match ((h' ← gets heartbeatAt;
      (if h' <? t then
         send (createMessage E Heartbeat) ;; t'' ← now E;
         modify (set_heartbeatAt (t'' + heartbeatInterval E)) ;; cleanupNotificationHandlers E
       else mret ()) ;; mret true) : M bool) w
    with (Val ok, w') => if ok then steady w' else orderly w' | (_, w') => orderly w' end).
  { intros w Hst t. unfold mbind at 1, M_bind at 1, gets. destruct (_ <? _); [|done].
    pose proof (triple_send_steady (createMessage E Heartbeat) (or_introl eq_refl) (conj eq_refl eq_refl) w Hst) as Hsend.
    unfold mbind, M_bind. destruct (send _ w) as [[u|e| |] w1]; [|done..]. by apply (steady_same w1). }
  intros w Hst. unfold maintain, mbind at 1 2 3, M_bind at 1 2 3, now, gets at 1.
  assert (Ht : steady (tick w)) by by apply (steady_same w).
  destruct (_ <? _); [|by apply (Htail (tick (tick w))), (steady_same w)].
  unfold mbind at 1 2, M_bind at 1 2, modify, gets at 1. set (w1 := set_liveness _ _).
  assert (Hw1 : steady w1) by by apply (steady_same w). destruct (_ =? 0)%Z.
  - pose proof (triple_connect w1 (proj1 (proj1 Hw1))) as Hc.
    destruct (connectToBroker E w1) as [[[]|e| |] w2]; [|apply Hc|done..]. cbn [negb].
    apply (Htail (tick w2)). by apply (steady_same w2).
  - apply (Htail (tick w1)). by apply (steady_same w1).
Qed.

(** Only [notify] writes to the socket of the notifications. *)
Definition from_notify (x : arrivals) : Prop := ∀ m, on_notify x = Ok (Some m) → command m = Notify ∧ own (name E) m.

Lemma triple_turns xs : Forall from_notify xs → triple steady (turns E xs) (λ _, steady).
Proof using Hhandler.
  induction 1 as [|x xs Hx _ IH]; [apply (triple_ret (λ _, steady))|]. cbn [turns].
  eapply (triple_bind _ _ (λ _, steady)).
  - eapply triple_bind; [apply triple_dealer|]. intros a1. eapply triple_bind; [apply triple_subscription|]. intros a2.
    eapply triple_bind; [by apply triple_notification|]. intros a3. apply (triple_ret (λ _, steady)).
  - intros [|]; [done|apply (triple_ret (λ _, steady))].
Qed.

Lemma triple_disconnect : triple steady (disconnect E) (λ _, orderly).
Proof using Type.
  eapply triple_bind; [apply (triple_send _ Left); [|done]|].
  - intros es Hes. eapply dialog_snoc; [done|]. by apply dialog_leave.
  - intros u. apply triple_modify. intros w ([F P Pr] & _). split; [done|done|]. intros k [=].
Qed.

Lemma triple_passes ps : Forall (λ p, Forall from_notify p.1) ps → triple steady (passes E ps) (λ _, orderly).
Proof using Hhandler.
  induction 1 as [|[xs polled] ps Hx _ IH]; cbn [passes].
  { eapply triple_weaken; [apply (triple_ret (λ _, orderly))| |done]. intros w Hw. apply Hw. }
  eapply triple_bind; [by apply triple_turns|]. intros u. eapply triple_bind; [apply triple_maintain|].
  intros [|]; cbn [negb]; [|apply (triple_ret (λ _, orderly))].
  intros w Hw. unfold mbind, M_bind, gets. destruct (_ && _); [by apply IH|by apply triple_disconnect].
Qed.

Lemma triple_run ps : Forall (λ p, Forall from_notify p.1) ps → triple orderly (run E ps) (λ _, orderly).
Proof using Hhandler.
  intros Hps. eapply triple_bind; [apply triple_connect|]. intros [|]; cbn [negb]; [by apply triple_passes|].
  eapply triple_weaken; [apply (triple_ret (λ _, orderly))| |done]. intros w Hw. apply Hw.
Qed.

Lemma new_worker_orderly : orderly new_worker.
Proof using Type.
  split; [done| |done]. intros k. exists Connecting. split; [constructor|done].
Qed.
End session.

(** C5: Whatever arrives on the sockets of a worker, in whatever order, and whatever
    the clock says and however connections fail: on every connection it makes,
    the worker announces itself first and only once, for its own service, answers every request it
    hears exactly once, before it does anything else, with a final message to
    the client that asked and under the same request identifier, says nothing
    else but heartbeats and notifications of its service, and nothing at all after it has
    taken its leave.  That holds however the run ends, if the handler of the
    application leaves the address of its reply alone. *)
Theorem worker_keeps_protocol E ps k :
  disciplined E → Forall (λ p, Forall (from_notify E) p.1) ps →
  ∃ p, dialog (name E) Connecting (on_connection k (w_log (run E ps new_worker).2)) p ∧ ∀ m, p ≠ Owing m.
Proof.
  intros HE Hps. pose proof (triple_run E HE ps Hps new_worker (new_worker_orderly E)) as H.
  assert (orderly (name E) (run E ps new_worker).2) as [_ P _] by (by destruct (run E ps new_worker) as [[u|e| |] w]).
  apply P.
Qed.

(** ** Access control *)

Definition may (c : Command) (p : Permission) : bool :=
  match c with
  | Get => bool_decide (p = RW) || bool_decide (p = RO)
  | Set_ => bool_decide (p = RW) || bool_decide (p = WO)
  | _ => true
  end.

Definition permitted (E : environment) (m : WorkerMessage) : bool :=
  match rbacPredicate E with Some pred => pred (rbac m) | None => true end && may (command m) (permission E m).

Lemma processRequest_permitted E m w :
  permitted E m = true → (processRequest E m w).2 = add_log [Invoked m] w.
Proof.
  unfold permitted. intros [Hp Hm]%andb_true_iff. unfold processRequest.
  assert (match rbacPredicate E with Some pred => negb (pred (rbac m)) | None => false end = false) as ->
    by (destruct (rbacPredicate E); [by rewrite Hp|done]).
  assert (bool_decide (command m = Get) && negb (bool_decide (permission E m = RW) || bool_decide (permission E m = RO)) = false) as ->
    by (destruct (command m); simpl in Hm; rewrite ?Hm; try done).
  assert (bool_decide (command m = Set_) && negb (bool_decide (permission E m = RW) || bool_decide (permission E m = WO)) = false) as ->
    by (destruct (command m); simpl in Hm; rewrite ?Hm; try done).
  unfold mbind, M_bind, gets, modify. by destruct (handler E w m _).
Qed.

Lemma processRequest_refused E m w :
  permitted E m = false →
  ∃ e, e ≠ [] ∧ processRequest E m w = (Val (with_error e (replyFromRequest E m)), w).
Proof.
  unfold permitted, processRequest. intros H.
  destruct (rbacPredicate E) as [pred|]; [destruct (pred (rbac m)); simpl in H; cbn [negb]|];
    [|by eexists; split; [|reflexivity]|];
    (destruct (command m); simpl in H; try discriminate; rewrite H; simpl; by eexists; split; [|reflexivity]).
Qed.

(** The handler was only called as it may be. *)
Definition lawful (E : environment) (w : worker) : Prop :=
  ∀ m, Invoked m ∈ w_log w → permitted E m = true ∧ is_request m = true.

Definition keeps_law {A} (E : environment) (m : M A) : Prop := ∀ w, lawful E w → lawful E (m w).2.

Create HintDb law.

Section law.
Context (E : environment).

Lemma law_ret {A} (a : A) : keeps_law E (mret a).
Proof using Type. by intros w. Qed.
Lemma law_gets {A} (g : worker → A) : keeps_law E (gets g).
Proof using Type. by intros w. Qed.
Lemma law_lift {A} (r : result A) : keeps_law E (lift r).
Proof using Type. by intros w. Qed.
Lemma law_aborted {A} : keeps_law E (@aborted A).
Proof using Type. by intros w. Qed.
Lemma law_now : keeps_law E (now E).
Proof using Type. by intros w. Qed.
Lemma law_deref g : keeps_law E (deref g).
Proof using Type. intros w Hw. unfold deref, mbind, M_bind, gets. by destruct (g w). Qed.
Lemma law_bind {A B} (m : M A) (f : A → M B) :
  keeps_law E m → (∀ a, keeps_law E (f a)) → keeps_law E (m ≫= f).
Proof using Type.
  intros Hm Hf w Hw. unfold mbind, M_bind. specialize (Hm w Hw).
  destruct (m w) as [[a|e| |] w']; [|done..]. by apply Hf.
Qed.
Lemma law_modify g : (∀ w, w_log (g w) = w_log w) → keeps_law E (modify g).
Proof using Type. intros Hg w Hw m. unfold modify. simpl. rewrite Hg. apply Hw. Qed.
Lemma law_log x : (∀ m, x ≠ Invoked m) → keeps_law E (modify (add_log [x])).
Proof using Type.
  intros Hx w Hw m. simpl. rewrite elem_of_app, list_elem_of_singleton. intros [Hm|Hm]; [by apply Hw|]. by destruct (Hx m).
Qed.
Hint Resolve law_ret law_gets law_lift law_aborted law_now law_deref law_bind law_modify law_log : law.
Hint Extern 1 (_ ≠ _) => discriminate : law.

Lemma law_send m : keeps_law E (send m).
Proof using Type. unfold send. auto 10 with law. Qed.
Hint Resolve law_send : law.

Lemma law_connect : keeps_law E (connectToBroker E).
Proof using Type.
  unfold connectToBroker. apply law_bind; [auto with law|]. intros k. apply law_bind; [auto with law|]. intros _.
  destruct (connects E k) as [[] []]; cbn [negb]; auto 20 with law.
Qed.
Hint Resolve law_connect : law.

Lemma law_processRequest m : is_request m = true → keeps_law E (processRequest E m).
Proof using Type.
  intros Hm w Hw. destruct (permitted E m) eqn:Hp.
  - rewrite processRequest_permitted by done. intros m'. simpl. rewrite elem_of_app, list_elem_of_singleton.
    intros [?|[= ->]]; [by apply Hw|done].
  - destruct (processRequest_refused E m w Hp) as (e & _ & ->). done.
Qed.

Lemma law_handle m : keeps_law E (handleDealerMessage E m).
Proof using Type.
  unfold handleDealerMessage. apply law_bind; [auto with law|]. intros _.
  destruct (bool_decide (protocolName m = workerProtocol)) eqn:Hp; [|auto with law].
  assert (Hreq : command m = Get ∨ command m = Set_ → keeps_law E (reply ← processRequest E m; send reply)).
  { intros Hc. apply law_bind; [apply law_processRequest|auto with law]. unfold is_request. rewrite Hp.
    destruct Hc as [-> | ->]; done. }
  clear Hp. destruct (command m); try (apply Hreq; by auto); try (auto with law; fail).
  case_bool_decide; auto 10 with law.
Qed.
Hint Resolve law_handle : law.

Lemma law_turn x : keeps_law E (turn E x).
Proof using Type.
  unfold turn, receiveDealerMessage, receiveSubscriptionMessage, receiveNotificationMessage.
  apply law_bind; [|intros a1; apply law_bind; [|intros a2; apply law_bind; [|auto with law]]].
  - apply law_bind; [auto with law|]. intros k. apply law_bind; [auto with law|]. intros [m|]; auto 10 with law.
  - apply law_bind; [auto with law|]. intros _. destruct (on_pub x) as [[|c [|c' s]]|]; try auto with law.
    destruct (negb _); [auto with law|]. destruct (fromZmqTopic _ _); [|auto with law].
    destruct (negb _); auto 10 with law.
  - apply law_bind; [auto with law|]. intros [m|]; [|auto with law]. apply law_bind; [auto with law|]. intros t.
    apply law_bind; [auto with law|]. intros w. apply law_bind; [|auto with law]. destruct (_ && _); auto with law.
Qed.

Lemma law_turns xs : keeps_law E (turns E xs).
Proof using Type.
  induction xs as [|x xs IH]; cbn [turns]; [auto with law|]. apply law_bind; [apply law_turn|]. intros []; auto with law.
Qed.

Lemma law_maintain : keeps_law E (maintain E).
Proof using Type.
  unfold maintain, cleanupNotificationHandlers. apply law_bind; [auto with law|]. intros t. apply law_bind; [auto with law|].
  intros h. apply law_bind.
  - destruct (_ <? _); [|auto with law]. apply law_bind; [auto with law|]. intros _. apply law_bind; [auto with law|].
    intros l. destruct (_ =? _)%Z; auto with law.
  - intros [|]; cbn [negb]; [|auto with law]. apply law_bind; [auto with law|]. intros t'. apply law_bind; [auto with law|].
    intros h'. apply law_bind; [|auto with law]. destruct (_ <? _); auto 20 with law.
Qed.

Lemma law_run ps : keeps_law E (run E ps).
Proof using Type.
  unfold run. apply law_bind; [auto with law|]. intros [|]; cbn [negb]; [|auto with law].
  induction ps as [|[xs polled] ps IH]; cbn [passes]; [auto with law|]. apply law_bind; [apply law_turns|]. intros _.
  apply law_bind; [apply law_maintain|]. intros [|]; cbn [negb]; [|auto with law]. apply law_bind; [auto with law|].
  intros s. destruct (_ && _); [done|]. unfold disconnect. auto 10 with law.
Qed.
End law.

(** What a request may ask, said without the readers and tables of the code. *)
Definition may_ask (E : environment) (m : WorkerMessage) : Prop :=
  (∀ pred, rbacPredicate E = Some pred → pred (rbac m) = true)
  ∧ ∃ r p, role_of (rbac m) r ∧ right_of (roles E) r p
    ∧ (command m = Get ∧ p ∈ [RW; RO] ∨ command m = Set_ ∧ p ∈ [RW; WO]).

Lemma permission_in E m : permission E m = default NONE (right_in (roles E) (Rbac.role (rbac m))).
Proof.
  unfold permission, permissionByRole, defaultPermission, right_in.
  assert (H : ∀ l : list Role, snd <$> find (λ p, bool_decide (p.1 = Rbac.role (rbac m))) ((λ r, (Rbac.name r, rights r)) <$> l)
    = rights <$> find (λ x, bool_decide (Rbac.name x = Rbac.role (rbac m))) l).
  { induction l as [|x l IH]; simpl; [done|]. by case_bool_decide. }
  rewrite H. by destruct (find _ (roles E)).
Qed.

Lemma permitted_iff E m :
  command m = Get ∨ command m = Set_ → permitted E m = true ↔ may_ask E m.
Proof.
  intros Hc. unfold permitted, may_ask. rewrite andb_true_iff, permission_in. f_equiv.
  - destruct (rbacPredicate E) as [pred|]; [|done]. split; [by intros H ? [= <-]|auto].
  - setoid_rewrite role_spec. setoid_rewrite right_spec. split.
    + intros H. destruct (right_in (roles E) (Rbac.role (rbac m))) as [p|] eqn:Ep.
      * exists (Rbac.role (rbac m)), p. split; [done|]. split; [done|].
        destruct Hc as [Hc|Hc]; rewrite Hc in *; [left|right]; (split; [done|]); destruct p; try discriminate H; set_solver.
      * by destruct Hc as [Hc|Hc]; rewrite Hc in H.
    + intros (r & p & -> & -> & [[Hm Hp]|[Hm Hp]]); rewrite Hm; destruct p; set_solver.
Qed.

(** C14: Whatever arrives during a run, the handler of the application is called
    only for a Get or a Set that the predicate of the worker admits and whose
    role, read from its token, has the right for the command: reading for Get,
    writing for Set; a role the worker does not list has the rights of the last
    it lists.  A Get or a Set that may not ask is answered with an error, and
    changes nothing; one that may is handed to the handler. *)
Theorem access_control E ps w request :
  (∀ m, Invoked m ∈ w_log (run E ps new_worker).2 → (command m = Get ∨ command m = Set_) ∧ may_ask E m)
  ∧ (command request = Get ∨ command request = Set_ →
     (may_ask E request → (processRequest E request w).2 = add_log [Invoked request] w)
     ∧ (¬ may_ask E request →
        ∃ e, e ≠ [] ∧ processRequest E request w = (Val (with_error e (replyFromRequest E request)), w))).
Proof.
  split.
  - assert (H : lawful E (run E ps new_worker).2) by (apply law_run; intros m Hm; by apply elem_of_nil in Hm).
    intros m Hm. destruct (H m Hm) as [Hp Hr]. apply andb_true_iff in Hr as [_ Hr].
    assert (Hc : command m = Get ∨ command m = Set_) by (apply orb_true_iff in Hr as [Hr|Hr]; apply bool_decide_eq_true in Hr; auto).
    split; [done|]. by apply permitted_iff.
  - intros Hc. rewrite <- permitted_iff by done. split; [apply processRequest_permitted|].
    intros Hn%not_true_is_false. by apply processRequest_refused.
Qed.

(** ** Subscriptions and notifications *)

(** What a frame of the subscription socket asks for. *)
Definition asks (E : environment) (f : bytes) : option (bool * Topic.t) :=
  match f with
  | c :: ((_ :: _) as s) =>
      if negb (eqc c (chr 0) || eqc c (chr 1)) then None
      else match fromZmqTopic (uninit E) s with
           | Ok t => if bool_decide (_service t = name E) then Some (eqc c (chr 1), t) else None
           | Throw _ => None
           end
  | _ => None
  end.

(** Whether a topic is subscribed to after the frames: what the last one that
    is about it says. *)
Definition subscribed (E : environment) (t : Topic.t) (before : bool) (frames : list bytes) : bool :=
  foldl (λ s f, match asks E f with Some (b, t') => if decide (t' = t) then b else s | None => s end) before frames.

Fixpoint frames_received (E : environment) (frames : list bytes) : M () :=
  match frames with
  | [] => mret ()
  | f :: fs => _ ← receiveSubscriptionMessage E (Some f); frames_received E fs
  end.

Lemma receiveSubscription_asks E f w k :
  pubSocket w = Some k →
  (receiveSubscriptionMessage E (Some f) w).2
  = set_subscriptions (match asks E f with
                       | Some (true, t) => activeSubscriptions w ∪ {[t]}
                       | Some (false, t) => activeSubscriptions w ∖ {[t]}
                       | None => activeSubscriptions w
                       end) w
  ∧ ∃ b, (receiveSubscriptionMessage E (Some f) w).1 = Val b.
Proof.
  intros Hk. unfold receiveSubscriptionMessage, deref, mbind, M_bind, gets, mret, M_ret, modify. rewrite Hk.
  assert (Hw : set_subscriptions (activeSubscriptions w) w = w) by by destruct w.
  destruct f as [|c [|c' s]]; cbn [asks]; [by rewrite Hw; eauto..|].
  destruct (negb _); [rewrite Hw; eauto|]. destruct (fromZmqTopic _ _) as [t|e]; [|rewrite Hw; eauto].
  destruct (bool_decide _); cbn [negb]; [|rewrite Hw; eauto]. destruct (eqc c (chr 1)); eauto.
Qed.

Lemma frames_received_active E frames w k :
  pubSocket w = Some k →
  ∃ s, frames_received E frames w = (Val (), set_subscriptions s w)
       ∧ ∀ t, t ∈ s ↔ subscribed E t (bool_decide (t ∈ activeSubscriptions w)) frames = true.
Proof.
  revert w. induction frames as [|f fs IH]; intros w Hk; cbn [frames_received].
  - exists (activeSubscriptions w). split; [by destruct w|]. intros t. simpl. by rewrite bool_decide_eq_true.
  - destruct (receiveSubscription_asks E f w k Hk) as [H2 [b H1]]. unfold mbind, M_bind.
    destruct (receiveSubscriptionMessage E (Some f) w) as [r w1]. simpl in H1, H2. subst r w1.
    match goal with |- context [set_subscriptions ?s w] => destruct (IH (set_subscriptions s w) Hk) as (s' & H3 & H4) end.
    exists s'. rewrite H3. split; [done|]. intros t. rewrite H4. cbn [subscribed foldl activeSubscriptions set_subscriptions].
    unfold subscribed. destruct (asks E f) as [[[] t']|]; [| |done]; destruct (decide (t' = t)) as [->|Hne];
      (match goal with |- foldl _ (bool_decide ?P) _ = _ ↔ foldl _ ?b _ = _ => replace (bool_decide P) with b; [done|] end);
      symmetry; [apply bool_decide_eq_true_2; set_solver|apply bool_decide_ext; set_solver
                |apply bool_decide_eq_false_2; set_solver|apply bool_decide_ext; set_solver].
Qed.

(** A notification of the application reaches the broker exactly if some topic
    matches it that is subscribed to: one whose last frame on the subscription
    socket, among those for this service, is a subscription. *)
Theorem notification_forwarded E frames w k p m n :
  workerSocket w = Some k → pubSocket w = Some p → fromMdpTopic (uninit E) STRICT (topic m) = Ok n →
  ∃ w1 b, frames_received E frames w = (Val (), w1) ∧ w_log w1 = w_log w
    ∧ (receiveNotificationMessage E (Ok (Some m)) w1).1 = Val true
    ∧ w_log (receiveNotificationMessage E (Ok (Some m)) w1).2 = w_log w ++ (if b : bool then [Sent k m] else [])
    ∧ (b = true ↔ ∃ t, subscribed E t (bool_decide (t ∈ activeSubscriptions w)) frames = true
                       ∧ match_topics (subscriptionMatcher E) n t = true).
Proof.
  intros Hk Hp Hn. destruct (frames_received_active E frames w p Hp) as (s & Hf & Hs).
  exists (set_subscriptions s w), (existsb (match_topics (subscriptionMatcher E) n) (elements s)).
  split; [exact Hf|]. split; [done|]. unfold receiveNotificationMessage, mbind, M_bind, lift, gets. rewrite Hn.
  cbn [workerSocket set_subscriptions activeSubscriptions]. rewrite Hk, bool_decide_eq_true_2 by by eexists.
  assert (Hiff : existsb (match_topics (subscriptionMatcher E) n) (elements s) = true
                 ↔ ∃ t, subscribed E t (bool_decide (t ∈ activeSubscriptions w)) frames = true
                        ∧ match_topics (subscriptionMatcher E) n t = true).
  { rewrite existsb_exists. split; intros (t & Ht & Hm); exists t; (split; [|done]).
    - apply Hs, elem_of_elements. by apply list_elem_of_In.
    - by apply list_elem_of_In, elem_of_elements, Hs. }
  cbn [andb]. destruct (existsb _ _).
  - unfold send, deref, mbind, M_bind, gets, modify. cbn [workerSocket set_subscriptions]. by rewrite Hk.
  - by rewrite app_nil_r.
Qed.

(** ** The broker is silent *)

Definition silent : list arrivals * bool := ([mkarrivals (Ok None) None (Ok None)], true).

(** Connected, with [l] intervals left before the broker is given up; [4 * i] readings
    of the clock, at the end of the pass before, and no word on the next connection.
    A pass in which the broker is silent reads the clock four times, and the third
    time for the next heartbeat. *)
Definition waiting (E : environment) (l : Z) (c i : nat) (w : worker) : Prop :=
  shutdownRequested w = false ∧ liveness w = l
  ∧ w_clock w = (4 * i + 1)%nat ∧ heartbeatAt w = clock E (4 * i - 1) + heartbeatInterval E
  ∧ (∃ k, workerSocket w = Some k ∧ (k < c)%nat) ∧ (∃ p, pubSocket w = Some p) ∧ connections w = c
  ∧ on_connection c (w_log w) = [].

(** The clock does not go back, and a pass begins more than an interval after the last
    heartbeat: its poll has waited. *)
Definition unhurried (E : environment) : Prop :=
  (∀ i, clock E i <= clock E (S i)) ∧ ∀ i, clock E (4 * i - 1) + heartbeatInterval E < clock E (4 * i + 1).

Section silent.
Context (E : environment) (Hclock : unhurried E).

Lemma reconnects w :
  shutdownRequested w = false → connects E (connections w) = (true, true) →
  ∃ w', connectToBroker E w = (Val true, w') ∧ shutdownRequested w' = false ∧ liveness w' = heartbeatLiveness E
    ∧ w_clock w' = S (w_clock w) ∧ heartbeatAt w' = clock E (w_clock w) + heartbeatInterval E
    ∧ workerSocket w' = Some (connections w) ∧ pubSocket w' = Some (connections w) ∧ connections w' = S (connections w)
    ∧ w_log w' = w_log w ++ [Sent (connections w) (with_data (serviceDescription E) (createMessage E Ready))].
Proof using Type.
  intros Hs Hc. unfold connectToBroker, send, deref, mbind, M_bind, gets, modify, mret, M_ret, now. rewrite Hc.
  cbn -[Z.add]. eexists. split; [reflexivity|]. cbn -[Z.add]. done.
Qed.

Lemma silent_turn w l c i : waiting E l c i w → turns E silent.1 w = (Val (), w).
Proof using Type.
  intros (_ & _ & _ & _ & (k & Hk & _) & [p Hp] & _). unfold silent. cbn [turns fst]. unfold turn.
  unfold receiveDealerMessage, receiveSubscriptionMessage, receiveNotificationMessage, deref, mbind, M_bind, gets, mret, M_ret, lift.
  rewrite Hk. cbn [on_dealer on_pub on_notify].
  destruct ((connects E k).1); rewrite Hp; done.
Qed.

Lemma silent_maintain w l c i :
  waiting E l c i w → l - 1 ≠ 0 → ∃ w', maintain E w = (Val true, w') ∧ waiting E (l - 1) c (S i) w'.
Proof using Hclock.
  intros (Hs & Hl & Hw & Hh & (k & Hk & Hkc) & [p Hp] & Hc & Ho) Hne. destruct Hclock as [Hmono Hpass].
  pose proof (Hpass i). pose proof (Hmono (4 * i + 1)%nat).
  unfold maintain, cleanupNotificationHandlers, send, deref, mbind, M_bind, gets, modify, mret, M_ret, now. cbn -[Z.add Z.sub Z.ltb Z.eqb Nat.mul].
  rewrite Hw, Hh, (proj2 (Z.ltb_lt _ _)) by lia. cbn -[Z.add Z.sub Z.ltb Z.eqb Nat.mul]. rewrite Hl, (proj2 (Z.eqb_neq _ _)) by done.
  cbn -[Z.add Z.sub Z.ltb Z.eqb Nat.mul]. rewrite Hw, Hh, (proj2 (Z.ltb_lt _ _)) by lia. cbn -[Z.add Z.sub Nat.mul]. rewrite Hk.
  eexists. split; [reflexivity|]. unfold waiting. cbn -[Z.add Z.sub Nat.mul Nat.sub on_connection]. split_and!; [done|done|rewrite Hw; lia| |eauto|eauto|done|].
  - rewrite Hw. do 2 f_equal. lia.
  - rewrite on_connection_app, Ho. unfold on_connection. cbn. by rewrite decide_False by lia.
Qed.

Lemma silent_gives_up w c i :
  waiting E 1 c i w → connects E c = (true, true) →
  ∃ w' es, maintain E w = (Val true, w') ∧ connections w' = S c
    ∧ workerSocket w' = Some c
    ∧ on_connection c (w_log w') = Said (with_data (serviceDescription E) (createMessage E Ready)) :: es.
Proof using Hclock.
  intros (Hs & Hl & Hw & Hh & _ & _ & Hc & Ho) Hcon. destruct Hclock as [Hmono Hpass].
  pose proof (Hpass i). unfold maintain, mbind, M_bind, gets, modify, now. cbn -[Z.sub Z.ltb Z.eqb connectToBroker Nat.mul].
  rewrite Hw, Hh, (proj2 (Z.ltb_lt _ _)) by lia. cbn -[Z.sub Z.ltb Z.eqb connectToBroker Nat.mul].
  rewrite Hl. change (1 - 1 =? 0) with true. cbv iota.
  match goal with |- context [connectToBroker E ?x] => destruct (reconnects x) as (w' & -> & _ & _ & _ & _ & Hk & _ & Hc' & Hlog) end;
    [done|by simpl; rewrite Hc|]. cbn in Hk, Hc', Hlog. rewrite Hc in Hk, Hc', Hlog.
  assert (Hsaid : on_connection c (w_log w') = [Said (with_data (serviceDescription E) (createMessage E Ready))]).
  { rewrite Hlog, on_connection_app, Ho. unfold on_connection. cbn. by rewrite decide_True. }
  cbn -[Z.ltb Z.add Nat.mul].
  destruct (heartbeatAt w' <? _).
  - unfold send, deref, cleanupNotificationHandlers, mbind, M_bind, gets, modify, mret, M_ret, now. cbn -[Z.add Nat.mul]. rewrite Hk. cbn -[Z.add Nat.mul].
    eexists _, _. split; [reflexivity|]. cbn -[Nat.mul on_connection]. split; [done|]. split; [done|]. by rewrite on_connection_app, Hsaid.
  - eexists _, _. split; [reflexivity|]. done.
Qed.

Lemma silent_passes n ps w l c i :
  waiting E l c i w → Z.of_nat n < l →
  ∃ w', waiting E (l - Z.of_nat n) c (i + n) w' ∧ passes E (replicate n silent ++ ps) w = passes E ps w'.
Proof using Hclock.
  revert w l i. induction n as [|n IH]; intros w l i Hw Hn.
  - exists w. split; [|done]. by rewrite Z.sub_0_r, Nat.add_0_r.
  - destruct (silent_maintain w l c i Hw) as (w1 & H1 & Hw1); [lia|]. destruct (IH w1 (l - 1) (S i) Hw1) as (w2 & Hw2 & H2); [lia|].
    exists w2. replace (l - Z.of_nat (S n)) with (l - 1 - Z.of_nat n) by lia. replace (i + S n)%nat with (S i + n)%nat by lia. split; [done|].
    rewrite <- H2. cbn [replicate app passes]. rewrite (surjective_pairing silent). cbv beta iota. unfold mbind, M_bind.
    rewrite (silent_turn w l c i Hw), H1. cbn [negb]. unfold gets. by rewrite (proj1 Hw1).
Qed.
End silent.

(** C37: The broker says nothing for as many heartbeat intervals as the liveness
    allows, where the worker's passes begin more than an interval after its last
    heartbeat: until the last of them the worker keeps its connection, at the last
    it makes a new one, and the first it says on that is that it is ready. *)
Theorem silent_broker_reconnects E n :
  unhurried E → connects E 0 = (true, true) → connects E 1 = (true, true) → heartbeatLiveness E = Z.of_nat (S n) →
  (∀ j, (j <= n)%nat → connections (run E (replicate j silent) new_worker).2 = 1%nat)
  ∧ connections (run E (replicate (S n) silent) new_worker).2 = 2%nat
  ∧ ∃ es, on_connection 1 (w_log (run E (replicate (S n) silent) new_worker).2)
          = Said (with_data (serviceDescription E) (createMessage E Ready)) :: es.
Proof.
  intros Hclock H0 H1 Hl. destruct (reconnects E new_worker eq_refl H0) as (w & Hc & Hw1 & Hw2 & Hw3 & Hw4 & Hw5 & Hw6 & Hw7 & Hw8).
  assert (Hw : waiting E (Z.of_nat (S n)) 1 0 w).
  { rewrite <- Hl. unfold waiting. rewrite Hw8. split_and!; try done; eauto. }
  unfold run, mbind, M_bind. rewrite Hc. cbn [negb]. split.
  - intros j Hj. rewrite <- (app_nil_r (replicate j silent)).
    destruct (silent_passes E Hclock j [] w _ _ _ Hw) as (w' & Hw' & ->); [lia|]. apply Hw'.
  - rewrite replicate_S_end. destruct (silent_passes E Hclock n [silent] w _ _ _ Hw) as (w' & Hw' & ->); [lia|].
    replace (Z.of_nat (S n) - Z.of_nat n) with 1 in Hw' by lia. cbn [passes]. rewrite (surjective_pairing silent).
    cbv beta iota. unfold mbind, M_bind. rewrite (silent_turn E w' _ _ _ Hw').
    destruct (silent_gives_up E Hclock w' 1 _ Hw' H1) as (w2 & es & -> & Hc2 & Hk2 & Ho2). cbn [negb]. unfold gets.
    destruct (_ && _); [by eauto|]. unfold disconnect, send, deref, mbind, M_bind, gets, modify. rewrite Hk2. cbn -[on_connection].
    split; [done|]. rewrite on_connection_app, Ho2. by eexists.
Qed.

(** *** Examples *)

(** A worker for [/a.service] whose handler answers with the data of the
    request, and whose clock advances by 1001 at each reading. *)
Definition sample_worker (rs : list Role) (con : nat → bool * bool) : environment :=
  mkenv (str "/a.service") (str "sample") rs None (λ w req rep, Replied (with_data (data req) rep)) ∅ 1000 3
    (λ i, 1001 * Z.of_nat i) con 0 0.

Definition all_connect (k : nat) : bool * bool := (true, true).

Definition broker_says (c : Command) (client body token : bytes) : WorkerMessage :=
  @mkmsg WithoutSourceId tt 0 0 10000 workerProtocol c client (str "7") root_topic body [] token.

Definition hears (m : WorkerMessage) : list arrivals * bool := ([mkarrivals (Ok (Some m)) None (Ok None)], true).

Lemma sample_disciplined rs con : disciplined (sample_worker rs con).
Proof. by intros w request r m Ha [= <-]. Qed.

Lemma worker_keeps_protocol_witness :
  let E := sample_worker [ADMIN] all_connect in
  let ps := [hears (broker_says Get (str "client") (str "x") [])] in
  take 3 (on_connection 0 (w_log (run E ps new_worker).2))
  = [Said (with_data (str "sample") (createMessage E Ready)); Heard (broker_says Get (str "client") (str "x") []);
     Said (with_data (str "x") (replyFromRequest E (broker_says Get (str "client") (str "x") [])))]
  ∧ ∃ p, dialog (name E) Connecting (on_connection 0 (w_log (run E ps new_worker).2)) p ∧ ∀ m, p ≠ Owing m.
Proof.
  intros E ps. split; [vm_compute; reflexivity|]. apply worker_keeps_protocol; [apply sample_disciplined|].
  apply Forall_singleton, Forall_singleton. intros m [=].
Defined.

Lemma access_control_witness :
  let E := sample_worker [ADMIN; mkrole (str "READER") RO] all_connect in
  let m := broker_says Set_ (str "client") (str "x") (str "RBAC=READER,0") in
  (¬ may_ask E m)
  ∧ ∃ e, e ≠ [] ∧ processRequest E m new_worker = (Val (with_error e (replyFromRequest E m)), new_worker).
Proof.
  intros E m. assert (Hc : command m = Get ∨ command m = Set_) by (right; reflexivity).
  assert (H : ¬ may_ask E m) by (rewrite <- permitted_iff by done; by vm_compute).
  split; [done|]. by apply (access_control E [] new_worker m).
Defined.

Definition status_topic : uri := mkuri (str "/a.service") [] [] (str "/a.service") [] [].

Definition status_message : WorkerMessage :=
  @mkmsg WithoutSourceId tt 0 0 10000 workerProtocol Notify (str "/a.service") [] status_topic (str "ok") [] [].

Lemma notification_forwarded_witness :
  let E := sample_worker [ADMIN] all_connect in
  let w := set_sockets (Some 0%nat) (Some 0%nat) new_worker in
  ∃ w1 b, frames_received E [chr 1 :: str "/a.service"] w = (Val (), w1)
    ∧ w_log (receiveNotificationMessage E (Ok (Some status_message)) w1).2 = (if b : bool then [Sent 0 status_message] else [])
    ∧ b = true.
Proof.
  intros E w.
  destruct (notification_forwarded E [chr 1 :: str "/a.service"] w 0 0 status_message (Topic.mk (str "/a.service") ∅))
    as (w1 & b & H1 & _ & _ & H3 & H4); [reflexivity|reflexivity|vm_compute; reflexivity|].
  exists w1, b. split_and!; [exact H1|exact H3|]. apply H4. exists (Topic.mk (str "/a.service") ∅).
  split; vm_compute; reflexivity.
Defined.

Lemma silent_broker_reconnects_witness :
  let E := sample_worker [ADMIN] all_connect in
  connections (run E (replicate 3 silent) new_worker).2 = 2%nat
  ∧ ∃ es, on_connection 1 (w_log (run E (replicate 3 silent) new_worker).2)
          = Said (with_data (serviceDescription E) (createMessage E Ready)) :: es.
Proof.
  intros E. apply (silent_broker_reconnects E 2); [|done..]. unfold unhurried, E, sample_worker. cbn [clock heartbeatInterval].
  split; intros i; lia.
Defined.

(** ** What goes wrong *)

(** A broker that disconnects the worker for another reason than its own end
    makes it connect again; the result is not looked at, and if that fails the
    next step uses a socket that is not there. *)
Lemma reconnect_failure_undefined :
  let E := sample_worker [ADMIN] (λ k, (bool_decide (k = 0)%nat, true)) in
  (run E [hears (broker_says Disconnect (str "/a.service") (str "bye") [])] new_worker).1 = Undefined.
Proof. vm_compute. reflexivity. Qed.

(** The subscriptions survive the connection they came on: after a reconnection
    the worker goes on notifying a topic nobody has subscribed to there. *)
Lemma stale_subscriptions :
  let E := sample_worker [ADMIN] all_connect in
  let ps := [([mkarrivals (Ok None) (Some (chr 1 :: str "/a.service")) (Ok None);
               mkarrivals (Ok (Some (broker_says Disconnect (str "/a.service") (str "bye") []))) None (Ok None);
               mkarrivals (Ok None) None (Ok (Some status_message))], true)] in
  Sent 1 status_message ∈ w_log (run E ps new_worker).2.
Proof. apply list_elem_of_In. vm_compute. tauto. Qed.

(** A notification whose path is not the name of a service ends the run with an
    exception. *)
Lemma malformed_notification_throws :
  let E := sample_worker [ADMIN] all_connect in
  let u := mkuri (str "/a~b") [] [] (str "/a~b") [] [] in
  let m := @mkmsg WithoutSourceId tt 0 0 10000 workerProtocol Notify (str "/a.service") [] u [] [] [] in
  (run E [([mkarrivals (Ok None) None (Ok (Some m))], true)] new_worker).1 = Exn InvalidArgument.
Proof. vm_compute. reflexivity. Qed.

(** The socket of a thread's first notification is new, and counts as unused
    for ever: the worker's cleanup, if it comes before the first use, removes
    it, and the thread uses what is gone. *)
Lemma notify_race E thread m w :
  notificationHandlers w !! thread = None → 30000 < clock E (w_clock w) →
  let w1 := notificationHandlerForThisThread thread w in
  let w2 := (cleanupNotificationHandlers E w1).2 in
  (notification_send E thread m w2).1 = Undefined.
Proof.
  intros Hw Ht. unfold notificationHandlerForThisThread. rewrite Hw. unfold cleanupNotificationHandlers, notification_send.
  unfold mbind, M_bind, gets, modify, now. cbn [notificationHandlers set_handlers w_clock tick snd fst].
  rewrite map_lookup_filter_None_2; [done|]. right. intros x Hx. rewrite lookup_insert_eq in Hx. injection Hx as <-. simpl. lia.
Qed.
