(* ===== verification/Session.v ===== *)
(** * Session: a worker and its broker

    What the messages of [Worker] do in [Broker], and back.  A ROUTER socket
    puts the identity of the sender in front of a message, and takes it off
    one that is sent. *)

From S2P Require Import Prelude Rbac Uri Topic Message Service Subscriptions Pool Broker Worker.
Local Open Scope Z_scope.

Definition with_source (src : bytes) (m : WorkerMessage) : BrokerMessage :=
  @mkmsg WithSourceId src (id m) (arrivalTime m) (timeout m) (protocolName m) (command m) (serviceName m)
    (clientRequestID m) (topic m) (data m) (error m) (rbac m).

Definition without_source (m : BrokerMessage) : WorkerMessage :=
  @mkmsg WithoutSourceId tt (id m) (arrivalTime m) (timeout m) (protocolName m) (command m) (serviceName m)
    (clientRequestID m) (topic m) (data m) (error m) (rbac m).

(** ** A worker the broker has forgotten *)

Lemma emplace_new sock i n e p :
  Pool.workers p !! i = None →
  emplace_worker sock i n e p
  = (next_address p, false,
     mkpool (<[i := next_address p]> (Pool.workers p)) (<[next_address p := Pool.mkworker sock i n e]> (heap p))
       (S (next_address p)) (services p)).
Proof. intros Hi. unfold emplace_worker. by rewrite Hi. Qed.

Lemma disconnect_new u sock i n e p :
  Pool.workers p !! i = None →
  ∃ p', disconnectWorker u (next_address p)
          (mkpool (<[i := next_address p]> (Pool.workers p)) (<[next_address p := Pool.mkworker sock i n e]> (heap p))
             (S (next_address p)) (services p))
        = Some (p', [Send sock (disconnect_message u (Pool.mkworker sock i n e))])
        ∧ Pool.workers p' = Pool.workers p.
Proof.
  intros Hi. unfold disconnectWorker, deleteWorker. cbn [heap]. rewrite lookup_insert_eq. cbn [mbind option_bind].
  eexists. split; [reflexivity|]. unfold erase_worker, update_service, set_services. cbn [Pool.workers w_id].
  rewrite lookup_insert_eq. cbn [Pool.workers]. by rewrite delete_insert_id.
Qed.

(** What the broker does with a heartbeat, or a reply, of a worker it does not
    know. *)
Lemma broker_disconnects E sock src m b :
  Pool.workers (b_pool b) !! src = None →
  command m = Heartbeat ∨ command m = Partial ∨ command m = Final →
  ∃ d b', processWorker E sock (with_source src m) b = (Broker.Val (), b')
    ∧ b_out b' = b_out b ++ [Send sock d] ∧ sourceId d = src ∧ protocolName d = workerProtocol
    ∧ command d = Disconnect ∧ data d = str "broker shutdown" ∧ Pool.workers (b_pool b') !! src = None.
Proof.
  intros Hsrc Hc. unfold processWorker, updatedWorkerExpiry, mbind, Broker.M_bind, Broker.now, mret, Broker.M_ret, Broker.gets, Broker.modify.
  cbn [b_pool Broker.tick sourceId serviceName with_source]. rewrite emplace_new by done.
  set (w := Pool.mkworker _ _ _ _). destruct (disconnect_new (Broker.uninit_id E) sock src (serviceName m) (w_expiry w) (b_pool b) Hsrc) as (p' & Hd & Hp').
  change (command (with_source src m)) with (command m).
  assert (Hwith : ∀ b1, b_pool b1 = mkpool (<[src := next_address (b_pool b)]> (Pool.workers (b_pool b)))
                          (<[next_address (b_pool b) := w]> (heap (b_pool b))) (S (next_address (b_pool b))) (services (b_pool b)) →
    with_pool (disconnectWorker (Broker.uninit_id E) (next_address (b_pool b))) b1
    = (Broker.Val (), add_out [Send sock (disconnect_message (Broker.uninit_id E) w)] (set_pool p' b1))).
  { intros b1 Hb1. unfold with_pool. rewrite Hb1. unfold w in *. cbn [w_expiry] in Hd. by rewrite Hd. }
  exists (disconnect_message (Broker.uninit_id E) w). eexists.
  destruct Hc as [-> |[-> | ->]]; (split; [apply Hwith; reflexivity|]); (split_and!; [done..|]); simpl; by rewrite Hp'.
Qed.

(** C36: A worker that the broker has forgotten, because it was silent for too long
    or the broker was started again, and that then sends a heartbeat or a reply,
    is told that the broker shuts down, and ends: it does not announce itself
    again, as it does when it gives up the broker. *)
Theorem forgotten_worker_quits EB EW sock src m b w :
  Pool.workers (b_pool b) !! src = None →
  command m = Heartbeat ∨ command m = Partial ∨ command m = Final →
  ∃ d b' w', processWorker EB sock (with_source src m) b = (Broker.Val (), b')
    ∧ b_out b' = b_out b ++ [Send sock d] ∧ sourceId d = src ∧ Pool.workers (b_pool b') !! src = None
    ∧ handleDealerMessage EW (without_source d) w = (Val (), w')
    ∧ shutdownRequested w' = true ∧ connections w' = connections w ∧ w_log w' = w_log w.
Proof.
  intros Hsrc Hc. destruct (broker_disconnects EB sock src m b Hsrc Hc) as (d & b' & H1 & H2 & H3 & H4 & H5 & H6 & H7).
  exists d, b', (set_shutdown (set_liveness (heartbeatLiveness EW) w)). split_and!; try done.
  unfold handleDealerMessage, mbind, M_bind, modify. cbn [protocolName command data without_source].
  rewrite H4, H5, H6, !bool_decide_eq_true_2 by done. done.
Qed.

Lemma forgotten_worker_quits_witness :
  let EB := sample_env Z.of_nat in
  let EW := sample_worker [ADMIN] all_connect in
  let w := (connectToBroker EW new_worker).2 in
  ∃ d b' w', processWorker EB RouterSocket (with_source (str "w") (createMessage EW Heartbeat)) start_broker = (Broker.Val (), b')
    ∧ b_out b' = [Send RouterSocket d]
    ∧ handleDealerMessage EW (without_source d) w = (Val (), w') ∧ shutdownRequested w' = true.
Proof.
  intros EB EW w.
  destruct (forgotten_worker_quits EB EW RouterSocket (str "w") (createMessage EW Heartbeat) start_broker w)
    as (d & b' & w' & H1 & H2 & _ & _ & H3 & H4 & _); [reflexivity|by left|].
  exists d, b', w'. split_and!; [exact H1|exact H2|exact H3|exact H4].
Defined.
