(* ===== verification/Dns.v ===== *)
(** * Dns: [services/dns_types.hpp], [services/dns_storage.hpp], [services/dns.hpp]

    The name service of signals: entries with a time to live, queries, the
    handler of the worker, and the storage on disk in the YaS format.  A
    [float] is its bits; a time point is a number of nanoseconds, and the
    readings of the clock are arguments. *)

From S2P Require Import Prelude Message.
From S2P Require IoBuffer Yas YasHeader Serialiser SerialiserSpec.
Local Open Scope Z_scope.

(** ** Entries *)

Record Entry : Type := mkentry {
  protocol : bytes;
  hostname : bytes;
  port : Z;
  service_name : bytes;
  service_type : bytes;
  signal_name : bytes;
  signal_unit : bytes;
  signal_rate : Z;
  signal_type : bytes
}.

#[export] Instance Entry_eq_dec : EqDecision Entry.
Proof. solve_decision. Defined.

(** [std::isnan] and [==] on the bits of a [float]. *)
Definition isnan (x : Z) : bool := 255 * 2 ^ 23 <? x mod 2 ^ 31.
Definition float_eq (x y : Z) : bool :=
  negb (isnan x) && negb (isnan y) && ((x =? y) || (x mod 2 ^ 31 =? 0) && (y mod 2 ^ 31 =? 0)).

Definition quiet_NaN : Z := 511 * 2 ^ 22.

(** [Entry::operator==], member by member. *)
Definition entry_eq (a b : Entry) : bool :=
  bool_decide (protocol a = protocol b) && bool_decide (hostname a = hostname b) && (port a =? port b)
  && bool_decide (service_name a = service_name b) && bool_decide (service_type a = service_type b)
  && bool_decide (signal_name a = signal_name b) && bool_decide (signal_unit a = signal_unit b)
  && float_eq (signal_rate a) (signal_rate b) && bool_decide (signal_type a = signal_type b).

Definition check_string (q e : bytes) : bool := bool_decide (q = []) || bool_decide (q = e).

(** [QueryEntry::operator==] *)
Definition query_matches (q e : Entry) : bool :=
  check_string (protocol q) (protocol e) && check_string (hostname q) (hostname e)
  && check_string (service_name q) (service_name e) && check_string (service_type q) (service_type e)
  && check_string (signal_name q) (signal_name e) && check_string (signal_type q) (signal_type e)
  && ((port q =? -1) || (port q =? port e))
  && (isnan (signal_rate q) || float_eq (signal_rate q) (signal_rate e)).

(** An entry that was not filled in. *)
Definition no_entry : Entry := mkentry [] [] (-1) [] [] [] [] quiet_NaN [].

(** ** Entries as columns *)

Record FlatEntryList : Type := mkflat {
  f_protocol : list bytes;
  f_hostname : list bytes;
  f_port : list Z;
  f_service_name : list bytes;
  f_service_type : list bytes;
  f_signal_name : list bytes;
  f_signal_unit : list bytes;
  f_signal_rate : list Z;
  f_signal_type : list bytes
}.

Definition flat_of (es : list Entry) : FlatEntryList :=
  mkflat (protocol <$> es) (hostname <$> es) (port <$> es) (service_name <$> es) (service_type <$> es)
    (signal_name <$> es) (signal_unit <$> es) (signal_rate <$> es) (signal_type <$> es).

Definition same_sizes (l : FlatEntryList) : bool :=
  let n := length (f_protocol l) in
  (length (f_hostname l) =? n)%nat && (length (f_port l) =? n)%nat && (length (f_service_name l) =? n)%nat
  && (length (f_service_type l) =? n)%nat && (length (f_signal_name l) =? n)%nat && (length (f_signal_unit l) =? n)%nat
  && (length (f_signal_rate l) =? n)%nat && (length (f_signal_type l) =? n)%nat.

Definition entry_at (l : FlatEntryList) (i : nat) : option Entry :=
  a ← f_protocol l !! i; b ← f_hostname l !! i; c ← f_port l !! i; d ← f_service_name l !! i;
  e ← f_service_type l !! i; f ← f_signal_name l !! i; g ← f_signal_unit l !! i; h ← f_signal_rate l !! i;
  j ← f_signal_type l !! i;
  Some (mkentry a b c d e f g h j).

(** [toEntries]; [None]: the assertion on the sizes fails. *)
Definition toEntries (l : FlatEntryList) : option (list Entry) :=
  if same_sizes l then mapM (entry_at l) (seq 0 (length (f_protocol l))) else None.

(** ** The storage *)

(** [TimeToLive<Entry>] *)
Record stored : Type := mkstored { s_entry : Entry; ttl : Z }.

Abbreviation storage := (list stored).

Definition hour : Z := 3600 * 10 ^ 9.
Definition time_min : Z := - 2 ^ 63.

Definition live (now : Z) (e : stored) : bool := now <? ttl e.

(** [addEntry]: the clock is read at [now], and again at [now'] for the new
    entry. *)
Definition invalidate (now : Z) (entry : Entry) (e : stored) : stored :=
  if live now e && entry_eq (s_entry e) entry then mkstored (s_entry e) time_min else e.

Definition addEntry (now now' : Z) (entry : Entry) (s : storage) : stored * storage :=
  let s1 := invalidate now entry <$> s in
  let newEntry := mkstored entry (now' + hour) in
  (newEntry, match list_find (λ e, ttl e < now) s1 with
             | Some (i, _) => <[i := newEntry]> s1
             | None => s1 ++ [newEntry]
             end).

(** [addEntries]; [clock] gives the readings for each entry. *)
Fixpoint addEntries (clock : list (Z * Z)) (entries : list Entry) (s : storage) : list Entry * storage :=
  match entries, clock with
  | e :: es, (now, now') :: clock' =>
      let '(added, s1) := addEntry now now' e s in
      let '(rest, s2) := addEntries clock' es s1 in
      (s_entry added :: rest, s2)
  | _, _ => ([], s)
  end.

Definition queryEntries (now : Z) (q : Entry) (s : storage) : list Entry :=
  s_entry <$> filter (λ e, query_matches q (s_entry e) && live now e = true) s.

(** [deleteEntries] for one filter, and for several. *)
Definition deleteEntries (q : Entry) (s : storage) : list Entry * storage :=
  (s_entry <$> filter (λ e, query_matches q (s_entry e) = true) s,
   filter (λ e, query_matches q (s_entry e) = false) s).

Fixpoint deleteEntries_all (qs : list Entry) (s : storage) : list Entry * storage :=
  match qs with
  | [] => ([], s)
  | q :: qs' => let '(d, s1) := deleteEntries q s in
                let '(ds, s2) := deleteEntries_all qs' s1 in
                (d ++ ds, s2)
  end.

Definition getActiveEntriesCount (now : Z) (s : storage) : nat := length (filter (λ e, live now e = true) s).

(** ** The handler *)

Record Context_ : Type := mkcontext { c_query : Entry; doDelete : bool }.

(** [None]: the assertion of [toEntries] fails.  The response is empty unless
    it is assigned. *)
Definition DnsHandler (clock : list (Z * Z)) (now : Z) (c : Command) (ctx : Context_) (input : FlatEntryList) (s : storage)
    : option (FlatEntryList * storage) :=
  match c with
  | Set_ =>
      es ← toEntries input;
      let '(out, s') := if doDelete ctx then deleteEntries_all es s else addEntries clock es s in
      Some (flat_of out, s')
  | Get => Some (flat_of (queryEntries now (c_query ctx) s), s)
  | _ => Some (flat_of [], s)
  end.

(** ** Entries as columns, and back *)

Lemma entry_at_flat es i : entry_at (flat_of es) i = es !! i.
Proof.
  unfold entry_at, flat_of. cbn -[list_lookup]. rewrite !list_lookup_fmap. destruct (es !! i) as [[]|]; done.
Qed.

Lemma mapM_lookup {A} (f : nat → option A) (l : list A) k :
  (∀ i, (i < length l)%nat → f (k + i)%nat = l !! i) → mapM f (seq k (length l)) = Some l.
Proof.
  revert k. induction l as [|x l IH]; intros k Hf; [done|]. cbn [length seq mapM].
  rewrite <- (Nat.add_0_r k) at 1. rewrite Hf by (simpl; lia). cbn [mbind option_bind lookup list_lookup].
  rewrite IH; [done|]. intros i Hi. replace (S k + i)%nat with (k + S i)%nat by lia. rewrite Hf by (simpl; lia). done.
Qed.

Lemma toEntries_flat es : toEntries (flat_of es) = Some es.
Proof.
  unfold toEntries, same_sizes. cbn. rewrite !length_fmap, !Nat.eqb_refl. cbn [andb].
  apply mapM_lookup. intros i _. apply entry_at_flat.
Qed.

(** ** Equality of entries *)

Ltac split_eq := unfold entry_eq in *; rewrite ?andb_true_iff, ?bool_decide_eq_true, ?Z.eqb_eq in *.

Lemma float_eq_sym x y : float_eq x y = float_eq y x.
Proof.
  unfold float_eq. rewrite (Z.eqb_sym x y). destruct (isnan x), (isnan y); simpl; try done.
  by rewrite (andb_comm (x mod _ =? 0)).
Qed.

Lemma float_eq_trans x y z : float_eq x y = true → float_eq y z = true → float_eq x z = true.
Proof.
  unfold float_eq. rewrite !andb_true_iff, !orb_true_iff, !andb_true_iff, !Z.eqb_eq.
  intros [[Hx Hy] H1] [[_ Hz] H2]. split; [done|]. destruct H1 as [->|[??]], H2 as [->|[??]]; auto.
Qed.

Lemma entry_eq_trans_sym a b c : entry_eq a c = true → entry_eq b c = true → entry_eq a b = true.
Proof.
  split_eq. intros H1 H2. decompose [and] H1. decompose [and] H2. split_and!; try congruence.
  eapply float_eq_trans; [done|]. by rewrite float_eq_sym.
Qed.

(** ** The storage *)

Definition active (t : Z) (s : storage) : list stored := filter (λ e, live t e = true) s.

Lemma active_invalidated now t entry s :
  time_min < now → now ≤ t →
  active t (invalidate now entry <$> s) = filter (λ e, entry_eq (s_entry e) entry = false) (active t s).
Proof.
  intros Hmin Ht. unfold active. induction s as [|e s IH]; [done|]. rewrite fmap_cons, !filter_cons, IH.
  unfold invalidate. destruct (live t e) eqn:Hl.
  - assert (live now e = true) as -> by (unfold live in *; lia). rewrite (decide_True (P := true = true)) by done.
    cbn [andb]. rewrite filter_cons. destruct (entry_eq (s_entry e) entry).
    + rewrite !decide_False; [done|done|unfold live; simpl; lia].
    + by rewrite !decide_True.
  - rewrite (decide_False (P := false = true)) by done. rewrite decide_False; [done|].
    destruct (live now e && entry_eq (s_entry e) entry); unfold live in *; simpl; lia.
Qed.

Lemma filter_insert_fresh {A} (P : A → Prop) `{!∀ x, Decision (P x)} l i x y :
  l !! i = Some y → ¬ P y → P x → filter P (<[i := x]> l) ≡ₚ x :: filter P l.
Proof.
  revert i. induction l as [|z l IH]; intros [|i] Hi Hy Hx; simplify_eq/=.
  - rewrite !filter_cons, decide_True, decide_False by done. done.
  - rewrite !filter_cons. case_decide; [|by apply IH]. rewrite (IH i) by done. apply Permutation_swap.
Qed.

Lemma addEntry_active now now' entry s t :
  time_min < now → now ≤ t → t < now' + hour →
  active t (addEntry now now' entry s).2
  ≡ₚ mkstored entry (now' + hour) :: filter (λ e, entry_eq (s_entry e) entry = false) (active t s).
Proof.
  intros Hmin Ht Ht'. rewrite <- (active_invalidated now) by done. unfold addEntry. cbn [snd].
  assert (Hnew : live t (mkstored entry (now' + hour)) = true) by (unfold live; simpl; lia).
  destruct (list_find _ _) as [[i e]|] eqn:Hf.
  - apply list_find_Some in Hf as (Hi & He & _). eapply filter_insert_fresh; [exact Hi| |done].
    unfold live. lia.
  - unfold active. rewrite filter_app, filter_cons, decide_True by done. rewrite filter_nil, Permutation_app_comm. done.
Qed.

(** How many active entries are equal to [e]. *)
Definition copies (e : Entry) (s : list stored) : nat := length (filter (λ x, entry_eq (s_entry x) e = true) s).

#[export] Instance copies_proper e : Proper ((≡ₚ) ==> eq) (copies e).
Proof. intros s s' H. unfold copies. by rewrite H. Qed.

Lemma copies_filter e entry s :
  copies e (filter (λ x, entry_eq (s_entry x) entry = false) s)
  = if entry_eq entry e then 0%nat else copies e s.
Proof.
  unfold copies. induction s as [|x s IH]; [by destruct (entry_eq entry e)|].
  rewrite !filter_cons. destruct (entry_eq entry e) eqn:He; case_decide as Hx; rewrite ?filter_cons.
  - rewrite decide_False; [done|]. intros Hxe. apply not_true_iff_false in Hx. apply Hx. by eapply entry_eq_trans_sym.
  - done.
  - case_decide; simpl; by rewrite IH.
  - rewrite decide_False; [done|]. intros Hxe. apply not_false_iff_true in Hx.
    assert (H : entry_eq entry e = true); [|congruence]. clear -Hx Hxe. split_eq. decompose [and] Hx. decompose [and] Hxe.
    split_and!; try congruence. eapply float_eq_trans; [|done]. by rewrite float_eq_sym.
Qed.

(** Registering an entry: from then on, and for an hour, the active entries are
    those that were active and differ from it, and the entry itself; so an
    entry is active at most once, however often it is registered; and the
    storage grows only when it holds no expired entry. *)
Theorem addEntry_refines now now' entry s t :
  time_min < now → now ≤ t → t < now' + hour →
  let added := (addEntry now now' entry s).1 in
  let s' := (addEntry now now' entry s).2 in
  s_entry added = entry
  ∧ active t s' ≡ₚ added :: filter (λ e, entry_eq (s_entry e) entry = false) (active t s)
  ∧ (∀ e, (copies e (active t s) ≤ 1)%nat → (copies e (active t s') ≤ 1)%nat)
  ∧ ((length s' ≤ S (length s))%nat ∧ (length s' = S (length s) → Forall (λ e, now ≤ ttl e) s)).
Proof.
  intros Hmin Ht Ht'. pose proof (addEntry_active now now' entry s t Hmin Ht Ht') as Ha.
  unfold addEntry in *. cbn [snd fst] in *. split_and!; [done|exact Ha| | |].
  - intros e He. rewrite Ha. unfold copies. rewrite filter_cons. fold (copies e (active t s)) in *.
    change (length (filter _ (filter ?P (active t s)))) with (copies e (filter P (active t s))).
    case_decide as Hc; simpl; fold (copies e (filter (λ e, entry_eq (s_entry e) entry = false) (active t s)));
      rewrite copies_filter; simpl in Hc.
    + by rewrite Hc.
    + apply not_true_iff_false in Hc. by rewrite Hc.
  - destruct (list_find _ _) as [[i e]|]; rewrite ?length_insert, ?length_app, !length_fmap; simpl; lia.
  - destruct (list_find _ _) as [[i e]|] eqn:Hf; rewrite ?length_insert, ?length_app, !length_fmap; simpl; [lia|].
    intros _. apply list_find_None in Hf. rewrite Forall_fmap in Hf. eapply Forall_impl; [exact Hf|].
    intros x Hx. simpl in Hx. unfold invalidate in Hx. destruct (live now x && _) eqn:Hl; simpl in Hx; [|lia].
    apply andb_true_iff in Hl as [Hl _]. unfold live in Hl. lia.
Qed.

(** ** Queries, deletions and the handler *)

Lemma deleteEntries_all_spec qs s :
  (∀ e, e ∈ (deleteEntries_all qs s).1 ↔ e ∈ s_entry <$> s ∧ existsb (λ q, query_matches q e) qs = true)
  ∧ (deleteEntries_all qs s).2 = filter (λ x, existsb (λ q, query_matches q (s_entry x)) qs = false) s.
Proof.
  revert s. induction qs as [|q qs IH]; intros s; cbn [deleteEntries_all].
  - split; [intros e; simpl; rewrite elem_of_nil; naive_solver|].
    induction s as [|x s IHs]; [done|]. cbn [snd] in *. rewrite filter_cons, decide_True, <- IHs by done. done.
  - unfold deleteEntries. specialize (IH (filter (λ e, query_matches q (s_entry e) = false) s)).
    destruct (deleteEntries_all qs _) as [ds s2]. destruct IH as [IH1 IH2]. cbn [fst snd existsb] in *. split.
    + intros e. rewrite elem_of_app, IH1, !list_elem_of_fmap. setoid_rewrite list_elem_of_filter.
      destruct (query_matches q e) eqn:Hq; simpl; naive_solver congruence.
    + rewrite IH2, list_filter_filter. apply list_filter_iff. intros x. rewrite orb_false_iff. tauto.
Qed.

Lemma entry_eq_sym a b : entry_eq a b = true → entry_eq b a = true.
Proof. split_eq. intros H. decompose [and] H. split_and!; try congruence. by rewrite float_eq_sym. Qed.

Lemma entry_eq_trans a b c : entry_eq a b = true → entry_eq b c = true → entry_eq a c = true.
Proof. intros H1 H2. eapply entry_eq_trans_sym; [exact H1|]. by apply entry_eq_sym. Qed.

Lemma query_matches_eq q a b : entry_eq a b = true → query_matches q a = query_matches q b.
Proof.
  split_eq. intros H. decompose [and] H. unfold query_matches.
  assert (Hr : float_eq (signal_rate q) (signal_rate a) = float_eq (signal_rate q) (signal_rate b)).
  { apply eq_true_iff_eq. split; intros Hq; (eapply float_eq_trans; [exact Hq|]); [done|by rewrite float_eq_sym]. }
  rewrite Hr. congruence.
Qed.

(** An entry that is active, or replaced by an equal one. *)
Definition same_entry (a b : Entry) : Prop := a = b ∨ entry_eq a b = true.

Definition covered (t : Z) (e : Entry) (s : storage) : Prop := ∃ x, x ∈ active t s ∧ same_entry (s_entry x) e.

Lemma covered_added now now' entry s t :
  time_min < now → now ≤ t → t < now' + hour → covered t entry (addEntry now now' entry s).2.
Proof.
  intros H1 H2 H3. exists (mkstored entry (now' + hour)). split; [|by left].
  rewrite (addEntry_active now now' entry s t) by done. by left.
Qed.

Lemma covered_kept now now' entry s t e :
  time_min < now → now ≤ t → t < now' + hour → covered t e s → covered t e (addEntry now now' entry s).2.
Proof.
  intros H1 H2 H3 (x & Hx & He). unfold covered. setoid_rewrite (addEntry_active now now' entry s t); [|done..].
  destruct (entry_eq (s_entry x) entry) eqn:Heq.
  - exists (mkstored entry (now' + hour)). split; [by left|]. right. simpl. destruct He as [<-|He].
    + by apply entry_eq_sym.
    + eapply entry_eq_trans; [by apply entry_eq_sym|done].
  - exists x. split; [|done]. right. by apply list_elem_of_filter.
Qed.

Definition readings_ok (t : Z) (c : Z * Z) : Prop := time_min < c.1 ∧ c.1 ≤ t ∧ t < c.2 + hour.

Lemma addEntries_covered clock es s t :
  length clock = length es → Forall (readings_ok t) clock →
  (∀ e, covered t e s → covered t e (addEntries clock es s).2) ∧ Forall (λ e, covered t e (addEntries clock es s).2) es.
Proof.
  intros Hl Hc. revert es s Hl. induction Hc as [|[a b] clock (H1 & H2 & H3) _ IH]; intros [|e es] s Hl; try done.
  cbn [addEntries]. destruct (addEntry a b e s) as [added s1] eqn:Hadd.
  assert (s1 = (addEntry a b e s).2) as -> by by rewrite Hadd. clear Hadd.
  specialize (IH es (addEntry a b e s).2 ltac:(by injection Hl)).
  destruct (addEntries clock es _) as [rest s2]. cbn [snd] in *. destruct IH as [IH1 IH2]. split.
  - intros e' He'. by apply IH1, covered_kept.
  - constructor; [|done]. by apply IH1, covered_added.
Qed.

Lemma addEntries_answer clock es s : length clock = length es → (addEntries clock es s).1 = es.
Proof.
  revert clock s. induction es as [|e es IH]; intros [|[a b] clock] s Hl; try done.
  cbn [addEntries]. destruct (addEntry a b e s) as [added s1] eqn:Hadd. unfold addEntry in Hadd. injection Hadd as <- _.
  specialize (IH clock s1 ltac:(by injection Hl)). destruct (addEntries clock es s1) as [rest s2]. simpl in *. by rewrite IH.
Qed.

Lemma covered_found t q e s :
  covered t e s → query_matches q e = true → ∃ e', e' ∈ queryEntries t q s ∧ same_entry e' e.
Proof.
  intros (x & Hx & He) Hq. exists (s_entry x). split; [|done]. unfold queryEntries, active in *.
  apply list_elem_of_filter in Hx as [Hl Hx]. apply list_elem_of_fmap. exists x. split; [done|].
  apply list_elem_of_filter. split; [|done]. rewrite Hl, andb_true_r.
  destruct He as [->|He]; [done|]. by rewrite (query_matches_eq q _ _ He).
Qed.

Lemma queryEntries_filter t q (P : Entry → Prop) `{!∀ e, Decision (P e)} s :
  queryEntries t q (filter (λ x, P (s_entry x)) s) = filter P (queryEntries t q s).
Proof.
  unfold queryEntries. rewrite list_filter_filter. induction s as [|x s IH]; [done|].
  rewrite !filter_cons. destruct (decide (P (s_entry x))) as [HP|HP], (decide (query_matches q (s_entry x) && live t x = true)) as [Hq|Hq].
  - rewrite decide_True, !fmap_cons, filter_cons, decide_True, IH by done. done.
  - rewrite decide_False, IH by naive_solver. done.
  - rewrite decide_False, fmap_cons, filter_cons, decide_False, IH by naive_solver. done.
  - rewrite decide_False, IH by naive_solver. done.
Qed.

(** What the handler of the service does.  A Get changes nothing and answers
    with the entries that have not expired and agree with the query in every
    field that is given, the unit apart.  A Set that deletes answers with the
    entries that one of the filters matches, expired ones included; none of them
    is found again, and every other entry is found as before.  A Set that
    registers answers with the entries it was sent, and for an hour a query
    that matches one of them finds it, or one equal to it. *)
Theorem handler_spec clock now ctx es s :
  DnsHandler clock now Get ctx (flat_of es) s = Some (flat_of (queryEntries now (c_query ctx) s), s)
  ∧ (doDelete ctx = true →
     ∃ deleted s', DnsHandler clock now Set_ ctx (flat_of es) s = Some (flat_of deleted, s')
       ∧ (∀ e, e ∈ deleted ↔ e ∈ s_entry <$> s ∧ existsb (λ q, query_matches q e) es = true)
       ∧ ∀ t q, queryEntries t q s' = filter (λ e, existsb (λ q', query_matches q' e) es = false) (queryEntries t q s))
  ∧ (doDelete ctx = false → length clock = length es →
     ∃ s', DnsHandler clock now Set_ ctx (flat_of es) s = Some (flat_of es, s')
       ∧ ∀ t q e, Forall (readings_ok t) clock → e ∈ es → query_matches q e = true →
                  ∃ e', e' ∈ queryEntries t q s' ∧ same_entry e' e).
Proof.
  unfold DnsHandler. rewrite toEntries_flat. cbn [mbind option_bind]. split; [done|]. split.
  - intros ->. destruct (deleteEntries_all_spec es s) as [H1 H2]. destruct (deleteEntries_all es s) as [d s'].
    exists d, s'. split_and!; [done|exact H1|]. intros t q. simpl in H2. subst s'.
    exact (queryEntries_filter t q (λ e, existsb (λ q', query_matches q' e) es = false) s).
  - intros -> Hl. pose proof (addEntries_answer clock es s Hl) as Ha.
    pose proof (λ t, addEntries_covered clock es s t Hl) as Hcov. destruct (addEntries clock es s) as [out s'].
    cbn [fst snd] in *. subst out. exists s'. split; [done|]. intros t q e Hc He Hq.
    destruct (Hcov t Hc) as [_ Hall]. rewrite Forall_forall in Hall.
    by apply (covered_found t q e s'); [apply Hall|].
Qed.

(** ** The storage on disk *)

Section disk.
Import IoBuffer Yas YasHeader Serialiser SerialiserSpec.
Context (junk : ascii) (w : walks) (sizeof : leaf → nat).
(** The name of the class [FlatEntryList]. *)
Context (className : bytes).

Definition plain_member (n : bytes) (a : prim) (xs : list (carrier a)) : member content :=
  mkmember n None false false (Leaf (Vec a) xs).

(** The members the reflection macro lists. *)
Definition flat_members (l : FlatEntryList) : list (member content) :=
  [plain_member (str "protocol") String (f_protocol l); plain_member (str "hostname") String (f_hostname l);
   plain_member (str "port") (Number Int32) (f_port l); plain_member (str "service_name") String (f_service_name l);
   plain_member (str "service_type") String (f_service_type l); plain_member (str "signal_name") String (f_signal_name l);
   plain_member (str "signal_unit") String (f_signal_unit l); plain_member (str "signal_rate") (Number Float) (f_signal_rate l);
   plain_member (str "signal_type") String (f_signal_type l)].

Definition strings (m : member content) : list bytes := match f_value m with Leaf (Vec String) xs => xs | _ => [] end.
Definition numbers (m : member content) : list Z := match f_value m with Leaf (Vec (Number _)) xs => xs | _ => [] end.

Definition members_flat (ms : list (member content)) : option FlatEntryList :=
  match ms with
  | [a; b; c; d; e; f; g; h; j] =>
      Some (mkflat (strings a) (strings b) (numbers c) (strings d) (strings e) (strings f) (strings g) (numbers h) (strings j))
  | _ => None
  end.

Definition saveDataToFile (s : storage) : option bytes :=
  b ← serialise junk w sizeof true className (flat_members (flat_of (s_entry <$> s))) (new_buffer junk 0);
  Some (IoBuffer.content b).

(** [now] is the reading of the clock for the new entries. *)
Definition loadDataFromFile (now : Z) (file : bytes) (s : storage) : outcome storage :=
  b ← defined (from_data junk file);
  '(ms, _, _) ← deserialise ALWAYS (S (size b)) className (flat_members (flat_of [])) no_info b;
  newEntries ← defined (l ← members_flat ms; toEntries l);
  Done (s ++ ((λ e, mkstored e (now + hour)) <$> newEntries)).

(** Entries that fit the format. *)
Definition fitting (e : Entry) : Prop :=
  Forall (λ x, fits (length x + 1))
    [protocol e; hostname e; service_name e; service_type e; signal_name e; signal_unit e; signal_type e]
  ∧ in_s 32 (port e) ∧ in_u 32 (signal_rate e).

Lemma from_data_reads data : data ≠ [] →
  ∃ b, from_data junk data = Some b ∧ reads b data [] ∧ position b = 0%nat ∧ size b = length data.
Proof.
  intros Hd. assert (Hl : (0 < length data)%nat) by (destruct data; [done|simpl; lia]).
  unfold from_data, resize, new_buffer, reserve, reallocate, store.
  repeat match goal with |- context [(?x <? ?y)%nat] => destruct (Nat.ltb_spec x y) end;
  repeat match goal with |- context [(?x =? ?y)%nat] => destruct (Nat.eqb_spec x y) end;
  unfold capacity in *; cbn [mem position size] in *; rewrite ?length_take, ?length_app, ?repeat_length in *; cbn [length] in *; try lia;
  rewrite (proj2 (Nat.leb_le _ _)) by lia;
  eexists; (split; [reflexivity|]); cbn [position size]; (split_and!; [|done|done]);
  unfold reads, wf, capacity, IoBuffer.content; cbn [position size mem]; rewrite take_0, app_nil_l, ?length_app;
  (split_and!; [lia|lia|]); rewrite drop_0, app_nil_r; by rewrite take_app_length.
Qed.

Lemma flat_members_ok es : fits (length es) → Forall fitting es → Forall member_ok (flat_members (flat_of es)).
Proof.
  intros Hn Hes. assert (Hstr : ∀ g : Entry → bytes, (∀ e, fitting e → fits (length (g e) + 1)) →
    leaf_ok (Vec String) (g <$> es)).
  { intros g Hg. split; [by rewrite length_fmap|]. rewrite Forall_fmap. eapply Forall_impl; [exact Hes|]. apply Hg. }
  assert (Hnum : ∀ (g : Entry → Z) t, (∀ e, fitting e → prim_ok (Number t) (g e)) → leaf_ok (Vec (Number t)) (g <$> es)).
  { intros g t Hg. split; [by rewrite length_fmap|]. rewrite Forall_fmap. eapply Forall_impl; [exact Hes|]. apply Hg. }
  unfold flat_members, flat_of, plain_member; repeat (apply Forall_cons; split); try (by apply Forall_nil);
    (split; [done|split; [done|]]); (apply Hstr || apply Hnum);
    intros e (Hf & Hp & Hr); try done; rewrite !Forall_cons in Hf; apply Hf.
Qed.

Lemma members_flat_members l : members_flat (flat_members l) = Some l.
Proof. by destruct l. Qed.

Lemma flat_members_class l l' : members_class (flat_members l) = members_class (flat_members l').
Proof. reflexivity. Qed.

Lemma flat_members_readable l : all_readable true ALWAYS (λ _, 9%nat) (flat_members l).
Proof.
  split; [|by repeat (apply Forall_cons; split); try (by apply Forall_nil)].
  change (names (flat_members l)) with (names (flat_members (mkflat [] [] [] [] [] [] [] [] []))).
  apply (bool_decide_unpack _). vm_compute. exact I.
Qed.

Lemma new_buffer_0 : wf (new_buffer junk 0) ∧ position (new_buffer junk 0) = size (new_buffer junk 0)
                     ∧ IoBuffer.content (new_buffer junk 0) = [].
Proof. split_and!; done || (unfold wf; simpl; lia). Qed.

Lemma save_load (HW : Walks w) now s s0 :
  sanitize className = className → fits (length className + 1) → fits (length s) → Forall fitting (s_entry <$> s) →
  fits (length (enc_object w true className (flat_members (flat_of (s_entry <$> s))))) →
  ∃ file, saveDataToFile s = Some file
          ∧ loadDataFromFile now file s0 = Done (s0 ++ ((λ e, mkstored (s_entry e) (now + hour)) <$> s)).
Proof using junk sizeof.
  intros Hc Hcf Hl Hs Hf. destruct new_buffer_0 as (Hw0 & Hp0 & Hc0).
  pose proof (flat_members_ok (s_entry <$> s) ltac:(by rewrite length_fmap) Hs) as Hok.
  destruct (serialise_wrote junk w sizeof true className _ (new_buffer junk 0) Hw0 Hok) as (b1 & H1 & W1).
  destruct W1 as (Hw1 & Hc1 & _). rewrite Hc0, app_nil_l in Hc1.
  exists (IoBuffer.content b1). unfold saveDataToFile. rewrite H1. split; [done|]. unfold loadDataFromFile. rewrite Hc1.
  set (data := enc_object _ _ _ _) in *. assert (Hne : data ≠ []) by (unfold data, enc_object, enc_info; done).
  destruct (from_data_reads data Hne) as (b & -> & Hr & Hpos & Hsize). cbn [defined mbind outcome_bind].
  destruct (merge_same_class true ALWAYS className (flat_members (flat_of [])) (flat_members (flat_of (s_entry <$> s))) (λ _, 9%nat))
    as (i' & Hm & _); [apply flat_members_class|apply flat_members_readable|exact Hc|by right|].
  pose proof (deserialise_object w true ALWAYS (S (size b)) className (flat_members (flat_of [])) className
                (flat_members (flat_of (s_entry <$> s))) no_info b eq_refl Hok Hcf) as Hd.
  unfold implements in Hd. rewrite Hm in Hd. rewrite Hd; [| | | |exact Hr].
  - cbn [mbind outcome_bind]. rewrite members_flat_members. cbn [mbind option_bind defined]. rewrite toEntries_flat.
    cbn [defined mbind outcome_bind]. by rewrite <- list_fmap_compose.
  - by rewrite Hsize.
  - unfold fields_depth. simpl. lia.
  - rewrite Hsize. unfold data, enc_object, enc_info, enc_marked, enc_fields, fields_weight.
    rewrite !length_app, length_le_bytes. cbn -[enc_member enc_header]. lia.
Qed.
End disk.


(** What a storage writes to its file when it is destroyed, one that is made
    later reads: all entries in their order, each with an hour to live from
    then on. *)
Theorem storage_persists junk w sizeof className now s s0 :
  Serialiser.Walks w → Serialiser.sanitize className = className → IoBuffer.fits (length className + 1) →
  IoBuffer.fits (length s) → Forall fitting (s_entry <$> s) →
  IoBuffer.fits (length (SerialiserSpec.enc_object w true className (flat_members (flat_of (s_entry <$> s))))) →
  ∃ file, saveDataToFile junk w sizeof className s = Some file
    ∧ loadDataFromFile junk className now file s0 = Serialiser.Done (s0 ++ ((λ e, mkstored (s_entry e) (now + hour)) <$> s)).
Proof. intros. by apply save_load. Qed.

(** *** Examples *)

Definition signal (n : bytes) (rate : Z) : Entry :=
  mkentry (str "http") (str "host") 8080 (str "svc") [] n (str "A") rate [].

(** 1.0 *)
Definition one_hertz : Z := 127 * 2 ^ 23.

Lemma addEntry_refines_witness :
  let e := signal (str "x") one_hertz in
  let s := (addEntry 10 11 e []).2 in
  let s' := (addEntry 20 21 e s).2 in
  length s' = 1%nat ∧ active 30 s' ≡ₚ [mkstored e (21 + hour)].
Proof.
  intros e s s'. split; [reflexivity|].
  destruct (addEntry_refines 20 21 e s 30 eq_refl) as (_ & H2 & _); [done..|]. exact H2.
Defined.

Lemma handler_spec_witness :
  let s := (addEntry 10 11 (signal (str "x") one_hertz) []).2 in
  ∃ deleted s', DnsHandler [] 20 Set_ (mkcontext no_entry true) (flat_of [signal (str "x") one_hertz]) s = Some (flat_of deleted, s')
    ∧ queryEntries 30 no_entry s' = [].
Proof.
  intros s. destruct (handler_spec [] 20 (mkcontext no_entry true) [signal (str "x") one_hertz] s) as (_ & H & _).
  destruct (H eq_refl) as (d & s' & H1 & _ & H2). exists d, s'. split; [exact H1|]. rewrite H2. vm_compute. reflexivity.
Defined.

Lemma storage_persists_witness :
  let s := [mkstored (signal (str "x") one_hertz) 5; mkstored (signal (str "y") quiet_NaN) 7] in
  ∃ file, saveDataToFile "?"%char SerialiserSpec.example_walks (λ _, 24%nat) (str "FlatEntryList") s = Some file
    ∧ loadDataFromFile "?"%char (str "FlatEntryList") 100 file []
      = Serialiser.Done [mkstored (signal (str "x") one_hertz) (100 + hour); mkstored (signal (str "y") quiet_NaN) (100 + hour)].
Proof.
  intros s. apply (storage_persists "?"%char SerialiserSpec.example_walks (λ _, 24%nat) (str "FlatEntryList") 100 s []).
  - apply SerialiserSpec.example_walks_ok.
  - reflexivity.
  - reflexivity.
  - reflexivity.
  - repeat (apply Forall_cons; split); try (by apply Forall_nil); (split; [|by split]);
      repeat (apply Forall_cons; split); try (by apply Forall_nil); reflexivity.
  - unfold IoBuffer.fits. vm_compute. reflexivity.
Defined.

(** ** What goes wrong *)

(** The rate of a signal that has none is not a number, which is not equal to
    itself: registering the signal again adds it once more. *)
Lemma registered_twice_found_twice :
  let e := signal (str "x") quiet_NaN in
  let s := (addEntry 20 21 e (addEntry 10 11 e []).2).2 in
  queryEntries 30 no_entry s = [e; e].
Proof. vm_compute. reflexivity. Qed.

(** A query for another unit finds the signal. *)
Lemma unit_ignored :
  let q := mkentry [] [] (-1) [] [] [] (str "V") quiet_NaN [] in
  queryEntries 30 q (addEntry 10 11 (signal (str "x") one_hertz) []).2 = [signal (str "x") one_hertz].
Proof. vm_compute. reflexivity. Qed.

(** An entry that has expired is written to the file, and is active again once
    the file is read. *)
Lemma expired_resurrected :
  let s := [mkstored (signal (str "x") one_hertz) 5] in
  let className := str "FlatEntryList" in
  queryEntries 10 no_entry s = []
  ∧ match saveDataToFile "?"%char SerialiserSpec.example_walks (λ _, 24%nat) className s with
    | Some file => match loadDataFromFile "?"%char className 100 file [] with
                   | Serialiser.Done s' => queryEntries 110 no_entry s' = [signal (str "x") one_hertz]
                   | _ => False
                   end
    | None => False
    end.
Proof. vm_compute. split; reflexivity. Qed.
