(* ===== verification/Client.v ===== *)
(** * Client: [client/include/Client.hpp], [ClientContext.hpp] and [ClientCommon.hpp]

    The client's side of the protocol: [Client] for requests over a DEALER
    socket, [SubscriptionClient] for notifications over a SUB socket, and
    [MDClientCtx], which numbers the requests, passes them to its polling thread
    over a socket pair, and calls the callbacks of the application back; and
    [ClientContext], which queues the commands of any thread in a ring buffer.

    A socket is the frames that have arrived on it, and a log of what was done
    with it.  Sending is taken for granted.  A callback is known by a number and
    returns.  The application's thread and the polling thread take turns: a
    request falls between two passes of the polling loop. *)

From S2P Require Import Prelude Text Uri Topic Message Claim RingBuffer.
Local Open Scope Z_scope.

Abbreviation ClientMessage := (message WithoutSourceId).
Abbreviation BrokerMessage := (message WithSourceId).

(** [std::from_chars] into a [w]-bit unsigned integer: there is no sign. *)
Definition from_chars_u (w : Z) (s : bytes) : from_chars_result :=
  match take_while is_digit s with
  | [] => invalid_argument
  | ds => if dec_value ds <? 2 ^ w then Parsed (dec_value ds) else result_out_of_range
  end.

(** ** Data *)

Inductive ConnectionState : Type := DISCONNECTED | CONNECTING | CONNECTED | DISCONNECTING.

#[export] Instance ConnectionState_eq_dec : EqDecision ConnectionState.
Proof. solve_decision. Defined.

Record connection : Type := mkconnection {
  con_authority : bytes;
  con_socket : nat;
  con_state : ConnectionState;
  con_nextReconnect : Z          (* _nextReconnectAttemptTimeStamp *)
}.

#[export] Instance connection_eq_dec : EqDecision connection.
Proof. solve_decision. Defined.

(** The two classes derived from [MDClientBase]. *)
Inductive client_kind : Type := MdpClient | SubClient.

#[export] Instance client_kind_eq_dec : EqDecision client_kind.
Proof. solve_decision. Defined.

Record client : Type := mkclient { c_kind : client_kind; c_connections : list connection }.

(** [Request] and [Subscription] have the same members. *)
Record pending : Type := mkpending { p_uri : uri; p_callback : nat; p_timestamp_received : Z }.

(** [client::Command]: a message and a callback, which may be empty. *)
Record client_command : Type := mkcommand { cmd : ClientMessage; callback : option nat }.

(** What happened. *)
Inductive event : Type :=
  | Connected (k : nat) (endpoint : bytes) (ok : bool)
  | Sent (k : nat) (m : ClientMessage)
  | ZmqSubscribe (k : nat) (topic : bytes)
  | ZmqUnsubscribe (k : nat) (topic : bytes)
  | Registered (req_id : Z) (cb : nat)               (* a request gets its number *)
  | Answered (req_id : Z) (cb : nat) (m : ClientMessage)
  | Notified (key : bytes) (cb : nat) (m : ClientMessage).

Record ctx : Type := mkctx {
  clients : gmap bytes client;              (* _clients; the key is the text of the URI *)
  sockets : nat;                            (* the number of sockets made *)
  pollitems : list nat;                     (* _pollitems without the control socket *)
  inbox : gmap nat (list recv_result);      (* what has arrived on each socket *)
  control : list bytes;                     (* the frames between the two control sockets *)
  requests : gmap Z pending;
  subscriptions : gmap bytes pending;
  request_id : Z;
  nextHousekeeping : Z;                     (* of the polling loop *)
  x_clock : nat;                            (* readings of the clock so far *)
  x_log : list event
}.

Definition set_clients (c : gmap bytes client) (x : ctx) : ctx :=
  mkctx c (sockets x) (pollitems x) (inbox x) (control x) (requests x) (subscriptions x) (request_id x)
    (nextHousekeeping x) (x_clock x) (x_log x).
Definition set_sockets (n : nat) (x : ctx) : ctx :=
  mkctx (clients x) n (pollitems x) (inbox x) (control x) (requests x) (subscriptions x) (request_id x)
    (nextHousekeeping x) (x_clock x) (x_log x).
Definition set_pollitems (l : list nat) (x : ctx) : ctx :=
  mkctx (clients x) (sockets x) l (inbox x) (control x) (requests x) (subscriptions x) (request_id x)
    (nextHousekeeping x) (x_clock x) (x_log x).
Definition set_inbox (i : gmap nat (list recv_result)) (x : ctx) : ctx :=
  mkctx (clients x) (sockets x) (pollitems x) i (control x) (requests x) (subscriptions x) (request_id x)
    (nextHousekeeping x) (x_clock x) (x_log x).
Definition set_control (l : list bytes) (x : ctx) : ctx :=
  mkctx (clients x) (sockets x) (pollitems x) (inbox x) l (requests x) (subscriptions x) (request_id x)
    (nextHousekeeping x) (x_clock x) (x_log x).
Definition set_requests (r : gmap Z pending) (x : ctx) : ctx :=
  mkctx (clients x) (sockets x) (pollitems x) (inbox x) (control x) r (subscriptions x) (request_id x)
    (nextHousekeeping x) (x_clock x) (x_log x).
Definition set_subscriptions (s : gmap bytes pending) (x : ctx) : ctx :=
  mkctx (clients x) (sockets x) (pollitems x) (inbox x) (control x) (requests x) s (request_id x)
    (nextHousekeeping x) (x_clock x) (x_log x).
Definition set_request_id (i : Z) (x : ctx) : ctx :=
  mkctx (clients x) (sockets x) (pollitems x) (inbox x) (control x) (requests x) (subscriptions x) i
    (nextHousekeeping x) (x_clock x) (x_log x).
Definition set_nextHousekeeping (t : Z) (x : ctx) : ctx :=
  mkctx (clients x) (sockets x) (pollitems x) (inbox x) (control x) (requests x) (subscriptions x) (request_id x)
    t (x_clock x) (x_log x).
Definition tick (x : ctx) : ctx :=
  mkctx (clients x) (sockets x) (pollitems x) (inbox x) (control x) (requests x) (subscriptions x) (request_id x)
    (nextHousekeeping x) (S (x_clock x)) (x_log x).
Definition add_log (l : list event) (x : ctx) : ctx :=
  mkctx (clients x) (sockets x) (pollitems x) (inbox x) (control x) (requests x) (subscriptions x) (request_id x)
    (nextHousekeeping x) (x_clock x) (x_log x ++ l).

(** A new context: [start] is the first reading of the clock by its thread. *)
Definition new_ctx (start : Z) : ctx := mkctx ∅ 0 [] ∅ [] ∅ ∅ 0 start 0 [].

(** ** The monad of the operations *)

Definition M (A : Type) : Type := ctx → result A * ctx.

#[export] Instance M_ret : MRet M := λ A a x, (Ok a, x).
#[export] Instance M_bind : MBind M := λ A B k m x,
  match m x with
  | (Ok a, x') => k a x'
  | (Throw e, x') => (Throw e, x')
  end.

Definition gets {A} (g : ctx → A) : M A := λ x, (Ok (g x), x).
Definition modify (g : ctx → ctx) : M () := λ x, (Ok (), g x).
Definition lift {A} (r : result A) : M A := λ x, (r, x).
Definition throw {A} (e : exn) : M A := lift (Throw e).

(** What surrounds a context: its timeout in milliseconds, the clock by number
    of reading, in nanoseconds, whether the first [zmq_connect] of a socket and
    each later one succeeds, the orders of hash tables, and what uninitialised
    memory holds. *)
Record environment : Type := mkenv {
  timeout_ : Z;
  clock : nat → Z;
  connects : nat → nat → bool;        (* by socket and by reading of the clock *)
  query_order : params → list (bytes * option bytes);
  walk : ctx → list bytes;            (* the keys of [_clients] in the order of its iteration *)
  uninit_id : Z;
  uninit : Z
}.

Section client.
Context (E : environment).

Definition now : M Z := λ x, (Ok (clock E (x_clock x)), tick x).

(** [_clients.at(key)] *)
Definition client_at (key : bytes) : M client :=
  cs ← gets clients; match cs !! key with Some c => mret c | None => throw OutOfRange end.
Definition store (key : bytes) (c : client) : M () := modify (λ x, set_clients (<[key := c]> (clients x)) x).

(** ** Connections *)

(** [uri.authority().value()] *)
Definition authority_value (u : uri) : result bytes :=
  match returnOpt (u_authority u) with Some a => Ok a | None => Throw BadOptionalAccess end.

(** The address given to ZeroMQ. *)
Definition endpoint (authority : bytes) : result bytes :=
  rbind (parseURI STRICT ((if bool_decide (find_if (eqc ":") authority = None) then str "inproc://" else str "tcp://")
                          ++ authority)) (λ ep,
    match toZeroMQEndpoint (mkauth [] [] [] []) ep with Some s => Ok s | None => Throw OutOfRange end).

(** [Connection(context, authority, type)] *)
Definition new_connection (authority : bytes) : M connection :=
  k ← gets sockets;
  modify (set_sockets (S k)) ;;
  t ← now;
  mret (mkconnection authority k DISCONNECTED t).

Definition with_state (s : ConnectionState) (c : connection) : connection :=
  mkconnection (con_authority c) (con_socket c) s (con_nextReconnect c).

(** [connect(Connection &)] of the two classes: only that of the subscription
    client looks at the result before it is [CONNECTED]. *)
Definition connect (kind : client_kind) (con : connection) : M connection :=
  ep ← lift (endpoint (con_authority con));
  n ← gets x_clock;
  let ok := connects E (con_socket con) n in
  modify (add_log [Connected (con_socket con) ep ok]) ;;
  (if ok : bool then modify (λ x, set_pollitems (pollitems x ++ [con_socket con]) x) else mret ()) ;;
  mret (if ok || bool_decide (kind = MdpClient) then with_state CONNECTED con else con).

(** [connect(const URI &)] *)
Definition connect_uri (key : bytes) (u : uri) : M () :=
  a ← lift (authority_value u);
  con ← new_connection a;
  c ← client_at key;
  store key (mkclient (c_kind c) (c_connections c ++ [con])).

Definition has_authority (a : bytes) (con : connection) : bool := bool_decide (con_authority con = a).

Definition findConnection (key : bytes) (u : uri) : M connection :=
  c ← client_at key;
  a ← lift (authority_value u);
  match find (has_authority a) (c_connections c) with
  | Some con => mret con
  | None =>
      newCon ← new_connection a;
      newCon' ← connect (c_kind c) newCon;
      store key (mkclient (c_kind c) (c_connections c ++ [newCon'])) ;;
      mret newCon'
  end.

(** [disconnect(Connection &)]; it is the caller's connection that changes. *)
Definition disconnect (con : connection) : M connection :=
  modify (λ x, set_pollitems (filter (λ k, k ≠ con_socket con) (pollitems x)) x) ;;
  _ ← lift (parseURI STRICT (con_authority con));
  mret (with_state DISCONNECTED con).

(** ** Requests *)

Definition createRequestTemplate (command : Command) (u : uri) (req_id : bytes) : result ClientMessage :=
  rbind (fromString (uninit E) (default [] (relativeRefNoFragment u)) ∅) (λ subscription,
    rbind (toMdpTopic (query_order E (_params subscription)) subscription) (λ tp,
      Ok (@mkmsg WithoutSourceId tt (uninit_id E) 0 default_timeout clientProtocol command (_service subscription)
            req_id tp [] [] []))).

Definition with_data (d : bytes) (m : ClientMessage) : ClientMessage :=
  @mkmsg WithoutSourceId tt (id m) (arrivalTime m) (timeout m) (protocolName m) (command m) (serviceName m)
    (clientRequestID m) (topic m) d (error m) (rbac m).

(** [get], [set], [subscribe] and [unsubscribe] of [Client]. *)
Definition client_send (command : Command) (key : bytes) (u : uri) (req_id : bytes) (request : bytes) : M () :=
  con ← findConnection key u;
  message ← lift (createRequestTemplate command u req_id);
  modify (add_log [Sent (con_socket con) (with_data request message)]).

Definition subscription_topic (u : uri) : result bytes :=
  rbind (fromString (uninit E) (default [] (relativeRefNoFragment u)) ∅) (λ t, Ok (toZmqTopic true t)).

(** The virtual functions, by the class of the object. *)
Definition get (key : bytes) (u : uri) (req_id : bytes) : M () :=
  c ← client_at key;
  match c_kind c with
  | MdpClient => client_send Get key u req_id []
  | SubClient => throw LogicError
  end.

Definition set (key : bytes) (u : uri) (req_id request : bytes) : M () :=
  c ← client_at key;
  match c_kind c with
  | MdpClient => client_send Set_ key u req_id request
  | SubClient => throw LogicError
  end.

Definition subscribe (key : bytes) (u : uri) (req_id : bytes) : M () :=
  c ← client_at key;
  match c_kind c with
  | MdpClient => client_send Subscribe key u req_id []
  | SubClient =>
      con ← findConnection key u;
      t ← lift (subscription_topic u);
      modify (add_log [ZmqSubscribe (con_socket con) t])
  end.

Definition unsubscribe (key : bytes) (u : uri) (req_id : bytes) : M () :=
  c ← client_at key;
  match c_kind c with
  | MdpClient => client_send Unsubscribe key u req_id []
  | SubClient =>
      con ← findConnection key u;
      t ← lift (subscription_topic u);
      modify (add_log [ZmqUnsubscribe (con_socket con) t])
  end.

(** ** Receiving *)

(** [zmq::receive] on the socket [k]: an exception comes from a topic that is
    not a reference. *)
Definition zmq_receive (f : MessageFormat) (k : nat) : M (option (message f)) :=
  i ← gets inbox;
  let (r, rest) := Message.receive f (uninit_id E) (default [] (i !! k)) in
  modify (set_inbox (<[k := rest]> i)) ;;
  lift r.

Definition is_notification {f} (m : message f) : bool :=
  bool_decide (command m = Notify) || bool_decide (command m = Final).

(** [Client::handleMessage]: the message with its time and its number, or
    [None] for [false]. *)
Definition read_id (s : bytes) : Z := match from_chars_u 64 s with Parsed z => z | _ => 0 end.

Definition with_arrival (t i : Z) (m : ClientMessage) : ClientMessage :=
  @mkmsg WithoutSourceId tt i t (timeout m) (protocolName m) (command m) (serviceName m)
    (clientRequestID m) (topic m) (data m) (error m) (rbac m).

Definition handleMessage (m : ClientMessage) : M (option ClientMessage) :=
  if is_notification m then
    t ← now;
    mret (Some (with_arrival t (read_id (clientRequestID m)) m))
  else mret None.

(** [SubscriptionClient::handleMessage]: [output] keeps what is not assigned,
    all of it if the command is another one. *)
Definition handleSubscriptionMessage (m : BrokerMessage) (output : ClientMessage) : M ClientMessage :=
  if is_notification m then
    t ← now;
    mret (@mkmsg WithoutSourceId tt 0 t (timeout output) (protocolName output) (command output) (sourceId m)
            (clientRequestID m) (topic m) (data m) (error m) (rbac m))
  else mret output.

(** The body of the loop of [receive(msg)], for a connection that is up: what it
    returns, with the message, unless there is nothing on the socket. *)
Definition receive_one (kind : client_kind) (con : connection) (msg : ClientMessage)
    : M (option (bool * ClientMessage)) :=
  match kind with
  | MdpClient =>
      r ← zmq_receive WithoutSourceId (con_socket con);
      match r with
      | None => mret None
      | Some m =>
          o ← handleMessage m;
          match o with None => mret (Some (false, msg)) | Some m' => mret (Some (true, m')) end
      end
  | SubClient =>
      r ← zmq_receive WithSourceId (con_socket con);
      match r with
      | None => mret None
      | Some m => msg' ← handleSubscriptionMessage m msg; mret (Some (true, msg'))
      end
  end.

Fixpoint receive_from (kind : client_kind) (cons : list connection) (msg : ClientMessage)
    : M (bool * ClientMessage) :=
  match cons with
  | [] => mret (false, msg)
  | con :: cons' =>
      if negb (bool_decide (con_state con = CONNECTED)) then receive_from kind cons' msg
      else
        r ← receive_one kind con msg;
        match r with Some res => mret res | None => receive_from kind cons' msg end
  end.

Definition receive (key : bytes) (msg : ClientMessage) : M (bool * ClientMessage) :=
  c ← client_at key; receive_from (c_kind c) (c_connections c) msg.

(** ** Housekeeping *)

(** The loop over the connections; [done] are those it has passed. *)
Fixpoint reconnect (key : bytes) (kind : client_kind) (t : Z) (done todo : list connection) : M () :=
  match todo with
  | [] => mret ()
  | con :: todo' =>
      con' ← (match con_state con with
              | DISCONNECTED => if con_nextReconnect con <=? t then connect kind con else mret con
              | CONNECTING | CONNECTED | DISCONNECTING => mret con
              end);
      store key (mkclient kind (done ++ con' :: todo')) ;;
      reconnect key kind t (done ++ [con']) todo'
  end.

Definition milliseconds (n : Z) : Z := n * 1000000.

(** [client->housekeeping(now)] *)
Definition client_housekeeping (t : Z) (key : bytes) : M Z :=
  c ← client_at key;
  reconnect key (c_kind c) t [] (c_connections c) ;;
  mret (t + milliseconds (Z.quot (timeout_ E) 2)).

Fixpoint housekeeping_over (t next : Z) (keys : list bytes) : M Z :=
  match keys with
  | [] => mret next
  | key :: keys' => n ← client_housekeeping t key; housekeeping_over t (Z.min next n) keys'
  end.

Definition housekeeping (t : Z) : M Z :=
  keys ← gets (walk E);
  housekeeping_over t (t + milliseconds (timeout_ E)) keys.

(** The test both loops make. *)
Definition housekeeping_if_due : M () :=
  t ← now;
  due ← gets nextHousekeeping;
  if due <? t then next ← housekeeping t; modify (set_nextHousekeeping next) else mret ().

(** ** The context *)

(** [URI::factory(uri).setQuery({}).path("").fragment("").build()]; nothing of
    the authority has been parsed, so the factory does not fail. *)
Definition baseUri (u : uri) : result uri :=
  match factory_of (mkauth [] [] [] []) u with
  | Some f => build STRICT (mkfactory (f_authority f) (f_scheme f) (f_user f) (f_pwd f) (f_host f) (f_port f) [] [] [] [])
  | None => Throw InvalidArgument
  end.

Definition createClient (u : uri) : result client :=
  if starts_with (u_str u) (str "mdp") then Ok (mkclient MdpClient [])
  else if starts_with (u_str u) (str "mds") then Ok (mkclient SubClient [])
  else Throw LogicError.

(** The key of the client. *)
Definition getClient (u : uri) : M bytes :=
  b ← lift (baseUri u);
  cs ← gets clients;
  match cs !! u_str b with
  | Some _ => mret (u_str b)
  | None => c ← lift (createClient b); store (u_str b) c ;; mret (u_str b)
  end.

(** [unordered_map::insert]: what is there stays. *)
Definition insert_new {K A} `{Countable K} (k : K) (a : A) (m : gmap K A) : gmap K A :=
  match m !! k with Some _ => m | None => <[k := a]> m end.

Definition sendCmd (u : uri) (commandType : Command) (req_id : Z) (d rb : bytes) : M () :=
  modify (λ x, set_control (control x ++ [[chr (command_code commandType)]; to_dec req_id; u_str u; rb]
                              ++ (if bool_decide (commandType = Set_) then [d] else [])) x).

Definition next_request_id : M Z :=
  i ← gets request_id;
  modify (set_request_id (wrapu 64 (i + 1))) ;;
  mret i.

Definition request (c : client_command) : M () :=
  let m := cmd c in
  req_id ← (match callback c with
            | None => mret 0
            | Some cb =>
                let p := mkpending (topic m) cb (arrivalTime m) in
                match command m with
                | Get | Set_ =>
                    i ← next_request_id;
                    modify (λ x, set_requests (insert_new i p (requests x)) (add_log [Registered i cb] x)) ;;
                    mret i
                | Subscribe =>
                    i ← next_request_id;
                    t ← lift (fromMdpTopic (uninit E) STRICT (topic m));
                    modify (λ x, set_subscriptions (insert_new (toZmqTopic true t) p (subscriptions x)) x) ;;
                    mret i
                | Unsubscribe => modify (λ x, set_requests (delete 0 (requests x)) x) ;; mret 0
                | _ => mret 0
                end
            end);
  sendCmd (topic m) (command m) req_id (data m) (rbac m).

(** [frame.receive(_control_socket_recv, ZMQ_DONTWAIT)] *)
Definition receive_frame : M (option bytes) :=
  fs ← gets control;
  match fs with
  | [] => mret None
  | f :: fs' => modify (set_control fs') ;; mret (Some f)
  end.

Definition expect_frame : M bytes :=
  f ← receive_frame; match f with Some f => mret f | None => throw LogicError end.

(** The body of the loop, after the first frame. *)
Definition handleRequest (cmd_ : bytes) : M () :=
  reqId ← expect_frame;
  endpoint_ ← expect_frame;
  _ ← expect_frame;                 (* rbac, which nobody uses *)
  u ← lift (parseURI STRICT endpoint_);
  key ← getClient u;
  match cmd_ with
  | [c] =>
      if eqc c (chr (command_code Get)) then get key u reqId
      else if eqc c (chr (command_code Set_)) then d ← expect_frame; set key u reqId d
      else if eqc c (chr (command_code Subscribe)) then subscribe key u reqId
      else if eqc c (chr (command_code Unsubscribe)) then unsubscribe key u reqId
      else throw LogicError
  | _ => throw LogicError
  end.

(** A turn of the loop takes four frames at least, so that the fuel, the number
    of frames, is enough. *)
Fixpoint handleRequests_loop (fuel : nat) : M () :=
  match fuel with
  | O => mret ()
  | S fuel' =>
      f ← receive_frame;
      match f with
      | None => mret ()
      | Some cmd_ => handleRequest cmd_ ;; handleRequests_loop fuel'
      end
  end.

Definition handleRequests : M () := fs ← gets control; handleRequests_loop (S (length fs)).

(** ** The polling loop *)

(** The body of the loop over one client's messages. *)
Definition deliver (m : ClientMessage) : M () :=
  subs ← gets subscriptions;
  (match subs !! serviceName m with
   | Some s => modify (add_log [Notified (serviceName m) (p_callback s) m])
   | None => mret ()
   end) ;;
  reqs ← gets requests;
  match reqs !! id m with
  | Some r => modify (λ x, set_requests (delete (id m) (requests x)) (add_log [Answered (id m) (p_callback r) m] x))
  | None => mret ()
  end.

(** What arrives on each socket before a call of [receive]. *)
Definition arrivals : Type := list (nat * list recv_result).
Definition arrive (a : arrivals) (x : ctx) : ctx :=
  set_inbox (fold_left (λ i p, <[p.1 := default [] (i !! p.1) ++ p.2]> i) a (inbox x)) x.

(** [while (client->receive(receivedEvent))]; the list has an element for each
    call of [receive]. *)
Fixpoint drain (key : bytes) (turns : list arrivals) (receivedEvent : ClientMessage) : M () :=
  match turns with
  | [] => mret ()
  | a :: turns' =>
      modify (arrive a) ;;
      '(received, receivedEvent') ← receive key receivedEvent;
      if received : bool then
        deliver receivedEvent' ;;
        housekeeping_if_due ;;
        drain key turns' receivedEvent'
      else mret ()
  end.

(** A message as it is declared. *)
Definition default_message : ClientMessage :=
  @mkmsg WithoutSourceId tt (uninit_id E) 0 default_timeout [] Invalid (str "/") [] root_topic [] [] [].

Fixpoint drain_all (keys : list bytes) (arriving : bytes → list arrivals) : M () :=
  match keys with
  | [] => mret ()
  | key :: keys' => drain key (arriving key) default_message ;; drain_all keys' arriving
  end.

(** One pass of [poll]. *)
Definition pass (arriving : bytes → list arrivals) : M () :=
  housekeeping_if_due ;;
  handleRequests ;;
  keys ← gets (walk E);
  drain_all keys arriving.

(** What the two threads do: the application's asks, the context's polls; an
    exception ends the program. *)
Inductive action : Type := Ask (c : client_command) | Pass (arriving : bytes → list arrivals).

Definition act (a : action) : M () :=
  match a with Ask c => request c | Pass arriving => pass arriving end.

Fixpoint acts (l : list action) : M () :=
  match l with
  | [] => mret ()
  | a :: l' => act a ;; acts l'
  end.
End client.

(** ** Each callback at most once, with the answer to its request *)

Definition registered (e : event) : option (Z * nat) :=
  match e with Registered i cb => Some (i, cb) | _ => None end.
Definition answered (e : event) : option Z := match e with Answered i _ _ => Some i | _ => None end.

(** The callback an action leaves for an answer. *)
Definition asked (a : action) : option nat :=
  match a with
  | Ask c => match command (cmd c) with Get | Set_ => callback c | _ => None end
  | Pass _ => None
  end.

(** An operation that leaves the requests alone. *)
Definition quiet_event (e : event) : Prop := registered e = None ∧ answered e = None.

Definition quiet {A} (m : M A) : Prop :=
  ∀ x, ∃ l, x_log (m x).2 = x_log x ++ l ∧ Forall quiet_event l
    ∧ requests (m x).2 = requests x ∧ request_id (m x).2 = request_id x ∧ subscriptions (m x).2 = subscriptions x.

Lemma quiet_ret {A} (a : A) : quiet (mret a).
Proof. intros x. exists []. simpl. by rewrite app_nil_r. Qed.

Lemma quiet_lift {A} (r : result A) : quiet (lift r).
Proof. intros x. exists []. simpl. by rewrite app_nil_r. Qed.

Lemma quiet_gets {A} (g : ctx → A) : quiet (gets g).
Proof. intros x. exists []. simpl. by rewrite app_nil_r. Qed.

Lemma quiet_bind {A B} (m : M A) (k : A → M B) : quiet m → (∀ a, quiet (k a)) → quiet (m ≫= k).
Proof.
  intros Hm Hk x. destruct (Hm x) as (l & Hl & Hq & Hr & Hi & Hs). unfold mbind, M_bind.
  destruct (m x) as [[a|e] x'] eqn:Em; simpl in *; [|by exists l].
  destruct (Hk a x') as (l' & Hl' & Hq' & Hr' & Hi' & Hs'). exists (l ++ l'). split_and!.
  - by rewrite Hl', Hl, app_assoc.
  - by apply Forall_app.
  - by rewrite Hr'.
  - by rewrite Hi'.
  - by rewrite Hs'.
Qed.

(** The updates of the other fields, and the other events. *)
Lemma quiet_modify (g : ctx → ctx) :
  (∀ x, x_log (g x) = x_log x ∧ requests (g x) = requests x ∧ request_id (g x) = request_id x
      ∧ subscriptions (g x) = subscriptions x) → quiet (modify g).
Proof. intros H x. exists []. simpl. destruct (H x) as (-> & -> & -> & ->). by rewrite app_nil_r. Qed.

Lemma quiet_log l : Forall quiet_event l → quiet (modify (add_log l)).
Proof. intros H x. by exists l. Qed.

Ltac solve_quiet :=
  repeat match goal with
    | |- quiet (mret _) => apply quiet_ret
    | |- quiet (lift _) => apply quiet_lift
    | |- quiet (throw _) => apply quiet_lift
    | |- quiet (gets _) => apply quiet_gets
    | |- quiet (modify (add_log _)) => apply quiet_log; by repeat constructor
    | |- quiet (modify _) => apply quiet_modify; done
    | |- quiet (_ ≫= _) => apply quiet_bind; intros
    | |- quiet (match ?x with _ => _ end) => destruct x
    | |- quiet (let '(_, _) := ?x in _) => destruct x
    | |- quiet _ => solve [eauto with quiet]
    end.

Create HintDb quiet.

Section quiet.
Context (E : environment).

Lemma quiet_now : quiet (now E).
Proof. intros x. exists []. simpl. by rewrite app_nil_r. Qed.
#[local] Hint Resolve quiet_now : quiet.

Lemma quiet_client_at key : quiet (client_at key).
Proof. unfold client_at. solve_quiet. Qed.
#[local] Hint Resolve quiet_client_at : quiet.

Lemma quiet_store key c : quiet (store key c).
Proof. unfold store. solve_quiet. Qed.
#[local] Hint Resolve quiet_store : quiet.

Lemma quiet_connect kind con : quiet (connect E kind con).
Proof. unfold connect. solve_quiet. Qed.
#[local] Hint Resolve quiet_connect : quiet.

Lemma quiet_findConnection key u : quiet (findConnection E key u).
Proof. unfold findConnection, new_connection. solve_quiet. Qed.
#[local] Hint Resolve quiet_findConnection : quiet.

Lemma quiet_client_send c key u i r : quiet (client_send E c key u i r).
Proof. unfold client_send. solve_quiet. Qed.
#[local] Hint Resolve quiet_client_send : quiet.

Lemma quiet_operations key u i r :
  quiet (get E key u i) ∧ quiet (set E key u i r) ∧ quiet (subscribe E key u i) ∧ quiet (unsubscribe E key u i).
Proof. unfold get, set, subscribe, unsubscribe. split_and!; solve_quiet. Qed.

Lemma quiet_receive_frame : quiet receive_frame.
Proof. unfold receive_frame. solve_quiet. Qed.
#[local] Hint Resolve quiet_receive_frame : quiet.

Lemma quiet_expect_frame : quiet expect_frame.
Proof. unfold expect_frame. solve_quiet. Qed.
#[local] Hint Resolve quiet_expect_frame : quiet.

Lemma quiet_getClient u : quiet (getClient u).
Proof. unfold getClient. solve_quiet. Qed.
#[local] Hint Resolve quiet_getClient : quiet.

Lemma quiet_handleRequest f : quiet (handleRequest E f).
Proof.
  unfold handleRequest. solve_quiet; by apply quiet_operations.
Qed.
#[local] Hint Resolve quiet_handleRequest : quiet.

Lemma quiet_handleRequests : quiet (handleRequests E).
Proof.
  unfold handleRequests. apply quiet_bind; [apply quiet_gets|]. intros fs. generalize (S (length fs)). clear fs.
  intros n. induction n; simpl; solve_quiet.
Qed.

Lemma quiet_receive key m : quiet (receive E key m).
Proof.
  assert (Hz : ∀ f k, quiet (zmq_receive E f k)).
  { intros f k. unfold zmq_receive. apply quiet_bind; [apply quiet_gets|]. intros i. destruct (Message.receive _ _ _). solve_quiet. }
  unfold receive. apply quiet_bind; [apply quiet_client_at|]. intros c.
  induction (c_connections c); simpl; [solve_quiet|]. unfold receive_one, handleMessage, handleSubscriptionMessage. solve_quiet.
Qed.
#[local] Hint Resolve quiet_receive : quiet.

Lemma quiet_housekeeping_if_due : quiet (housekeeping_if_due E).
Proof.
  assert (Hr : ∀ key kind t todo done, quiet (reconnect E key kind t done todo)).
  { intros key kind t todo. induction todo; intros dn; simpl; solve_quiet. }
  assert (Hc : ∀ t key, quiet (client_housekeeping E t key)).
  { intros. unfold client_housekeeping. solve_quiet. }
  assert (Hh : ∀ t keys next, quiet (housekeeping_over E t next keys)).
  { intros t keys. induction keys; intros next; simpl; solve_quiet. }
  unfold housekeeping_if_due, housekeeping. solve_quiet.
Qed.
End quiet.

(** *** The number of a message *)

(** What stands for a number at the front of a text. *)
Definition reads_as (s : bytes) (i : Z) : Prop :=
  ∃ ds rest, s = ds ++ rest ∧ ds ≠ [] ∧ Forall (λ c, is_digit c = true) ds
    ∧ match rest with [] => True | c :: _ => is_digit c = false end ∧ dec_value ds = i.

(** The number it carries; 0 where it carries none that can be read; and that of a
    message that was declared and not written. *)
Definition numbered (E : environment) (m : ClientMessage) : Prop :=
  reads_as (clientRequestID m) (id m) ∨ id m = 0 ∨ id m = uninit_id E.

Lemma take_while_split (p : ascii → bool) s :
  ∃ rest, s = take_while p s ++ rest ∧ Forall (λ c, p c = true) (take_while p s)
    ∧ match rest with [] => True | c :: _ => p c = false end.
Proof.
  induction s as [|c s (rest & E1 & E2 & E3)]; simpl; [by exists []|]. destruct (p c) eqn:Hc.
  - exists rest. simpl. split; [by rewrite E1 at 1|]. split; [by constructor|done].
  - by exists (c :: s).
Qed.

Lemma read_id_reads s : reads_as s (read_id s) ∨ read_id s = 0.
Proof.
  unfold read_id, from_chars_u. destruct (take_while_split is_digit s) as (rest & E & Hd & Hr).
  destruct (take_while is_digit s) as [|d ds] eqn:Et; [by right|]. destruct (_ <? _); [|by right].
  left. exists (d :: ds), rest. done.
Qed.

(** What is received has its number, if what was received before has. *)
Lemma receive_numbered E key msg x r x' :
  numbered E msg → receive E key msg x = (Ok r, x') → numbered E r.2.
Proof.
  intros Hm. unfold receive, client_at, mbind, M_bind, gets, mret, M_ret, throw, lift.
  destruct (clients x !! key) as [c|]; [|done]. generalize (c_connections c). intros cons. revert x.
  induction cons as [|con cons IH]; intros x; cbn [receive_from]; [by intros [= <- _]|].
  destruct (negb _); [apply IH|]. unfold receive_one, handleMessage, handleSubscriptionMessage, zmq_receive.
  unfold mbind, M_bind, gets, modify, mret, M_ret, lift, now. destruct (c_kind c); destruct (Message.receive _ _ _) as [[[m|]|e] rest];
    try done; try apply IH; cbv beta iota.
  - destruct (is_notification m); intros [= <- _]; [|done]. cbn [snd]. unfold numbered. cbn [clientRequestID id with_arrival].
    destruct (read_id_reads (clientRequestID m)) as [H|H]; auto.
  - destruct (is_notification m); intros [= <- _]; [|done]. right. by left.
Qed.

(** *** The books *)

Definition regs (l : list event) : list (Z * nat) := omap registered l.
Definition answers (l : list event) : list Z := omap answered l.

(** An answer carries the number of a request made before it, and goes to its
    callback. *)
Definition founded (l : list event) : Prop :=
  ∀ n i cb m, l !! n = Some (Answered i cb m) → id m = i ∧ (i, cb) ∈ regs (take n l).

(** After at most [n] requests. *)
Record accounted (n : Z) (x : ctx) : Prop := {
  ac_id : 0 ≤ request_id x ≤ n;
  ac_regs : NoDup (regs (x_log x)).*1;
  ac_below : Forall (λ p, 0 ≤ p.1 < request_id x) (regs (x_log x));
  ac_pending i p : requests x !! i = Some p → (i, p_callback p) ∈ regs (x_log x) ∧ i ∉ answers (x_log x);
  ac_answers : NoDup (answers (x_log x));
  ac_founded : founded (x_log x)
}.

Lemma quiet_log_omap l :
  Forall quiet_event l → regs l = [] ∧ answers l = [].
Proof. induction 1 as [|e l [Hr Ha] _ [IHr IHa]]; [done|]. unfold regs, answers in *. simpl. by rewrite Hr, Ha. Qed.

Lemma founded_quiet l l' : founded l → Forall quiet_event l' → founded (l ++ l').
Proof.
  intros Hl Hq n i cb m Hn. destruct (decide (n < length l)%nat) as [Hlt|Hge].
  - rewrite lookup_app_l in Hn by done. rewrite take_app_le by lia. by apply Hl.
  - exfalso. rewrite lookup_app_r in Hn by lia. eapply Forall_lookup_1 in Hn; [|done]. by destruct Hn.
Qed.

Lemma founded_answer l i cb m : founded l → id m = i → (i, cb) ∈ regs l → founded (l ++ [Answered i cb m]).
Proof.
  intros Hl Hid Hin n i' cb' m' Hn. destruct (decide (n < length l)%nat) as [Hlt|Hge].
  - rewrite lookup_app_l in Hn by done. rewrite take_app_le by lia. by apply Hl.
  - rewrite lookup_app_r in Hn by lia. apply list_lookup_singleton_Some in Hn as [Hn ?]. simplify_eq.
    assert (n = length l) as -> by lia. by rewrite take_app_length.
Qed.

Lemma founded_register l i cb : founded l → founded (l ++ [Registered i cb]).
Proof.
  intros Hl n i' cb' m' Hn. destruct (decide (n < length l)%nat) as [Hlt|Hge].
  - rewrite lookup_app_l in Hn by done. rewrite take_app_le by lia. by apply Hl.
  - rewrite lookup_app_r in Hn by lia. by apply list_lookup_singleton_Some in Hn as [_ ?].
Qed.

(** Quiet operations keep the books. *)
Lemma quiet_accounted {A} (m : M A) n x :
  quiet m → accounted n x → accounted n (m x).2 ∧ regs (x_log (m x).2) = regs (x_log x).
Proof.
  intros Hm [Hid Hre Hb Hp Ha Hf]. destruct (Hm x) as (l & Hl & Hq & Hr & Hi & _). destruct (quiet_log_omap l Hq) as [Hlr Hla].
  assert (Er : regs (x_log (m x).2) = regs (x_log x)).
  { rewrite Hl. unfold regs in *. by rewrite omap_app, Hlr, app_nil_r. }
  assert (Ea : answers (x_log (m x).2) = answers (x_log x)).
  { rewrite Hl. unfold answers in *. by rewrite omap_app, Hla, app_nil_r. }
  split; [|done]. split; rewrite ?Er, ?Ea, ?Hr, ?Hi; try done.
  rewrite Hl. by apply founded_quiet.
Qed.

(** What keeps the books and makes no request. *)
Definition books {A} (m : M A) : Prop :=
  ∀ n x, accounted n x → accounted n (m x).2 ∧ regs (x_log (m x).2) = regs (x_log x).

Lemma books_quiet {A} (m : M A) : quiet m → books m.
Proof. intros Hm n x. by apply quiet_accounted. Qed.

Lemma books_bind {A B} (m : M A) (k : A → M B) : books m → (∀ a, books (k a)) → books (m ≫= k).
Proof.
  intros Hm Hk n x Hx. destruct (Hm n x Hx) as [Hx' Hr]. unfold mbind, M_bind.
  destruct (m x) as [[a|e] x']; simpl in *; [|done]. destruct (Hk a n x' Hx') as [Hx'' Hr'].
  split; [done|]. by rewrite Hr'.
Qed.

(** An answer takes its request out of the table. *)
Lemma books_deliver m : books (deliver m).
Proof.
  unfold deliver. apply books_bind; [apply books_quiet, quiet_gets|]. intros subs.
  apply books_bind; [apply books_quiet; solve_quiet|]. intros _ n x Hx. unfold mbind, M_bind, gets.
  destruct (requests x !! id m) as [r|] eqn:Hr; [|done].
  destruct Hx as [Hid Hre Hb Hp Ha Hf]. destruct (Hp _ _ Hr) as [Hin Hnot].
  assert (Er : regs (x_log x ++ [Answered (id m) (p_callback r) m]) = regs (x_log x)).
  { unfold regs. rewrite omap_app. simpl. by rewrite app_nil_r. }
  assert (Ea : answers (x_log x ++ [Answered (id m) (p_callback r) m]) = answers (x_log x) ++ [id m]).
  { unfold answers. by rewrite omap_app. }
  split; [|done]. split; cbn [modify snd set_requests add_log requests request_id x_log] in *; rewrite ?Er, ?Ea; try done.
  - intros i p Hi. apply lookup_delete_Some in Hi as [Hne Hi]. destruct (Hp i p Hi). split; [done|].
    rewrite elem_of_app, list_elem_of_singleton. by intros [?| ->].
  - apply NoDup_app. split_and!; [done|..]; [|apply NoDup_singleton]. intros i Hi ->%list_elem_of_singleton. done.
  - by apply founded_answer.
Qed.

Lemma books_pass E arriving : books (pass E arriving).
Proof.
  assert (Hd : ∀ key turns msg, books (drain E key turns msg)).
  { intros key turns. induction turns as [|a turns IH]; intros msg; simpl; [apply books_quiet, quiet_ret|].
    apply books_bind; [apply books_quiet, quiet_modify; done|]. intros _.
    apply books_bind; [apply books_quiet, quiet_receive|]. intros [[] msg']; [|apply books_quiet, quiet_ret].
    apply books_bind; [apply books_deliver|]. intros _.
    apply books_bind; [apply books_quiet, quiet_housekeeping_if_due|]. intros _. apply IH. }
  unfold pass. apply books_bind; [apply books_quiet, quiet_housekeeping_if_due|]. intros _.
  apply books_bind; [apply books_quiet, quiet_handleRequests|]. intros _.
  apply books_bind; [apply books_quiet, quiet_gets|]. intros keys.
  induction keys; simpl; [apply books_quiet, quiet_ret|]. apply books_bind; [apply Hd|done].
Qed.

Lemma accounted_weaken n n' x : n ≤ n' → accounted n x → accounted n' x.
Proof. intros Hn []. split; try done. lia. Qed.

Lemma next_id_accounted n x :
  accounted n x → n + 1 < 2 ^ 64 → accounted (n + 1) (set_request_id (wrapu 64 (request_id x + 1)) x).
Proof.
  intros [Hid Hre Hb Hp Ha Hf] Hn.
  assert (Hw : wrapu 64 (request_id x + 1) = request_id x + 1) by (apply wrapu_id; unfold in_u; lia).
  rewrite Hw. split; simpl; try done; [lia|]. eapply Forall_impl; [done|]. simpl. lia.
Qed.

(** The next number is nobody's. *)
Lemma next_id_new n x cb : accounted n x → (request_id x, cb) ∉ regs (x_log x).
Proof. intros [_ _ Hb _ _ _] Hin. rewrite Forall_forall in Hb. apply Hb in Hin. simpl in Hin. lia. Qed.

Lemma next_id_free n x : accounted n x → requests x !! request_id x = None.
Proof.
  intros Hx. apply eq_None_not_Some. intros [q Hq]. destruct (ac_pending _ _ Hx _ _ Hq) as [Hin _].
  by apply (next_id_new n) in Hin.
Qed.

(** A request gets a number nobody has. *)
Lemma register_accounted n x i cb p :
  accounted n x → n + 1 < 2 ^ 64 → i = request_id x → p_callback p = cb →
  accounted (n + 1) (set_requests (insert_new i p (requests x))
                       (add_log [Registered i cb] (set_request_id (wrapu 64 (i + 1)) x))).
Proof.
  intros Hx Hn -> <-. pose proof (λ cb, next_id_new n x cb Hx) as Hnew. pose proof (next_id_free n x Hx) as Hnone. destruct Hx as [Hid Hre Hb Hp Ha Hf].
  assert (Hfresh : request_id x ∉ answers (x_log x)).
  { intros Hin. unfold answers in Hin. apply list_elem_of_omap in Hin as (e & He & Hans).
    apply list_elem_of_lookup in He as [k Hk]. destruct e as [| | | | |i cb m|]; try done. simpl in Hans. simplify_eq.
    destruct (Hf k _ cb m Hk) as [_ Hin]. apply (Hnew cb). unfold regs in *.
    apply list_elem_of_omap in Hin as (e & He & Hr). apply list_elem_of_omap. exists e. split; [|done].
    by eapply elem_of_take in He as (? & ? & _); eapply list_elem_of_lookup_2. }
  assert (Er : ∀ cb, regs (x_log x ++ [Registered (request_id x) cb]) = regs (x_log x) ++ [(request_id x, cb)]).
  { intros cb'. unfold regs. by rewrite omap_app. }
  assert (Ea : ∀ cb, answers (x_log x ++ [Registered (request_id x) cb]) = answers (x_log x)).
  { intros cb'. unfold answers. rewrite omap_app. simpl. by rewrite app_nil_r. }
  assert (Hw : wrapu 64 (request_id x + 1) = request_id x + 1) by (apply wrapu_id; unfold in_u; lia).
  unfold insert_new. rewrite Hnone, Hw.
  split; cbn [requests x_log request_id set_requests add_log set_request_id]; rewrite ?Er, ?Ea; try done.
  - lia.
  - rewrite fmap_app. apply NoDup_app. split_and!; [done| |apply NoDup_singleton].
    intros j Hj Hj'%list_elem_of_singleton. simpl in Hj'. subst j. apply list_elem_of_fmap in Hj as ([j cb'] & Hj & Hin).
    simpl in Hj. subst j. by apply Hnew in Hin.
  - apply Forall_app. split; [|by repeat constructor; simpl; lia]. eapply Forall_impl; [done|]. simpl. lia.
  - intros j q Hj. apply lookup_insert_Some in Hj as [[<- <-]|[Hne Hj]].
    + split; [apply elem_of_app; right; by apply list_elem_of_singleton|done].
    + destruct (Hp j q Hj). split; [by apply elem_of_app; left|done].
  - by apply founded_register.
Qed.

Lemma request_accounted E c n x :
  accounted n x → n + 1 < 2 ^ 64 →
  accounted (n + 1) (request E c x).2
  ∧ (regs (x_log (request E c x).2)).*2 = (regs (x_log x)).*2 ++ option_list (asked (Ask c)).
Proof.
  intros Hx Hn.
  assert (Hq : ∀ u cm i d rb, quiet (sendCmd u cm i d rb)) by (intros; unfold sendCmd; solve_quiet).
  assert (Hsend : ∀ u cm i d rb y, accounted (n + 1) y → accounted (n + 1) (sendCmd u cm i d rb y).2
                   ∧ regs (x_log (sendCmd u cm i d rb y).2) = regs (x_log y)).
  { intros. by apply quiet_accounted. }
  pose proof (accounted_weaken n (n + 1) x ltac:(lia) Hx) as Hx1.
  pose proof (next_id_accounted n x Hx Hn) as Hx2.
  assert (Hnil : (regs (x_log x)).*2 = (regs (x_log x)).*2 ++ []) by by rewrite app_nil_r.
  unfold asked, request, next_request_id, mbind, M_bind, gets, modify, mret, M_ret. cbn [fst snd].
  destruct (callback c) as [cb|].
  2:{ destruct (Hsend (topic (cmd c)) (command (cmd c)) 0 (data (cmd c)) (rbac (cmd c)) x Hx1) as [H1 H2].
      split; [done|]. rewrite H2. by destruct (command (cmd c)). }
  assert (Hreg : ∀ u cm d rb p, p_callback p = cb →
    let y := set_requests (insert_new (request_id x) p (requests x))
               (add_log [Registered (request_id x) cb] (set_request_id (wrapu 64 (request_id x + 1)) x)) in
    accounted (n + 1) (sendCmd u cm (request_id x) d rb y).2
    ∧ (regs (x_log (sendCmd u cm (request_id x) d rb y).2)).*2 = (regs (x_log x)).*2 ++ [cb]).
  { intros u cm d rb p Hp y. destruct (Hsend u cm (request_id x) d rb y) as [H1 H2].
    - by apply register_accounted.
    - split; [done|]. rewrite H2. unfold y. simpl. unfold regs. by rewrite omap_app, fmap_app. }
  destruct (command (cmd c)) eqn:Hc; cbn [option_list];
    try (destruct (Hsend (topic (cmd c)) (command (cmd c)) 0 (data (cmd c)) (rbac (cmd c)) x Hx1) as [H1 H2];
         rewrite Hc in H1, H2; split; [done|by rewrite H2]).
  - by apply Hreg.
  - by apply Hreg.
  - unfold lift. destruct (fromMdpTopic _ _ _) as [t|e]; [|done]. edestruct Hsend as [H1 H2]; [|split; [exact H1|by rewrite H2]].
    by destruct Hx2.
  - edestruct Hsend as [H1 H2]; [|split; [exact H1|by rewrite H2]].
    destruct Hx1 as [Hid Hre Hb Hp Ha Hf]. split; simpl; try done.
    intros i p [_ Hi]%lookup_delete_Some. by apply Hp.
Qed.

Lemma acts_accounted E l n x :
  accounted n x → n + Z.of_nat (length l) < 2 ^ 64 →
  ∃ n', accounted n' (acts E l x).2
    ∧ ∃ p, p `prefix_of` omap asked l ∧ (regs (x_log (acts E l x).2)).*2 = (regs (x_log x)).*2 ++ p.
Proof.
  revert n x. induction l as [|a l IH]; intros n x Hx Hn; simpl.
  { exists n. split; [done|]. exists []. split; [done|]. by rewrite app_nil_r. }
  cbn [length] in Hn.
  assert (Ha : accounted (n + 1) (act E a x).2
               ∧ (regs (x_log (act E a x).2)).*2 = (regs (x_log x)).*2 ++ option_list (asked a)).
  { destruct a as [c|arriving]; [apply request_accounted; [done|lia]|].
    destruct (books_pass E arriving n x Hx) as [H1 H2]. split; [eapply accounted_weaken; [|done]; lia|].
    cbn [act]. rewrite H2. simpl. by rewrite app_nil_r. }
  destruct Ha as [Ha Hr].
  assert (Eo : (match asked a with Some y => y :: omap asked l | None => omap asked l end)
               = option_list (asked a) ++ omap asked l) by by destruct (asked a).
  setoid_rewrite Eo. unfold mbind, M_bind. destruct (act E a x) as [[[]|e] x'] eqn:Ex; cbn [snd] in *.
  - destruct (IH (n + 1) x' Ha ltac:(lia)) as (n' & Hn' & p & Hp & Hrp). exists n'. split; [done|].
    exists (option_list (asked a) ++ p). split; [by apply prefix_app|]. by rewrite Hrp, Hr, app_assoc.
  - exists (n + 1). split; [done|]. exists (option_list (asked a)). split; [by exists (omap asked l)|done].
Qed.

Lemma new_accounted start : accounted 0 (new_ctx start).
Proof. split; simpl; try done; apply NoDup_nil_2. Qed.

Lemma answers_unique l n n' i cb cb' m m' :
  NoDup (answers l) → l !! n = Some (Answered i cb m) → l !! n' = Some (Answered i cb' m') → n = n'.
Proof.
  revert n n'. induction l as [|e l IH]; intros n n' Hd Hn Hn'; [done|].
  assert (Ha : ∀ k cb m, l !! k = Some (Answered i cb m) → i ∈ answers l).
  { intros k cb0 m0 Hk. apply list_elem_of_omap. exists (Answered i cb0 m0). split; [by eapply list_elem_of_lookup_2|done]. }
  assert (Hd' : NoDup (answers l)).
  { unfold answers in *. simpl in Hd. destruct (answered e); [by apply NoDup_cons in Hd as [_ ?]|done]. }
  destruct n as [|n], n' as [|n']; simpl in Hn, Hn'; simplify_eq; try done.
  - unfold answers in Hd. simpl in Hd. apply NoDup_cons in Hd as [Hd _]. by apply Ha in Hn'.
  - unfold answers in Hd. simpl in Hd. apply NoDup_cons in Hd as [Hd _]. by apply Ha in Hn.
  - f_equal. by eapply IH.
Qed.

(** *** Every answer has its number *)

Definition answer_numbered (E : environment) (e : event) : Prop :=
  match e with Answered _ _ m => numbered E m | _ => True end.

Definition all_numbered (E : environment) (x : ctx) : Prop := Forall (answer_numbered E) (x_log x).

Definition numbers {A} (E : environment) (m : M A) : Prop := ∀ x, all_numbered E x → all_numbered E (m x).2.

Lemma numbers_quiet {A} E (m : M A) : quiet m → numbers E m.
Proof.
  intros Hm x Hx. destruct (Hm x) as (l & Hl & Hq & _). unfold all_numbered. rewrite Hl. apply Forall_app. split; [done|].
  eapply Forall_impl; [exact Hq|]. by intros [] [_ ?].
Qed.

Lemma numbers_bind {A B} E (m : M A) (k : A → M B) : numbers E m → (∀ a, numbers E (k a)) → numbers E (m ≫= k).
Proof.
  intros Hm Hk x Hx. specialize (Hm x Hx). unfold mbind, M_bind. destruct (m x) as [[a|e] x']; [|done]. by apply Hk.
Qed.

Lemma numbers_deliver E m : numbered E m → numbers E (deliver m).
Proof.
  intros Hm. unfold deliver. apply numbers_bind; [apply numbers_quiet, quiet_gets|]. intros subs.
  apply numbers_bind; [apply numbers_quiet; solve_quiet|]. intros _ x Hx. unfold mbind, M_bind, gets.
  destruct (requests x !! id m); [|done]. unfold all_numbered. simpl. apply Forall_app. split; [done|]. by apply Forall_singleton.
Qed.

Lemma numbers_drain E key turns msg : numbered E msg → numbers E (drain E key turns msg).
Proof.
  revert msg. induction turns as [|a turns IH]; intros msg Hm; cbn [drain]; [apply numbers_quiet, quiet_ret|].
  apply numbers_bind; [apply numbers_quiet, quiet_modify; done|]. intros _ x Hx.
  pose proof (numbers_quiet E (receive E key msg) (quiet_receive E key msg) x Hx) as Hx'. unfold mbind at 1, M_bind at 1.
  destruct (receive E key msg x) as [[[b m]|e] x'] eqn:Er; [|done]. apply receive_numbered in Er; [|done].
  revert Hx'. generalize x'. fold (numbers E (if b then deliver m;; housekeeping_if_due E;; drain E key turns m else mret ())).
  destruct b; [|apply numbers_quiet, quiet_ret]. apply numbers_bind; [by apply numbers_deliver|]. intros _.
  apply numbers_bind; [apply numbers_quiet, quiet_housekeeping_if_due|]. intros _. by apply IH.
Qed.

Lemma numbers_pass E arriving : numbers E (pass E arriving).
Proof.
  unfold pass. apply numbers_bind; [apply numbers_quiet, quiet_housekeeping_if_due|]. intros _.
  apply numbers_bind; [apply numbers_quiet, quiet_handleRequests|]. intros _.
  apply numbers_bind; [apply numbers_quiet, quiet_gets|]. intros keys.
  induction keys; simpl; [apply numbers_quiet, quiet_ret|]. apply numbers_bind; [|done].
  apply numbers_drain. by right; right.
Qed.

(** A request writes no answer. *)
Lemma request_log E c x : ∃ l, x_log (request E c x).2 = x_log x ++ l ∧ Forall (λ e, ∃ i cb, e = Registered i cb) l.
Proof.
  unfold request, next_request_id, sendCmd, mbind, M_bind, gets, modify, mret, M_ret, lift.
  destruct (callback c) as [cb|]; [|exists []; by rewrite (app_nil_r (x_log x))].
  destruct (command (cmd c)); try (exists []; by rewrite (app_nil_r (x_log x))); try (eexists [_]; split; [reflexivity|]; apply Forall_singleton; by do 2 eexists).
  destruct (fromMdpTopic (uninit E) STRICT (topic (cmd c))); exists []; by rewrite (app_nil_r (x_log x)).
Qed.

Lemma numbers_acts E l : numbers E (acts E l).
Proof.
  induction l as [|[c|arriving] l IH]; cbn [acts]; [apply numbers_quiet, quiet_ret| |];
    (apply numbers_bind; [|done]); [|apply numbers_pass].
  intros x Hx. destruct (request_log E c x) as (l' & Hl & Hr). unfold all_numbered. cbn [act]. rewrite Hl.
  apply Forall_app. split; [done|]. eapply Forall_impl; [exact Hr|]. by intros e (i & cb & ->).
Qed.


(** ** A context at work *)

Definition example_env : environment :=
  mkenv 1000 (λ n, Z.of_nat n) (λ _ _, true) map_to_list (λ x, elements (dom (clients x))) 0 0.

Definition reference (s : bytes) : uri := match parseURI STRICT s with Ok u => u | Throw _ => root_topic end.

Definition example_command (c : Command) (u : bytes) (d : bytes) (cb : option nat) : client_command :=
  mkcommand (@mkmsg WithoutSourceId tt 0 0 default_timeout [] c (str "/") [] (reference u) d [] []) cb.

(** A message as it comes from a broker. *)
Definition example_reply (service i d : bytes) : ClientMessage :=
  @mkmsg WithoutSourceId tt 0 0 default_timeout clientProtocol Final service i (reference service) d [] [].

Definition quiet_socket : bytes → list arrivals := λ _, [[]].
Definition arriving_on (k : nat) (w : list wire_frame) : bytes → list arrivals := λ _, [[(k, arriving w)]; []].

Definition example_run (l : list action) : ctx := (acts example_env l (new_ctx 0)).2.


(** ** From a command to its answer *)

(** The other fields. *)
Definition same_tables (x x' : ctx) : Prop :=
  inbox x' = inbox x ∧ control x' = control x ∧ requests x' = requests x ∧ subscriptions x' = subscriptions x.

(** A client of this kind, whose connections are up and have sockets of their
    own. *)
Record dealing (kind : client_kind) (x : ctx) (c : client) : Prop := {
  de_kind : c_kind c = kind;
  de_sockets : NoDup (con_socket <$> c_connections c);
  de_up : Forall (λ con, con_state con = CONNECTED ∧ (con_socket con < sockets x)%nat) (c_connections c)
}.

(** A new connection of this kind is up. *)
Definition connectable (E : environment) (kind : client_kind) : Prop :=
  kind = MdpClient ∨ ∀ k n, connects E k n = true.

Section answer.
Context (E : environment) (kind : client_kind) (Hkind : connectable E kind).

(** A connection for the authority is there after [findConnection]. *)
Lemma findConnection_spec key u a ep c x :
  clients x !! key = Some c → dealing kind x c → authority_value u = Ok a → endpoint a = Ok ep →
  ∃ x' con c' l, findConnection E key u x = (Ok con, x') ∧ clients x' !! key = Some c' ∧ dealing kind x' c'
    ∧ con ∈ c_connections c' ∧ con_authority con = a ∧ x_log x' = x_log x ++ l ∧ same_tables x x'.
Proof.
  intros Hc [Hk Hs Hu] Ha He. unfold findConnection, client_at, mbind, M_bind, gets, lift, mret, M_ret. rewrite Hc, Ha.
  destruct (find (has_authority a) (c_connections c)) as [con|] eqn:Hf.
  - apply find_some in Hf as [Hin Hau]. apply bool_decide_eq_true in Hau. exists x, con, c, [].
    rewrite app_nil_r. split_and!; try done. by apply list_elem_of_In.
  - unfold new_connection, connect, store, mbind, M_bind, gets, modify, lift, now, mret, M_ret.
    cbn [fst snd con_authority con_socket]. rewrite He, Hk.
    assert (Hok : connects E (sockets x) (x_clock (tick (set_sockets (S (sockets x)) x))) || bool_decide (kind = MdpClient) = true).
    { destruct Hkind as [-> | ->]; [by rewrite bool_decide_true, orb_true_r|done]. }
    rewrite Hok.
    set (con := with_state CONNECTED _). set (c' := mkclient kind (c_connections c ++ [con])).
    assert (Hd : ∀ y, sockets y = S (sockets x) → dealing kind y c').
    { intros y Hy. split; [done|..]; unfold c'; cbn [c_connections].
      - rewrite fmap_app. apply NoDup_app. split_and!; [done| |apply NoDup_singleton].
        intros k Hk' Hk''%list_elem_of_singleton. apply list_elem_of_fmap in Hk' as (con' & -> & Hin).
        rewrite Forall_forall in Hu. destruct (Hu _ Hin) as [_ Hlt]. simpl in Hk''. lia.
      - apply Forall_app. split; [|constructor; [split; [done|simpl; lia]|constructor]].
        eapply Forall_impl; [done|]. simpl. intros ? [? ?]. split; [done|lia]. }
    assert (Hin : con ∈ c_connections c') by (apply elem_of_app; right; by apply list_elem_of_singleton).
    destruct (connects E _ _); cbn [fst snd]; do 4 eexists; (split; [reflexivity|]); simpl;
      (split; [by rewrite lookup_insert_eq|]); (split; [by apply Hd|]); (split; [done|]); done.
Qed.

Lemma client_send_spec command key u a ep i d m c x :
  clients x !! key = Some c → dealing kind x c → authority_value u = Ok a → endpoint a = Ok ep →
  createRequestTemplate E command u i = Ok m →
  ∃ x' con c' l, client_send E command key u i d x = (Ok (), x') ∧ clients x' !! key = Some c' ∧ dealing kind x' c'
    ∧ con ∈ c_connections c' ∧ con_authority con = a
    ∧ x_log x' = x_log x ++ l ++ [Sent (con_socket con) (with_data d m)] ∧ same_tables x x'.
Proof.
  intros Hc Hd Ha He Hm. destruct (findConnection_spec key u a ep c x Hc Hd Ha He)
    as (x' & con & c' & l & Hf & Hc' & Hd' & Hin & Hau & Hl & Ht).
  unfold client_send, mbind, M_bind. rewrite Hf, Hm. cbn [lift modify].
  do 4 eexists. split; [reflexivity|]. simpl. split_and!; try done; [by destruct Hd'|]. by rewrite Hl, <-app_assoc.
Qed.

(** The client a context has, or makes. *)
Lemma getClient_spec u b c x :
  baseUri u = Ok b → createClient b = Ok (mkclient kind []) →
  default (mkclient kind []) (clients x !! u_str b) = c → dealing kind x c →
  ∃ x', getClient u x = (Ok (u_str b), x') ∧ clients x' !! u_str b = Some c ∧ dealing kind x' c
    ∧ x_log x' = x_log x ∧ same_tables x x'.
Proof.
  intros Hb Hs Hc Hd. unfold getClient, store, mbind, M_bind, gets, lift, modify, mret, M_ret. rewrite Hb, Hs.
  destruct (clients x !! u_str b) as [c'|] eqn:Hx; simpl in Hc; subst c.
  - by exists x.
  - eexists. split; [reflexivity|]. simpl. rewrite lookup_insert_eq. split_and!; done || by destruct Hd.
Qed.

Lemma one_request n f fs x y :
  handleRequest E f (set_control fs x) = (Ok (), y) → control y = [] →
  handleRequests_loop E (S (S n)) (set_control (f :: fs) x) = (Ok (), y).
Proof.
  intros Hh Hy. cbn [handleRequests_loop]. unfold mbind, M_bind.
  change (receive_frame (set_control (f :: fs) x)) with (Ok (Some f), set_control fs x). cbv iota beta. rewrite Hh.
  unfold receive_frame, mbind, M_bind, gets. by rewrite Hy.
Qed.

Lemma expect_one f fs x : control x = f :: fs → expect_frame x = (Ok f, set_control fs x).
Proof. intros Hx. unfold expect_frame, receive_frame, mbind, M_bind, gets. by rewrite Hx. Qed.

(** The three frames after the first. *)
Lemma handle_frames f i u rb fs x :
  parseURI STRICT (u_str u) = Ok u →
  handleRequest E f (set_control (i :: u_str u :: rb :: fs) x)
  = (key ← getClient u;
     match f with
     | [c] =>
         if eqc c (chr (command_code Get)) then get E key u i
         else if eqc c (chr (command_code Set_)) then d ← expect_frame; set E key u i d
         else if eqc c (chr (command_code Subscribe)) then subscribe E key u i
         else if eqc c (chr (command_code Unsubscribe)) then unsubscribe E key u i
         else throw LogicError
     | _ => throw LogicError
     end) (set_control fs x).
Proof.
  intros Hu. unfold handleRequest, mbind, M_bind.
  change (expect_frame (set_control (i :: u_str u :: rb :: fs) x)) with (Ok i, set_control (u_str u :: rb :: fs) x). cbv iota beta.
  change (expect_frame (set_control (u_str u :: rb :: fs) x)) with (Ok (u_str u), set_control (rb :: fs) x). cbv iota beta.
  change (expect_frame (set_control (rb :: fs) x)) with (Ok rb, set_control fs x). cbv iota beta. by rewrite Hu.
Qed.

Lemma set_control_same x : control x = [] → set_control [] x = x.
Proof. destruct x. simpl. by intros ->. Qed.

(** What the command leaves on the control socket is read back as it was. *)

Lemma handle_sent u cm i d rb x b c a ep m :
  kind = MdpClient → control x = [] → cm = Get ∨ cm = Set_ → parseURI STRICT (u_str u) = Ok u →
  baseUri u = Ok b → createClient b = Ok (mkclient kind []) →
  default (mkclient kind []) (clients x !! u_str b) = c → dealing kind x c →
  authority_value u = Ok a → endpoint a = Ok ep → createRequestTemplate E cm u (to_dec i) = Ok m →
  ∃ x' con c' l, handleRequests E (sendCmd u cm i d rb x).2 = (Ok (), x')
    ∧ clients x' !! u_str b = Some c' ∧ dealing kind x' c' ∧ con ∈ c_connections c' ∧ con_authority con = a
    ∧ x_log x' = x_log x ++ l ++ [Sent (con_socket con) (with_data (if bool_decide (cm = Set_) then d else []) m)]
    ∧ same_tables x x'.
Proof.
  intros Hmdp Hctl Hcm Hu Hb Hs Hc Hd Ha He Hm.
  destruct (getClient_spec u b c (set_control (if bool_decide (cm = Set_) then [d] else []) x) Hb Hs Hc)
    as (x1 & Hg & Hc1 & Hd1 & Hl1 & Hi1 & Hct1 & Hr1 & Hs1); [by destruct Hd|].
  destruct (client_send_spec cm (u_str b) u a ep (to_dec i) (if bool_decide (cm = Set_) then d else []) m c (set_control [] x1))
    as (x2 & con & c' & l & Hsend & Hc2 & Hd2 & Hin & Hau & Hl2 & Hi2 & Hct2 & Hr2 & Hs2); [done|by destruct Hd1|done..|].
  cbn [set_control inbox control requests subscriptions x_log] in *.
  exists x2, con, c', l. split_and!; [|done..|congruence|by unfold same_tables; split_and!; congruence].
  unfold handleRequests, sendCmd, mbind, M_bind at 1, gets at 1, modify. cbn [snd control set_control]. rewrite Hctl.
  destruct Hcm as [-> | ->]; [rewrite bool_decide_false in * by done|rewrite bool_decide_true in * by done];
    (apply one_request; [|done]); rewrite handle_frames by done; unfold mbind, M_bind at 1; cbn [app] in Hg; rewrite Hg; cbv iota beta.
  - rewrite eqc_refl. unfold get, client_at, mbind, M_bind, gets. rewrite Hc1. destruct Hd1 as [Hk _ _].
    cbn [mret M_ret]. rewrite Hk, Hmdp. by rewrite <-(set_control_same x1).
  - change (eqc (chr (command_code Set_)) (chr (command_code Get))) with false. rewrite eqc_refl. unfold mbind, M_bind at 1.
    rewrite (expect_one d []) by done. unfold set, client_at, mbind, M_bind, gets. cbn [set_control clients]. rewrite Hc1.
    destruct Hd1 as [Hk _ _]. cbn [mret M_ret]. by rewrite Hk, Hmdp.
Qed.

Lemma handle_subscribed u i d rb x b c a ep z :
  kind = SubClient → control x = [] → parseURI STRICT (u_str u) = Ok u →
  baseUri u = Ok b → createClient b = Ok (mkclient kind []) →
  default (mkclient kind []) (clients x !! u_str b) = c → dealing kind x c →
  authority_value u = Ok a → endpoint a = Ok ep → subscription_topic E u = Ok z →
  ∃ x' con c' l, handleRequests E (sendCmd u Subscribe i d rb x).2 = (Ok (), x')
    ∧ clients x' !! u_str b = Some c' ∧ dealing kind x' c' ∧ con ∈ c_connections c' ∧ con_authority con = a
    ∧ x_log x' = x_log x ++ l ++ [ZmqSubscribe (con_socket con) z] ∧ same_tables x x'.
Proof.
  intros Hsub Hctl Hu Hb Hs Hc Hd Ha He Hz.
  destruct (getClient_spec u b c (set_control [] x) Hb Hs Hc)
    as (x1 & Hg & Hc1 & Hd1 & Hl1 & Hi1 & Hct1 & Hr1 & Hs1); [by destruct Hd|].
  destruct (findConnection_spec (u_str b) u a ep c x1 Hc1 Hd1 Ha He)
    as (x2 & con & c' & l & Hf & Hc2 & Hd2 & Hin & Hau & Hl2 & Hi2 & Hct2 & Hr2 & Hs2).
  cbn [set_control inbox control requests subscriptions x_log] in *.
  exists (add_log [ZmqSubscribe (con_socket con) z] x2), con, c', l.
  split_and!; [|done|by destruct Hd2|done..|by cbn [add_log x_log]; rewrite Hl2, Hl1, app_assoc|unfold same_tables; simpl; split_and!; congruence].
  unfold handleRequests, sendCmd, mbind, M_bind at 1, gets at 1, modify. cbn [snd control set_control]. rewrite Hctl.
  rewrite bool_decide_false by done. apply one_request; [|simpl; congruence].
  rewrite handle_frames by done; unfold mbind, M_bind at 1. rewrite Hg. cbv iota beta.
  change (eqc (chr (command_code Subscribe)) (chr (command_code Get))) with false.
  change (eqc (chr (command_code Subscribe)) (chr (command_code Set_))) with false. rewrite eqc_refl. cbv iota.
  unfold subscribe, client_at, mbind, M_bind, gets. rewrite Hc1. destruct Hd1 as [Hk _ _]. cbn [mret M_ret]. rewrite Hk, Hsub.
  cbv iota beta. rewrite Hf. cbv iota beta. by rewrite Hz.
Qed.
End answer.

(** ** Receiving the answer *)

Section hit.
Context (E : environment).

Definition empty_on (x : ctx) (con : connection) : Prop := default [] (inbox x !! con_socket con) = [].

Lemma receive_nothing f uninit : Message.receive f uninit [] = (Ok None, []).
Proof. by destruct f. Qed.

Lemma set_inbox_twice i j x : set_inbox i (set_inbox j x) = set_inbox i x.
Proof. done. Qed.

(** What a connection with a message gives, whatever is on the other sockets. *)
Definition gives (kind : client_kind) (con : connection) (msg : ClientMessage) (frames : list recv_result)
    (res : Z → bool * ClientMessage) : Prop :=
  ∀ x, default [] (inbox x !! con_socket con) = frames →
    ∃ i, receive_one E kind con msg x = (Ok (Some (res (clock E (x_clock x)))), tick (set_inbox i x)).

Lemma gives_answer con msg r :
  is_notification r = true → parseURI STRICT (u_str (topic r)) = Ok (topic r) →
  gives MdpClient con msg (arriving (on_wire (frames_of r)))
    (λ t, (true, with_arrival t (read_id (clientRequestID r)) (arrived (uninit_id E) r))).
Proof.
  intros Hno Ht x Hr. unfold receive_one, zmq_receive, handleMessage, mbind, M_bind, gets, modify, lift, mret, M_ret, now.
  rewrite Hr, <-(app_nil_r (arriving _)), receive_message by (by destruct r). rewrite decode_frames_of by done.
  cbn [fst snd]. change (is_notification (arrived (uninit_id E) r)) with (is_notification r). rewrite Hno. by eexists.
Qed.

(** What a notification of the publisher becomes. *)
Definition published (t : Z) (m : BrokerMessage) (output : ClientMessage) : ClientMessage :=
  @mkmsg WithoutSourceId tt 0 t (timeout output) (protocolName output) (command output) (sourceId m)
    (clientRequestID m) (topic m) (data m) (error m) (rbac m).

Lemma gives_publication con msg (r : BrokerMessage) :
  is_notification r = true → parseURI STRICT (u_str (topic r)) = Ok (topic r) →
  gives SubClient con msg (arriving (on_wire (frames_of r))) (λ t, (true, published t r msg)).
Proof.
  intros Hno Ht x Hr. unfold receive_one, zmq_receive, handleSubscriptionMessage, mbind, M_bind, gets, modify, lift, mret, M_ret, now.
  rewrite Hr, <-(app_nil_r (arriving _)), receive_message by done. rewrite decode_frames_of by done.
  cbn [fst snd]. change (is_notification (arrived (uninit_id E) r)) with (is_notification r). rewrite Hno. by eexists.
Qed.

Lemma receive_one_nothing kind con msg x :
  empty_on x con → receive_one E kind con msg x = (Ok None, set_inbox (<[con_socket con := []]> (inbox x)) x).
Proof.
  unfold empty_on, receive_one, zmq_receive, mbind, M_bind, gets, modify, lift, mret, M_ret. intros He.
  by destruct kind; cbv beta; rewrite He, receive_nothing.
Qed.

(** The message on the only socket that has one is received. *)
Lemma receive_from_hit kind cons con msg frames res x :
  con ∈ cons → NoDup (con_socket <$> cons) → Forall (λ con, con_state con = CONNECTED) cons →
  (∀ con', con' ∈ cons → con' ≠ con → empty_on x con') →
  default [] (inbox x !! con_socket con) = frames → gives kind con msg frames res →
  ∃ i, receive_from E kind cons msg x = (Ok (res (clock E (x_clock x))), tick (set_inbox i x)).
Proof.
  intros Hin. revert x. induction cons as [|con0 cons IH]; intros x Hnd Hup He Hr Hg; [by apply not_elem_of_nil in Hin|].
  cbn [fmap list_fmap] in Hnd. apply NoDup_cons in Hnd as [Hnew Hnd]. apply Forall_cons in Hup as [Hup0 Hup].
  cbn [receive_from]. rewrite bool_decide_true by done. cbn [negb]. unfold mbind, M_bind.
  destruct (decide (con0 = con)) as [->|Hne].
  - destruct (Hg x Hr) as [i Hi]. rewrite Hi. by exists i.
  - apply elem_of_cons in Hin as [?|Hin]; [done|].
    rewrite receive_one_nothing by (apply He; [apply list_elem_of_here|done]).
    edestruct (IH Hin (set_inbox (<[con_socket con0 := []]> (inbox x)) x)) as [i Hi]; try done.
    + intros con' Hin' Hne'. unfold empty_on. simpl. destruct (decide (con_socket con0 = con_socket con')) as [Heq|Hs].
      * by rewrite Heq, lookup_insert_eq.
      * rewrite lookup_insert_ne by done. apply He; [by apply list_elem_of_further|done].
    + simpl. rewrite lookup_insert_ne; [done|]. intros Heq. apply Hnew. rewrite Heq. by apply list_elem_of_fmap_2.
    + exists i. rewrite set_inbox_twice in Hi. exact Hi.
Qed.

(** What happened stays. *)
Definition grows {A} (m : M A) : Prop := ∀ x, x_log x `prefix_of` x_log (m x).2.

Lemma grows_quiet {A} (m : M A) : quiet m → grows m.
Proof. intros Hm x. destruct (Hm x) as (l & -> & _). by apply prefix_app_r. Qed.

Lemma grows_bind {A B} (m : M A) (k : A → M B) : grows m → (∀ a, grows (k a)) → grows (m ≫= k).
Proof.
  intros Hm Hk x. pose proof (Hm x) as Hx. unfold mbind, M_bind. destruct (m x) as [[a|e] x']; simpl in *; [|done].
  etrans; [done|]. apply Hk.
Qed.

Lemma grows_deliver m : grows (deliver m).
Proof.
  unfold deliver. apply grows_bind; [apply grows_quiet, quiet_gets|]. intros subs.
  apply grows_bind; [apply grows_quiet; solve_quiet|]. intros _ x. unfold mbind, M_bind, gets.
  destruct (requests x !! id m); simpl; [by apply prefix_app_r|done].
Qed.

Lemma grows_drain key turns msg : grows (drain E key turns msg).
Proof.
  revert msg. induction turns as [|a turns IH]; intros msg; simpl; [apply grows_quiet, quiet_ret|].
  apply grows_bind; [apply grows_quiet, quiet_modify; done|]. intros _.
  apply grows_bind; [apply grows_quiet, quiet_receive|]. intros [[] msg']; [|apply grows_quiet, quiet_ret].
  apply grows_bind; [apply grows_deliver|]. intros _.
  apply grows_bind; [apply grows_quiet, quiet_housekeeping_if_due|]. intros _. apply IH.
Qed.
End hit.

Lemma from_chars_u_to_dec z : in_u 64 z → from_chars_u 64 (to_dec z) = Parsed z.
Proof.
  intros Hz. unfold in_u in Hz. unfold from_chars_u, to_dec. destruct (Z.ltb_spec z 0); [lia|].
  set (ds := digits _ _).
  assert (Hd : Forall (λ c, is_digit c = true) ds) by (apply digits_are_digits; lia).
  assert (Hv : dec_value ds = Z.abs z) by (apply dec_value_digits; split; [lia|]; apply log2_fuel; lia).
  assert (Hne : ds ≠ []) by apply digits_nonempty.
  pose proof (take_while_all is_digit ds [] Hd I) as Ht. rewrite app_nil_r in Ht. rewrite Ht.
  destruct ds as [|d ds']; [done|]. rewrite Hv. destruct (Z.ltb_spec (Z.abs z) (2 ^ 64)); [|lia]. f_equal. lia.
Qed.

Lemma read_id_to_dec z : in_u 64 z → read_id (to_dec z) = z.
Proof. intros Hz. unfold read_id. by rewrite from_chars_u_to_dec. Qed.

(** A context with nothing to read, whose client under [key] has connections
    that are up, each with its socket. *)
Record listening (kind : client_kind) (key : bytes) (cons : list connection) (x : ctx) : Prop := {
  li_client : clients x !! key = Some (mkclient kind cons);
  li_sockets : NoDup (con_socket <$> cons);
  li_up : Forall (λ con, con_state con = CONNECTED) cons;
  li_empty k : default [] (inbox x !! k) = []
}.

(** A message that arrives is received and delivered, whatever comes after. *)
Lemma drain_hit E kind key cons con frames res turns msg x :
  listening kind key cons x → con ∈ cons → gives E kind con msg frames (λ t, (true, res t)) →
  ∃ x', requests x' = requests x ∧ subscriptions x' = subscriptions x
    ∧ x_log (deliver (res (clock E (x_clock x))) x').2
      `prefix_of` x_log (drain E key ([(con_socket con, frames)] :: turns) msg x).2.
Proof.
  intros [Hc Hs Hu He] Hin Hg. cbn [drain]. set (x1 := arrive [(con_socket con, frames)] x).
  assert (Hx1 : ∀ k, default [] (inbox x1 !! k) = if decide (k = con_socket con) then frames else []).
  { intros k. unfold x1, arrive. cbn [fold_left fst snd inbox set_inbox]. rewrite He. destruct (decide _) as [->|Hne].
    - by rewrite lookup_insert_eq.
    - rewrite lookup_insert_ne by congruence. apply He. }
  edestruct (receive_from_hit E kind cons con msg frames (λ t, (true, res t)) x1) as [i Hi]; try done.
  { intros con' Hin' Hne. unfold empty_on. rewrite Hx1. destruct (decide _) as [Heq|]; [|done].
    exfalso. apply Hne. apply list_elem_of_lookup in Hin as [j Hj]. apply list_elem_of_lookup in Hin' as [j' Hj'].
    assert (j' = j) as -> by (eapply (NoDup_lookup (con_socket <$> cons)); [done|by rewrite list_lookup_fmap, Hj'|];
      by rewrite list_lookup_fmap, Hj, Heq). congruence. }
  { rewrite Hx1. by rewrite decide_True. }
  exists (tick (set_inbox i x1)). split; [done|]. split; [done|].
  assert (Hrec : receive E key msg x1 = (Ok (true, res (clock E (x_clock x))), tick (set_inbox i x1))).
  { unfold receive, client_at, mbind, M_bind, gets, mret, M_ret. change (clients x1) with (clients x).
    rewrite Hc. exact Hi. }
  unfold mbind at 1, M_bind at 1, modify. fold x1. unfold mbind at 1, M_bind at 1. rewrite Hrec. cbv iota beta.
  unfold mbind at 1, M_bind at 1. destruct (deliver _ _) as [[[]|e] x3]; [|done]. cbn [snd].
  apply grows_bind; [apply grows_quiet, quiet_housekeeping_if_due|]. intros _. apply grows_drain.
Qed.

Lemma deliver_answers m x p :
  requests x !! id m = Some p → Answered (id m) (p_callback p) m ∈ x_log (deliver m x).2.
Proof.
  intros Hp. unfold deliver, mbind, M_bind, gets.
  destruct (subscriptions x !! serviceName m); unfold modify, mret, M_ret; cbn [requests add_log]; rewrite Hp;
    cbn [snd set_requests add_log x_log]; apply elem_of_app; right; by apply list_elem_of_singleton.
Qed.

Lemma deliver_notifies m x p :
  subscriptions x !! serviceName m = Some p → Notified (serviceName m) (p_callback p) m ∈ x_log (deliver m x).2.
Proof.
  intros Hp. unfold deliver, mbind, M_bind, gets. rewrite Hp. unfold modify, mret, M_ret. cbn [requests add_log].
  assert (Hin : Notified (serviceName m) (p_callback p) m ∈ x_log x ++ [Notified (serviceName m) (p_callback p) m]).
  { apply elem_of_app. right. by apply list_elem_of_singleton. }
  destruct (requests x !! id m); cbn [snd set_requests add_log x_log]; [|done]. apply elem_of_app. by left.
Qed.

Lemma template_id E command u i m : createRequestTemplate E command u i = Ok m → clientRequestID m = i.
Proof.
  unfold createRequestTemplate. intros (t & _ & Ht)%rbind_Ok_inv. apply rbind_Ok_inv in Ht as (tp & _ & Ht). by simplify_eq.
Qed.

Lemma request_registers E n x c cb :
  accounted n x → callback c = Some cb → command (cmd c) = Get ∨ command (cmd c) = Set_ →
  let p := mkpending (topic (cmd c)) cb (arrivalTime (cmd c)) in
  request E c x = sendCmd (topic (cmd c)) (command (cmd c)) (request_id x) (data (cmd c)) (rbac (cmd c))
    (set_requests (<[request_id x := p]> (requests x))
       (add_log [Registered (request_id x) cb] (set_request_id (wrapu 64 (request_id x + 1)) x))).
Proof.
  intros Hx Hcb Hcm p. unfold request, next_request_id, mbind, M_bind, gets, modify, mret, M_ret. rewrite Hcb.
  by destruct Hcm as [-> | ->]; unfold insert_new; cbn [requests set_request_id]; rewrite (next_id_free n x Hx).
Qed.

Definition reading (x : ctx) : Prop := control x = [] ∧ ∀ k, default [] (inbox x !! k) = [].

(** *** A request waits until it is answered *)

Definition waits (i : Z) (p : pending) (x : ctx) : Prop :=
  requests x !! i = Some p ∨ ∃ m, Answered i (p_callback p) m ∈ x_log x.

Definition steady {A} (i : Z) (p : pending) (m : M A) : Prop := ∀ x, waits i p x → waits i p (m x).2.

Lemma steady_grows {A} i p (m : M A) : grows m → (∀ x, requests x !! i = Some p → requests (m x).2 !! i = Some p) → steady i p m.
Proof.
  intros Hg Hr x [H|[a Ha]]; [left; auto|]. right. exists a. eapply elem_of_prefix; [exact Ha|apply Hg].
Qed.

Lemma steady_quiet {A} i p (m : M A) : quiet m → steady i p m.
Proof. intros Hm. apply steady_grows; [by apply grows_quiet|]. intros x. by destruct (Hm x) as (_ & _ & _ & -> & _). Qed.

Lemma steady_bind {A B} i p (m : M A) (k : A → M B) : steady i p m → (∀ a, steady i p (k a)) → steady i p (m ≫= k).
Proof.
  intros Hm Hk x Hx. specialize (Hm x Hx). unfold mbind, M_bind. destruct (m x) as [[a|e] x']; [|done]. by apply Hk.
Qed.

Lemma steady_deliver i p m : steady i p (deliver m).
Proof.
  unfold deliver. apply steady_bind; [apply steady_quiet, quiet_gets|]. intros subs.
  apply steady_bind; [apply steady_quiet; solve_quiet|]. intros _ x Hx. unfold mbind, M_bind, gets.
  destruct (requests x !! id m) as [q|] eqn:Hq; [|done]. destruct Hx as [Hx|[a Ha]]; [|right; exists a; apply elem_of_app; by left].
  destruct (decide (id m = i)) as [<-|Hne].
  - right. exists m. rewrite Hq in Hx. injection Hx as <-. apply elem_of_app. right. by apply list_elem_of_singleton.
  - left. simpl. by rewrite lookup_delete_ne.
Qed.

Lemma steady_pass E i p arriving : steady i p (pass E arriving).
Proof.
  assert (Hd : ∀ key turns msg, steady i p (drain E key turns msg)).
  { intros key turns. induction turns as [|a turns IH]; intros msg; cbn [drain]; [apply steady_quiet, quiet_ret|].
    apply steady_bind; [apply steady_quiet, quiet_modify; done|]. intros _.
    apply steady_bind; [apply steady_quiet, quiet_receive|]. intros [[] msg']; [|apply steady_quiet, quiet_ret].
    apply steady_bind; [apply steady_deliver|]. intros _.
    apply steady_bind; [apply steady_quiet, quiet_housekeeping_if_due|]. intros _. apply IH. }
  unfold pass. apply steady_bind; [apply steady_quiet, quiet_housekeeping_if_due|]. intros _.
  apply steady_bind; [apply steady_quiet, quiet_handleRequests|]. intros _.
  apply steady_bind; [apply steady_quiet, quiet_gets|]. intros keys.
  induction keys; cbn [drain_all]; [apply steady_quiet, quiet_ret|]. apply steady_bind; [apply Hd|done].
Qed.

(** An unsubscription with a callback takes request 0 away. *)
Lemma steady_request E i p c : i ≠ 0 ∨ command (cmd c) ≠ Unsubscribe → steady i p (request E c).
Proof.
  intros Hc. apply steady_grows; [intros x; destruct (request_log E c x) as (l & -> & _); by apply prefix_app_r|].
  intros x Hx. unfold request, next_request_id, sendCmd, mbind, M_bind, gets, modify, mret, M_ret, lift.
  destruct (callback c) as [cb|]; [|done].
  assert (Hins : ∀ j q, insert_new j q (requests x) !! i = Some p).
  { intros j q. unfold insert_new. destruct (requests x !! j) eqn:Hj; [done|]. rewrite lookup_insert_ne; [done|congruence]. }
  destruct (command (cmd c)); try done; try apply Hins.
  - by destruct (fromMdpTopic (uninit E) STRICT (topic (cmd c))).
  - destruct Hc as [Hc|Hc]; [|done]. simpl. by rewrite lookup_delete_ne.
Qed.

Definition keeps_requests (i : Z) (l : list action) : Prop := i ≠ 0 ∨ ∀ c, Ask c ∈ l → command (cmd c) ≠ Unsubscribe.

Lemma steady_acts E i p l : keeps_requests i l → steady i p (acts E l).
Proof.
  induction l as [|a l IH]; intros Hl; cbn [acts]; [apply steady_quiet, quiet_ret|]. apply steady_bind.
  - destruct a as [c|arriving]; [|apply steady_pass]. apply steady_request. destruct Hl as [Hl|Hl]; [by left|]. right. apply Hl. by left.
  - intros _. apply IH. destruct Hl as [Hl|Hl]; [by left|]. right. intros c Hc. apply Hl. by right.
Qed.

(** C16: In an idle context whose connections are up, a get or a set with a callback is
    sent once the polling thread looks, on a connection to the authority of its
    reference, as the message made from the reference, with its number.  Whatever is
    asked and received after that, the request waits until it is answered (but for an
    unsubscription, which takes request 0 away); and when the answer with its number
    arrives on that connection, still up and with nothing else to read, its
    callback is called with it, whatever arrives afterwards. *)
Theorem request_answered E n x c cb b ep a m :
  let u := topic (cmd c) in
  accounted n x → n + 1 < 2 ^ 64 → reading x →
  callback c = Some cb → command (cmd c) = Get ∨ command (cmd c) = Set_ →
  parseURI STRICT (u_str u) = Ok u → baseUri u = Ok b → createClient b = Ok (mkclient MdpClient []) →
  dealing MdpClient x (default (mkclient MdpClient []) (clients x !! u_str b)) →
  authority_value u = Ok a → endpoint a = Ok ep →
  createRequestTemplate E (command (cmd c)) u (to_dec (request_id x)) = Ok m →
  ∃ x1 con l, (request E c ;; handleRequests E) x = (Ok (), x1) ∧ con_authority con = a
    ∧ x_log x1 = x_log x ++ Registered (request_id x) cb :: l
                 ++ [Sent (con_socket con) (with_data (if bool_decide (command (cmd c) = Set_) then data (cmd c) else []) m)]
    ∧ (∃ cons, listening MdpClient (u_str b) cons x1 ∧ con ∈ cons)
    ∧ ∀ l', keeps_requests (request_id x) l' → let x2 := (acts E l' x1).2 in
        (∃ m', Answered (request_id x) cb m' ∈ x_log x2)
        ∨ ∀ cons r turns msg, listening MdpClient (u_str b) cons x2 → con ∈ cons →
            is_notification r = true → clientRequestID r = clientRequestID m → parseURI STRICT (u_str (topic r)) = Ok (topic r) →
            ∃ t, Answered (request_id x) cb (with_arrival t (request_id x) (arrived (uninit_id E) r))
                 ∈ x_log (drain E (u_str b) ([(con_socket con, arriving (on_wire (frames_of r)))] :: turns) msg x2).2.
Proof.
  intros u Hx Hn [Hctl Hin] Hcb Hcm Hu Hb Hs Hd Ha He Hm.
  assert (Hid : in_u 64 (request_id x)) by (destruct Hx as [? _ _ _ _ _]; unfold in_u; lia).
  pose proof (request_registers E n x c cb Hx Hcb Hcm) as Hreq. cbv zeta in Hreq.
  set (p := mkpending _ _ _) in *. set (x0 := set_requests _ _) in Hreq.
  destruct (handle_sent E MdpClient (or_introl eq_refl) u (command (cmd c)) (request_id x) (data (cmd c)) (rbac (cmd c)) x0 b _ a ep m
              eq_refl Hctl Hcm Hu Hb Hs eq_refl) as (x1 & con & c' & l & Hh & Hc' & Hd' & Hcon & Hau & Hl & Hi1 & Hc1 & Hr1 & Hs1);
    [by destruct Hd|done..|].
  exists x1, con, l. split; [unfold mbind, M_bind; rewrite Hreq; exact Hh|]. split; [done|].
  split; [rewrite Hl; simpl; by rewrite <-app_assoc|]. split.
  { exists (c_connections c'). split; [|done]. destruct Hd' as [Hk Hso Hup].
    split; [|done|by eapply Forall_impl; [exact Hup|intros ? []]|by rewrite Hi1].
    rewrite Hc'. destruct c'. simpl in Hk. by subst. }
  intros l' Hl' x2. assert (Hw : waits (request_id x) p x2).
  { apply steady_acts; [done|]. left. rewrite Hr1. unfold x0. cbn [requests set_requests]. by rewrite lookup_insert_eq. }
  destruct Hw as [Hw|Hw]; [right|by left]. intros cons r turns msg Hli Hcons Hno Hri Ht.
  destruct (drain_hit E MdpClient (u_str b) cons con _ _ turns msg x2 Hli Hcons (gives_answer E con msg r Hno Ht))
    as (x3 & Hr3 & _ & Hp). exists (clock E (x_clock x2)). eapply elem_of_prefix; [|exact Hp].
  rewrite Hri, (template_id _ _ _ _ _ Hm), read_id_to_dec by done.
  apply (deliver_answers (with_arrival _ _ _) _ p). cbn [id with_arrival]. by rewrite Hr3.
Qed.

Definition dev_request : client_command := example_command Get (str "mdp://host:12345/dev?x=1") [] (Some 7%nat).

Lemma request_answered_witness :
  let r := example_reply (str "/dev") (str "0") (str "42") in
  ∃ x1 con t, (request example_env dev_request ;; handleRequests example_env) (new_ctx 0) = (Ok (), x1)
    ∧ con_authority con = str "host:12345"
    ∧ Answered 0 7 (with_arrival t 0 (arrived 0 r))
      ∈ x_log (drain example_env (str "mdp://host:12345") [[(con_socket con, arriving (on_wire (frames_of r)))]]
                 (default_message example_env) x1).2.
Proof.
  intros r.
  set (m := @mkmsg WithoutSourceId tt 0 0 default_timeout clientProtocol Get (str "/dev") (str "0")
              (reference (str "/dev?x=1")) [] [] []).
  assert (Hm : createRequestTemplate example_env Get (topic (cmd dev_request)) (to_dec 0) = Ok m) by (vm_compute; reflexivity).
  pose proof (request_answered example_env 0 (new_ctx 0) dev_request 7 (reference (str "mdp://host:12345"))
                (str "tcp://host:12345") (str "host:12345") m) as H.
  cbv zeta in H. destruct H as (x1 & con & l & Hr & Hc & _ & (cons & Hcons & Hcon) & Ha).
  - apply new_accounted.
  - reflexivity.
  - split; [reflexivity|]. intros k. reflexivity.
  - reflexivity.
  - by left.
  - vm_compute. reflexivity.
  - vm_compute. reflexivity.
  - vm_compute. reflexivity.
  - by split; simpl; constructor.
  - vm_compute. reflexivity.
  - vm_compute. reflexivity.
  - exact Hm.
  - specialize (Ha [] (or_intror (λ c H, False_ind _ (proj1 (elem_of_nil _) H)))). cbv zeta in Ha.
    change ((acts example_env [] x1).2) with x1 in Ha.
    destruct Ha as [[m' Hm']|Hr'].
    { exfalso. apply (f_equal snd) in Hr. cbn [snd] in Hr. rewrite <- Hr in Hm'.
      assert (Hn : answers (x_log ((request example_env dev_request ;; handleRequests example_env) (new_ctx 0)).2) = []) by (vm_compute; reflexivity).
      apply (elem_of_nil (request_id (new_ctx 0))). rewrite <- Hn. apply list_elem_of_omap. eexists. split; [exact Hm'|reflexivity]. }
    destruct (Hr' cons r [] (default_message example_env) Hcons Hcon) as [t Ht]; [vm_compute; reflexivity..|].
    assert (Hb : u_str (reference (str "mdp://host:12345")) = str "mdp://host:12345") by (vm_compute; reflexivity).
    rewrite Hb in Ht. exists x1, con, t. split; [exact Hr|]. split; [exact Hc|exact Ht].
Defined.

(** ** From a subscription to its notifications *)

(** A subscription that is held stays; its callback is never taken away. *)
Definition holds {A} (z : bytes) (p : pending) (m : M A) : Prop :=
  ∀ x, subscriptions x !! z = Some p → subscriptions (m x).2 !! z = Some p.

Lemma holds_quiet {A} z p (m : M A) : quiet m → holds z p m.
Proof. intros Hm x. by destruct (Hm x) as (_ & _ & _ & _ & _ & ->). Qed.

Lemma holds_bind {A B} z p (m : M A) (k : A → M B) : holds z p m → (∀ a, holds z p (k a)) → holds z p (m ≫= k).
Proof.
  intros Hm Hk x Hx. specialize (Hm x Hx). unfold mbind, M_bind. destruct (m x) as [[a|e] x']; [|done]. by apply Hk.
Qed.

Lemma holds_request E z p c : holds z p (request E c).
Proof.
  intros x Hx. unfold request, next_request_id, sendCmd, mbind, M_bind, gets, modify, mret, M_ret, lift.
  destruct (callback c) as [cb|]; [|done]. destruct (command (cmd c)); try done.
  destruct (fromMdpTopic (uninit E) STRICT (topic (cmd c))) as [t|]; [|done]. cbn -[toZmqTopic]. unfold insert_new.
  destruct (subscriptions x !! toZmqTopic true t) eqn:Ht; [done|]. rewrite lookup_insert_ne; [done|congruence].
Qed.

Lemma holds_acts E z p l : holds z p (acts E l).
Proof.
  assert (Hd : ∀ key turns msg, holds z p (drain E key turns msg)).
  { intros key turns. induction turns as [|a turns IH]; intros msg; cbn [drain]; [apply holds_quiet, quiet_ret|].
    apply holds_bind; [apply holds_quiet, quiet_modify; done|]. intros _.
    apply holds_bind; [apply holds_quiet, quiet_receive|]. intros [[] msg']; [|apply holds_quiet, quiet_ret].
    apply holds_bind; [|intros _; apply holds_bind; [apply holds_quiet, quiet_housekeeping_if_due|]; intros _; apply IH].
    unfold deliver. apply holds_bind; [apply holds_quiet, quiet_gets|]. intros subs.
    apply holds_bind; [apply holds_quiet; solve_quiet|]. intros _ x Hx. unfold mbind, M_bind, gets. by destruct (requests x !! id msg'). }
  induction l as [|[c|arriving] l IH]; cbn [acts]; [apply holds_quiet, quiet_ret| |]; (apply holds_bind; [|done]);
    [apply holds_request|]. cbn [act]. unfold pass. apply holds_bind; [apply holds_quiet, quiet_housekeeping_if_due|]. intros _.
  apply holds_bind; [apply holds_quiet, quiet_handleRequests|]. intros _.
  apply holds_bind; [apply holds_quiet, quiet_gets|]. intros keys.
  induction keys; cbn [drain_all]; [apply holds_quiet, quiet_ret|]. apply holds_bind; [apply Hd|done].
Qed.

(** A subscription with a callback reaches its publisher, and a notification that
    the publisher sends under its topic reaches the callback, whatever has happened
    in between. *)
Lemma subscription_notified E x c cb b ep a t :
  let u := topic (cmd c) in
  let z := toZmqTopic true t in
  connectable E SubClient → reading x →
  callback c = Some cb → command (cmd c) = Subscribe →
  parseURI STRICT (u_str u) = Ok u → baseUri u = Ok b → createClient b = Ok (mkclient SubClient []) →
  dealing SubClient x (default (mkclient SubClient []) (clients x !! u_str b)) →
  authority_value u = Ok a → endpoint a = Ok ep →
  fromMdpTopic (uninit E) STRICT u = Ok t → subscription_topic E u = Ok z → subscriptions x !! z = None →
  ∃ x1 con l, (request E c ;; handleRequests E) x = (Ok (), x1) ∧ con_authority con = a
    ∧ x_log x1 = x_log x ++ l ++ [ZmqSubscribe (con_socket con) z]
    ∧ (∃ cons, listening SubClient (u_str b) cons x1 ∧ con ∈ cons)
    ∧ ∀ l' cons (r : BrokerMessage) turns msg, let x2 := (acts E l' x1).2 in
        listening SubClient (u_str b) cons x2 → con ∈ cons → is_notification r = true → sourceId r = z →
        parseURI STRICT (u_str (topic r)) = Ok (topic r) →
        ∃ t', Notified z cb (published t' r msg)
              ∈ x_log (drain E (u_str b) ([(con_socket con, arriving (on_wire (frames_of r)))] :: turns) msg x2).2.
Proof.
  intros u z Hcon [Hctl Hin] Hcb Hcm Hu Hb Hs Hd Ha He Ht Hz Hnew.
  set (p := mkpending (topic (cmd c)) cb (arrivalTime (cmd c))).
  set (x0 := set_subscriptions (<[z := p]> (subscriptions x)) (set_request_id (wrapu 64 (request_id x + 1)) x)).
  assert (Hreq : request E c x = sendCmd u Subscribe (request_id x) (data (cmd c)) (rbac (cmd c)) x0).
  { unfold request, next_request_id, mbind, M_bind, gets, modify, lift, mret, M_ret. rewrite Hcb, Hcm. fold u.
    rewrite Ht. unfold insert_new. cbn [subscriptions set_request_id]. fold z. by rewrite Hnew. }
  destruct (handle_subscribed E SubClient Hcon u (request_id x) (data (cmd c)) (rbac (cmd c)) x0 b _ a ep z
              eq_refl Hctl Hu Hb Hs eq_refl) as (x1 & con & c' & l & Hh & Hc' & Hd' & Hcon' & Hau & Hl & Hi1 & Hc1 & Hr1 & Hs1);
    [by destruct Hd|done..|].
  exists x1, con, l. split; [unfold mbind, M_bind; rewrite Hreq; exact Hh|]. split; [done|]. split; [done|]. split.
  { exists (c_connections c'). split; [|done]. destruct Hd' as [Hk Hso Hup].
    split; [|done|by eapply Forall_impl; [exact Hup|intros ? []]|by rewrite Hi1].
    rewrite Hc'. destruct c'. simpl in Hk. by subst. }
  intros l' cons r turns msg x2 Hli Hcons Hno Hri Htr.
  assert (Hp2 : subscriptions x2 !! z = Some p).
  { apply holds_acts. rewrite Hs1. unfold x0. cbn [subscriptions set_subscriptions]. by rewrite lookup_insert_eq. }
  destruct (drain_hit E SubClient (u_str b) cons con _ _ turns msg x2 Hli Hcons (gives_publication E con msg r Hno Htr))
    as (x3 & _ & Hs3 & Hp). exists (clock E (x_clock x2)). eapply elem_of_prefix; [|exact Hp].
  rewrite <-Hri. apply (deliver_notifies (published _ r msg) _ p). cbn [serviceName published]. by rewrite Hri, Hs3.
Qed.

(** ** What goes wrong *)

(** The callbacks called: for the answer to a request or a notification, with the
    data. *)
Definition called (e : event) : option (option Z * nat * bytes) :=
  match e with
  | Answered i cb m => Some (Some i, cb, data m)
  | Notified _ cb m => Some (None, cb, data m)
  | _ => None
  end.

Definition calls (l : list action) : list (option Z * nat * bytes) := omap called (x_log (example_run l)).

Definition mdp_dev : bytes := str "mdp://host:12345/dev".
Definition mds_dev : bytes := str "mds://host:12346/dev".

(** A notification of a broker to a client that subscribed over its request
    socket, and one of its publisher. *)
Definition notification_to_client (d : bytes) : ClientMessage := example_reply (str "/dev") [] d.
Definition publication (c : Command) (d : bytes) : BrokerMessage :=
  @mkmsg WithSourceId (str "/dev#") 0 0 default_timeout clientProtocol c (str "/dev") [] (reference (str "/dev")) d [] [].

Definition hears {f} (key : bytes) (k : nat) (ms : list (message f)) : action :=
  Pass (λ key', (if bool_decide (key' = key) then (λ m, [(k, arriving (on_wire (frames_of m)))]) <$> ms else []) ++ [[]]).

Definition mdp_host : bytes := str "mdp://host:12345".
Definition mds_host : bytes := str "mds://host:12346".

(** A subscription over [mdp] is known under a name with a # that notifications do
    not carry: its callback is never called. *)
Lemma mdp_subscription_silent :
  calls [Ask (example_command Subscribe mdp_dev [] (Some 1%nat)); Pass quiet_socket; hears mdp_host 0 [notification_to_client (str "42")]] = [].
Proof. vm_compute. reflexivity. Qed.

(** Notifications have no request number, which is read as that of the first
    request: they are taken for its answer, and the answer is lost. *)
Lemma notification_taken_for_answer :
  calls [Ask (example_command Get mdp_dev [] (Some 1%nat)); Ask (example_command Subscribe mdp_dev [] (Some 2%nat)); Pass quiet_socket;
         hears mdp_host 0 [notification_to_client (str "42"); example_reply (str "/dev") (str "0") (str "answer")]]
  = [(Some 0, 1%nat, str "42")]
  ∧ calls [Ask (example_command Get mdp_dev [] (Some 1%nat)); Ask (example_command Subscribe mds_dev [] (Some 2%nat)); Pass quiet_socket;
           hears mds_host 1 [publication Notify (str "42")]]
  = [(None, 2%nat, str "42"); (Some 0, 1%nat, str "42")].
Proof. split; vm_compute; reflexivity. Qed.

(** A cancelled subscription keeps its callback: the one of a new subscription to
    the same topic is never called. *)
Lemma resubscription_keeps_callback :
  calls [Ask (example_command Subscribe mds_dev [] (Some 1%nat)); Ask (example_command Unsubscribe mds_dev [] None);
         Ask (example_command Subscribe mds_dev [] (Some 2%nat)); Pass quiet_socket; hears mds_host 0 [publication Notify (str "42")]]
  = [(None, 1%nat, str "42")].
Proof. vm_compute. reflexivity. Qed.

(** A message of another command leaves the last notification as it was, which is
    delivered again. *)
Lemma notification_delivered_twice :
  calls [Ask (example_command Subscribe mds_dev [] (Some 1%nat)); Pass quiet_socket;
         hears mds_host 0 [publication Notify (str "42"); publication Heartbeat []]]
  = [(None, 1%nat, str "42"); (None, 1%nat, str "42")].
Proof. vm_compute. reflexivity. Qed.

(** An Unsubscribe with a callback takes the first request away. *)
Lemma unsubscribe_drops_request :
  calls [Ask (example_command Get mdp_dev [] (Some 1%nat)); Ask (example_command Unsubscribe mds_dev [] (Some 2%nat));
         Pass quiet_socket; hears mdp_host 0 [example_reply (str "/dev") (str "0") (str "answer")]] = [].
Proof. vm_compute. reflexivity. Qed.

(** A connection of [Client] counts as up when [zmq_connect] has failed, and is
    not tried again. *)
Lemma failed_connection_up E n con x ep :
  endpoint (con_authority con) = Ok ep → connects E (con_socket con) n = false → x_clock x = n →
  ∃ x' con', connect E MdpClient con x = (Ok con', x') ∧ con_state con' = CONNECTED ∧ pollitems x' = pollitems x.
Proof.
  intros He Hc Hn. unfold connect, mbind, M_bind, lift, gets, modify, mret, M_ret. rewrite He, Hn, Hc.
  by do 2 eexists.
Qed.

(** The access token of a command is handed to the polling thread and not sent. *)
Lemma token_not_sent E command u i m : createRequestTemplate E command u i = Ok m → rbac m = [].
Proof.
  unfold createRequestTemplate. intros (t & _ & Ht)%rbind_Ok_inv. apply rbind_Ok_inv in Ht as (tp & _ & Ht). by simplify_eq.
Qed.
