(* ===== verification/ClientContext.v ===== *)
(** * ClientContext: [client/include/ClientContext.hpp]

    The commands of any thread go through a ring buffer of 32 entries to a
    thread that hands each to the first implementation that lists the scheme of
    its reference.  The implementations are known by an interface; that of
    [Client] is one.  A command is written or read as a whole: the ring
    buffer's own interleavings are those of [Producers]. *)

From S2P Require Import Prelude Uri Message Sequence Claim Producers RingBuffer Client.
Local Open Scope Z_scope.

Definition CMD_RB_SIZE : Z := 2 ^ 5.

#[local] Instance cmd_strategy : ClaimStrategy Multi.t := Multi.strategy CMD_RB_SIZE.

(** [ClientBase]: what an implementation offers over the state [X] of all of
    them. *)
Record ClientBase (X : Type) : Type := mkbase {
  protocols : list bytes;
  base_request : client_command → X → result () * X
}.
Arguments mkbase {X}.
Arguments protocols {X}.
Arguments base_request {X}.

(** [MDClientCtx] as an implementation. *)
Definition MDClientCtx (E : environment) : ClientBase ctx :=
  mkbase [str "mdp"; str "mdp+tcp"; str "mdp+inproc"; str "mds"; str "mds+tcp"; str "mds+inproc"] (request E).

Section context.
Context {X : Type} (contexts : list (ClientBase X)).

(** The constructor fills [_schemeContexts]; [insert] keeps what is there. *)
Definition add_protocols (m : gmap bytes (ClientBase X)) (b : ClientBase X) : gmap bytes (ClientBase X) :=
  fold_left (λ m scheme, insert_new scheme b m) (protocols b) m.

Definition schemeContexts : gmap bytes (ClientBase X) := fold_left add_protocols contexts ∅.

Definition getClientCtx (u : uri) : result (ClientBase X) :=
  match returnOpt (u_scheme u) with
  | None => Throw BadOptionalAccess
  | Some s => match schemeContexts !! s with Some b => Ok b | None => Throw LogicError end
  end.

(** The state: the ring buffer, the poller, the implementations; [ended]: the
    exception that ended the polling thread, and with it the program. *)
Record context : Type := mkcontext {
  commandRingBuffer : RingBuffer.t Multi.t client_command;
  cmdPoller : poller;
  implementations : X;
  ended : option exn
}.

(** A [Command] as the ring buffer makes it. *)
Definition default_command : client_command :=
  mkcommand (@mkmsg WithoutSourceId tt 0 0 default_timeout [] Invalid (str "/") [] root_topic [] [] []) None.

Definition new_context (x : X) : context :=
  mkcontext (mk Multi.init (λ _, default_command)) (mkpoller kInitialCursorValue kInitialCursorValue) x None.

(** [queueCommand]: [false] if it prints that the command is lost. *)
Definition queued_command (c : Command) (endpoint : uri) (cb : option nat) (d : bytes) : client_command :=
  mkcommand (@mkmsg WithoutSourceId tt 0 0 default_timeout [] c (str "/") [] endpoint d [] []) cb.

Definition queueCommand (c : Command) (endpoint : uri) (cb : option nat) (d : bytes) (x : context) : bool * context :=
  let (published, rb) := tryPublishEvent CMD_RB_SIZE (λ _ _, (queued_command c endpoint cb d, Ok ()))
                           [sequence (cmdPoller x)] (commandRingBuffer x) in
  (published, mkcontext rb (cmdPoller x) (implementations x) (ended x)).

Definition get (endpoint : uri) (cb : option nat) : context → bool * context := queueCommand Get endpoint cb [].
Definition set (endpoint : uri) (cb : option nat) (d : bytes) : context → bool * context := queueCommand Set_ endpoint cb d.
Definition subscribe (endpoint : uri) (cb : option nat) : context → bool * context := queueCommand Subscribe endpoint cb [].
Definition unsubscribe (endpoint : uri) : context → bool * context := queueCommand Unsubscribe endpoint None [].

(** The event handler of [poll]: its answer, and what it did. *)
Definition handle (c : client_command) (x : X) : result bool * X :=
  if bool_decide (command (cmd c) = Invalid) then (Ok false, x)
  else
    match getClientCtx (topic (cmd c)) with
    | Throw e => (Throw e, x)
    | Ok b => match base_request b c x with (Ok _, x') => (Ok false, x') | (Throw e, x') => (Throw e, x') end
    end.

(** One turn of [poll].  The handler answers [false], so that it is called once at
    most, and with the state before the turn. *)
Definition poll_turn (x : context) : context :=
  match ended x with
  | Some _ => x
  | None =>
      let '(calls, r, p') := RingBuffer.poll CMD_RB_SIZE (λ _ c, (handle (c_event c) (implementations x)).1)
                               (commandRingBuffer x) [cursor (commandRingBuffer x)] (cmdPoller x) in
      mkcontext (commandRingBuffer x) p'
        (fold_left (λ i c, (handle (c_event c) i).2) calls (implementations x))
        (match r with Throw e => Some e | Ok _ => None end)
  end.

Inductive operation : Type :=
  | Queue (c : Command) (endpoint : uri) (cb : option nat) (d : bytes)
  | Turn.

(** What the callers of [queueCommand] see, and the state. *)
Definition perform (s : list bool * context) (o : operation) : list bool * context :=
  match o with
  | Queue c u cb d => let (b, x) := queueCommand c u cb d s.2 in (s.1 ++ [b], x)
  | Turn => (s.1, poll_turn s.2)
  end.

Definition performs (ops : list operation) (s : list bool * context) : list bool * context := fold_left perform ops s.

(** ** The specification: a queue of 32 commands, taken one by one *)

Record spec : Type := mkspec { s_queue : list client_command; s_state : X; s_ended : option exn }.

Definition spec_queue (c : client_command) (s : spec) : bool * spec :=
  if bool_decide (length (s_queue s) < 32)%nat then (true, mkspec (s_queue s ++ [c]) (s_state s) (s_ended s))
  else (false, s).

Definition spec_turn (s : spec) : spec :=
  match s_ended s, s_queue s with
  | None, c :: q =>
      match handle c (s_state s) with
      | (Ok _, x') => mkspec q x' None
      | (Throw e, x') => mkspec (c :: q) x' (Some e)
      end
  | _, _ => s
  end.

Definition spec_perform (s : list bool * spec) (o : operation) : list bool * spec :=
  match o with
  | Queue c u cb d => let (b, x) := spec_queue (queued_command c u cb d) s.2 in (s.1 ++ [b], x)
  | Turn => (s.1, spec_turn s.2)
  end.

(** ** The ring buffer implements it *)

Abbreviation strat x := (claimStrategy (commandRingBuffer x)).

(** What is pending stands in the slots after the poller's sequence; at most [n]
    commands were queued. *)
Record implements (n : Z) (x : context) (s : spec) : Prop := {
  im_bounds : -1 ≤ sequence (cmdPoller x) ∧ Multi.cursor (strat x) < n;
  im_state : implementations x = s_state s;
  im_ended : ended x = s_ended s;
  im_pending : Multi.cursor (strat x) = sequence (cmdPoller x) + Z.of_nat (length (s_queue s));
  im_room : (length (s_queue s) ≤ 32)%nat;
  im_cache : Multi.gatingCache (strat x) ≤ sequence (cmdPoller x);
  im_last : lastAvailableSequence (cmdPoller x) ≤ Multi.cursor (strat x);
  im_available i : sequence (cmdPoller x) < i ≤ Multi.cursor (strat x) → Multi.isAvailable CMD_RB_SIZE (strat x) i = true;
  im_slots i c : s_queue s !! i = Some c →
    at_ CMD_RB_SIZE (commandRingBuffer x) (sequence (cmdPoller x) + 1 + Z.of_nat i) = c
}.

Lemma min_of_one a d : min_of [a] d = Z.min d a.
Proof. unfold min_of. simpl. lia. Qed.

Lemma size_ok : 0 ≤ 5 ≤ 31.
Proof. lia. Qed.

(** A poller that is not ahead of the cursor may read up to it. *)
Lemma available_to_cursor n x s :
  implements n x s → n ≤ 2 ^ 63 →
  poll_available (commandRingBuffer x) [cursor (commandRingBuffer x)] (cmdPoller x) = Multi.cursor (strat x).
Proof.
  intros Hi Hn. destruct (im_bounds _ _ _ Hi) as [H0 Hmax]. unfold poll_available. rewrite min_of_one.
  change (cursor (commandRingBuffer x)) with (Multi.cursor (strat x)). rewrite Z.min_r by (unfold int64_max; lia).
  set (lb := if _ : bool then _ else _).
  assert (Hlb : sequence (cmdPoller x) + 1 ≤ lb ∧ lb - 1 ≤ Multi.cursor (strat x)).
  { pose proof (im_last _ _ _ Hi). pose proof (im_pending _ _ _ Hi).
    unfold lb. destruct (_ && _) eqn:Hm; [|lia]. apply andb_true_iff in Hm as [_ Hm%Z.ltb_lt]. lia. }
  destruct (Multi.getHighest_spec CMD_RB_SIZE (strat x) lb (Multi.cursor (strat x))) as (H1 & _ & H3); [lia|].
  change (getHighestPublishedSequence _ lb _) with (Multi.getHighestPublishedSequence CMD_RB_SIZE (strat x) lb (Multi.cursor (strat x))).
  destruct (decide (Multi.getHighestPublishedSequence CMD_RB_SIZE (strat x) lb (Multi.cursor (strat x)) < Multi.cursor (strat x)))
    as [Hlt|]; [|lia].
  specialize (H3 Hlt). rewrite (im_available _ _ _ Hi) in H3; [done|]. lia.
Qed.

(** A claim succeeds exactly when less than 32 commands are pending. *)
Lemma tryNext_room n x s :
  implements n x s →
  match Multi.tryNext CMD_RB_SIZE (strat x) [sequence (cmdPoller x)] 1 with
  | (Ok i, st) => (length (s_queue s) < 32)%nat ∧ i = Multi.cursor (strat x) + 1 ∧ Multi.cursor st = i
                  ∧ Multi.available st = Multi.available (strat x) ∧ Multi.gatingCache st ≤ sequence (cmdPoller x)
  | (Throw _, st) => length (s_queue s) = 32%nat ∧ Multi.cursor st = Multi.cursor (strat x)
                     ∧ Multi.available st = Multi.available (strat x) ∧ Multi.gatingCache st ≤ sequence (cmdPoller x)
  end.
Proof.
  intros [Hb _ _ Hp Hr Hc _ _ _]. unfold Multi.tryNext, Multi.hasAvailableCapacity. rewrite min_of_one.
  set (q := sequence (cmdPoller x)) in *. set (cu := Multi.cursor (strat x)) in *. unfold CMD_RB_SIZE. change (2 ^ 5) with 32.
  destruct (Z.ltb_spec (Multi.gatingCache (strat x)) (cu + 1 - 32)); cbn [orb]; [|rewrite (proj2 (Z.ltb_ge cu _)) by lia].
  - destruct (Z.ltb_spec (Z.min cu q) (cu + 1 - 32)); simpl; split_and!; done || lia.
  - simpl. split_and!; done || lia.
Qed.

(** Slots of a window are different. *)
Lemma slot_ne a s t :
  a - CMD_RB_SIZE < s ≤ a → a - CMD_RB_SIZE < t ≤ a → t ≠ s →
  Multi.calculateIndex CMD_RB_SIZE t ≠ Multi.calculateIndex CMD_RB_SIZE s
  ∧ entry_index CMD_RB_SIZE t ≠ entry_index CMD_RB_SIZE s.
Proof.
  intros Hs Ht Hne. split; [|by apply (entry_index_ne 5 size_ok a)].
  unfold CMD_RB_SIZE in *. rewrite !(calculateIndex_mod 5 size_ok). intros Heq. apply Hne, (window_eq 5 size_ok a); done.
Qed.

Lemma queue_implements n x s c u cb d :
  implements n x s →
  let r := queueCommand c u cb d x in let r' := spec_queue (queued_command c u cb d) s in
  r.1 = r'.1 ∧ implements (n + 1) r.2 r'.2.
Proof.
  intros Hi. pose proof (tryNext_room n x s Hi) as Ht. destruct Hi as [Hb Hst He Hp Hr Hc Hl Ha Hs].
  cbv zeta. unfold queueCommand, tryPublishEvent.
  change (cs_tryNext (strat x)) with (Multi.tryNext CMD_RB_SIZE (strat x)).
  destruct (Multi.tryNext _ _ _ _) as [[i|e] st].
  - destruct Ht as (Hlen & -> & Hcu & Hav & Hga). unfold spec_queue. rewrite bool_decide_true by done. cbn [fst snd]. split; [done|].
    unfold translateAndPublish, RingBuffer.publish. cbn [fst snd entries claimStrategy].
    set (i := Multi.cursor (strat x) + 1) in *.
    split; cbn [cmdPoller commandRingBuffer implementations ended claimStrategy s_queue s_state s_ended];
      unfold cs_publish, cmd_strategy, Multi.strategy, Multi.publish, Multi.setAvailable, Multi.setAvailableBufferValue;
      cbn [Multi.cursor Multi.gatingCache]; rewrite ?length_app; cbn [length]; try done; try lia.
    + intros j Hj. unfold Multi.isAvailable. cbn [Multi.available]. destruct (decide (j = i)) as [->|Hne].
      { rewrite fn_lookup_insert. apply Z.eqb_refl. }
      rewrite Hav, fn_lookup_insert_ne by (intros Heq; symmetry in Heq; revert Heq; apply (slot_ne i); unfold CMD_RB_SIZE; lia).
      apply Ha. lia.
    + intros j c' Hj. unfold at_. cbn [entries]. apply lookup_snoc_Some in Hj as [[Hj Hj']|[-> <-]].
      * rewrite fn_lookup_insert_ne by (intros Heq; symmetry in Heq; revert Heq; apply (slot_ne i); unfold CMD_RB_SIZE; lia).
        by apply Hs.
      * replace (sequence (cmdPoller x) + 1 + Z.of_nat (length (s_queue s))) with i by lia. by rewrite fn_lookup_insert.
  - destruct Ht as (Hlen & Hcu & Hav & Hga). unfold spec_queue. rewrite bool_decide_false by lia. cbn [fst snd]. split; [done|].
    split; cbn [cmdPoller commandRingBuffer implementations ended claimStrategy]; rewrite ?Hcu; try done; try lia.
    intros j Hj. unfold Multi.isAvailable. rewrite Hav. by apply Ha.
Qed.

Lemma handle_false c i : (handle c i).1 = Ok false ∨ ∃ e, (handle c i).1 = Throw e.
Proof.
  unfold handle. case_bool_decide; [by left|]. destruct (getClientCtx _) as [b|e]; [|right; by eexists].
  destruct (base_request b c i) as [[?|e] ?]; [by left|right; by eexists].
Qed.

(** The slots after the first. *)
Lemma pop_slots n x s c q :
  implements n x s → s_queue s = c :: q →
  ∀ i c', q !! i = Some c' → at_ CMD_RB_SIZE (commandRingBuffer x) (sequence (cmdPoller x) + 1 + 1 + Z.of_nat i) = c'.
Proof.
  intros Hi Hq i c' Hc. replace (_ + 1 + 1 + Z.of_nat i) with (sequence (cmdPoller x) + 1 + Z.of_nat (S i)) by lia.
  apply (im_slots _ _ _ Hi). by rewrite Hq.
Qed.

Lemma turn_implements n x s : implements n x s → n ≤ 2 ^ 63 → implements n (poll_turn x) (spec_turn s).
Proof.
  intros Hi Hn. pose proof (available_to_cursor n x s Hi Hn) as Hav. pose proof (pop_slots n x s) as Hpop.
  unfold poll_turn, spec_turn. rewrite <-(im_ended _ _ _ Hi). destruct (ended x) as [e|] eqn:Hend; [by destruct (s_queue s)|].
  unfold RingBuffer.poll. rewrite Hav. destruct (s_queue s) as [|c q] eqn:Hq.
  - pose proof (im_pending _ _ _ Hi) as Hp. rewrite Hq in Hp. cbn [length] in Hp.
    destruct (Z.leb_spec (sequence (cmdPoller x) + 1) (Multi.cursor (strat x))); [lia|].
    destruct Hi as [Hb Hst He Hpe Hr Hc Hl Ha Hs].
    destruct (sequence (cmdPoller x) + 1 <=? cursor (commandRingBuffer x));
      (split; cbn [cmdPoller sequence lastAvailableSequence commandRingBuffer implementations ended fold_left]; rewrite ?Hq; try done; try lia; congruence).
  - pose proof (im_pending _ _ _ Hi) as Hp. rewrite Hq in Hp. cbn [length] in Hp.
    destruct (Z.leb_spec (sequence (cmdPoller x) + 1) (Multi.cursor (strat x))); [|lia].
    destruct (Z.to_nat (Multi.cursor (strat x) - sequence (cmdPoller x))) as [|f] eqn:Hf; [lia|]. cbn [poll_loop c_event].
    assert (Hhead : at_ CMD_RB_SIZE (commandRingBuffer x) (sequence (cmdPoller x) + 1) = c).
    { rewrite <-(im_slots _ _ _ Hi 0 c) by by rewrite Hq. f_equal. lia. }
    rewrite Hhead, <-(im_state _ _ _ Hi). specialize (Hpop c q Hi eq_refl).
    destruct Hi as [Hb Hst He Hpe Hr Hc Hl Ha Hs]. rewrite Hq in Hr. cbn [length] in Hr.
    destruct (handle_false c (implementations x)) as [Hh|[e Hh]]; rewrite Hh; destruct (handle c (implementations x)) as [r i'] eqn:Eh;
      simpl in Hh; subst r; cbn [andb reverse rev_append].
    + split; cbn [cmdPoller sequence lastAvailableSequence commandRingBuffer implementations ended fold_left c_event s_queue s_state s_ended];
        rewrite ?Eh; try done; try lia. intros i Hi'. apply Ha. lia.
    + split; cbn [cmdPoller sequence lastAvailableSequence commandRingBuffer implementations ended fold_left c_event s_queue s_state s_ended];
        rewrite ?Eh; try done; try (cbn [length]; lia). by rewrite <-Hq.
Qed.

Lemma performs_implements ops n x s l :
  implements n x s → n + Z.of_nat (length ops) ≤ 2 ^ 63 →
  (performs ops (l, x)).1 = (fold_left spec_perform ops (l, s)).1
  ∧ ∃ n', implements n' (performs ops (l, x)).2 (fold_left spec_perform ops (l, s)).2.
Proof.
  revert n x s l. induction ops as [|o ops IH]; intros n x s l Hi Hn; [split; [done|by exists n]|].
  cbn [length] in Hn. unfold performs. cbn [fold_left]. destruct o as [c u cb d|]; cbn [perform spec_perform fst snd].
  - destruct (queue_implements n x s c u cb d Hi) as [Hb Hi']. destruct (queueCommand c u cb d x) as [b x'], (spec_queue _ s) as [b' s'].
    cbn [fst snd] in *. subst b'. by apply (IH (n + 1)); [|lia].
  - apply (IH n); [|lia]. apply turn_implements; [done|lia].
Qed.

Lemma new_implements x : implements 0 (new_context x) (mkspec [] x None).
Proof. split; simpl; unfold kInitialCursorValue; try done; lia. Qed.
End context.

(** C23: Whatever threads queue and however the polls fall between, the ring buffer
    and its poller are a queue of 32 commands: a command is refused exactly
    when 32 are pending, and those accepted reach the implementation of their
    scheme one by one, in their order, each once, until one of them throws. *)
Theorem queue_refines {X} (contexts : list (ClientBase X)) (x : X) ops :
  Z.of_nat (length ops) ≤ 2 ^ 63 →
  let r := performs contexts ops ([], new_context x) in
  let s := fold_left (spec_perform contexts) ops ([], mkspec [] x None) in
  r.1 = s.1 ∧ implementations r.2 = s_state s.2 ∧ ended r.2 = s_ended s.2.
Proof.
  intros Hn r s. destruct (performs_implements contexts ops 0 (new_context x) (mkspec [] x None) [] (new_implements x)) as [Hb [n Hi]];
    [lia|]. split; [exact Hb|]. split; [exact (im_state _ _ _ Hi)|exact (im_ended _ _ _ Hi)].
Qed.

Definition dev_uri : uri := reference (str "mdp://host:12345/dev").

Lemma queue_refines_witness :
  let ops := [Queue Get dev_uri (Some 1%nat) []; Queue Set_ dev_uri (Some 2%nat) (str "5"); Turn] in
  let r := performs [MDClientCtx example_env] ops ([], new_context (new_ctx 0)) in
  let s := fold_left (spec_perform [MDClientCtx example_env]) ops ([], mkspec [] (new_ctx 0) None) in
  r.1 = s.1 ∧ implementations r.2 = s_state s.2 ∧ ended r.2 = s_ended s.2.
Proof. intros ops. apply (queue_refines [MDClientCtx example_env] (new_ctx 0) ops). vm_compute. discriminate. Defined.

(** ** What goes wrong *)

(** A reference of another scheme ends the program, from any thread. *)
Lemma unknown_scheme_ends :
  ended (performs [MDClientCtx example_env] [Queue Get (reference (str "ftp://host/dev")) (Some 1%nat) []; Turn]
           ([], new_context (new_ctx 0))).2 = Some LogicError.
Proof. vm_compute. reflexivity. Qed.

(** The thirty-third command is lost, its callback is never called. *)
Lemma command_lost :
  (performs [MDClientCtx example_env] (replicate 33 (Queue Get dev_uri (Some 1%nat) [])) ([], new_context (new_ctx 0))).1
  = replicate 32 true ++ [false].
Proof. vm_compute. reflexivity. Qed.
