(* ===== verification/Delivery.v ===== *)
(** * Delivery: a publisher and its subscribers

    What the broker's publisher sends ([Subscriptions]) meets what a client has
    subscribed to ([Client]): ZeroMQ's SUB socket lets through what was
    subscribed, which is the topic the publisher puts in front. *)

From S2P Require Import Prelude Uri Topic Message Matching Subscriptions Client.
Local Open Scope Z_scope.

(** The reference names the topic: its path is a service name, and its query the
    parameters, each coded as the factory of references codes it. *)
Definition names (u : uri) (t : Topic.t) : Prop :=
  isValidServiceName (_service t) = true ∧ u_path u = _service t ∧ u_fragment u = []
  ∧ ∃ kvs, u_query u = join (str "&") (query_item <$> kvs) ∧ Forall readable kvs ∧ NoDup kvs.*1 ∧ list_to_map kvs = _params t.

Lemma names_path u t : names u t → ∃ c r, u_path u = c :: r.
Proof. intros (Hv & -> & _). destruct (service_head _ Hv) as [r ->]. eauto. Qed.

(** The broker's publisher and the client read the same topic from it. *)
Lemma names_mdp u t uninit : names u t → fromMdpTopic uninit STRICT u = Ok t.
Proof.
  intros Hn. destruct (names_path u t Hn) as (c & r & Hp). destruct Hn as (Hv & Hpath & Hf & kvs & Hq & Hr & Hnd & Hm).
  unfold fromMdpTopic. rewrite Hf, Hq, read_items, insert_params_map, Hm, Hp by done. cbn [returnOpt default].
  rewrite <- Hp, Hpath, make_plain by done. by destruct t.
Qed.

Lemma names_client u t E : names u t → subscription_topic E u = Ok (toZmq t).
Proof.
  intros Hn. destruct (names_path u t Hn) as (c & r & Hp). destruct Hn as (Hv & Hpath & _ & kvs & Hq & Hr & Hnd & Hm).
  unfold subscription_topic. enough (fromString (Client.uninit E) (default [] (relativeRefNoFragment u)) ∅ = Ok t) as -> by done.
  unfold relativeRefNoFragment, fromString. rewrite Hpath, Hq. destruct t as [sv ps]. cbn [_service _params] in *.
  pose proof (service_slash _ Hv) as Hs. assert (Hne : is_nil sv = false) by (rewrite <- Hpath, Hp; done). rewrite Hne, Hs. cbn [andb orb negb opt_str].
  destruct kvs as [|kv kvs].
  - simpl in Hm. subst ps. cbn [join fmap list_fmap is_nil orb negb opt_str default app]. rewrite app_nil_r. by apply make_plain.
  - pose proof (make_with_query (Client.uninit E) sv (kv :: kvs) ps Hv Hr ltac:(done) Hnd (eq_sym Hm)) as H.
    pose proof (length_join_items _ Hr) as Hl. pose proof (join_items_chars (kv :: kvs)) as Hc. revert H Hl Hc.
    generalize (join (str "&") (query_item <$> kv :: kvs)). intros q H Hl Hc. destruct q as [|d q]; [simpl in Hl; lia|].
    apply Forall_cons in Hc as [Hd _]. assert (Hq' : starts_with_char (d :: q) "?" = false).
    { apply bool_decide_eq_false. intros [= ->]. done. }
    rewrite Hq'. cbn [is_nil orb negb opt_str]. exact H.
Qed.


Definition dev_subscription : client_command := example_command Subscribe mds_dev [] (Some 7%nat).

