(* ===== verification/BasicSetting.v ===== *)
(** * BasicSetting: [disruptor/BasicSetting.hpp]

    A value shared between one real-time thread, which must never wait, and any
    number of other threads.  Its two stores are cut at every access to shared
    memory; the assignment of a slot begins and ends, and what is read in
    between would be torn. *)

From S2P Require Import Prelude.
Local Open Scope Z_scope.

(** ** The real-time thread writes *)

Module RealtimeMutable.

Definition INDEX_BIT : Z := 1.
Definition BUSY_BIT : Z := 2.
Definition NEWDATA_BIT : Z := 4.

Section store.
Context {T : Type}.

(** The real-time thread: it has a reference to its copy, is in the assignment
    of a slot, or has done it. *)
Inductive rt_pc : Type :=
  | RtIdle
  | RtHolds
  | RtWriting (idx : Z) (v : T)
  | RtWritten (idx : Z).

(** Another thread.  [snapshot] is ghost: the value last published when the
    thread got its slot. *)
Inductive pc : Type :=
  | Idle
  | Locked
  | Trying (current : Z)
  | Reading (slot : Z) (snapshot : T).

(** [published] is ghost: the values whose publication has ended, the last one
    first. *)
Record conc : Type := mk {
  control : Z;
  data : Z → T;
  realtimeCopy : T;
  nonRealtimeLock : option nat;
  rt : rt_pc;
  threads : list pc;
  published : list T
}.

Definition start (obj : T) (n : nat) : conc := mk 0 (λ _, obj) obj None RtIdle (replicate n Idle) [obj].

Definition set_rt (p : rt_pc) (c : conc) : conc :=
  mk (control c) (data c) (realtimeCopy c) (nonRealtimeLock c) p (threads c) (published c).
Definition set_control (w : Z) (c : conc) : conc :=
  mk w (data c) (realtimeCopy c) (nonRealtimeLock c) (rt c) (threads c) (published c).
Definition set_copy (v : T) (c : conc) : conc :=
  mk (control c) (data c) v (nonRealtimeLock c) (rt c) (threads c) (published c).
Definition set_data (d : Z → T) (c : conc) : conc :=
  mk (control c) d (realtimeCopy c) (nonRealtimeLock c) (rt c) (threads c) (published c).
Definition set_lock (l : option nat) (c : conc) : conc :=
  mk (control c) (data c) (realtimeCopy c) l (rt c) (threads c) (published c).
Definition set_pc (i : nat) (p : pc) (c : conc) : conc :=
  mk (control c) (data c) (realtimeCopy c) (nonRealtimeLock c) (rt c) (<[i := p]> (threads c)) (published c).
Definition publish (v : T) (c : conc) : conc :=
  mk (control c) (data c) (realtimeCopy c) (nonRealtimeLock c) (rt c) (threads c) (v :: published c).

(** [control.fetch_or(BUSY_BIT) & INDEX_BIT], and what it leaves. *)
Definition acquireIndex (c : conc) : Z * conc := (Z.land (control c) INDEX_BIT, set_control (Z.lor (control c) BUSY_BIT) c).
Definition releaseIndex (idx : Z) (c : conc) : conc := set_control (Z.lor (Z.land idx INDEX_BIT) NEWDATA_BIT) c.

(** The loop of [nonRealtimeAcquire]: what it expects, and what it writes. *)
Definition expected (current : Z) : Z := Z.land current (Z.lnot BUSY_BIT).
Definition newValue (current : Z) : Z := Z.land (Z.lxor (expected current) INDEX_BIT) INDEX_BIT.
Definition nonRealtimeIndex (current : Z) : Z := Z.lxor (Z.land current INDEX_BIT) 1.

Definition last_published (c : conc) : option T := head (published c).

(** The steps of the real-time thread: [realtimeAcquire], the writes of its
    owner, [realtimeRelease] and [realtimeReplace]. *)
Inductive rt_step : conc → conc → Prop :=
  | rt_acquire c : rt c = RtIdle → rt_step c (set_rt RtHolds c)
  | rt_assign c v : rt c = RtHolds → rt_step c (set_copy v c)
  | rt_release c idx c' :
      rt c = RtHolds → acquireIndex c = (idx, c') → rt_step c (set_rt (RtWriting idx (realtimeCopy c)) c')
  | rt_replace c v idx c' :
      rt c = RtIdle → acquireIndex c = (idx, c') → rt_step c (set_rt (RtWriting idx v) c')
  | rt_write c idx v :
      rt c = RtWriting idx v → rt_step c (set_rt (RtWritten idx) (set_data (<[idx := v]> (data c)) c))
  | rt_end c idx :
      rt c = RtWritten idx → rt_step c (set_rt RtIdle (publish (data c idx) (releaseIndex idx c))).

(** The steps of thread [i]: [nonRealtimeAcquire] and [nonRealtimeRelease].  A weak
    exchange may fail for no reason. *)
Inductive thread_step (i : nat) : conc → conc → Prop :=
  | nrt_lock c :
      threads c !! i = Some Idle → nonRealtimeLock c = None → thread_step i c (set_pc i Locked (set_lock (Some i) c))
  | nrt_newdata c :
      threads c !! i = Some Locked → Z.land (control c) NEWDATA_BIT ≠ 0 →
      thread_step i c (set_pc i (Trying (control c)) c)
  | nrt_olddata c v :
      threads c !! i = Some Locked → Z.land (control c) NEWDATA_BIT = 0 → last_published c = Some v →
      thread_step i c (set_pc i (Reading (nonRealtimeIndex (control c)) v) c)
  | nrt_exchange c current v :
      threads c !! i = Some (Trying current) → control c = expected current → last_published c = Some v →
      thread_step i c (set_pc i (Reading (nonRealtimeIndex (newValue current)) v) (set_control (newValue current) c))
  | nrt_fail c current :
      threads c !! i = Some (Trying current) → thread_step i c (set_pc i (Trying (control c)) c)
  | nrt_release c s v :
      threads c !! i = Some (Reading s v) → thread_step i c (set_pc i Idle (set_lock None c)).

Definition step (c c' : conc) : Prop := rt_step c c' ∨ ∃ i, thread_step i c c'.

Inductive reachable (obj : T) (n : nat) : conc → Prop :=
  | reach_start : reachable obj n (start obj n)
  | reach_step c c' : reachable obj n c → step c c' → reachable obj n c'.

(** *** The invariant *)

Definition bit (b : bool) (w : Z) : Z := if b then w else 0.
Definition word (index busy newdata : bool) : Z := bit index INDEX_BIT + bit busy BUSY_BIT + bit newdata NEWDATA_BIT.
Definition slot (index : bool) : Z := bit index 1.

Definition rt_busy (p : rt_pc) : option Z :=
  match p with RtWriting idx _ | RtWritten idx => Some idx | _ => None end.

(** A thread in the critical section of the lock, and what it relies on. *)
Definition pc_ok (i : nat) (index newdata : bool) (c : conc) (p : pc) : Prop :=
  match p with
  | Idle => True
  | Locked => nonRealtimeLock c = Some i
  | Trying _ => nonRealtimeLock c = Some i ∧ newdata = true
  | Reading s v => nonRealtimeLock c = Some i ∧ s = slot (negb index) ∧ data c s = v
  end.

Definition invariant (c : conc) : Prop :=
  ∃ index busy newdata,
    control c = word index busy newdata
    ∧ rt_busy (rt c) = (if busy then Some (slot index) else None)
    ∧ (∀ i p, threads c !! i = Some p → pc_ok i index newdata c p)
    ∧ (newdata = false → last_published c = Some (data c (slot (negb index))))
    ∧ (newdata = true → busy = false → last_published c = Some (data c (slot index))).

(** The bits of the control word. *)
Lemma word_index i b n : Z.land (word i b n) INDEX_BIT = slot i.
Proof. by destruct i, b, n. Qed.

Lemma word_busy i b n : Z.lor (word i b n) BUSY_BIT = word i true n.
Proof. by destruct i, b, n. Qed.

Lemma word_newdata i b n : Z.land (word i b n) NEWDATA_BIT = (if n then NEWDATA_BIT else 0).
Proof. by destruct i, b, n. Qed.

Lemma word_release i : Z.lor (Z.land (slot i) INDEX_BIT) NEWDATA_BIT = word i false true.
Proof. by destruct i. Qed.

Lemma other_slot i b n : nonRealtimeIndex (word i b n) = slot (negb i).
Proof. by destruct i, b, n. Qed.

Lemma word_expected i b n current : word i b n = expected current → b = false ∧ newValue current = word (negb i) false false.
Proof.
  intros H. unfold newValue. rewrite <-H. split; [|by destruct i, b, n].
  assert (H0 : Z.land (expected current) BUSY_BIT = 0).
  { unfold expected. rewrite <-Z.land_assoc. apply Z.land_0_r. }
  rewrite <-H in H0. by destruct i, b, n.
Qed.

Lemma slots_differ i : slot (negb i) ≠ slot i.
Proof. by destruct i. Qed.

(** Who is in the critical section holds the lock. *)
Lemma pc_lock i index newdata c p : pc_ok i index newdata c p → p = Idle ∨ nonRealtimeLock c = Some i.
Proof. destruct p; simpl; naive_solver. Qed.

Lemma start_invariant obj n : invariant (start obj n).
Proof.
  exists false, false, false. split_and!; try done. intros i p Hp. simpl in Hp.
  apply lookup_replicate in Hp as [-> _]. done.
Qed.

Lemma rt_step_invariant c c' : invariant c → rt_step c c' → invariant c'.
Proof.
  intros (i & b & n & Hc & Hb & Hp & Hn & Hd) Hs. destruct Hs as [c Hr|c v Hr|c idx c' Hr Ha|c v idx c' Hr Ha|c idx v Hr|c idx Hr];
    rewrite Hr in Hb; simpl in Hb.
  - by exists i, b, n.
  - exists i, b, n. split_and!; try done. simpl. by rewrite Hr.
  - destruct b; [done|]. unfold acquireIndex in Ha. rewrite Hc, word_index, word_busy in Ha. simplify_eq.
    exists i, true, n. by split_and!.
  - destruct b; [done|]. unfold acquireIndex in Ha. rewrite Hc, word_index, word_busy in Ha. simplify_eq.
    exists i, true, n. by split_and!.
  - destruct b; [|done]. simplify_eq. exists i, true, n. split_and!; try done.
    + intros j p Hj. specialize (Hp j p Hj). destruct p as [| |cur|s v']; simpl in *; try done.
      destruct Hp as (Hl & -> & Hv). split_and!; [done..|]. rewrite fn_lookup_insert_ne; [done|]. intros E. by apply (slots_differ i).
    + intros ->. simpl. rewrite fn_lookup_insert_ne; [by apply Hn|]. intros E. by apply (slots_differ i).
  - destruct b; [|done]. simplify_eq. exists i, false, true. unfold releaseIndex. split_and!; simpl; try done.
    + apply word_release.
    + intros j p Hj. specialize (Hp j p Hj). destruct p; simpl in *; naive_solver.
Qed.

(** A step of thread [i] that leaves the word, the slots and the lock. *)
Lemma set_pc_invariant j index busy newdata p c :
  control c = word index busy newdata →
  rt_busy (rt c) = (if busy then Some (slot index) else None) →
  (∀ i p, threads c !! i = Some p → i ≠ j → pc_ok i index newdata c p) → pc_ok j index newdata c p →
  (newdata = false → last_published c = Some (data c (slot (negb index)))) →
  (newdata = true → busy = false → last_published c = Some (data c (slot index))) →
  invariant (set_pc j p c).
Proof.
  intros Hc Hb Hp Hj Hn Hd. exists index, busy, newdata. split_and!; try done.
  intros i q Hi. simpl in Hi. apply list_lookup_insert_Some in Hi as [(<- & <- & _)|[Hne Hi]].
  - by destruct p.
  - specialize (Hp i q Hi ltac:(done)). by destruct q.
Qed.

Lemma thread_step_invariant j c c' : invariant c → thread_step j c c' → invariant c'.
Proof.
  intros (i & b & n & Hc & Hb & Hp & Hn & Hd) Hs.
  destruct Hs as [c Hj Hl|c Hj Hw|c v Hj Hw Hv|c cur v Hj Hw Hv|c cur Hj|c s v Hj]; specialize (Hp) as Hp0; specialize (Hp _ _ Hj) as Hpj; simpl in Hpj.
  - apply (set_pc_invariant j i b n); try done.
    intros k p Hk Hne. specialize (Hp0 k p Hk). destruct (pc_lock _ _ _ _ _ Hp0) as [->|H']; [done|]. congruence.
  - apply (set_pc_invariant j i b n); try done; [by intros; apply Hp0|]. split; [done|].
    rewrite Hc, word_newdata in Hw. by destruct n.
  - rewrite Hc, word_newdata in Hw. destruct n; [done|]. apply (set_pc_invariant j i b false); try done; [by intros; apply Hp0|].
    split; [done|]. rewrite Hc, other_slot. split; [done|]. specialize (Hn eq_refl). congruence.
  - destruct Hpj as [Hl ->]. rewrite Hc in Hw. apply word_expected in Hw as [-> Hw]. rewrite Hw. specialize (Hd eq_refl eq_refl).
    apply (set_pc_invariant j (negb i) false false); try done; simpl.
    + intros k p Hk Hne. specialize (Hp0 k p Hk). destruct (pc_lock _ _ _ _ _ Hp0) as [->|H']; [done|]. congruence.
    + rewrite other_slot, negb_involutive. split_and!; [done..|]. congruence.
    + intros _. by rewrite negb_involutive.
  - apply (set_pc_invariant j i b n); try done. by intros; apply Hp0.
  - apply (set_pc_invariant j i b n); try done.
    intros k p Hk Hne. specialize (Hp0 k p Hk). destruct (pc_lock _ _ _ _ _ Hp0) as [->|H']; [done|]. destruct Hpj as [Hl _]. simpl in *. congruence.
Qed.

Lemma reachable_invariant obj n c : reachable obj n c → invariant c.
Proof.
  induction 1 as [|c c' _ IH [Hs|[i Hs]]]; [apply start_invariant|by eapply rt_step_invariant|by eapply thread_step_invariant].
Qed.

(** *** What the store promises *)

(** Steps the real-time thread has left in its call. *)
Definition rt_left (p : rt_pc) : nat :=
  match p with RtIdle => 0 | RtHolds => 3 | RtWriting _ _ => 2 | RtWritten _ => 1 end.

(** The real-time thread can always take a step that brings it nearer to the end
    of its call. *)
Lemma rt_enabled c : rt c ≠ RtIdle → ∃ c', rt_step c c' ∧ (rt_left (rt c') < rt_left (rt c))%nat.
Proof.
  intros Hr. destruct (rt c) as [| |idx v|idx] eqn:E; [done|..].
  - destruct (acquireIndex c) as [idx c'] eqn:Ha. eexists. split; [by eapply rt_release|]. simpl. lia.
  - eexists. split; [by eapply rt_write|]. simpl. lia.
  - eexists. split; [by eapply rt_end|]. simpl. lia.
Qed.

Lemma thread_step_rt i c c' : thread_step i c c' → rt c' = rt c.
Proof. by destruct 1. Qed.
End store.

(** A thread that has acquired the value is the only one but the real-time
    thread, which is not in the assignment of the slot it reads; the slot holds
    the value that was the last one published when the thread acquired it, and
    stays so until it releases it. *)
Theorem readers_see_published {T : Type} (obj : T) n c i s v :
  reachable obj n c → threads c !! i = Some (Reading s v) →
  data c s = v
  ∧ (∀ idx w, rt c = RtWriting idx w → idx ≠ s)
  ∧ (∀ j s' v', threads c !! j = Some (Reading s' v') → j = i)
  ∧ ∀ c', step c c' → data c' s = v.
Proof.
  intros Hr Hi. pose proof (reachable_invariant _ _ _ Hr) as (ix & b & nd & Hc & Hb & Hp & _ & _).
  destruct (Hp _ _ Hi) as (Hl & -> & Hv). split; [done|].
  assert (Hw : ∀ idx w, rt c = RtWriting idx w → idx ≠ slot (negb ix)).
  { intros idx w E. rewrite E in Hb. simpl in Hb. destruct b; [|done]. simplify_eq. intros E'. by apply (slots_differ ix). }
  split; [exact Hw|]. split.
  - intros j s' v' Hj. destruct (Hp _ _ Hj) as (Hl' & _). congruence.
  - intros c' [Hs|[j Hs]]; [|by destruct Hs].
    destruct Hs as [c Hc'|c w Hc'|c idx c' Hc' Ha|c w idx c' Hc' Ha|c idx w Hc'|c idx Hc']; try done;
      try (unfold acquireIndex in Ha; simplify_eq; done).
    simpl. rewrite fn_lookup_insert_ne; [done|]. by eapply Hw.
Qed.

(** The real-time thread never waits: whatever the others are doing, it can
    take the next step of its call, none of theirs takes it back, and the call
    ends after three steps at most. *)
Theorem realtime_never_waits {T : Type} (c : @conc T) :
  (rt_left (rt c) ≤ 3)%nat
  ∧ (rt c ≠ RtIdle → ∃ c', rt_step c c' ∧ (rt_left (rt c') < rt_left (rt c))%nat)
  ∧ ∀ i c', thread_step i c c' → rt c' = rt c.
Proof.
  split; [destruct (rt c); simpl; lia|]. split; [apply rt_enabled|]. intros i c'. apply thread_step_rt.
Qed.

(** The real-time thread has published 7 and is writing 9 while a thread reads. *)
Lemma busy_reader_reachable :
  ∃ c, reachable 5 1 c ∧ threads c = [Reading 0 7] ∧ rt c = RtWriting 1 9.
Proof.
  pose proof (reach_start 5 1) as H.
  eapply reach_step in H; [|left; by apply rt_acquire].
  eapply reach_step in H; [|left; by apply (rt_assign _ 7)].
  eapply reach_step in H; [|left; by eapply rt_release].
  eapply reach_step in H; [|left; by eapply rt_write].
  eapply reach_step in H; [|left; by eapply rt_end].
  eapply reach_step in H; [|right; exists 0%nat; by apply nrt_lock].
  eapply reach_step in H; [|right; exists 0%nat; apply nrt_newdata; [done|vm_compute; discriminate]].
  eapply reach_step in H; [|right; exists 0%nat; by eapply nrt_fail].
  eapply reach_step in H; [|right; exists 0%nat; by eapply (nrt_exchange _ _ _ 7)].
  eapply reach_step in H; [|left; by apply (rt_replace _ 9)].
  eexists. split; [exact H|]. split; reflexivity.
Qed.

Lemma readers_see_published_witness : ∃ c, reachable 5 1 c ∧ rt c = RtWriting 1 9 ∧ data c 0 = 7.
Proof.
  destruct busy_reader_reachable as (c & H & Ht & Hr). exists c. split; [exact H|]. split; [exact Hr|].
  destruct (readers_see_published 5 1 c 0 0 7 H) as [Hd _]; [by rewrite Ht|exact Hd].
Defined.

(** *** What goes wrong *)

(** The destructor waits while [(control & BUSY_BIT) == 1], which is never so. *)
Lemma destructor_never_waits (w : Z) : (Z.land w BUSY_BIT =? 1) = false.
Proof.
  apply Z.eqb_neq. intros H. assert (Hb : Z.testbit (Z.land w BUSY_BIT) 0 = false).
  { rewrite Z.land_spec. unfold BUSY_BIT. simpl. by rewrite andb_false_r. }
  by rewrite H in Hb.
Qed.

(** [realtimeReplace] does not change the copy of the real-time thread: what it
    replaced is undone by its next release. *)
Lemma replacement_undone :
  ∃ c, reachable 5 0 c ∧ rt c = RtIdle ∧ published c = [5; 9; 5] ∧ realtimeCopy c = 5.
Proof.
  pose proof (reach_start 5 0) as H.
  eapply reach_step in H; [|left; by apply (rt_replace _ 9)].
  eapply reach_step in H; [|left; by eapply rt_write].
  eapply reach_step in H; [|left; by eapply rt_end].
  eapply reach_step in H; [|left; by apply rt_acquire].
  eapply reach_step in H; [|left; by eapply rt_release].
  eapply reach_step in H; [|left; by eapply rt_write].
  eapply reach_step in H; [|left; by eapply rt_end].
  eexists. split; [exact H|]. by split_and!.
Qed.
End RealtimeMutable.

(** ** The other threads write *)

Module NonRealtimeMutable.

Section store.
Context {T : Type}.

(** The real-time thread holds the object at [_rtStorageCopyPtr]; [snapshot] is
    ghost: the value last committed when it took it. *)
Inductive rt_pc : Type := RtIdle | RtHolds (ptr : nat) (snapshot : T).

(** Another thread: it has the lock, has the copy and may write it, is in the loop
    of [nonRealtimeRelease], has exchanged the pointer, has moved the copy. *)
Inductive pc : Type := Idle | Locked | Editing | Swapping | Swapped | Moved.

(** The objects live in [heap]; [committed] is ghost: the values exchanged in, the
    last one first. *)
Record conc : Type := mk {
  heap : gmap nat T;
  storage : nat;                  (* _storage *)
  storagePtr : option nat;        (* _storagePtr; None is nullptr *)
  rtStorageCopy : option nat;     (* _rtStorageCopy *)
  nonRealtimeLock : option nat;
  rt : rt_pc;
  threads : list pc;
  committed : list T
}.

Definition start (obj : T) (n : nat) : conc :=
  mk {[0%nat := obj]} 0 (Some 0%nat) None None RtIdle (replicate n Idle) [obj].

Definition set_heap (h : gmap nat T) (c : conc) : conc :=
  mk h (storage c) (storagePtr c) (rtStorageCopy c) (nonRealtimeLock c) (rt c) (threads c) (committed c).
Definition set_storage (a : nat) (c : conc) : conc :=
  mk (heap c) a (storagePtr c) (rtStorageCopy c) (nonRealtimeLock c) (rt c) (threads c) (committed c).
Definition set_storagePtr (p : option nat) (c : conc) : conc :=
  mk (heap c) (storage c) p (rtStorageCopy c) (nonRealtimeLock c) (rt c) (threads c) (committed c).
Definition set_copy (p : option nat) (c : conc) : conc :=
  mk (heap c) (storage c) (storagePtr c) p (nonRealtimeLock c) (rt c) (threads c) (committed c).
Definition set_lock (l : option nat) (c : conc) : conc :=
  mk (heap c) (storage c) (storagePtr c) (rtStorageCopy c) l (rt c) (threads c) (committed c).
Definition set_rt (p : rt_pc) (c : conc) : conc :=
  mk (heap c) (storage c) (storagePtr c) (rtStorageCopy c) (nonRealtimeLock c) p (threads c) (committed c).
Definition set_pc (i : nat) (p : pc) (c : conc) : conc :=
  mk (heap c) (storage c) (storagePtr c) (rtStorageCopy c) (nonRealtimeLock c) (rt c) (<[i := p]> (threads c)) (committed c).
Definition commit (v : T) (c : conc) : conc :=
  mk (heap c) (storage c) (storagePtr c) (rtStorageCopy c) (nonRealtimeLock c) (rt c) (threads c) (v :: committed c).

(** [_rtStorageCopy.reset(new T(v))]: the old object is freed. *)
Definition reset_copy (a : nat) (v : T) (c : conc) : conc :=
  set_copy (Some a) (set_heap (<[a := v]> (match rtStorageCopy c with Some b => delete b (heap c) | None => heap c end)) c).

(** [_storage = std::move(_rtStorageCopy)] *)
Definition move_copy (c : conc) : conc :=
  match rtStorageCopy c with
  | Some a => set_copy None (set_storage a (set_heap (delete (storage c) (heap c)) c))
  | None => c
  end.

(** [realtimeAcquire] and [realtimeRelease] *)
Inductive rt_step : conc → conc → Prop :=
  | rt_acquire c p v :
      rt c = RtIdle → storagePtr c = Some p → head (committed c) = Some v →
      rt_step c (set_rt (RtHolds p v) (set_storagePtr None c))
  | rt_release c p v : rt c = RtHolds p v → rt_step c (set_rt RtIdle (set_storagePtr (Some p) c)).

(** [nonRealtimeAcquire], the writes of its owner, [nonRealtimeReplace] and
    [nonRealtimeRelease]; an object is made where there is none. *)
Inductive thread_step (i : nat) : conc → conc → Prop :=
  | nrt_lock c :
      threads c !! i = Some Idle → nonRealtimeLock c = None → thread_step i c (set_pc i Locked (set_lock (Some i) c))
  | nrt_copy c a v :
      threads c !! i = Some Locked → heap c !! a = None → heap c !! storage c = Some v →
      thread_step i c (set_pc i Editing (reset_copy a v c))
  | nrt_assign c a v :
      threads c !! i = Some Editing → rtStorageCopy c = Some a → thread_step i c (set_heap (<[a := v]> (heap c)) c)
  | nrt_release c : threads c !! i = Some Editing → thread_step i c (set_pc i Swapping c)
  | nrt_replace c a v :
      threads c !! i = Some Locked → heap c !! a = None → thread_step i c (set_pc i Swapping (reset_copy a v c))
  | nrt_exchange c a v :
      threads c !! i = Some Swapping → storagePtr c = Some (storage c) → rtStorageCopy c = Some a → heap c !! a = Some v →
      thread_step i c (set_pc i Swapped (commit v (set_storagePtr (Some a) c)))
  | nrt_fail c : threads c !! i = Some Swapping → thread_step i c c
  | nrt_move c : threads c !! i = Some Swapped → thread_step i c (set_pc i Moved (move_copy c))
  | nrt_unlock c : threads c !! i = Some Moved → thread_step i c (set_pc i Idle (set_lock None c)).

Definition step (c c' : conc) : Prop := rt_step c c' ∨ ∃ i, thread_step i c c'.

Inductive reachable (obj : T) (n : nat) : conc → Prop :=
  | reach_start : reachable obj n (start obj n)
  | reach_step c c' : reachable obj n c → step c c' → reachable obj n c'.

(** *** The invariant *)

(** The object the real-time thread has, or would take. *)
Definition current (c : conc) : option nat :=
  match rt c with RtIdle => storagePtr c | RtHolds p _ => Some p end.

Definition copy_pc (p : pc) : bool := match p with Editing | Swapping | Swapped => true | _ => false end.

(** What a thread in the critical section relies on. *)
Definition pc_ok (i : nat) (c : conc) (p : pc) : Prop :=
  match p with
  | Idle => True
  | Locked | Moved => nonRealtimeLock c = Some i ∧ rtStorageCopy c = None ∧ current c = Some (storage c)
  | Editing | Swapping =>
      nonRealtimeLock c = Some i ∧ current c = Some (storage c)
      ∧ ∃ a, rtStorageCopy c = Some a ∧ a ≠ storage c ∧ is_Some (heap c !! a)
  | Swapped =>
      nonRealtimeLock c = Some i ∧ ∃ a, rtStorageCopy c = Some a ∧ a ≠ storage c ∧ current c = Some a
  end.

(** [h] is the object that counts: what the real-time thread has, with the value
    committed last unless it took it before. *)
Record invariant (c : conc) : Prop := {
  in_storage : is_Some (heap c !! storage c);
  in_ptr : storagePtr c = None ↔ rt c ≠ RtIdle;
  in_held p v : rt c = RtHolds p v → heap c !! p = Some v;
  in_current : ∃ p v, current c = Some p ∧ heap c !! p = Some v ∧ head (committed c) = Some v;
  in_threads i p : threads c !! i = Some p → pc_ok i c p;
  in_free : nonRealtimeLock c = None → rtStorageCopy c = None ∧ current c = Some (storage c)
}.

Lemma nrt_start_invariant obj n : invariant (start obj n).
Proof.
  split.
  - by exists obj.
  - done.
  - done.
  - by exists 0%nat, obj.
  - intros i p [-> _]%lookup_replicate. done.
  - done.
Qed.

Lemma nrt_rt_step_invariant c c' : invariant c → rt_step c c' → invariant c'.
Proof.
  intros [Hst Hptr Hh (q & w & Hcu & Hq & Hw) Ht Hf] Hs.
  assert (Hcur : current c' = current c).
  { unfold current. destruct Hs as [c p v Hr Hp Hv|c p v Hr]; simpl; rewrite Hr; congruence. }
  assert (Hex : ∃ p v, current c' = Some p ∧ heap c' !! p = Some v ∧ head (committed c') = Some v).
  { exists q, w. rewrite Hcur. by destruct Hs. }
  assert (Hth : ∀ i p, threads c' !! i = Some p → pc_ok i c' p).
  { intros i p Hi. specialize (Ht i p). destruct Hs; specialize (Ht Hi); unfold pc_ok in *; by rewrite Hcur. }
  assert (Hfr : nonRealtimeLock c' = None → rtStorageCopy c' = None ∧ current c' = Some (storage c')).
  { rewrite Hcur. by destruct Hs. }
  unfold current in Hcu. destruct Hs as [c p v Hr Hp Hv|c p v Hr]; rewrite Hr in Hcu; split; try done; simpl in *.
  intros p' v' [= <- <-]. congruence.
Qed.

(** Who is not idle holds the lock. *)
Lemma nrt_pc_lock i c p : pc_ok i c p → p = Idle ∨ nonRealtimeLock c = Some i.
Proof. destruct p; simpl; naive_solver. Qed.

(** The step of the thread in the critical section: the others are idle. *)
Lemma owner_invariant j p c c' :
  (∀ i q, threads c !! i = Some q → i ≠ j → q = Idle) → threads c' = <[j := p]> (threads c) →
  is_Some (heap c' !! storage c') → (storagePtr c' = None ↔ rt c' ≠ RtIdle) →
  (∀ p v, rt c' = RtHolds p v → heap c' !! p = Some v) →
  (∃ p v, current c' = Some p ∧ heap c' !! p = Some v ∧ head (committed c') = Some v) →
  pc_ok j c' p →
  (nonRealtimeLock c' = None → rtStorageCopy c' = None ∧ current c' = Some (storage c')) →
  invariant c'.
Proof.
  intros Ho Ht H1 H2 H3 H4 H5 H6. split; try done. intros i q Hi. rewrite Ht in Hi.
  apply list_lookup_insert_Some in Hi as [(<- & <- & _)|[Hne Hi]]; [done|]. by rewrite (Ho i q Hi) by done.
Qed.

Lemma others_idle j c p :
  invariant c → threads c !! j = Some p → p ≠ Idle → ∀ i q, threads c !! i = Some q → i ≠ j → q = Idle.
Proof.
  intros Hi Hj Hp i q Hq Hne. destruct (nrt_pc_lock j c p (in_threads _ Hi _ _ Hj)) as [?|Hl]; [done|].
  destruct (nrt_pc_lock i c q (in_threads _ Hi _ _ Hq)) as [?|Hl']; [done|]. congruence.
Qed.

(** A new copy: the storage and what the real-time thread holds are other
    objects. *)
Lemma reset_copy_spec c a v :
  invariant c → rtStorageCopy c = None → heap c !! a = None → current c = Some (storage c) →
  let c' := reset_copy a v c in
  a ≠ storage c ∧ heap c' = <[a := v]> (heap c) ∧ heap c' !! storage c = heap c !! storage c
  ∧ (∀ p w, rt c = RtHolds p w → heap c' !! p = Some w).
Proof.
  intros Hi Hco Ha Hcu c'. assert (Hne : a ≠ storage c).
  { intros ->. destruct (in_storage _ Hi) as [w Hw]. congruence. }
  assert (Hh : heap c' = <[a := v]> (heap c)) by (unfold c', reset_copy; by rewrite Hco).
  rewrite Hh. split_and!; [done|done|by rewrite lookup_insert_ne|].
  intros p w Hr. pose proof (in_held _ Hi p w Hr). rewrite lookup_insert_ne; [done|]. congruence.
Qed.

(** What a step leaves alone. *)
Ltac same Hi :=
  first [done | apply (in_storage _ Hi) | apply (in_ptr _ Hi) | apply (in_held _ Hi) | apply (in_current _ Hi)].

Lemma nrt_thread_step_invariant j c c' : invariant c → thread_step j c c' → invariant c'.
Proof.
  intros Hi Hs. pose proof (in_current _ Hi) as (q & w & Hcu & Hq & Hw).
  destruct Hs as [c Hj Hl|c a v Hj Ha Hv|c a v Hj Ha|c Hj|c a v Hj Ha|c a v Hj Hp Ha Hv|c Hj|c Hj|c Hj];
    try (pose proof (others_idle j _ _ Hi Hj ltac:(done)) as Ho); pose proof (in_threads _ Hi _ _ Hj) as Hpc; simpl in Hpc.
  - destruct (in_free _ Hi Hl) as [Hco Hcs]. apply (owner_invariant j Locked c); simpl; try same Hi.
    intros i p Hp Hne. destruct (nrt_pc_lock i c p (in_threads _ Hi _ _ Hp)) as [?|Hl']; [done|]. congruence.
  - destruct Hpc as (Hl & Hco & Hcs). destruct (reset_copy_spec c a v Hi Hco Ha Hcs) as (Hne & Hh & Hst & Hhe).
    apply (owner_invariant j Editing c); try same Hi.
    + change (is_Some (heap (reset_copy a v c) !! storage c)). rewrite Hst. by exists v.
    + exists q, w. split; [done|]. split; [|done]. change (heap (reset_copy a v c) !! q = Some w).
      assert (q = storage c) as -> by congruence. by rewrite Hst.
    + simpl. split_and!; [done..|]. exists a. split_and!; [done..|]. change (is_Some (heap (reset_copy a v c) !! a)).
      rewrite Hh, lookup_insert_eq. by eexists.
    + simpl. congruence.
  - destruct Hpc as (Hl & Hcs & a' & Hco & Hne & Hsome). assert (a' = a) as -> by congruence.
    assert (Hset : invariant (set_pc j Editing (set_heap (<[a:=v]> (heap c)) c))).
    { apply (owner_invariant j Editing c); simpl; try same Hi.
      - rewrite lookup_insert_ne by done. apply Hi.
      - intros p u Hr. rewrite lookup_insert_ne; [by apply Hi|]. unfold current in Hcs. rewrite Hr in Hcs. congruence.
      - exists q, w. split; [done|]. rewrite lookup_insert_ne by congruence. done.
      - split_and!; [done..|]. exists a. rewrite lookup_insert_eq. by split_and!; [..|eexists].
      - congruence. }
    unfold set_pc in Hset. simpl in Hset. rewrite list_insert_id in Hset by done. exact Hset.
  - apply (owner_invariant j Swapping c); try same Hi. destruct Hpc as [Hl _]. simpl. congruence.
  - destruct Hpc as (Hl & Hco & Hcs). destruct (reset_copy_spec c a v Hi Hco Ha Hcs) as (Hne & Hh & Hst & Hhe).
    apply (owner_invariant j Swapping c); try same Hi.
    + change (is_Some (heap (reset_copy a v c) !! storage c)). rewrite Hst. apply Hi.
    + exists q, w. split; [done|]. split; [|done]. change (heap (reset_copy a v c) !! q = Some w).
      assert (q = storage c) as -> by congruence. by rewrite Hst.
    + simpl. split_and!; [done..|]. exists a. split_and!; [done..|]. change (is_Some (heap (reset_copy a v c) !! a)).
      rewrite Hh, lookup_insert_eq. by eexists.
    + simpl. congruence.
  - destruct Hpc as (Hl & Hcs & a' & Hco & Hne & Hsome). assert (a' = a) as -> by congruence.
    assert (Hr : rt c = RtIdle).
    { destruct (rt c) eqn:E; [done|]. exfalso. assert (storagePtr c = None) by (apply Hi; by rewrite E). congruence. }
    apply (owner_invariant j Swapped c); simpl; try same Hi.
    + exists a, v. unfold current. simpl. by rewrite Hr.
    + split; [done|]. exists a. unfold current. simpl. by rewrite Hr.
    + congruence.
  - done.
  - destruct Hpc as (Hl & a & Hco & Hne & Hcs). unfold move_copy. rewrite Hco. assert (q = a) as -> by congruence.
    apply (owner_invariant j Moved c); simpl; try same Hi.
    + rewrite lookup_delete_ne by done. by exists w.
    + intros p u Hr. rewrite lookup_delete_ne; [by apply Hi|]. unfold current in Hcs. rewrite Hr in Hcs. congruence.
    + exists a, w. rewrite lookup_delete_ne by done. done.
  - destruct Hpc as (Hl & Hco & Hcs). apply (owner_invariant j Idle c); try same Hi.
Qed.

Lemma nrt_reachable_invariant obj n c : reachable obj n c → invariant c.
Proof.
  induction 1 as [|c c' _ IH [Hs|[i Hs]]]; [apply nrt_start_invariant|by eapply nrt_rt_step_invariant|by eapply nrt_thread_step_invariant].
Qed.
End store.

(** The real-time thread always finds an object, the one committed last; as
    long as it holds it, whatever the other threads do, the object is neither
    freed nor written, and no other value is committed. *)
Theorem held_object_stays {T : Type} (obj : T) n c :
  reachable obj n c →
  (rt c = RtIdle → ∃ p v, storagePtr c = Some p ∧ heap c !! p = Some v ∧ head (committed c) = Some v)
  ∧ ∀ p v, rt c = RtHolds p v →
      heap c !! p = Some v ∧ head (committed c) = Some v
      ∧ ∀ i c', thread_step i c c' → rt c' = RtHolds p v ∧ heap c' !! p = Some v ∧ committed c' = committed c.
Proof.
  intros Hr. pose proof (nrt_reachable_invariant _ _ _ Hr) as Hi. pose proof (in_current _ Hi) as (q & w & Hcu & Hq & Hw).
  unfold current in Hcu. split.
  - intros E. rewrite E in Hcu. by exists q, w.
  - intros p v E. pose proof (in_held _ Hi p v E) as Hp. rewrite E in Hcu. assert (w = v) as -> by congruence.
    split; [done|]. split; [done|]. intros i c' Hs.
    pose proof (nrt_thread_step_invariant i c c' Hi Hs) as Hi'.
    assert (Hrt : rt c' = rt c) by (destruct Hs; try done; unfold move_copy; simpl; by destruct (rtStorageCopy c)).
    rewrite Hrt. split; [done|]. split; [apply (in_held _ Hi'); by rewrite Hrt|].
    assert (Hnull : storagePtr c = None) by (apply (in_ptr _ Hi); by rewrite E).
    destruct Hs; try done; [congruence|]. unfold move_copy. simpl. by destruct (rtStorageCopy c).
Qed.

(** A thread waits to exchange its copy while the real-time thread reads. *)
Lemma waiting_writer_reachable :
  ∃ c, reachable 5 1 c ∧ threads c = [Swapping] ∧ rt c = RtHolds 0 5.
Proof.
  pose proof (reach_start 5 1) as H.
  eapply reach_step in H; [|right; exists 0%nat; by apply nrt_lock].
  eapply reach_step in H; [|right; exists 0%nat; by apply (nrt_copy _ _ 1%nat 5)].
  eapply reach_step in H; [|right; exists 0%nat; by apply (nrt_assign _ _ 1%nat 42)].
  eapply reach_step in H; [|left; by apply (rt_acquire _ 0%nat 5)].
  eapply reach_step in H; [|right; exists 0%nat; by apply nrt_release].
  eapply reach_step in H; [|right; exists 0%nat; by apply nrt_fail].
  eexists. split; [exact H|]. split; reflexivity.
Qed.

Lemma held_object_stays_witness : ∃ c, reachable 5 1 c ∧ threads c = [Swapping] ∧ heap c !! 0%nat = Some 5.
Proof.
  destruct waiting_writer_reachable as (c & H & Ht & Hr). exists c. split; [exact H|]. split; [exact Ht|].
  destruct (held_object_stays 5 1 c H) as [_ Hh]. destruct (Hh 0%nat 5 Hr) as [Hp _]. exact Hp.
Defined.

(** The documentation says that several threads can hold the value at the same
    time; the lock lets one. *)
Lemma one_thread_at_a_time {T : Type} (obj : T) n c i j p q :
  reachable obj n c → threads c !! i = Some p → threads c !! j = Some q → p ≠ Idle → q ≠ Idle → i = j.
Proof.
  intros Hr Hp Hq Hpi Hqi. pose proof (nrt_reachable_invariant _ _ _ Hr) as Hi.
  destruct (decide (i = j)) as [|Hne]; [done|]. exfalso. apply Hpi. by eapply (others_idle j).
Qed.
End NonRealtimeMutable.
