(* ===== verification/Dsl.v ===== *)
(** * Dsl: the builder of the disruptor, [disruptor/Disruptor.hpp],
    [EventHandlerGroup.hpp], [ConsumerRepository.hpp], [EventProcessorInfo.hpp] and
    [WorkerPoolInfo.hpp]

    The graph of consumers, their barriers, and the sequences the producers are
    gated by.  Objects are known by addresses: a consumer by its sequences (file
    Sequence), a handler by a number.  New addresses, those of objects the calls
    make, are arguments of the calls. *)

From S2P Require Import Prelude Sequence.
Local Open Scope Z_scope.

(** [EventProcessorInfo] (with a handler, or custom, without handler and barrier)
    and [WorkerPoolInfo]. *)
Inductive consumer_kind : Type := Handler (h : nat) | Custom | Pool.

#[export] Instance consumer_kind_eq_dec : EqDecision consumer_kind.
Proof. solve_decision. Defined.

Record info : Type := mkinfo {
  i_kind : consumer_kind;
  i_sequences : list addr;             (* sequences() *)
  i_barrier : option (list addr);      (* what its barrier tracks; None is nullptr *)
  i_end : bool;                        (* _isEndOfChain *)
  i_running : bool                     (* WorkerPool::_running *)
}.

(** [ConsumerRepository]: an info is known by its position in [_consumerInfos]. *)
Record repository : Type := mkrepository {
  consumerInfos : list info;
  infoByHandler : gmap nat nat;        (* _eventProcessorInfoByEventHandler *)
  infoBySequence : gmap addr nat       (* _eventProcessorInfoBySequence *)
}.

Definition empty_repository : repository := mkrepository [] ∅ ∅.

(** The three [add]; a key that is there gets the new info. *)
Definition add_handler (s : addr) (h : nat) (barrier : list addr) (r : repository) : repository :=
  let k := length (consumerInfos r) in
  mkrepository (consumerInfos r ++ [mkinfo (Handler h) [s] (Some barrier) true false])
    (<[h := k]> (infoByHandler r)) (<[s := k]> (infoBySequence r)).

Definition add_processor (s : addr) (r : repository) : repository :=
  let k := length (consumerInfos r) in
  mkrepository (consumerInfos r ++ [mkinfo Custom [s] None true false])
    (infoByHandler r) (<[s := k]> (infoBySequence r)).

Definition add_pool (ss : list addr) (barrier : list addr) (r : repository) : repository :=
  let k := length (consumerInfos r) in
  mkrepository (consumerInfos r ++ [mkinfo Pool ss (Some barrier) true false])
    (infoByHandler r) (fold_left (λ m s, <[s := k]> m) ss (infoBySequence r)).

Definition in_chain_end (includeStopped : bool) (isRunning : nat → bool) (k : nat) (i : info) : bool :=
  (includeStopped || isRunning k) && i_end i.

Definition getLastSequenceInChain (includeStopped : bool) (isRunning : nat → bool) (r : repository) : list addr :=
  concat (imap (λ k i, if in_chain_end includeStopped isRunning k i then i_sequences i else []) (consumerInfos r)).

(** [getSequenceFor], of the processor of a handler. *)
Definition getSequenceFor (h : nat) (r : repository) : result addr :=
  match infoByHandler r !! h with
  | None => Throw InvalidArgument
  | Some k => match i_sequences <$> consumerInfos r !! k with Some (s :: _) => Ok s | _ => Throw InvalidArgument end
  end.

Definition getBarrierFor (h : nat) (r : repository) : option (list addr) :=
  k ← infoByHandler r !! h; i ← consumerInfos r !! k; i_barrier i.

Definition mark (i : info) : info := mkinfo (i_kind i) (i_sequences i) (i_barrier i) false (i_running i).

(** [markAsUsedInBarrier] of the info a sequence belongs to. *)
Definition unmark_one (r : repository) (s : addr) : repository :=
  match infoBySequence r !! s with
  | Some k => mkrepository (alter mark k (consumerInfos r)) (infoByHandler r) (infoBySequence r)
  | None => r
  end.

Definition unMarkEventProcessorsAsEndOfChain (barrier : list addr) (r : repository) : repository :=
  fold_left unmark_one barrier r.

(** ** The disruptor *)

Record core : Type := mkcore {
  repo : repository;
  started : bool;
  gating : list addr;        (* the gating sequences of the ring buffer *)
  sequences : store;         (* the values of all sequences *)
  launched : list nat;       (* the infos whose run() was given to the executor *)
  halted : list nat          (* the infos whose processors were told to halt *)
}.

Definition cursor_addr : addr := 0%nat.

Definition new_core : core := mkcore empty_repository false [] (λ _, kInitialCursorValue) [] [].

Definition set_repo (r : repository) (c : core) : core := mkcore r (started c) (gating c) (sequences c) (launched c) (halted c).

(** A group of handlers is the sequences it stands for. *)
Abbreviation group := (list addr).

Definition createEventProcessors (barrierSequences : group) (eventHandlers : list (nat * addr)) (c : core)
    : result group * core :=
  if started c then (Throw LogicError, c)
  else
    let r := fold_left (λ r h, add_handler h.2 h.1 barrierSequences r) eventHandlers (repo c) in
    let processorSequences := eventHandlers.*2 in
    let r' := match processorSequences with [] => r | _ => unMarkEventProcessorsAsEndOfChain barrierSequences r end in
    (Ok processorSequences, set_repo r' c).

(** [made] are the sequences of the new pool, that of its work last. *)
Definition createWorkerPool (barrierSequences : group) (made : list addr) (c : core) : result group * core :=
  (Ok made, set_repo (add_pool made barrierSequences (repo c)) c).

Definition add_processors (processors : list addr) (c : core) : core :=
  set_repo (fold_left (λ r p, add_processor p r) processors (repo c)) c.

Definition handleEventsWith_processors (processors : list addr) (c : core) : result group * core :=
  (Ok processors, add_processors processors c).

(** [createEventProcessors] with factories: what they made. *)
Definition createEventProcessors_factories (made : list addr) (c : core) : result group * core :=
  handleEventsWith_processors made c.

Fixpoint sequences_for (hs : list nat) (r : repository) : result (list addr) :=
  match hs with
  | [] => Ok []
  | h :: hs' => rbind (getSequenceFor h r) (λ s, rbind (sequences_for hs' r) (λ ss, Ok (s :: ss)))
  end.

Definition after (handlers : list nat) (c : core) : result group * core := (sequences_for handlers (repo c), c).

Definition after_processors (processors : list addr) (c : core) : result group * core :=
  (Ok processors, add_processors processors c).

(** [EventHandlerGroup::And] *)
Definition And_group (g other : group) (c : core) : result group * core := (Ok (g ++ other), c).
Definition And_processors (g : group) (processors : list addr) (c : core) : result group * core :=
  (Ok (processors ++ g), add_processors processors c).

(** *** Running

    [consumerInfo->start(executor)].  A pool that runs throws, out of a [noexcept]
    function: the process ends, [None]. *)
Definition set_running (run : bool) (i : info) : info :=
  match i_kind i with
  | Pool => mkinfo Pool (i_sequences i) (i_barrier i) (i_end i) run
  | _ => i
  end.

Definition set_info (k : nat) (i : info) (r : repository) : repository :=
  mkrepository (<[k := i]> (consumerInfos r)) (infoByHandler r) (infoBySequence r).

Definition start_info (k : nat) (i : info) (c : core) : option core :=
  match i_kind i with
  | Pool =>
      if i_running i then None
      else
        let st := set_all (i_sequences i) (value (sequences c) cursor_addr) (sequences c) in
        Some (mkcore (set_info k (set_running true i) (repo c)) (started c) (gating c) st (launched c ++ [k]) (halted c))
  | _ => Some (mkcore (repo c) (started c) (gating c) (sequences c) (launched c ++ [k]) (halted c))
  end.

Fixpoint start_infos (k : nat) (l : list info) (c : core) : option core :=
  match l with
  | [] => Some c
  | i :: l' => c' ← start_info k i c; start_infos (S k) l' c'
  end.

Definition start (c : core) : option (result () * core) :=
  let (g, st) := addSequences (gating c) cursor_addr (getLastSequenceInChain true (λ _, false) (repo c)) (sequences c) in
  let c1 := mkcore (repo c) (started c) g st (launched c) (halted c) in
  if started c1 then Some (Throw LogicError, c1)
  else
    c' ← start_infos 0 (consumerInfos (repo c1)) (mkcore (repo c1) true (gating c1) (sequences c1) (launched c1) (halted c1));
    Some (Ok (), c').

(** [consumerInfo->halt()]: the processor is told, or those of the pool, which also
    forgets that it runs.  What a processor does then is its own (file Barrier). *)
Definition halt_info (k : nat) (i : info) (c : core) : core :=
  mkcore (set_info k (set_running false i) (repo c)) (started c) (gating c) (sequences c) (launched c) (halted c ++ [k]).

Fixpoint halt_infos (k : nat) (l : list info) (c : core) : core :=
  match l with
  | [] => c
  | i :: l' => halt_infos (S k) l' (halt_info k i c)
  end.

Definition halt (c : core) : core := halt_infos 0 (consumerInfos (repo c)) c.

(** What [hasBacklog] sees: the values, and which consumers run. *)
Definition hasBacklog (st : store) (isRunning : nat → bool) (r : repository) : bool :=
  let cursor := value st cursor_addr in
  existsb (λ s, value st s <? cursor) (getLastSequenceInChain false isRunning r).

(** One turn of the loop of [shutdown] sees this. *)
Record sight : Type := mksight { s_values : store; s_running : nat → bool; s_now : Z }.

Definition timed_out (timeout : option Z) (timeoutAt now : Z) : bool :=
  match timeout with Some t => (0 <=? t) && (timeoutAt <? now) | None => false end.

(** [timeout]: [None] for the infinite one.  [None]: it is still waiting. *)
Fixpoint shutdown (timeout : option Z) (timeoutAt : Z) (turns : list sight) (c : core) : option (result () * core) :=
  match turns with
  | [] => None
  | s :: turns' =>
      if hasBacklog (s_values s) (s_running s) (repo c) then
        if timed_out timeout timeoutAt (s_now s) then Some (Throw RuntimeError, c)
        else shutdown timeout timeoutAt turns' c
      else Some (Ok (), halt c)
  end.

(** ** The calls of a program that builds a graph *)

Inductive call : Type :=
  | HandleEventsWith (barrier : group) (handlers : list (nat * addr))
  | HandleEventsWithWorkerPool (barrier : group) (made : list addr)
  | HandleEventsWithProcessors (processors : list addr)
  | HandleEventsWithFactories (barrier : group) (made : list addr)
  | After (handlers : list nat)
  | AfterProcessors (processors : list addr)
  | And (g other : group)
  | AndProcessors (g : group) (processors : list addr).

Definition perform (o : call) : core → result group * core :=
  match o with
  | HandleEventsWith b hs => createEventProcessors b hs
  | HandleEventsWithWorkerPool b made => createWorkerPool b made
  | HandleEventsWithProcessors ps => handleEventsWith_processors ps
  | HandleEventsWithFactories b made => createEventProcessors_factories made
  | After hs => after hs
  | AfterProcessors ps => after_processors ps
  | And g other => And_group g other
  | AndProcessors g ps => And_processors g ps
  end.

(** The groups a call uses, the objects it makes, the processors it is given. *)
Definition groups_of (o : call) : list group :=
  match o with
  | HandleEventsWith b _ | HandleEventsWithWorkerPool b _ | HandleEventsWithFactories b _ => [b]
  | And g other => [g; other]
  | AndProcessors g _ => [g]
  | _ => []
  end.

Definition made_by (o : call) : list addr :=
  match o with
  | HandleEventsWith _ hs => hs.*2
  | HandleEventsWithWorkerPool _ made => made
  | _ => []
  end.

Definition given_to (o : call) : list addr :=
  match o with
  | HandleEventsWithProcessors ps | HandleEventsWithFactories _ ps | AfterProcessors ps | AndProcessors _ ps => ps
  | _ => []
  end.

Definition uses (r : repository) (s : addr) : Prop := ∃ i, i ∈ consumerInfos r ∧ s ∈ i_sequences i.

(** New objects are new, a pool has its work sequence at least, and a processor
    of the program's own is not one the builder made. *)
Record sound (o : call) (r : repository) : Prop := {
  so_new s : s ∈ made_by o → ¬ uses r s;
  so_distinct : NoDup (made_by o);
  so_pool b made : o = HandleEventsWithWorkerPool b made → made ≠ [];
  so_given s i : s ∈ given_to o → i ∈ consumerInfos r → s ∈ i_sequences i → i_kind i = Custom
}.

(** The states a program reaches, with the groups it has. *)
Inductive built : core → list group → Prop :=
  | built_new : built new_core [[]]
  | built_call c gs o g c' :
      built c gs → sound o (repo c) → (∀ b, b ∈ groups_of o → b ∈ gs) → perform o c = (Ok g, c') →
      built c' (g :: gs).

(** ** The invariant of a repository *)

Definition register (ss : list addr) (k : nat) (m : gmap addr nat) : gmap addr nat :=
  fold_left (λ m s, <[s := k]> m) ss m.

(** A later consumer waits on everything the consumer [k] has. *)
Definition covered (r : repository) (k : nat) : Prop :=
  ∃ i k' i' D, consumerInfos r !! k = Some i ∧ (k < k')%nat ∧ consumerInfos r !! k' = Some i'
    ∧ i_barrier i' = Some D ∧ i_sequences i ⊆ D.

Record well_formed (r : repository) : Prop := {
  wf_index s k : infoBySequence r !! s = Some k → ∃ i, consumerInfos r !! k = Some i ∧ s ∈ i_sequences i;
  wf_known s : uses r s → is_Some (infoBySequence r !! s);
  wf_handlers h k : infoByHandler r !! h = Some k → ∃ i, consumerInfos r !! k = Some i ∧ i_kind i ≠ Pool;
  wf_single i : i ∈ consumerInfos r → i_kind i ≠ Pool → ∃ s, i_sequences i = [s];
  wf_pool k i k' i' s : consumerInfos r !! k = Some i → i_kind i = Pool → consumerInfos r !! k' = Some i' →
    s ∈ i_sequences i → s ∈ i_sequences i' → k = k';
  wf_nonempty i : i ∈ consumerInfos r → i_sequences i ≠ [];
  wf_chain k i : consumerInfos r !! k = Some i → i_end i = false → covered r k
}.

(** A group is of known sequences, and has all of a pool or none. *)
Record group_ok (r : repository) (g : group) : Prop := {
  go_known s : s ∈ g → uses r s;
  go_closed i s s' : i ∈ consumerInfos r → i_kind i = Pool → s ∈ i_sequences i → s ∈ g → s' ∈ i_sequences i → s' ∈ g
}.

Lemma register_spec ss k m s :
  register ss k m !! s = if decide (s ∈ ss) then Some k else m !! s.
Proof.
  unfold register. revert m. induction ss as [|t ss IH]; intros m; cbn [fold_left]; [by rewrite decide_False by set_solver|].
  rewrite IH. destruct (decide (s ∈ ss)); [by rewrite decide_True by set_solver|].
  destruct (decide (s = t)) as [->|Hne].
  - by rewrite lookup_insert_eq, decide_True by set_solver.
  - by rewrite lookup_insert_ne, decide_False by set_solver.
Qed.

Lemma empty_well_formed : well_formed empty_repository.
Proof.
  split; simpl; try (intros; set_solver).
  all: intros; try (destruct H as (?&?&?); set_solver).
Qed.

(** *** Adding a consumer *)

Definition add_info (i : info) (hs : gmap nat nat) (r : repository) : repository :=
  mkrepository (consumerInfos r ++ [i]) hs (register (i_sequences i) (length (consumerInfos r)) (infoBySequence r)).

Record addable (i : info) (hs : gmap nat nat) (r : repository) : Prop := {
  ad_end : i_end i = true;
  ad_nonempty : i_sequences i ≠ [];
  ad_single : i_kind i ≠ Pool → ∃ s, i_sequences i = [s];
  ad_apart s j : s ∈ i_sequences i → j ∈ consumerInfos r → s ∈ i_sequences j → i_kind i ≠ Pool ∧ i_kind j ≠ Pool;
  ad_handlers h k : hs !! h = Some k →
    infoByHandler r !! h = Some k ∨ k = length (consumerInfos r) ∧ i_kind i ≠ Pool
}.

Lemma lookup_snoc {A} (l : list A) (x y : A) k :
  (l ++ [x]) !! k = Some y → l !! k = Some y ∨ k = length l ∧ y = x.
Proof.
  intros H. apply lookup_app_Some in H as [H|[Hk H]]; [by left|right].
  apply list_lookup_singleton_Some in H as [H ->]. split; [lia|done].
Qed.

Lemma lookup_last {A} (l : list A) (x : A) : (l ++ [x]) !! length l = Some x.
Proof. rewrite lookup_app_r, Nat.sub_diag by lia. done. Qed.

Lemma covered_add i hs r k : covered r k → covered (add_info i hs r) k.
Proof.
  intros (j & k' & j' & D & Hj & Hlt & Hj' & HD). exists j, k', j', D.
  simpl. split_and!; [by apply lookup_app_l_Some|done|by apply lookup_app_l_Some|..]; by destruct HD.
Qed.

Lemma uses_add i hs r s : uses (add_info i hs r) s ↔ uses r s ∨ s ∈ i_sequences i.
Proof. unfold uses. simpl. set_solver. Qed.

Lemma add_well_formed i hs r : well_formed r → addable i hs r → well_formed (add_info i hs r).
Proof.
  intros Hwf Ha. split.
  - intros s k. simpl. rewrite register_spec. case_decide as Hs.
    + intros [= <-]. exists i. by rewrite lookup_last.
    + intros (j & Hj & Hin)%(wf_index _ Hwf). exists j. by split; [apply lookup_app_l_Some|].
  - intros s Hs. simpl. rewrite register_spec. case_decide; [done|].
    apply uses_add in Hs as [Hs|Hs]; [by apply (wf_known _ Hwf)|done].
  - intros h k [H|[-> Hi]]%(ad_handlers _ _ _ Ha).
    + apply (wf_handlers _ Hwf) in H as (j & Hj & ?). exists j. by split; [apply lookup_app_l_Some|].
    + exists i. simpl. by rewrite lookup_last.
  - simpl. intros j [Hj| ->%list_elem_of_singleton]%elem_of_app; [by apply (wf_single _ Hwf)|apply (ad_single _ _ _ Ha)].
  - simpl. intros k j k' j' s [Hj|[-> ->]]%lookup_snoc Hp [Hj'|[-> ->]]%lookup_snoc Hs Hs'.
    + by eapply (wf_pool _ Hwf).
    + by destruct (ad_apart _ _ _ Ha s j Hs' (list_elem_of_lookup_2 _ _ _ Hj) Hs).
    + by destruct (ad_apart _ _ _ Ha s j' Hs (list_elem_of_lookup_2 _ _ _ Hj') Hs').
    + done.
  - simpl. intros j [Hj| ->%list_elem_of_singleton]%elem_of_app; [by apply (wf_nonempty _ Hwf)|apply (ad_nonempty _ _ _ Ha)].
  - simpl. intros k j [Hj|[-> ->]]%lookup_snoc He; [|by rewrite (ad_end _ _ _ Ha) in He].
    by apply covered_add, (wf_chain _ Hwf k j).
Qed.

Lemma add_group_ok i hs r g : addable i hs r → group_ok r g → group_ok (add_info i hs r) g.
Proof.
  intros Ha Hg. split; [intros s Hs; apply uses_add; left; by apply (go_known _ _ Hg)|].
  simpl. intros j s s' [Hj| ->%list_elem_of_singleton]%elem_of_app Hp Hs Hin Hs'; [by apply (go_closed _ _ Hg j s)|].
  destruct (go_known _ _ Hg s Hin) as (j & Hj & Hsj). by destruct (ad_apart _ _ _ Ha s j Hs Hj Hsj).
Qed.

(** *** Taking a consumer out of the ends of the chain *)

Definition mark_at (k : nat) (r : repository) : repository :=
  mkrepository (alter mark k (consumerInfos r)) (infoByHandler r) (infoBySequence r).

Lemma mark_at_lookup k r k' :
  consumerInfos (mark_at k r) !! k' = (if decide (k' = k) then mark else id) <$> consumerInfos r !! k'.
Proof.
  cbn [mark_at consumerInfos]. case_decide; [subst; by rewrite list_lookup_alter_eq|].
  rewrite list_lookup_alter_ne by done. by destruct (_ !! k').
Qed.

Lemma mark_at_inv k r k' j :
  consumerInfos (mark_at k r) !! k' = Some j →
  ∃ i, consumerInfos r !! k' = Some i ∧ i_kind j = i_kind i ∧ i_sequences j = i_sequences i
    ∧ i_barrier j = i_barrier i ∧ (i_end j = false → i_end i = false ∨ k' = k).
Proof.
  rewrite mark_at_lookup. intros (i & -> & Hi)%fmap_Some. exists i. split; [done|].
  case_decide; subst; simpl; auto 10.
Qed.

Lemma mark_at_fwd k r k' i :
  consumerInfos r !! k' = Some i →
  ∃ j, consumerInfos (mark_at k r) !! k' = Some j ∧ i_kind j = i_kind i ∧ i_sequences j = i_sequences i
    ∧ i_barrier j = i_barrier i.
Proof. intros H. rewrite mark_at_lookup, H. simpl. eexists. split; [done|]. by case_decide. Qed.

Lemma mark_at_elem k r j :
  j ∈ consumerInfos (mark_at k r) → ∃ i, i ∈ consumerInfos r ∧ i_kind j = i_kind i ∧ i_sequences j = i_sequences i.
Proof.
  intros [k' Hj]%list_elem_of_lookup. apply mark_at_inv in Hj as (i & Hi & ? & ? & _).
  exists i. split; [by eapply list_elem_of_lookup_2|done].
Qed.

Lemma uses_mark k r s : uses (mark_at k r) s ↔ uses r s.
Proof.
  split.
  - intros (j & Hj & Hs). apply mark_at_elem in Hj as (i & Hi & _ & Hq). exists i. by rewrite <- Hq.
  - intros (i & [k' Hi]%list_elem_of_lookup & Hs). apply (mark_at_fwd k) in Hi as (j & Hj & _ & Hq & _).
    exists j. rewrite Hq. split; [by eapply list_elem_of_lookup_2|done].
Qed.

Lemma covered_mark k r k' : covered r k' → covered (mark_at k r) k'.
Proof.
  intros (i & l & i' & D & Hi & Hlt & Hi' & HD & Hs).
  apply (mark_at_fwd k) in Hi as (j & Hj & _ & Hq & _).
  apply (mark_at_fwd k) in Hi' as (j' & Hj' & _ & _ & Hb).
  exists j, l, j', D. rewrite Hq, Hb. done.
Qed.

Lemma mark_well_formed k r : well_formed r → covered r k → well_formed (mark_at k r).
Proof.
  intros Hwf Hc. split.
  - intros s k' (i & Hi & Hs)%(wf_index _ Hwf). apply (mark_at_fwd k) in Hi as (j & Hj & _ & Hq & _).
    exists j. by rewrite Hq.
  - intros s Hs%uses_mark. by apply (wf_known _ Hwf).
  - intros h k' (i & Hi & Hp)%(wf_handlers _ Hwf). apply (mark_at_fwd k) in Hi as (j & Hj & Hk & _).
    exists j. by rewrite Hk.
  - intros j (i & Hi & -> & ->)%mark_at_elem. by apply (wf_single _ Hwf).
  - intros k1 j k2 j' s Hj Hp Hj' Hs Hs'.
    apply mark_at_inv in Hj as (i & Hi & Hk & Hq & _), Hj' as (i' & Hi' & _ & Hq' & _).
    rewrite Hq in Hs. rewrite Hq' in Hs'. rewrite Hk in Hp. by eapply (wf_pool _ Hwf).
  - intros j (i & Hi & _ & ->)%mark_at_elem. by apply (wf_nonempty _ Hwf).
  - intros k' j Hj He. apply covered_mark. apply mark_at_inv in Hj as (i & Hi & _ & _ & _ & Hend).
    destruct (Hend He) as [He'| ->]; [by eapply (wf_chain _ Hwf)|done].
Qed.

Lemma mark_group_ok k r g : group_ok r g → group_ok (mark_at k r) g.
Proof.
  intros Hg. split; [intros s Hs; by apply uses_mark, (go_known _ _ Hg)|].
  intros j s s' (i & Hi & -> & ->)%mark_at_elem. by apply (go_closed _ _ Hg).
Qed.

Lemma unmark_well_formed b r gs :
  well_formed r → Forall (group_ok r) gs →
  (∀ s k, s ∈ b → infoBySequence r !! s = Some k → covered r k) →
  let r' := unMarkEventProcessorsAsEndOfChain b r in well_formed r' ∧ Forall (group_ok r') gs.
Proof.
  unfold unMarkEventProcessorsAsEndOfChain.
  revert r. induction b as [|s b IH]; intros r Hwf Hg Hc; [done|]. simpl.
  unfold unmark_one at 2 4. destruct (infoBySequence r !! s) as [k|] eqn:Hs; [|apply IH; set_solver].
  apply IH.
  - apply mark_well_formed; [done|]. apply (Hc s); set_solver.
  - eapply Forall_impl; [done|]. intros g. apply mark_group_ok.
  - intros t k' Ht Hk'. apply covered_mark, (Hc t); [set_solver|done].
Qed.

(** *** The calls *)

Definition sound_repository (r : repository) (gs : list group) : Prop :=
  well_formed r ∧ Forall (group_ok r) gs.

Lemma add_sound i hs r gs :
  sound_repository r gs → addable i hs r → sound_repository (add_info i hs r) gs.
Proof.
  intros [Hwf Hg] Ha. split; [by apply add_well_formed|].
  eapply Forall_impl; [done|]. intros g. by apply add_group_ok.
Qed.

Lemma insert_handlers h k (m : gmap nat nat) h' k' :
  <[h := k]> m !! h' = Some k' → m !! h' = Some k' ∨ k' = k.
Proof. intros [[_ <-]|[_ H]]%lookup_insert_Some; auto. Qed.

Definition add_handlers (b : group) (hs : list (nat * addr)) (r : repository) : repository :=
  fold_left (λ r h, add_handler h.2 h.1 b r) hs r.

Definition handler_info (b : group) (h : nat * addr) : info := mkinfo (Handler h.1) [h.2] (Some b) true false.

Lemma add_handlers_infos b hs r :
  consumerInfos (add_handlers b hs r) = consumerInfos r ++ (handler_info b <$> hs).
Proof.
  unfold add_handlers. revert r. induction hs as [|h hs IH]; intros r; cbn [fold_left]; [by rewrite app_nil_r|].
  rewrite IH. cbn. by rewrite <- app_assoc.
Qed.

Lemma add_handlers_index b hs r s :
  s ∉ hs.*2 → infoBySequence (add_handlers b hs r) !! s = infoBySequence r !! s.
Proof.
  unfold add_handlers. revert r. induction hs as [|h hs IH]; intros r Hs; cbn [fold_left]; [done|].
  cbn in Hs. rewrite IH by set_solver. cbn. by rewrite lookup_insert_ne by set_solver.
Qed.

Lemma add_handlers_sound b hs r gs :
  sound_repository r gs → NoDup (hs.*2) → (∀ s, s ∈ hs.*2 → ¬ uses r s) →
  sound_repository (add_handlers b hs r) gs.
Proof.
  unfold add_handlers. revert r. induction hs as [|h hs IH]; intros r Hs Hd Hn; cbn [fold_left]; [done|].
  cbn in Hd, Hn. apply NoDup_cons in Hd as [Hnew Hd].
  change (add_handler h.2 h.1 b r) with (add_info (handler_info b h) (<[h.1 := length (consumerInfos r)]> (infoByHandler r)) r).
  apply IH; [apply add_sound; [done|split]|done|]; cbn.
  - done.
  - done.
  - intros _. by exists (h.2).
  - intros s j ->%list_elem_of_singleton Hj Hsj. destruct (Hn (h.2)); [set_solver|by exists j].
  - intros h' k [H| ->]%insert_handlers; [by left|by right].
  - intros s Hin [Hu| Hu%list_elem_of_singleton]%uses_add; [by apply (Hn s); [set_solver|]|by subst].
Qed.

Definition uses_single (r : repository) (s : addr) : Prop :=
  ∃ i, i ∈ consumerInfos r ∧ s ∈ i_sequences i ∧ i_kind i ≠ Pool.

Lemma add_processors_sound ps c gs :
  sound_repository (repo c) gs →
  (∀ s i, s ∈ ps → i ∈ consumerInfos (repo c) → s ∈ i_sequences i → i_kind i = Custom) →
  sound_repository (repo (add_processors ps c)) gs ∧ ∀ s, s ∈ ps → uses_single (repo (add_processors ps c)) s.
Proof.
  unfold add_processors. cbn [repo set_repo]. generalize (repo c) as r. clear c.
  enough (∀ r, sound_repository r gs →
    (∀ s i, s ∈ ps → i ∈ consumerInfos r → s ∈ i_sequences i → i_kind i = Custom) →
    let r' := fold_left (λ r p, add_processor p r) ps r in
    sound_repository r' gs ∧ ∀ s, s ∈ ps ∨ uses_single r s → uses_single r' s) as H.
  { intros r Hs Hc. destruct (H r Hs Hc) as [H1 H2]. auto. }
  induction ps as [|p ps IH]; intros r Hs Hc; cbn [fold_left]; [split; [done|set_solver]|].
  change (add_processor p r) with (add_info (mkinfo Custom [p] None true false) (infoByHandler r) r).
  destruct (IH (add_info (mkinfo Custom [p] None true false) (infoByHandler r) r)) as [H1 H2].
  - apply add_sound; [done|]. split; cbn; try done; [by exists p| |by left].
    intros s j ->%list_elem_of_singleton Hj Hpj. split; [done|].
    rewrite (Hc p j) by (done || set_solver). done.
  - cbn. intros s i Hin [Hi| ->%list_elem_of_singleton]%elem_of_app Hsi; [|done]. apply (Hc s i); set_solver.
  - split; [done|]. intros s [[->|Hin]%elem_of_cons|(i & Hi & Hsi & Hk)]; apply H2; [right|by left|right].
    + exists (mkinfo Custom [p] None true false). cbn. set_solver.
    + exists i. cbn. set_solver.
Qed.

Lemma group_ok_singles r g :
  (∀ s, s ∈ g → uses_single r s) → well_formed r → group_ok r g.
Proof.
  intros H Hwf. split.
  - intros s (i & Hi & Hs & _)%H. by exists i.
  - intros i s s' Hi Hp Hsi Hs _. exfalso. apply H in Hs as (j & Hj & Hsj & Hk).
    apply list_elem_of_lookup in Hi as [k Hi], Hj as [l Hj].
    assert (k = l) as -> by (by eapply (wf_pool _ Hwf)). congruence.
Qed.

Lemma group_ok_app r g g' : group_ok r g → group_ok r g' → group_ok r (g ++ g').
Proof.
  intros H H'. split.
  - intros s [Hs|Hs]%elem_of_app; [by apply (go_known _ _ H)|by apply (go_known _ _ H')].
  - intros i s s' Hi Hp Hs [Hin|Hin]%elem_of_app Hs'; apply elem_of_app;
      [left; by apply (go_closed _ _ H i s)|right; by apply (go_closed _ _ H' i s)].
Qed.

Lemma sequences_for_spec hs r g s :
  sequences_for hs r = Ok g → s ∈ g → ∃ h k i l, infoByHandler r !! h = Some k ∧ consumerInfos r !! k = Some i ∧ i_sequences i = s :: l.
Proof.
  revert g. induction hs as [|h hs IH]; simpl; intros g Hg Hs; [injection Hg as <-; set_solver|].
  destruct (getSequenceFor h r) as [t|] eqn:Ht; [|done]. simpl in Hg.
  destruct (sequences_for hs r) as [ts|]; [|done]. injection Hg as <-.
  apply elem_of_cons in Hs as [->|Hs]; [|by apply (IH ts)].
  unfold getSequenceFor in Ht. destruct (infoByHandler r !! h) as [k|] eqn:Hk; [|done].
  destruct (consumerInfos r !! k) as [i|] eqn:Hi; simpl in Ht; [|done].
  destruct (i_sequences i) as [|t' l] eqn:Hq; [done|]. injection Ht as ->. by exists h, k, i, l.
Qed.

Lemma sound_cons r gs g : sound_repository r gs → group_ok r g → sound_repository r (g :: gs).
Proof. intros [Hwf Hg] H. split; [done|by constructor]. Qed.

Lemma sound_group r gs g : sound_repository r gs → g ∈ gs → group_ok r g.
Proof. intros [_ Hg]. rewrite Forall_forall in Hg. auto. Qed.

(** The consumers of a group are covered by the first handler that waits on it. *)
Lemma handlers_cover r gs b h hs s k :
  sound_repository r gs → b ∈ gs → s ∈ b → infoBySequence r !! s = Some k → covered (add_handlers b (h :: hs) r) k.
Proof.
  intros Hr Hb Hs Hk. pose proof (sound_group _ _ _ Hr Hb) as Hg. destruct Hr as [Hwf _].
  destruct (wf_index _ Hwf s k Hk) as (i & Hi & Hsi).
  exists i, (length (consumerInfos r)), (handler_info b h), b.
  rewrite add_handlers_infos. split_and!; [by apply lookup_app_l_Some|by eapply lookup_lt_Some| |done|].
  - rewrite fmap_cons, lookup_app_r, Nat.sub_diag by done. done.
  - intros s' Hs'. assert (i ∈ consumerInfos r) as Hin by (by eapply list_elem_of_lookup_2).
    destruct (decide (i_kind i = Pool)) as [Hp|Hp]; [by apply (go_closed _ _ Hg i s)|].
    destruct (wf_single _ Hwf i Hin Hp) as [t Ht]. rewrite Ht in Hsi, Hs'. set_solver.
Qed.

Lemma handlers_sound b hs r gs :
  sound_repository r gs → b ∈ gs → NoDup (hs.*2) → (∀ s, s ∈ hs.*2 → ¬ uses r s) → hs ≠ [] →
  sound_repository (unMarkEventProcessorsAsEndOfChain b (add_handlers b hs r)) (hs.*2 :: gs).
Proof.
  intros Hr Hb Hd Hn Hne. pose proof (add_handlers_sound b hs r gs Hr Hd Hn) as [Hwf Hg].
  apply unmark_well_formed; [done| |].
  - constructor; [|done]. apply group_ok_singles; [|done].
    intros s (h & -> & Hh)%list_elem_of_fmap. exists (handler_info b h).
    rewrite add_handlers_infos. cbn. split; [|by split; [constructor|]].
    apply elem_of_app. right. by apply list_elem_of_fmap_2.
  - intros s k Hs. rewrite add_handlers_index.
    + destruct hs as [|h hs]; [done|]. by apply (handlers_cover r gs).
    + intros Hin. by apply (Hn s Hin), (go_known _ _ (sound_group _ _ _ Hr Hb)).
Qed.

Lemma pool_sound b made r gs :
  sound_repository r gs → made ≠ [] → (∀ s, s ∈ made → ¬ uses r s) → sound_repository (add_pool made b r) (made :: gs).
Proof.
  intros Hr Hne Hn. change (add_pool made b r) with (add_info (mkinfo Pool made (Some b) true false) (infoByHandler r) r).
  assert (sound_repository (add_info (mkinfo Pool made (Some b) true false) (infoByHandler r) r) gs) as Hr'.
  { apply add_sound; [done|]. split; cbn; try done; [|by left].
    intros s j Hs Hj Hsj. exfalso. apply (Hn s Hs). by exists j. }
  apply sound_cons; [done|]. split; [intros s Hs; apply uses_add; by right|].
  cbn. intros j s s' [Hj| ->%list_elem_of_singleton]%elem_of_app Hp Hsj Hs Hs'; [|done].
  exfalso. apply (Hn s Hs). by exists j.
Qed.

Lemma processors_sound ps g c gs :
  sound_repository (repo c) gs → (∀ s i, s ∈ ps → i ∈ consumerInfos (repo c) → s ∈ i_sequences i → i_kind i = Custom) →
  g ∈ gs ∨ g = [] → sound_repository (repo (add_processors ps c)) ((ps ++ g) :: gs).
Proof.
  intros Hr Hc Hg. destruct (add_processors_sound ps c gs Hr Hc) as [Hr' Hs].
  apply sound_cons; [done|]. apply group_ok_app; [apply group_ok_singles; [done|by destruct Hr']|].
  destruct Hg as [Hg| ->]; [by apply (sound_group _ _ _ Hr')|by split; intros; set_solver].
Qed.

Lemma perform_sound o c gs g c' :
  sound_repository (repo c) gs → sound o (repo c) → (∀ b, b ∈ groups_of o → b ∈ gs) →
  perform o c = (Ok g, c') → sound_repository (repo c') (g :: gs).
Proof.
  intros Hr [Hnew Hd Hp Hg] Hb Ho.
  destruct o as [b hs|b made|ps|b made|hs|ps|g1 g2|g1 ps]; cbn [perform groups_of made_by given_to] in *.
  - unfold createEventProcessors in Ho. destruct (started c); [done|]. injection Ho as <- <-.
    destruct hs as [|h hs].
    + apply sound_cons; [done|]. split; intros; set_solver.
    + apply (handlers_sound b (h :: hs)); [done|apply Hb; set_solver|done|done|done].
  - injection Ho as <- <-. apply pool_sound; [done|by eapply Hp|done].
  - injection Ho as <- <-. rewrite <- (app_nil_r ps) at 2. apply processors_sound; auto.
  - injection Ho as <- <-. rewrite <- (app_nil_r made) at 2. apply processors_sound; auto.
  - unfold after in Ho. injection Ho as Hs <-. apply sound_cons; [done|]. apply group_ok_singles; [|by destruct Hr].
    intros s Hin. destruct Hr as [Hwf _]. destruct (sequences_for_spec _ _ _ _ Hs Hin) as (h & k & i & l & Hh & Hi & Hl).
    destruct (wf_handlers _ Hwf h k Hh) as (j & Hj & Hk). simplify_eq. exists i.
    split; [by eapply list_elem_of_lookup_2|]. rewrite Hl. split; [by constructor|done].
  - injection Ho as <- <-. rewrite <- (app_nil_r ps) at 2. apply processors_sound; auto.
  - injection Ho as <- <-. apply sound_cons; [done|].
    apply group_ok_app; apply (sound_group _ _ _ Hr), Hb; set_solver.
  - injection Ho as <- <-. apply processors_sound; [done|done|left; apply Hb; set_solver].
Qed.

Lemma built_sound c gs : built c gs → sound_repository (repo c) gs.
Proof.
  induction 1 as [|c gs o g c' Hb IH Hs Hg Ho].
  - split; [apply empty_well_formed|]. repeat constructor; intros; set_solver.
  - by eapply perform_sound.
Qed.

(** ** What the producers wait for *)

(** A consumer does not pass what its barrier tracks; of a pool, the slowest
    sequence does not. *)
Definition behind (st : store) (i : info) : Prop :=
  ∀ D d, i_barrier i = Some D → d ∈ D → ∃ s, s ∈ i_sequences i ∧ value st s ≤ value st d.

Lemma last_in_chain isRunning includeStopped r k i s :
  consumerInfos r !! k = Some i → in_chain_end includeStopped isRunning k i = true → s ∈ i_sequences i →
  s ∈ getLastSequenceInChain includeStopped isRunning r.
Proof.
  intros Hi He Hs. unfold getLastSequenceInChain. apply list_elem_of_In, in_concat.
  exists (i_sequences i). rewrite <- !list_elem_of_In. split; [|done]. apply list_elem_of_lookup. exists k. rewrite list_lookup_imap, Hi. simpl. by rewrite He.
Qed.

Definition chained (r : repository) : Prop :=
  ∀ k i, consumerInfos r !! k = Some i → i_end i = false → covered r k.

(** The slowest of the last consumers is at most as far as any consumer. *)
Lemma chain_ends_slowest st isRunning includeStopped r k i s :
  chained r → (∀ j, j ∈ consumerInfos r → behind st j) →
  (∀ k' i', consumerInfos r !! k' = Some i' → includeStopped || isRunning k' = true) →
  consumerInfos r !! k = Some i → s ∈ i_sequences i →
  ∃ t, t ∈ getLastSequenceInChain includeStopped isRunning r ∧ value st t ≤ value st s.
Proof.
  intros Hwf Hb Hrun. remember (length (consumerInfos r) - k)%nat as n eqn:Hn.
  revert k i s Hn. induction (lt_wf n) as [n _ IH]. intros k i s -> Hi Hs.
  destruct (i_end i) eqn:He.
  - exists s. split; [|done]. apply (last_in_chain _ _ _ k i); [done| |done].
    unfold in_chain_end. by rewrite (Hrun k i Hi).
  - destruct (Hwf k i Hi He) as (? & k' & i' & D & Hi0 & Hlt & Hi' & HD & Hsub). simplify_eq.
    destruct (Hb i' (list_elem_of_lookup_2 _ _ _ Hi') D s HD (Hsub s Hs)) as (s' & Hs' & Hle).
    pose proof (lookup_lt_Some _ _ _ Hi').
    destruct (IH (length (consumerInfos r) - k')%nat ltac:(lia) k' i' s' eq_refl Hi' Hs') as (t & Ht & Htle).
    exists t. split; [done|lia].
Qed.

(** Starting leaves the graph as it is. *)
Definition same_consumer (i j : info) : Prop :=
  i_kind j = i_kind i ∧ i_sequences j = i_sequences i ∧ i_barrier j = i_barrier i ∧ i_end j = i_end i.

#[export] Instance same_consumer_equivalence : Equivalence same_consumer.
Proof.
  unfold same_consumer. split; red; intuition congruence.
Qed.

Lemma set_running_same b i : same_consumer i (set_running b i).
Proof. unfold set_running, same_consumer. by destruct (i_kind i) eqn:Hk. Qed.

Lemma chained_same r r' : Forall2 same_consumer (consumerInfos r) (consumerInfos r') → chained r → chained r'.
Proof.
  intros Hs Hc k i Hi He.
  destruct (Forall2_lookup_r _ _ _ _ _ Hs Hi) as (j & Hj & H1 & H2 & H3 & H4).
  destruct (Hc k j Hj) as (j0 & k' & j' & D & Hj0 & Hlt & Hj' & HD & Hsub); [congruence|]. simplify_eq.
  destruct (Forall2_lookup_l _ _ _ _ _ Hs Hj') as (i' & Hi' & G1 & G2 & G3 & G4).
  exists i, k', i', D. rewrite G3, H2. done.
Qed.

Lemma insert_same k x j l : l !! k = Some j → same_consumer j x → Forall2 same_consumer l (<[k := x]> l).
Proof.
  intros Hk Hs. rewrite <- (list_insert_id l k j Hk) at 1.
  apply Forall2_insert; [|done]. by apply reflexivity.
Qed.

Lemma start_infos_same l k c c' :
  start_infos k l c = Some c' →
  (∀ n i, l !! n = Some i → ∃ j, consumerInfos (repo c) !! (k + n)%nat = Some j ∧ same_consumer j i) →
  Forall2 same_consumer (consumerInfos (repo c)) (consumerInfos (repo c')).
Proof.
  revert k c. induction l as [|i l IH]; intros k c; simpl; [intros [= <-] _; by apply reflexivity|].
  intros (c1 & Hc1 & H)%bind_Some Hl.
  destruct (Hl 0%nat i eq_refl) as (j & Hj & Hji). rewrite Nat.add_0_r in Hj.
  assert (Forall2 same_consumer (consumerInfos (repo c)) (consumerInfos (repo c1))) as H1.
  { unfold start_info in Hc1. destruct (i_kind i); [by injection Hc1 as <-|by injection Hc1 as <-|].
    destruct (i_running i); [done|]. injection Hc1 as <-. cbn. apply (insert_same k _ j); [done|].
    etrans; [done|apply set_running_same]. }
  etrans; [exact H1|]. apply (IH (S k)); [done|]. intros n i' Hi'.
  destruct (Hl (S n) i' Hi') as (j' & Hj' & Hs'). rewrite Nat.add_succ_r in Hj'.
  destruct (Forall2_lookup_l _ _ _ _ _ H1 Hj') as (j1 & Hj1 & Hs1). exists j1. split; [done|].
  etrans; [symmetry; exact Hs1|done].
Qed.

(** [start] of consumers that do not run: each is launched once, in order. *)
Lemma start_infos_spec l k c :
  Forall (λ i, i_running i = false) l →
  ∃ c', start_infos k l c = Some c' ∧ launched c' = launched c ++ seq k (length l) ∧ gating c' = gating c
    ∧ started c' = started c.
Proof.
  revert k c. induction l as [|i l IH]; intros k c Hf; simpl; [exists c; by rewrite app_nil_r|].
  apply Forall_cons in Hf as [Hi Hf]. unfold start_info. rewrite Hi.
  destruct (i_kind i); simpl;
    (match goal with |- context [start_infos _ _ ?c1] => destruct (IH (S k) c1 Hf) as (c' & -> & Hl & Hg & Hs) end;
     exists c'; rewrite Hl, Hg, Hs; cbn; by rewrite <- app_assoc).
Qed.

Definition idle (c : core) : Prop :=
  started c = false ∧ gating c = [] ∧ launched c = [] ∧ Forall (λ i, i_running i = false) (consumerInfos (repo c)).

Lemma unmark_idle b r :
  Forall (λ i, i_running i = false) (consumerInfos r) →
  Forall (λ i, i_running i = false) (consumerInfos (unMarkEventProcessorsAsEndOfChain b r)).
Proof.
  unfold unMarkEventProcessorsAsEndOfChain. revert r. induction b as [|s b IH]; intros r H; [done|]. simpl. apply IH.
  unfold unmark_one. destruct (infoBySequence r !! s) as [k|]; [|done]. cbn. by apply Forall_alter.
Qed.

Lemma add_processors_infos ps r :
  consumerInfos (fold_left (λ r p, add_processor p r) ps r) = consumerInfos r ++ ((λ p, mkinfo Custom [p] None true false) <$> ps).
Proof.
  revert r. induction ps as [|p ps IH]; intros r; cbn [fold_left]; [by rewrite app_nil_r|].
  rewrite IH. cbn. by rewrite <- app_assoc.
Qed.

Lemma perform_idle o c g c' : idle c → perform o c = (Ok g, c') → idle c'.
Proof.
  intros (H1 & H2 & H3 & H4) Ho.
  assert (∀ ps, idle (add_processors ps c)) as Hp.
  { intros ps. split_and!; [done|done|done|]. unfold add_processors. cbn. rewrite add_processors_infos.
    apply Forall_app. split; [done|]. by apply Forall_fmap, Forall_true. }
  destruct o as [b hs|b made|ps|b made|hs|ps|g1 g2|g1 ps]; cbn [perform] in Ho.
  - unfold createEventProcessors in Ho. rewrite H1 in Ho. injection Ho as <- <-. split_and!; [done|done|done|].
    assert (Forall (λ i, i_running i = false) (consumerInfos (add_handlers b hs (repo c)))) as H.
    { rewrite add_handlers_infos. apply Forall_app. split; [done|]. by apply Forall_fmap, Forall_true. }
    destruct hs as [|h hs]; [done|]. by apply (unmark_idle b).
  - injection Ho as <- <-. split_and!; [done|done|done|]. cbn. apply Forall_app. split; [done|]. by repeat constructor.
  - injection Ho as <- <-. apply Hp.
  - injection Ho as <- <-. apply Hp.
  - unfold after in Ho. injection Ho as Hs <-. done.
  - injection Ho as <- <-. apply Hp.
  - injection Ho as <- <-. done.
  - injection Ho as <- <-. apply Hp.
Qed.

Lemma built_idle c gs : built c gs → idle c.
Proof. induction 1; [by repeat constructor|by eapply perform_idle]. Qed.

Lemma start_spec c gs :
  built c gs →
  ∃ c', start c = Some (Ok (), c') ∧ started c' = true ∧ gating c' = getLastSequenceInChain true (λ _, false) (repo c)
    ∧ launched c' = seq 0 (length (consumerInfos (repo c))).
Proof.
  intros (Hs & Hg & Hl & Hf)%built_idle. unfold start, addSequences. rewrite Hg, Hs. cbn [started repo].
  match goal with |- context [start_infos 0 _ ?c1] => destruct (start_infos_spec _ 0 c1 Hf) as (c' & -> & H1 & H2 & H3) end.
  exists c'. cbn in *. rewrite H1, H2, H3, Hl. done.
Qed.

Lemma start_chained c gs c' : built c gs → start c = Some (Ok (), c') → chained (repo c').
Proof.
  intros Hb Hst. apply (chained_same (repo c)); [|exact (wf_chain _ (proj1 (built_sound c gs Hb)))].
  apply built_idle in Hb as (Hs & _). revert Hst. unfold start, addSequences. rewrite Hs. cbn [started repo].
  intros (c1 & H1 & [= <-])%bind_Some. apply start_infos_same in H1; [done|].
  intros n i Hi. by exists i.
Qed.

Lemma no_backlog st isRunning r t :
  hasBacklog st isRunning r = false → t ∈ getLastSequenceInChain false isRunning r → value st cursor_addr ≤ value st t.
Proof.
  unfold hasBacklog. intros H Ht. apply Z.ltb_ge. destruct (value st t <? value st cursor_addr) eqn:Hlt; [|done].
  rewrite <- H. symmetry. apply existsb_exists. exists t. by split; [apply list_elem_of_In|].
Qed.

(** ** The properties of a started graph *)

(** C32: what [start] promises.  From every graph the calls of the builder make, it
    succeeds and launches every consumer once; and from then on, as long as no
    consumer passes what its barrier tracks, the minimum of the gating sequences,
    which the producers never pass by more than the size of the buffer, is at most
    the sequence of every consumer, also of those that are not last in a chain: no
    entry a consumer has yet to process is overwritten. *)
Theorem gating_covers c gs :
  built c gs →
  ∃ c', start c = Some (Ok (), c') ∧ launched c' = seq 0 (length (consumerInfos (repo c)))
    ∧ ∀ st m i s, (∀ j, j ∈ consumerInfos (repo c) → behind st j) →
        i ∈ consumerInfos (repo c) → s ∈ i_sequences i → getMinimumSequence st (gating c') m ≤ value st s.
Proof.
  intros Hb. destruct (start_spec c gs Hb) as (c' & Hst & _ & Hg & Hl). exists c'. split_and!; [done|done|].
  intros st m i s Hbeh [k Hi]%list_elem_of_lookup Hs. apply built_sound in Hb as [Hwf _].
  destruct (chain_ends_slowest st (λ _, false) true (repo c) k i s (wf_chain _ Hwf) Hbeh) as (t & Ht & Hle); [done|done|done|].
  rewrite Hg. unfold getMinimumSequence. etrans; [apply min_of_le, list_elem_of_fmap_2, Ht|done].
Qed.

(** What [halt] does to all. *)
Lemma halt_infos_spec pre l c :
  consumerInfos (repo c) = pre ++ l →
  halt_infos (length pre) l c
  = mkcore (mkrepository (pre ++ (set_running false <$> l)) (infoByHandler (repo c)) (infoBySequence (repo c)))
      (started c) (gating c) (sequences c) (launched c) (halted c ++ seq (length pre) (length l)).
Proof.
  revert pre c. induction l as [|i l IH]; intros pre c E; cbn [halt_infos].
  - rewrite app_nil_r in *. simpl. rewrite app_nil_r. rewrite <- E. by destruct c as [[] ? ? ? ?].
  - unfold halt_info. replace (S (length pre)) with (length (pre ++ [set_running false i])) by (rewrite length_app; simpl; lia).
    rewrite IH; [cbn|].
    + rewrite <- !app_assoc. do 2 f_equal; rewrite length_app; simpl; by rewrite Nat.add_1_r.
    + unfold set_info. cbn. rewrite E, <- app_assoc. rewrite insert_app_r_alt, Nat.sub_diag by done. done.
Qed.

(** No consumer runs any more, as far as it is known here: each was told, in order,
    and no pool thinks that it runs; nothing else has changed. *)
Record all_halted (c c' : core) : Prop := {
  ha_told : halted c' = halted c ++ seq 0 (length (consumerInfos (repo c)));
  ha_pools i : i ∈ consumerInfos (repo c') → i_kind i = Pool → i_running i = false;
  ha_rest : (λ i, (i_kind i, i_sequences i, i_barrier i, i_end i)) <$> consumerInfos (repo c')
            = (λ i, (i_kind i, i_sequences i, i_barrier i, i_end i)) <$> consumerInfos (repo c);
  ha_core : (started c', gating c', sequences c', launched c') = (started c, gating c, sequences c, launched c)
}.

Lemma halt_halted c : all_halted c (halt c).
Proof.
  pose proof (halt_infos_spec [] (consumerInfos (repo c)) c eq_refl) as E. cbn [length app] in E. unfold halt. rewrite E. split; cbn; [done| | |done].
  - intros i Hi Hk. apply list_elem_of_fmap in Hi as (j & -> & _). unfold set_running in *. by destruct j as [[] ? ? ? ?].
  - rewrite <- list_fmap_compose. apply list_fmap_ext. intros k i _. simpl. unfold set_running. by destruct i as [[] ? ? ? ?].
Qed.

(** The turn lets [shutdown] return. *)
Definition returns (timeout : option Z) (timeoutAt : Z) (r : repository) (s : sight) : Prop :=
  hasBacklog (s_values s) (s_running s) r = false ∨ timed_out timeout timeoutAt (s_now s) = true.


(** *** A graph: two handlers, a handler after both, a pool of two workers after it *)

Definition two_handlers : call := HandleEventsWith [] [(10%nat, 1%nat); (11%nat, 2%nat)].
Definition then_handler : call := HandleEventsWith [1%nat; 2%nat] [(12%nat, 3%nat)].
Definition then_pool : call := HandleEventsWithWorkerPool [3%nat] [4%nat; 5%nat; 6%nat].

Definition graph : core := (perform then_pool (perform then_handler (perform two_handlers new_core).2).2).2.

Lemma sound_by_search o r :
  Forall (λ s, Forall (λ i, s ∉ i_sequences i) (consumerInfos r)) (made_by o) →
  NoDup (made_by o) → (∀ b, o ≠ HandleEventsWithWorkerPool b []) →
  Forall (λ s, Forall (λ i, s ∈ i_sequences i → i_kind i = Custom) (consumerInfos r)) (given_to o) →
  sound o r.
Proof.
  rewrite !Forall_forall. intros H1 H2 H3 H4. split.
  - intros s Hs (i & Hi & Hin). specialize (H1 s Hs). rewrite Forall_forall in H1. by apply (H1 i).
  - done.
  - intros b made -> ->. by apply (H3 b).
  - intros s i Hs Hi. specialize (H4 s Hs). rewrite Forall_forall in H4. by apply H4.
Qed.

Ltac sound_call :=
  apply sound_by_search; [apply (bool_decide_unpack _); vm_compute; exact I
    |apply (bool_decide_unpack _); vm_compute; exact I|done|apply (bool_decide_unpack _); vm_compute; exact I].

Lemma graph_built : built graph [[4; 5; 6]; [3]; [1; 2]; []]%nat.
Proof.
  eapply (built_call (perform then_handler (perform two_handlers new_core).2).2 _ then_pool); [|sound_call|simpl; set_solver|reflexivity].
  eapply (built_call (perform two_handlers new_core).2 _ then_handler); [|sound_call|simpl; set_solver|reflexivity].
  eapply (built_call _ _ two_handlers); [apply built_new|sound_call|simpl; set_solver|reflexivity].
Qed.

(** The pool gates the producers, and so does the handler before it, which
    [createWorkerPool] leaves among the ends of the chain. *)
Example graph_gating : gating <$> (snd <$> start graph) = Some [3; 4; 5; 6]%nat.
Proof. reflexivity. Qed.

Definition progress : store := λ a, nth a [9; 7; 8; 5; 2; 4; 5] 0.

Lemma progress_behind j : j ∈ consumerInfos graph.(repo) → behind progress j.
Proof.
  assert (Forall (λ j, ∀ D, i_barrier j = Some D → Forall (λ d, Exists (λ s, progress s ≤ progress d) (i_sequences j)) D)
            (consumerInfos graph.(repo))) as H.
  { repeat (constructor; [intros D [= <-]; repeat (constructor; [apply Exists_exists; eexists; split; [apply elem_of_cons; by left|done]|]); try constructor|]).
    constructor. }
  rewrite Forall_forall in H. intros Hj D d HD Hd. specialize (H j Hj D HD). rewrite Forall_forall in H.
  by specialize (H d Hd) as (s & Hs & Hle)%Exists_exists; exists s.
Qed.

Lemma gating_covers_witness :
  ∃ c', start graph = Some (Ok (), c') ∧ launched c' = [0; 1; 2; 3]%nat ∧ getMinimumSequence progress (gating c') 9 ≤ progress 1%nat.
Proof.
  pose proof graph_built as Hb. destruct (gating_covers graph _ Hb) as (c' & Hs & Hl & H). exists c'.
  split; [done|]. split; [done|]. apply (H progress 9 (mkinfo (Handler 10) [1%nat] (Some []) false false)); [apply progress_behind|..].
  - apply elem_of_cons. by left.
  - by constructor.
Defined.

Definition progress_ : sight := mksight progress (λ _, true) 11.
Definition done_ : sight := mksight (λ _, 9) (λ _, true) 12.

Lemma level_no_backlog run r : hasBacklog (λ _, 9) run r = false.
Proof. unfold hasBacklog. by induction (getLastSequenceInChain false run r). Qed.


(** ** What the builder does not do *)

(** [start] a second time throws, but not before it has added the gating sequences
    again and set the last consumers to the cursor: what they had not processed,
    they will not. *)
Example second_start_skips :
  ∃ c' c'', start graph = Some (Ok (), c')
    ∧ start (mkcore (repo c') (started c') (gating c') progress (launched c') (halted c')) = Some (Throw LogicError, c'')
    ∧ gating c'' = [3; 4; 5; 6; 3; 4; 5; 6]%nat ∧ value (sequences c'') 4%nat = 9 ∧ value progress 4%nat = 2.
Proof.
  destruct (start graph) as [[[[]|e] c']|] eqn:E; [|exfalso; revert E; vm_compute; discriminate..].
  exists c'. revert E. vm_compute. intros [= <-]. eexists. split; [reflexivity|]. by repeat split.
Qed.

(** Events published before [start]: the last consumers begin behind them, the others
    do not, and the producers do not wait for those. *)
Example start_leaves_upstream :
  let published := mkcore (repo graph) false [] (λ a, if (a =? 0)%nat then 5 else kInitialCursorValue) [] [] in
  ∃ c', start published = Some (Ok (), c')
    ∧ value (sequences c') 3%nat = 5 ∧ value (sequences c') 1%nat = -1 ∧ getMinimumSequence (sequences c') (gating c') 9 = 5.
Proof.
  cbv zeta. match goal with |- context [start ?p] => destruct (start p) as [[[[]|e] c']|] eqn:E end; [|exfalso; revert E; vm_compute; discriminate..].
  exists c'. revert E. vm_compute. intros [= <-]. by repeat split.
Qed.

(** A processor that [after] is told of, as its comment says it should have been set up
    before, is registered, and started, a second time. *)
Example after_starts_again :
  let c := (perform (AfterProcessors [1%nat]) (perform (HandleEventsWithProcessors [1%nat]) new_core).2).2 in
  i_sequences <$> consumerInfos (repo c) = [[1%nat]; [1%nat]] ∧ launched <$> (snd <$> start c) = Some [0; 1]%nat.
Proof. by split. Qed.
