(* ===== verification/Credit.v ===== *)
(** * Credit: what the broker sends to one worker

    A worker that waits has the credit of one request.  Whatever the broker does,
    other than with a message of that worker, does not raise the number of
    requests it has sent to the worker plus its credit; what the worker sends
    raises it by one at most. *)

From S2P Require Import Prelude Rbac Uri Topic Message Matching Service Subscriptions Pool Broker.
Local Open Scope nat_scope.

(** ** Credit and requests *)

Definition waits (i : bytes) (p : pool) : bool :=
  default false (a ← workers p !! i; w ← heap p !! a; svc ← services p !! w_serviceName w;
                 Some (bool_decide (a ∈ waiting svc))).

(** What a worker answers with a final message. *)
Definition wants_reply {f} (m : message f) : bool :=
  bool_decide (protocolName m = workerProtocol) && (bool_decide (command m = Get) || bool_decide (command m = Set_)).

(** The messages sent to the peer [i] of the ROUTER socket, in their order. *)
Definition to_peer (i : bytes) (o : output) : option BrokerMessage :=
  match o with
  | Send RouterSocket m => if decide ((sourceId m : bytes) = i) then Some m else None
  | _ => None
  end.

Definition sent_to (i : bytes) (outs : list output) : list BrokerMessage := omap (to_peer i) outs.

Definition requests_in {f} (ms : list (message f)) : nat := length (filter (λ m, wants_reply m = true) ms).

Definition asked (i : bytes) (outs : list output) : nat := requests_in (sent_to i outs).

Lemma asked_app i o o' : asked i (o ++ o') = asked i o + asked i o'.
Proof. unfold asked, sent_to, requests_in. by rewrite omap_app, filter_app, length_app. Qed.

Lemma asked_cons i o outs : asked i (o :: outs) = asked i [o] + asked i outs.
Proof. apply (asked_app i [o]). Qed.

(** An output that asks no worker for anything. *)
Definition silent (o : output) : Prop := match o with Send _ m => wants_reply m = false | _ => True end.

Lemma asked_silent i outs : Forall silent outs → asked i outs = 0.
Proof.
  induction 1 as [|o outs Ho _ IH]; [done|]. rewrite asked_cons, IH, Nat.add_0_r.
  destruct o as [s m| | | | |]; try done. destruct s; try done. unfold asked, sent_to.
  cbn [omap list_omap to_peer]. case_decide; [|done]. unfold requests_in. rewrite filter_cons_False; [done|].
  by rewrite Ho.
Qed.

Lemma waits_intro i p a n svc :
  pool_ok p → workers p !! i = Some a → services p !! n = Some svc → a ∈ waiting svc → waits i p = true.
Proof.
  intros Hp Ha Hs Hin. destruct (po_waiting p Hp n svc a Hs Hin) as (w & Hw & Hn).
  unfold waits. rewrite Ha. simpl. rewrite Hw. simpl. rewrite Hn, Hs. simpl. by apply bool_decide_eq_true.
Qed.

Lemma waits_elim i p :
  waits i p = true → ∃ a n svc, workers p !! i = Some a ∧ services p !! n = Some svc ∧ a ∈ waiting svc.
Proof.
  unfold waits. destruct (workers p !! i) as [a|]; [|done]. simpl. destruct (heap p !! a) as [w|]; [|done]. simpl.
  destruct (services p !! w_serviceName w) as [svc|] eqn:Hs; [|done]. simpl. intros H%bool_decide_eq_true. eauto 10.
Qed.

Lemma waits_idle i p a : pool_ok p → workers p !! i = Some a → waits i p = false → idle p a.
Proof. intros Hp Ha Hw n svc Hs Hin. assert (waits i p = true) by by eapply waits_intro. congruence. Qed.

(** ** The relation *)

(** From [p] to [p'], sending [o]: [k] more for the worker [i], and if it is known
    afterwards it was known under the same service, or [X] allows it. *)
Record tracks (i : bytes) (k : nat) (X : bytes → Prop) (p p' : pool) (o : list output) : Prop := {
  tr_ok : pool_ok p';
  tr_credit : asked i o + Nat.b2n (waits i p') ≤ Nat.b2n (waits i p) + k;
  tr_name a' w' : workers p' !! i = Some a' → heap p' !! a' = Some w' →
    X (w_serviceName w') ∨ ∃ a w, workers p !! i = Some a ∧ heap p !! a = Some w ∧ w_serviceName w' = w_serviceName w;
  tr_services n : is_Some (services p !! n) → is_Some (services p' !! n)
}.

Definition nowhere (n : bytes) : Prop := False.

Lemma tracks_refl i p o : pool_ok p → Forall silent o → tracks i 0 nowhere p p o.
Proof. intros Hp Ho. split; [done|rewrite asked_silent by done; lia| |done]. intros a w Ha Hw. right. eauto. Qed.

Lemma tracks_trans i k k' X p p1 p2 o o' :
  tracks i k X p p1 o → tracks i k' X p1 p2 o' → tracks i (k + k') X p p2 (o ++ o').
Proof.
  intros [H1 H2 H3 H4] [G1 G2 G3 G4]. split; [done|rewrite asked_app; lia| |auto].
  intros a w Ha Hw. destruct (G3 a w Ha Hw) as [?|(a1 & w1 & Ha1 & Hw1 & Hn)]; [by left|].
  destruct (H3 a1 w1 Ha1 Hw1) as [Hx|(a0 & w0 & Ha0 & Hw0 & Hn')]; [left|right]; rewrite Hn; eauto.
Qed.

Lemma tracks_weaken i k k' (X Y : bytes → Prop) p p' o :
  tracks i k X p p' o → k ≤ k' → (∀ n, X n → Y n) → tracks i k' Y p p' o.
Proof. intros [H1 H2 H3 H4] Hk HX. split; [done|lia| |done]. intros a w Ha Hw. destruct (H3 a w Ha Hw); auto. Qed.

Lemma credit_le i p p' k :
  (waits i p' = true → waits i p = true ∨ 1 ≤ k) → Nat.b2n (waits i p') ≤ Nat.b2n (waits i p) + k.
Proof. destruct (waits i p') eqn:E, (waits i p) eqn:F; simpl; lia. Qed.

(** The workers are part of those before. *)
Definition fewer (p p' : pool) : Prop :=
  ∀ a w', heap p' !! a = Some w' → ∃ w, heap p !! a = Some w ∧ w_id w' = w_id w ∧ w_serviceName w' = w_serviceName w.

Lemma fewer_known i p p' a' w' :
  pool_ok p → pool_ok p' → fewer p p' → workers p' !! i = Some a' → heap p' !! a' = Some w' →
  workers p !! i = Some a' ∧ ∃ w, heap p !! a' = Some w ∧ w_serviceName w' = w_serviceName w.
Proof.
  intros Hp Hp' Hf Ha Hw. destruct (Hf a' w' Hw) as (w & Hh & Hi & Hn). split; [|by exists w].
  destruct (po_workers p' Hp' i a' Ha) as (w'' & Hw'' & Hid). simplify_eq. rewrite Hi. by apply (po_heap p Hp).
Qed.

Lemma tracks_fewer i k p p' o :
  pool_ok p → pool_ok p' → fewer p p' → asked i o + Nat.b2n (waits i p') ≤ Nat.b2n (waits i p) + k →
  (∀ n, is_Some (services p !! n) → is_Some (services p' !! n)) → tracks i k nowhere p p' o.
Proof.
  intros Hp Hp' Hf Hc Hs. split; [done|done| |done]. intros a' w' Ha Hw. right.
  destruct (fewer_known i p p' a' w' Hp Hp' Hf Ha Hw) as (H1 & w & H2 & H3). eauto 10.
Qed.

(** Every waiting list is part of the one before. *)
Definition shrunk (p p' : pool) : Prop :=
  ∀ n svc', services p' !! n = Some svc' → ∃ svc, services p !! n = Some svc ∧ waiting svc' ⊆ waiting svc.

Lemma shrunk_waits i p p' : pool_ok p → pool_ok p' → fewer p p' → shrunk p p' → waits i p' = true → waits i p = true.
Proof.
  intros Hp Hp' Hf Hs Hw. apply waits_elim in Hw as (a & n & svc' & Ha & Hs' & Hin).
  destruct (Hs n svc' Hs') as (svc & Hsvc & Hsub). destruct (po_workers p' Hp' i a Ha) as (w' & Hw' & _).
  destruct (fewer_known i p p' a w' Hp Hp' Hf Ha Hw') as [H1 _]. by eapply (waits_intro i p a n svc); [..|apply Hsub].
Qed.

Lemma tracks_shrunk i p p' o :
  pool_ok p → pool_ok p' → fewer p p' → shrunk p p' → Forall silent o →
  (∀ n, is_Some (services p !! n) → is_Some (services p' !! n)) → tracks i 0 nowhere p p' o.
Proof.
  intros Hp Hp' Hf Hs Ho Hsv. apply tracks_fewer; [done..| |done]. rewrite asked_silent by done.
  apply credit_le. intros H. left. by eapply shrunk_waits.
Qed.

(** ** Dispatching *)

Lemma overdue_fewer now order p p' :
  (∀ a w, heap p' !! a = Some w ↔ heap p !! a = Some w ∧ ¬ overdue now order p a w) → fewer p p'.
Proof. intros H a w Hw%H. exists w. naive_solver. Qed.

Lemma tracks_purge i now order p p' :
  pool_ok p → walks order p → purgeWorkers now order p = Some p' → tracks i 0 nowhere p p' [].
Proof.
  intros Hp [Hnd Hor] H. destruct (purgeWorkers_spec now order p Hp Hnd) as (p1 & H1 & Hp1 & Hs & Hh); [intros n; apply Hor|].
  simplify_eq. apply tracks_shrunk; [done|done|by eapply overdue_fewer| |done|].
  - intros n svc'. rewrite Hs. case_decide; [|by eauto].
    intros (svc & Hsv & ->)%fmap_Some. exists svc. split; [done|]. simpl. intros a. rewrite list_elem_of_filter. tauto.
  - intros n Hn. rewrite Hs. case_decide; [by apply fmap_is_Some|done].
Qed.

Lemma asked_assign i w m : asked i [assign w m] ≤ (if decide (w_id w = i) then 1 else 0).
Proof.
  unfold asked, sent_to, assign, to_worker. cbn [omap list_omap to_peer]. destruct (w_socket w); cbn [sourceId];
    case_decide; unfold requests_in; simpl; try lia. rewrite filter_cons. case_decide; simpl; lia.
Qed.

(** Of the workers in a list one at most is the worker [i]; it gets one request at
    most, and none if it is still in the list. *)
Lemma asked_assigned i (hp : gmap nat worker) (F : list nat) ws reqs a0 :
  mapM (λ a, hp !! a) F = Some ws → NoDup F → (∀ a w, a ∈ F → hp !! a = Some w → w_id w = i → a = a0) →
  asked i (zip_with assign ws reqs) + (if decide (a0 ∈ drop (length reqs) F) then 1 else 0)
  ≤ (if decide (a0 ∈ F) then 1 else 0).
Proof.
  revert ws reqs. induction F as [|a F IH]; intros ws reqs Hws Hnd Hi.
  { injection Hws as <-. rewrite drop_nil. simpl. destruct (decide (a0 ∈ [])) as [H|H]; [by apply elem_of_nil in H|simpl; lia]. }
  apply NoDup_cons in Hnd as [Hna Hnd]. cbn in Hws. destruct (hp !! a) as [w|] eqn:Hw; [|done]. simpl in Hws.
  destruct (mapM _ F) as [ws'|] eqn:Hws'; [|done]. injection Hws as <-.
  destruct reqs as [|m reqs]; [cbn; lia|]. cbn [zip_with length drop]. rewrite asked_cons.
  pose proof (asked_assign i w m) as H1.
  specialize (IH ws' reqs eq_refl Hnd ltac:(intros b v Hb; apply Hi; by right)).
  pose proof (Hi a w ltac:(by left) Hw) as Ha. destruct (decide (w_id w = i)) as [Hid|Hid].
  - rewrite <- (Ha Hid) in *. rewrite (decide_False (P := a ∈ F)) in IH by done.
    rewrite (decide_True (P := a ∈ a :: F)) by (by left). lia.
  - destruct (decide (a0 ∈ F)) as [Hin|Hin]; [rewrite (decide_True (P := a0 ∈ a :: F)) by (by right); lia|].
    destruct (decide (a0 ∈ a :: F)); lia.
Qed.

Lemma tracks_dispatch i now order n p svc p' o :
  pool_ok p → walks order p → services p !! n = Some svc → dispatch now order n p = Some (p', o) →
  tracks i 0 nowhere p p' o.
Proof.
  intros Hp Hor Hsvc Hd.
  destruct (dispatch_lemma now order n p svc Hp Hor Hsvc) as (p1 & ws & Hd' & Hws & Hp' & _ & Hs' & Hoth & Hh).
  rewrite Hd in Hd'. simplify_eq. destruct Hs' as (svc' & Hs' & _ & Hw' & _).
  pose proof (overdue_fewer _ _ _ _ Hh) as Hf. set (F := filter (alive now (heap p)) (waiting svc)) in *.
  assert (HF : ∀ a, a ∈ F → a ∈ waiting svc) by (by intros a [_ ?]%list_elem_of_filter).
  assert (Hnd : NoDup F) by (apply NoDup_filter; by apply (po_nodup p Hp n)).
  apply tracks_fewer; [done|done|done| |].
  2:{ intros n' Hn'. destruct (decide (n' = n)) as [->|Hne]; [by eexists|]. rewrite Hoth by done. by apply fmap_is_Some. }
  pose proof (λ a0, asked_assigned i (heap p) F ws (pending svc) a0 Hws Hnd) as Hcount.
  assert (Hback : waits i p1 = true → ∃ a, workers p !! i = Some a ∧
    (a ∈ drop (length (pending svc)) F ∨ waits i p = true ∧ a ∉ F)).
  { intros (a & n' & s' & Ha & Hsv & Hin)%waits_elim. exists a. destruct (po_workers p1 Hp' i a Ha) as (w' & Hw1 & _).
    destruct (fewer_known i p p1 a w' Hp Hp' Hf Ha Hw1) as (Hwa & w & Hwh & _). split; [done|].
    destruct (decide (n' = n)) as [->|Hne]; [left; rewrite Hs' in Hsv; injection Hsv as <-; by rewrite <- Hw'|right].
    rewrite Hoth in Hsv by done. apply fmap_Some in Hsv as (s & Hs & ->). simpl in Hin.
    apply list_elem_of_filter in Hin as [_ Hin]. split; [by eapply waits_intro|]. intros Hin'%HF.
    destruct (po_waiting p Hp _ _ _ Hs Hin) as (v & Hv & Hvn), (po_waiting p Hp _ _ _ Hsvc Hin') as (u & Hu & Hun). congruence. }
  destruct (workers p !! i) as [ai|] eqn:Hai.
  - specialize (Hcount ai). assert (Huniq : ∀ a w, a ∈ F → heap p !! a = Some w → w_id w = i → a = ai).
    { intros a w _ Hw Hid. apply (po_heap p Hp) in Hw. rewrite Hid in Hw. congruence. }
    specialize (Hcount Huniq). assert (Hwp : ai ∈ F → waits i p = true) by (intros Hin%HF; by eapply waits_intro).
    destruct (waits i p1) eqn:Hw1.
    + destruct (Hback eq_refl) as (a & [= <-] & [Hin|[Hwt Hnin]]).
      * assert (ai ∈ F) as HinF by (by eapply elem_of_submseteq, sublist_submseteq, sublist_drop).
        rewrite Hwp by done. rewrite (decide_True (P := ai ∈ drop _ _)), (decide_True (P := ai ∈ F)) in Hcount by done. simpl. lia.
      * rewrite Hwt. rewrite (decide_False (P := ai ∈ F)) in Hcount by done. simpl. lia.
    + destruct (decide (ai ∈ F)) as [Hin|Hin]; [rewrite Hwp by done|]; simpl; lia.
  - destruct (waits i p1) eqn:Hw1; [by destruct (Hback eq_refl) as (a & [=] & _)|].
    specialize (Hcount (next_address p)). assert (next_address p ∉ F) as Hfresh.
    { intros Hin%HF. destruct (po_waiting p Hp _ _ _ Hsvc Hin) as (w & Hw & _). apply (po_next p Hp) in Hw. lia. }
    rewrite (decide_False (P := _ ∈ F)) in Hcount by done. simpl.
    assert (Huniq : ∀ a w, a ∈ F → heap p !! a = Some w → w_id w = i → a = next_address p).
    { intros a w _ Hw Hid. apply (po_heap p Hp) in Hw. rewrite Hid in Hw. congruence. }
    specialize (Hcount Huniq). lia.
Qed.

(** ** The other operations of the pool *)

Lemma tracks_put_request (order : walk) i m n now p p' o :
  WalkOrder order → pool_ok p → put_request m n now order p = Some (p', o) → tracks i 0 nowhere p p' o.
Proof.
  intros Ho Hp H. unfold put_request in H. apply bind_Some in H as (svc & Hsvc & H).
  assert (Hp1 : pool_ok (update_service n (putMessage m) p)).
  { apply pool_ok_update; [done|done|]. intros s. apply putMessage_ok. }
  set (p1 := update_service n (putMessage m) p) in *.
  apply (tracks_trans i 0 0 nowhere p p1 p' [] o).
  - apply tracks_shrunk; [done|done|by intros a w Hw; exists w| |done|].
    + intros n' s'. unfold p1. rewrite lookup_update_service. case_decide; [|by eauto].
      intros (s & Hs & ->)%fmap_Some. by exists s.
    + intros n' Hn'. unfold p1. rewrite lookup_update_service. case_decide; [by apply fmap_is_Some|done].
  - apply (tracks_dispatch i now (order (services p1)) n p1 (putMessage m svc)); [done|by apply walks_order| |done].
    unfold p1. by rewrite lookup_update_service, decide_True, Hsvc.
Qed.

Lemma tracks_workerWaiting (order : walk) i e now a p p' o w :
  WalkOrder order → pool_ok p → heap p !! a = Some w → idle p a → workerWaiting e now order a p = Some (p', o) →
  tracks i (if decide (w_id w = i) then 1 else 0) nowhere p p' o.
Proof.
  intros Ho Hp Ha Hidle H. unfold workerWaiting in H. rewrite Ha in H. cbn [mbind option_bind] in H.
  apply bind_Some in H as (svc & Hsvc & H). pose proof (pool_ok_wait p a w svc e Hp Ha Hsvc Hidle) as Hp2.
  set (p2 := mkpool _ _ _ _) in *.
  change (mkpool _ _ _ _) with p2 in H. replace (if decide _ then _ else _) with ((if decide (w_id w = i) then 1 else 0) + 0) by lia.
  assert (Hsv : ∀ n s', services p2 !! n = Some s' →
    ∃ s, services p !! n = Some s ∧ ∀ b, b ∈ waiting s' → b = a ∨ b ∈ waiting s).
  { intros n s'. unfold p2. simpl. rewrite lookup_alter. case_decide as E; [|by eauto].
    subst n. rewrite Hsvc. intros [= <-]. exists svc. split; [done|]. intros b. simpl. set_solver. }
  assert (Hf : fewer p p2).
  { intros b v. unfold p2. simpl. intros [[<- <-]|[_ Hb]]%lookup_insert_Some; eauto. }
  apply (tracks_trans i _ 0 nowhere p p2 p' [] o).
  - apply tracks_fewer; [done|done|done| |].
    + rewrite asked_silent by done. apply credit_le. intros (b & n & s' & Hb & Hs & Hin)%waits_elim.
      destruct (Hsv n s' Hs) as (s & Hs0 & Hor). change (workers p !! i = Some b) in Hb.
      destruct (Hor b Hin) as [->|Hin']; [right|left; by eapply waits_intro].
      destruct (po_workers p Hp i a Hb) as (w1 & Hw1 & Hid). simplify_eq. by rewrite decide_True.
    + intros n Hn. unfold p2. simpl. rewrite lookup_alter. case_decide; [by apply fmap_is_Some|done].
  - apply (tracks_dispatch i now (order (services p2)) (w_serviceName w) p2 (set_waiting (waiting svc ++ [a]) svc));
      [done|by apply walks_order| |done].
    unfold p2. simpl. by rewrite lookup_alter_eq, Hsvc.
Qed.

Lemma tracks_emplace i sock src nm e p :
  pool_ok p → tracks i 0 (λ n, src = i ∧ n = nm) p (emplace_worker sock src nm e p).2 [].
Proof.
  intros Hp. pose proof (emplace_worker_ok sock src nm e p Hp) as He. unfold emplace_worker in *.
  destruct (workers p !! src) as [a|] eqn:Hsrc.
  { eapply tracks_weaken; [by apply tracks_refl|done|by intros]. }
  destruct He as (Hp1 & _ & _ & Hnew & _). destruct (Hnew eq_refl) as [Hi _]. simpl. split; [done| | |done].
  - rewrite asked_silent by done. apply credit_le. intros (a & n & svc & Ha & Hs & Hin)%waits_elim. left.
    simpl in Ha, Hs. apply lookup_insert_Some in Ha as [[-> <-]|[_ Ha]]; [by destruct (Hi n svc Hs)|by eapply waits_intro].
  - simpl. intros a w [[<- <-]|[Hne Ha]]%lookup_insert_Some.
    + rewrite lookup_insert_eq. intros [= <-]. by left.
    + intros [[<- _]|[_ Hw]]%lookup_insert_Some; [|by eauto 10].
      destruct (po_workers p Hp i _ Ha) as (v & Hv & _). apply (po_next p Hp) in Hv. lia.
Qed.

Lemma tracks_require i roles nm desc p : pool_ok p → tracks i 0 nowhere p (requireService roles nm desc p) [].
Proof.
  intros Hp. destruct (requireService_ok roles nm desc p Hp) as (Hp1 & Hh & Hw & _ & Hi).
  apply tracks_fewer; [done|done|intros a w; rewrite Hh; by eauto| |].
  - rewrite asked_silent by done. apply credit_le. intros (a & n & svc & Ha & Hs & Hin)%waits_elim. left.
    rewrite Hw in Ha. destruct (waits i p) eqn:Hwp; [done|]. by destruct (Hi a (waits_idle i p a Hp Ha Hwp) n svc Hs).
  - intros n Hn. unfold requireService. destruct (services p !! nm) as [s|]; [done|]. simpl.
    rewrite lookup_insert. by case_decide.
Qed.

Lemma delete_worker_spec p p' a w :
  heap p !! a = Some w → deleteWorker a p = Some p' → pool_ok p →
  workers p' = delete (w_id w) (workers p) ∧ heap p' = delete a (heap p)
  ∧ services p' = alter (λ s, set_waiting (filter (λ x, x ≠ a) (waiting s)) s) (w_serviceName w) (services p).
Proof.
  intros Ha H Hp. unfold deleteWorker in H. rewrite Ha in H. cbn [mbind option_bind] in H. injection H as <-.
  unfold erase_worker. cbn. by rewrite (po_heap p Hp a w Ha).
Qed.

Lemma tracks_disconnect i u a w p p' o :
  pool_ok p → heap p !! a = Some w → disconnectWorker u a p = Some (p', o) →
  tracks i 0 nowhere p p' o ∧ workers p' !! w_id w = None.
Proof.
  intros Hp Ha H. unfold disconnectWorker in H. rewrite Ha in H. cbn [mbind option_bind] in H.
  apply bind_Some in H as (p1 & Hd & [= <- <-]). destruct (deleteWorker_ok p a w Hp Ha) as (p2 & Hd' & Hp1).
  rewrite Hd in Hd'. injection Hd' as <-. destruct (delete_worker_spec p p1 a w Ha Hd Hp) as (H1 & H2 & H3).
  split; [|by rewrite H1, lookup_delete_eq]. apply tracks_shrunk; [done|done| | |by repeat constructor|].
  - intros b v. rewrite H2. intros [_ Hb]%lookup_delete_Some. eauto.
  - intros n s'. rewrite H3, lookup_alter. case_decide as E; [subst n|by eauto]. intros (s & Hs & ->)%fmap_Some. exists s.
    split; [done|]. simpl. intros b. rewrite list_elem_of_filter. tauto.
  - intros n Hn. rewrite H3, lookup_alter. case_decide as E; [subst n; by apply fmap_is_Some|done].
Qed.

Lemma tracks_expiry i p a w e :
  pool_ok p → heap p !! a = Some w →
  tracks i 0 nowhere p (mkpool (workers p) (<[a := set_expiry e w]> (heap p)) (next_address p) (services p)) [].
Proof.
  intros Hp Ha. apply tracks_shrunk; [done|by apply pool_ok_expiry| |by intros n s Hs; exists s|done|done].
  intros b v. simpl. intros [[<- <-]|[_ Hb]]%lookup_insert_Some; eauto.
Qed.

(** ** The handlers *)

(** Only requests of clients are in the queues of the clients. *)
Record calm (b : broker) : Prop := {
  calm_pool : pool_ok (b_pool b);
  calm_queues i c m : b_clients b !! i = Some c → m ∈ requests c → protocolName m = clientProtocol
}.

Definition follows (i : bytes) (k : nat) (X : bytes → Prop) (b b' : broker) : Prop :=
  calm b → calm b' ∧ ∃ o, b_out b' = b_out b ++ o ∧ tracks i k X (b_pool b) (b_pool b') o.

Definition quiet (i : bytes) : broker → broker → Prop := follows i 0 nowhere.

Lemma follows_trans i k k' X b b1 b2 : follows i k X b b1 → follows i k' X b1 b2 → follows i (k + k') X b b2.
Proof.
  intros H H' Hc. destruct (H Hc) as (Hc1 & o & Ho & Ht). destruct (H' Hc1) as (Hc2 & o' & Ho' & Ht').
  split; [done|]. exists (o ++ o'). split; [by rewrite Ho', Ho, app_assoc|]. by eapply tracks_trans.
Qed.

Lemma follows_weaken i k k' (X Y : bytes → Prop) b b' :
  follows i k X b b' → k ≤ k' → (∀ n, X n → Y n) → follows i k' Y b b'.
Proof.
  intros H Hk HX Hc. destruct (H Hc) as (Hc1 & o & Ho & Ht). split; [done|]. exists o. split; [done|].
  by eapply tracks_weaken.
Qed.

Lemma quiet_follows i k X b b' : quiet i b b' → follows i k X b b'.
Proof. intros H. eapply follows_weaken; [exact H|lia|by intros]. Qed.

Lemma quiet_out i b b' o :
  b_pool b' = b_pool b → b_clients b' = b_clients b → b_out b' = b_out b ++ o → Forall silent o → quiet i b b'.
Proof.
  intros Hp Hcl Ho Hs [Hok Hq]. split; [split; rewrite ?Hp, ?Hcl; done|]. exists o. split; [done|].
  rewrite Hp. by apply tracks_refl.
Qed.

Lemma quiet_same i b b' :
  b_pool b' = b_pool b → b_clients b' = b_clients b → b_out b' = b_out b → quiet i b b'.
Proof. intros Hp Hcl Ho. apply (quiet_out i b b' []); [done|done|by rewrite app_nil_r|done]. Qed.

#[export] Instance quiet_preorder i : PreOrder (quiet i).
Proof.
  split; [intros b; by apply quiet_same|]. intros b b1 b2 H H'. apply (follows_trans i 0 0 nowhere b b1 b2 H H').
Qed.

#[export] Hint Extern 1 (quiet _ _ _) => apply quiet_same; reflexivity : keeps.

Lemma quiet_clock i E : keeps (quiet i) (now E).
Proof. intros b. by apply quiet_same. Qed.

Lemma quiet_emit i o : Forall silent o → keeps (quiet i) (emit o).
Proof. intros Ho b. by apply (quiet_out i _ _ o). Qed.

Lemma quiet_send i s m : wants_reply m = false → keeps (quiet i) (emit [Send s m]).
Proof. intros H. apply quiet_emit. by repeat constructor. Qed.

Lemma quiet_with_pool i g :
  (∀ p p' o, pool_ok p → g p = Some (p', o) → tracks i 0 nowhere p p' o) → keeps (quiet i) (with_pool g).
Proof.
  intros Hg b. unfold with_pool. destruct (g (b_pool b)) as [[p' o]|] eqn:H; [|by apply quiet_same].
  intros [Hok Hq]. specialize (Hg _ _ _ Hok H). split; [split; [by apply (tr_ok _ _ _ _ _ _ Hg)|done]|]. by exists o.
Qed.

Lemma quiet_with_tables i g : (∀ t, Forall silent (g t).2) → keeps (quiet i) (with_tables g).
Proof.
  intros Hg. unfold with_tables. apply keeps_modify. intros b. specialize (Hg (b_tables b)).
  destruct (g (b_tables b)) as [t o]. by apply (quiet_out i _ _ o).
Qed.

#[export] Hint Resolve quiet_clock quiet_emit quiet_send quiet_with_pool quiet_with_tables : keeps.
#[export] Hint Extern 1 (Forall silent _) => repeat constructor : keeps.
#[export] Hint Extern 1 (wants_reply _ = false) => reflexivity : keeps.

Lemma keeps_bind_val {A B} R `{!PreOrder R} (P : A → Prop) (m : M A) (k : A → M B) :
  keeps R m → (∀ b a, (m b).1 = Val a → P a) → (∀ a, P a → keeps R (k a)) → keeps R (m ≫= k).
Proof.
  intros Hm HP Hk b. unfold mbind, M_bind. specialize (Hm b). specialize (HP b).
  destruct (m b) as [[a|e|] b']; [|done|done]. simpl in *. etrans; [done|]. by apply Hk, HP.
Qed.

Section handlers.
Context (E : environment) (HE : WalkOrder (walk_services E)) (i : bytes).

Lemma quiet_expiry :
  keeps (quiet i) (updatedClientExpiry E) ∧ keeps (quiet i) (updatedWorkerExpiry E) ∧ keeps (quiet i) (updatedDnsExpiry E).
Proof using Type. split_and!; unfold updatedClientExpiry, updatedWorkerExpiry, updatedDnsExpiry; auto with keeps. Qed.

Lemma quiet_dns_expiry : keeps (quiet i) (updatedDnsExpiry E).
Proof using Type. apply quiet_expiry. Qed.
Lemma quiet_client_expiry : keeps (quiet i) (updatedClientExpiry E).
Proof using Type. apply quiet_expiry. Qed.

Lemma quiet_emplace_dns k a n : keeps (quiet i) (emplace_dns k a n).
Proof using Type. unfold emplace_dns. apply keeps_bind; [apply _|auto with keeps|]. intros c. destruct (c !! k); auto with keeps. Qed.
Lemma quiet_insert_uri k u : keeps (quiet i) (insert_uri k u).
Proof using Type. unfold insert_uri. auto with keeps. Qed.
Lemma quiet_set_dns_expiry k e : keeps (quiet i) (set_dns_expiry k e).
Proof using Type. unfold set_dns_expiry. auto with keeps. Qed.

Lemma quiet_register_address s a : keeps (quiet i) (register_address E s a).
Proof using Type.
  pose proof quiet_dns_expiry. pose proof quiet_emplace_dns. pose proof quiet_insert_uri. pose proof quiet_set_dns_expiry.
  unfold register_address, registerWithDnsServices. auto 20 with keeps.
Qed.

Lemma quiet_registerNewService n : keeps (quiet i) (registerNewService E n).
Proof using Type. pose proof quiet_register_address. unfold registerNewService. auto with keeps. Qed.

Lemma quiet_sendDnsHeartbeats force : keeps (quiet i) (sendDnsHeartbeats E force).
Proof using Type.
  pose proof quiet_register_address. pose proof quiet_registerNewService. unfold sendDnsHeartbeats.
  apply keeps_bind; [apply _|auto with keeps|]. intros t. apply keeps_bind; [apply _|auto with keeps|]. intros b.
  destruct (_ || _); auto with keeps.
Qed.

Lemma quiet_registerDnsAddress u : keeps (quiet i) (registerDnsAddress E u).
Proof using Type.
  pose proof quiet_emplace_dns. pose proof quiet_insert_uri. pose proof quiet_sendDnsHeartbeats.
  unfold registerDnsAddress. auto 20 with keeps.
Qed.

(** *** Clients *)

Lemma of_client {f} (m : message f) : protocolName m = clientProtocol → wants_reply m = false.
Proof using Type. unfold wants_reply. by intros ->. Qed.

Lemma quiet_answer c m : wants_reply m = false → keeps (quiet i) (answer E c m).
Proof using Type.
  intros Hm. unfold answer. case_bool_decide; [destruct (hasRest E)|destruct (c_socket c)]; auto with keeps.
Qed.

Lemma quiet_enqueue c m : protocolName m = clientProtocol → requests c = [] → keeps (quiet i) (enqueue c m).
Proof using Type.
  intros Hm Hc b [Hok Hq].
  split; [split; [done|]|by exists []; rewrite app_nil_r; split; [|apply tracks_refl]].
  intros j c' m'. simpl. intros [[<- <-]|[_ Hj]]%lookup_insert_Some; [|by apply (Hq j)]. simpl.
  intros [Hin| ->%list_elem_of_singleton]%elem_of_app; [|done].
  destruct (b_clients b !! c_id c) as [c1|] eqn:Hc1; simpl in Hin.
  - by apply (Hq (c_id c) c1).
  - rewrite Hc in Hin. by apply elem_of_nil in Hin.
Qed.

Lemma silent_subscribe src t s : Forall silent (client_subscribe src t s).2.
Proof using Type. unfold client_subscribe, subscribe. case_match; simpl; by repeat constructor. Qed.

Lemma silent_unsubscribe src t s : Forall silent (client_unsubscribe src t s).2.
Proof using Type.
  unfold client_unsubscribe, unsubscribe. repeat case_match; simplify_eq/=; repeat (apply Forall_cons_2; [done|]); apply Forall_nil_2.
Qed.

Lemma quiet_receive_client sock m : protocolName m = clientProtocol → keeps (quiet i) (receive_client E sock m).
Proof using Type.
  intros Hm. pose proof quiet_emplace_dns. pose proof quiet_insert_uri. pose proof quiet_set_dns_expiry.
  pose proof quiet_dns_expiry. pose proof quiet_client_expiry. pose proof quiet_sendDnsHeartbeats.
  pose proof silent_subscribe. pose proof silent_unsubscribe.
  assert (Hq : ∀ e, keeps (quiet i) (enqueue (mkclient (Some sock) (sourceId m) [] e) m)) by (intros e; by apply quiet_enqueue).
  unfold receive_client. destruct (command m); auto 20 with keeps.
  - apply keeps_bind; [apply _|auto with keeps|]. intros u. destruct (returnOpt _); auto 20 with keeps.
  - destruct (fromMdpTopic _ _ _); auto with keeps.
  - destruct (fromMdpTopic _ _ _); auto with keeps.
Qed.

Lemma quiet_handleRestMessage m : keeps (quiet i) (handleRestMessage E m).
Proof using Type.
  pose proof silent_subscribe. pose proof silent_unsubscribe. unfold handleRestMessage. cbv zeta.
  destruct (command _); auto with keeps; try (by apply quiet_enqueue); destruct (fromMdpTopic _ _ _); auto with keeps.
Qed.

Lemma quiet_receivePub f : keeps (quiet i) (receivePub E f).
Proof using Type.
  unfold receivePub. destruct f as [d|]; [|auto with keeps]. intros b.
  destruct (receivePubMessage _ d (b_tables b)) as [[r t] o] eqn:Hr. apply (quiet_out i _ _ o); [done|done|done|].
  revert Hr. unfold receivePubMessage, subscribe, unsubscribe. repeat case_match; intros; simplify_eq; by repeat constructor.
Qed.

(** *** Serving *)

Lemma run_internal_protocol h m b r : (run_internal E h m b).1 = Val r → protocolName r = protocolName m.
Proof using Type.
  destruct h; unfold run_internal, mmi_dns, mbind, M_bind, gets, lift, mret, M_ret, compose; simpl.
  - match goal with |- context [match ?x with Ok a => Val a | Throw e => Exn e end] => destruct x end; simpl; [by intros [= <-]|done].
  - by intros [= <-].
  - intros [= <-]. by destruct (is_nil (data m)).
  - intros [= <-]. by destruct (services (b_pool b) !! data m).
Qed.

Lemma quiet_run_internal h m : keeps (quiet i) (run_internal E h m).
Proof using Type. destruct h; unfold run_internal, mmi_dns; auto 10 with keeps. Qed.

(** The access control of the broker does not change the protocol of a message. *)
Definition keeps_protocol : Prop := ∀ h m, rbacHandler E = Some h → protocolName (h m) = protocolName m.

Lemma quiet_serve c m : keeps_protocol → protocolName m = clientProtocol → keeps (quiet i) (serve E c m).
Proof using HE.
  intros Hr Hm. unfold serve. cbv zeta. set (m' := match rbacHandler E with Some h => h m | None => m end).
  assert (Hm' : protocolName m' = clientProtocol).
  { unfold m'. destruct (rbacHandler E) as [h|] eqn:Hh; [|done]. by rewrite (Hr h m Hh). }
  apply keeps_bind; [apply _|auto with keeps|]. intros p. destruct (bestMatchingService _ _) as [n|].
  - destruct (services p !! n ≫= internalHandler) as [h|].
    + eapply (keeps_bind_val _ (λ r, protocolName r = clientProtocol)); [apply quiet_run_internal| |].
      * intros b r Hr'. apply run_internal_protocol in Hr'. congruence.
      * intros r Hp. apply keeps_bind; [apply _|by apply quiet_answer, of_client|auto with keeps].
    + apply keeps_bind; [apply _|auto with keeps|]. intros t. apply keeps_bind; [apply _| |auto with keeps].
      apply quiet_with_pool. intros q q' o Hq Hput. by eapply tracks_put_request.
  - apply keeps_bind; [apply _|by apply quiet_answer, of_client|auto with keeps].
Qed.

Lemma quiet_serve_clients order : keeps_protocol → keeps (quiet i) (serve_clients E order).
Proof using HE.
  intros Hr. induction order as [|j order IH]; [apply keeps_ret; apply _|]. cbn [serve_clients]. intros b.
  unfold mbind, M_bind at 1, gets. destruct (b_clients b !! j) as [c|] eqn:Hc; [|apply IH].
  destruct (requests c) as [|m rest] eqn:Hq; [apply IH|]. intros Hcalm.
  assert (Hm : protocolName m = clientProtocol).
  { apply (calm_queues b Hcalm j c); [done|]. rewrite Hq. by left. }
  set (b1 := set_clients (<[j := mkclient (c_socket c) (c_id c) rest (c_expiry c)]> (b_clients b)) b).
  assert (Hb1 : quiet i b b1).
  { intros [Hok Hqs]. split; [split; [done|]|by exists []; rewrite app_nil_r; split; [|apply tracks_refl]].
    intros j' c' m'. simpl. intros [[<- <-]|[_ Hj]]%lookup_insert_Some; [|by apply (Hqs j')]. simpl. intros Hin.
    apply (Hqs j c); [done|]. rewrite Hq. by right. }
  assert (Hrest : keeps (quiet i) (stop ← serve E c m; if stop : bool then mret () else serve_clients E order)).
  { apply keeps_bind; [apply _|by apply quiet_serve|]. intros [|]; auto with keeps. }
  revert Hcalm. change (quiet i b ((stop ← serve E c m; if stop : bool then mret () else serve_clients E order) b1).2).
  etrans; [exact Hb1|apply Hrest].
Qed.

(** *** Maintenance *)

Lemma quiet_purge_workers : keeps (quiet i) (purge_workers E).
Proof using HE.
  unfold purge_workers. apply keeps_bind; [apply _|auto with keeps|]. intros t. apply quiet_with_pool.
  intros p p' o Hp (p1 & H & [= <- <-])%bind_Some. eapply tracks_purge; [done| |done]. by apply walks_order.
Qed.

Lemma quiet_purgeClients : keeps (quiet i) (purgeClients E).
Proof using Type.
  unfold purgeClients. destruct (_ =? _)%Z; [auto with keeps|]. apply keeps_bind; [apply _|auto with keeps|].
  intros t. apply keeps_modify. intros b [Hok Hq].
  split; [split; [done|]|by exists []; rewrite app_nil_r; split; [|apply tracks_refl]].
  intros j c m. simpl. intros [Hj _]%map_lookup_filter_Some. by apply (Hq j).
Qed.

Lemma silent_heartbeats order p o : heartbeats (uninit_id E) order p = Some o → Forall silent o.
Proof using Type.
  unfold heartbeats. intros (os & Hos & ->)%fmap_Some. apply mapM_Some in Hos.
  induction Hos as [|n x ns os Hx _ IH]; [constructor|]. simpl. apply Forall_app. split; [|done].
  unfold service_heartbeats in Hx. apply bind_Some in Hx as (svc & _ & Hx). apply mapM_Some in Hx.
  induction Hx as [|a y l ys Hy _ IH']; constructor; [|done]. apply bind_Some in Hy as (w & _ & [= <-]). done.
Qed.

Lemma quiet_sendHeartbeats : keeps (quiet i) (sendHeartbeats E).
Proof using Type.
  unfold sendHeartbeats. apply keeps_bind; [apply _|auto with keeps|]. intros t.
  apply keeps_bind; [apply _|auto with keeps|]. intros b. destruct (_ <? _)%Z; [auto with keeps|].
  apply keeps_bind; [apply _| |auto with keeps]. apply quiet_with_pool.
  intros p p' o Hp (x & H & [= <- <-])%bind_Some. apply tracks_refl; [done|]. by eapply silent_heartbeats.
Qed.

Lemma quiet_challenge e k : keeps (quiet i) (challenge_service E e k).
Proof using Type.
  pose proof quiet_set_dns_expiry. unfold challenge_service. apply keeps_bind; [apply _|auto with keeps|]. intros c.
  destruct (c !! k); [|auto with keeps]. case_bool_decide; auto with keeps.
Qed.

Lemma quiet_purgeDnsServices : keeps (quiet i) (purgeDnsServices E).
Proof using Type.
  pose proof quiet_challenge. pose proof quiet_sendDnsHeartbeats. pose proof quiet_dns_expiry.
  unfold purgeDnsServices. apply keeps_bind; [apply _|auto with keeps|]. intros t.
  apply keeps_bind; [apply _|auto with keeps|]. intros b. destruct (_ <? _)%Z; auto 10 with keeps.
Qed.
End handlers.

(** ** Messages of workers *)

Definition follows_in {A} (i : bytes) (k : nat) (X : bytes → Prop) (p : pool) (m : M A) : Prop :=
  ∀ b, b_pool b = p → follows i k X b (m b).2.

Lemma follows_in_quiet {A} i k X p (m : M A) : keeps (quiet i) m → follows_in i k X p m.
Proof. intros H b _. by apply quiet_follows. Qed.

Lemma follows_in_weaken {A} i k k' (X Y : bytes → Prop) p (m : M A) :
  follows_in i k X p m → k ≤ k' → (∀ n, X n → Y n) → follows_in i k' Y p m.
Proof. intros H Hk HX b Hb. eapply follows_weaken; [by apply H|done|done]. Qed.

Lemma follows_in_bind {A B} i k X p (m : M A) (f : A → M B) :
  follows_in i k X p m → (∀ a, keeps (quiet i) (f a)) → follows_in i k X p (m ≫= f).
Proof.
  intros Hm Hf b Hb. unfold mbind, M_bind. specialize (Hm b Hb). destruct (m b) as [[a|e|] b']; [|done|done].
  rewrite <- (Nat.add_0_r k). eapply follows_trans; [exact Hm|]. by apply quiet_follows, Hf.
Qed.

Lemma follows_in_frame {A B} i k X p (m : M A) (f : A → M B) :
  keeps (quiet i) m → (∀ b, b_pool (m b).2 = b_pool b) → (∀ a, follows_in i k X p (f a)) → follows_in i k X p (m ≫= f).
Proof.
  intros Hm Hp Hf b Hb. unfold mbind, M_bind. specialize (Hm b). specialize (Hp b).
  destruct (m b) as [[a|e|] b']; simpl in *; [|by apply quiet_follows..].
  apply (follows_trans i 0 k X b b'); [by apply quiet_follows|]. apply Hf. congruence.
Qed.

Lemma follows_in_set_pool {B} i k k' X p g (f : () → M B) :
  (pool_ok p → tracks i k X p (g p) []) → follows_in i k' X (g p) (f ()) →
  follows_in i (k + k') X p (modify (λ b, set_pool (g (b_pool b)) b) ≫= f).
Proof.
  intros Ht Hf b Hb. unfold mbind, M_bind, modify. eapply follows_trans; [|apply Hf; simpl; by rewrite Hb].
  intros [Hok Hq]. rewrite Hb in Hok. specialize (Ht Hok). split; [split; simpl; [rewrite Hb; by apply (tr_ok _ _ _ _ _ _ Ht)|done]|].
  exists []. simpl. rewrite Hb, app_nil_r. done.
Qed.

Lemma follows_in_with_pool i k X p g :
  (∀ p' o, pool_ok p → g p = Some (p', o) → tracks i k X p p' o) → follows_in i k X p (with_pool g).
Proof.
  intros Hg b Hb. unfold with_pool. rewrite Hb. destruct (g p) as [[p' o]|] eqn:H; [|by apply quiet_follows, quiet_same].
  intros [Hok Hq]. rewrite Hb in Hok. specialize (Hg p' o Hok eq_refl).
  split; [split; [by apply (tr_ok _ _ _ _ _ _ Hg)|done]|]. exists o. simpl. by rewrite Hb.
Qed.

Lemma follows_in_read {B} i k X p (f : pool → M B) : follows_in i k X p (f p) → follows_in i k X p (gets b_pool ≫= f).
Proof. intros Hf b Hb. unfold mbind, M_bind, gets. rewrite Hb. by apply Hf. Qed.

Lemma follows_in_deref {B} i k X p a w (f : worker → M B) :
  heap p !! a = Some w → follows_in i k X p (f w) → follows_in i k X p (deref a ≫= f).
Proof. intros Ha Hf b Hb. unfold deref, mbind, M_bind, gets. rewrite Hb, Ha. by apply Hf. Qed.

Section workers.
Context (E : environment) (HE : WalkOrder (walk_services E)) (i : bytes).

Lemma follows_in_waiting p a w :
  heap p !! a = Some w → idle p a →
  follows_in i (if decide (w_id w = i) then 1 else 0) nowhere p (pool_workerWaiting E a).
Proof using HE.
  intros Ha Hi. unfold pool_workerWaiting. apply follows_in_frame; [apply quiet_expiry|by intros b|]. intros e.
  apply follows_in_frame; [auto with keeps|by intros b|]. intros t.
  apply follows_in_with_pool. intros p' o Hp Hw. by eapply tracks_workerWaiting.
Qed.

Lemma follows_in_reply p a w m :
  heap p !! a = Some w → idle p a →
  follows_in i (if decide (w_id w = i) then 1 else 0) nowhere p (worker_reply E a m).
Proof using HE.
  intros Ha Hi. unfold worker_reply. apply follows_in_frame; [auto with keeps|by intros b|]. intros cs.
  destruct (cs !! serviceName m) as [c|]; [|apply follows_in_quiet; auto with keeps].
  apply (follows_in_deref _ _ _ _ _ w); [done|]. cbv zeta.
  apply follows_in_frame; [| |intros _; by apply follows_in_waiting].
  - case_bool_decide; [destruct (hasRest E)|destruct (c_socket c)]; auto with keeps.
  - intros b. case_bool_decide; [by destruct (hasRest E)|by destruct (c_socket c)].
Qed.

Lemma silent_to_subscribers u rest mm topics m t :
  protocolName m = clientProtocol → Forall silent (dispatchMessageToMatchingSubscribers u rest mm topics m t).
Proof using Type.
  intros Hm. assert (Hs : ∀ src, wants_reply (set_source src m) = false) by (intros src; by apply of_client).
  unfold dispatchMessageToMatchingSubscribers. destruct (fromMdpTopic _ _ _) as [n|]; [|constructor].
  apply Forall_concat, Forall_fmap, Forall_true. intros t'. unfold compose, to_topic.
  destruct (match_topics mm n t'); [|constructor]. constructor; [apply Hs|].
  destruct (subscribedClientsByTopic t !! t') as [ids|]; [|constructor].
  apply Forall_concat, Forall_fmap, Forall_true. intros j. unfold compose, to_client.
  case_bool_decide; [destruct rest; by repeat constructor|]. constructor; [apply Hs|constructor].
Qed.

(** What the message brings: a credit, and the first sight of a worker. *)
Definition credit_of (m : BrokerMessage) : nat :=
  match command m with Ready | Partial | Final => if decide ((sourceId m : bytes) = i) then 1 else 0 | _ => 0 end.

Definition first_sight (m : BrokerMessage) (n : bytes) : Prop :=
  (sourceId m : bytes) = i ∧ n = serviceName m ∧ command m ∉ [Partial; Final; Heartbeat].

(** An unknown worker is told to leave: it is as unknown as before. *)
Lemma follows_in_unknown sock (m : BrokerMessage) e p :
  workers p !! (sourceId m : bytes) = None →
  let '(a, _, p1) := emplace_worker sock (sourceId m) (serviceName m) e p in
  follows_in i 0 nowhere p (modify (set_pool p1) ;; with_pool (disconnectWorker (uninit_id E) a)).
Proof using Type.
  intros Hun. pose proof (λ H, tracks_emplace i sock (sourceId m) (serviceName m) e p H) as Ht.
  pose proof (λ H, emplace_worker_ok sock (sourceId m) (serviceName m) e p H) as Hok.
  unfold emplace_worker in *. rewrite Hun in *. simpl in Ht.
  set (p1 := mkpool _ _ _ _) in *. set (w := mkworker _ _ _ _) in *.
  intros b Hb [Hp Hq]. rewrite Hb in Hp. destruct (Hok Hp) as (Hp1 & _ & _ & Hnew & _).
  destruct (Hnew eq_refl) as [_ Hw]. unfold mbind, M_bind, modify, with_pool. cbn [b_pool set_pool].
  destruct (deleteWorker_ok p1 _ w Hp1 Hw) as (p2 & Hdel & Hp2).
  assert (Hd : disconnectWorker (uninit_id E) (next_address p) p1 = Some (p2, [Send (w_socket w) (disconnect_message (uninit_id E) w)])).
  { unfold disconnectWorker. rewrite Hw. cbn [mbind option_bind]. by rewrite Hdel. }
  rewrite Hd. destruct (tracks_disconnect i _ _ w p1 p2 _ Hp1 Hw Hd) as [Ht2 Hnone].
  pose proof (tracks_trans _ _ _ _ _ _ _ _ _ (Ht Hp) (tracks_weaken _ 0 0 _ _ _ _ _ Ht2 ltac:(lia) (λ n (H : nowhere n), False_ind _ H))) as Htt.
  split; [by split|]. eexists. split; [reflexivity|]. simpl. rewrite Hb.
  destruct Htt as [H1 H2 H3 H4]. split; [done|done| |done].
  intros a' w' Ha' Hw'. right. destruct (H3 a' w' Ha' Hw') as [[<- _]|?]; [|done]. simpl in Hnone. congruence.
Qed.

Lemma follows_processWorker sock (m : BrokerMessage) p :
  pool_ok p → polite m p → follows_in i (credit_of m) (first_sight m) p (processWorker E sock m).
Proof using HE.
  intros Hp Hpol. unfold processWorker. apply follows_in_frame; [apply quiet_expiry|by intros b|]. intros e.
  apply follows_in_read. pose proof (emplace_worker_ok sock (sourceId m) (serviceName m) e p Hp) as He.
  pose proof (safe_worker_ready E sock m e p Hp) as Hready.
  pose proof (follows_in_unknown sock m e p) as Hunknown. pose proof (tracks_emplace i sock (sourceId m) (serviceName m) e p) as Htr.
  assert (Hknown : ∀ a, workers p !! (sourceId m : bytes) = Some a →
            emplace_worker sock (sourceId m) (serviceName m) e p = (a, true, p)) by (intros a Ha; unfold emplace_worker; by rewrite Ha).
  destruct (emplace_worker sock (sourceId m) (serviceName m) e p) as [[a known] p1] eqn:Hem.
  destruct He as (Hp1 & Hs1 & Hwa & Hnew & Hold). simpl in Htr.
  destruct (po_workers p1 Hp1 _ _ Hwa) as (w1 & Hw1 & Hid1).
  assert (Hun : known = false → workers p !! (sourceId m : bytes) = None).
  { destruct (workers p !! (sourceId m : bytes)) eqn:Ha; [|done].
    specialize (Hknown _ eq_refl). congruence. }
  assert (Hrest : ∀ f : () → M (), command m ∉ [Partial; Final; Heartbeat] → follows_in i (credit_of m) nowhere p1 (f ()) →
    follows_in i (credit_of m) (first_sight m) p (modify (set_pool p1) ≫= f)).
  { intros f Hc Hf. apply (follows_in_set_pool i 0 (credit_of m) (first_sight m) p (λ _, p1)).
    - intros Hp0. eapply tracks_weaken; [by apply Htr|done|]. intros n [? ?]. by split_and!.
    - eapply follows_in_weaken; [exact Hf|done|by intros]. }
  assert (Hreply : command m = Partial ∨ command m = Final →
    follows_in i (credit_of m) (first_sight m) p
      (modify (set_pool p1) ;; if known then worker_reply E a m else with_pool (disconnectWorker (uninit_id E) a))).
  { intros Hc. destruct known; [|eapply follows_in_weaken; [by apply Hunknown, Hun|lia|by intros]].
    rewrite (Hold eq_refl) in *. destruct (polite_known m p a Hp Hwa Hpol Hc) as (w & Hw & Hs & Hi).
    assert (Hcr : credit_of m = if decide (w_id w = i) then 1 else 0).
    { simplify_eq. unfold credit_of. rewrite Hid1. by destruct Hc as [-> | ->]. }
    apply (follows_in_set_pool i 0 (credit_of m) (first_sight m) p (λ _, p)).
    - intros Hp0. eapply tracks_weaken; [by apply tracks_refl|done|by intros].
    - rewrite Hcr. eapply follows_in_weaken; [by apply follows_in_reply|done|by intros]. }
  assert (Hsilent : command m ∉ [Partial; Final; Heartbeat] →
    follows_in i (credit_of m) (first_sight m) p (modify (set_pool p1) ;; mret ())).
  { intros Hc. apply Hrest; [done|]. apply follows_in_quiet, keeps_ret; apply _. }
  destruct (command m) eqn:Hc;
    try (apply Hsilent; apply (bool_decide_unpack _); vm_compute; exact I); try (apply Hreply; auto; fail).
  - apply Hrest; [apply (bool_decide_unpack _); vm_compute; exact I|].
    destruct (Hready eq_refl Hpol) as (Hp2 & Hi2 & w & Hw & Hs).
    apply (follows_in_set_pool i 0 (credit_of m) nowhere p1 (requireService (roles E) (serviceName m) (data m))).
    { intros _. by apply tracks_require. }
    destruct (requireService_ok (roles E) (serviceName m) (data m) p1 Hp1) as (_ & Hh2 & _).
    rewrite Hh2 in Hw. simplify_eq. apply follows_in_bind.
    + unfold credit_of. rewrite Hc, <- Hid1. apply follows_in_waiting; [by rewrite Hh2|done].
    + intros u. apply keeps_bind; [apply _|apply quiet_registerNewService|]. intros _. by apply quiet_send.
  - apply Hrest; [apply (bool_decide_unpack _); vm_compute; exact I|].
    apply (follows_in_deref _ _ _ _ _ w1); [done|]. cbv zeta. apply follows_in_quiet.
    apply keeps_bind; [apply _|auto with keeps|]. intros t. by apply quiet_emit, silent_to_subscribers.
  - destruct known; [|eapply follows_in_weaken; [by apply Hunknown, Hun|lia|by intros]].
    rewrite (Hold eq_refl) in *. apply (follows_in_weaken i (0 + 0) _ nowhere); [|apply Nat.le_0_l|by intros].
    apply (follows_in_set_pool i 0 0 nowhere p (λ _, p)); [intros _; by apply tracks_refl|].
    apply follows_in_frame; [apply quiet_expiry|by intros b|]. intros e'.
    apply follows_in_with_pool. intros p' o _. rewrite Hw1. intros [= <- <-]. by apply tracks_expiry.
Qed.
End workers.

(** A service that was announced is there. *)
Lemma ready_serves E sock (m : BrokerMessage) b :
  WalkOrder (walk_services E) → calm b → polite m (b_pool b) → command m = Ready →
  is_Some (services (b_pool (processWorker E sock m b).2) !! serviceName m).
Proof.
  intros HE [Hp Hq] Hpol Hc. set (e := (clock E (b_clock b) + heartbeatInterval E * heartbeatLiveness E)%Z).
  pose proof (safe_worker_ready E sock m e _ Hp Hc Hpol) as Hready.
  pose proof (emplace_worker_ok sock (sourceId m) (serviceName m) e _ Hp) as He.
  destruct (emplace_worker sock (sourceId m) (serviceName m) e (b_pool b)) as [[a known] p1] eqn:Hem.
  destruct He as (Hp1 & _). destruct Hready as (Hp2 & Hi2 & w & Hw & Hs).
  set (p2 := requireService (roles E) (serviceName m) (data m) p1) in *.
  set (f := pool_workerWaiting E a ;; registerNewService E (serviceName m) ;; emit [Send PubSocket (service_names_notice E)]).
  assert (Heq : processWorker E sock m b = f (set_pool p2 (set_pool p1 (tick b)))).
  { unfold processWorker, updatedWorkerExpiry. unfold mbind, M_bind, now, mret, M_ret, gets, modify. cbn [b_pool tick].
    fold e. rewrite Hem, Hc. reflexivity. }
  rewrite Heq. assert (Hf : follows_in [] 1 nowhere p2 f).
  { apply follows_in_bind.
    - eapply follows_in_weaken; [by apply (follows_in_waiting E HE [] p2 a w)| |done]. case_decide; lia.
    - intros u. apply keeps_bind; [apply _|apply quiet_registerNewService|]. intros _. by apply quiet_send. }
  destruct (Hf (set_pool p2 (set_pool p1 (tick b))) eq_refl) as (_ & o & _ & Ht); [by split|].
  apply (tr_services _ _ _ _ _ _ Ht). apply (requireService_ok (roles E) (serviceName m) (data m) p1 Hp1).
Qed.

(** ** The events *)

(** An event that is not a message of a worker. *)
Definition foreign (e : broker_event) : Prop :=
  match e with Received _ (Ok (Some m)) => protocolName m = clientProtocol | _ => True end.

Lemma perform_quiet E i e b :
  WalkOrder (walk_services E) → keeps_protocol E → foreign e → quiet i b (perform E e b).2.
Proof.
  intros HE Hr He. assert (H : keeps (quiet i) (perform E e)); [|apply H].
  destruct e as [s r|f|m|u| | | | |]; unfold perform.
  - apply keeps_bind; [apply _| |auto with keeps]. unfold receiveMessage. destruct r as [[m|]|x].
    + apply keeps_bind_val with (P := λ o, o = Some m); [apply _|auto with keeps|by intros b' o [= <-]|].
      intros o ->. cbn in He. rewrite bool_decide_true by done. by apply quiet_receive_client.
    + apply keeps_bind_val with (P := λ o, o = None); [apply _|auto with keeps|by intros b' o [= <-]|].
      intros o ->. auto with keeps.
    + apply keeps_bind_val with (P := λ o, False); [apply _|auto with keeps|by intros b' o [=]|done].
  - apply keeps_bind; [apply _|apply quiet_receivePub|auto with keeps].
  - apply quiet_handleRestMessage.
  - apply quiet_registerDnsAddress.
  - unfold processClients. apply keeps_bind; [apply _|auto with keeps|]. intros cs. by apply quiet_serve_clients.
  - by apply quiet_purge_workers.
  - apply quiet_purgeClients.
  - apply quiet_sendHeartbeats.
  - apply quiet_purgeDnsServices.
Qed.

Lemma received_worker E s m b :
  protocolName m ≠ clientProtocol → (perform E (Received s (Ok (Some m))) b).2 = (processWorker E s m b).2.
Proof.
  intros Hm. unfold perform, receiveMessage, mbind, M_bind, lift. rewrite bool_decide_false by done.
  by destruct (processWorker E s m b) as [[u|x|] b'].
Qed.

Lemma perform_worker E i s m b :
  WalkOrder (walk_services E) → protocolName m ≠ clientProtocol → calm b → polite m (b_pool b) →
  follows i (credit_of i m) (first_sight i m) b (perform E (Received s (Ok (Some m))) b).2.
Proof.
  intros HE Hm Hc Hpol. rewrite received_worker by done.
  by apply (follows_processWorker E HE i s m (b_pool b)); [apply (calm_pool b Hc)| |].
Qed.

Lemma start_calm : calm start_broker.
Proof. split; [apply start_pool_ok|]. intros i c m. unfold start_broker. simpl. by rewrite lookup_empty. Qed.
