(* ===== verification/System.v ===== *)
(** * System: a broker and its workers

    The broker of [Broker] with any number of connections of workers that keep
    to the dialog of [Worker], as every run of one does, over channels that keep the order of
    messages, and anything at all from everybody else.  The workers are then as polite
    as the broker needs them to be. *)

From S2P Require Import Prelude Rbac Uri Topic Message Service Subscriptions Pool Broker Credit Worker Session.
Local Open Scope nat_scope.

(** A connection: its phase, what the worker has said, how much of that the
    broker has received, and how much of what the broker sent was heard. *)
Record connection : Type := mkconnection {
  c_phase : phase;
  c_said : list WorkerMessage;
  c_delivered : nat;
  c_heard : nat
}.

Definition new_connection : connection := mkconnection Connecting [] 0 0.

Record system : Type := mksystem { s_broker : broker; s_connections : bytes → connection }.

Section system.
Context (E : Broker.environment) (names : bytes → bytes).     (* the service of each worker *)

Definition delivery (i : bytes) (m : WorkerMessage) : broker_event :=
  Received RouterSocket (Ok (Some (with_source i m))).

Inductive step : system → system → Prop :=
  | step_speaks s i m p :
      let c := s_connections s i in
      dialog_step (names i) (c_phase c) (Said m) p →
      step s (mksystem (s_broker s)
                (<[i := mkconnection p (c_said c ++ [m]) (c_delivered c) (c_heard c)]> (s_connections s)))
  | step_hears s i m p :
      let c := s_connections s i in
      sent_to i (b_out (s_broker s)) !! c_heard c = Some m →
      dialog_step (names i) (c_phase c) (Heard (without_source m)) p →
      step s (mksystem (s_broker s)
                (<[i := mkconnection p (c_said c) (c_delivered c) (S (c_heard c))]> (s_connections s)))
  | step_delivers s i m :
      let c := s_connections s i in
      c_said c !! c_delivered c = Some m →
      step s (mksystem (perform E (delivery i m) (s_broker s)).2
                (<[i := mkconnection (c_phase c) (c_said c) (S (c_delivered c)) (c_heard c)]> (s_connections s)))
  | step_elsewhere s e :
      foreign e → step s (mksystem (perform E e (s_broker s)).2 (s_connections s)).

Definition start_system : system := mksystem start_broker (λ _, new_connection).

Definition reachable : system → Prop := rtc step start_system.

(** What the broker may have to handle next. *)
Definition possible (s : system) (e : broker_event) : Prop :=
  foreign e ∨ ∃ i m, c_said (s_connections s i) !! c_delivered (s_connections s i) = Some m ∧ e = delivery i m.

(** ** The invariant of a connection *)

Definition unheard (i : bytes) (b : broker) (c : connection) : nat := requests_in (drop (c_heard c) (sent_to i (b_out b))).
Definition owing (c : connection) : nat := match c_phase c with Owing _ => 1 | _ => 0 end.
Definition answered (ms : list WorkerMessage) : nat := length (filter (λ m, command m = Final) ms).
Definition underway (c : connection) : nat := answered (drop (c_delivered c) (c_said c)).

(** The requests of a worker: sent to it, being worked on, answered, and the one it
    may be sent. *)
Definition outstanding (i : bytes) (b : broker) (c : connection) : nat :=
  unheard i b c + owing c + underway c + Nat.b2n (waits i (b_pool b)).

Definition spoken (i : bytes) (m : WorkerMessage) : Prop :=
  protocolName m = workerProtocol ∧ (command m = Final ∨ command m ∈ [Heartbeat; Notify; Disconnect] ∧ own (names i) m).

Record connected (i : bytes) (b : broker) (c : connection) : Prop := mkconnected {
  cn_connecting : c_phase c = Connecting → c_said c = [];
  cn_said : c_phase c ≠ Connecting → ∃ r l, c_said c = r :: l ∧ command r = Ready ∧ own (names i) r ∧ Forall (spoken i) l;
  cn_owing m : c_phase c = Owing m → is_request m = true;
  cn_delivered : c_delivered c ≤ length (c_said c);
  cn_known a w : workers (b_pool b) !! i = Some a → heap (b_pool b) !! a = Some w →
    w_serviceName w = names i ∧ 0 < c_delivered c;
  cn_service : 0 < c_delivered c → is_Some (services (b_pool b) !! names i);
  cn_credit : outstanding i b c ≤ 1;
  cn_early : c_delivered c = 0 → outstanding i b c = 0
}.

Definition orderly_system (s : system) : Prop :=
  calm (s_broker s) ∧ ∀ i, connected i (s_broker s) (s_connections s i).

Lemma answered_app ms ms' : answered (ms ++ ms') = answered ms + answered ms'.
Proof using Type. unfold answered. by rewrite filter_app, length_app. Qed.

Lemma answered_one m : answered [m] = (if decide (command m = Final) then 1 else 0).
Proof using Type. unfold answered. rewrite filter_cons. by case_decide. Qed.

Lemma requests_in_app {f} (ms ms' : list (message f)) : requests_in (ms ++ ms') = requests_in ms + requests_in ms'.
Proof using Type. unfold requests_in. by rewrite filter_app, length_app. Qed.

Lemma requests_in_one {f} (m : message f) : requests_in [m] = Nat.b2n (wants_reply m).
Proof using Type. unfold requests_in. rewrite filter_cons. destruct (wants_reply m) eqn:H; by case_decide. Qed.

Lemma requests_in_drop {f} n (ms : list (message f)) : requests_in (drop n ms) ≤ requests_in ms.
Proof using Type. rewrite <- (take_drop n ms) at 2. rewrite requests_in_app. lia. Qed.

Lemma wants_reply_request (m : BrokerMessage) : is_request (without_source m) = wants_reply m.
Proof using Type. done. Qed.

(** *** The worker's steps *)

Lemma connected_speaks i b c m p :
  connected i b c → dialog_step (names i) (c_phase c) (Said m) p →
  connected i b (mkconnection p (c_said c ++ [m]) (c_delivered c) (c_heard c)).
Proof using Type.
  intros [H1 H2 H3 H4 H5 H6 H7 H8] Hd.
  assert (Hout : outstanding i b (mkconnection p (c_said c ++ [m]) (c_delivered c) (c_heard c)) = outstanding i b c
    ∧ (∀ x, p ≠ Owing x) ∧ p ≠ Connecting
    ∧ ∃ r l, c_said c ++ [m] = r :: l ∧ command r = Ready ∧ own (names i) r ∧ Forall (spoken i) l).
  { unfold outstanding, underway, owing, unheard. cbn [c_phase c_said c_delivered c_heard].
    rewrite drop_app_le, answered_app, answered_one by done. clear H4 H5 H6 H7 H8.
    assert (Htail : c_phase c ≠ Connecting → spoken i m →
      ∃ r l, c_said c ++ [m] = r :: l ∧ command r = Ready ∧ own (names i) r ∧ Forall (spoken i) l).
    { intros Hne Hsp. destruct (H2 Hne) as (r & l & -> & Hr & Ho & Hl). exists r, (l ++ [m]). split_and!; [done|done|done|].
      apply Forall_app. split; [done|]. by apply Forall_singleton. }
    assert (Hother : command m ∈ [Heartbeat; Notify; Disconnect] → own (names i) m → spoken i m).
    { intros Hc Ho. split; [apply Ho|by right]. }
    remember (c_phase c) as q eqn:Hq. inversion Hd as [m' Hc Ho| | |req r Ha|m' Hc Ho|m' Hc Ho]; subst.
    - rewrite decide_False by (by rewrite Hc). rewrite H1 by done. split_and!; [simpl; lia|done|done|]. by exists m, [].
    - destruct Ha as (Hpr & Hf & _). rewrite decide_True by done. rewrite <- H in *. split_and!; [lia|done|done|].
      apply Htail; [done|]. split; [|by left]. rewrite Hpr. specialize (H3 _ eq_refl).
      unfold is_request in H3. by apply andb_true_iff in H3 as [H3%bool_decide_eq_true _].
    - assert (command m ≠ Final) by (destruct Hc; congruence). rewrite decide_False by done. rewrite <- H in *.
      split_and!; [lia|done|done|]. apply Htail; [done|]. apply Hother; [|done]. destruct Hc as [-> | ->]; set_solver.
    - rewrite decide_False by (by rewrite Hc). rewrite <- H in *.
      split_and!; [lia|done|done|]. apply Htail; [done|]. apply Hother; [|done]. rewrite Hc. set_solver. }
  destruct Hout as (Ho & Hp1 & Hp2 & Hs). split; cbn [c_phase c_said c_delivered c_heard]; [done|done|by intros x ?; destruct (Hp1 x)| |done|done| |].
  - rewrite length_app. lia.
  - by rewrite Ho.
  - intros Hz. rewrite Ho. by apply H8.
Qed.

Lemma connected_hears i b c m p :
  connected i b c → sent_to i (b_out b) !! c_heard c = Some m →
  dialog_step (names i) (c_phase c) (Heard (without_source m)) p →
  connected i b (mkconnection p (c_said c) (c_delivered c) (S (c_heard c))).
Proof using Type.
  intros [H1 H2 H3 H4 H5 H6 H7 H8] Hm Hd.
  assert (Hun : unheard i b c = Nat.b2n (wants_reply m) + unheard i b (mkconnection p (c_said c) (c_delivered c) (S (c_heard c)))).
  { unfold unheard. cbn [c_heard]. rewrite (drop_S _ m) by done.
    by rewrite <- requests_in_one, <- requests_in_app. }
  assert (Hq : c_phase c = Serving ∧ owing (mkconnection p (c_said c) (c_delivered c) (S (c_heard c))) = Nat.b2n (wants_reply m)
    ∧ p ≠ Connecting ∧ ∀ x, p = Owing x → is_request x = true).
  { rewrite <- wants_reply_request. inversion Hd as [|m' Hr|m' Hr| | |]; subst; unfold owing; cbn [c_phase]; rewrite Hr;
      split_and!; try done; congruence. }
  destruct Hq as (Hph & Ho & Hnc & Hreq).
  assert (Hout : outstanding i b (mkconnection p (c_said c) (c_delivered c) (S (c_heard c))) = outstanding i b c).
  { unfold outstanding. rewrite Hun, Ho. unfold owing at 1. rewrite Hph. unfold underway. cbn [c_said c_delivered]. lia. }
  split; cbn [c_phase c_said c_delivered c_heard]; try done.
  - intros _. apply H2. by rewrite Hph.
  - by rewrite Hout.
  - intros Hz. rewrite Hout. by apply H8.
Qed.

(** *** The broker's steps *)

Lemma unheard_grows i b b' c o :
  b_out b' = b_out b ++ o → unheard i b' c ≤ unheard i b c + asked i o.
Proof using Type.
  intros Ho. unfold unheard. rewrite Ho. unfold sent_to. rewrite omap_app, drop_app, requests_in_app.
  apply Nat.add_le_mono_l, requests_in_drop.
Qed.

(** What the connection and the broker have outstanding grows by the credit at most. *)
Lemma outstanding_grows i k X b b' c o :
  b_out b' = b_out b ++ o → tracks i k X (b_pool b) (b_pool b') o → outstanding i b' c ≤ outstanding i b c + k.
Proof using Type.
  intros Ho Ht. pose proof (unheard_grows i b b' c o Ho). pose proof (tr_credit _ _ _ _ _ _ Ht).
  unfold outstanding. lia.
Qed.

Lemma connected_quiet i b b' c : calm b → quiet i b b' → connected i b c → connected i b' c.
Proof using Type.
  intros Hc Hq [H1 H2 H3 H4 H5 H6 H7 H8]. destruct (Hq Hc) as (_ & o & Ho & Ht).
  pose proof (outstanding_grows i 0 _ b b' c o Ho Ht) as Hout. split; try done.
  - intros a' w' Ha Hw. destruct (tr_name _ _ _ _ _ _ Ht a' w' Ha Hw) as [[]|(a & w & Ha' & Hw' & ->)]. by eapply H5.
  - intros Hd. by apply (tr_services _ _ _ _ _ _ Ht), H6.
  - lia.
  - intros Hd. specialize (H8 Hd). lia.
Qed.

(** What comes next from the connection is polite. *)
Lemma delivery_polite i b c m :
  calm b → connected i b c → c_said c !! c_delivered c = Some m →
  protocolName m = workerProtocol ∧ polite (with_source i m) (b_pool b)
  ∧ (c_delivered c = 0 → command m = Ready ∧ own (names i) m) ∧ (0 < c_delivered c → spoken i m).
Proof using Type.
  intros Hcalm [H1 H2 H3 H4 H5 H6 H7 H8] Hm. pose proof (calm_pool b Hcalm) as Hp.
  assert (Hnc : c_phase c ≠ Connecting) by (intros Hph; rewrite (H1 Hph) in Hm; done).
  destruct (H2 Hnc) as (r & l & Hs & Hr & Hor & Hl).
  unfold polite. change (sourceId (with_source i m)) with i. change (command (with_source i m)) with (command m).
  destruct (c_delivered c) as [|d] eqn:Hd; rewrite Hs in Hm; simpl in Hm.
  - injection Hm as ->. split_and!; [apply Hor| |done|lia]. destruct (workers (b_pool b) !! i) as [a|] eqn:Ha; [|done].
    destruct (po_workers _ Hp i a Ha) as (w & Hw & _). destruct (H5 a w eq_refl Hw). lia.
  - rewrite Forall_lookup in Hl. specialize (Hl d m Hm). split_and!; [apply Hl| |lia|done].
    destruct (workers (b_pool b) !! i) as [a|] eqn:Ha; [|done]. destruct Hl as [_ [Hf|[Ho _]]].
    + rewrite Hf. destruct (po_workers _ Hp i a Ha) as (w & Hw & _). destruct (H5 a w eq_refl Hw) as [Hn _].
      split; [|exists w; split; [done|]; rewrite Hn; apply H6; lia].
      apply (waits_idle i); [done|done|]. destruct (waits i (b_pool b)) eqn:Hwt; [|done]. exfalso.
      assert (1 ≤ underway c).
      { unfold underway. rewrite Hd, Hs. simpl. rewrite (drop_S _ m) by done.
        change (m :: ?x) with ([m] ++ x). rewrite answered_app, answered_one, decide_True by done. lia. }
      unfold outstanding in H7. rewrite Hwt in H7. simpl in H7. lia.
    + by destruct (command m); try done; exfalso; set_solver.
Qed.

Context (HE : WalkOrder (Broker.walk_services E)).

Lemma credit_elsewhere i j (m : WorkerMessage) : j ≠ i → credit_of j (with_source i m) = 0.
Proof using Type.
  intros Hne. unfold credit_of. change (sourceId (with_source i m)) with i. destruct (command _); try done; by rewrite decide_False.
Qed.

Lemma delivery_others i j b c cj m :
  j ≠ i → calm b → connected i b c → c_said c !! c_delivered c = Some m → connected j b cj →
  connected j (perform E (delivery i m) b).2 cj.
Proof using HE.
  intros Hne Hc Hci Hm Hj. destruct (delivery_polite i b c m Hc Hci Hm) as (Hpr & Hpol & _).
  apply (connected_quiet j b); [done| |done].
  assert (Hproto : protocolName (with_source i m) ≠ clientProtocol) by (change (protocolName m ≠ clientProtocol); by rewrite Hpr).
  eapply follows_weaken; [by apply (perform_worker E j RouterSocket (with_source i m) b HE)| |].
  - by rewrite credit_elsewhere.
  - intros n (Hs & _). by destruct Hne.
Qed.

Lemma delivery_own i b c m :
  calm b → connected i b c → c_said c !! c_delivered c = Some m →
  calm (perform E (delivery i m) b).2
  ∧ connected i (perform E (delivery i m) b).2 (mkconnection (c_phase c) (c_said c) (S (c_delivered c)) (c_heard c)).
Proof using HE.
  intros Hc Hci Hm. destruct (delivery_polite i b c m Hc Hci Hm) as (Hpr & Hpol & Hfirst & Hlater).
  assert (Hproto : protocolName (with_source i m) ≠ clientProtocol) by (change (protocolName m ≠ clientProtocol); by rewrite Hpr).
  destruct (perform_worker E i RouterSocket (with_source i m) b HE Hproto Hc Hpol Hc) as (Hc' & o & Ho & Ht).
  change (perform E (Received RouterSocket (Ok (Some (with_source i m)))) b) with (perform E (delivery i m) b) in *.
  set (b' := (perform E (delivery i m) b).2) in *. split; [done|]. set (c' := mkconnection _ _ _ _).
  pose proof (outstanding_grows i _ _ b b' c o Ho Ht) as Hg. destruct Hci as [H1 H2 H3 H4 H5 H6 H7 H8].
  assert (Hown : command m ≠ Final → own (names i) m ∧ c_delivered c = 0 ∨ own (names i) m ∧ 0 < c_delivered c ∧ command m ∈ [Heartbeat; Notify; Disconnect]).
  { intros Hf. destruct (decide (c_delivered c = 0)) as [Hz|Hz]; [left; by destruct (Hfirst Hz)|right].
    destruct (Hlater ltac:(lia)) as [_ [?|[Hs Hown]]]; [done|]. split_and!; [done|lia|done]. }
  assert (Hunder : underway c = answered [m] + underway c').
  { unfold underway. cbn [c' c_delivered c_said]. rewrite (drop_S _ m) by done. by rewrite <- answered_app. }
  assert (Hsame : outstanding i b' c = outstanding i b' c' + answered [m]).
  { unfold outstanding. rewrite Hunder. change (unheard i b' c') with (unheard i b' c). change (owing c') with (owing c). lia. }
  rewrite answered_one in Hsame. unfold credit_of in Hg. change (sourceId (with_source i m)) with i in Hg.
  change (command (with_source i m)) with (command m) in Hg. rewrite decide_True in Hg by done.
  split; cbn [c' c_phase c_said c_delivered c_heard]; try done.
  - apply lookup_lt_Some in Hm. lia.
  - intros a' w' Ha Hw. split; [|lia]. destruct (tr_name _ _ _ _ _ _ Ht a' w' Ha Hw) as [(_ & -> & Hn)|(a & w & Ha' & Hw' & ->)].
    + change (serviceName m = names i). destruct Hown as [[[_ ?] _]|[[_ ?] _]]; [|done|done].
      intros Hf. apply Hn. change (command (with_source i m)) with (command m). rewrite Hf. set_solver.
    + by destruct (H5 a w Ha' Hw').
  - intros _. destruct (decide (c_delivered c = 0)) as [Hz|Hz]; [|by apply (tr_services _ _ _ _ _ _ Ht), H6; lia].
    destruct (Hfirst Hz) as [Hr [_ <-]]. unfold b', delivery. rewrite received_worker by done.
    by apply (ready_serves E RouterSocket (with_source i m) b HE Hc Hpol).
  - destruct (decide (c_delivered c = 0)) as [Hz|Hz].
    + destruct (Hfirst Hz) as [Hr _]. rewrite Hr in Hg. specialize (H8 Hz). lia.
    + destruct (Hlater ltac:(lia)) as [_ [Hf|[Hs _]]]; [rewrite Hf in Hg; rewrite decide_True in Hsame by done; lia|].
      assert (outstanding i b' c ≤ outstanding i b c); [|lia].
      destruct (command m); try lia; exfalso; set_solver.
Qed.

Context (Hrbac : keeps_protocol E).

Lemma step_orderly s s' : step s s' → orderly_system s → orderly_system s'.
Proof using HE Hrbac.
  intros Hs [Hc Hi]. destruct Hs as [s i m p c Hd|s i m p c Hm Hd|s i m c Hm|s e He].
  - split; [done|]. intros j. simpl. destruct (decide (i = j)) as [<-|Hne].
    + rewrite fn_lookup_insert. by apply connected_speaks.
    + rewrite fn_lookup_insert_ne by done. apply Hi.
  - split; [done|]. intros j. simpl. destruct (decide (i = j)) as [<-|Hne].
    + rewrite fn_lookup_insert. by apply (connected_hears i _ _ m).
    + rewrite fn_lookup_insert_ne by done. apply Hi.
  - destruct (delivery_own i (s_broker s) c m Hc (Hi i) Hm) as [Hc' Hown]. split; [done|]. intros j. simpl.
    destruct (decide (i = j)) as [<-|Hne]; [by rewrite fn_lookup_insert|].
    rewrite fn_lookup_insert_ne by done. by apply (delivery_others i j _ c).
  - assert (Hq : ∀ j, quiet j (s_broker s) (perform E e (s_broker s)).2) by (intros j; by apply perform_quiet).
    split; [by destruct (Hq [] Hc)|]. intros j. by apply (connected_quiet j (s_broker s)); [| |apply Hi].
Qed.

Lemma start_orderly : orderly_system start_system.
Proof using Type.
  split; [apply start_calm|]. intros i. assert (Ho : outstanding i start_broker new_connection = 0) by done.
  change (connected i start_broker new_connection). split; try done; [cbn; lia|by rewrite Ho; lia].
Qed.

Lemma reachable_orderly s : reachable s → orderly_system s.
Proof using HE Hrbac.
  revert s. apply (rtc_ind_r orderly_system); [apply start_orderly|]. intros y z _ Hyz IH. by apply (step_orderly y z).
Qed.
End system.

(** C2: The broker and any number of workers that keep to their dialog, each on a
    channel of its own, with clients, subscribers, DNS peers and REST requests that send
    anything at all: whatever the interleaving, the times at which workers expire and
    the order of the tables, no handler of the broker ever uses an erased worker, and
    its tables stay consistent. *)
Theorem system_safe E names s e :
  WalkOrder (Broker.walk_services E) → keeps_protocol E → reachable E names s → possible s e →
  (perform E e (s_broker s)).1 ≠ Broker.Undefined ∧ pool_ok (b_pool (perform E e (s_broker s)).2).
Proof.
  intros HE Hr Hs Hp. destruct (reachable_orderly E names HE Hr s Hs) as [Hc Hi].
  apply broker_step_safe; [done|apply (calm_pool _ Hc)|]. destruct Hp as [Hf|(i & m & Hm & ->)].
  - destruct e as [sock [[x|]|x]| | | | | | | |]; try done. by left.
  - right. by apply (delivery_polite names i _ _ m Hc (Hi i)).
Qed.

(** C3: In the same system the broker gives a worker one request at a time: the requests
    it has sent that the worker has not heard, the one the worker is working on, and the
    answers on their way back are one at most, and none while the broker lists the worker
    as waiting; so that no worker is listed twice and no request is queued behind another
    at a worker. *)
Theorem one_request_at_a_time E names s i :
  WalkOrder (Broker.walk_services E) → keeps_protocol E → reachable E names s →
  let c := s_connections s i in
  unheard i (s_broker s) c + owing c + underway c + Nat.b2n (waits i (b_pool (s_broker s))) ≤ 1.
Proof.
  intros HE Hr Hs. destruct (reachable_orderly E names HE Hr s Hs) as [_ Hi]. apply (cn_credit _ _ _ _ (Hi i)).
Qed.

(** ** A run: a worker announces itself, gets the request of a client and answers *)

Definition w_identity : bytes := str "w".
Definition w_names (i : bytes) : bytes := str "/a.service".
Definition w_env : environment := sample_worker [ADMIN] all_connect.
Definition b_env : Broker.environment := sample_env Z.of_nat.

Definition say (m : WorkerMessage) (p : phase) (s : system) : system :=
  let c := s_connections s w_identity in
  mksystem (s_broker s) (<[w_identity := mkconnection p (c_said c ++ [m]) (c_delivered c) (c_heard c)]> (s_connections s)).

Definition deliver (m : WorkerMessage) (s : system) : system :=
  let c := s_connections s w_identity in
  mksystem (perform b_env (delivery w_identity m) (s_broker s)).2
    (<[w_identity := mkconnection (c_phase c) (c_said c) (S (c_delivered c)) (c_heard c)]> (s_connections s)).

Definition hear_next (p : phase) (s : system) : system :=
  let c := s_connections s w_identity in
  mksystem (s_broker s) (<[w_identity := mkconnection p (c_said c) (c_delivered c) (S (c_heard c))]> (s_connections s)).

Definition elsewhere (e : broker_event) (s : system) : system :=
  mksystem (perform b_env e (s_broker s)).2 (s_connections s).

Definition w_ready : WorkerMessage := createMessage w_env Ready.
Definition client_get : broker_event :=
  Received RouterSocket (Ok (Some (@mkmsg WithSourceId (str "c") 0 0 10000 clientProtocol Get (str "/a.service") (str "1")
    root_topic (str "x") [] []))).

Definition after_request : system :=
  elsewhere ServeClients (elsewhere client_get (deliver w_ready (say w_ready Serving start_system))).

Definition w_request : WorkerMessage :=
  default w_ready (without_source <$> sent_to w_identity (b_out (s_broker after_request)) !! 0).

Definition w_reply : WorkerMessage := with_data (str "x") (replyFromRequest w_env w_request).

Definition answered_system : system := say w_reply Serving (hear_next (Owing w_request) after_request).

Lemma say_step m p s :
  dialog_step (w_names w_identity) (c_phase (s_connections s w_identity)) (Said m) p → step b_env w_names s (say m p s).
Proof. exact (step_speaks b_env w_names s w_identity m p). Qed.

Lemma deliver_step m s :
  c_said (s_connections s w_identity) !! c_delivered (s_connections s w_identity) = Some m →
  step b_env w_names s (deliver m s).
Proof. exact (step_delivers b_env w_names s w_identity m). Qed.

Lemma hear_step m p s :
  sent_to w_identity (b_out (s_broker s)) !! c_heard (s_connections s w_identity) = Some m →
  dialog_step (w_names w_identity) (c_phase (s_connections s w_identity)) (Heard (without_source m)) p →
  step b_env w_names s (hear_next p s).
Proof. exact (step_hears b_env w_names s w_identity m p). Qed.

Lemma elsewhere_step e s : foreign e → step b_env w_names s (elsewhere e s).
Proof. exact (step_elsewhere b_env w_names s e). Qed.

Lemma request_heard : ∃ m, sent_to w_identity (b_out (s_broker after_request)) !! 0 = Some m
  ∧ without_source m = w_request ∧ is_request w_request = true.
Proof. eexists. split; [vm_compute; reflexivity|]. split; vm_compute; reflexivity. Qed.

Lemma answered_reachable : reachable b_env w_names answered_system.
Proof.
  destruct request_heard as (m & Hm & Hmr & Hreq).
  eapply rtc_l; [apply (say_step w_ready Serving), dialog_ready; [reflexivity|split; reflexivity]|].
  eapply rtc_l; [apply (deliver_step w_ready); vm_compute; reflexivity|].
  eapply rtc_l; [apply (elsewhere_step client_get); reflexivity|].
  eapply rtc_l; [apply (elsewhere_step ServeClients); exact I|]. fold after_request.
  eapply rtc_l; [apply (hear_step m (Owing w_request)); [exact Hm|rewrite Hmr; by apply dialog_request]|].
  apply rtc_once. apply (say_step w_reply Serving). apply (dialog_answer _ w_request). split_and!; reflexivity.
Qed.

Lemma system_safe_witness :
  let e := delivery w_identity w_reply in
  possible answered_system e
  ∧ (perform b_env e (s_broker answered_system)).1 ≠ Broker.Undefined
  ∧ pool_ok (b_pool (perform b_env e (s_broker answered_system)).2).
Proof.
  intros e. assert (Hp : possible answered_system e) by (right; exists w_identity, w_reply; by split).
  split; [exact Hp|]. apply (system_safe b_env w_names answered_system e); [by intros ss|by intros h m [=]|exact answered_reachable|exact Hp].
Defined.

Lemma one_request_at_a_time_witness :
  let c := s_connections answered_system w_identity in
  underway c = 1 ∧ unheard w_identity (s_broker answered_system) c + owing c + underway c
                   + Nat.b2n (waits w_identity (b_pool (s_broker answered_system))) ≤ 1.
Proof.
  intros c. split; [vm_compute; reflexivity|].
  apply (one_request_at_a_time b_env w_names answered_system w_identity); [by intros ss|by intros h m [=]|exact answered_reachable].
Defined.

(** ** What a client can do to a worker

    The broker passes on the command of a client whatever it is: told to disconnect by
    a client, in the words of the broker, the worker ends. *)
Definition client_disconnect : broker_event :=
  Received RouterSocket (Ok (Some (@mkmsg WithSourceId (str "c") 0 0 10000 clientProtocol Disconnect (str "/a.service")
    (str "1") root_topic (str "broker shutdown") [] []))).

Lemma client_stops_worker :
  let s := elsewhere ServeClients (elsewhere client_disconnect (deliver w_ready (say w_ready Serving start_system))) in
  let w := (connectToBroker w_env new_worker).2 in
  foreign client_disconnect
  ∧ ∃ m, sent_to w_identity (b_out (s_broker s)) = [m] ∧ command m = Disconnect ∧ shutdownRequested w = false
         ∧ shutdownRequested (handleDealerMessage w_env (without_source m) w).2 = true.
Proof.
  intros s w. split; [reflexivity|]. eexists. split; [vm_compute; reflexivity|]. split_and!; vm_compute; reflexivity.
Qed.
