(* ===== verification/ThreadPool.v ===== *)
(** * ThreadPool: [core/ThreadPool.hpp]

    The queue of tasks, the affinity masks, and the pool itself as an
    interleaving of any number of worker threads, of threads that call
    [execute], and of threads that shut the pool down. *)

From S2P Require Import Prelude.
From Stdlib Require Import Sorted.
Local Open Scope Z_scope.

(** ** Tasks and the queue of tasks *)

(** What a [move_only_function] holds, as far as the pool can tell: which call
    of [execute] it came from, and whether that was the overload that returns a
    [std::future], whose callable puts its result or its exception into the
    promise. *)
Record callable : Type := mkcallable { ticket : nat; promised : bool }.

(** [_erased_fun] and [_call]: [None] is the default-constructed function. *)
Abbreviation move_only_function := (option callable).

Record Task : Type := mkTask {
  id : Z;
  func : move_only_function;
  name : bytes;
  priority : Z;                   (* int32_t *)
  cpuID : Z                       (* int32_t *)
}.

(** [Task::reset]: [*this = Task()]. *)
Definition Task_new : Task := mkTask 0 None [] 0 (-1).
Definition reset (t : Task) : Task := Task_new.

Abbreviation TaskContainer := (list Task).

(** [TaskQueue::push] with the mutex held; [None]: [front] of an empty list. *)
Definition insert_before (p : Z) (job tasks : TaskContainer) : TaskContainer :=
  (fix go ts :=
     match ts with
     | [] => job
     | t :: ts' => if priority t <? p then job ++ t :: ts' else t :: go ts'
     end) tasks.

Definition push (job tasks : TaskContainer) : option TaskContainer :=
  match job with
  | [] => None
  | t :: _ => Some (if priority t =? 0 then tasks ++ job else insert_before (priority t) job tasks)
  end.

(** [TaskQueue::pop]: a list of the first task, or an empty list. *)
Definition pop (tasks : TaskContainer) : TaskContainer * TaskContainer :=
  match tasks with
  | [] => ([], [])
  | t :: ts => ([t], ts)
  end.

(** The priority is an [uint32_t] argument of a template and an [int32_t] in a
    task. *)
Definition queued_priority (p : Z) : Z := wraps 32 p.

(** *** The queue is a stable priority queue

    As long as no priority is negative. *)

Definition urgent (t u : Task) : Prop := priority u ≤ priority t.
Definition ordered (q : TaskContainer) : Prop := StronglySorted urgent q ∧ Forall (λ t, 0 ≤ priority t) q.
Definition of_priority (p : Z) (q : TaskContainer) : TaskContainer := filter (λ t, priority t = p) q.

Lemma push_one_spec t q q' :
  ordered q → 0 ≤ priority t → push [t] q = Some q' →
  ordered q' ∧ q' ≡ₚ t :: q ∧ ∀ p, of_priority p q' = of_priority p q ++ of_priority p [t].
Proof.
  intros [Hs Hq] Ht [= <-].
  assert (H : (if priority t =? 0 then q ++ [t] else insert_before (priority t) [t] q)
              = insert_before (priority t) [t] q).
  { destruct (Z.eqb_spec (priority t) 0) as [->|]; [|done]. clear Hs.
    induction Hq as [|u q Hu _ IH]; [done|]. simpl. rewrite IH.
    destruct (Z.ltb_spec (priority u) 0); [lia|done]. }
  rewrite H. clear H. induction Hs as [|u q Hs IH Hu]; simpl.
  - split; [split; repeat constructor; done|]. done.
  - apply Forall_cons in Hq as [Hu0 Hq]. destruct (IH Hq) as ([Hs' Hq'] & Hp & Hf).
    destruct (Z.ltb_spec (priority u) (priority t)) as [Hlt|Hle].
    + split; [split|].
      * repeat constructor; try done; [unfold urgent; lia|].
        eapply Forall_impl; [exact Hu|]. unfold urgent. simpl. lia.
      * repeat constructor; done.
      * split; [done|]. intros p. unfold of_priority. rewrite !filter_cons, filter_nil.
        destruct (decide (priority t = p)) as [<-|Hne]; [|by rewrite app_nil_r].
        destruct (decide (priority u = priority t)); [lia|].
        replace (filter _ q) with (@nil Task); [done|].
        symmetry. apply elem_of_nil_inv. intros v [Hv Hin]%list_elem_of_filter.
        rewrite Forall_forall in Hu. specialize (Hu v Hin). unfold urgent in Hu. lia.
    + split; [split|].
      * constructor; [done|]. rewrite Hp. constructor; [unfold urgent; lia|done].
      * constructor; done.
      * split; [rewrite Hp; constructor|]. intros p. specialize (Hf p). unfold of_priority in *.
        rewrite (filter_cons _ u), (filter_cons _ u q). destruct (decide (priority u = p)); [|done].
        by rewrite Hf.
Qed.

(** The head of an ordered queue is the oldest of the most urgent tasks. *)
Lemma pop_spec t q :
  ordered (t :: q) →
  pop (t :: q) = ([t], q) ∧ ordered q ∧ Forall (λ u, priority u ≤ priority t) q
  ∧ of_priority (priority t) (t :: q) = t :: of_priority (priority t) q.
Proof.
  intros [Hs Hq]. apply StronglySorted_inv in Hs as [Hs Hu]. apply Forall_cons in Hq as [_ Hq].
  split; [done|]. split; [done|]. split; [done|].
  unfold of_priority. rewrite filter_cons. by destruct (decide _).
Qed.

(** ** Affinity of the threads to the cores *)

Inductive TaskType : Type := IO_BOUND | CPU_BOUND.

(** What [updateThreadConstraints] asks the operating system for.  The thread
    of [setThreadAffinity] is the last argument or, without one, the thread that
    calls ([getPosixHandler]). *)
Inductive target : Type := TheThread | TheCaller.
Inductive constraint : Type :=
  | SetThreadName (threadID : Z)
  | SetThreadSchedulingParameter
  | SetThreadAffinity (t : target) (mask : list bool).

Fixpoint distribute_from (coreCount minThreads threadID : Z) (mask : list bool) : list bool :=
  match mask with
  | [] => []
  | true :: m => (coreCount mod minThreads =? threadID) :: distribute_from (coreCount + 1) minThreads threadID m
  | false :: m => false :: distribute_from coreCount minThreads threadID m
  end.

Definition distributeThreadAffinityAcrossCores (minThreads : Z) (mask : list bool) (threadID : Z) : list bool :=
  match mask with
  | [] => []
  | _ => distribute_from 0 minThreads threadID mask
  end.

Definition updateThreadConstraints (taskType : TaskType) (minThreads : Z) (affinityMask : list bool)
    (threadID : Z) : list constraint :=
  [SetThreadName threadID; SetThreadSchedulingParameter]
  ++ match affinityMask with
     | [] => []
     | _ => match taskType with
            | IO_BOUND => [SetThreadAffinity TheCaller affinityMask]
            | CPU_BOUND =>
                [SetThreadAffinity TheCaller
                   (distributeThreadAffinityAcrossCores minThreads affinityMask threadID)]
            end
     end.

Lemma distribute_from_length c n i m : length (distribute_from c n i m) = length m.
Proof. revert c. induction m as [|[] m IH]; intros c; simpl; [done|by rewrite IH..]. Qed.

Lemma distribute_from_spec c n m k :
  0 ≤ c → 0 < n → (k < length m)%nat →
  if nth k m false
  then ∃ i, 0 ≤ i < n ∧ ∀ j, nth k (distribute_from c n j m) false = true ↔ j = i
  else ∀ j, nth k (distribute_from c n j m) false = false.
Proof.
  intros Hc Hn. revert c k Hc. induction m as [|b m IH]; intros c k Hc Hk; simpl in *; [lia|].
  destruct k as [|k].
  - destruct b; [|done]. exists (c mod n). split; [by apply Z.mod_pos_bound|].
    intros j. simpl. rewrite Z.eqb_eq. naive_solver.
  - assert (Hk' : (k < length m)%nat) by lia. destruct b; simpl; apply IH; lia.
Qed.

(** The masks that a pool gives to threads [0 .. minThreads - 1] are a
    partition of the cores of its affinity mask: every core that is set goes to
    exactly one of these threads, and a core that is not set to none. *)
Theorem cores_partitioned n mask k :
  0 < n → (k < length mask)%nat →
  if nth k mask false
  then ∃ i, 0 ≤ i < n ∧ ∀ j, nth k (distributeThreadAffinityAcrossCores n mask j) false = true ↔ j = i
  else ∀ j, nth k (distributeThreadAffinityAcrossCores n mask j) false = false.
Proof.
  intros Hn Hk. destruct mask as [|b m]; [simpl in Hk; lia|].
  by apply (distribute_from_spec 0).
Qed.

Lemma cores_partitioned_witness :
  distributeThreadAffinityAcrossCores 2 [true; false; true; true] 0 = [true; false; false; true]
  ∧ ∃ i, 0 ≤ i < 2 ∧
      ∀ j, nth 3 (distributeThreadAffinityAcrossCores 2 [true; false; true; true] j) false = true ↔ j = i.
Proof.
  split; [reflexivity|]. apply (cores_partitioned 2 [true; false; true; true] 3); [lia|simpl; lia].
Defined.

(** ** The pool

    Every step is one atomic access, one locked operation of a [TaskQueue], or
    one call of the condition variable; what a thread does on its own variables
    goes with the step before it. *)

Inductive wpc : Type :=
  | Created                       (* emplaced in _threads; worker() not entered *)
  | Counted                       (* _numThreads incremented *)
  | Popping                       (* at the top of the loop *)
  | Popped (c : TaskContainer)    (* a task taken; _numTaskedQueued not yet decremented *)
  | Starting (c : TaskContainer)  (* _numTasksRunning not yet incremented *)
  | Calling (c : TaskContainer)   (* in currentTask.func() *)
  | Called (c : TaskContainer)    (* returned; the task not yet recycled *)
  | Finishing                     (* _numTasksRunning not yet decremented *)
  | Testing                       (* the predicate of wait_for: reading _numTaskedQueued *)
  | Testing_shutdown              (* the predicate of wait_for: reading _shutdown *)
  | Blocking                      (* the predicate was false; not yet blocked *)
  | Asleep                        (* blocked in wait_for *)
  | Deciding                      (* whether this thread is to be kept *)
  | Comparing_time                (* _shutdown was false *)
  | Shrinking (nThreads : Z)      (* in the compare-and-swap loop *)
  | Leaving (nThread : Z)         (* _numThreads was decremented from nThread *)
  | Clearing                      (* _recycledTasks cleared, _taskQueue not yet *)
  | Exited.

Record worker : Type := mkworker {
  w_pc : wpc;
  threadID : Z;
  noop_counter : Z;               (* uint32_t *)
  w_joined : bool                 (* of the std::thread: not joinable any more *)
}.

(** The template arguments of a call of [execute], and its overload. *)
Record request : Type := mkrequest {
  r_name : bytes;
  r_priority : Z;                 (* uint32_t *)
  r_cpuID : Z;                    (* int32_t *)
  r_promised : bool
}.

Inductive cpc : Type :=
  | Entering                      (* _numTaskedQueued not yet incremented *)
  | Creating                      (* createTask: before recycledTasks.pop() *)
  | Numbering (c : TaskContainer) (* before _taskID.fetch_add *)
  | Pushing (c : TaskContainer)
  | Notifying
  | Watching                      (* while (_taskQueue.size() > 0) *)
  | Loading_threads
  | Loading_running (nThreads : Z)
  | Growing                       (* createWorkerThread *)
  | Nudging                       (* notify_one in the loop *)
  | Returned
  | Refused (e : exn).

Record caller : Type := mkcaller { c_request : request; c_pc : cpc }.

(** [requestShutdown] and the destructor have the same body; an exception that
    leaves the destructor terminates the program. *)
Inductive spc : Type :=
  | Flagging                      (* _shutdown = true *)
  | Alerting                      (* notify_all *)
  | Joining (k : nat)             (* at the k-th thread of the list *)
  | Closed
  | Failed (e : exn).

Record closer : Type := mkcloser { destructor : bool; s_pc : spc }.

Record pool : Type := mkpool {
  constructing : nat;             (* threads the constructor has still to create *)
  initialised : bool;
  shutdown : bool;
  numTaskedQueued : Z;
  numTasksRunning : Z;
  taskQueue : TaskContainer;
  recycledTasks : TaskContainer;
  numThreads : Z;
  threads : list worker;
  affinityMask : list bool;
  taskID : Z;                     (* static: shared by all pools *)
  callers : list caller;
  closers : list closer;
  (* what has happened *)
  constraints : list (nat * constraint);   (* thread, what was asked for it *)
  ran : list nat;                 (* calls of execute whose callable was called, last first *)
  dropped : list nat;             (* cleared from the queue *)
  futures : list (nat * result Z);  (* promises kept, last first *)
  terminated : bool               (* std::terminate *)
}.

Definition set_worker (i : nat) (w : worker) (p : pool) : pool :=
  mkpool (constructing p) (initialised p) (shutdown p) (numTaskedQueued p) (numTasksRunning p) (taskQueue p)
    (recycledTasks p) (numThreads p) (<[i := w]> (threads p)) (affinityMask p) (taskID p) (callers p)
    (closers p) (constraints p) (ran p) (dropped p) (futures p) (terminated p).
Definition set_threads (ws : list worker) (p : pool) : pool :=
  mkpool (constructing p) (initialised p) (shutdown p) (numTaskedQueued p) (numTasksRunning p) (taskQueue p)
    (recycledTasks p) (numThreads p) ws (affinityMask p) (taskID p) (callers p)
    (closers p) (constraints p) (ran p) (dropped p) (futures p) (terminated p).
Definition set_caller (i : nat) (c : caller) (p : pool) : pool :=
  mkpool (constructing p) (initialised p) (shutdown p) (numTaskedQueued p) (numTasksRunning p) (taskQueue p)
    (recycledTasks p) (numThreads p) (threads p) (affinityMask p) (taskID p) (<[i := c]> (callers p))
    (closers p) (constraints p) (ran p) (dropped p) (futures p) (terminated p).
Definition set_closer (i : nat) (c : closer) (p : pool) : pool :=
  mkpool (constructing p) (initialised p) (shutdown p) (numTaskedQueued p) (numTasksRunning p) (taskQueue p)
    (recycledTasks p) (numThreads p) (threads p) (affinityMask p) (taskID p) (callers p)
    (<[i := c]> (closers p)) (constraints p) (ran p) (dropped p) (futures p) (terminated p).
Definition set_counters (queued running threads_ : Z) (p : pool) : pool :=
  mkpool (constructing p) (initialised p) (shutdown p) queued running (taskQueue p)
    (recycledTasks p) threads_ (threads p) (affinityMask p) (taskID p) (callers p)
    (closers p) (constraints p) (ran p) (dropped p) (futures p) (terminated p).
Definition set_queues (q r : TaskContainer) (p : pool) : pool :=
  mkpool (constructing p) (initialised p) (shutdown p) (numTaskedQueued p) (numTasksRunning p) q r
    (numThreads p) (threads p) (affinityMask p) (taskID p) (callers p)
    (closers p) (constraints p) (ran p) (dropped p) (futures p) (terminated p).
Definition set_flags (init shut term : bool) (p : pool) : pool :=
  mkpool (constructing p) init shut (numTaskedQueued p) (numTasksRunning p) (taskQueue p) (recycledTasks p)
    (numThreads p) (threads p) (affinityMask p) (taskID p) (callers p)
    (closers p) (constraints p) (ran p) (dropped p) (futures p) term.
Definition set_taskID (n : Z) (p : pool) : pool :=
  mkpool (constructing p) (initialised p) (shutdown p) (numTaskedQueued p) (numTasksRunning p) (taskQueue p)
    (recycledTasks p) (numThreads p) (threads p) (affinityMask p) n (callers p)
    (closers p) (constraints p) (ran p) (dropped p) (futures p) (terminated p).
Definition set_constraints (mask : list bool) (cs : list (nat * constraint)) (p : pool) : pool :=
  mkpool (constructing p) (initialised p) (shutdown p) (numTaskedQueued p) (numTasksRunning p) (taskQueue p)
    (recycledTasks p) (numThreads p) (threads p) mask (taskID p) (callers p)
    (closers p) cs (ran p) (dropped p) (futures p) (terminated p).
Definition set_history (rs ds : list nat) (fs : list (nat * result Z)) (p : pool) : pool :=
  mkpool (constructing p) (initialised p) (shutdown p) (numTaskedQueued p) (numTasksRunning p) (taskQueue p)
    (recycledTasks p) (numThreads p) (threads p) (affinityMask p) (taskID p) (callers p)
    (closers p) (constraints p) rs ds fs (terminated p).

Definition incr (z : Z) : Z := wrapu 64 (z + 1).
Definition decr (z : Z) : Z := wrapu 64 (z - 1).

(** What the environment decides in a step: whether a time has run out or a
    weak compare-and-swap fails for no reason; what the callable returns or
    throws; which blocked thread a notification wakes. *)
Record choice : Type := mkchoice { late : bool; outcome : result Z; who : nat }.

Definition N_SPIN : Z := 256.

Definition tickets (q : TaskContainer) : list nat :=
  q ≫= λ t, match func t with Some f => [ticket f] | None => [] end.

(** [TaskQueue::clear] on the queue of tasks. *)
Definition clear_tasks (p : pool) : pool :=
  set_history (ran p) (tickets (taskQueue p) ++ dropped p) (futures p)
    (set_queues [] (recycledTasks p) p).

(** [move_only_function::operator()], and what becomes of the result: the
    overload with a future catches what its callable throws; an exception from
    the other one leaves [worker] and terminates the program. *)
Definition call (f : move_only_function) (r : result Z) (p : pool) : pool :=
  match f with
  | None => p
  | Some f =>
      let p := set_history (ticket f :: ran p) (dropped p) (futures p) p in
      if promised f then set_history (ran p) (dropped p) ((ticket f, r) :: futures p) p
      else match r with
           | Ok _ => p
           | Throw _ => set_flags (initialised p) (shutdown p) true p
           end
  end.

Definition at_pc (pc : wpc) (w : worker) : worker := mkworker pc (threadID w) (noop_counter w) (w_joined w).
Definition spinning (pc : wpc) (n : Z) (w : worker) : worker := mkworker pc (threadID w) n (w_joined w).

Definition is_asleep (w : worker) : bool := match w_pc w with Asleep => true | _ => false end.

Fixpoint first_asleep (ws : list worker) : option nat :=
  match ws with
  | [] => None
  | w :: ws' => if is_asleep w then Some O else S <$> first_asleep ws'
  end.

(** [_condition.notify_one()]: one of the blocked threads, if there is any,
    looks at its predicate again. *)
Definition notify_one (k : nat) (ws : list worker) : list worker :=
  let i := match ws !! k with
           | Some w => if is_asleep w then Some k else first_asleep ws
           | None => first_asleep ws
           end in
  match i with
  | Some i => alter (at_pc Testing) i ws
  | None => ws
  end.

Definition notify_all (ws : list worker) : list worker :=
  (λ w, if is_asleep w then at_pc Testing w else w) <$> ws.

(** [createWorkerThread]. *)
Definition createWorkerThread (taskType : TaskType) (minThreads : Z) (p : pool) : pool :=
  let i := length (threads p) in
  set_constraints (affinityMask p)
    (constraints p
     ++ ((λ c, (i, c)) <$> updateThreadConstraints taskType minThreads (affinityMask p)
                             (wrapu 64 (numThreads p + 1))))
    (set_threads (threads p ++ [mkworker Created 0 0 false]) p).

(** [updateThreadConstraints()]: all threads of the list, numbered in its order. *)
Definition updateAllThreadConstraints (taskType : TaskType) (minThreads : Z) (p : pool) : pool :=
  set_constraints (affinityMask p)
    (constraints p
     ++ (seq 0 (length (threads p)) ≫= λ i,
           (λ c, (i, c)) <$> updateThreadConstraints taskType minThreads (affinityMask p) (Z.of_nat i)))
    p.

Definition setAffinityMask (taskType : TaskType) (minThreads : Z) (mask : list bool) (p : pool) : pool :=
  updateAllThreadConstraints taskType minThreads (set_constraints mask (constraints p) p).

(** A step of the worker thread [i], a turn of the loop of [worker()] cut at its
    accesses; [None]: it cannot move. *)
Definition worker_step (minThreads : Z) (i : nat) (c : choice) (p : pool) : option pool :=
  w ← threads p !! i;
  let go pc := set_worker i (at_pc pc w) in
  match w_pc w with
  | Created =>
      Some (set_worker i (mkworker Counted (numThreads p) 0 (w_joined w))
              (set_counters (numTaskedQueued p) (numTasksRunning p) (incr (numThreads p)) p))
  | Counted =>
      Some (go Popping
              (if minThreads <=? numThreads p then set_flags true (shutdown p) (terminated p) p else p))
  | Popping =>
      match pop (taskQueue p) with
      | ([], _) =>
          let n := wrapu 32 (noop_counter w + 1) in
          Some (if N_SPIN <? n then set_worker i (spinning Testing (n / 2) w) p
                else set_worker i (spinning Deciding n w) p)
      | (c, q) => Some (go (Popped c) (set_queues q (recycledTasks p) p))
      end
  | Popped c =>
      Some (go (Starting c) (set_counters (decr (numTaskedQueued p)) (numTasksRunning p) (numThreads p) p))
  | Starting c =>
      Some (go (Calling c) (set_counters (numTaskedQueued p) (incr (numTasksRunning p)) (numThreads p) p))
  | Calling ts =>
      match ts with
      | [] => None
      | t :: _ => Some (go (Called ts) (call (func t) (outcome c) p))
      end
  | Called ts =>
      match ts with
      | [] => None
      | t :: ts =>
          r ← push (reset t :: ts) (recycledTasks p);
          Some (go Finishing (set_queues (taskQueue p) r p))
      end
  | Finishing =>
      Some (set_worker i (spinning Deciding 0 w)
              (set_counters (numTaskedQueued p) (decr (numTasksRunning p)) (numThreads p) p))
  | Testing => Some (go (if 0 <? numTaskedQueued p then Deciding else Testing_shutdown) p)
  | Testing_shutdown => Some (go (if shutdown p then Deciding else Blocking) p)
  | Blocking => Some (go Asleep p)
  | Asleep => Some (go (if late c then Deciding else Testing) p)
  | Deciding =>
      if shutdown p
      then Some (go (Leaving (numThreads p))
                   (set_counters (numTaskedQueued p) (numTasksRunning p) (decr (numThreads p)) p))
      else Some (go Comparing_time p)
  | Comparing_time => Some (go (if late c then Shrinking (numThreads p) else Popping) p)
  | Shrinking n =>
      if minThreads <? n
      then if bool_decide (numThreads p = n) && negb (late c)
           then Some (go (Leaving n)
                        (set_counters (numTaskedQueued p) (numTasksRunning p) (n - 1) p))
           else Some (go (Shrinking (numThreads p)) p)
      else Some (go Popping p)
  | Leaving n =>
      if n =? 1 then Some (go Clearing (set_queues (taskQueue p) [] p)) else Some (go Exited p)
  | Clearing => Some (go Exited (clear_tasks p))
  | Exited => None
  end.

(** The task that [createTask] makes out of a recycled one, or of nothing. *)
Definition fill (k : nat) (r : request) (n : Z) (c : TaskContainer) : TaskContainer :=
  let f := Some (mkcallable k (r_promised r)) in
  let n := wrapu 64 (n + 1) in
  match c with
  | [] => [mkTask n f (r_name r) (queued_priority (r_priority r)) (r_cpuID r)]
  | t :: ts => mkTask n f (if decide (r_name r = []) then name t else r_name r)
                      (queued_priority (r_priority r)) (r_cpuID r) :: ts
  end.

(** A step of the thread in the [k]-th call of [execute]. *)
Definition caller_step (taskType : TaskType) (minThreads maxThreads : Z) (k : nat) (c : choice) (p : pool)
    : option pool :=
  l ← callers p !! k;
  let go pc := set_caller k (mkcaller (c_request l) pc) in
  match c_pc l with
  | Entering =>
      Some (go Creating (set_counters (incr (numTaskedQueued p)) (numTasksRunning p) (numThreads p) p))
  | Creating =>
      let '(c, r) := pop (recycledTasks p) in
      Some (go (Numbering c) (set_queues (taskQueue p) r p))
  | Numbering c =>
      Some (go (Pushing (fill k (c_request l) (taskID p) c)) (set_taskID (wrapu 64 (taskID p + 1)) p))
  | Pushing c =>
      q ← push c (taskQueue p);
      Some (go Notifying (set_queues q (recycledTasks p) p))
  | Notifying =>
      Some (go (match taskType with IO_BOUND => Watching | CPU_BOUND => Returned end)
               (set_threads (notify_one (who c) (threads p)) p))
  | Watching => Some (go (match taskQueue p with [] => Returned | _ => Loading_threads end) p)
  | Loading_threads => Some (go (Loading_running (numThreads p)) p)
  | Loading_running n =>
      Some (go (if (n <=? numTasksRunning p) && (n <=? maxThreads) then Growing else Nudging) p)
  | Growing => Some (go Nudging (createWorkerThread taskType minThreads p))
  | Nudging => Some (go Watching (set_threads (notify_one (who c) (threads p)) p))
  | Returned | Refused _ => None
  end.

(** The entry of [execute]: the check of the core that is asked for. *)
Definition enter (r : request) (p : pool) : pool :=
  let refused :=
    if 0 <=? r_cpuID r
    then negb (nth (Z.to_nat (r_cpuID r)) (affinityMask p) false)
    else false in
  mkpool (constructing p) (initialised p) (shutdown p) (numTaskedQueued p) (numTasksRunning p) (taskQueue p)
    (recycledTasks p) (numThreads p) (threads p) (affinityMask p) (taskID p)
    (callers p ++ [mkcaller r (if refused then Refused InvalidArgument else Entering)])
    (closers p) (constraints p) (ran p) (dropped p) (futures p) (terminated p).

Definition close (d : bool) (p : pool) : pool :=
  mkpool (constructing p) (initialised p) (shutdown p) (numTaskedQueued p) (numTasksRunning p) (taskQueue p)
    (recycledTasks p) (numThreads p) (threads p) (affinityMask p) (taskID p) (callers p)
    (closers p ++ [mkcloser d Flagging]) (constraints p) (ran p) (dropped p) (futures p) (terminated p).

(** A step of the thread in the [k]-th [requestShutdown] or destructor. *)
Definition closer_step (k : nat) (p : pool) : option pool :=
  l ← closers p !! k;
  let go pc := set_closer k (mkcloser (destructor l) pc) in
  match s_pc l with
  | Flagging => Some (go Alerting (set_flags (initialised p) true (terminated p) p))
  | Alerting => Some (go (Joining 0) (set_threads (notify_all (threads p)) p))
  | Joining j =>
      match threads p !! j with
      | None => Some (go Closed p)
      | Some w =>
          if w_joined w
          then Some (go (Failed RuntimeError)
                       (set_flags (initialised p) (shutdown p) (terminated p || destructor l) p))
          else match w_pc w with
               | Exited =>
                   Some (go (Joining (S j))
                           (set_worker j (mkworker Exited (threadID w) (noop_counter w) true) p))
               | _ => None
               end
      end
  | Closed | Failed _ => None
  end.

(** The constructor: [start] is the pool before the loop that creates the
    threads, [construct] a turn of it. *)
Definition start (minThreads taskID : Z) : pool :=
  mkpool (Z.to_nat minThreads) false false 0 0 [] [] 0 [] [] taskID [] [] [] [] [] [] false.

Definition construct (taskType : TaskType) (minThreads : Z) (p : pool) : option pool :=
  match constructing p with
  | O => None
  | S n =>
      let p := createWorkerThread taskType minThreads p in
      Some (mkpool n (initialised p) (shutdown p) (numTaskedQueued p) (numTasksRunning p) (taskQueue p)
              (recycledTasks p) (numThreads p) (threads p) (affinityMask p) (taskID p) (callers p)
              (closers p) (constraints p) (ran p) (dropped p) (futures p) (terminated p))
  end.

(** Anyone may call the methods once the constructor has returned; the callables
    themselves do so too. *)
Inductive action : Type :=
  | Construct
  | Worker (i : nat) (c : choice)
  | Enter (r : request)
  | Caller (k : nat) (c : choice)
  | Close (destructor : bool)
  | Closer (k : nat)
  | SetAffinityMask (mask : list bool)
  | SetThreadSchedulingPolicy.

Definition act (taskType : TaskType) (minThreads maxThreads : Z) (a : action) (p : pool) : option pool :=
  if terminated p then None else
  let method p' := match constructing p with O => Some p' | S _ => None end in
  match a with
  | Construct => construct taskType minThreads p
  | Worker i c => worker_step minThreads i c p
  | Enter r => method (enter r p)
  | Caller k c => caller_step taskType minThreads maxThreads k c p
  | Close d => method (close d p)
  | Closer k => closer_step k p
  | SetAffinityMask mask => method (setAffinityMask taskType minThreads mask p)
  | SetThreadSchedulingPolicy => method (updateAllThreadConstraints taskType minThreads p)
  end.

Fixpoint run (taskType : TaskType) (minThreads maxThreads : Z) (l : list action) (p : pool) : option pool :=
  match l with
  | [] => Some p
  | a :: l' => p' ← act taskType minThreads maxThreads a p; run taskType minThreads maxThreads l' p'
  end.

Inductive reachable (taskType : TaskType) (minThreads maxThreads n : Z) : pool → Prop :=
  | reach_start : reachable taskType minThreads maxThreads n (start minThreads n)
  | reach_act p a p' :
      reachable taskType minThreads maxThreads n p → act taskType minThreads maxThreads a p = Some p' →
      reachable taskType minThreads maxThreads n p'.

Lemma run_reachable ty mn mx n l p p' :
  reachable ty mn mx n p → run ty mn mx l p = Some p' → reachable ty mn mx n p'.
Proof.
  revert p. induction l as [|a l IH]; simpl; intros p Hr H; [by simplify_eq|].
  destruct (act ty mn mx a p) as [q|] eqn:E; [|done]. eapply IH; [|exact H]. by eapply reach_act.
Qed.

(** ** Where a task is *)

Definition b2n (b : bool) : nat := if b then 1 else 0.

Definition occurs (k : nat) (l : list nat) : nat := total (λ j, b2n (bool_decide (j = k))) l.
Definition held (pc : wpc) : list nat :=
  match pc with Popped c | Starting c | Calling c => tickets c | _ => [] end.
Definition c_waiting (pc : cpc) : nat :=
  match pc with Entering | Creating | Numbering _ | Pushing _ => 1 | _ => 0 end.
Definition c_accepted (pc : cpc) : nat := match pc with Refused _ => 0 | _ => 1 end.
Definition caller_is (f : cpc → nat) (k : nat) (ls : list caller) : nat :=
  match ls !! k with Some l => f (c_pc l) | None => 0 end.

(** The sum over the worker threads of a number that depends on where each is. *)
Definition count (f : wpc → nat) (ws : list worker) : nat := total (λ w, f (w_pc w)) ws.

(** How many places hold the call [k]. *)
Definition places (k : nat) (p : pool) : nat :=
  caller_is c_waiting k (callers p) + occurs k (tickets (taskQueue p)) + count (λ pc, occurs k (held pc)) (threads p)
  + occurs k (ran p) + occurs k (dropped p).

(** The counters. *)
Definition w_popped (pc : wpc) : nat := match pc with Popped _ => 1 | _ => 0 end.
Definition w_running (pc : wpc) : nat := match pc with Calling _ | Called _ | Finishing => 1 | _ => 0 end.
Definition w_counted (pc : wpc) : nat :=
  match pc with Created | Leaving _ | Clearing | Exited => 0 | _ => 1 end.
Definition w_kept (pc : wpc) : nat := match pc with Leaving _ | Clearing | Exited => 0 | _ => 1 end.
Definition c_between (l : caller) : nat :=
  match c_pc l with Creating | Numbering _ | Pushing _ => 1 | _ => 0 end.

(** ** Notifications change no count *)

Lemma first_asleep_Some ws i :
  first_asleep ws = Some i → ∃ w, ws !! i = Some w ∧ w_pc w = Asleep.
Proof.
  revert i. induction ws as [|w ws IH]; simpl; intros i H; [done|]. unfold is_asleep in H.
  destruct (w_pc w) eqn:E; try (apply fmap_Some in H as (j & Hj & ->); naive_solver).
  simplify_eq. by exists w.
Qed.

Lemma alter_to_insert {A} (f : A → A) (l : list A) i x : l !! i = Some x → alter f i l = <[i := f x]> l.
Proof. revert i. induction l as [|y l IH]; intros [|i] H; simplify_eq/=; [done|]. f_equal. by apply IH. Qed.

Lemma notify_one_cases k ws :
  notify_one k ws = ws
  ∨ ∃ i w, ws !! i = Some w ∧ w_pc w = Asleep ∧ notify_one k ws = <[i := at_pc Testing w]> ws.
Proof.
  assert (H : ∀ i, (∃ w, ws !! i = Some w ∧ w_pc w = Asleep) →
            ∃ i' w, ws !! i' = Some w ∧ w_pc w = Asleep
              ∧ alter (at_pc Testing) i ws = <[i' := at_pc Testing w]> ws).
  { intros i (w & Hi & Hw). exists i, w. split; [done|]. split; [done|].
    by rewrite (alter_to_insert _ _ _ _ Hi). }
  unfold notify_one. destruct (ws !! k) as [w|] eqn:E; [destruct (is_asleep w) eqn:Ew|].
  - right. apply H. exists w. split; [done|]. unfold is_asleep in Ew. by destruct (w_pc w).
  - destruct (first_asleep ws) as [i|] eqn:Ef; [|by left]. right. by apply H, first_asleep_Some.
  - destruct (first_asleep ws) as [i|] eqn:Ef; [|by left]. right. by apply H, first_asleep_Some.
Qed.

Lemma count_insert f ws i w w' :
  ws !! i = Some w → (count f (<[i := w']> ws) + f (w_pc w) = count f ws + f (w_pc w'))%nat.
Proof. apply (total_insert (λ w, f (w_pc w))). Qed.

Lemma count_create f ws w : count f (ws ++ [w]) = (count f ws + f (w_pc w))%nat.
Proof. unfold count. rewrite total_app. unfold total. simpl. lia. Qed.

Lemma count_notify_one f k ws : f Testing = f Asleep → count f (notify_one k ws) = count f ws.
Proof.
  intros Hf. destruct (notify_one_cases k ws) as [->|(i & w & Hi & Hw & ->)]; [done|].
  pose proof (count_insert f ws i w (at_pc Testing w) Hi) as H. rewrite Hw in H. simpl in H. lia.
Qed.

Lemma count_notify_all f ws : f Testing = f Asleep → count f (notify_all ws) = count f ws.
Proof.
  intros Hf. unfold count, total, notify_all. induction ws as [|w ws IH]; simpl; [done|].
  f_equal; [|exact IH]. unfold is_asleep. by destruct (w_pc w) eqn:E; simpl; rewrite ?E.
Qed.

Lemma Forall_notify_one (P : worker → Prop) k ws :
  (∀ w, P w → P (at_pc Testing w)) → Forall P ws → Forall P (notify_one k ws).
Proof.
  intros HP H. destruct (notify_one_cases k ws) as [->|(i & w & Hi & Hw & ->)]; [done|].
  apply Forall_insert; [done|]. apply HP. by eapply Forall_lookup_1.
Qed.

Lemma Forall_notify_all (P : worker → Prop) ws :
  (∀ w, P w → P (at_pc Testing w)) → Forall P ws → Forall P (notify_all ws).
Proof.
  intros HP H. apply Forall_fmap. eapply Forall_impl; [exact H|]. intros w Hw. simpl.
  destruct (is_asleep w); auto.
Qed.

(** ** The shape of the state *)

Definition one_task (c : TaskContainer) : Prop := ∃ t, c = [t] ∧ is_Some (func t).

Definition worker_ok (down : bool) (w : worker) : Prop :=
  match w_pc w with
  | Popped c | Starting c | Calling c => one_task c
  | Called c => ∃ t, c = [t]
  | Leaving n => down = true ∨ n ≠ 1
  | Clearing => down = true
  | _ => True
  end.

Definition caller_ok (k : nat) (l : caller) : Prop :=
  match c_pc l with
  | Numbering c => c = [] ∨ c = [Task_new]
  | Pushing c => ∃ t, c = [t] ∧ func t = Some (mkcallable k (r_promised (c_request l)))
  | _ => True
  end.

Record shape (p : pool) : Prop := {
  s_workers : Forall (worker_ok (shutdown p)) (threads p);
  s_callers k l : callers p !! k = Some l → caller_ok k l;
  s_queue : Forall (λ t, is_Some (func t)) (taskQueue p);
  s_recycled : Forall (λ t, t = Task_new) (recycledTasks p)
}.

Lemma insert_before_perm q job tasks : insert_before q job tasks ≡ₚ job ++ tasks.
Proof.
  induction tasks as [|u tasks IH]; simpl; [by rewrite app_nil_r|].
  destruct (priority u <? q); [done|]. by rewrite IH, Permutation_middle.
Qed.

Lemma push_perm job tasks tasks' : push job tasks = Some tasks' → tasks' ≡ₚ job ++ tasks.
Proof.
  unfold push. destruct job as [|t job]; [done|]. intros [= <-].
  destruct (priority t =? 0); [apply Permutation_app_comm|apply insert_before_perm].
Qed.

Lemma push_Some t job tasks : is_Some (push (t :: job) tasks).
Proof. unfold push. eauto. Qed.

Lemma worker_ok_testing d w : worker_ok d (at_pc Testing w).
Proof. done. Qed.

Lemma callers_insert k l l' p :
  (∀ j m, callers p !! j = Some m → caller_ok j m) → callers p !! k = Some l → caller_ok k l' →
  ∀ j m, <[k := l']> (callers p) !! j = Some m → caller_ok j m.
Proof.
  intros H Hk Hok j m. rewrite list_lookup_insert. case_decide as Hd; [naive_solver|]. apply H.
Qed.

Lemma when_built (p q q' : pool) :
  match constructing p with O => Some q | S _ => None end = Some q' → q = q'.
Proof. destruct (constructing p); congruence. Qed.

Section invariants.
Context (ty : TaskType) (mn mx : Z).

Lemma worker_step_shape i c p p' :
  0 < mn → shape p → worker_step mn i c p = Some p' → shape p'.
Proof.
  intros Hmn [H1 H2 H3 H4] H. unfold worker_step in H.
  apply bind_Some in H as (w & Hw & H). pose proof (Forall_lookup_1 _ _ _ _ H1 Hw) as Hok.
  assert (Hset : ∀ d w', d = shutdown p → worker_ok d w' → Forall (worker_ok d) (<[i := w']> (threads p))).
  { intros d w' -> Hw'. by apply Forall_insert. }
  unfold worker_ok in Hok. destruct (w_pc w) as [| | |ts|ts|ts|ts| | | | | | | |n|n| |] eqn:Ew; simplify_eq/=.
  - constructor; simpl; auto; by apply Hset.
  - destruct (mn <=? numThreads p); constructor; simpl; auto; by apply Hset.
  - destruct (taskQueue p) as [|t q] eqn:Eq; simpl in H; simplify_eq/=.
    + destruct (N_SPIN <? _); constructor; simpl; auto; try (by apply Hset); by rewrite Eq.
    + apply Forall_cons in H3 as [Ht H3]. constructor; simpl; auto. apply Hset; [done|]. by exists t.
  - constructor; simpl; auto; by apply Hset.
  - constructor; simpl; auto; by apply Hset.
  - destruct Hok as (t & -> & [f Hf]). simplify_eq/=. rewrite Hf.
    assert (Hc : Forall (worker_ok (shutdown p)) (<[i := at_pc (Called [t]) w]> (threads p))).
    { apply Hset; [done|]. by exists t. }
    unfold call. destruct (promised f); [by constructor|].
    destruct (outcome c); by constructor.
  - destruct Hok as (t & ->). simplify_eq/=.
    constructor; simpl; auto; [by apply Hset|]. apply Forall_app. by repeat constructor.
  - constructor; simpl; auto; by apply Hset.
  - constructor; simpl; auto. apply Hset; [done|]. by destruct (0 <? _).
  - constructor; simpl; auto. apply Hset; [done|]. by destruct (shutdown p).
  - constructor; simpl; auto; by apply Hset.
  - constructor; simpl; auto. apply Hset; [done|]. by destruct (late c).
  - destruct (shutdown p) eqn:Es; simplify_eq/=; constructor; simpl; auto; rewrite ?Es; apply Hset; auto.
    by left.
  - constructor; simpl; auto. apply Hset; [done|]. by destruct (late c).
  - destruct (Z.ltb_spec mn n); [destruct (bool_decide _ && _)|]; simplify_eq/=;
      constructor; simpl; auto; apply Hset; try done. right. lia.
  - destruct (Z.eqb_spec n 1); simplify_eq/=; constructor; simpl; auto; apply Hset; try done.
    by destruct Hok.
  - constructor; simpl; auto; by apply Hset.
Qed.

Lemma caller_step_shape k c p p' :
  shape p → caller_step ty mn mx k c p = Some p' → shape p'.
Proof.
  intros [H1 H2 H3 H4] H. unfold caller_step in H.
  apply bind_Some in H as (l & Hl & H). pose proof (H2 k l Hl) as Hok.
  pose proof (λ l', callers_insert k l l' p H2 Hl) as Hset.
  unfold caller_ok in Hok. destruct (c_pc l) as [| |ts|ts| | | |n| | | |e] eqn:El; simplify_eq/=.
  - constructor; simpl; auto; by apply Hset.
  - destruct (recycledTasks p) as [|t r] eqn:Er; simplify_eq/=.
    + constructor; simpl; auto. apply Hset. by left.
    + apply Forall_cons in H4 as [-> H4]. constructor; simpl; auto. apply Hset. by right.
  - constructor; simpl; auto. apply Hset. destruct Hok as [->| ->]; by eexists.
  - apply bind_Some in H as (q & Hq & H). destruct Hok as (t & -> & Ht). simplify_eq.
    constructor; simpl; auto; try (by apply Hset).
    rewrite (push_perm _ _ _ Hq). constructor; [|done]. by rewrite Ht.
  - constructor; simpl; auto; [by apply Forall_notify_one|]. apply Hset. by destruct ty.
  - constructor; simpl; auto. apply Hset. by destruct (taskQueue p).
  - constructor; simpl; auto; by apply Hset.
  - constructor; simpl; auto. apply Hset. by destruct (_ && _).
  - constructor; simpl; auto; [|by apply Hset]. apply Forall_app. split; [done|]. by repeat constructor.
  - constructor; simpl; auto; [by apply Forall_notify_one|]. by apply Hset.
Qed.

Lemma worker_ok_down d w : worker_ok d w → worker_ok true w.
Proof. unfold worker_ok. destruct (w_pc w); auto. Qed.

Lemma closer_step_shape k p p' : shape p → closer_step k p = Some p' → shape p'.
Proof.
  intros [H1 H2 H3 H4] H. unfold closer_step in H. apply bind_Some in H as (l & Hl & H).
  destruct (s_pc l) as [| |j| |e]; simplify_eq/=.
  - constructor; simpl; auto. eapply Forall_impl; [exact H1|]. apply worker_ok_down.
  - constructor; simpl; auto. by apply Forall_notify_all.
  - destruct (threads p !! j) as [w|] eqn:Hw; simplify_eq/=; [|by constructor].
    destruct (w_joined w); simplify_eq/=; [by constructor|].
    destruct (w_pc w); simplify_eq/=. constructor; simpl; auto. by apply Forall_insert.
Qed.

Lemma act_shape a p p' : 0 < mn → shape p → act ty mn mx a p = Some p' → shape p'.
Proof.
  intros Hmn Hs H. unfold act in H. destruct (terminated p); [done|].
  destruct a as [|i c|r|k c|d|k|m|].
  - unfold construct in H. destruct (constructing p); simplify_eq/=. destruct Hs. constructor; simpl; auto.
    apply Forall_app. split; [done|]. by repeat constructor.
  - by eapply worker_step_shape.
  - apply when_built in H as <-. destruct Hs as [H1 H2 H3 H4]. constructor; simpl; auto.
    intros k l [Hk|[_ Hk]]%lookup_app_Some; [by apply H2|].
    apply list_lookup_singleton_Some in Hk as [_ <-]. unfold caller_ok. simpl.
    by destruct (if _ <=? _ then _ else _).
  - by eapply caller_step_shape.
  - apply when_built in H as <-. by destruct Hs.
  - by eapply closer_step_shape.
  - apply when_built in H as <-. by destruct Hs.
  - apply when_built in H as <-. by destruct Hs.
Qed.
End invariants.

(** ** The ledger of the tasks and the counters *)

Lemma occurs_nil k : occurs k [] = O.
Proof. done. Qed.

Lemma occurs_app k l m : occurs k (l ++ m) = (occurs k l + occurs k m)%nat.
Proof. apply total_app. Qed.

Lemma occurs_perm k l m : l ≡ₚ m → occurs k l = occurs k m.
Proof.
  unfold occurs, total. induction 1; simpl; lia.
Qed.

Lemma tickets_app c d : tickets (c ++ d) = tickets c ++ tickets d.
Proof. apply bind_app. Qed.

Lemma tickets_cons t q : tickets (t :: q) = tickets [t] ++ tickets q.
Proof. apply (tickets_app [t]). Qed.

Lemma tickets_perm c d : c ≡ₚ d → tickets c ≡ₚ tickets d.
Proof. intros H. unfold tickets. by rewrite H. Qed.

Lemma tickets_length q : Forall (λ t, is_Some (func t)) q → length (tickets q) = length q.
Proof.
  induction 1 as [|t q [f Hf] _ IH]; [done|]. unfold tickets in *. simpl. rewrite Hf. simpl. f_equal. exact IH.
Qed.

Lemma caller_is_set f k l l' j ls :
  ls !! k = Some l →
  caller_is f j (<[k := l']> ls) = if decide (j = k) then f (c_pc l') else caller_is f j ls.
Proof.
  intros Hk. unfold caller_is. destruct (decide (j = k)) as [->|Hne].
  - rewrite list_lookup_insert_eq; [done|]. by eapply lookup_lt_Some.
  - by rewrite list_lookup_insert_ne.
Qed.

Lemma wrapu_pred z n : wrapu 64 z = n → 0 < n → n - 1 = wrapu 64 (z - 1).
Proof.
  unfold wrapu. intros <- Hn. pose proof (Z.mod_pos_bound z (2 ^ 64) eq_refl).
  rewrite Zminus_mod, (Z.mod_small 1) by lia. rewrite (Z.mod_small (z mod 2 ^ 64 - 1)); lia.
Qed.

Lemma wrapu_le_nat n : wrapu 64 (Z.of_nat n) ≤ Z.of_nat n.
Proof. unfold wrapu. apply Z.mod_le; lia. Qed.

Lemma counted_kept ws : (count w_counted ws ≤ count w_kept ws)%nat.
Proof. apply total_le. intros w. unfold w_counted, w_kept. destruct (w_pc w); lia. Qed.

Record ledger (mn : Z) (p : pool) : Prop := {
  (* a call of execute that was accepted is in exactly one place *)
  l_places k : places k p = caller_is c_accepted k (callers p);
  l_queued : numTaskedQueued p
             = wrapu 64 (Z.of_nat (total c_between (callers p) + length (taskQueue p)
                                   + count w_popped (threads p) + length (dropped p)));
  l_running : numTasksRunning p = wrapu 64 (Z.of_nat (count w_running (threads p)));
  l_threads : numThreads p = wrapu 64 (Z.of_nat (count w_counted (threads p)));
  l_kept : shutdown p = false → mn ≤ Z.of_nat (constructing p + count w_kept (threads p));
  l_init : initialised p = true → shutdown p = false → mn ≤ Z.of_nat (count w_counted (threads p));
  l_dropped : shutdown p = false → dropped p = [];
  l_futures : (fst <$> futures p) `sublist_of` ran p
}.

Lemma same_count z n m : z = wrapu 64 (Z.of_nat n) → m = n → z = wrapu 64 (Z.of_nat m).
Proof. by intros -> ->. Qed.
Lemma incr_count z n m : z = wrapu 64 (Z.of_nat n) → m = S n → incr z = wrapu 64 (Z.of_nat m).
Proof. intros -> ->. unfold incr. rewrite wrapu_add. f_equal. lia. Qed.
Lemma decr_count z n m : z = wrapu 64 (Z.of_nat n) → n = S m → decr z = wrapu 64 (Z.of_nat m).
Proof. intros -> ->. unfold decr. rewrite <- Z.add_opp_r, wrapu_add. f_equal. lia. Qed.

#[local] Arguments tickets : simpl never.
#[local] Arguments occurs : simpl never.

(** What the move of one worker does to every count. *)
Ltac counted Hc w' :=
  let T := fresh "T" in
  pose proof (Hc w_popped w') as T; simpl in T;
  let T := fresh "T" in pose proof (Hc w_running w') as T; simpl in T;
  let T := fresh "T" in pose proof (Hc w_counted w') as T; simpl in T;
  let T := fresh "T" in pose proof (Hc w_kept w') as T; simpl in T;
  let T := fresh "T" in pose proof (λ k, Hc (λ pc, occurs k (held pc)) w') as T; simpl in T.

(** The fields of [ledger] that a step does not touch, or that follow by
    counting. *)
Ltac account :=
  match goal with
  | L : ∀ k, places k _ = _ |- ∀ k, places k _ = _ =>
      let k := fresh "k" in
      intros k; specialize (L k);
      repeat match goal with T : ∀ k : nat, (_ + _)%nat = (_ + _)%nat |- _ => specialize (T k) end;
      unfold places in *; simpl in *; rewrite ?tickets_app, ?occurs_app, ?occurs_nil in *; lia
  | L : ?z = wrapu 64 _ |- ?z = wrapu 64 _ => eapply same_count; [exact L|lia]
  | L : ?z = wrapu 64 _ |- incr ?z = wrapu 64 _ => eapply incr_count; [exact L|lia]
  | L : ?z = wrapu 64 _ |- decr ?z = wrapu 64 _ => eapply decr_count; [exact L|lia]
  | _ =>
      try solve [intros; simpl in *;
        repeat match goal with
          L : ?P → _, H : ?P |- _ => match type of P with Prop => specialize (L H) end end;
        first [done|lia]]
  end.

Section ledger.
Context (ty : TaskType) (mn mx : Z) (Hmn : 0 < mn).

Lemma worker_step_ledger i c p p' :
  shape p → ledger mn p → worker_step mn i c p = Some p' → ledger mn p'.
Proof using Hmn.
  intros Hs [L1 L2 L3 L4 L5 L6 L7 L8] H. unfold worker_step in H.
  apply bind_Some in H as (w & Hw & H).
  pose proof (Forall_lookup_1 _ _ _ _ (s_workers _ Hs) Hw) as Hok.
  pose proof (λ f w', count_insert f (threads p) i w w' Hw) as Hc.
  unfold worker_ok in Hok. revert Hc.
  destruct (w_pc w) as [| | |ts|ts|ts|ts| | | | | | | |n|n| |] eqn:Ew; intros Hc.
  - simplify_eq. counted Hc (mkworker Counted (numThreads p) 0 (w_joined w)).
    constructor; simpl; account.
  - simplify_eq. counted Hc (at_pc Popping w).
    destruct (Z.leb_spec mn (numThreads p)) as [Hle|Hle]; constructor; simpl; account.
    intros _ _. pose proof (wrapu_le_nat (count w_counted (threads p))). lia.
  - destruct (taskQueue p) as [|t q] eqn:Eq; simpl in H; simplify_eq/=.
    + destruct (N_SPIN <? _); simplify_eq/=.
      * counted Hc (spinning Testing (wrapu 32 (noop_counter w + 1) / 2) w).
        constructor; simpl; rewrite ?Eq; simpl; account.
      * counted Hc (spinning Deciding (wrapu 32 (noop_counter w + 1)) w).
        constructor; simpl; rewrite ?Eq; simpl; account.
    + counted Hc (at_pc (Popped [t]) w). constructor; simpl; account.
      intros k. specialize (L1 k). specialize (T3 k). unfold places in *. rewrite Eq in L1. simpl in *.
      rewrite tickets_cons, occurs_app in L1. rewrite occurs_nil in T3. lia.
  - simplify_eq. counted Hc (at_pc (Starting ts) w). constructor; simpl; account.
  - simplify_eq. counted Hc (at_pc (Calling ts) w). constructor; simpl; account.
  - destruct Hok as (t & -> & [f Hf]). simplify_eq/=. rewrite Hf.
    counted Hc (at_pc (Called [t]) w).
    assert (Ht : tickets [t] = [ticket f]) by (unfold tickets; simpl; by rewrite Hf).
    rewrite Ht in *. unfold call.
    assert (Hl : ledger mn (set_worker i (at_pc (Called [t]) w)
                   (set_history (ticket f :: ran p) (dropped p) (futures p) p))).
    { constructor; simpl; account; [|by constructor].
      intros k. specialize (L1 k). specialize (T3 k). unfold places in *. simpl in *.
      change (ticket f :: ran p) with ([ticket f] ++ ran p). rewrite occurs_app, occurs_nil in *. lia. }
    destruct (promised f); [|destruct (outcome c)].
    + destruct Hl as [M1 M2 M3 M4 M5 M6 M7 M8]. constructor; simpl in *; try done. by constructor.
    + exact Hl.
    + destruct Hl as [M1 M2 M3 M4 M5 M6 M7 M8]. by constructor.
  - destruct Hok as (t & ->). simplify_eq/=. counted Hc (at_pc Finishing w).
    constructor; simpl; account.
  - simplify_eq. counted Hc (spinning Deciding 0 w). constructor; simpl; account.
  - simplify_eq. destruct (0 <? numTaskedQueued p).
    + counted Hc (at_pc Deciding w). constructor; simpl; account.
    + counted Hc (at_pc Testing_shutdown w). constructor; simpl; account.
  - simplify_eq. destruct (shutdown p) eqn:Es.
    + counted Hc (at_pc Deciding w). constructor; simpl; rewrite ?Es; account.
    + counted Hc (at_pc Blocking w). constructor; simpl; rewrite ?Es; account.
  - simplify_eq. counted Hc (at_pc Asleep w). constructor; simpl; account.
  - simplify_eq. destruct (late c).
    + counted Hc (at_pc Deciding w). constructor; simpl; account.
    + counted Hc (at_pc Testing w). constructor; simpl; account.
  - destruct (shutdown p) eqn:Es; simplify_eq/=.
    + counted Hc (at_pc (Leaving (numThreads p)) w). constructor; simpl; rewrite ?Es; account.
    + counted Hc (at_pc Comparing_time w). constructor; simpl; rewrite ?Es; account.
  - simplify_eq. destruct (late c).
    + counted Hc (at_pc (Shrinking (numThreads p)) w). constructor; simpl; account.
    + counted Hc (at_pc Popping w). constructor; simpl; account.
  - destruct (Z.ltb_spec mn n) as [Hn|Hn];
      [destruct (decide (numThreads p = n)) as [He|He];
       [rewrite (bool_decide_eq_true_2 _ He) in H; destruct (late c)|
        rewrite (bool_decide_eq_false_2 _ He) in H]|]; simplify_eq/=.
    + counted Hc (at_pc (Shrinking (numThreads p)) w). constructor; simpl; account.
    + counted Hc (at_pc (Leaving (numThreads p)) w).
      pose proof (wrapu_le_nat (count w_counted (threads p))).
      pose proof (counted_kept (threads p)). constructor; simpl; account.
      rewrite (wrapu_pred _ _ (eq_sym L4)) by lia. f_equal. lia.
    + counted Hc (at_pc (Shrinking (numThreads p)) w). constructor; simpl; account.
    + counted Hc (at_pc Popping w). constructor; simpl; account.
  - destruct (n =? 1); simplify_eq/=.
    + counted Hc (at_pc Clearing w). constructor; simpl; account.
    + counted Hc (at_pc Exited w). constructor; simpl; account.
  - simplify_eq/=. counted Hc (at_pc Exited w).
    assert (Hlen : length (tickets (taskQueue p)) = length (taskQueue p)) by apply tickets_length, Hs.
    constructor; simpl; account.
    + rewrite length_app. account.
    + congruence.
  - done.
Qed.

Lemma caller_counts k l l' p :
  callers p !! k = Some l →
  (total c_between (<[k := l']> (callers p)) + c_between l = total c_between (callers p) + c_between l')%nat.
Proof. apply total_insert. Qed.

(** A step of a caller that leaves the queue and the history alone. *)
Lemma caller_places k l l' p p' :
  callers p !! k = Some l → callers p' = <[k := l']> (callers p) →
  taskQueue p' = taskQueue p →
  (∀ j, count (λ pc, occurs j (held pc)) (threads p') = count (λ pc, occurs j (held pc)) (threads p)) →
  ran p' = ran p → dropped p' = dropped p →
  c_waiting (c_pc l') = c_waiting (c_pc l) → c_accepted (c_pc l') = c_accepted (c_pc l) →
  (∀ j, places j p = caller_is c_accepted j (callers p)) →
  ∀ j, places j p' = caller_is c_accepted j (callers p').
Proof.
  intros Hk Hc Hq Ht Hr Hd Hw Ha H j. specialize (H j). unfold places in *.
  rewrite Hq, (Ht j), Hr, Hd, Hc, !(caller_is_set _ k l l' j _ Hk), Hw, Ha.
  destruct (decide (j = k)) as [->|]; [|done]. unfold caller_is in *. by rewrite Hk in *.
Qed.

Ltac caller_moves Hc l' :=
  set (l' := mkcaller _ _) in *; specialize (Hc l');
  let b := eval cbv in (c_between l') in change (c_between l') with b in Hc.

Lemma caller_step_ledger k c p p' :
  shape p → ledger mn p → caller_step ty mn mx k c p = Some p' → ledger mn p'.
Proof using Type.
  intros Hs [L1 L2 L3 L4 L5 L6 L7 L8] H. unfold caller_step in H.
  apply bind_Some in H as (l & Hl & H). pose proof (s_callers _ Hs k l Hl) as Hok.
  pose proof (λ l', caller_counts k l l' p Hl) as Hc. pose proof (λ l', caller_places k l l' p) as Hp.
  unfold caller_ok in Hok. unfold c_between in Hc at 2.
  destruct (c_pc l) as [| |ts|ts| | | |n| | | |e] eqn:El.
  - simplify_eq/=. caller_moves Hc l'.
    constructor; simpl; account. by eapply Hp.
  - destruct (recycledTasks p) as [|t r] eqn:Er; simplify_eq/=; caller_moves Hc l'; constructor; simpl; account; by eapply Hp.
  - simplify_eq/=. caller_moves Hc l'.
    constructor; simpl; account. by eapply Hp.
  - apply bind_Some in H as (q & Hq & H). destruct Hok as (t & -> & Ht).
    apply push_perm in Hq. simplify_eq/=. caller_moves Hc l'. pose proof (Permutation_length Hq) as Hlen. simpl in Hlen.
    constructor; simpl; account. intros j. specialize (L1 j). unfold places in *. simpl.
    rewrite (occurs_perm j _ _ (tickets_perm _ _ Hq)), tickets_cons, occurs_app.
    rewrite !(caller_is_set _ k l l' j _ Hl). simpl.
    replace (tickets [t]) with [k] by (unfold tickets; simpl; by rewrite Ht).
    unfold occurs at 1, total. simpl. unfold caller_is in *.
    destruct (decide (j = k)) as [->|Hne]; [|rewrite bool_decide_eq_false_2 by done; simpl; lia].
    rewrite Hl, El in L1. rewrite bool_decide_eq_true_2 by done. simpl in *. lia.
  - simplify_eq/=. set (l' := mkcaller _ _) in *. specialize (Hc l').
    assert (c_between l' = O) as Hb by (unfold l', c_between; simpl; by destruct ty).
    assert (c_accepted (c_pc l') = 1%nat ∧ c_waiting (c_pc l') = O) as [Ha Hw'].
    { unfold l'. simpl. by destruct ty. }
    constructor; simpl; rewrite ?count_notify_one by done; account.
    eapply Hp; try done. intros j. simpl. by rewrite count_notify_one.
  - simplify_eq/=. set (l' := mkcaller _ _) in *. specialize (Hc l').
    assert (c_between l' = O) as Hb by (unfold l', c_between; simpl; by destruct (taskQueue p)).
    assert (c_accepted (c_pc l') = 1%nat ∧ c_waiting (c_pc l') = O) as [Ha Hw'].
    { unfold l'. simpl. by destruct (taskQueue p). }
    constructor; simpl; account. by eapply Hp.
  - simplify_eq/=. caller_moves Hc l'.
    constructor; simpl; account. by eapply Hp.
  - simplify_eq/=. set (l' := mkcaller _ _) in *. specialize (Hc l').
    assert (c_between l' = O) as Hb by (unfold l', c_between; simpl; by destruct (_ && _)).
    assert (c_accepted (c_pc l') = 1%nat ∧ c_waiting (c_pc l') = O) as [Ha Hw'].
    { unfold l'. simpl. by destruct (_ && _). }
    constructor; simpl; account. by eapply Hp.
  - simplify_eq/=. caller_moves Hc l'.
    constructor; simpl; rewrite ?count_create; simpl; account.
    eapply Hp; try done. intros j. simpl. rewrite count_create. simpl. rewrite occurs_nil. lia.
  - simplify_eq/=. caller_moves Hc l'.
    constructor; simpl; rewrite ?count_notify_one by done; account.
    eapply Hp; try done. intros j. simpl. by rewrite count_notify_one.
  - done.
  - done.
Qed.
Lemma closer_step_ledger k p p' : ledger mn p → closer_step k p = Some p' → ledger mn p'.
Proof using Type.
  intros [L1 L2 L3 L4 L5 L6 L7 L8] H. unfold closer_step in H. apply bind_Some in H as (l & Hl & H).
  destruct (s_pc l) as [| |j| |e]; simplify_eq/=.
  - by constructor.
  - constructor; simpl; rewrite ?count_notify_all by done; try done.
    intros j. specialize (L1 j). unfold places in *. simpl. by rewrite count_notify_all.
  - destruct (threads p !! j) as [w|] eqn:Hw; simplify_eq/=; [|by constructor].
    destruct (w_joined w); simplify_eq/=; [by constructor|].
    destruct (w_pc w) eqn:Ew; simplify_eq/=. set (w' := mkworker _ _ _ _).
    assert (Hc : ∀ f, count f (<[j := w']> (threads p)) = count f (threads p)).
    { intros f. pose proof (count_insert f _ _ _ w' Hw) as H. rewrite Ew in H. simpl in H. lia. }
    constructor; simpl; rewrite ?Hc; try done.
    intros i. specialize (L1 i). unfold places in *. simpl. by rewrite Hc.
Qed.

Lemma act_ledger a p p' : shape p → ledger mn p → act ty mn mx a p = Some p' → ledger mn p'.
Proof using Hmn.
  intros Hs Hl H. unfold act in H. destruct (terminated p); [done|].
  destruct a as [|i c|r|k c|d|k|m|].
  - unfold construct in H. destruct (constructing p) as [|n] eqn:En; simplify_eq/=.
    destruct Hl as [L1 L2 L3 L4 L5 L6 L7 L8].
    constructor; simpl; rewrite ?count_create; simpl; account.
    intros j. specialize (L1 j). unfold places in *. simpl. rewrite count_create. simpl.
    rewrite occurs_nil. lia.
  - by eapply worker_step_ledger.
  - apply when_built in H as <-. destruct Hl as [L1 L2 L3 L4 L5 L6 L7 L8].
    unfold enter. set (l := mkcaller _ _). constructor; simpl; rewrite ?total_app; account.
    + intros j. specialize (L1 j). unfold places, caller_is in *. simpl in *.
      destruct (decide (j < length (callers p))%nat) as [Hj|Hj]; [by rewrite lookup_app_l|].
      rewrite lookup_ge_None_2 in L1 by lia. rewrite lookup_app_r by lia.
      destruct (j - length (callers p))%nat as [|d]; [|done]. unfold l. simpl.
      destruct (if _ <=? _ then _ else _); simpl; lia.
    + eapply same_count; [exact L2|]. unfold l, total, c_between. simpl.
      destruct (if _ <=? _ then _ else _); simpl; lia.
  - by eapply caller_step_ledger.
  - apply when_built in H as <-. by destruct Hl.
  - by eapply closer_step_ledger.
  - apply when_built in H as <-. by destruct Hl.
  - apply when_built in H as <-. by destruct Hl.
Qed.

Lemma start_ledger n : ledger mn (start mn n).
Proof using Hmn.
  constructor; simpl; try done. intros _. change (count w_kept []) with O. lia.
Qed.

Lemma reachable_ok n p : reachable ty mn mx n p → shape p ∧ ledger mn p.
Proof using Hmn.
  induction 1 as [|p a p' _ [IH1 IH2] H].
  - split; [by constructor|]. apply start_ledger.
  - split; [by eapply act_shape|by eapply act_ledger].
Qed.
End ledger.

(** ** What the pool promises *)

Lemma occurs_elem k l : k ∈ l → (0 < occurs k l)%nat.
Proof.
  intros (i & Hi)%list_elem_of_lookup. apply total_pos. exists i, k. split; [done|].
  rewrite bool_decide_eq_true_2; [simpl; lia|done].
Qed.

Lemma occurs_NoDup l : (∀ k, occurs k l ≤ 1)%nat → NoDup l.
Proof.
  induction l as [|x l IH]; intros H; constructor.
  - intros Hx%occurs_elem. specialize (H x). pose proof (occurs_app x [x] l) as Ha. simpl in Ha.
    assert (occurs x [x] = 1%nat); [|lia]. unfold occurs, total. simpl. by rewrite bool_decide_eq_true_2.
  - apply IH. intros k. specialize (H k). pose proof (occurs_app k [x] l) as Ha. simpl in Ha. lia.
Qed.

(** A worker thread has taken the call [k] and has not finished calling it. *)
Definition holds (k : nat) (w : worker) : Prop := k ∈ held (w_pc w).

(** The call [k] of [execute] is before its [push], in the queue, with a worker,
    called, or dropped. *)
Inductive whereabouts (p : pool) (k : nat) : Prop :=
  | waits l : callers p !! k = Some l → c_waiting (c_pc l) = 1%nat → whereabouts p k
  | queued : k ∈ tickets (taskQueue p) → whereabouts p k
  | taken i w : threads p !! i = Some w → holds k w → whereabouts p k
  | called : k ∈ ran p → whereabouts p k
  | forgotten : k ∈ dropped p → whereabouts p k.

Lemma occurs_pos k l : (0 < occurs k l)%nat → k ∈ l.
Proof.
  intros (i & x & Hi & Hx)%total_pos. destruct (bool_decide_reflect (x = k)) as [->|]; [|simpl in Hx; lia].
  by eapply list_elem_of_lookup_2.
Qed.

(** C34: In every interleaving of worker threads, callers and shutdowns, and
    whatever the callables return or throw: no callable is called twice; a call
    of [execute] that was accepted is never lost, it is on its way to the queue,
    in the queue, with a worker, called, or was dropped, and it is dropped only
    after a shutdown was requested; a promise is kept at most once. *)
Theorem every_task_once ty mn mx n p :
  0 < mn → reachable ty mn mx n p →
  NoDup (ran p) ∧ NoDup (fst <$> futures p)
  ∧ (∀ k, k ∈ ran p → (k ∉ dropped p) ∧ (k ∉ tickets (taskQueue p)))
  ∧ (∀ k l, callers p !! k = Some l → c_accepted (c_pc l) = 1%nat → whereabouts p k)
  ∧ (shutdown p = false → dropped p = []).
Proof.
  intros Hmn Hr. destruct (reachable_ok ty mn mx Hmn n p Hr) as [Hs [L1 _ _ _ _ _ L7 L8]].
  assert (Hle : ∀ k, (caller_is c_accepted k (callers p) ≤ 1)%nat).
  { intros k. unfold caller_is. destruct (callers p !! k) as [l|]; [|lia].
    unfold c_accepted. destruct (c_pc l); lia. }
  assert (Hn : NoDup (ran p)).
  { apply occurs_NoDup. intros k. specialize (L1 k). specialize (Hle k). unfold places in L1. lia. }
  split; [done|]. split; [by eapply sublist_NoDup|]. split; [|split; [|done]].
  - intros k Hk%occurs_elem. specialize (L1 k). specialize (Hle k). unfold places in L1.
    split; intros Hin%occurs_elem; lia.
  - intros k l Hk Ha. specialize (L1 k). unfold places, caller_is in L1. rewrite Hk, Ha in L1.
    destruct (decide (c_waiting (c_pc l) = 1%nat)) as [Hw|Hw]; [by eapply waits|].
    assert (c_waiting (c_pc l) = O) by (unfold c_waiting in *; destruct (c_pc l); done).
    destruct (decide ((0 < occurs k (tickets (taskQueue p)))%nat)) as [?|?]; [by apply queued, occurs_pos|].
    destruct (decide ((0 < occurs k (ran p))%nat)) as [?|?]; [by apply called, occurs_pos|].
    destruct (decide ((0 < occurs k (dropped p))%nat)) as [?|?]; [by apply forgotten, occurs_pos|].
    assert (Hc : (0 < count (λ pc, occurs k (held pc)) (threads p))%nat) by lia.
    apply total_pos in Hc as (i & w & Hi & Hw'). eapply taken; [exact Hi|]. by apply occurs_pos.
Qed.

(** As long as no shutdown was requested, a pool that has been built keeps at
    least [minThreads] threads, whatever they find idle; once it says that it is
    initialised, that many are counted; and the counter of the queue is never
    behind the queue, so that a thread that finds it at zero has missed no task. *)
Theorem threads_kept ty mn mx n p :
  0 < mn → reachable ty mn mx n p → shutdown p = false →
  mn ≤ Z.of_nat (constructing p + count w_kept (threads p))
  ∧ (initialised p = true → mn ≤ Z.of_nat (count w_counted (threads p)))
  ∧ numThreads p = wrapu 64 (Z.of_nat (count w_counted (threads p)))
  ∧ (Z.of_nat (length (callers p) + length (taskQueue p) + length (threads p)) < 2 ^ 64 →
     Z.of_nat (length (taskQueue p)) ≤ numTaskedQueued p).
Proof.
  intros Hmn Hr Hd. destruct (reachable_ok ty mn mx Hmn n p Hr) as [_ [_ L2 _ L4 L5 L6 L7 _]].
  split; [by apply L5|]. split; [intros Hi; by apply L6|]. split; [done|].
  intros Hb. rewrite L2, (L7 Hd). simpl.
  assert (H1 : (total c_between (callers p) ≤ length (callers p))%nat).
  { rewrite <- (total_const_1 (callers p)). apply total_le. intros l. unfold c_between. destruct (c_pc l); lia. }
  assert (H2 : (count w_popped (threads p) ≤ length (threads p))%nat).
  { rewrite <- (total_const_1 (threads p)). apply total_le. intros w. unfold w_popped. destruct (w_pc w); lia. }
  rewrite wrapu_id; [|unfold in_u]; lia.
Qed.

(** ** A queued task is taken *)

Definition worker_run (ty : TaskType) (mn mx : Z) : pool → pool → Prop :=
  rtc (λ p p', ∃ i c, act ty mn mx (Worker i c) p = Some p').

(** The thread is in its loop, holds no task, and is not in the middle of
    leaving or of the compare-and-swap loop. *)
Definition idle (pc : wpc) : bool :=
  match pc with
  | Created | Counted | Popping | Called [_] | Finishing | Testing | Testing_shutdown | Blocking
  | Asleep | Deciding | Comparing_time => true
  | _ => false
  end.

Section progress.
Context (ty : TaskType) (mn mx : Z) (i : nat) (t : Task) (q : TaskContainer).

Definition calm (p : pool) : Prop := terminated p = false ∧ shutdown p = false ∧ taskQueue p = t :: q.

Definition takes (pc : wpc) : Prop :=
  ∀ p w, calm p → threads p !! i = Some w → w_pc w = pc →
  ∃ p' w', worker_run ty mn mx p p' ∧ threads p' !! i = Some w' ∧ w_pc w' = Popped [t] ∧ taskQueue p' = q.

Lemma takes_step pc :
  (∀ p w, calm p → threads p !! i = Some w → w_pc w = pc →
     ∃ c p' w', worker_step mn i c p = Some p' ∧ calm p' ∧ threads p' !! i = Some w' ∧ takes (w_pc w')) →
  takes pc.
Proof.
  intros H p w Hc Hw Hpc. destruct (H p w Hc Hw Hpc) as (c & p1 & w1 & Hs & Hc1 & Hw1 & H').
  destruct (H' p1 w1 Hc1 Hw1 eq_refl) as (p2 & w2 & Hr & H2). exists p2, w2. split; [|done].
  eapply rtc_l; [|exact Hr]. exists i, c. unfold act. by rewrite (proj1 Hc).
Qed.

(** One step of the thread by the choice [c], to where it [takes]. *)
Ltac goes c :=
  apply takes_step; intros p w (Ht & Hs & Hq) Hw Hpc; exists c; unfold worker_step; rewrite Hw; simpl;
  rewrite Hpc, ?Hs; simpl; repeat case_match; eexists _, _; (split; [reflexivity|]);
  (split; [done|]); (split; [simpl; apply list_lookup_insert_eq; by eapply lookup_lt_Some|assumption]).

Let now := mkchoice false (Ok 0) 0.
Let time_out := mkchoice true (Ok 0) 0.

Lemma takes_popping : takes Popping.
Proof using Type.
  intros p w (Ht & Hs & Hq) Hw Hpc.
  eexists _, _. split.
  - apply rtc_once. exists i, now. unfold act. rewrite Ht. unfold worker_step. rewrite Hw. simpl.
    rewrite Hpc, Hq. simpl. reflexivity.
  - simpl. split; [apply list_lookup_insert_eq; by eapply lookup_lt_Some|]. done.
Qed.

Lemma takes_idle pc : idle pc = true → takes pc.
Proof using Type.
  pose proof takes_popping as Hp.
  assert (Hct : takes Comparing_time) by goes now.
  assert (Hd : takes Deciding) by goes now.
  assert (Ha : takes Asleep) by goes time_out.
  assert (Hbl : takes Blocking) by goes now.
  assert (Hts : takes Testing_shutdown) by goes now.
  assert (Hte : takes Testing) by goes now.
  assert (Hc : takes Counted) by goes now.
  assert (Hf : takes Finishing) by goes now.
  assert (Hcr : takes Created) by goes now.
  assert (Hca : ∀ u, takes (Called [u])) by (intros u; goes now).
  destruct pc as [| | |ts|ts|ts|[|u [|? ?]]| | | | | | | |n|n| |]; simpl; intros; try done.
Qed.
End progress.

Definition w_shrinking (pc : wpc) : nat := match pc with Shrinking _ => 1 | _ => 0 end.
Definition empty_handed (p : pool) : Prop := Forall (λ w, held (w_pc w) = []) (threads p).

Lemma kept_idle d w :
  w_kept (w_pc w) = 1%nat → worker_ok d w → held (w_pc w) = [] →
  idle (w_pc w) = true ∨ ∃ n, w_pc w = Shrinking n.
Proof.
  unfold worker_ok. destruct (w_pc w) eqn:E; simpl; try done; eauto.
  all: try (intros _ (t & -> & [f Hf]); unfold tickets; simpl; by rewrite Hf).
  intros _ (t & ->). by left.
Qed.

(** The compare-and-swap loop, left alone, ends in two turns. *)
Lemma shrink_ends ty mn mx i t q p w m :
  calm t q p → threads p !! i = Some w → w_pc w = Shrinking m →
  ∃ p1 w1, worker_run ty mn mx p p1 ∧ (∀ n, reachable ty mn mx n p → reachable ty mn mx n p1)
    ∧ calm t q p1 ∧ constructing p1 = constructing p ∧ threads p1 = <[i := w1]> (threads p)
    ∧ (w_pc w1 = Popping ∨ ∃ n, w_pc w1 = Leaving n).
Proof.
  assert (Hnow : ∀ p w m, calm t q p → threads p !! i = Some w → w_pc w = Shrinking m →
    m ≤ mn ∨ numThreads p = m →
    ∃ p1 w1, act ty mn mx (Worker i (mkchoice false (Ok 0) 0)) p = Some p1
      ∧ calm t q p1 ∧ constructing p1 = constructing p ∧ threads p1 = <[i := w1]> (threads p)
      ∧ (w_pc w1 = Popping ∨ ∃ n, w_pc w1 = Leaving n)).
  { clear p w m. intros p w m (Ht & Hs & Hq) Hw Hpc Hm. unfold act. rewrite Ht. unfold worker_step.
    rewrite Hw. simpl. rewrite Hpc. destruct (Z.ltb_spec mn m) as [Hlt|Hle].
    - rewrite bool_decide_eq_true_2 by lia. simpl. eexists _, _. split; [reflexivity|].
      do 3 (split; [done|]). right. by eexists.
    - eexists _, _. split; [reflexivity|]. do 3 (split; [done|]). by left. }
  intros Hc Hw Hpc. destruct (decide (m ≤ mn ∨ numThreads p = m)) as [Hm|Hm].
  - destruct (Hnow p w m Hc Hw Hpc Hm) as (p1 & w1 & Ha & H). exists p1, w1.
    split; [apply rtc_once; eauto|]. split; [|done]. intros n Hr. by eapply reach_act.
  - assert (Ha : act ty mn mx (Worker i (mkchoice false (Ok 0) 0)) p
                 = Some (set_worker i (at_pc (Shrinking (numThreads p)) w) p)).
    { unfold act. rewrite (proj1 Hc). unfold worker_step. rewrite Hw. simpl. rewrite Hpc.
      destruct (Z.ltb_spec mn m) as [Hlt|Hle]; [|lia]. by rewrite bool_decide_eq_false_2 by lia. }
    destruct (Hnow (set_worker i (at_pc (Shrinking (numThreads p)) w) p)
                (at_pc (Shrinking (numThreads p)) w) (numThreads p))
      as (p1 & w1 & Ha1 & Hc1 & Hk1 & Ht1 & H1); [done|simpl; apply list_lookup_insert_eq;
      by eapply lookup_lt_Some|done|by right|].
    exists p1, w1. split; [eapply rtc_l; [eauto|]; apply rtc_once; eauto|].
    split; [intros n Hr; eapply reach_act; [|exact Ha1]; by eapply reach_act|].
    split; [done|]. split; [done|]. split; [|done]. rewrite Ht1. simpl. apply list_insert_insert_eq.
Qed.

(** A queued task does not wait for anyone but the worker threads: as long as
    no shutdown was requested, when no thread holds a task, the worker threads
    alone, without any further call or notification, come to take the task at
    the head of the queue, wherever they are in their loop and however many of
    them are about to leave. *)
Theorem queued_task_taken ty mn mx n t q p :
  0 < mn → reachable ty mn mx n p → constructing p = O → calm t q p → empty_handed p →
  ∃ p' i w, worker_run ty mn mx p p' ∧ threads p' !! i = Some w ∧ w_pc w = Popped [t] ∧ taskQueue p' = q.
Proof.
  intros Hmn. remember (count w_shrinking (threads p)) as k eqn:Hk. revert p Hk.
  induction k as [k IH] using (well_founded_induction lt_wf). intros p Hk Hr Hb Hc He.
  destruct (reachable_ok ty mn mx Hmn n p Hr) as [Hs Hl].
  pose proof (l_kept _ _ Hl (proj1 (proj2 Hc))) as Hkept. rewrite Hb in Hkept.
  assert (Hpos : (0 < count w_kept (threads p))%nat) by lia.
  apply total_pos in Hpos as (i & w & Hi & Hw).
  destruct (kept_idle (shutdown p) w) as [Hid|[m Hm]].
  - unfold w_kept in *. destruct (w_pc w); lia.
  - by eapply Forall_lookup_1; [apply s_workers, Hs|].
  - by eapply (Forall_lookup_1 _ _ _ _ He).
  - destruct (takes_idle ty mn mx i t q _ Hid p w Hc Hi eq_refl) as (p' & w' & H). by exists p', i, w'.
  - destruct (shrink_ends ty mn mx i t q p w m Hc Hi Hm) as (p1 & w1 & Hrun & Hr1 & Hc1 & Hb1 & Ht1 & Hw1).
    assert (He1 : empty_handed p1).
    { unfold empty_handed. rewrite Ht1. apply Forall_insert; [done|].
      by destruct Hw1 as [->|[? ->]]. }
    assert (Hlt : (count w_shrinking (threads p1) < k)%nat).
    { pose proof (count_insert w_shrinking (threads p) i w w1 Hi) as Hci. rewrite Ht1, Hk.
      rewrite Hm in Hci. simpl in Hci. destruct Hw1 as [E|[? E]]; rewrite E in Hci; simpl in Hci; lia. }
    destruct (IH _ Hlt p1 eq_refl (Hr1 n Hr) ltac:(congruence) Hc1 He1) as (p2 & j & w2 & Hrun2 & H2).
    exists p2, j, w2. split; [|done]. unfold worker_run in *. by etrans.
Qed.

(** ** Priorities *)

(** The priorities that stay what they are in an [int32_t]. *)
Definition mild (p : pool) : Prop :=
  ∀ k l, callers p !! k = Some l → 0 ≤ r_priority (c_request l) < 2 ^ 31.

Record in_order (p : pool) : Prop := {
  o_queue : ordered (taskQueue p);
  o_pushing k l t :
    callers p !! k = Some l → c_pc l = Pushing [t] → priority t = queued_priority (r_priority (c_request l))
}.

Lemma ordered_tail t q : ordered (t :: q) → ordered q.
Proof. intros H. by apply pop_spec in H as (_ & ? & _). Qed.

(** No step changes the requests of the calls. *)
Lemma callers_kept ty mn mx a p p' k l :
  act ty mn mx a p = Some p' → callers p !! k = Some l →
  ∃ l', callers p' !! k = Some l' ∧ c_request l' = c_request l.
Proof.
  intros H Hk. unfold act in H. destruct (terminated p); [done|].
  assert (Hsame : callers p' = callers p → ∃ l', callers p' !! k = Some l' ∧ c_request l' = c_request l).
  { intros ->. eauto. }
  destruct a as [|i c|r|j c|d|j|m|].
  - apply Hsame. unfold construct in H. by destruct (constructing p); simplify_eq/=.
  - apply Hsame. unfold worker_step in H. apply bind_Some in H as (w & Hw & H).
    unfold call, clear_tasks in H. repeat case_match; simplify_eq/=; try done.
  - apply when_built in H as <-. simpl. exists l. split; [|done]. by apply lookup_app_l_Some.
  - unfold caller_step in H. apply bind_Some in H as (m & Hj & H).
    assert (Hset : ∀ l', callers p' = <[j := l']> (callers p) → c_request l' = c_request m →
      ∃ l', callers p' !! k = Some l' ∧ c_request l' = c_request l).
    { intros l' -> Hl'. destruct (decide (k = j)) as [->|Hne].
      - exists l'. simplify_eq. split; [|done]. apply list_lookup_insert_eq. by eapply lookup_lt_Some.
      - exists l. by rewrite list_lookup_insert_ne. }
    destruct (c_pc m) eqn:Em; simplify_eq/=; try (by eapply Hset).
    + destruct (pop (recycledTasks p)); simplify_eq/=. by eapply Hset.
    + apply bind_Some in H as (q & Hq & H). simplify_eq/=. by eapply Hset.
  - apply when_built in H as <-. by apply Hsame.
  - apply Hsame. unfold closer_step in H. apply bind_Some in H as (w & Hw & H).
    repeat case_match; simplify_eq/=; done.
  - apply when_built in H as <-. by apply Hsame.
  - apply when_built in H as <-. by apply Hsame.
Qed.

(** The four things that can happen to the queue in a step. *)
Lemma act_queue ty mn mx a p p' :
  shape p → act ty mn mx a p = Some p' →
  taskQueue p' = taskQueue p ∨ (∃ t, taskQueue p = t :: taskQueue p') ∨ taskQueue p' = []
  ∨ ∃ k l t, callers p !! k = Some l ∧ c_pc l = Pushing [t] ∧ push [t] (taskQueue p) = Some (taskQueue p').
Proof.
  intros Hs H. unfold act in H. destruct (terminated p); [done|].
  destruct a as [|i c|r|k c|d|k|m|].
  - left. unfold construct in H. by destruct (constructing p); simplify_eq/=.
  - unfold worker_step in H. apply bind_Some in H as (w & Hw & H).
    unfold call, clear_tasks in H. destruct (w_pc w) eqn:E; try (repeat case_match; simplify_eq/=; by auto).
    destruct (taskQueue p) as [|t q] eqn:Eq; simpl in H.
    + destruct (N_SPIN <? _); simplify_eq/=; by left.
    + simplify_eq/=. right. left. by exists t.
  - apply when_built in H as <-. by left.
  - unfold caller_step in H. apply bind_Some in H as (l & Hl & H).
    pose proof (s_callers _ Hs k l Hl) as Hok. unfold caller_ok in Hok.
    destruct (c_pc l) eqn:El; simplify_eq/=; try by left.
    + destruct (pop (recycledTasks p)); simplify_eq/=. by left.
    + apply bind_Some in H as (q & Hq & H). destruct Hok as (t & -> & _).
      right. right. right. exists k, l, t. split; [done|]. split; [done|]. by simplify_eq/=.
  - apply when_built in H as <-. by left.
  - left. unfold closer_step in H. apply bind_Some in H as (w & Hw & H).
    repeat case_match; simplify_eq/=; done.
  - apply when_built in H as <-. by left.
  - apply when_built in H as <-. by left.
Qed.

(** Where a call that is about to push comes from. *)
Lemma act_pushing ty mn mx a p p' k l t :
  act ty mn mx a p = Some p' → callers p' !! k = Some l → c_pc l = Pushing [t] →
  callers p !! k = Some l ∨ priority t = queued_priority (r_priority (c_request l)).
Proof.
  intros H Hk Hp. unfold act in H. destruct (terminated p); [done|].
  destruct a as [|i c|r|j c|d|j|m|].
  - left. unfold construct in H. by destruct (constructing p); simplify_eq/=.
  - left. unfold worker_step in H. apply bind_Some in H as (w & Hw & H).
    unfold call, clear_tasks in H. repeat case_match; simplify_eq/=; done.
  - apply when_built in H as <-. left. simpl in Hk. apply lookup_app_Some in Hk as [?|[_ Hk]]; [done|].
    apply list_lookup_singleton_Some in Hk as [_ <-]. simpl in Hp.
    by destruct (if _ <=? _ then _ else _).
  - unfold caller_step in H. apply bind_Some in H as (m & Hj & H).
    assert (Hset : ∀ l', callers p' = <[j := l']> (callers p) →
      (∀ t, c_pc l' = Pushing [t] → priority t = queued_priority (r_priority (c_request l'))) →
      callers p !! k = Some l ∨ priority t = queued_priority (r_priority (c_request l))).
    { intros l' E Hl'. rewrite E, list_lookup_insert in Hk. case_decide as Hd; [|by left].
      simplify_eq. right. by apply Hl'. }
    destruct (c_pc m) as [| |ts|ts| | | |n| | | |e] eqn:Em; simplify_eq/=;
      try (by eapply Hset; [done|]; simpl; repeat case_match).
    + destruct (pop (recycledTasks p)); simplify_eq/=. by eapply Hset.
    + eapply Hset; [done|]. simpl. intros u [= Hu]. by destruct ts; simplify_eq/=.
    + apply bind_Some in H as (q & Hq & H). simplify_eq/=. by eapply Hset.
  - apply when_built in H as <-. by left.
  - left. unfold closer_step in H. apply bind_Some in H as (w & Hw & H).
    repeat case_match; simplify_eq/=; done.
  - apply when_built in H as <-. by left.
  - apply when_built in H as <-. by left.
Qed.

Lemma reachable_in_order ty mn mx n p :
  0 < mn → reachable ty mn mx n p → mild p → in_order p.
Proof.
  intros Hmn Hr. induction Hr as [|p a p' Hr IH Ha]; intros Hmild.
  { constructor; [split; constructor|]. by intros k l t H. }
  assert (Hmild0 : mild p).
  { intros k l Hk. destruct (callers_kept _ _ _ _ _ _ _ _ Ha Hk) as (l' & Hk' & <-). by eapply Hmild. }
  specialize (IH Hmild0). destruct IH as [Ho Hp].
  destruct (reachable_ok ty mn mx Hmn n p Hr) as [Hs _]. constructor.
  - destruct (act_queue ty mn mx a p p' Hs Ha) as [->|[(t & E)|[->|(k & l & t & Hk & Hl & Hpush)]]].
    + done.
    + rewrite E in Ho. by eapply ordered_tail.
    + split; constructor.
    + eapply push_one_spec; [exact Ho| |exact Hpush]. rewrite (Hp k l t Hk Hl).
      specialize (Hmild0 k l Hk). unfold queued_priority. rewrite wraps_id; [lia|lia|unfold in_s; lia].
  - intros k l t Hk Hl. destruct (act_pushing _ _ _ _ _ _ _ _ _ Ha Hk Hl) as [Hk0|?]; [by eapply Hp|done].
Qed.

(** While all priorities are below 2^31, the queue is ordered: the task a
    worker takes has the highest priority of all that wait and is the oldest of
    that priority, and a push puts its task behind those of its own priority and
    changes the order of no others. *)
Theorem urgent_first ty mn mx n p :
  0 < mn → reachable ty mn mx n p → mild p →
  (∀ t q, taskQueue p = t :: q →
     Forall (λ u, priority u ≤ priority t) q
     ∧ of_priority (priority t) (t :: q) = t :: of_priority (priority t) q)
  ∧ (∀ k l t q, callers p !! k = Some l → c_pc l = Pushing [t] → push [t] (taskQueue p) = Some q →
       ordered q ∧ ∀ x, of_priority x q = of_priority x (taskQueue p) ++ of_priority x [t]).
Proof.
  intros Hmn Hr Hm. destruct (reachable_in_order ty mn mx n p Hmn Hr Hm) as [Ho Hp]. split.
  - intros t q E. rewrite E in Ho. apply pop_spec in Ho as (_ & _ & H). exact H.
  - intros k l t q Hk Hl Hpush. destruct (push_one_spec t _ q Ho) as (H1 & _ & H2); [|done|done].
    rewrite (Hp k l t Hk Hl). specialize (Hm k l Hk). unfold queued_priority.
    rewrite wraps_id; [lia|lia|unfold in_s; lia].
Qed.

(** ** Runs *)

Definition soon : choice := mkchoice false (Ok 0) 0.
Definition plain : request := mkrequest [] 0 (-1) false.
Definition turns (n : nat) (a : action) : list action := replicate n a.

(** A pool of one thread, which calls the callable of the first [execute]. *)
Definition first_call : list action :=
  [Construct; Worker 0 soon; Worker 0 soon; Enter plain] ++ turns 4 (Caller 0 soon) ++ turns 3 (Worker 0 soon).

Lemma every_task_once_witness :
  ∃ p, run CPU_BOUND 1 1 (first_call ++ [Worker 0 soon]) (start 1 0) = Some p
       ∧ ran p = [0%nat] ∧ NoDup (ran p) ∧ (0%nat ∉ dropped p).
Proof.
  destruct (run CPU_BOUND 1 1 (first_call ++ [Worker 0 soon]) (start 1 0)) as [p|] eqn:E; [|done].
  exists p. assert (Hr : ran p = [0%nat]) by (vm_compute in E; by simplify_eq).
  destruct (every_task_once CPU_BOUND 1 1 0 p) as (H1 & _ & H2 & _).
  - lia.
  - eapply run_reachable; [apply reach_start|exact E].
  - split; [done|]. split; [exact Hr|]. split; [exact H1|]. apply H2. rewrite Hr. constructor.
Defined.

Lemma threads_kept_witness :
  ∃ p, run IO_BOUND 1 1 first_call (start 1 0) = Some p ∧ 1 ≤ Z.of_nat (count w_counted (threads p)).
Proof.
  destruct (run IO_BOUND 1 1 first_call (start 1 0)) as [p|] eqn:E; [|done].
  exists p. split; [done|].
  destruct (threads_kept IO_BOUND 1 1 0 p) as (_ & H & _).
  - lia.
  - eapply run_reachable; [apply reach_start|exact E].
  - vm_compute in E. by simplify_eq.
  - apply H. vm_compute in E. by simplify_eq.
Defined.

(** The thread is asleep, and the notification of the call went to nobody: it
    looked at the counter and at the flag before, and fell asleep after. *)
Definition missed : list action :=
  [Construct; Worker 0 soon; Worker 0 soon]
  ++ turns 768 (Worker 0 soon)            (* 256 turns that find nothing *)
  ++ turns 2 (Worker 0 soon)              (* the 257th; numTasksQueued() > 0 is false *)
  ++ [Enter plain] ++ turns 5 (Caller 0 soon)
  ++ [Worker 0 soon; Worker 0 soon].

Lemma queued_task_taken_witness :
  ∃ p t, run CPU_BOUND 1 1 missed (start 1 0) = Some p ∧ is_asleep <$> threads p = [true]
         ∧ taskQueue p = [t]
         ∧ ∃ p' i w, worker_run CPU_BOUND 1 1 p p' ∧ threads p' !! i = Some w ∧ w_pc w = Popped [t].
Proof.
  destruct (run CPU_BOUND 1 1 missed (start 1 0)) as [p|] eqn:E; [|by vm_compute in E].
  assert (Hr : reachable CPU_BOUND 1 1 0 p) by (eapply run_reachable; [apply reach_start|exact E]).
  exists p, (mkTask 1 (Some (mkcallable 0 false)) [] 0 (-1)).
  split; [reflexivity|]. vm_compute in E. injection E as <-. split; [reflexivity|]. split; [reflexivity|].
  edestruct (queued_task_taken CPU_BOUND 1 1 0) as (p' & i & w & H1 & H2 & H3 & _);
    [|exact Hr|reflexivity|by repeat split|by repeat constructor|by exists p', i, w].
  lia.
Defined.

Lemma urgent_first_witness :
  ∃ p t q, run CPU_BOUND 1 1 ([Construct; Enter plain] ++ turns 4 (Caller 0 soon)
                   ++ [Enter (mkrequest [] 20 (-1) false)] ++ turns 4 (Caller 1 soon)) (start 1 0) = Some p
    ∧ taskQueue p = t :: q ∧ priority t = 20 ∧ Forall (λ u, priority u ≤ priority t) q.
Proof.
  destruct (run CPU_BOUND 1 1 ([Construct; Enter plain] ++ turns 4 (Caller 0 soon)
      ++ [Enter (mkrequest [] 20 (-1) false)] ++ turns 4 (Caller 1 soon)) (start 1 0)) as [p|] eqn:E;
    [|by vm_compute in E].
  assert (Hr : reachable CPU_BOUND 1 1 0 p) by (eapply run_reachable; [apply reach_start|exact E]).
  exists p. vm_compute in E. injection E as <-.
  eexists _, _. split; [reflexivity|]. split; [reflexivity|].
  split; [reflexivity|].
  edestruct (urgent_first CPU_BOUND 1 1 0) as [H _]; [|exact Hr| |by eapply H].
  - lia.
  - intros [|[|k]] l Hl; simplify_eq/=; lia.
Defined.

(** ** What the pool does not do as it means to

    The pool is documented to have between [minThreads] and [maxThreads] threads.
    One call of [execute] on a pool of exactly one thread, which is busy, makes two
    more: it compares with the counter that the new threads increment themselves,
    and it compares with [<=]. *)
Lemma exceeds_max :
  ∃ p, run IO_BOUND 1 1 (first_call ++ [Enter plain] ++ turns 14 (Caller 1 soon)
                         ++ [Worker 1 soon; Worker 2 soon]) (start 1 0) = Some p
       ∧ numThreads p = 3 ∧ shutdown p = false.
Proof. eexists. split; [vm_compute; reflexivity|]. split; vm_compute; reflexivity. Qed.

(** Even when the counter is up to date the pool grows to [maxThreads + 1]. *)
Lemma grows_past_max :
  ∃ p, run IO_BOUND 1 1 (first_call ++ [Enter plain] ++ turns 9 (Caller 1 soon) ++ [Worker 1 soon]) (start 1 0)
       = Some p
       ∧ numThreads p = 2.
Proof. eexists. split; [vm_compute; reflexivity|]. vm_compute. reflexivity. Qed.

(** [requestShutdown] joins the threads and leaves them in the list; the
    destructor joins them again, which throws, and terminates the program. *)
Lemma destructor_after_shutdown ty :
  ∃ p, run ty 1 1 ([Construct; Worker 0 soon; Close false] ++ turns 2 (Closer 0)
                   ++ turns 5 (Worker 0 soon) ++ turns 2 (Closer 0)
                   ++ [Close true] ++ turns 3 (Closer 1)) (start 1 0) = Some p
       ∧ closers p !! 0%nat = Some (mkcloser false Closed)
       ∧ closers p !! 1%nat = Some (mkcloser true (Failed RuntimeError)) ∧ terminated p = true.
Proof. destruct ty; eexists; (split; [vm_compute; reflexivity|]); vm_compute; done. Qed.

(** Every thread waits on the one condition variable with a mutex of its own, so
    that two can wait at a time with different mutexes, which
    [std::condition_variable] does not allow, and no notification is ordered with
    the predicate: the only thread sleeps with a task in the queue and its call
    returned, until [keepAliveDuration] is over. *)
Lemma two_mutexes :
  ∃ p, run CPU_BOUND 2 2 ([Construct; Construct] ++ turns 2 (Worker 0 soon) ++ turns 2 (Worker 1 soon)
                          ++ turns 772 (Worker 0 soon) ++ turns 772 (Worker 1 soon)) (start 2 0) = Some p
       ∧ is_asleep <$> threads p = [true; true].
Proof. eexists. split; [vm_compute; reflexivity|]. vm_compute. reflexivity. Qed.

Lemma wakeup_lost :
  ∃ p, run CPU_BOUND 1 1 missed (start 1 0) = Some p ∧ is_asleep <$> threads p = [true]
       ∧ length (taskQueue p) = 1%nat ∧ c_pc <$> callers p = [Returned].
Proof. eexists. split; [vm_compute; reflexivity|]. repeat split; vm_compute; reflexivity. Qed.

(** The same happens to the destructor, which then waits as long to join. *)
Lemma shutdown_unheard :
  ∃ p, run CPU_BOUND 1 1 ([Construct; Worker 0 soon; Worker 0 soon] ++ turns 771 (Worker 0 soon)
                          ++ [Close true; Closer 0; Closer 0; Worker 0 soon]) (start 1 0) = Some p
       ∧ is_asleep <$> threads p = [true] ∧ shutdown p = true.
Proof. eexists. split; [vm_compute; reflexivity|]. split; vm_compute; reflexivity. Qed.

(** The last thread clears the queue and not its counter: [numTasksQueued] stays
    at one. *)
Lemma counter_after_clear :
  ∃ p, run CPU_BOUND 1 1 ([Construct] ++ turns 3 (Worker 0 soon) ++ [Enter plain] ++ turns 5 (Caller 0 soon)
                          ++ [Close false; Closer 0] ++ turns 3 (Worker 0 soon)) (start 1 0) = Some p
       ∧ taskQueue p = [] ∧ dropped p = [0%nat] ∧ numTaskedQueued p = 1 ∧ numThreads p = 0.
Proof. eexists. split; [vm_compute; reflexivity|]. repeat split; vm_compute; reflexivity. Qed.

(** After a shutdown an IO-bound pool runs what it is given in new threads: only
    the loop of [worker] looks at the flag, and only after a task. *)
Lemma runs_after_shutdown :
  ∃ p, run IO_BOUND 1 1 ([Construct; Worker 0 soon; Close false] ++ turns 2 (Closer 0)
                         ++ turns 5 (Worker 0 soon) ++ turns 2 (Closer 0)
                         ++ [Enter plain] ++ turns 9 (Caller 0 soon) ++ turns 6 (Worker 1 soon)) (start 1 0) = Some p
       ∧ closers p !! 0%nat = Some (mkcloser false Closed) ∧ ran p = [0%nat].
Proof. eexists. split; [vm_compute; reflexivity|]. split; vm_compute; reflexivity. Qed.

(** Both calls of [setThreadAffinity] in [updateThreadConstraints] leave out the
    thread: the mask is put on the thread that calls [setAffinityMask] or
    [execute], and never on a worker. *)
Lemma affinity_of_the_caller ty mn mask i t m :
  SetThreadAffinity t m ∈ updateThreadConstraints ty mn mask i → t = TheCaller.
Proof.
  unfold updateThreadConstraints. destruct mask as [|b mask], ty; set_solver.
Qed.

(** A thread of a pool with more threads than cores in its mask is left without
    any core. *)
Lemma no_core_left : distributeThreadAffinityAcrossCores 2 [true; false] 1 = [false; false].
Proof. reflexivity. Qed.

(** A priority of 2^31 or more is negative in the task; the next task of priority
    zero, which goes to the end, is then behind a less urgent one. *)
Lemma zero_behind_negative :
  let job p := mkTask 0 None [] (queued_priority p) (-1) in
  ∃ q q', push [job (2 ^ 32 - 1)] [] = Some q ∧ push [job 0] q = Some q'
          ∧ priority <$> q' = [-1; 0].
Proof. eexists _, _. repeat split. Qed.
