(* ===== verification/CmwLight.v ===== *)
(** * CmwLight: [serialiser/include/IoSerialiserCmwLight.hpp]

    The wire format of the CmwLight serialiser and the reader of
    IoSerialiser.hpp with this protocol.  The format has no sizes of fields: a
    field that is not wanted has to be read past by its type, and the end of a
    class is known by counting its fields. *)

From S2P Require Import Prelude IoBuffer Yas YasHeader Serialiser.
From S2P Require MultiArray.
Local Open Scope nat_scope.

(** ** Type identifiers *)

Definition number_index (t : number) : Z :=
  match t with
  | Bool => 0 | Int8 => 1 | Int16 => 2 | Int32 => 3 | Int64 => 4 | Float => 5 | Double => 6 | Char => 0
  end.

(** The identifiers of a primitive type in the block that starts at [base];
    [char] has identifiers of its own. *)
Definition block_id (base char : Z) (a : prim) : Z :=
  match a with
  | Number Char => char
  | Number t => base + number_index t
  | String => base + 7
  end.

Definition prim_id : prim → Z := block_id 0 201.
Definition vector_id : prim → Z := block_id 9 202.
Definition matrix_id : prim → Z := block_id 17 203.
Definition cube_id : prim → Z := block_id 25 204.

Definition multi_id (a : prim) (n_dims : nat) : Z :=
  if n_dims =? 1 then vector_id a else if n_dims =? 2 then matrix_id a else cube_id a.

Definition START_ID : Z := 8.
Definition END_ID : Z := 254.

Definition data_type_id (l : leaf) : Z :=
  match l with
  | Prim a => prim_id a
  | Vec a | SetOf a => vector_id a
  | Multi a n => multi_id a n
  | MapOf _ _ => START_ID
  end.

(** ** Writing *)

(** A [const char *] ends at the first zero. *)
Fixpoint c_str (s : bytes) : bytes :=
  match s with
  | [] => []
  | c :: s' => if eqc c (chr 0) then [] else c :: c_str s'
  end.

(** Null pointers are not written; the count is an [int16_t]. *)
Definition getNumberOfNonNullSubfields (ms : list (member content)) : Z :=
  wraps 16 (Z.of_nat (length (filter (λ m, f_pointer m && f_null m = false) ms))).

(** A map with string keys, as it is walked. *)
Definition entries_of (w : walks) (v : prim) (m : gmap bytes (carrier v)) : list (bytes * carrier v) :=
  walk_map w String v m.

Section write.
Context (junk : ascii) (w : walks) (sizeof : leaf → nat).

(** [FieldHeaderWriter<CmwLight>::put] with the name and the type, for a field
    that is not the root. *)
Definition put_field (size : nat) (depth : Z) (name : bytes) (id : Z) (body : iobuffer → option iobuffer)
    (b : iobuffer) : option iobuffer :=
  let b0 := reserve_spare junk (length name + 2 + size) b in
  b1 ← (if (depth =? 0)%Z then Some b0 else put_string junk name b0);
  b2 ← put junk 1 id b1;
  body b2.

(** The start marker of a class; that of the root has neither name nor type. *)
Definition put_start (depth : Z) (name : bytes) (subfields : Z) (b : iobuffer) : option iobuffer :=
  let b0 := reserve_spare junk (length name + 2 + 1) b in
  b1 ← (if (depth =? 0)%Z then Some b0 else b1 ← put_string junk name b0; put junk 1 START_ID b1);
  put junk 4 (wraps 32 subfields) b1.

Definition put_vec (a : prim) (xs : list (carrier a)) (b : iobuffer) : option iobuffer :=
  b1 ← put junk 4 1 b; b2 ← put_size junk (length xs) b1; put_vector junk a xs b2.

Definition put_multi (a : prim) (m : MultiArray.t (carrier a)) (b : iobuffer) : option iobuffer :=
  b1 ← put_dims junk (MultiArray.dimensions m) b; put_vector junk a (MultiArray.elements m) b1.

Definition put_set (a : prim) (xs : list (carrier a)) (b : iobuffer) : option iobuffer :=
  b1 ← put_size junk (length xs) b; put_prims junk a xs b1.

(** A map with string keys: its size, and a field for every entry. *)
Fixpoint put_entries (v : prim) (depth : Z) (entries : list (bytes * carrier v)) (b : iobuffer) : option iobuffer :=
  match entries with
  | [] => Some b
  | (k, x) :: es =>
      b' ← put_field (sizeof (Prim v)) depth (c_str k) (prim_id v) (put_prim junk v x) b;
      put_entries v depth es b'
  end.

Definition put_map (v : prim) (depth : Z) (entries : list (bytes * carrier v)) (b : iobuffer) : option iobuffer :=
  b1 ← put_size junk (length entries) b; put_entries v (wrapu 8 (depth + 1)) entries b1.

(** [IoSerialiser<CmwLight, T>::serialise]; only maps with string keys have it. *)
Definition put_value (depth : Z) (l : leaf) : leaf_carrier l → iobuffer → option iobuffer :=
  match l with
  | Prim a => put_prim junk a
  | Vec a => put_vec a
  | Multi a _ => put_multi a
  | SetOf a => λ X, put_set a (walk_set w a X)
  | MapOf String v => λ m, put_map v depth (entries_of w v m)
  | MapOf (Number _) _ => λ _ _, None
  end.

(** [detail::serialise] for one member at [depth]. *)
Fixpoint put_member (depth : Z) (m : member content) (c : content) (b : iobuffer) : option iobuffer :=
  if f_pointer m && f_null m then Some b
  else
    match c with
    | Leaf l x => put_field (sizeof l) depth (sanitize (f_name m)) (data_type_id l) (put_value depth l x) b
    | Object _ ms =>
        b1 ← put_start depth (sanitize (f_name m)) (getNumberOfNonNullSubfields ms) b;
        each (λ m', put_member (wrapu 8 (depth + 1)) m' (f_value m')) ms b1
    end.

(** [serialise]; the end marker is not written. *)
Definition serialise (name : bytes) (ms : list (member content)) (b : iobuffer) : option iobuffer :=
  b1 ← put_start 0 (sanitize name) (getNumberOfNonNullSubfields ms) b;
  each (λ m, put_member 1 m (f_value m)) ms b1.
End write.

(** ** Reading past a value *)

(** [skip] of an [int]; the product that is its argument must be one. *)
Definition skip_by (n : Z) (b : iobuffer) : outcome iobuffer :=
  if bool_decide (in_s 32 n)
  then match skip n b with Ok b' => Done b' | Throw _ => Thrown end
  else Undefined.

Definition skip_raw (size : Z) (b : iobuffer) : outcome iobuffer :=
  '(n, b1) ← defined (get_s 4 b); skip_by (n * size) b1.

Definition skipString : iobuffer → outcome iobuffer := skip_raw 1.

Fixpoint skip_strings (n : nat) (b : iobuffer) : outcome iobuffer :=
  match n with O => Done b | S n' => b' ← skipString b; skip_strings n' b' end.

Definition skipRawArray (a : prim) (b : iobuffer) : outcome iobuffer :=
  match a with
  | Number t => skip_raw (Z.of_nat (bytes_of t)) b
  | String => '(n, b1) ← defined (get_s 4 b); skip_strings (Z.to_nat n) b1
  end.

Definition skipArray (a : prim) (b : iobuffer) : outcome iobuffer :=
  b1 ← skip_by 8 b; skipRawArray a b1.

Definition skipMultiArray (a : prim) (b : iobuffer) : outcome iobuffer :=
  '(n, b1) ← defined (get_s 4 b);
  b2 ← skip_by (n * 4) b1;
  skipRawArray a b2.

Definition all_prims : list prim :=
  [Number Bool; Number Int8; Number Int16; Number Int32; Number Int64; Number Float; Number Double; Number Char; String].

Definition find_prim (f : prim → Z) (id : Z) : option prim := snd <$> list_find (λ a, f a = id) all_prims.

(** [IoSerialiser<CmwLight, OTHER>::deserialise] *)
Definition skip_value (id : Z) (b : iobuffer) : outcome iobuffer :=
  match find_prim prim_id id with
  | Some (Number t) => skip_by (Z.of_nat (bytes_of t)) b
  | Some String => skipString b
  | None =>
      match find_prim vector_id id with
      | Some a => skipArray a b
      | None =>
          match find_prim matrix_id id, find_prim cube_id id with
          | Some a, _ | None, Some a => skipMultiArray a b
          | None, None => Thrown
          end
      end
  end.

(** ** Headers *)

Definition no_end : Z := 2 ^ 64 - 1.
Definition unknown_meta (m : meta) : meta := mkmeta (m_unit m) (m_quantity m) (m_description m) UNKNOWN.

(** [FieldHeaderReader<CmwLight>::get]: [f] is the field that was read before,
    with the number of fields that are left in its class, or -1 for a class whose
    own header is to be read. *)
Definition get_field (f : field) (b : iobuffer) : option (field * iobuffer) :=
  let start := Z.of_nat (position b) in
  if (subfields f =? 0)%Z then
    Some (mkfield start start no_end 0 (fieldName f) (unknown_meta (fieldMeta f)) END_ID
            (wrapu 8 (hierarchyDepth f - 1)), b)
  else if (subfields f =? -1)%Z && (hierarchyDepth f =? 0)%Z then
    Some (mkfield start start no_end (subfields f) (fieldName f) (unknown_meta (fieldMeta f)) START_ID
            (hierarchyDepth f), b)
  else
    '(name, b1) ← extractStringView b;
    '(id, b2) ← get_u 1 b1;
    Some (mkfield start (Z.of_nat (position b2)) no_end
            (if (subfields f =? -1)%Z then subfields f else wraps 16 (subfields f - 1))
            name (unknown_meta (fieldMeta f)) id (hierarchyDepth f), b2).

(** [IoSerialiser<CmwLight, START_MARKER>::deserialise] *)
Definition get_start (f : field) (b : iobuffer) : option (field * iobuffer) :=
  '(n, b1) ← get_s 4 b;
  Some (mkfield (headerStart f) (Z.of_nat (position b1)) (dataEndPosition f) (wraps 16 n) (fieldName f) (fieldMeta f)
          (intDataType f) (hierarchyDepth f), b1).

(** [checkHeaderInfo<CmwLight>]: all that can be said is that a message without
    fields is none.  [at<>] throws where the count would begin behind the message;
    it does not ask whether the count ends inside it. *)
Definition checkHeaderInfo (b : iobuffer) : outcome iobuffer :=
  if size b <=? position b then Thrown
  else
    '(n, _) ← defined (get_s 4 b);
    if (n =? 0)%Z then Thrown else Done b.

(** ** Reading values *)

Definition get_vec (a : prim) (b : iobuffer) : outcome (list (carrier a) * iobuffer) :=
  '(nx, b1) ← defined (get_s 4 b);
  '(ny, b2) ← defined (get_s 4 b1);
  if bool_decide (in_s 32 (nx * ny)) then defined (get_vector a (Some (Z.to_nat (wrapu 64 (nx * ny)))) b2)
  else Undefined.

Definition get_set (a : prim) (b : iobuffer) : outcome (gset (carrier a) * iobuffer) :=
  '(n, b1) ← defined (get_s 4 b);
  '(xs, b2) ← defined (get_each (get_prim a) (Z.to_nat n) b1);
  Done (list_to_set xs, b2).

(** The default value a map is extended by before the value is read. *)
Definition default_value (a : prim) : carrier a := match a with Number _ => 0%Z | String => [] end.

(** The loop over the entries of a map. *)
Fixpoint get_entries (fuel : nat) (v : prim) (f : field) (m : gmap bytes (carrier v)) (b : iobuffer)
    : outcome (gmap bytes (carrier v) * iobuffer) :=
  match fuel with
  | O => OutOfFuel
  | S fuel' =>
      if position b <? size b then
        '(f1, b1) ← defined (get_field f b);
        let b2 := set_position (Z.to_nat (dataStartPosition f1)) b1 in
        if (intDataType f1 =? END_ID)%Z then Done (m, b2)
        else
          let m1 := match m !! fieldName f1 with
                    | Some _ => m
                    | None => <[fieldName f1 := default_value v]> m
                    end in
          if negb (prim_id v =? intDataType f1)%Z then get_entries fuel' v f1 m1 b2
          else
            '(x, b3) ← defined (get_prim v b2);
            get_entries fuel' v f1 (<[fieldName f1 := x]> m1) b3
      else Done (m, b)
  end.

(** [IoSerialiser<CmwLight, std::map<std::string, V>>::deserialise] into [m].  The
    start marker is read into the field of the caller. *)
Definition get_map (fuel : nat) (v : prim) (parent : field) (m : gmap bytes (carrier v)) (b : iobuffer)
    : outcome (gmap bytes (carrier v) * field * iobuffer) :=
  '(parent', b1) ← defined (get_start parent b);
  let f := mkfield 0 0 0 (subfields parent') [] no_meta 0 (hierarchyDepth parent') in
  '(m', b2) ← get_entries fuel v f m b1;
  Done (m', parent', b2).

(** [IoSerialiser<CmwLight, T>::deserialise] of the field [f] into [x]. *)
Definition get_value (fuel : nat) (f : field) (l : leaf)
    : leaf_carrier l → iobuffer → outcome (leaf_carrier l * field * iobuffer) :=
  match l with
  | Prim a => λ _ b, '(x, b') ← defined (get_prim a b); Done (x, f, b')
  | Vec a => λ _ b, '(x, b') ← get_vec a b; Done (x, f, b')
  | Multi a n => λ _ b, '(x, b') ← defined (deserialise_multi a n b); Done (x, f, b')
  | SetOf a => λ _ b, '(x, b') ← get_set a b; Done (x, f, b')
  | MapOf String v => λ m b, get_map fuel v f m b
  | MapOf (Number _) _ => λ _ _, Undefined
  end.

Section deserialise.
Context (check : ProtocolCheck).

(** The first [for_each] on a member that is not a class: nothing is skipped
    when it is not read. *)
Definition read_value (fuel : nat) (parent : bytes) (idx : nat) (m : member content) (l : leaf) (x : leaf_carrier l)
    (f : field) (i : info) (b : iobuffer) : outcome (member content * info * iobuffer * field) :=
  if negb (data_type_id l =? intDataType f)%Z then
    i' ← report check (MismatchedType (f_name m)) i; Done (m, i', b, f)
  else
    '(readable, i1) ← check_annotation check (f_annotation m) (f_name m) (fieldMeta f) i;
    if readable : bool then
      '(y, f1, b1) ← get_value fuel f l x b;
      i2 ← set_field check parent idx i1;
      Done (set_value (Leaf l y) m, i2, b1, f1)
    else Done (m, i1, b, f).

(** The beginning of [detail::deserialise]. *)
Definition enter (loop : field → state → outcome state) (name : bytes) (parent : field) (s : state) : outcome state :=
  let '(ms, i, b) := s in
  let i0 := init_fields check (fieldName parent) (length ms) i in
  let f0 := mkfield 0 0 0 (-1) [] no_meta 0 (hierarchyDepth parent) in
  '(f, b1) ← defined (get_field f0 b);
  i1 ← report_if check ((hierarchyDepth f =? 0)%Z && negb (bool_decide (fieldName f = name))
                        && negb (bool_decide (fieldName f = []))) (UnexpectedClass (fieldName f)) i0;
  '(f1, b2) ← defined (get_start f b1);
  loop f1 (ms, i1, set_position (Z.to_nat (dataStartPosition f1)) b2).

(** A field that no member has. *)
Definition skip_unknown (f : field) (b : iobuffer) : outcome iobuffer :=
  let b1 := if (intDataType f =? START_ID)%Z then set_position (Z.to_nat (wrapu 64 (dataStartPosition f - 1))) b
            else b in
  skip_value (intDataType f) b1.

Definition read_field (rec : bytes → field → state → outcome state) (fuel : nat) (parent : bytes) (prev : Z) (idx : nat)
    (m : member content) (f : field) (i : info) (b : iobuffer) : outcome (member content * info * iobuffer * field) :=
  match f_value m with
  | Leaf l x => read_value fuel parent idx m l x f i b
  | Object n ms' =>
      let f1 := with_depth (hierarchyDepth f + 1) (with_name (sanitize (f_name m)) (with_type START_ID f)) in
      '(ms'', i', b') ← rec n f1 (ms', i, set_position (Z.to_nat (headerStart f)) b);
      i2 ← set_field check parent idx i';
      Done (set_value (Object n ms'') m, i2, b', with_subfields (wraps 16 (prev - 1)) (with_depth (hierarchyDepth f1 - 1) f1))
  end.

Fixpoint loop (fuel : nat) (parent : bytes) (f : field) (s : state) : outcome state :=
  match fuel with
  | O => OutOfFuel
  | S fuel' =>
      let '(ms, i, b) := s in
      if position b <? size b then
        let previousSubFields := subfields f in
        '(f1, b1) ← defined (get_field f b);
        let b2 := set_position (Z.to_nat (dataStartPosition f1)) b1 in
        if (intDataType f1 =? END_ID)%Z then Done (ms, i, b2)
        else
          match findMemberIndex (fieldName f1) ms with
          | None =>
              i1 ← report check (MissingField parent (fieldName f1)) i;
              b3 ← skip_unknown f1 b2;
              loop fuel' parent f1 (ms, add_field check parent (fieldName f1) (intDataType f1) i1, b3)
          | Some idx =>
              m ← defined (ms !! idx);
              '(m', i1, b3, f2) ← read_field (λ n fp, enter (loop fuel' (fieldName fp)) n fp) fuel' parent
                                    previousSubFields idx m f1 i b2;
              loop fuel' parent f2 (<[idx := m']> ms, i1, b3)
          end
      else if (hierarchyDepth f =? 0)%Z && negb (position b =? size b) then
        i' ← report check NotAllRead i; Done (ms, i', b)
      else Done s
  end.

(** [deserialise] into the object of class [name] with members [ms]. *)
Definition deserialise (fuel : nat) (name : bytes) (ms : list (member content)) (i : info) (b : iobuffer)
    : outcome state :=
  b1 ← checkHeaderInfo b;
  if bool_decide (check = LENIENT) && negb (bool_decide (exceptions i = [])) then Done (ms, i, b1)
  else
    let root := mkfield (Z.of_nat (size b1)) (Z.of_nat (size b1)) (Z.of_nat (size b1)) (-1) ROOT_NAME no_meta
                  255 0 in
    enter (loop fuel ROOT_NAME) name root (ms, i, b1).
End deserialise.

(** ** Variants

    A value of one of several types; the type identifier of the field is written
    over by that of the value. *)

Record alternative : Type := mkalternative { alt_leaf : leaf; alt_value : leaf_carrier alt_leaf }.

(** [buffer.resize(buffer.size() - 1)] *)
Definition put_variant (junk : ascii) (w : walks) (sizeof : leaf → nat) (depth : Z) (x : alternative) (b : iobuffer)
    : option iobuffer :=
  b1 ← put junk 1 (data_type_id (alt_leaf x)) (resize junk (size b - 1) b);
  put_value junk w sizeof depth (alt_leaf x) (alt_value x) b1.

(** The first of the types that has the identifier of the field; [T result] is a
    value-initialised or an empty one, given by [initial]. *)
Definition get_variant (fuel : nat) (initial : ∀ l, leaf_carrier l) (types : list leaf) (f : field) (b : iobuffer)
    : outcome (alternative * iobuffer) :=
  match list_find (λ l, data_type_id l = intDataType f) types with
  | Some (_, l) => '(x, _, b') ← get_value fuel f l (initial l) b; Done (mkalternative l x, b')
  | None => Thrown
  end.

(** ** The bytes of the values *)

Definition enc_name (name : bytes) (id : Z) : bytes := enc_string name ++ le_bytes 1 id.

Definition enc_entry (v : prim) (e : bytes * carrier v) : bytes :=
  enc_name (c_str e.1) (prim_id v) ++ enc_prim v e.2.

Section encoding.
Context (w : walks).

Definition enc_value (l : leaf) : leaf_carrier l → bytes :=
  match l with
  | Prim a => enc_prim a
  | Vec a => λ xs, le_bytes 4 1 ++ enc_size (length xs) ++ enc_vector a xs
  | Multi a _ => λ m, enc_dims (MultiArray.dimensions m) ++ enc_vector a (MultiArray.elements m)
  | SetOf a => λ X, enc_vector a (walk_set w a X)
  | MapOf String v => λ m, enc_size (length (entries_of w v m)) ++ concat (enc_entry v <$> entries_of w v m)
  | MapOf (Number _) _ => λ _, []
  end.
End encoding.

(** The values that fit the format. *)
Definition value_ok (l : leaf) : leaf_carrier l → Prop :=
  match l with
  | Prim a => prim_ok a
  | Vec a => λ xs, fits (length xs) ∧ Forall (prim_ok a) xs
  | Multi a n => λ m, m = MultiArray.make (MultiArray.elements m) (MultiArray.dimensions m)
      ∧ length (MultiArray.dimensions m) = n ∧ fits n ∧ Forall (in_u 32) (MultiArray.dimensions m)
      ∧ fits (length (MultiArray.elements m)) ∧ Forall (prim_ok a) (MultiArray.elements m)
  | SetOf a => λ X, fits (length (elements X)) ∧ set_Forall (prim_ok a) X
  | MapOf String v => λ m, (Z.of_nat (length (map_to_list m)) < 2 ^ 15)%Z
      ∧ map_Forall (λ k x, c_str k = k ∧ fits (length k + 1) ∧ prim_ok v x) m
  | MapOf (Number _) _ => λ _, False
  end.

Lemma block_id_range base char a :
  (0 ≤ base ≤ 25)%Z → (201 ≤ char ≤ 204)%Z → in_u 8 (block_id base char a) ∧ block_id base char a ≠ END_ID.
Proof. intros Hb Hc. unfold in_u, END_ID. destruct a as [[]|]; simpl; lia. Qed.

Lemma data_type_id_range l : in_u 8 (data_type_id l) ∧ data_type_id l ≠ END_ID.
Proof.
  destruct l as [a|a|a n|a|k v]; simpl; try (apply block_id_range; lia); [|by unfold in_u, START_ID, END_ID].
  unfold multi_id. destruct (n =? 1); [|destruct (n =? 2)]; apply block_id_range; lia.
Qed.

(** *** Writing *)

Section writing.
Context (junk : ascii) (w : walks) `{HW : Walks w} (sizeof : leaf → nat).

Lemma put_field_wrote size depth name id body s b :
  wf b → depth ≠ 0%Z → (∀ c, wf c → ∃ c', body c = Some c' ∧ wrote s c c') →
  ∃ b', put_field junk size depth name id body b = Some b' ∧ wrote (enc_name name id ++ s) b b'.
Proof using Type.
  intros Hw Hd Hb. unfold put_field. destruct (reserve_spare_keeps junk (length name + 2 + size) b Hw) as (W0 & _).
  rewrite (proj2 (Z.eqb_neq _ _)) by done.
  destruct (put_string_wrote junk name (reserve_spare junk (length name + 2 + size) b)) as (b1 & H1 & W1); [apply W0|].
  destruct (put_wrote junk 1 id b1) as (b2 & H2 & W2); [apply W1|].
  destruct (Hb b2) as (b3 & H3 & W3); [apply W2|].
  exists b3. rewrite H1. cbn [mbind option_bind]. rewrite H2. split; [exact H3|].
  eapply wrote_nil_l; [exact W0|]. unfold enc_name. rewrite <- app_assoc.
  eapply wrote_trans; [done|]. by eapply wrote_trans.
Qed.

Lemma put_start_wrote depth name n b :
  wf b →
  ∃ b', put_start junk depth name n b = Some b'
        ∧ wrote ((if (depth =? 0)%Z then [] else enc_name name START_ID) ++ le_bytes 4 (wraps 32 n)) b b'.
Proof using Type.
  intros Hw. unfold put_start. destruct (reserve_spare_keeps junk (length name + 2 + 1) b Hw) as (W0 & _).
  destruct (depth =? 0)%Z.
  - destruct (put_wrote junk 4 (wraps 32 n) (reserve_spare junk (length name + 2 + 1) b)) as (b1 & H1 & W1); [apply W0|].
    exists b1. split; [exact H1|]. by eapply wrote_nil_l.
  - destruct (put_string_wrote junk name (reserve_spare junk (length name + 2 + 1) b)) as (b1 & H1 & W1); [apply W0|].
    destruct (put_wrote junk 1 START_ID b1) as (b2 & H2 & W2); [apply W1|].
    destruct (put_wrote junk 4 (wraps 32 n) b2) as (b3 & H3 & W3); [apply W2|].
    exists b3. rewrite H1. cbn [mbind option_bind]. rewrite H2. split; [exact H3|].
    eapply wrote_nil_l; [exact W0|]. unfold enc_name. rewrite <- app_assoc.
    eapply wrote_trans; [done|]. by eapply wrote_trans.
Qed.

Lemma put_entries_wrote v depth es b :
  wf b → depth ≠ 0%Z →
  ∃ b', put_entries junk sizeof v depth es b = Some b' ∧ wrote (concat (enc_entry v <$> es)) b b'.
Proof using Type.
  intros Hw Hd. revert b Hw. induction es as [|[k x] es IH]; intros b Hw.
  - exists b. unfold wrote. by rewrite app_nil_r.
  - destruct (put_field_wrote (sizeof (Prim v)) depth (c_str k) (prim_id v) (put_prim junk v x) (enc_prim v x) b Hw Hd)
      as (b1 & H1 & W1); [intros c Hc; by apply put_prim_wrote|].
    destruct (IH b1) as (b2 & H2 & W2); [apply W1|].
    exists b2. cbn [put_entries]. rewrite H1. split; [exact H2|]. by eapply wrote_trans.
Qed.

Lemma put_value_wrote depth l x b :
  wf b → value_ok l x → (0 ≤ depth < 255)%Z →
  ∃ b', put_value junk w sizeof depth l x b = Some b' ∧ wrote (enc_value w l x) b b'.
Proof using HW.
  intros Hw Hx Hd. destruct l as [a|a|a n|a|[t|] v]; cbn [put_value value_ok enc_value] in *.
  - by apply put_prim_wrote.
  - destruct Hx as [_ Hx]. unfold put_vec.
    destruct (put_wrote junk 4 1 b Hw) as (b1 & H1 & W1).
    destruct (put_size_wrote junk (length x) b1) as (b2 & H2 & W2); [apply W1|].
    destruct (put_vector_wrote junk a x b2) as (b3 & H3 & W3); [apply W2|done|].
    exists b3. rewrite H1. cbn [mbind option_bind]. rewrite H2. split; [exact H3|].
    eapply wrote_trans; [done|]. by eapply wrote_trans.
  - apply multi_wrote; [done|apply Hx].
  - unfold put_set. destruct (put_size_wrote junk (length (walk_set w a x)) b Hw) as (b1 & H1 & W1).
    destruct (put_prims_wrote junk a (walk_set w a x) b1) as (b2 & H2 & W2); [apply W1|].
    exists b2. rewrite H1. split; [exact H2|]. by eapply wrote_trans.
  - done.
  - unfold put_map. destruct (put_size_wrote junk (length (entries_of w v x)) b Hw) as (b1 & H1 & W1).
    destruct (put_entries_wrote v (wrapu 8 (depth + 1)) (entries_of w v x) b1) as (b2 & H2 & W2); [apply W1| |].
    { rewrite wrapu_id; [lia|unfold in_u; lia]. }
    exists b2. rewrite H1. split; [exact H2|]. by eapply wrote_trans.
Qed.
End writing.
