(* ===== verification/BareSpec.v ===== *)
(** * BareSpec: the specification of reading an object in a format without units

    CmwLight and JSON give a field's name and value only: neither the name of the
    class nor units and quantities are in the text.  Reading an object merges the
    written members into those of the object that is read, by their names; what
    the formats do with a member that is not found differs. *)

From S2P Require Import Prelude Text IoBuffer Yas YasHeader Serialiser.
From S2P Require SerialiserSpec.
Local Open Scope nat_scope.

(** Null pointers are not written. *)
Definition skipped (m : member content) : bool := f_pointer m && f_null m.

Definition is_map (l : leaf) : bool := match l with MapOf _ _ => true | _ => false end.

Section bare.
Context (check : ProtocolCheck) (got : meta) (unknown : content → outcome Z).

(** [got] is what a field has for a unit and a quantity, [unknown] the type a
    member that was not found is reported with.  [Undefined] where the reader
    loses its place: a member of another type, an annotated member that is
    refused, a map. *)
Fixpoint assign (parent : bytes) (m : member content) (c : content) (s : list (member content) * info)
    : outcome (list (member content) * info) :=
  if skipped m then Done s
  else
    let name := sanitize (f_name m) in
    let '(ms, i) := s in
    match findMemberIndex name ms with
    | None =>
        i1 ← report check (MissingField parent name) i;
        id ← unknown c;
        Done (ms, add_field check parent name id i1)
    | Some idx =>
        t ← defined (ms !! idx);
        match f_value t, c with
        | Leaf l _, Leaf l' x =>
            if negb (bool_decide (l = l')) || is_map l' then Undefined
            else
              '(readable, i1) ← check_annotation check (f_annotation t) (f_name t) got i;
              if readable : bool then
                i2 ← set_field check parent idx i1; Done (<[idx := set_value (Leaf l' x) t]> ms, i2)
              else Undefined
        | Object n ms', Object _ ws =>
            '(ms'', i') ← SerialiserSpec.merge_each (λ m', assign name m' (f_value m')) ws
                            (ms', init_fields check name (length ms') i);
            i2 ← set_field check parent idx i';
            Done (<[idx := set_value (Object n ms'') t]> ms, i2)
        | _, _ => Undefined
        end
    end.

Definition merge_fields (parent : bytes) := SerialiserSpec.merge_each (λ m, assign parent m (f_value m)).

(** Reading the members [ws] into [ms]. *)
Definition merge_members (ms ws : list (member content)) (i : info) : outcome (list (member content) * info) :=
  merge_fields ROOT_NAME ws (ms, init_fields check ROOT_NAME (length ms) i).

Lemma bare_assign_skipped parent m c s : skipped m = true → assign parent m c s = Done s.
Proof using Type. intros Hs. destruct c; cbn [assign]; by rewrite Hs. Qed.

(** ** Objects of the same class *)

(** A member that comes back: it is not null, and an annotation that is checked
    has neither unit nor quantity. *)
Definition plain (m : member content) : Prop :=
  f_null m = false
  ∧ match f_annotation m with
    | Some a => check = IGNORE ∨ (m_modifier a = RW ∧ m_unit a = [] ∧ m_quantity a = [])
    | None => True
    end.

Fixpoint readable (sizes : bytes → nat) (m : member content) (c : content) : Prop :=
  plain m
  ∧ match c with
    | Leaf l _ => is_map l = false
    | Object _ ms =>
        NoDup (SerialiserSpec.names ms) ∧ (check = IGNORE ∨ sizes (sanitize (f_name m)) = length ms)
        ∧ foldr (λ m' P, readable sizes m' (f_value m') ∧ P) True ms
    end.

Lemma bare_readable_Forall sizes ms :
  foldr (λ m P, readable sizes m (f_value m) ∧ P) True ms ↔ Forall (λ m, readable sizes m (f_value m)) ms.
Proof using Type. induction ms as [|m ms IH]; simpl; [done|]. by rewrite IH, Forall_cons. Qed.

Definition all_readable (sizes : bytes → nat) (ms : list (member content)) : Prop :=
  NoDup (SerialiserSpec.names ms) ∧ Forall (λ m, readable sizes m (f_value m)) ms.

(** Neither unit nor quantity. *)
Context (Hgot : m_unit got = [] ∧ m_quantity got = []).

Lemma bare_annotation_plain m i :
  plain m → check_annotation check (f_annotation m) (f_name m) got i = Done (true, i).
Proof using Hgot.
  intros [_ Ha]. unfold check_annotation. destruct (f_annotation m) as [a|]; [|done].
  case_bool_decide as Hc; [done|]. destruct Ha as [?|(Hrw & Hu & Hq)]; [done|]. rewrite Hrw, Hu, Hq.
  destruct Hgot as [-> ->]. done.
Qed.

Definition assigns (c : content) : Prop :=
  ∀ sizes m parent, f_value m = c → readable sizes m c →
    SerialiserSpec.merges_in check sizes parent m (assign parent m c).

Lemma bare_all_assign ws sizes parent :
  Forall (λ m, assigns (f_value m)) ws → Forall (λ m, readable sizes m (f_value m)) ws →
  Forall (λ m, SerialiserSpec.merges_in check sizes parent m (assign parent m (f_value m))) ws.
Proof using Type. intros Hws. rewrite !Forall_forall in *. intros Hr m Hm. by apply Hws, Hr. Qed.

Lemma bare_assigns_all c : assigns c.
Proof using Hgot.
  induction c as [l x|n ws IH] using content_nested_ind; intros sizes m parent Hv Hr ms i idx t Ht Hcl Hfind Hs Hrec;
    cbn [assign]; pose proof (proj1 Hr) as Hp; destruct Hp as [Hnull _]; pose proof (lookup_lt_Some _ _ _ Ht) as Hlt;
    unfold skipped; rewrite Hnull, andb_false_r; cbv zeta; rewrite Hfind, Ht; cbn [defined mbind outcome_bind];
    pose proof (f_equal f_name Hcl) as Hn1; pose proof (f_equal f_annotation Hcl) as Ha1;
    pose proof (f_equal f_pointer Hcl) as Hp1; pose proof (f_equal f_value Hcl) as Hv1; simpl in Hn1, Ha1, Hp1, Hv1;
    rewrite Hv in Hv1; destruct t as [tn ta tp tnu [l' x'|n' ms']]; simpl in Hv1, Hn1, Ha1, Hp1; try discriminate;
    destruct m as [mn ma mp mnu mv]; simpl in *; subst mn ma mp mv mnu; cbn [f_value].
  - injection Hv1 as ->. destruct Hr as [Hp ->]. rewrite bool_decide_eq_true_2 by done. cbn [negb orb].
    rewrite (bare_annotation_plain (mkmember tn ta tp false (Leaf l x))) by exact Hp. cbn [mbind outcome_bind].
    destruct (SerialiserSpec.set_field_quiet check sizes parent _ idx i Hs Hrec Hlt) as (i1 & -> & S1 & Q1).
    cbn [mbind outcome_bind]. by exists i1.
  - injection Hv1 as Hn Hms. subst n'. destruct Hr as (_ & Hnd & Hsz & Hall).
    destruct (SerialiserSpec.init_fields_quiet check sizes (sanitize tn) (length ms') i Hs) as (S0 & Q0 & R0).
    { apply (f_equal length) in Hms. rewrite !length_fmap in Hms. by rewrite Hms. }
    destruct (SerialiserSpec.merge_same check _ ws sizes (sanitize tn) [] ms'
                (init_fields check (sanitize tn) (length ms') i)
                (bare_all_assign ws sizes (sanitize tn) IH (proj1 (bare_readable_Forall sizes ws) Hall)))
      as (i1 & H1 & S1 & Q1); try done.
    { rewrite <- SerialiserSpec.names_class. change (SerialiserSpec.members_class ([] ++ ms')) with (SerialiserSpec.members_class ms').
      unfold SerialiserSpec.members_class, SerialiserSpec.member_class. by rewrite Hms, SerialiserSpec.names_class. }
    cbn [app] in H1. rewrite H1. cbn [mbind outcome_bind].
    destruct (SerialiserSpec.set_field_quiet check sizes parent (length ms) idx i1 S1) as (i2 & -> & S2 & Q2).
    { eapply SerialiserSpec.recorded_quiet; [exact Q1|]. by eapply SerialiserSpec.recorded_quiet. } { done. }
    cbn [mbind outcome_bind]. exists i2. split_and!; [done..|].
    eapply SerialiserSpec.quiet_trans; [exact Q0|]. by eapply SerialiserSpec.quiet_trans.
Qed.

Lemma bare_merge_same_class ms ws sizes :
  SerialiserSpec.members_class ms = SerialiserSpec.members_class ws → all_readable sizes ws →
  check = IGNORE ∨ sizes ROOT_NAME = length ws →
  ∃ i', merge_members ms ws no_info = Done (ws, i') ∧ exceptions i' = [] ∧ additionalFields i' = [].
Proof using Hgot.
  intros Hc [Hnd Hr] Hsz. unfold merge_members, merge_fields.
  assert (Hl : length ms = length ws).
  { apply (f_equal length) in Hc. unfold SerialiserSpec.members_class in Hc. by rewrite !length_fmap in Hc. }
  destruct (SerialiserSpec.init_fields_quiet check sizes ROOT_NAME (length ms) no_info) as (S0 & Q0 & R0); [done|by rewrite Hl|].
  destruct (SerialiserSpec.merge_same check _ ws sizes ROOT_NAME [] ms (init_fields check ROOT_NAME (length ms) no_info)
              (bare_all_assign ws sizes ROOT_NAME ltac:(apply Forall_true; intros m; apply bare_assigns_all) Hr) Hc)
    as (i1 & H1 & _ & Q1); try done.
  { simpl. rewrite <- (SerialiserSpec.names_class ms), Hc. by rewrite SerialiserSpec.names_class. }
  exists i1. split; [exact H1|]. destruct (SerialiserSpec.quiet_trans _ _ _ Q0 Q1) as (E & A & _). done.
Qed.
End bare.
