(* ===== verification/CmwLightSpec.v ===== *)
(** * CmwLightSpec: reading what CmwLight has written

    Values are read back and can be read past; reading a written object merges
    its members into those of the object that is read, as the specification of
    BareSpec without bytes says, where the format allows it; and what the format
    does not allow. *)

From S2P Require Import Prelude IoBuffer Yas YasHeader Serialiser BareSpec CmwLight.
From S2P Require SerialiserSpec MultiArray.
Local Open Scope nat_scope.

#[local] Abbreviation after := SerialiserSpec.after.

(** ** Values *)

Lemma get_s_enc_size n b rest :
  fits n → reads b (enc_size n) rest → get_s 4 b = Some (Z.of_nat n, after 4 b) ∧ reads (after 4 b) [] rest.
Proof. apply get_size_reads. Qed.

Lemma get_vec_reads a xs c rest :
  fits (length xs) → Forall (prim_ok a) xs →
  reads c (le_bytes 4 1 ++ enc_size (length xs) ++ enc_vector a xs) rest →
  ∃ c', get_vec a c = Done (xs, c') ∧ reads c' [] rest ∧ reading c c'.
Proof.
  intros Hf Hx Hr. rewrite reads_app in Hr.
  destruct (get_s_reads 4 1 c _ ltac:(lia) ltac:(unfold in_s, width; simpl; lia) Hr) as [H1 R1].
  apply reads_next in R1. rewrite reads_app in R1.
  destruct (get_s_enc_size _ _ _ Hf R1) as [H2 R2]. apply reads_next in R2.
  destruct (get_vector_reads a xs _ rest (Some (length xs)) Hx Hf (Nat.le_refl _) R2) as (c2 & H3 & R3 & E3).
  exists c2. split; [|split; [exact R3|exact E3]].
  unfold get_vec. rewrite H1. cbn [defined mbind outcome_bind]. rewrite H2. cbn [defined mbind outcome_bind].
  unfold fits in Hf. rewrite Z.mul_1_l, bool_decide_eq_true_2 by (unfold in_s; lia).
  rewrite wrapu_id by (unfold in_u; lia). by rewrite Nat2Z.id, H3.
Qed.

Section reading.
Context (w : walks) `{HW : Walks w}.

Lemma get_set_reads a X c rest :
  fits (length (elements X)) → set_Forall (prim_ok a) X → reads c (enc_vector a (walk_set w a X)) rest →
  ∃ c', get_set a c = Done (X, c') ∧ reads c' [] rest ∧ reading c c'.
Proof using HW.
  intros Hf HX Hr. unfold enc_vector in Hr. rewrite reads_app in Hr.
  assert (Hl : length (walk_set w a X) = length (elements X)) by (by rewrite walk_set_perm).
  destruct (get_s_enc_size (length (walk_set w a X)) _ _ ltac:(by rewrite Hl) Hr) as [H1 R1]. apply reads_next in R1.
  destruct (get_each_reads (get_prim a) (enc_prim a) (prim_ok a) (walk_set w a X) _ rest (get_prim_reads a)
              ltac:(by apply SerialiserSpec.walk_set_ok) R1) as (c2 & H2 & R2 & E2).
  exists c2. split; [|split; [exact R2|exact E2]]. unfold get_set. rewrite H1. cbn [defined mbind outcome_bind].
  rewrite Nat2Z.id, H2. cbn [defined mbind outcome_bind]. do 2 f_equal. apply set_eq. intros x.
  rewrite elem_of_list_to_set, walk_set_perm. by rewrite elem_of_elements.
Qed.

(** A value that is not a map is read back, whatever it is read into. *)
Lemma get_value_reads fuel f l x x0 c rest :
  (∀ k v, l ≠ MapOf k v) → value_ok l x → reads c (enc_value w l x) rest →
  get_value fuel f l x0 c = Done (x, f, after (length (enc_value w l x)) c).
Proof using HW.
  intros Hl Hx Hr.
  assert (∃ c', get_value fuel f l x0 c = Done (x, f, c') ∧ reads c' [] rest ∧ reading c c') as (c' & H1 & H2 & H3);
    [|by rewrite <- (SerialiserSpec.reading_after _ _ _ _ Hr H3 H2)].
  destruct l as [a|a|a n|a|k v]; cbn [get_value value_ok enc_value] in *.
  - destruct (get_prim_reads a x c rest Hx Hr) as (c' & H1 & H2). exists c'. by rewrite H1.
  - destruct Hx as [Hf Hx]. destruct (get_vec_reads a x c rest Hf Hx Hr) as (c' & H1 & H2). exists c'. by rewrite H1.
  - destruct Hx as (Hm & Hn & Hf & Hd & Hfe & Hx). rewrite <- Hn in *.
    destruct (multi_reads a _ _ c rest Hd Hf Hfe Hx Hr) as (c' & H1 & H2). exists c'. by rewrite H1, <- Hm.
  - destruct Hx as [Hf Hx]. destruct (get_set_reads a x c rest Hf Hx Hr) as (c' & H1 & H2). exists c'. by rewrite H1.
  - by destruct (Hl k v).
Qed.

(** ** Headers *)

Definition at_field (f : field) (b : iobuffer) (name : bytes) (id : Z) : field :=
  mkfield (Z.of_nat (position b)) (Z.of_nat (position b + length (enc_name name id))) no_end
    (if (subfields f =? -1)%Z then subfields f else wraps 16 (subfields f - 1))
    name (unknown_meta (fieldMeta f)) id (hierarchyDepth f).

Lemma get_field_reads f b name id rest :
  in_u 8 id → fits (length name + 1) → subfields f ≠ 0%Z → (subfields f = (-1)%Z → hierarchyDepth f ≠ 0%Z) →
  reads b (enc_name name id) rest →
  get_field f b = Some (at_field f b name id, after (length (enc_name name id)) b)
  ∧ reads (after (length (enc_name name id)) b) [] rest.
Proof using Type.
  intros Hid Hn H0 H1 Hr. pose proof (SerialiserSpec.reads_after (enc_name name id) [] rest b
    ltac:(by rewrite app_nil_r)) as Ha. split; [|exact Ha].
  pose proof Hr as Hr0. unfold enc_name in Hr. rewrite reads_app in Hr.
  destruct (extractStringView_reads name b _ Hn Hr) as (b1 & E1 & R1 & M1 & S1). apply reads_next in R1.
  destruct (get_u_reads _ _ _ _ R1) as [E2 R2].
  assert (Hb : set_position (position b1 + 1) b1 = after (length (enc_name name id)) b).
  { apply (SerialiserSpec.reading_after _ rest); [exact Hr0|by split|exact R2]. }
  unfold get_field. rewrite (proj2 (Z.eqb_neq _ 0)) by done.
  replace ((subfields f =? -1)%Z && (hierarchyDepth f =? 0)%Z) with false.
  2:{ destruct (Z.eqb_spec (subfields f) (-1)) as [E|E]; [|done]. by rewrite (proj2 (Z.eqb_neq _ _)) by auto. }
  rewrite E1. cbn [mbind option_bind]. rewrite E2. cbn [mbind option_bind].
  rewrite wrapu_id by (by unfold in_u, width in *; simpl in *; lia). rewrite Hb. unfold at_field. do 3 f_equal.
Qed.

Lemma get_start_reads f n b rest :
  in_s 16 n → reads b (le_bytes 4 n) rest →
  get_start f b = Some (mkfield (headerStart f) (Z.of_nat (position b + 4)) (dataEndPosition f) n (fieldName f)
                          (fieldMeta f) (intDataType f) (hierarchyDepth f), after 4 b)
  ∧ reads (after 4 b) [] rest.
Proof using Type.
  intros Hn Hr. destruct (get_s_reads 4 n b rest) as [H1 R1]; [lia|unfold in_s, width in *; simpl in *; lia|done|].
  split; [|exact R1]. unfold get_start. rewrite H1. cbn [mbind option_bind]. by rewrite wraps_id by (done || lia).
Qed.

(** ** Maps *)

(** What reading the entries makes of [m]. *)
Definition insert_entries {V} (es : list (bytes * V)) (m : gmap bytes V) : gmap bytes V :=
  foldl (λ m e, <[e.1 := e.2]> m) m es.

Lemma get_entries_reads v es : ∀ fuel f m b rest,
  Forall (λ e, c_str e.1 = e.1 ∧ fits (length e.1 + 1) ∧ prim_ok v e.2) es →
  (Z.of_nat (length es) < 2 ^ 15)%Z → subfields f = Z.of_nat (length es) → length es < fuel →
  reads b (concat (enc_entry v <$> es)) rest →
  get_entries fuel v f m b = Done (insert_entries es m, after (length (concat (enc_entry v <$> es))) b).
Proof using Type.
  induction es as [|[k x] es IH]; intros fuel f m b rest Hes Hlen Hs Hfuel Hr;
    (destruct fuel as [|fuel]; [simpl in Hfuel; lia|]).
  - assert (Ha : after 0 b = b) by (unfold SerialiserSpec.after, set_position; rewrite Nat.add_0_r; by destruct b).
    cbn [get_entries fmap list_fmap concat length]. rewrite Ha. unfold insert_entries. simpl.
    destruct (position b <? size b); [|done]. unfold get_field. simpl in Hs. rewrite Hs. simpl.
    rewrite Nat2Z.id. unfold set_position. by destruct b.
  - apply Forall_cons in Hes as [(Hk & Hf & Hx) Hes]. simpl in Hk, Hf, Hx, Hlen, Hs, Hfuel.
    cbn [fmap list_fmap concat] in *. change (list_fmap _ _ (enc_entry v) es) with (enc_entry v <$> es) in *.
    unfold enc_entry at 1 in Hr. cbn [fst snd] in Hr. rewrite Hk in Hr. rewrite <- app_assoc in Hr.
    pose proof Hr as Hr1. rewrite reads_app in Hr1.
    pose proof (block_id_range 0 201 v ltac:(lia) ltac:(lia)) as [Hid Hne].
    destruct (get_field_reads f b k (prim_id v) _ Hid Hf ltac:(lia) ltac:(lia) Hr1) as [G1 R1].
    pose proof (reads_length _ _ _ Hr) as Hlen1. rewrite length_app in Hlen1.
    assert (Hpos : 0 < length (enc_name k (prim_id v))).
    { unfold enc_name, enc_string. rewrite !length_app, !length_enc_size. lia. }
    cbn [get_entries]. rewrite (proj2 (Nat.ltb_lt _ _)) by lia. rewrite G1. cbn [defined mbind outcome_bind].
    cbn [at_field intDataType dataStartPosition fieldName]. rewrite (proj2 (Z.eqb_neq _ _)) by done.
    rewrite Z.eqb_refl. cbn [negb]. rewrite Nat2Z.id.
    change (set_position (position b + length (enc_name k (prim_id v))) (after (length (enc_name k (prim_id v))) b))
      with (after (length (enc_name k (prim_id v))) b).
    apply SerialiserSpec.reads_after in Hr. pose proof Hr as Hr2. rewrite reads_app in Hr2.
    destruct (get_prim_reads v x _ _ Hx Hr2) as (c & G2 & R2 & M2 & S2).
    rewrite G2. cbn [defined mbind outcome_bind].
    assert (Hc : c = after (length (enc_prim v x)) (after (length (enc_name k (prim_id v))) b)).
    { eapply SerialiserSpec.reading_after; [exact Hr2|by split|exact R2]. }
    rewrite (IH fuel _ _ c rest Hes); [|lia| |lia|].
    + unfold insert_entries. cbn [foldl fst snd]. rewrite Hc, !SerialiserSpec.after_after.
      unfold enc_entry at 2. cbn [fst snd]. rewrite Hk, !length_app. f_equal. f_equal; [|f_equal; lia].
      f_equal. destruct (m !! k); [done|]. apply insert_insert_eq.
    + cbn [subfields at_field]. rewrite (proj2 (Z.eqb_neq (subfields f) (-1))) by lia.
      rewrite wraps_id; [lia|lia|unfold in_s; lia].
    + rewrite Hc. by apply SerialiserSpec.reads_after in Hr.
Qed.
End reading.

(** ** Reading past a value *)

Lemma skip_bytes s b rest :
  fits (size b) → reads b s rest → skip_by (Z.of_nat (length s)) b = Done (after (length s) b).
Proof.
  intros Hf Hr. pose proof (reads_length _ _ _ Hr) as Hl. unfold fits in Hf. unfold skip_by.
  rewrite bool_decide_eq_true_2 by (unfold in_s; lia).
  rewrite skip_in_bounds by (unfold in_s; lia). rewrite decide_True by lia.
  unfold SerialiserSpec.after. do 2 f_equal. lia.
Qed.

(** A length in front of as many elements of [k] bytes. *)
Lemma skip_raw_reads n k s b rest :
  fits (size b) → length s = n * k → fits n → reads b (enc_size n ++ s) rest →
  skip_raw (Z.of_nat k) b = Done (after (4 + length s) b).
Proof.
  intros Hf Hs Hn Hr. rewrite reads_app in Hr. destruct (get_s_enc_size _ _ _ Hn Hr) as [H1 R1].
  apply reads_next in R1. unfold skip_raw. rewrite H1. cbn [defined mbind outcome_bind].
  rewrite <- Nat2Z.inj_mul, <- Hs. rewrite (skip_bytes s _ rest) by done. by rewrite SerialiserSpec.after_after.
Qed.

Lemma skipString_reads s b rest :
  fits (size b) → fits (length s + 1) → reads b (enc_string s) rest →
  skipString b = Done (after (length (enc_string s)) b).
Proof.
  intros Hf Hs Hr. unfold enc_string in *.
  pose proof (skip_raw_reads (length s + 1) 1 (s ++ [chr 0]) b rest Hf
                ltac:(rewrite length_app; simpl; lia) Hs Hr) as H.
  unfold skipString. change 1%Z with (Z.of_nat 1). rewrite H. by rewrite !length_app, length_enc_size.
Qed.

Lemma skip_strings_reads ss : ∀ b rest,
  fits (size b) → Forall (λ s, fits (length s + 1)) ss → reads b (concat (enc_string <$> ss)) rest →
  skip_strings (length ss) b = Done (after (length (concat (enc_string <$> ss))) b).
Proof.
  induction ss as [|s ss IH]; intros b rest Hf Hs Hr.
  - cbn [skip_strings length fmap list_fmap concat]. f_equal. unfold SerialiserSpec.after, set_position.
    rewrite Nat.add_0_r. by destruct b.
  - apply Forall_cons in Hs as [Hs1 Hs]. cbn [fmap list_fmap concat length skip_strings] in *.
    change (list_fmap _ _ enc_string ss) with (enc_string <$> ss) in *. pose proof Hr as Hr1. rewrite reads_app in Hr1.
    rewrite (skipString_reads s b _ Hf Hs1 Hr1). cbn [mbind outcome_bind].
    apply SerialiserSpec.reads_after in Hr. rewrite (IH _ rest); [|exact Hf|exact Hs|exact Hr].
    rewrite SerialiserSpec.after_after, length_app. done.
Qed.

Lemma skipRawArray_reads a xs b rest :
  fits (size b) → fits (length xs) → Forall (prim_ok a) xs → reads b (enc_vector a xs) rest →
  skipRawArray a b = Done (after (length (enc_vector a xs)) b).
Proof.
  intros Hf Hl Hx Hr. unfold enc_vector in *. destruct a as [t|]; cbn [skipRawArray enc_prim] in *.
  - rewrite length_app, length_enc_size. eapply skip_raw_reads; [done| |exact Hl|exact Hr].
    by rewrite length_concat_le.
  - rewrite reads_app in Hr. destruct (get_s_enc_size _ _ _ Hl Hr) as [H1 R1]. apply reads_next in R1.
    rewrite H1. cbn [defined mbind outcome_bind]. rewrite Nat2Z.id.
    rewrite (skip_strings_reads xs _ rest); [|exact Hf|exact Hx|exact R1].
    by rewrite SerialiserSpec.after_after, length_app, length_enc_size.
Qed.

Lemma find_prim_ids a :
  find_prim prim_id (prim_id a) = Some a
  ∧ find_prim prim_id (vector_id a) = None ∧ find_prim vector_id (vector_id a) = Some a
  ∧ find_prim prim_id (matrix_id a) = None ∧ find_prim vector_id (matrix_id a) = None
  ∧ find_prim matrix_id (matrix_id a) = Some a
  ∧ find_prim prim_id (cube_id a) = None ∧ find_prim vector_id (cube_id a) = None
  ∧ find_prim matrix_id (cube_id a) = None ∧ find_prim cube_id (cube_id a) = Some a.
Proof. destruct a as [[]|]; vm_compute; repeat split; reflexivity. Qed.

(** The types of values whose bytes say where they end. *)
Definition skippable (l : leaf) : Prop :=
  match l with Prim _ | Vec _ => True | Multi _ n => n ≠ 0 | SetOf _ | MapOf _ _ => False end.

Lemma skipMultiArray_reads a dims xs b rest :
  fits (size b) → fits (length dims) → fits (length xs) → Forall (prim_ok a) xs →
  reads b (enc_dims dims ++ enc_vector a xs) rest →
  skipMultiArray a b = Done (after (length (enc_dims dims ++ enc_vector a xs)) b).
Proof.
  intros Hf Hd Hl Hx Hr. pose proof Hr as Hr0. unfold enc_dims, enc_span in Hr. rewrite length_fmap in Hr.
  rewrite <- app_assoc, reads_app in Hr. destruct (get_s_enc_size _ _ _ Hd Hr) as [H1 R1]. apply reads_next in R1.
  pose proof R1 as R2. rewrite reads_app in R2.
  unfold skipMultiArray. rewrite H1. cbn [defined mbind outcome_bind].
  set (ds := concat (le_bytes 4 <$> (wraps 32 <$> dims))) in *.
  assert (Hds : Z.of_nat (length ds) = (Z.of_nat (length dims) * 4)%Z).
  { unfold ds. rewrite length_concat_le, length_fmap. lia. }
  rewrite <- Hds. rewrite (skip_bytes ds (after 4 b) _ Hf R2). cbn [mbind outcome_bind].
  apply SerialiserSpec.reads_after in R1. rewrite (skipRawArray_reads a xs _ rest); [|exact Hf|done..|exact R1].
  rewrite !SerialiserSpec.after_after. unfold enc_dims, enc_span. rewrite length_fmap. fold ds.
  rewrite !length_app, length_enc_size. do 2 f_equal; lia.
Qed.

Lemma skipArray_reads a xs b rest :
  fits (size b) → fits (length xs) → Forall (prim_ok a) xs →
  reads b (le_bytes 4 1 ++ enc_size (length xs) ++ enc_vector a xs) rest →
  skipArray a b = Done (after (length (le_bytes 4 1 ++ enc_size (length xs) ++ enc_vector a xs)) b).
Proof.
  intros Hf Hl Hx Hr. rewrite app_assoc in *. pose proof Hr as Hr1. rewrite reads_app in Hr1.
  assert (Hn : Z.of_nat (length (le_bytes 4 1 ++ enc_size (length xs))) = 8%Z)
    by (rewrite length_app, length_le_bytes, length_enc_size; done).
  unfold skipArray. rewrite <- Hn. rewrite (skip_bytes _ _ _ Hf Hr1). cbn [mbind outcome_bind].
  apply SerialiserSpec.reads_after in Hr. rewrite (skipRawArray_reads a xs _ rest); [|exact Hf|done..|exact Hr].
  rewrite SerialiserSpec.after_after. by rewrite (length_app (le_bytes 4 1 ++ _)).
Qed.

(** A value that is read past by its type ends where reading it ends. *)
Lemma skip_value_reads w l x b rest :
  skippable l → value_ok l x → fits (size b) → reads b (enc_value w l x) rest →
  skip_value (data_type_id l) b = Done (after (length (enc_value w l x)) b).
Proof.
  intros Hl Hx Hf Hr. unfold skip_value.
  destruct l as [a|a|a n|a|k v]; try done; cbn [data_type_id value_ok enc_value] in *.
  - destruct (find_prim_ids a) as (-> & _). destruct a as [t|]; cbn [enc_prim] in *.
    + pose proof (skip_bytes _ b rest Hf Hr) as Hs. by rewrite length_le_bytes in *.
    + by apply (skipString_reads _ _ rest).
  - destruct (find_prim_ids a) as (_ & -> & -> & _). destruct Hx as [H1 H2]. by apply (skipArray_reads _ _ _ rest).
  - destruct Hx as (Hm & Hn & Hfn & Hd & Hfe & Hx). unfold multi_id.
    destruct (Nat.eqb_spec n 1) as [->|Hn1]; [|destruct (Nat.eqb_spec n 2) as [->|Hn2]].
    + destruct (find_prim_ids a) as (_ & -> & -> & _).
      destruct (MultiArray.dimensions x) as [|d [|]] eqn:E; try done.
      pose proof Hr as Hr0. unfold enc_dims, enc_span in Hr. cbn [fmap list_fmap concat length app] in Hr.
      rewrite app_nil_r, <- app_assoc in Hr.
      pose proof Hr as Hr1. rewrite app_assoc, reads_app in Hr1.
      assert (Hn8 : Z.of_nat (length (enc_size 1 ++ le_bytes 4 (wraps 32 d))) = 8%Z)
        by (rewrite length_app, length_le_bytes, length_enc_size; done).
      unfold skipArray. rewrite <- Hn8. rewrite (skip_bytes _ _ _ Hf Hr1). cbn [mbind outcome_bind].
      rewrite app_assoc in Hr. apply SerialiserSpec.reads_after in Hr.
      rewrite (skipRawArray_reads a _ (after _ b) rest Hf Hfe Hx Hr), SerialiserSpec.after_after.
      rewrite !length_app. unfold enc_dims, enc_span. cbn [fmap list_fmap concat length app].
      rewrite app_nil_r, length_app. done.
    + destruct (find_prim_ids a) as (_ & _ & _ & -> & -> & -> & _). by apply (skipMultiArray_reads _ _ _ _ rest); try rewrite Hn.
    + destruct (find_prim_ids a) as (_ & _ & _ & _ & _ & _ & -> & -> & -> & ->).
      by apply (skipMultiArray_reads _ _ _ _ rest); try rewrite Hn.
Qed.

(** ** The bytes of an object *)


(** The members that are written. *)
Definition present (ms : list (member content)) : nat := length (filter (λ m, f_pointer m && f_null m = false) ms).

Section encoding.
Context (w : walks).

Fixpoint enc_content (m : member content) (c : content) : bytes :=
  if skipped m then []
  else
    let name := sanitize (f_name m) in
    match c with
    | Leaf l x => enc_name name (data_type_id l) ++ enc_value w l x
    | Object _ ms =>
        enc_name name START_ID ++ le_bytes 4 (Z.of_nat (present ms))
        ++ concat ((λ m', enc_content m' (f_value m')) <$> ms)
    end.

Definition enc_fields (ms : list (member content)) : bytes := concat ((λ m, enc_content m (f_value m)) <$> ms).
Definition enc_object (ms : list (member content)) : bytes := le_bytes 4 (Z.of_nat (present ms)) ++ enc_fields ms.
End encoding.

(** Every value and name of the object fits the format, and the numbers of
    members fit an [int16_t]. *)
Fixpoint content_ok (m : member content) (c : content) : Prop :=
  fits (length (f_name m) + 1)
  ∧ match c with
    | Leaf l x => value_ok l x
    | Object _ ms => (Z.of_nat (length ms) < 2 ^ 15)%Z ∧ foldr (λ m' P, content_ok m' (f_value m') ∧ P) True ms
    end.

Definition member_ok (m : member content) : Prop := content_ok m (f_value m).
Definition members_ok (ms : list (member content)) : Prop :=
  (Z.of_nat (length ms) < 2 ^ 15)%Z ∧ Forall member_ok ms.

Lemma members_ok_foldr ms : foldr (λ m P, content_ok m (f_value m) ∧ P) True ms ↔ Forall member_ok ms.
Proof. induction ms as [|m ms IH]; simpl; [done|]. by rewrite IH, Forall_cons. Qed.

Lemma present_le ms : present ms ≤ length ms.
Proof. unfold present. apply length_filter. Qed.

Lemma present_cons m ms : present (m :: ms) = (if skipped m then 0 else 1) + present ms.
Proof.
  unfold present, skipped. rewrite filter_cons. by destruct (f_pointer m && f_null m).
Qed.

Lemma number_of_subfields ms : (Z.of_nat (length ms) < 2 ^ 15)%Z → getNumberOfNonNullSubfields ms = Z.of_nat (present ms).
Proof.
  intros H. pose proof (present_le ms). unfold getNumberOfNonNullSubfields. fold (present ms).
  rewrite wraps_id; [done|lia|unfold in_s; lia].
Qed.

(** ** Writing an object *)

Section writing.
Context (junk : ascii) (w : walks) `{HW : Walks w} (sizeof : leaf → nat).

Lemma put_member_wrote c : ∀ depth m b,
  wf b → content_ok m c → (0 < depth)%Z → (depth + Z.of_nat (SerialiserSpec.depth c) < 255)%Z →
  ∃ b', put_member junk w sizeof depth m c b = Some b' ∧ wrote (enc_content w m c) b b'.
Proof using HW.
  induction c as [l x|n ms IH] using content_nested_ind; intros depth m b Hw (Hn & Hc) Hd0 Hd;
    cbn [put_member enc_content]; change (f_pointer m && f_null m) with (skipped m);
    (destruct (skipped m); [exists b; split; [done|]; unfold wrote; by rewrite app_nil_r|]).
  - apply put_field_wrote; [done|lia|]. intros c Hwc. apply put_value_wrote; [done..|].
    cbn [SerialiserSpec.depth] in Hd. lia.
  - destruct Hc as [Hlen Hc%members_ok_foldr]. rewrite number_of_subfields by done.
    destruct (put_start_wrote junk depth (sanitize (f_name m)) (Z.of_nat (present ms)) b Hw) as (b1 & H1 & W1).
    rewrite (proj2 (Z.eqb_neq _ _)) in W1 by lia. pose proof (present_le ms).
    rewrite wraps_id in W1 by (unfold in_s; lia).
    destruct (SerialiserSpec.each_wrote (λ m', put_member junk w sizeof (wrapu 8 (depth + 1)) m' (f_value m'))
                (λ m', enc_content w m' (f_value m')) ms b1) as (b2 & H2 & W2); [apply W1| |].
    + rewrite Forall_forall in *. intros m' Hm' c' Hc'.
      assert (Hdm : (SerialiserSpec.depth (f_value m') < SerialiserSpec.depth (Object n ms))%nat).
      { cbn [SerialiserSpec.depth]. clear -Hm'. induction ms as [|m1 ms IH]; [by apply elem_of_nil in Hm'|].
        apply elem_of_cons in Hm' as [->|Hm']; simpl; [lia|]. specialize (IH Hm'). simpl in IH. lia. }
      rewrite wrapu_id by (unfold in_u; lia). apply IH; [done..|by apply Hc|lia|lia].
    + exists b2. rewrite H1. split; [exact H2|]. rewrite app_assoc. by eapply wrote_trans.
Qed.

Lemma cmw_serialise_wrote name ms b :
  wf b → members_ok ms → SerialiserSpec.fields_depth ms < 254 →
  ∃ b', serialise junk w sizeof name ms b = Some b' ∧ wrote (enc_object w ms) b b'.
Proof using HW.
  intros Hw [Hlen Hok] Hd. unfold serialise. rewrite number_of_subfields by done.
  destruct (put_start_wrote junk 0 (sanitize name) (Z.of_nat (present ms)) b Hw) as (b1 & H1 & W1).
  pose proof (present_le ms). cbn [Z.eqb app] in W1. rewrite wraps_id in W1 by (unfold in_s; lia).
  destruct (SerialiserSpec.each_wrote (λ m, put_member junk w sizeof 1 m (f_value m))
              (λ m, enc_content w m (f_value m)) ms b1) as (b2 & H2 & W2); [apply W1| |].
  - rewrite Forall_forall in *. intros m Hm c Hc. apply put_member_wrote; [done|by apply Hok|lia|].
    assert (SerialiserSpec.depth (f_value m) ≤ SerialiserSpec.fields_depth ms); [|lia].
    clear -Hm. unfold SerialiserSpec.fields_depth. induction ms as [|m1 ms IH]; [by apply elem_of_nil in Hm|].
    apply elem_of_cons in Hm as [->|Hm]; simpl; [lia|]. specialize (IH Hm). lia.
  - exists b2. rewrite H1. split; [exact H2|]. by eapply wrote_trans.
Qed.
End writing.

(** ** The specification *)

Definition bare_meta : meta := unknown_meta no_meta.

Definition is_skippable (l : leaf) : bool :=
  match l with Prim _ | Vec _ => true | Multi _ n => negb (n =? 0) | SetOf _ | MapOf _ _ => false end.

(** A class that no member has is refused; behind a set or a map the reader
    loses its place. *)
Definition unknown_type (c : content) : outcome Z :=
  match c with
  | Leaf l _ => if is_skippable l then Done (data_type_id l) else Undefined
  | Object _ _ => Thrown
  end.

(** Reading the object [ws] into the object [ms]: an object of which nothing was
    written is refused. *)
Definition merge (check : ProtocolCheck) (ms ws : list (member content)) (i : info)
    : outcome (list (member content) * info) :=
  if present ws =? 0 then Thrown else merge_members check bare_meta unknown_type ms ws i.

(** ** Reading an object *)

Section objects.
Context (w : walks) `{HW : Walks w} (check : ProtocolCheck).

(** Fields of this format have neither unit nor quantity. *)
Definition bare (f : field) : Prop := m_unit (fieldMeta f) = [] ∧ m_quantity (fieldMeta f) = [].

Lemma check_annotation_bare a name f i :
  bare f → check_annotation check a name (fieldMeta f) i = check_annotation check a name bare_meta i.
Proof using Type.
  intros [Hu Hq]. unfold check_annotation. destruct a as [a|]; [|done]. case_bool_decide; [done|].
  by rewrite Hu, Hq.
Qed.

Lemma enc_name_pos name id : 0 < length (enc_name name id).
Proof using Type. unfold enc_name, enc_string. rewrite !length_app, length_enc_size. lia. Qed.

(** One turn of the loop, up to the member the field belongs to. *)
Definition after_header (fuel : nat) (parent : bytes) (f1 : field) (prev : Z) (s : state) : outcome state :=
  let '(ms, i, b2) := s in
  match findMemberIndex (fieldName f1) ms with
  | None =>
      i1 ← report check (MissingField parent (fieldName f1)) i;
      b3 ← skip_unknown f1 b2;
      loop check fuel parent f1 (ms, add_field check parent (fieldName f1) (intDataType f1) i1, b3)
  | Some idx =>
      m ← defined (ms !! idx);
      '(m', i1, b3, f2) ← read_field check (λ n fp, enter check (loop check fuel (fieldName fp)) n fp) fuel parent
                            prev idx m f1 i b2;
      loop check fuel parent f2 (<[idx := m']> ms, i1, b3)
  end.

Definition counting (f : field) : Prop := (0 < subfields f < 2 ^ 15)%Z.

Lemma cmw_loop_turn fuel parent f ms i b id name s rest :
  in_u 8 id → id ≠ END_ID → fits (length name + 1) → counting f → reads b (enc_name name id ++ s) rest →
  loop check (S fuel) parent f (ms, i, b)
  = after_header fuel parent (at_field f b name id) (subfields f) (ms, i, after (length (enc_name name id)) b).
Proof using Type.
  intros Hid Hne Hn Hs Hr. unfold counting in Hs. pose proof (reads_length _ _ _ Hr) as Hl. rewrite length_app in Hl.
  rewrite reads_app in Hr. pose proof (enc_name_pos name id).
  destruct (get_field_reads f b name id _ Hid Hn ltac:(lia) ltac:(lia) Hr) as [H1 _].
  cbn [loop]. rewrite (proj2 (Nat.ltb_lt _ _)) by lia. rewrite H1. cbn [defined mbind outcome_bind].
  cbn [at_field intDataType dataStartPosition]. rewrite (proj2 (Z.eqb_neq _ _)) by done. by rewrite Nat2Z.id.
Qed.

(** No field is left: whether the buffer goes on or not. *)
Lemma cmw_loop_end fuel parent f ms i b rest :
  subfields f = 0%Z → reads b [] rest → loop check (S fuel) parent f (ms, i, b) = Done (ms, i, b).
Proof using Type.
  intros Hs (Hw & Hp & _). cbn [loop]. destruct (Nat.ltb_spec (position b) (size b)) as [Hlt|Hge].
  - unfold get_field. rewrite Hs. cbn [Z.eqb defined mbind outcome_bind intDataType dataStartPosition].
    rewrite Z.eqb_refl, Nat2Z.id. unfold set_position. by destruct b.
  - assert (He : position b = size b) by lia. rewrite He, Nat.eqb_refl. by rewrite andb_false_r.
Qed.

(** What one written member does to a turn of the loop. *)
Definition turn_spec (c : content) : Prop :=
  ∀ m fuel parent f ms i b rest,
    skipped m = false → content_ok m c → fits (size b) →
    (0 ≤ hierarchyDepth f)%Z → (hierarchyDepth f + Z.of_nat (SerialiserSpec.depth c) < 255)%Z →
    counting f → bare f → SerialiserSpec.weight c ≤ fuel → reads b (enc_content w m c) rest →
    match assign check bare_meta unknown_type parent m c (ms, i) with
    | Done (ms', i') =>
        ∃ f', hierarchyDepth f' = hierarchyDepth f ∧ subfields f' = (subfields f - 1)%Z ∧ bare f'
              ∧ loop check (S fuel) parent f (ms, i, b)
                = loop check fuel parent f' (ms', i', after (length (enc_content w m c)) b)
    | Thrown => loop check (S fuel) parent f (ms, i, b) = Thrown
    | _ => True
    end.

Lemma cmw_sanitize_fits name : fits (length name + 1) → fits (length (sanitize name) + 1).
Proof using Type. unfold fits, sanitize. intros H. destruct (_ && _); [|done]. rewrite length_drop. lia. Qed.

Lemma at_field_counting f b name id :
  counting f →
  hierarchyDepth (at_field f b name id) = hierarchyDepth f ∧ subfields (at_field f b name id) = (subfields f - 1)%Z.
Proof using Type.
  intros Hs. unfold counting in Hs. split; [done|]. cbn [subfields at_field].
  rewrite (proj2 (Z.eqb_neq _ _)) by lia. rewrite wraps_id; [done|lia|unfold in_s; lia].
Qed.

Lemma skippable_type l : is_skippable l = true → skippable l ∧ data_type_id l ≠ START_ID.
Proof using Type.
  assert (H : ∀ base char a, (base = 0 ∨ 9 ≤ base ≤ 25)%Z → (201 ≤ char)%Z → block_id base char a ≠ START_ID).
  { intros base char a Hb Hc. unfold START_ID. destruct a as [[]|]; simpl; lia. }
  destruct l as [a|a|a n|a|k v]; simpl; try done.
  - intros _. split; [done|]. apply H; lia.
  - intros _. split; [done|]. apply H; lia.
  - intros Hn. split; [intros ->; done|]. unfold multi_id. destruct (n =? 1); [|destruct (n =? 2)]; apply H; lia.
Qed.

Lemma cmw_turn_leaf l x : turn_spec (Leaf l x).
Proof using HW.
  intros m fuel parent f ms i b rest Hs (Hn & Hx) Hf Hd0 Hd Hcount Hbare Hfuel Hr.
  cbn [enc_content] in *. rewrite Hs in Hr |- *. set (name := sanitize (f_name m)) in *.
  pose proof (data_type_id_range l) as [Hid Hne]. set (id := data_type_id l) in *.
  rewrite (cmw_loop_turn fuel parent f ms i b id name (enc_value w l x) rest) by
    (done || apply cmw_sanitize_fits, Hn).
  destruct (at_field_counting f b name id Hcount) as [Hfd Hfs].
  apply SerialiserSpec.reads_after in Hr. set (b2 := after (length (enc_name name id)) b) in *.
  rewrite length_app. cbn [assign]. rewrite Hs. fold name. unfold after_header. cbn [fieldName at_field].
  destruct (findMemberIndex name ms) as [idx|] eqn:Hfind.
  - destruct (SerialiserSpec.findMemberIndex_lookup _ _ _ Hfind) as (t & Ht & _). rewrite Ht. cbn [defined mbind outcome_bind].
    unfold read_field. destruct (f_value t) as [l0 x0|n0 ms0] eqn:Hv; [|done].
    case_bool_decide as Hl; [|done]. subst l0. cbn [negb orb].
    destruct (is_map l) eqn:Hmap; [done|]. unfold read_value. cbn [intDataType at_field]. rewrite Z.eqb_refl. cbn [negb].
    rewrite check_annotation_bare by exact Hbare.
    destruct (check_annotation _ _ _ _ _) as [[[] i1]| | |]; [|done..]. cbn [mbind outcome_bind].
    rewrite (get_value_reads w fuel _ l x x0 b2 rest); [|by intros k v ->|exact Hx|exact Hr].
    cbn [mbind outcome_bind]. destruct (set_field _ _ _ _) as [i2| | |]; [|done..]. cbn [mbind outcome_bind].
    eexists. split; [exact Hfd|]. split; [exact Hfs|]. split; [exact Hbare|].
    unfold b2. by rewrite SerialiserSpec.after_after.
  - destruct (report _ _ _) as [i1| | |]; [|done..]. cbn [mbind outcome_bind unknown_type].
    destruct (is_skippable l) eqn:Hsk; [|done]. destruct (skippable_type l Hsk) as [Hsk' Hst].
    unfold skip_unknown. cbn [intDataType at_field]. fold id in Hst. rewrite (proj2 (Z.eqb_neq _ _)) by done.
    pose proof (skip_value_reads w l x b2 rest Hsk' Hx Hf Hr) as Hskip. fold id in Hskip. rewrite Hskip.
    cbn [mbind outcome_bind].
    eexists. split; [exact Hfd|]. split; [exact Hfs|]. split; [exact Hbare|].
    unfold b2. by rewrite SerialiserSpec.after_after.
Qed.

Lemma cmw_enc_skipped m c : skipped m = true → enc_content w m c = [].
Proof using Type. intros Hs. destruct c; cbn [enc_content]; by rewrite Hs. Qed.

(** The written members, to the end of the count. *)
Lemma cmw_fields_read ws :
  Forall (λ m, turn_spec (f_value m)) ws →
  ∀ fuel parent f ms i b rest,
    Forall member_ok ws → fits (size b) → (Z.of_nat (present ws) < 2 ^ 15)%Z →
    (0 ≤ hierarchyDepth f)%Z → (hierarchyDepth f + Z.of_nat (SerialiserSpec.fields_depth ws) < 255)%Z →
    subfields f = Z.of_nat (present ws) → bare f → SerialiserSpec.fields_weight ws ≤ fuel →
    reads b (enc_fields w ws) rest →
    match SerialiserSpec.merge_each (λ m, assign check bare_meta unknown_type parent m (f_value m)) ws (ms, i) with
    | Done (ms', i') =>
        loop check fuel parent f (ms, i, b) = Done (ms', i', after (length (enc_fields w ws)) b)
    | Thrown => loop check fuel parent f (ms, i, b) = Thrown
    | _ => True
    end.
Proof using HW.
  induction 1 as [|m ws Hm _ IH]; intros fuel parent f ms i b rest Hok Hf Hlen Hd0 Hd Hs Hbare Hfuel Hr.
  - destruct fuel as [|fuel]; [unfold SerialiserSpec.fields_weight in Hfuel; simpl in Hfuel; lia|].
    cbn [SerialiserSpec.merge_each]. unfold enc_fields in *. cbn [fmap list_fmap concat length] in *.
    rewrite (cmw_loop_end fuel parent f ms i b rest Hs Hr). unfold SerialiserSpec.after, set_position.
    rewrite Nat.add_0_r. by destruct b.
  - apply Forall_cons in Hok as [Hmok Hok]. unfold SerialiserSpec.fields_depth, SerialiserSpec.fields_weight in *.
    rewrite present_cons in *. cbn [foldr] in *. unfold enc_fields in *.
    cbn [SerialiserSpec.merge_each fmap list_fmap concat] in *.
    change (concat (list_fmap _ _ _ ws)) with (concat ((λ m0, enc_content w m0 (f_value m0)) <$> ws)) in *.
    destruct (skipped m) eqn:Hsk.
    + rewrite bare_assign_skipped, cmw_enc_skipped in * by done. cbn [mbind outcome_bind app] in *.
      apply (IH fuel parent f ms i b rest); try done; lia.
    + destruct fuel as [|fuel]; [lia|].
      assert (Hw1 : 1 ≤ SerialiserSpec.weight (f_value m)) by (destruct (f_value m); simpl; lia).
      pose proof Hr as Hr1. rewrite reads_app in Hr1.
      pose proof (Hm m fuel parent f ms i b _ Hsk Hmok Hf Hd0 ltac:(lia) ltac:(unfold counting; lia) Hbare
                    ltac:(lia) Hr1) as Hturn.
      destruct (assign _ _ _ _ _) as [[ms1 i1]| | |]; [|exact Hturn|done|done].
      destruct Hturn as (f1 & Hf1 & Hs1 & Hb1 & ->). cbn [mbind outcome_bind].
      apply SerialiserSpec.reads_after in Hr.
      pose proof (IH fuel parent f1 ms1 i1 (after (length (enc_content w m (f_value m))) b) rest
                    Hok Hf ltac:(lia) ltac:(lia) ltac:(lia) ltac:(lia) Hb1 ltac:(lia) Hr) as Hrec.
      destruct (SerialiserSpec.merge_each _ _ _) as [[ms' i']| | |]; [|exact Hrec|done|done].
      by rewrite Hrec, SerialiserSpec.after_after, length_app.
Qed.

(** The fields of a class, after its count. *)
Lemma counted_fields_read ws fuel parent f ms i b rest :
  Forall (λ m, turn_spec (f_value m)) ws → members_ok ws → fits (size b) →
  (0 ≤ hierarchyDepth f)%Z → (hierarchyDepth f + Z.of_nat (SerialiserSpec.fields_depth ws) < 255)%Z →
  bare f → SerialiserSpec.fields_weight ws ≤ fuel →
  reads b (le_bytes 4 (Z.of_nat (present ws)) ++ enc_fields w ws) rest →
  match SerialiserSpec.merge_each (λ m, assign check bare_meta unknown_type parent m (f_value m)) ws (ms, i) with
  | Done (ms', i') =>
      ('(f1, b2) ← defined (get_start f b);
       loop check fuel parent f1 (ms, i, set_position (Z.to_nat (dataStartPosition f1)) b2))
      = Done (ms', i', after (4 + length (enc_fields w ws)) b)
  | Thrown =>
      ('(f1, b2) ← defined (get_start f b);
       loop check fuel parent f1 (ms, i, set_position (Z.to_nat (dataStartPosition f1)) b2)) = Thrown
  | _ => True
  end.
Proof using HW.
  intros Hws [Hlen Hok] Hf Hd0 Hd Hbare Hfuel Hr. pose proof (present_le ws).
  pose proof Hr as Hr1. rewrite reads_app in Hr1.
  destruct (get_start_reads f (Z.of_nat (present ws)) b _ ltac:(unfold in_s; lia) Hr1) as [H1 _].
  rewrite H1. cbn [defined mbind outcome_bind dataStartPosition]. rewrite Nat2Z.id.
  apply SerialiserSpec.reads_after in Hr. rewrite length_le_bytes in Hr. fold (after 4 b).
  set (f1 := mkfield _ _ _ _ _ _ _ _).
  pose proof (cmw_fields_read ws Hws fuel parent f1 ms i (after 4 b) rest Hok Hf ltac:(lia) Hd0 Hd eq_refl Hbare Hfuel Hr)
    as Hloop.
  destruct (SerialiserSpec.merge_each _ _ _) as [[ms' i']| | |]; [|exact Hloop|done|done].
  change (set_position (position b + 4) (after 4 b)) with (after 4 b).
  by rewrite Hloop, SerialiserSpec.after_after.
Qed.

(** A nested class. *)
Lemma enter_nested ws fuel n0 fp ms0 i b name rest :
  Forall (λ m, turn_spec (f_value m)) ws → members_ok ws → fits (length name + 1) → fits (size b) →
  (0 < hierarchyDepth fp)%Z → (hierarchyDepth fp + Z.of_nat (SerialiserSpec.fields_depth ws) < 255)%Z →
  SerialiserSpec.fields_weight ws ≤ fuel →
  reads b (enc_name name START_ID ++ le_bytes 4 (Z.of_nat (present ws)) ++ enc_fields w ws) rest →
  match SerialiserSpec.merge_each (λ m, assign check bare_meta unknown_type (fieldName fp) m (f_value m)) ws
          (ms0, init_fields check (fieldName fp) (length ms0) i) with
  | Done (ms', i') =>
      enter check (loop check fuel (fieldName fp)) n0 fp (ms0, i, b)
      = Done (ms', i', after (length (enc_name name START_ID) + (4 + length (enc_fields w ws))) b)
  | Thrown => enter check (loop check fuel (fieldName fp)) n0 fp (ms0, i, b) = Thrown
  | _ => True
  end.
Proof using HW.
  intros Hws Hok Hn Hf Hd0 Hd Hfuel Hr. set (f0 := mkfield 0 0 0 (-1) [] no_meta 0 (hierarchyDepth fp)).
  pose proof Hr as Hr1. rewrite reads_app in Hr1.
  destruct (get_field_reads f0 b name START_ID _ ltac:(done) Hn ltac:(done) ltac:(intros _; simpl; lia) Hr1) as [H1 _].
  unfold enter. fold f0. rewrite H1. cbn [defined mbind outcome_bind at_field hierarchyDepth f0].
  rewrite (proj2 (Z.eqb_neq _ _)) by lia. cbn [andb report_if mbind outcome_bind].
  apply SerialiserSpec.reads_after in Hr. set (b1 := after (length (enc_name name START_ID)) b) in *.
  pose proof (counted_fields_read ws fuel (fieldName fp) (at_field f0 b name START_ID) ms0
                (init_fields check (fieldName fp) (length ms0) i) b1 rest Hws Hok Hf ltac:(simpl; lia)
                ltac:(simpl; lia) ltac:(done) Hfuel Hr) as Hc.
  unfold at_field in Hc. cbn [hierarchyDepth f0] in Hc.
  destruct (SerialiserSpec.merge_each _ _ _) as [[ms' i']| | |]; [|exact Hc|done|done].
  refine (eq_trans Hc _). unfold b1. by rewrite SerialiserSpec.after_after.
Qed.

Lemma cmw_turn_object n ws : Forall (λ m, turn_spec (f_value m)) ws → turn_spec (Object n ws).
Proof using HW.
  intros Hws m fuel parent f ms i b rest Hs (Hn & Hlen & Hok%(members_ok_foldr ws)) Hf Hd0 Hd Hcount Hbare Hfuel Hr.
  cbn [enc_content] in *. rewrite Hs in Hr |- *. set (name := sanitize (f_name m)) in *.
  change (concat ((λ m', enc_content w m' (f_value m')) <$> ws)) with (enc_fields w ws) in *.
  pose proof (cmw_sanitize_fits _ Hn) as Hname. fold name in Hname.
  rewrite (cmw_loop_turn fuel parent f ms i b START_ID name (le_bytes 4 (Z.of_nat (present ws)) ++ enc_fields w ws) rest)
    by done.
  destruct (at_field_counting f b name START_ID Hcount) as [Hfd Hfs].
  cbn [assign]. rewrite Hs. fold name. unfold after_header. cbn [fieldName at_field].
  destruct (findMemberIndex name ms) as [idx|] eqn:Hfind.
  2:{ destruct (report _ _ _) as [i1| | |]; [|done..]. cbn [mbind outcome_bind].
      unfold skip_unknown. cbn [intDataType at_field]. rewrite Z.eqb_refl. reflexivity. }
  destruct (SerialiserSpec.findMemberIndex_lookup _ _ _ Hfind) as (t & Ht & Hnt). rewrite Ht.
  cbn [defined mbind outcome_bind]. unfold read_field.
  destruct (f_value t) as [l0 x0|n0 ms0] eqn:Hv; [done|].
  set (f1 := with_depth (hierarchyDepth (at_field f b name START_ID) + 1)
               (with_name (sanitize (f_name t)) (with_type START_ID (at_field f b name START_ID)))).
  assert (Hd1 : hierarchyDepth f1 = (hierarchyDepth f + 1)%Z) by (apply wrapu_id; unfold in_u; simpl; lia).
  assert (Hn1 : fieldName f1 = name) by exact Hnt.
  assert (Hback : set_position (Z.to_nat (headerStart (at_field f b name START_ID)))
                    (after (length (enc_name name START_ID)) b) = b).
  { cbn [headerStart at_field]. rewrite Nat2Z.id. unfold SerialiserSpec.after, set_position. by destruct b. }
  change (headerStart {| headerStart := Z.of_nat (position b); dataStartPosition := _ |})
    with (headerStart (at_field f b name START_ID)). rewrite Hback.
  cbn [SerialiserSpec.depth SerialiserSpec.weight] in Hd, Hfuel.
  pose proof (enter_nested ws fuel n0 f1 ms0 i b name rest Hws ltac:(by split) Hname Hf ltac:(lia)
                ltac:(unfold SerialiserSpec.fields_depth; lia) ltac:(unfold SerialiserSpec.fields_weight; lia) Hr) as Henter.
  rewrite Hn1 in Henter |- *.
  destruct (SerialiserSpec.merge_each _ _ _) as [[ms'' i']| | |]; [|by rewrite Henter|done|done].
  rewrite Henter. cbn [mbind outcome_bind].
  destruct (set_field _ _ _ _) as [i2| | |]; [|done..]. cbn [mbind outcome_bind].
  eexists. split; [|split; [|split; [|rewrite !length_app, length_le_bytes; reflexivity]]].
  - cbn [hierarchyDepth with_subfields with_depth]. rewrite Hd1. rewrite wrapu_id by (unfold in_u; lia). lia.
  - cbn [subfields with_subfields]. unfold counting in Hcount. rewrite wraps_id; [done|lia|unfold in_s; lia].
  - exact Hbare.
Qed.

Lemma cmw_turn_all c : turn_spec c.
Proof using HW. induction c as [l x|n ms IH] using content_nested_ind; [apply cmw_turn_leaf|by apply cmw_turn_object]. Qed.
End objects.

Section refinement.
Context (w : walks) `{HW : Walks w} (check : ProtocolCheck).

(** What is to be read is in the message. *)
Lemma reads_position b s rest : reads b s rest → s ≠ [] → position b < size b.
Proof using Type.
  intros (_ & _ & H) Hs. apply (f_equal length) in H. rewrite length_drop, length_app in H.
  assert (length (IoBuffer.content b) ≤ size b) by (unfold IoBuffer.content; rewrite length_take; lia).
  destruct s; simpl in *; [done|lia].
Qed.

Lemma cmw_checkHeaderInfo_reads ws b rest :
  (Z.of_nat (length ws) < 2 ^ 15)%Z → reads b (enc_object w ws) rest →
  checkHeaderInfo b = if present ws =? 0 then Thrown else Done b.
Proof using Type.
  intros Hlen Hr. pose proof (reads_position _ _ _ Hr ltac:(done)) as Hlt.
  unfold enc_object in Hr. rewrite reads_app in Hr. pose proof (present_le ws).
  destruct (get_s_reads 4 (Z.of_nat (present ws)) b _ ltac:(lia) ltac:(unfold in_s, width; simpl; lia) Hr) as [H1 _].
  unfold checkHeaderInfo. rewrite (proj2 (Nat.leb_gt _ _)) by done. rewrite H1. cbn [defined mbind outcome_bind].
  destruct (present ws); [done|]. by rewrite (proj2 (Z.eqb_neq _ _)) by lia.
Qed.

Lemma cmw_deserialise_object fuel name ms ws i b :
  exceptions i = [] → members_ok ws → fits (size b) → SerialiserSpec.fields_depth ws < 254 →
  SerialiserSpec.fields_weight ws ≤ fuel → reads b (enc_object w ws) [] →
  SerialiserSpec.implements (merge check ms ws i) (deserialise check fuel name ms i b) b.
Proof using HW.
  intros Hi Hok Hf Hd Hfuel Hr. unfold deserialise, merge. rewrite (cmw_checkHeaderInfo_reads ws b []) by (done || apply Hok).
  destruct (present ws =? 0); [done|]. cbn [mbind outcome_bind].
  rewrite Hi, (bool_decide_eq_true_2 ([] = [])), andb_false_r by done. cbn [negb]. unfold enter, merge_members, merge_fields.
  cbn [hierarchyDepth fieldName get_field subfields Z.eqb Pos.eqb andb negb bool_decide defined mbind outcome_bind report_if].
  rewrite (bool_decide_eq_true_2 ([] = [])) by done. rewrite andb_false_r. cbn [report_if mbind outcome_bind].
  set (f := mkfield _ _ _ _ _ _ _ _).
  pose proof (counted_fields_read w check ws fuel ROOT_NAME f ms (init_fields check ROOT_NAME (length ms) i) b []
                ltac:(apply Forall_true; intros m; apply cmw_turn_all, HW) Hok Hf ltac:(done) ltac:(simpl; lia)
                ltac:(done) Hfuel Hr) as Hc.
  unfold SerialiserSpec.implements.
  destruct (SerialiserSpec.merge_each _ _ _) as [[ms' i']| | |]; [|exact Hc|done|done].
  refine (eq_trans Hc _). do 2 f_equal. unfold SerialiserSpec.after. f_equal.
  pose proof (reads_length _ _ _ Hr) as Hl. pose proof (SerialiserSpec.reads_tail _ _ _ Hr) as Ht. symmetry in Ht.
  apply (f_equal length) in Ht. unfold enc_object in *. rewrite length_app, length_le_bytes in *.
  rewrite length_drop, length_content in Ht by apply Hr. cbn [length] in Ht. lia.
Qed.
End refinement.

(** C25: An object that is written at the end of what has been read, whatever the
    classes of the two objects: where the specification is defined, reading
    gives what merging the members gives, with the same exceptions, set fields
    and additional fields, and ends at the end of the buffer, although the format
    has no sizes: the fields are counted and values nobody wants are read past. *)
Theorem cmw_refines junk w sizeof check wname ws b :
  Walks w → wf b → position b = size b → members_ok ws → SerialiserSpec.fields_depth ws < 254 →
  fits (size b + length (enc_object w ws)) →
  ∃ b1, serialise junk w sizeof wname ws b = Some b1
    ∧ size b1 = size b + length (enc_object w ws)
    ∧ ∀ fuel name ms i, SerialiserSpec.fields_weight ws ≤ fuel → exceptions i = [] →
        SerialiserSpec.implements (merge check ms ws i) (deserialise check fuel name ms i b1) b1.
Proof.
  intros HW Hw Hp Hok Hd Hf. destruct (cmw_serialise_wrote junk w sizeof wname ws b Hw Hok Hd) as (b1 & H1 & W1).
  pose proof (wrote_size _ _ _ Hw W1) as Hs. exists b1. split_and!; [done..|]. intros fuel name ms i Hfuel Hi.
  apply (cmw_deserialise_object w); try done; [by rewrite Hs|]. by eapply wrote_reads.
Qed.

(** ** Values that are written and read *)

(** A value that is not a map comes back, and reading past it without knowing
    its type ends where reading it does. *)
Theorem value_roundtrip junk w sizeof depth l x x0 fuel f b :
  Walks w → wf b → position b = size b → skippable l → value_ok l x → (0 ≤ depth < 255)%Z →
  fits (size b + length (enc_value w l x)) →
  ∃ b1, put_value junk w sizeof depth l x b = Some b1
    ∧ get_value fuel f l x0 b1 = Done (x, f, set_position (size b1) b1)
    ∧ skip_value (data_type_id l) b1 = Done (set_position (size b1) b1).
Proof.
  intros HW Hw Hp Hl Hx Hd Hf.
  destruct (put_value_wrote junk w sizeof depth l x b Hw Hx Hd) as (b1 & H1 & W1).
  pose proof (wrote_size _ _ _ Hw W1) as Hs. pose proof (wrote_reads _ _ _ Hw Hp W1) as Hr.
  assert (Ha : after (length (enc_value w l x)) b1 = set_position (size b1) b1).
  { unfold SerialiserSpec.after. f_equal. rewrite Hs. destruct W1 as (_ & _ & ->). by rewrite Hp. }
  exists b1. split; [done|]. rewrite <- Ha. split.
  - apply (get_value_reads w fuel f l x x0 b1 []); [by destruct l|done..].
  - apply (skip_value_reads w l x b1 []); [done..|by rewrite Hs|done].
Qed.

Lemma insert_entries_map {V} (es : list (bytes * V)) (m : gmap bytes V) :
  NoDup es.*1 → insert_entries es m = list_to_map es ∪ m.
Proof.
  revert m. induction es as [|[k x] es IH]; intros m Hnd; [simpl; by rewrite map_empty_union|].
  apply NoDup_cons in Hnd as [Hk Hnd]. unfold insert_entries in *. simpl in *. rewrite IH by done.
  rewrite <- insert_union_r by (by apply not_elem_of_list_to_map_1). by rewrite insert_union_l.
Qed.

Lemma union_entries {V} (m m0 : gmap bytes V) es :
  es ≡ₚ map_to_list m → insert_entries es m0 = m ∪ m0.
Proof.
  intros Hes. assert (Hnd : NoDup es.*1) by (rewrite Hes; apply NoDup_fst_map_to_list).
  rewrite insert_entries_map by done. f_equal.
  by rewrite (list_to_map_proper es (map_to_list m)), list_to_map_to_list.
Qed.

(** A map with string keys is read into another: its entries replace those with
    their keys, and the others stay.  The field the map is read for is left with
    the number of the entries where that of the fields of its class was. *)
Theorem map_roundtrip (junk : ascii) (w : walks) (sizeof : leaf → nat) (depth : Z) (fuel : nat) (f : field)
    (b : iobuffer) (v : prim) (m m0 : gmap bytes (carrier v)) :
  Walks w → wf b → position b = size b → value_ok (MapOf String v) m → (0 ≤ depth < 255)%Z →
  fits (size b + length (enc_value w (MapOf String v) m)) → length (map_to_list m) < fuel →
  ∃ b1 f', put_value junk w sizeof depth (MapOf String v) m b = Some b1
    ∧ get_value fuel f (MapOf String v) m0 b1 = Done (m ∪ m0, f', set_position (size b1) b1)
    ∧ subfields f' = Z.of_nat (length (map_to_list m)).
Proof.
  intros HW Hw Hp Hx Hd Hf Hfuel.
  destruct (put_value_wrote junk w sizeof depth (MapOf String v) m b Hw Hx Hd) as (b1 & H1 & W1).
  pose proof (wrote_size _ _ _ Hw W1) as Hs. pose proof (wrote_reads _ _ _ Hw Hp W1) as Hr.
  destruct Hx as [Hlen Hm]. cbn [enc_value] in *. set (es := entries_of w v m) in *.
  assert (Hes : es ≡ₚ map_to_list m) by exact (walk_map_perm String v m).
  assert (Hl : length (map_to_list m) = length es) by (by rewrite Hes).
  assert (Hlen' : (Z.of_nat (length es) < 2 ^ 15)%Z) by (rewrite <- Hl; exact Hlen).
  assert (Hok : Forall (λ e, c_str e.1 = e.1 ∧ fits (length e.1 + 1) ∧ prim_ok v e.2) es)
    by exact (all_entries _ m es Hes Hm).
  clear Hlen Hm. unfold enc_size in Hr. rewrite wraps_id in Hr by (unfold in_s; lia).
  pose proof Hr as Hr1. rewrite reads_app in Hr1.
  destruct (get_start_reads f (Z.of_nat (length es)) b1 _ ltac:(unfold in_s; lia) Hr1) as [G1 _].
  apply SerialiserSpec.reads_after in Hr. rewrite length_le_bytes in Hr.
  exists b1. eexists. split; [done|]. cbn [get_value]. unfold get_map. rewrite G1.
  cbn [defined mbind outcome_bind subfields hierarchyDepth]. rewrite Hl in *.
  rewrite (get_entries_reads v es fuel _ m0 (after 4 b1) [] Hok) by (done || lia).
  cbn [mbind outcome_bind]. rewrite (union_entries m m0 es Hes).
  assert (Ha : after (length (concat (enc_entry v <$> es))) (after 4 b1) = set_position (size b1) b1).
  { rewrite SerialiserSpec.after_after. unfold SerialiserSpec.after. f_equal. rewrite Hs, length_app, length_enc_size.
    destruct W1 as (_ & _ & ->). lia. }
  rewrite Ha. by split.
Qed.

(** ** Objects of the same class *)

Lemma cmw_merge_same_class check ms ws sizes :
  SerialiserSpec.members_class ms = SerialiserSpec.members_class ws → all_readable check sizes ws → ws ≠ [] →
  check = IGNORE ∨ sizes ROOT_NAME = length ws →
  ∃ i', merge check ms ws no_info = Done (ws, i') ∧ exceptions i' = [] ∧ additionalFields i' = [].
Proof.
  intros Hc Hr Hne Hsz. unfold merge.
  assert (Hpr : present ws ≠ 0).
  { destruct ws as [|m ws]; [done|]. destruct Hr as [_ Hr]. apply Forall_cons in Hr as [Hm _].
    rewrite present_cons. unfold skipped.
    assert (f_null m = false) as -> by (destruct (f_value m); apply Hm). rewrite andb_false_r. lia. }
  rewrite (proj2 (Nat.eqb_neq _ _)) by done. by apply (bare_merge_same_class check bare_meta unknown_type ltac:(done) ms ws sizes).
Qed.

(** C26: An object that is written, with its nested classes, and read into another
    object of the same class comes back as it was, with no exception and no
    additional field.  The class has at least one member, less than 2^15 at every
    level, and no maps; the members of a class have distinct names, and none is a
    null pointer.  Unless the check is [IGNORE], an annotation is that of a value
    that may be written, without unit and quantity, and the classes that are
    recorded under one name, which is that of the member and for the outermost one
    a fixed one, have the same number of members.  Values, sizes and the depth are
    within the bounds of the format. *)
Theorem cmw_roundtrip junk w sizeof check name rname ms ws b sizes :
  Walks w → wf b → position b = size b → members_ok ws → ws ≠ [] → SerialiserSpec.fields_depth ws < 254 →
  fits (size b + length (enc_object w ws)) →
  SerialiserSpec.members_class ms = SerialiserSpec.members_class ws → all_readable check sizes ws →
  check = IGNORE ∨ sizes ROOT_NAME = length ws →
  ∃ b1 i', serialise junk w sizeof name ws b = Some b1
    ∧ exceptions i' = [] ∧ additionalFields i' = []
    ∧ ∀ fuel, SerialiserSpec.fields_weight ws ≤ fuel →
        deserialise check fuel rname ms no_info b1 = Done (ws, i', set_position (size b1) b1).
Proof.
  intros HW Hw Hp Hok Hne Hd Hf Hc Hr Hsz.
  destruct (cmw_merge_same_class check ms ws sizes Hc Hr Hne Hsz) as (i' & Hm & He & Ha).
  destruct (cmw_serialise_wrote junk w sizeof name ws b Hw Hok Hd) as (b1 & H1 & W1).
  pose proof (wrote_size _ _ _ Hw W1) as Hs. exists b1, i'. split_and!; [done..|]. intros fuel Hfuel.
  pose proof (cmw_deserialise_object w check fuel rname ms ws no_info b1) as Himpl.
  rewrite Hm in Himpl. apply Himpl; try done; [by rewrite Hs|]. by eapply wrote_reads.
Qed.

(** *** Examples *)

Definition example_member (name : bytes) (c : content) : member content := mkmember name None false false c.

Definition example_inner (x : Z) (s : bytes) : list (member content) :=
  [example_member (str "gain") (Leaf (Prim (Number Double)) x); example_member (str "label") (Leaf (Prim String) s)].

Definition example_outer (n : Z) (xs : list Z) (x : Z) (s : bytes) : list (member content) :=
  [example_member (str "count") (Leaf (Prim (Number Int32)) n);
   example_member (str "inner") (Object (str "Inner") (example_inner x s));
   example_member (str "samples") (Leaf (Vec (Number Int16)) xs)].

(** A version of the class that has neither the count nor the samples. *)
Definition example_older : list (member content) :=
  [example_member (str "inner") (Object (str "Inner") (example_inner 0 []))].

Definition written_outer : list (member content) := example_outer 7 [1; (-2); 3]%Z (2 ^ 63) (str "abc").

Ltac solve_example :=
  repeat first [done | by right | by apply (bool_decide_unpack _); vm_compute; exact I
               | apply Forall_nil | apply Forall_cons; split | split].

Lemma written_outer_ok : members_ok written_outer.
Proof. solve_example. Qed.

Lemma cmw_roundtrip_witness :
  let b := new_buffer "?"%char 4 in
  ∃ b1 i', serialise "?"%char SerialiserSpec.example_walks (λ _, 8) (str "Outer") written_outer b = Some b1
    ∧ exceptions i' = [] ∧ additionalFields i' = []
    ∧ ∀ fuel, 20 ≤ fuel →
        deserialise LENIENT fuel (str "Outer") (example_outer 0 [] 0 []) no_info b1
        = Done (written_outer, i', set_position (size b1) b1).
Proof.
  intros b.
  destruct (cmw_roundtrip "?"%char SerialiserSpec.example_walks (λ _, 8) LENIENT (str "Outer") (str "Outer")
              (example_outer 0 [] 0 []) written_outer b SerialiserSpec.example_sizes) as (b1 & i' & H1 & H2 & H3 & H4).
  - apply SerialiserSpec.example_walks_ok.
  - unfold wf, b. simpl. lia.
  - done.
  - apply written_outer_ok.
  - done.
  - simpl. lia.
  - unfold fits. vm_compute. done.
  - done.
  - solve_example.
  - by right.
  - exists b1, i'. split_and!; [done..|]. intros fuel Hfuel. apply H4. unfold SerialiserSpec.fields_weight. cbn. lia.
Defined.

Lemma cmw_refines_witness :
  let b := new_buffer "?"%char 4 in
  ∃ b1, serialise "?"%char SerialiserSpec.example_walks (λ _, 8) (str "Outer") written_outer b = Some b1
    ∧ ∀ fuel, 20 ≤ fuel →
        SerialiserSpec.implements
          (Done ([example_member (str "inner") (Object (str "Inner") (example_inner (2 ^ 63) (str "abc")))],
                 mkinfo (<[str "inner" := [true; true]]> (<[ROOT_NAME := [true]]> ∅))
                   [(str "root::count", 3%Z); (str "root::samples", 11%Z)]
                   [MissingField ROOT_NAME (str "count"); MissingField ROOT_NAME (str "samples")]))
          (deserialise LENIENT fuel (str "OuterV1") example_older no_info b1) b1.
Proof.
  intros b.
  destruct (cmw_refines "?"%char SerialiserSpec.example_walks (λ _, 8) LENIENT (str "Outer") written_outer b)
    as (b1 & H1 & _ & H2).
  - apply SerialiserSpec.example_walks_ok.
  - unfold wf, b. simpl. lia.
  - done.
  - apply written_outer_ok.
  - simpl. lia.
  - unfold fits. vm_compute. done.
  - exists b1. split; [done|]. intros fuel Hfuel. specialize (H2 fuel (str "OuterV1") example_older no_info).
    assert (Hm : merge LENIENT example_older written_outer no_info
                 = Done ([example_member (str "inner") (Object (str "Inner") (example_inner (2 ^ 63) (str "abc")))],
                 mkinfo (<[str "inner" := [true; true]]> (<[ROOT_NAME := [true]]> ∅))
                   [(str "root::count", 3%Z); (str "root::samples", 11%Z)]
                   [MissingField ROOT_NAME (str "count"); MissingField ROOT_NAME (str "samples")]))
      by (vm_compute; reflexivity).
    rewrite Hm in H2. apply H2; [unfold SerialiserSpec.fields_weight; cbn; lia|done].
Defined.

Lemma value_roundtrip_witness :
  let b := new_buffer "?"%char 4 in let f := mkfield 0 0 0 5 [] no_meta 0 1 in
  ∃ b1, put_value "?"%char SerialiserSpec.example_walks (λ _, 8) 1 (Vec String) [str "one"; str ""] b = Some b1
    ∧ get_value 9 f (Vec String) [] b1 = Done ([str "one"; str ""], f, set_position (size b1) b1)
    ∧ skip_value (data_type_id (Vec String)) b1 = Done (set_position (size b1) b1).
Proof.
  apply (value_roundtrip "?"%char SerialiserSpec.example_walks (λ _, 8) 1 (Vec String) [str "one"; str ""] [] 9).
  - apply SerialiserSpec.example_walks_ok.
  - unfold wf. simpl. lia.
  - done.
  - done.
  - solve_example.
  - done.
  - unfold fits. vm_compute. done.
Defined.

Lemma map_roundtrip_witness :
  let b := new_buffer "?"%char 4 in let f := mkfield 0 0 0 5 [] no_meta 0 1 in
  let m : gmap bytes Z := {[ str "x" := 1%Z; str "y" := 2%Z ]} in
  let m0 : gmap bytes Z := {[ str "y" := 7%Z; str "z" := 9%Z ]} in
  ∃ b1 f', put_value "?"%char SerialiserSpec.example_walks (λ _, 8) 1 (MapOf String (Number Int32)) m b = Some b1
    ∧ get_value 9 f (MapOf String (Number Int32)) m0 b1 = Done (m ∪ m0, f', set_position (size b1) b1)
    ∧ subfields f' = 2%Z.
Proof.
  intros b f m m0.
  apply (map_roundtrip "?"%char SerialiserSpec.example_walks (λ _, 8) 1 9 f b (Number Int32) m m0).
  - apply SerialiserSpec.example_walks_ok.
  - unfold wf. simpl. lia.
  - done.
  - split; [vm_compute; reflexivity|].
    refine (proj2 (map_Forall_to_list (λ k x, c_str k = k ∧ fits (length k + 1) ∧ prim_ok (Number Int32) x) m) _).
    change (map_to_list m) with [(str "y", 2%Z); (str "x", 1%Z)]. solve_example.
  - done.
  - unfold fits. vm_compute. done.
  - simpl. vm_compute. lia.
Defined.
