(* ===== verification/CmwLightLimits.v ===== *)
(** * CmwLightLimits: what the CmwLight format cannot carry

    Messages that are written by [serialise] and not read back, and one that is
    read for ever; every one is evaluated on the definitions of CmwLight.v. *)

From S2P Require Import Prelude IoBuffer Yas YasHeader Serialiser CmwLight.
From S2P Require SerialiserSpec.
Local Open Scope nat_scope.

(** Writing [ws] into a fresh buffer, and reading it into [ms]. *)
Definition written (ws : list (member content)) : option iobuffer :=
  serialise "?"%char SerialiserSpec.example_walks (λ _, 8) (str "Class") ws (new_buffer "?"%char 4).

Definition reread (check : ProtocolCheck) (fuel : nat) (ms ws : list (member content)) : outcome state :=
  match written ws with
  | Some b => deserialise check fuel (str "Class") ms no_info b
  | None => Undefined
  end.

(** What the reader has when it is done: the members, the exceptions, and the
    bytes that are left. *)
Definition seen (o : outcome state) : option (list (member content) * list deser_error * nat) :=
  match o with Done (ms, i, b) => Some (ms, exceptions i, size b - position b) | _ => None end.

Definition field_of (name : bytes) (l : leaf) (x : leaf_carrier l) : member content :=
  mkmember name None false false (Leaf l x).

Definition int_field (name : bytes) (x : Z) : member content := field_of name (Prim (Number Int32)) x.

Definition map_field (name : bytes) (m : gmap bytes Z) : member content := field_of name (MapOf String (Number Int32)) m.

(** ** What is not on the wire *)

(** A nested class that the reader does not have makes the whole message
    unreadable, with every check: values can be read past, classes cannot. *)
Lemma unknown_class_refused check :
  reread check 20 [int_field (str "b") 0]
    [mkmember (str "in") None false false (Object (str "In") [int_field (str "x") 1]); int_field (str "b") 5] = Thrown.
Proof. destruct check; vm_compute; reflexivity. Qed.

(** A member whose type has changed is not read past: the reader goes on inside
    the value.  The text [b] becomes the name of a field, and the member [b],
    which nobody wrote, is set; nothing is reported with [IGNORE], and seven bytes
    are left unread. *)
Lemma mismatch_derails :
  seen (reread IGNORE 20 [int_field (str "a") 0; int_field (str "b") 0]
          [field_of (str "a") (Prim String) (str "b"); int_field (str "xy") 7])
  = Some ([int_field (str "a") 0; int_field (str "b") (Z.shiftl 120 24)], [], 7).
Proof. vm_compute. reflexivity. Qed.

(** The unit of a value is not on the wire, so that a value with a unit is never
    that of the member it was written from; nor is it read past, and the member
    after it is lost too. *)
Definition volts (x : Z) : member content :=
  mkmember (str "v") (Some (mkmeta (str "V") [] [] RW)) false false (Leaf (Prim (Number Int32)) x).

Lemma annotated_derails :
  seen (reread LENIENT 20 [volts 0; int_field (str "b") 0] [volts 1; int_field (str "b") 7])
  = Some ([volts 0; int_field (str "b") 0], [MismatchedUnit (str "v"); MissingField ROOT_NAME []], 8).
Proof. vm_compute. reflexivity. Qed.

(** An object none of whose members is written is no message. *)
Lemma empty_object_refused check :
  reread check 20 [] [mkmember (str "p") None true true (Leaf (Prim (Number Int32)) 0%Z)] = Thrown.
Proof. destruct check; vm_compute; reflexivity. Qed.

(** A set has the type of a vector and not its layout: reading past a set of one
    number goes past the end of the message. *)
Lemma set_is_no_vector check :
  seen (reread check 20 [int_field (str "b") 0]
          [field_of (str "s") (SetOf (Number Int32)) ({[ 1%Z ]} : gset Z); int_field (str "b") 7]) = None.
Proof. destruct check; vm_compute; reflexivity. Qed.

(** ** Maps *)

(** The number of the entries of a map is left where the number of the fields of
    its class is counted: after a map with one entry one more field is read, and
    the others are lost, without an exception even when everything is checked. *)
Lemma map_ends_the_class :
  seen (reread ALWAYS 20 [map_field (str "m") ∅; int_field (str "a") 0; int_field (str "b") 0]
          [map_field (str "m") {[ str "k" := 5%Z ]}; int_field (str "a") 1; int_field (str "b") 7])
  = Some ([map_field (str "m") {[ str "k" := 5%Z ]}; int_field (str "a") 1; int_field (str "b") 0], [], 11).
Proof. vm_compute. reflexivity. Qed.

Lemma empty_map_ends_the_class :
  seen (reread ALWAYS 20 [map_field (str "m") ∅; int_field (str "b") 0] [map_field (str "m") ∅; int_field (str "b") 7])
  = Some ([map_field (str "m") ∅; int_field (str "b") 0], [], 11).
Proof. vm_compute. reflexivity. Qed.

(** A key ends at its first zero. *)
Lemma map_key_truncated :
  seen (reread ALWAYS 20 [map_field (str "m") ∅] [map_field (str "m") {[ (str "a" ++ [chr 0] ++ str "b") := 5%Z ]}])
  = Some ([map_field (str "m") {[ str "a" := 5%Z ]}], [], 0).
Proof. vm_compute. reflexivity. Qed.

(** A map of the root object whose count is -1 is taken for a class whose header
    has not been read: every turn reads a field without a byte. *)
Lemma entries_for_ever v b : position b < size b →
  ∀ fuel f m, subfields f = (-1)%Z → hierarchyDepth f = 0%Z → get_entries fuel v f m b = OutOfFuel.
Proof.
  intros Hp fuel. induction fuel as [|fuel IH]; intros f m Hs Hd; [done|].
  cbn [get_entries]. rewrite (proj2 (Nat.ltb_lt _ _) Hp). unfold get_field. rewrite Hs, Hd.
  cbn [Z.eqb Pos.eqb andb defined mbind option_bind outcome_bind intDataType dataStartPosition fieldName].
  assert (Hb : set_position (Z.to_nat (Z.of_nat (position b))) b = b) by (rewrite Nat2Z.id; by destruct b).
  rewrite Hb. assert (Hid : prim_id v ≠ START_ID) by (by destruct v as [[]|]).
  rewrite (proj2 (Z.eqb_neq _ _) Hid). cbn [negb]. by apply IH.
Qed.

Lemma map_reader_hangs v f m b b1 fuel :
  hierarchyDepth f = 0%Z → get_s 4 b = Some ((-1)%Z, b1) → position b1 < size b1 → get_map fuel v f m b = OutOfFuel.
Proof.
  intros Hd Hg Hp. unfold get_map, get_start. rewrite Hg.
  cbn [defined mbind option_bind outcome_bind subfields hierarchyDepth]. by rewrite entries_for_ever.
Qed.

(** Sixteen bytes that are never read to the end. *)
Definition hanging : iobuffer :=
  let s := le_bytes 4 1 ++ enc_name (str "m") START_ID ++ le_bytes 4 (-1) ++ [chr 0] in
  mkbuf s 0 (length s).

(** Evaluates a call whose arguments are closed. *)
Ltac evaluate e := let r := eval vm_compute in e in replace e with r by (vm_compute; reflexivity).
Ltac next_call :=
  match goal with
  | |- context [checkHeaderInfo ?b] => evaluate (checkHeaderInfo b)
  | |- context [get_field ?f ?b] => evaluate (get_field f b)
  | |- context [get_start ?f ?b] => evaluate (get_start f b)
  | |- context [findMemberIndex ?n ?ms] => evaluate (findMemberIndex n ms)
  end; cbn [defined mbind outcome_bind].

Lemma hanging_hangs check fuel :
  deserialise check fuel (str "Class") [map_field (str "m") ∅] no_info hanging = OutOfFuel.
Proof.
  unfold deserialise. next_call.
  replace (bool_decide (check = LENIENT) && negb (bool_decide (exceptions no_info = []))) with false
    by (by destruct check). unfold enter. next_call.
  replace (report_if check _ _ _) with (Done (init_fields check ROOT_NAME 1 no_info)) by (by destruct check).
  cbn [mbind outcome_bind]. next_call.
  destruct fuel as [|fuel]; [done|]. cbn [loop].
  match goal with |- context [if ?c then _ else _] => evaluate c end. next_call.
  cbn [intDataType Z.eqb Pos.eqb END_ID fieldName]. next_call. cbn [lookup list_lookup defined mbind outcome_bind].
  unfold read_field, read_value. cbn [f_value map_field field_of data_type_id intDataType].
  cbn [negb Z.eqb START_ID Pos.eqb f_annotation check_annotation mbind outcome_bind get_value].
  unfold get_map. next_call. rewrite entries_for_ever; [done| |done|done].
  apply (bool_decide_unpack _). vm_compute. exact I.
Qed.
