(* ===== verification/Json.v ===== *)
(** * Json: [serialiser/include/IoSerialiserJson.hpp]

    Writing and reading JSON texts, and the reader of IoSerialiser.hpp with this
    protocol.  Printing and parsing floating-point numbers is given by the
    standard library and fast_float: a parameter with its laws.  Reading past
    [size] is checked where the code does so ([at]); elsewhere what the memory
    holds behind the text is read. *)

From S2P Require Import Prelude Text IoBuffer Yas YasHeader Serialiser.
From S2P Require MultiArray.
Local Open Scope nat_scope.

(** ** Characters *)

Definition quote : ascii := chr 34.
Definition backslash : ascii := chr 92.

Definition isNumberChar (c : ascii) : bool :=
  ((43 <=? code c) && (code c <=? 57) && negb (code c =? 47) && negb (code c =? 44))%Z
  || eqc c "e" || eqc c "E".

Definition isWhitespace (c : ascii) : bool := eqc c (chr 32) || eqc c (chr 9) || eqc c (chr 10) || eqc c (chr 13).

Definition isHexNumberChar (c : ascii) : bool := in_range 48 57 c || in_range 97 102 c || in_range 65 70 c.

Definition isHexNumber (s : bytes) : bool := forallb isHexNumberChar s.

(** ** Access *)

(** [buffer.at<uint8_t>(index)] throws [std::out_of_range]. *)
Definition at_ (index : nat) (b : iobuffer) : outcome ascii :=
  if size b <=? index then Thrown else defined (mem b !! index).

(** [buffer.get<uint8_t>()] is not checked. *)
Definition getc (b : iobuffer) : outcome (ascii * iobuffer) :=
  c ← defined (mem b !! position b); Done (c, set_position (position b + 1) b).

(** [buffer.skip<false>(n)], and backwards by one. *)
Definition forward (n : nat) (b : iobuffer) : iobuffer := set_position (position b + n) b.
Definition back (b : iobuffer) : iobuffer := set_position (position b - 1) b.

Definition expect (c : ascii) (b : iobuffer) : outcome iobuffer :=
  '(d, b1) ← getc b; if eqc d c then Done b1 else Thrown.

(** [buffer.size() - buffer.position() > n && buffer.asString(buffer.position(), n) == w]
    with [n] the length of [w]; the difference is unsigned, so that it is large
    behind the end. *)
Definition at_word (w : bytes) (b : iobuffer) : outcome bool :=
  if (size b <? position b) || (length w <? size b - position b)
  then match asString (position b) (Z.of_nat (length w)) b with
       | Ok s => Done (bool_decide (s = w))
       | Throw _ => Thrown
       end
  else Done false.

(** ** White space, strings and keys *)

Fixpoint ws_loop (n : nat) (b : iobuffer) : outcome iobuffer :=
  match n with
  | O => Done b
  | S n' =>
      c ← at_ (position b) b;
      if isWhitespace c then ws_loop n' (forward 1 b) else Done b
  end.

(** The loop ends at [size]. *)
Definition consumeWhitespace (b : iobuffer) : outcome iobuffer := ws_loop (size b - position b) b.

Definition escape (c : ascii) : bytes :=
  if eqc c quote || eqc c backslash || eqc c "/" then [backslash; c]
  else if eqc c (chr 8) then [backslash; "b"%char]
  else if eqc c (chr 12) then [backslash; "f"%char]
  else if eqc c (chr 10) then [backslash; "n"%char]
  else if eqc c (chr 13) then [backslash; "r"%char]
  else if eqc c (chr 9) then [backslash; "t"%char]
  else [c].

(** The character after a backslash, but for [u]. *)
Definition unescape (c : ascii) : option ascii :=
  if eqc c quote || eqc c backslash || eqc c "/" then Some c
  else if eqc c "b" then Some (chr 8)
  else if eqc c "f" then Some (chr 12)
  else if eqc c "n" then Some (chr 10)
  else if eqc c "r" then Some (chr 13)
  else if eqc c "t" then Some (chr 9)
  else None.

Fixpoint string_loop (fuel : nat) (result : bytes) (b : iobuffer) : outcome (bytes * iobuffer) :=
  match fuel with
  | O => OutOfFuel
  | S fuel' =>
      '(c, b1) ← getc b;
      if eqc c quote then Done (result, b1)
      else
        d ← at_ (position b1 - 1) b1;
        if eqc d backslash then
          '(e, b2) ← getc b1;
          if eqc e "u" then
            if size b2 <=? position b2 + 4 then Thrown
            else if isHexNumber (take 4 (drop (position b2) (mem b2)))
                 then string_loop fuel' (result ++ ["_"%char]) (forward 4 b2)
                 else Thrown
          else
            match unescape e with
            | Some x => _ ← at_ (position b2 - 1) b2; string_loop fuel' (result ++ [x]) b2
            | None => Thrown
            end
        else string_loop fuel' (result ++ [c]) b1
  end.

Definition readString (b : iobuffer) : outcome (bytes * iobuffer) :=
  if size b <=? position b then Done ([], b)
  else b1 ← expect quote b; string_loop (S (size b)) [] b1.

Fixpoint key_loop (n i : nat) (b : iobuffer) : outcome nat :=
  c ← at_ i b;
  if eqc c quote then Done i
  else if eqc c backslash then Thrown
  else match n with O => OutOfFuel | S n' => key_loop n' (i + 1) b end.

Definition readKey (b : iobuffer) : outcome (bytes * iobuffer) :=
  b1 ← expect quote b;
  i ← key_loop (size b) (position b1) b1;
  Done (take (i - position b1) (drop (position b1) (mem b1)), set_position (i + 1) b1).

(** ** Reading past a value *)

Fixpoint number_loop (fuel : nat) (b : iobuffer) : outcome iobuffer :=
  match fuel with
  | O => OutOfFuel
  | S fuel' => '(c, b1) ← getc b; if isNumberChar c then number_loop fuel' b1 else Done (back b1)
  end.

Definition skipNumber (b : iobuffer) : outcome iobuffer := number_loop (S (capacity b)) b.

(** The end of an object or an array. *)
Definition leave (b : iobuffer) : outcome iobuffer := consumeWhitespace (forward 1 b).

(** The key of a field and its colon. *)
Definition skip_key (b : iobuffer) : outcome iobuffer :=
  b1 ← consumeWhitespace b;
  '(_, b2) ← readString b1;
  b3 ← consumeWhitespace b2;
  b4 ← expect ":" b3;
  consumeWhitespace b4.

(** The words, numbers and strings. *)
Definition skip_scalar (b : iobuffer) : outcome iobuffer :=
  is_false ← at_word (str "false") b;
  if is_false : bool then Done (forward 5 b) else
  is_true ← at_word (str "true") b;
  if is_true : bool then Done (forward 4 b) else
  is_null ← at_word (str "null") b;
  if is_null : bool then Done (forward 4 b) else skipNumber b.

Fixpoint skipValue_ (fuel : nat) (b : iobuffer) : outcome iobuffer :=
  match fuel with
  | O => OutOfFuel
  | S fuel' =>
      b1 ← consumeWhitespace b;
      c ← at_ (position b1) b1;
      if eqc c "{" then
        b2 ← expect "{" b1; b3 ← consumeWhitespace b2; skip_fields fuel' b3
      else if eqc c "[" then
        b2 ← expect "[" b1; b3 ← consumeWhitespace b2; skip_elements fuel' b3
      else if eqc c quote then '(_, b2) ← readString b1; Done b2
      else skip_scalar b1
  end
with skip_fields (fuel : nat) (b : iobuffer) : outcome iobuffer :=
  match fuel with
  | O => OutOfFuel
  | S fuel' =>
      c ← at_ (position b) b;
      if eqc c "}" then leave b
      else
        b1 ← skip_key b;
        b2 ← skipValue_ fuel' b1;
        b3 ← consumeWhitespace b2;
        d ← at_ (position b3) b3;
        if eqc d "}" then leave b3
        else b4 ← expect "," b3; b5 ← consumeWhitespace b4; skip_fields fuel' b5
  end
with skip_elements (fuel : nat) (b : iobuffer) : outcome iobuffer :=
  match fuel with
  | O => OutOfFuel
  | S fuel' =>
      c ← at_ (position b) b;
      if eqc c "]" then leave b
      else
        b2 ← skipValue_ fuel' b;
        b3 ← consumeWhitespace b2;
        d ← at_ (position b3) b3;
        if eqc d "]" then leave b3
        else b4 ← expect "," b3; b5 ← consumeWhitespace b4; skip_elements fuel' b5
  end.

(** Enough for every text. *)
Definition skip_fuel (b : iobuffer) : nat := 2 * (size b - position b) + 1.

Definition skipValue (b : iobuffer) : outcome iobuffer := skipValue_ (skip_fuel b) b.

(** ** Numbers *)

(** [std::to_chars] in scientific format and [fast_float::from_chars]: the value
    and the number of characters that were read. *)
Record float_text : Type := mkfloat_text {
  float_print : number → Z → bytes;
  float_parse : number → bytes → option (Z * nat)
}.

Definition is_float (t : number) : bool := match t with Float | Double => true | _ => false end.

(** The characters [std::from_chars] reads of an integer. *)
Definition int_chars (s : bytes) : nat :=
  match s with
  | c :: s' => if eqc c "-" then S (length (take_while is_digit s')) else length (take_while is_digit s)
  | [] => 0
  end.

Section json.
Context (junk : ascii) (w : walks) (F : float_text).

Definition put_char (c : ascii) (b : iobuffer) : outcome iobuffer := defined (put junk 1 (code c) b).
Definition put_text (s : bytes) (b : iobuffer) : outcome iobuffer := defined (put_string_raw junk s b).

Fixpoint put_chars (s : bytes) (b : iobuffer) : outcome iobuffer :=
  match s with [] => Done b | c :: s' => b1 ← put_char c b; put_chars s' b1 end.

Definition writeString (s : bytes) (b : iobuffer) : outcome iobuffer :=
  b1 ← put_char quote b;
  b2 ← put_chars (concat (escape <$> s)) b1;
  put_char quote b2.

(** [std::to_chars] into the memory behind the text. *)
Definition put_digits (s : bytes) (b : iobuffer) : outcome iobuffer :=
  let b0 := reserve_spare junk 30 b in
  if capacity b0 - size b0 <? length s then Thrown else defined (append s b0).

Definition put_number (t : number) (z : Z) : iobuffer → outcome iobuffer :=
  match t with
  | Bool => put_text (if (z =? 0)%Z then str "false" else str "true")
  | _ => put_digits (if is_float t then float_print F t z else to_dec z)
  end.

Definition put_prim (a : prim) : carrier a → iobuffer → outcome iobuffer :=
  match a with Number t => put_number t | String => writeString end.

Fixpoint put_elements (a : prim) (first : bool) (xs : list (carrier a)) (b : iobuffer) : outcome iobuffer :=
  match xs with
  | [] => Done b
  | x :: xs' =>
      b1 ← (if first then Done b else b1 ← put_char "," b; put_char " " b1);
      b2 ← put_prim a x b1;
      put_elements a false xs' b2
  end.

Definition put_array (a : prim) (xs : list (carrier a)) (b : iobuffer) : outcome iobuffer :=
  b1 ← put_char "[" b; b2 ← put_elements a true xs b1; put_char "]" b2.

Definition newline : ascii := chr 10.

(** [FieldHeaderWriter<Json>::put] *)
Definition put_field (name : bytes) (body : iobuffer → outcome iobuffer) (b : iobuffer) : outcome iobuffer :=
  b1 ← put_text [quote] b;
  b2 ← put_text name b1;
  b3 ← put_text ([quote] ++ str ": ") b2;
  b4 ← body b3;
  put_text (str "," ++ [newline]) b4.

(** The same with the start marker and the end marker. *)
Definition put_start (depth : Z) (name : bytes) (b : iobuffer) : outcome iobuffer :=
  b1 ← (if (0 <? length name) && (0 <? depth)%Z
        then b1 ← put_text [quote] b; b2 ← put_text name b1; put_text ([quote] ++ str ": ") b2
        else Done b);
  put_text (str "{" ++ [newline]) b1.

Definition drop_comma (b : iobuffer) : iobuffer := resize junk (size b - 2) b.

Definition put_end (depth : Z) (b : iobuffer) : outcome iobuffer :=
  c ← at_ (size b - 2) b;
  let b1 := if eqc c "," then drop_comma b else b in
  put_text (if (depth =? 0)%Z then [newline] ++ str "}" else [newline] ++ str "}," ++ [newline]) b1.

Definition put_multi (a : prim) (m : MultiArray.t (carrier a)) (b : iobuffer) : outcome iobuffer :=
  b1 ← put_text (str "{" ++ [newline]) b;
  b2 ← put_field (str "dims") (put_array (Number Int32) (wraps 32 <$> MultiArray.dimensions m)) b1;
  b3 ← put_field (str "values") (put_array a (MultiArray.elements m)) b2;
  put_text ([newline] ++ str "}" ++ [newline]) (drop_comma b3).

Fixpoint put_entries (v : prim) (es : list (bytes * carrier v)) (b : iobuffer) : outcome iobuffer :=
  match es with
  | [] => Done b
  | (k, x) :: es' => b1 ← put_field k (put_prim v x) b; put_entries v es' b1
  end.

Definition put_map (v : prim) (es : list (bytes * carrier v)) (b : iobuffer) : outcome iobuffer :=
  b1 ← put_text (str "{" ++ [newline]) b;
  b2 ← put_entries v es b1;
  put_text ([newline] ++ str "}" ++ [newline]) (drop_comma b2).

(** [IoSerialiser<Json, T>::serialise]; only maps with string keys have it. *)
Definition put_value (l : leaf) : leaf_carrier l → iobuffer → outcome iobuffer :=
  match l with
  | Prim a => put_prim a
  | Vec a => put_array a
  | Multi a _ => put_multi a
  | SetOf a => λ X, put_array a (walk_set w a X)
  | MapOf String v => λ m, put_map v (walk_map w String v m)
  | MapOf (Number _) _ => λ _ _, Undefined
  end.

Fixpoint each_member {A B} (f : A → B → outcome B) (xs : list A) (b : B) : outcome B :=
  match xs with
  | [] => Done b
  | x :: xs' => b' ← f x b; each_member f xs' b'
  end.

(** [detail::serialise] for one member at [depth]. *)
Fixpoint put_member (depth : Z) (m : member content) (c : content) (b : iobuffer) : outcome iobuffer :=
  if f_pointer m && f_null m then Done b
  else
    match c with
    | Leaf l x => put_field (sanitize (f_name m)) (put_value l x) b
    | Object _ ms =>
        b1 ← put_start depth (sanitize (f_name m)) b;
        b2 ← each_member (λ m', put_member (wrapu 8 (depth + 1)) m' (f_value m')) ms b1;
        put_end depth b2
    end.

(** [serialise] *)
Definition serialise (name : bytes) (ms : list (member content)) (b : iobuffer) : outcome iobuffer :=
  b1 ← put_start 0 (sanitize name) b;
  b2 ← each_member (λ m, put_member 1 m (f_value m)) ms b1;
  put_end 0 b2.

(** ** Reading values *)

(** The next thirty bytes, which may lie behind the text; reading them up to the
    end of the memory would go on behind it. *)
Definition number_text (b : iobuffer) : bytes := take 30 (drop (position b) (mem b)).

Definition take_number {A} (n : nat) (x : A) (b : iobuffer) : outcome (A * iobuffer) :=
  let s := number_text b in
  if (n =? length s) && (length s <? 30) then Undefined else Done (x, forward n b).

Definition get_number (t : number) (b : iobuffer) : outcome (Z * iobuffer) :=
  match t with
  | Bool =>
      is_false ← at_word (str "false") b;
      if is_false : bool then Done (0%Z, forward 5 b) else
      is_true ← at_word (str "true") b;
      if is_true : bool then Done (1%Z, forward 4 b) else Thrown
  | Float | Double =>
      match float_parse F t (number_text b) with
      | Some (z, n) => take_number n z b
      | None => Thrown
      end
  | _ =>
      match from_chars (width (bytes_of t)) (number_text b) with
      | Parsed z => take_number (int_chars (number_text b)) z b
      | _ => Thrown
      end
  end.

Definition get_prim (a : prim) : iobuffer → outcome (carrier a * iobuffer) :=
  match a with Number t => get_number t | String => readString end.

Fixpoint get_elements (a : prim) (fuel : nat) (result : list (carrier a)) (b : iobuffer)
    : outcome (list (carrier a) * iobuffer) :=
  match fuel with
  | O => OutOfFuel
  | S fuel' =>
      '(x, b1) ← get_prim a b;
      b2 ← consumeWhitespace b1;
      '(next, b3) ← getc b2;
      if eqc next "]" then Done (result ++ [x], b3)
      else if negb (eqc next ",") then Thrown
      else b4 ← consumeWhitespace b3; get_elements a fuel' (result ++ [x]) b4
  end.

Definition get_array (a : prim) (b : iobuffer) : outcome (list (carrier a) * iobuffer) :=
  b1 ← expect "[" b;
  b2 ← consumeWhitespace b1;
  '(c, b3) ← getc b2;
  if eqc c "]" then Done ([], b3) else get_elements a (S (capacity b)) [] (back b3).

(** ** Headers *)

Definition END_ID : Z := 1.
Definition START_ID : Z := 2.
Definition ANY_ID : Z := 0.

Definition no_end : Z := 2 ^ 64 - 1.

Definition with_header (start dataStart : nat) (name : bytes) (id : Z) (f : field) : field :=
  mkfield (Z.of_nat start) (Z.of_nat dataStart) no_end (subfields f) name (fieldMeta f) id (hierarchyDepth f).

Definition with_start (start : nat) (f : field) : field :=
  mkfield (Z.of_nat start) (dataStartPosition f) (dataEndPosition f) (subfields f) (fieldName f) (fieldMeta f)
    (intDataType f) (hierarchyDepth f).

Definition error_if (check : ProtocolCheck) (p : bool) (e : deser_error) (i : info) : outcome info :=
  if p then handleDeserialisationError check e i else Done i.

(** The comma between two fields, and where the header starts. *)
Definition next_field (b : iobuffer) : outcome (nat * iobuffer) :=
  b1 ← consumeWhitespace b;
  c ← at_ (position b1) b1;
  if eqc c "," then b2 ← consumeWhitespace (forward 1 b1); Done (position b2, b2)
  else Done (position b, b1).

(** [FieldHeaderReader<Json>::get] *)
Definition get_header (check : ProtocolCheck) (f : field) (i : info) (b : iobuffer)
    : outcome (field * info * iobuffer) :=
  '(start, b2) ← next_field b;
  d ← at_ (position b2) b2;
  if eqc d "{" then Done (with_header start (position b2 + 1) (fieldName f) START_ID f, i, b2)
  else if eqc d "}" then
    let b3 := forward 1 b2 in Done (with_header start (position b3) (fieldName f) END_ID f, i, b3)
  else if eqc d quote then
    '(name, b3) ← readKey b2;
    i1 ← error_if check (length name =? 0) EmptyName i;
    b4 ← consumeWhitespace b3;
    '(e, b5) ← getc b4;
    i2 ← error_if check (negb (eqc e ":")) NoColon i1;
    b6 ← consumeWhitespace b5;
    g ← at_ (position b6) b6;
    let b7 := if eqc g "{" then forward 1 b6 else b6 in
    Done (with_header start (position b7) name (if eqc g "{" then START_ID else ANY_ID) f, i2, b7)
  else
    i1 ← handleDeserialisationError check (UnexpectedChar d) i;
    Done (with_start start f, i1, b2).

(** ** Reading containers *)

(** [get<ProtocolCheck::ALWAYS>] with an [info] of its own *)
Definition get_strict (f : field) (b : iobuffer) : outcome (field * iobuffer) :=
  '(f1, _, b1) ← get_header ALWAYS f no_info b; Done (f1, b1).

Definition expect_field (name : bytes) (f : field) (b : iobuffer) : outcome (field * iobuffer) :=
  '(f1, b1) ← get_strict f b;
  if negb (intDataType f1 =? ANY_ID)%Z || negb (bool_decide (fieldName f1 = name)) then Thrown else Done (f1, b1).

Definition inner_field (f : field) : field :=
  mkfield 0 0 0 0 [] (mkmeta [] [] [] UNKNOWN) ANY_ID (wrapu 8 (hierarchyDepth f + 1)).

Definition get_multi (a : prim) (n_dims : nat) (f : field) (b : iobuffer)
    : outcome (MultiArray.t (carrier a) * iobuffer) :=
  '(f1, b1) ← expect_field (str "dims") (inner_field f) b;
  '(wire, b2) ← get_array (Number Int32) b1;
  if negb (length wire =? n_dims) then Thrown
  else
    let dims := wrapu 32 <$> wire in
    let '(n, ss) := MultiArray.row_major dims in
    '(f2, b3) ← expect_field (str "values") f1 b2;
    '(xs, b4) ← get_array a b3;
    '(f3, b5) ← get_strict f2 b4;
    if negb (intDataType f3 =? END_ID)%Z then Thrown
    else Done (MultiArray.mk xs n dims ss (replicate (length dims) 0%Z), b5).

Definition default_value (a : prim) : carrier a := match a with Number _ => 0%Z | String => [] end.

(** The loop over the entries of a map: [auto fieldValue = value[key]] is a copy
    of the value, and the copy is read. *)
Fixpoint get_entries (fuel : nat) (v : prim) (f : field) (m : gmap bytes (carrier v)) (b : iobuffer)
    : outcome (gmap bytes (carrier v) * iobuffer) :=
  match fuel with
  | O => OutOfFuel
  | S fuel' =>
      '(f1, b1) ← get_strict f b;
      if (intDataType f1 =? END_ID)%Z then Done (m, b1)
      else
        let m1 := match m !! fieldName f1 with
                  | Some _ => m
                  | None => <[fieldName f1 := default_value v]> m
                  end in
        '(_, b2) ← get_prim v b1;
        get_entries fuel' v f1 m1 b2
  end.

Definition get_map (v : prim) (f : field) (m : gmap bytes (carrier v)) (b : iobuffer)
    : outcome (gmap bytes (carrier v) * iobuffer) :=
  get_entries (S (capacity b)) v (inner_field f) m b.

(** [IoSerialiser<Json, T>::getDataTypeId] *)
Definition data_type_id (l : leaf) : Z :=
  match l with Prim _ | Vec _ | SetOf _ => ANY_ID | Multi _ _ | MapOf _ _ => START_ID end.

(** [IoSerialiser<Json, T>::deserialise] of the field [f] into [x]. *)
Definition get_value (f : field) (l : leaf) : leaf_carrier l → iobuffer → outcome (leaf_carrier l * iobuffer) :=
  match l with
  | Prim a => λ _, get_prim a
  | Vec a => λ _, get_array a
  | Multi a n => λ _, get_multi a n f
  | SetOf a => λ _ b, '(xs, b') ← get_array a b; Done (list_to_set xs, b')
  | MapOf String v => λ m, get_map v f m
  | MapOf (Number _) _ => λ _ _, Undefined
  end.

(** ** Reading objects *)

Section deserialise.
Context (check : ProtocolCheck).

(** A member that is not a class; nothing is skipped when it is not read. *)
Definition read_value (parent : bytes) (idx : nat) (m : member content) (l : leaf) (x : leaf_carrier l)
    (f : field) (i : info) (b : iobuffer) : outcome (member content * info * iobuffer) :=
  if negb (data_type_id l =? intDataType f)%Z && negb (data_type_id l =? ANY_ID)%Z then
    i' ← report check (MismatchedType (f_name m)) i; Done (m, i', b)
  else
    '(readable, i1) ← check_annotation check (f_annotation m) (f_name m) (fieldMeta f) i;
    if readable : bool then
      '(y, b1) ← get_value f l x b;
      i2 ← set_field check parent idx i1;
      Done (set_value (Leaf l y) m, i2, b1)
    else Done (m, i1, b).

(** The beginning of [detail::deserialise]. *)
Definition enter (loop : field → state → outcome state) (name : bytes) (parent : field) (s : state) : outcome state :=
  let '(ms, i, b) := s in
  let i0 := init_fields check (fieldName parent) (length ms) i in
  let pos := Z.of_nat (size b) in
  let f0 := mkfield pos pos pos (-1) [] no_meta ANY_ID (hierarchyDepth parent) in
  '(f, i1, b1) ← get_header check f0 i0 b;
  i2 ← report_if check ((hierarchyDepth f =? 0)%Z && negb (bool_decide (fieldName f = name))
                        && negb (bool_decide (fieldName f = []))) (UnexpectedClass (fieldName f)) i1;
  loop f (ms, i2, set_position (Z.to_nat (dataStartPosition f)) b1).

(** A field that no member has. *)
Definition skip_unknown (f : field) (b : iobuffer) : outcome iobuffer :=
  if (dataEndPosition f =? no_end)%Z then
    skipValue (if (intDataType f =? START_ID)%Z
               then set_position (Z.to_nat (wrapu 64 (dataStartPosition f - 1))) b else b)
  else Done (moveToFieldEndBufferPosition f b).

Definition read_field (rec : bytes → field → state → outcome state) (parent : bytes) (prev : Z) (idx : nat)
    (m : member content) (f : field) (i : info) (b : iobuffer) : outcome (member content * info * iobuffer * field) :=
  match f_value m with
  | Leaf l x => '(m', i', b') ← read_value parent idx m l x f i b; Done (m', i', b', f)
  | Object n ms' =>
      let f1 := with_depth (hierarchyDepth f + 1) (with_name (sanitize (f_name m)) (with_type START_ID f)) in
      '(ms'', i', b') ← rec n f1 (ms', i, set_position (Z.to_nat (headerStart f)) b);
      i2 ← set_field check parent idx i';
      Done (set_value (Object n ms'') m, i2, b',
            with_subfields (wraps 16 (prev - 1)) (with_depth (hierarchyDepth f1 - 1) f1))
  end.

Fixpoint loop (fuel : nat) (parent : bytes) (f : field) (s : state) : outcome state :=
  match fuel with
  | O => OutOfFuel
  | S fuel' =>
      let '(ms, i, b) := s in
      if position b <? size b then
        let previousSubFields := subfields f in
        '(f1, i0, b1) ← get_header check f i b;
        let b2 := set_position (Z.to_nat (dataStartPosition f1)) b1 in
        if (intDataType f1 =? END_ID)%Z then Done (ms, i0, b2)
        else
          match findMemberIndex (fieldName f1) ms with
          | None =>
              i1 ← report check (MissingField parent (fieldName f1)) i0;
              b3 ← skip_unknown f1 b2;
              loop fuel' parent f1 (ms, add_field check parent (fieldName f1) (intDataType f1) i1, b3)
          | Some idx =>
              m ← defined (ms !! idx);
              '(m', i1, b3, f2) ← read_field (λ n fp, enter (loop fuel' (fieldName fp)) n fp) parent
                                    previousSubFields idx m f1 i0 b2;
              '(i2, b4) ← finish_field check f2 i1 b3;
              loop fuel' parent f2 (<[idx := m']> ms, i2, b4)
          end
      else if (hierarchyDepth f =? 0)%Z && negb (position b =? size b) then
        i' ← report check NotAllRead i; Done (ms, i', b)
      else Done s
  end.

(** [deserialise] into the object of class [name] with members [ms]. *)
Definition deserialise (fuel : nat) (name : bytes) (ms : list (member content)) (i : info) (b : iobuffer)
    : outcome state :=
  if bool_decide (check = LENIENT) && negb (bool_decide (exceptions i = [])) then Done (ms, i, b)
  else
    let pos := Z.of_nat (size b) in
    let root := mkfield pos pos pos (-1) ROOT_NAME no_meta ANY_ID 0 in
    enter (loop fuel ROOT_NAME) name root (ms, i, b).
End deserialise.
End json.
