(* ===== verification/JsonText.v ===== *)
(** * JsonText: JSON texts and reading past them

    A string that is written is read back; every JSON text is read past, with the
    white space behind it at most; and reading past ends whatever is there. *)

From S2P Require Import Prelude Text IoBuffer Yas YasHeader Serialiser Json.
From S2P Require SerialiserSpec.
Local Open Scope nat_scope.

(** What is left to be read. *)
Definition ahead (b : iobuffer) (s : bytes) : Prop := reads b s [].

Definition white (s : bytes) : Prop := Forall (λ c, isWhitespace c = true) s.

(** The text without the white space in front of it. *)
Definition strip (s : bytes) : bytes := drop_while isWhitespace s.

(** [s] is left to be read, but for some of the white space in front of it. *)
Definition near (b : iobuffer) (s : bytes) : Prop := ∃ ws, white ws ∧ ahead b (ws ++ strip s).

(** ** Access *)

Lemma ahead_length b s : ahead b s → position b + length s = size b.
Proof.
  intros (Hw & Hp & Heq). rewrite app_nil_r in Heq. apply (f_equal length) in Heq.
  rewrite length_drop, length_content in Heq by done. lia.
Qed.

Lemma ahead_forward b s t : ahead b (s ++ t) → ahead (forward (length s) b) t.
Proof. intros H. unfold ahead in H. rewrite reads_app in H. apply reads_advance in H. by apply reads_next in H. Qed.

Lemma reading_forward n b : reading b (forward n b).
Proof. done. Qed.

Lemma reading_refl b : reading b b.
Proof. done. Qed.

Lemma forward_forward m n b : forward n (forward m b) = forward (m + n) b.
Proof. unfold forward, set_position. simpl. by rewrite Nat.add_assoc. Qed.

Lemma ahead_mem b s i c : ahead b s → s !! i = Some c → mem b !! (position b + i) = Some c.
Proof.
  intros (Hw & Hp & Heq) Hi. rewrite app_nil_r in Heq. rewrite <- Heq, lookup_drop in Hi.
  unfold IoBuffer.content in Hi. apply lookup_take_Some in Hi. apply Hi.
Qed.

Lemma at_ahead b s i c : ahead b s → s !! i = Some c → at_ (position b + i) b = Done c.
Proof.
  intros Ha Hi. unfold at_. pose proof (ahead_length b s Ha). apply lookup_lt_Some in Hi as Hl.
  destruct (Nat.leb_spec (size b) (position b + i)); [lia|]. by rewrite (ahead_mem b s i c).
Qed.

Lemma at_head b c s : ahead b (c :: s) → at_ (position b) b = Done c.
Proof. intros Ha. rewrite <- (Nat.add_0_r (position b)) at 1. by apply (at_ahead b (c :: s) 0). Qed.

Lemma getc_head b c s : ahead b (c :: s) → getc b = Done (c, forward 1 b) ∧ ahead (forward 1 b) s.
Proof.
  intros Ha. split; [|by apply (ahead_forward b [c] s)]. unfold getc.
  pose proof (ahead_mem b (c :: s) 0 c Ha eq_refl) as H. rewrite Nat.add_0_r in H. by rewrite H.
Qed.

Lemma expect_head b c s : ahead b (c :: s) → expect c b = Done (forward 1 b) ∧ ahead (forward 1 b) s.
Proof.
  intros Ha. destruct (getc_head b c s Ha) as [H1 H2]. split; [|done]. unfold expect. rewrite H1.
  cbn [mbind outcome_bind]. by rewrite eqc_refl.
Qed.

Lemma at_before b c s : ahead b (c :: s) → at_ (position (forward 1 b) - 1) (forward 1 b) = Done c.
Proof.
  intros Ha. change (at_ (position (forward 1 b) - 1) (forward 1 b)) with (at_ (position b + 1 - 1) b).
  rewrite Nat.add_sub. by apply (at_head b c s).
Qed.

Lemma back_forward b : back (forward 1 b) = b.
Proof. unfold back, forward, set_position. simpl. rewrite Nat.add_sub. by destruct b. Qed.

(** ** White space *)

Lemma strip_app ws s : white ws → strip (ws ++ s) = strip s.
Proof. induction 1 as [|c ws Hc _ IH]; [done|]. simpl. unfold strip in *. simpl. by rewrite Hc. Qed.

Lemma strip_head c s : isWhitespace c = false → strip (c :: s) = c :: s.
Proof. intros H. unfold strip. simpl. by rewrite H. Qed.

Lemma strip_white s : ∃ ws, white ws ∧ s = ws ++ strip s.
Proof.
  induction s as [|c s (ws & Hw & Hs)]; [exists []; split; [constructor|done]|]. unfold strip in *. simpl.
  destruct (isWhitespace c) eqn:Hc; [|exists []; split; [constructor|done]]. exists (c :: ws). split; [by constructor|]. simpl. by rewrite <- Hs.
Qed.

Lemma strip_stops s : match strip s with [] => True | c :: _ => isWhitespace c = false end.
Proof.
  induction s as [|c s IH]; [done|]. unfold strip in *. simpl. by destruct (isWhitespace c) eqn:Hc.
Qed.

Lemma ahead_near b s : ahead b s → near b s.
Proof. intros Ha. destruct (strip_white s) as (ws & Hw & Hs). exists ws. split; [done|]. by rewrite <- Hs. Qed.

Lemma near_white b ws s : white ws → near b (ws ++ s) ↔ near b s.
Proof. intros Hw. unfold near. by rewrite strip_app. Qed.

Lemma ws_loop_white ws t : ∀ n b,
  white ws → match t with [] => True | c :: _ => isWhitespace c = false end →
  n = length (ws ++ t) → ahead b (ws ++ t) → ws_loop n b = Done (forward (length ws) b).
Proof.
  induction ws as [|c ws IH]; intros n b Hw Ht Hn Ha.
  - assert (Hb : forward 0 b = b) by (unfold forward, set_position; rewrite Nat.add_0_r; by destruct b).
    simpl in *. rewrite Hb. destruct t as [|c t]; [by subst|]. subst n. cbn [ws_loop length].
    rewrite (at_head b c t Ha). cbn [mbind outcome_bind]. by rewrite Ht.
  - apply Forall_cons in Hw as [Hc Hw]. subst n. cbn [ws_loop length app].
    cbn [app] in Ha. rewrite (at_head b c _ Ha). cbn [mbind outcome_bind]. rewrite Hc.
    rewrite (IH _ (forward 1 b) Hw Ht); [by rewrite forward_forward|done|]. by apply (ahead_forward b [c]).
Qed.

(** White space is read to its end. *)
Lemma consumeWhitespace_near b s :
  near b s → ∃ b', consumeWhitespace b = Done b' ∧ ahead b' (strip s) ∧ reading b b'.
Proof.
  intros (ws & Hw & Ha). exists (forward (length ws) b). split; [|split; [by apply ahead_forward|done]].
  unfold consumeWhitespace. pose proof (ahead_length b _ Ha).
  apply (ws_loop_white ws (strip s)); [done|apply strip_stops|lia|done].
Qed.

Lemma consumeWhitespace_head b c s :
  isWhitespace c = false → ahead b (c :: s) → consumeWhitespace b = Done b.
Proof.
  intros Hc Ha. unfold consumeWhitespace. pose proof (ahead_length b _ Ha).
  rewrite (ws_loop_white [] (c :: s)); [|constructor|done|simpl in *; lia|done].
  unfold forward, set_position. simpl. rewrite Nat.add_0_r. by destruct b.
Qed.

(** ** Strings *)

(** The characters between the quotes of a string, and what they stand for;
    escaped unicode characters are all read as an underscore. *)
Inductive chars : bytes → bytes → Prop :=
  | chars_nil : chars [] []
  | chars_plain c t s : c ≠ quote → c ≠ backslash → chars t s → chars (c :: t) (c :: s)
  | chars_escape e x t s : unescape e = Some x → chars t s → chars (backslash :: e :: t) (x :: s)
  | chars_unicode h t s :
      length h = 4 → isHexNumber h = true → chars t s → chars (backslash :: "u"%char :: h ++ t) ("_"%char :: s).

Lemma eqc_ne c d : c ≠ d → eqc c d = false.
Proof. apply eqc_false. Qed.

Lemma unescape_u : unescape "u" = None.
Proof. reflexivity. Qed.

Lemma string_loop_reads t s : chars t s → ∀ fuel acc b rest,
  length t < fuel → ahead b (t ++ quote :: rest) →
  string_loop fuel acc b = Done (acc ++ s, forward (length t + 1) b).
Proof.
  induction 1 as [|c t s Hq Hb Ht IH|e x t s He Ht IH|h t s Hl Hh Ht IH]; intros fuel acc b rest Hf Ha;
    (destruct fuel as [|fuel]; [simpl in *; lia|]); cbn [string_loop].
  - destruct (getc_head b quote rest Ha) as [-> _]. cbn [mbind outcome_bind]. rewrite eqc_refl.
    by rewrite app_nil_r.
  - cbn [app] in Ha. destruct (getc_head b c _ Ha) as [-> Ha1]. cbn [mbind outcome_bind].
    rewrite (at_before b c _ Ha). cbn [mbind outcome_bind]. rewrite !eqc_ne by done.
    rewrite (IH fuel (acc ++ [c]) (forward 1 b) rest) by (simpl in Hf; (lia || done)).
    by rewrite forward_forward, <- app_assoc.
  - cbn [app] in Ha. destruct (getc_head b backslash _ Ha) as [-> Ha1]. cbn [mbind outcome_bind].
    rewrite (at_before b backslash _ Ha). cbn [mbind outcome_bind]. change (eqc backslash quote) with false.
    rewrite eqc_refl. cbn iota. destruct (getc_head _ e _ Ha1) as [-> Ha2]. cbn [mbind outcome_bind].
    assert (Hu : eqc e "u" = false) by (apply eqc_ne; intros ->; by rewrite unescape_u in He). rewrite Hu, He.
    rewrite (at_before _ e _ Ha1). cbn [mbind outcome_bind].
    rewrite (IH fuel (acc ++ [x]) _ rest) by (simpl in Hf; (lia || done)).
    by rewrite !forward_forward, <- app_assoc.
  - cbn [app] in Ha. destruct (getc_head b backslash _ Ha) as [-> Ha1]. cbn [mbind outcome_bind].
    rewrite (at_before b backslash _ Ha). cbn [mbind outcome_bind]. change (eqc backslash quote) with false.
    rewrite eqc_refl. cbn iota. destruct (getc_head _ "u"%char _ Ha1) as [-> Ha2]. cbn [mbind outcome_bind].
    change (eqc "u" "u") with true. cbn iota. rewrite <- app_assoc in Ha2. set (b2 := forward 1 (forward 1 b)) in *.
    pose proof (ahead_length b2 _ Ha2) as Hlen. rewrite length_app in Hlen. cbn [length] in Hlen.
    rewrite length_app in Hlen. cbn [length] in Hlen.
    destruct (Nat.leb_spec (size b2) (position b2 + 4)); [lia|].
    assert (Hmem : take 4 (drop (position b2) (mem b2)) = h).
    { pose proof Ha2 as Ha3. unfold ahead in Ha3. rewrite reads_app in Ha3. apply reads_load in Ha3.
      rewrite Hl in Ha3. unfold load in Ha3. destruct (_ <=? _); [by injection Ha3|done]. }
    rewrite Hmem, Hh. rewrite (IH fuel (acc ++ ["_"%char]) (forward 4 b2) rest).
    + unfold b2. rewrite !forward_forward, <- app_assoc. simpl. rewrite length_app, Hl. do 3 f_equal.
    + simpl in Hf. rewrite length_app in Hf. lia.
    + rewrite <- Hl. by apply ahead_forward.
Qed.

Lemma readString_reads t s b rest :
  chars t s → ahead b (quote :: t ++ quote :: rest) →
  readString b = Done (s, forward (length t + 2) b) ∧ ahead (forward (length t + 2) b) rest.
Proof.
  intros Ht Ha. pose proof (ahead_length b _ Ha) as Hl. cbn [length] in Hl. rewrite length_app in Hl.
  assert (Hend : ahead (forward (length t + 2) b) rest).
  { replace (length t + 2) with (length (quote :: t ++ [quote])) by (simpl; rewrite length_app; simpl; lia).
    apply ahead_forward. cbn [app]. by rewrite <- app_assoc. }
  split; [|done]. unfold readString. destruct (Nat.leb_spec (size b) (position b)); [lia|].
  destruct (expect_head b quote _ Ha) as [-> Ha1]. cbn [mbind outcome_bind].
  rewrite (string_loop_reads t s Ht _ [] _ rest); [|lia|done]. rewrite forward_forward. do 3 f_equal. lia.
Qed.

Lemma escape_chars s : chars (concat (escape <$> s)) s.
Proof.
  induction s as [|c s IH]; [constructor|]. rewrite fmap_cons. cbn [concat].
  assert (Hc : (∃ e, escape c = [backslash; e] ∧ unescape e = Some c) ∨ (escape c = [c] ∧ c ≠ quote ∧ c ≠ backslash)).
  { assert (H : forallb (λ c, match escape c with
                | [x] => eqc x c && negb (eqc c quote) && negb (eqc c backslash)
                | [x; e] => eqc x backslash && bool_decide (unescape e = Some c)
                | _ => false
                end) all_chars = true) by (vm_compute; reflexivity).
    pose proof (all_chars_spec _ H c) as Hc. simpl in Hc.
    destruct (escape c) as [|x [|e [|? ?]]]; try done.
    - right. apply andb_true_iff in Hc as [[H1 H2]%andb_true_iff H3].
      apply eqc_true in H1 as ->. apply negb_true_iff, eqc_false in H2, H3. done.
    - left. exists e. apply andb_true_iff in Hc as [H1 H2]. apply eqc_true in H1 as ->.
      by apply bool_decide_eq_true in H2. }
  destruct Hc as [(e & -> & He)|(-> & Hq & Hb)]; cbn [app]; by constructor.
Qed.

(** The characters of a string that is written. *)
Definition enc_text (s : bytes) : bytes := quote :: concat (escape <$> s) ++ [quote].

(** ** Keys *)

(** The names that can be keys: no quote and no backslash. *)
Definition plain_name (s : bytes) : Prop := Forall (λ c, c ≠ quote ∧ c ≠ backslash) s.

Lemma key_loop_reads s b t : plain_name s → ∀ n i,
  length s < n → ahead b t → t !! (i + length s) = Some quote → (∀ j, j < length s → t !! (i + j) = s !! j) →
  key_loop n (position b + i) b = Done (position b + (i + length s)).
Proof.
  intros Hs. induction Hs as [|c s [Hq Hb] Hs IH]; intros n i Hn Ha Hend Hin;
    (destruct n as [|n]; [simpl in Hn; lia|]); cbn [key_loop length] in *.
  - rewrite Nat.add_0_r in Hend. rewrite (at_ahead b t i quote Ha Hend). cbn [mbind outcome_bind].
    by rewrite eqc_refl, Nat.add_0_r.
  - assert (Hc : t !! i = Some c) by (rewrite <- (Nat.add_0_r i); rewrite Hin by lia; done).
    rewrite (at_ahead b t i c Ha Hc). cbn [mbind outcome_bind]. rewrite !eqc_ne by done.
    replace (position b + i + 1) with (position b + (i + 1)) by lia. rewrite IH; [f_equal; lia|lia|done| |].
    + by replace (i + 1 + length s) with (i + S (length s)) by lia.
    + intros j Hj. replace (i + 1 + j) with (i + S j) by lia. rewrite Hin by lia. done.
Qed.

Lemma readKey_reads s b rest :
  plain_name s → ahead b (quote :: s ++ quote :: rest) →
  readKey b = Done (s, forward (length s + 2) b) ∧ ahead (forward (length s + 2) b) rest.
Proof.
  intros Hs Ha. pose proof (ahead_length b _ Ha) as Hl. cbn [length] in Hl. rewrite length_app in Hl.
  assert (Hend : ahead (forward (length s + 2) b) rest).
  { replace (length s + 2) with (length (quote :: s ++ [quote])) by (simpl; rewrite length_app; simpl; lia).
    apply ahead_forward. cbn [app]. by rewrite <- app_assoc. }
  split; [|done]. unfold readKey. destruct (expect_head b quote _ Ha) as [-> Ha1]. cbn [mbind outcome_bind].
  set (b1 := forward 1 b) in *. cbn [length] in Hl.
  pose proof (key_loop_reads s b1 _ Hs (size b) 0 ltac:(lia) Ha1) as Hk. rewrite Nat.add_0_r in Hk. rewrite Hk.
  - cbn [mbind outcome_bind]. rewrite Nat.add_0_l, Nat.add_sub_swap, Nat.sub_diag by lia. cbn [Nat.add].
    assert (Hmem : take (length s) (drop (position b1) (mem b1)) = s).
    { pose proof Ha1 as Ha3. unfold ahead in Ha3. rewrite reads_app in Ha3. apply reads_load in Ha3.
      unfold load in Ha3. destruct (_ <=? _); [by injection Ha3|done]. }
    rewrite Hmem. unfold forward, set_position, b1. simpl. do 3 f_equal. lia.
  - rewrite Nat.add_0_l. by apply list_lookup_middle.
  - intros j Hj. rewrite Nat.add_0_l. by apply lookup_app_l.
Qed.

(** ** Words and numbers *)

Lemma at_word_ahead w b s :
  ahead b s → at_word w b = Done (bool_decide (length w < length s ∧ take (length w) s = w)).
Proof.
  intros Ha. pose proof (ahead_length b s Ha) as Hl. unfold at_word.
  destruct (Nat.ltb_spec (size b) (position b)); [lia|]. cbn [orb].
  replace (size b - position b) with (length s) by lia.
  destruct (Nat.ltb_spec (length w) (length s)) as [Hlt|Hge].
  - unfold asString. destruct (Nat.ltb_spec (size b) (position b)); [lia|].
    destruct (Z.leb_spec 0 (Z.of_nat (length w))); [|lia]. cbn [andb].
    destruct (Z.ltb_spec (Z.of_nat (size b)) (Z.of_nat (position b) + Z.of_nat (length w))); [lia|].
    destruct (Z.ltb_spec (Z.of_nat (length w)) 0); [lia|].
    rewrite Nat2Z.id, Nat.min_r by lia.
    assert (Hm : take (length w) (drop (position b) (mem b)) = take (length w) s).
    { pose proof Ha as Ha3. rewrite <- (take_drop (length w) s) in Ha3. unfold ahead in Ha3. rewrite reads_app in Ha3.
      apply reads_load in Ha3. rewrite length_take, Nat.min_l in Ha3 by lia. unfold load in Ha3.
      destruct (_ <=? _); [by injection Ha3|done]. }
    rewrite Hm. f_equal. apply bool_decide_ext. split; [by split|by intros []].
  - rewrite bool_decide_eq_false_2; [done|]. intros [? _]. lia.
Qed.

Lemma at_word_true w b c s : ahead b (w ++ c :: s) → at_word w b = Done true.
Proof.
  intros Ha. rewrite (at_word_ahead w b _ Ha), bool_decide_eq_true_2; [done|].
  rewrite take_app_length, length_app. simpl. split; [lia|done].
Qed.

Lemma at_word_false w b c s : head w ≠ Some c → ahead b (c :: s) → at_word w b = Done false ∨ w = [].
Proof.
  intros Hw Ha. destruct w as [|d w]; [by right|]. left. rewrite (at_word_ahead _ b _ Ha), bool_decide_eq_false_2; [done|].
  intros [_ H]. simpl in *. injection H as ->. done.
Qed.

(** What follows a number: something that is not part of it. *)
Definition stops (t : bytes) : Prop := ∃ c t', t = c :: t' ∧ isNumberChar c = false.

Lemma number_loop_reads s t : Forall (λ c, isNumberChar c = true) s → stops t → ∀ fuel b,
  length s < fuel → ahead b (s ++ t) → number_loop fuel b = Done (forward (length s) b).
Proof.
  intros Hs (c & t' & -> & Hc). induction Hs as [|d s Hd Hs IH]; intros fuel b Hf Ha;
    (destruct fuel as [|fuel]; [simpl in Hf; lia|]); cbn [number_loop app] in *.
  - destruct (getc_head b c t' Ha) as [-> _]. cbn [mbind outcome_bind]. rewrite Hc, back_forward.
    unfold forward, set_position. cbn [length]. rewrite Nat.add_0_r. by destruct b.
  - destruct (getc_head b d _ Ha) as [-> Ha1]. cbn [mbind outcome_bind]. rewrite Hd.
    rewrite IH; [by rewrite forward_forward|simpl in Hf; lia|done].
Qed.

Definition words : list bytes := [str "false"; str "true"; str "null"].

Lemma skip_word w b t : w ∈ words → stops t → ahead b (w ++ t) → skip_scalar b = Done (forward (length w) b).
Proof.
  intros Hw (c & t' & -> & _) Ha. unfold skip_scalar.
  assert (Hno : ∀ v, v ∈ words → v ≠ w → at_word v b = Done false).
  { intros v Hv Hne. rewrite (at_word_ahead v b _ Ha), bool_decide_eq_false_2; [done|]. intros [_ H].
    apply Hne. revert H. clear -Hv Hw. unfold words in *.
    repeat (apply elem_of_cons in Hw as [->|Hw]; [|]); try by apply elem_of_nil in Hw.
    all: repeat (apply elem_of_cons in Hv as [->|Hv]; [by intros H; vm_compute in H |]); by apply elem_of_nil in Hv. }
  unfold words in Hw. repeat (apply elem_of_cons in Hw as [->|Hw]); [| | |by apply elem_of_nil in Hw].
  - by rewrite (at_word_true _ b c t' Ha).
  - rewrite (Hno (str "false")) by (done || (unfold words; set_solver)). cbn [mbind outcome_bind].
    by rewrite (at_word_true _ b c t' Ha).
  - rewrite (Hno (str "false")) by (done || (unfold words; set_solver)). cbn [mbind outcome_bind].
    rewrite (Hno (str "true")) by (done || (unfold words; set_solver)). cbn [mbind outcome_bind].
    by rewrite (at_word_true _ b c t' Ha).
Qed.

Lemma skip_number s b t :
  s ≠ [] → Forall (λ c, isNumberChar c = true) s → stops t → ahead b (s ++ t) →
  skip_scalar b = Done (forward (length s) b).
Proof.
  intros Hne Hs Ht Ha. destruct s as [|c s]; [done|]. pose proof (proj1 (proj1 (Forall_cons _ _ _) Hs)) as Hc.
  unfold skip_scalar. cbn [app] in Ha.
  assert (Hno : ∀ d w, isNumberChar d = false → at_word (d :: w) b = Done false).
  { intros d w Hd. destruct (at_word_false (d :: w) b c _ ltac:(simpl; congruence) Ha); done. }
  unfold str. cbn [String.list_ascii_of_string]. rewrite !Hno by done. cbn [mbind outcome_bind].
  apply number_loop_reads with (t := t); try done. pose proof (ahead_length b _ Ha) as Hl.
  destruct Ha as (Hw & _). unfold wf in Hw. cbn [length] in *. rewrite length_app in Hl. lia.
Qed.

(** ** The texts of JSON

    Those of RFC 8259, but that the numbers are any characters of numbers, that
    strings may hold control characters, and that a comma may come before the end
    of an array or an object.  The elements and the fields are up to the closing
    bracket. *)

Inductive json_value : bytes → Prop :=
  | json_word w : w ∈ words → json_value w
  | json_number s : s ≠ [] → Forall (λ c, isNumberChar c = true) s → json_value s
  | json_string t s : chars t s → json_value (quote :: t ++ [quote])
  | json_array ws t : white ws → json_elements t → json_value ("["%char :: ws ++ t)
  | json_object ws t : white ws → json_fields t → json_value ("{"%char :: ws ++ t)
with json_elements : bytes → Prop :=
  | elements_nil : json_elements ["]"%char]
  | elements_last v ws : json_value v → white ws → json_elements (v ++ ws ++ ["]"%char])
  | elements_cons v ws1 ws2 t :
      json_value v → white ws1 → white ws2 → json_elements t → json_elements (v ++ ws1 ++ ","%char :: ws2 ++ t)
with json_fields : bytes → Prop :=
  | fields_nil : json_fields ["}"%char]
  | fields_last k s ws1 ws2 v ws3 :
      chars k s → white ws1 → white ws2 → json_value v → white ws3 →
      json_fields (quote :: k ++ quote :: ws1 ++ ":"%char :: ws2 ++ v ++ ws3 ++ ["}"%char])
  | fields_cons k s ws1 ws2 v ws3 ws4 t :
      chars k s → white ws1 → white ws2 → json_value v → white ws3 → white ws4 → json_fields t →
      json_fields (quote :: k ++ quote :: ws1 ++ ":"%char :: ws2 ++ v ++ ws3 ++ ","%char :: ws4 ++ t).

Scheme json_value_mut := Minimality for json_value Sort Prop
  with json_elements_mut := Minimality for json_elements Sort Prop
  with json_fields_mut := Minimality for json_fields Sort Prop.
Combined Scheme json_mutind from json_value_mut, json_elements_mut, json_fields_mut.

Lemma number_not_white c : isNumberChar c = true → isWhitespace c = false.
Proof.
  assert (H : forallb (λ c, implb (isNumberChar c) (negb (isWhitespace c))) all_chars = true) by (vm_compute; reflexivity).
  pose proof (all_chars_spec _ H c) as Hc. simpl in Hc. intros E. rewrite E in Hc. by apply negb_true_iff in Hc.
Qed.

Lemma white_not_number c : isWhitespace c = true → isNumberChar c = false.
Proof. intros Hc. apply not_true_iff_false. intros H. by rewrite (number_not_white c H) in Hc. Qed.

(** Values, elements and fields begin with no white space. *)
Definition starts (s : bytes) : Prop := ∃ c s', s = c :: s' ∧ isWhitespace c = false.

Lemma value_starts v : json_value v → starts v.
Proof.
  intros H. inversion H as [w Hw|s Hne Hs|t s Ht|ws t Hws Ht|ws t Hws Ht]; subst; try (eexists _, _; split; [done|reflexivity]).
  - unfold words in Hw. repeat (apply elem_of_cons in Hw as [->|Hw]; [by eexists _, _|]). by apply elem_of_nil in Hw.
  - destruct v as [|c s]; [done|]. exists c, s. split; [done|]. apply number_not_white. by apply Forall_cons in Hs as [].
Qed.

Lemma strip_starts s t : starts s → strip (s ++ t) = s ++ t.
Proof. intros (c & s' & -> & Hc). cbn [app]. by apply strip_head. Qed.

Lemma elements_start t : json_elements t → starts t.
Proof.
  inversion 1 as [|v ws Hv|v ws1 ws2 u Hv]; subst; [by eexists _, _|..];
    destruct (value_starts v Hv) as (c & s & -> & Hc); by eexists _, _.
Qed.

Lemma fields_start t : json_fields t → starts t.
Proof. inversion 1; subst; by eexists _, _. Qed.

Lemma stops_white ws c t : white ws → isNumberChar c = false → stops (ws ++ c :: t).
Proof.
  intros Hw Hc. destruct Hw as [|d ws Hd Hw]; [by exists c, t|]. exists d, (ws ++ c :: t).
  split; [done|by apply white_not_number].
Qed.

(** The end of an array or an object. *)
Lemma leave_reads b c t : ahead b (c :: t) → ∃ b', leave b = Done b' ∧ near b' t ∧ reading b b'.
Proof.
  intros Ha. destruct (consumeWhitespace_near (forward 1 b) t) as (b' & H1 & H2 & E).
  { apply ahead_near. by apply (ahead_forward b [c]). }
  exists b'. split; [exact H1|]. split; [exists []; split; [constructor|done]|exact E].
Qed.

Lemma near_ahead b ws s :
  white ws → starts s → near b (ws ++ s) → ∃ b', consumeWhitespace b = Done b' ∧ ahead b' s ∧ reading b b'.
Proof.
  intros Hw Hs Hn. rewrite near_white in Hn by done. destruct (consumeWhitespace_near b s Hn) as (b' & H1 & H2 & E).
  exists b'. destruct Hs as (c & s' & -> & Hc). by rewrite strip_head in H2.
Qed.

Lemma starts_head c s : isWhitespace c = false → starts (c :: s).
Proof. intros H. by exists c, s. Qed.

Lemma skip_key_reads k s ws1 ws2 b t :
  chars k s → white ws1 → white ws2 → starts t →
  ahead b (quote :: k ++ quote :: ws1 ++ ":"%char :: ws2 ++ t) →
  ∃ b', skip_key b = Done b' ∧ ahead b' t ∧ reading b b'.
Proof.
  intros Hk H1 H2 Ht Ha. unfold skip_key.
  rewrite (consumeWhitespace_head b quote _ eq_refl Ha). cbn [mbind outcome_bind].
  destruct (readString_reads k s b _ Hk Ha) as [-> Ha1]. cbn [mbind outcome_bind].
  destruct (near_ahead _ ws1 (":"%char :: ws2 ++ t) H1 ltac:(by apply starts_head) (ahead_near _ _ Ha1))
    as (b2 & -> & A2 & R2). cbn [mbind outcome_bind].
  destruct (expect_head b2 _ _ A2) as [-> A3]. cbn [mbind outcome_bind].
  destruct (near_ahead _ ws2 t H2 Ht (ahead_near _ _ A3)) as (b4 & E4 & A4 & R4).
  exists b4. split; [exact E4|]. split; [exact A4|]. by apply (reading_trans _ b2).
Qed.

Lemma starts_app s t : starts s → starts (s ++ t).
Proof. intros (c & s' & -> & Hc). by exists c, (s' ++ t). Qed.

(** A word or a number. *)
Lemma skipValue_scalar v fuel b t :
  starts v → v ≠ [] → (∀ c, head v = Some c → c ≠ "{"%char ∧ c ≠ "["%char ∧ c ≠ quote) → near b (v ++ t) → 1 ≤ fuel →
  (∀ b1, ahead b1 (v ++ t) → skip_scalar b1 = Done (forward (length v) b1)) →
  ∃ b', skipValue_ fuel b = Done b' ∧ near b' t ∧ reading b b'.
Proof.
  intros Hs Hne Hc Hn Hf Hskip. destruct fuel as [|fuel]; [lia|].
  destruct (near_ahead b [] (v ++ t) ltac:(constructor) (starts_app _ _ Hs) Hn) as (b1 & E1 & A1 & R1).
  cbn [skipValue_]. rewrite E1. cbn [mbind outcome_bind]. destruct v as [|c v]; [done|].
  destruct (Hc c eq_refl) as (H1 & H2 & H3). rewrite (at_head b1 c _ A1). cbn [mbind outcome_bind].
  rewrite !eqc_ne, (Hskip b1 A1) by done. eexists. split; [done|]. split; [|exact R1].
  apply ahead_near. by apply ahead_forward.
Qed.

Definition skip_value_spec (v : bytes) : Prop := ∀ fuel b t,
  stops t → near b (v ++ t) → 2 * length v ≤ fuel → ∃ b', skipValue_ fuel b = Done b' ∧ near b' t ∧ reading b b'.
Definition skip_rest_spec (skip : nat → iobuffer → outcome iobuffer) (u : bytes) : Prop := ∀ fuel b t,
  ahead b (u ++ t) → 2 * length u + 1 ≤ fuel → ∃ b', skip fuel b = Done b' ∧ near b' t ∧ reading b b'.

Lemma skipValue_open c ws u fuel b t (skip : nat → iobuffer → outcome iobuffer) :
  isWhitespace c = false → white ws → starts u → skip_rest_spec skip u →
  (∀ fuel' b1, ahead b1 (c :: ws ++ u ++ t) → consumeWhitespace b = Done b1 →
     skipValue_ (S fuel') b = (b2 ← expect c b1; b3 ← consumeWhitespace b2; skip fuel' b3)) →
  near b (c :: ws ++ u ++ t) → 2 * S (length ws + length u) ≤ fuel →
  ∃ b', skipValue_ fuel b = Done b' ∧ near b' t ∧ reading b b'.
Proof.
  intros Hc Hws Hu Hskip Heq Hn Hf. destruct fuel as [|fuel]; [lia|].
  destruct (near_ahead b [] (c :: ws ++ u ++ t) ltac:(constructor) ltac:(by apply starts_head) Hn) as (b1 & E1 & A1 & R1).
  rewrite (Heq fuel b1 A1 E1). destruct (expect_head b1 c _ A1) as [-> A2]. cbn [mbind outcome_bind].
  destruct (near_ahead _ ws (u ++ t) Hws (starts_app _ _ Hu) (ahead_near _ _ A2)) as (b3 & -> & A3 & R3).
  cbn [mbind outcome_bind]. destruct (Hskip fuel b3 t A3 ltac:(lia)) as (b4 & E4 & N4 & R4).
  exists b4. split; [exact E4|]. split; [exact N4|]. apply (reading_trans _ b1); [done|]. by apply (reading_trans _ b3).
Qed.

Lemma array_skips ws u : white ws → json_elements u → skip_rest_spec skip_elements u → skip_value_spec ("["%char :: ws ++ u).
Proof.
  intros Hws Hu Hs fuel b t Ht Hn Hf. cbn [app] in Hn. rewrite <- app_assoc in Hn.
  apply (skipValue_open "[" ws u fuel b t skip_elements); try done; [by apply elements_start| |].
  - intros fuel' b1 A1 E1. cbn [skipValue_]. rewrite E1. cbn [mbind outcome_bind].
    by rewrite (at_head b1 _ _ A1).
  - cbn [length] in Hf. rewrite length_app in Hf. lia.
Qed.

Lemma object_skips ws u : white ws → json_fields u → skip_rest_spec skip_fields u → skip_value_spec ("{"%char :: ws ++ u).
Proof.
  intros Hws Hu Hs fuel b t Ht Hn Hf. cbn [app] in Hn. rewrite <- app_assoc in Hn.
  apply (skipValue_open "{" ws u fuel b t skip_fields); try done; [by apply fields_start| |].
  - intros fuel' b1 A1 E1. cbn [skipValue_]. rewrite E1. cbn [mbind outcome_bind].
    by rewrite (at_head b1 _ _ A1).
  - cbn [length] in Hf. rewrite length_app in Hf. lia.
Qed.

Lemma string_skips k s : chars k s → skip_value_spec (quote :: k ++ [quote]).
Proof.
  intros Hk fuel b t Ht Hn Hf. cbn [app] in Hn. rewrite <- app_assoc in Hn.
  destruct fuel as [|fuel]; [simpl in Hf; lia|].
  destruct (near_ahead b [] (quote :: k ++ quote :: t) ltac:(constructor) ltac:(by apply starts_head) Hn)
    as (b1 & E1 & A1 & R1).
  cbn [skipValue_]. rewrite E1. cbn [mbind outcome_bind]. rewrite (at_head b1 _ _ A1). cbn [mbind outcome_bind].
  change (eqc quote "{") with false. change (eqc quote "[") with false. rewrite eqc_refl. cbn iota.
  destruct (readString_reads k s b1 t Hk A1) as [-> A2]. eexists. split; [done|]. split; [by apply ahead_near|exact R1].
Qed.

Lemma value_head v : json_value v → ∃ c s, v = c :: s ∧ isWhitespace c = false ∧ c ≠ "]"%char ∧ c ≠ "}"%char.
Proof.
  intros H. inversion H as [w Hw|s Hne Hs|t s Ht|ws t Hws Ht|ws t Hws Ht]; subst; try (by eexists _, _).
  - unfold words in Hw. repeat (apply elem_of_cons in Hw as [->|Hw]; [by eexists _, _|]). by apply elem_of_nil in Hw.
  - destruct v as [|c s]; [done|]. exists c, s. apply Forall_cons in Hs as [Hc _].
    split_and!; [done|by apply number_not_white|by intros ->..].
Qed.

(** After an element, or the value of a field. *)
Lemma after_value b v ws c t fuel :
  skip_value_spec v → white ws → isWhitespace c = false → isNumberChar c = false → near b (v ++ ws ++ c :: t) →
  2 * length v ≤ fuel →
  ∃ b2 b3, skipValue_ fuel b = Done b2 ∧ consumeWhitespace b2 = Done b3 ∧ ahead b3 (c :: t) ∧ reading b b3.
Proof.
  intros Hv Hws Hc Hn Ha Hf. destruct (Hv fuel b (ws ++ c :: t) (stops_white ws c t Hws Hn) Ha Hf) as (b2 & E2 & N2 & R2).
  destruct (near_ahead b2 ws (c :: t) Hws (starts_head _ _ Hc) N2) as (b3 & E3 & A3 & R3).
  exists b2, b3. split_and!; [done..|]. by apply (reading_trans _ b2).
Qed.

Lemma element_last_skips v ws :
  json_value v → skip_value_spec v → white ws → skip_rest_spec skip_elements (v ++ ws ++ ["]"%char]).
Proof.
  intros Hv Hs Hws fuel b t Ha Hf. destruct fuel as [|fuel]; [lia|]. rewrite <- !app_assoc in Ha. cbn [app] in Ha.
  destruct (value_head v Hv) as (c & s & Hvc & Hc & Hc1 & _).
  destruct (after_value b v ws "]" t fuel Hs Hws eq_refl eq_refl (ahead_near _ _ Ha)) as (b2 & b3 & E2 & E3 & A3 & R3).
  { rewrite !length_app in Hf. lia. }
  cbn [skip_elements]. rewrite Hvc in Ha. rewrite (at_head b c _ Ha). cbn [mbind outcome_bind].
  rewrite (eqc_ne c "]") by done. rewrite E2. cbn [mbind outcome_bind]. rewrite E3. cbn [mbind outcome_bind].
  rewrite (at_head b3 _ _ A3). cbn [mbind outcome_bind]. change (eqc "]" "]") with true. cbn iota.
  destruct (leave_reads b3 _ t A3) as (b4 & E4 & N4 & R4). exists b4. split_and!; [done..|]. by apply (reading_trans _ b3).
Qed.

Lemma element_cons_skips v ws1 ws2 u :
  json_value v → skip_value_spec v → white ws1 → white ws2 → json_elements u → skip_rest_spec skip_elements u →
  skip_rest_spec skip_elements (v ++ ws1 ++ ","%char :: ws2 ++ u).
Proof.
  intros Hv Hs H1 H2 Hu Hsu fuel b t Ha Hf. destruct fuel as [|fuel]; [lia|].
  rewrite <- !app_assoc in Ha. cbn [app] in Ha. rewrite <- !app_assoc in Ha.
  rewrite !length_app in Hf. cbn [length] in Hf. rewrite length_app in Hf.
  destruct (value_head v Hv) as (c & s & Hvc & Hc & Hc1 & _).
  destruct (after_value b v ws1 "," (ws2 ++ u ++ t) fuel Hs H1 eq_refl eq_refl (ahead_near _ _ Ha))
    as (b2 & b3 & E2 & E3 & A3 & R3); [lia|].
  cbn [skip_elements]. rewrite Hvc in Ha. rewrite (at_head b c _ Ha). cbn [mbind outcome_bind].
  rewrite (eqc_ne c "]") by done. rewrite E2. cbn [mbind outcome_bind]. rewrite E3. cbn [mbind outcome_bind].
  rewrite (at_head b3 _ _ A3). cbn [mbind outcome_bind]. change (eqc "," "]") with false. cbn iota.
  destruct (expect_head b3 _ _ A3) as [-> A4]. cbn [mbind outcome_bind].
  destruct (near_ahead _ ws2 (u ++ t) H2 (starts_app _ _ (elements_start u Hu)) (ahead_near _ _ A4))
    as (b5 & -> & A5 & R5). cbn [mbind outcome_bind].
  destruct (Hsu fuel b5 t A5 ltac:(lia)) as (b6 & E6 & N6 & R6). exists b6. split_and!; [done..|].
  apply (reading_trans _ b3); [done|]. by apply (reading_trans _ b5).
Qed.

(** A field, up to what follows its value. *)
Lemma field_turn k s ws1 ws2 v ws3 c t fuel b :
  chars k s → white ws1 → white ws2 → json_value v → skip_value_spec v → white ws3 →
  isWhitespace c = false → isNumberChar c = false →
  ahead b (quote :: k ++ quote :: ws1 ++ ":"%char :: ws2 ++ v ++ ws3 ++ c :: t) → 2 * length v ≤ fuel →
  ∃ b3, skip_fields (S fuel) b
          = (if eqc c "}" then leave b3
             else b4 ← expect "," b3; b5 ← consumeWhitespace b4; skip_fields fuel b5)
        ∧ ahead b3 (c :: t) ∧ reading b b3.
Proof.
  intros Hk H1 H2 Hv Hs H3 Hc Hn Ha Hf.
  destruct (skip_key_reads k s ws1 ws2 b _ Hk H1 H2 (starts_app _ _ (value_starts v Hv)) Ha) as (b1 & E1 & A1 & R1).
  destruct (after_value b1 v ws3 c t fuel Hs H3 Hc Hn (ahead_near _ _ A1) Hf) as (b2 & b3 & E2 & E3 & A3 & R3).
  exists b3. split; [|split; [done|by apply (reading_trans _ b1)]].
  cbn [skip_fields]. rewrite (at_head b _ _ Ha). cbn [mbind outcome_bind]. change (eqc quote "}") with false. cbn iota.
  rewrite E1. cbn [mbind outcome_bind]. rewrite E2. cbn [mbind outcome_bind]. rewrite E3. cbn [mbind outcome_bind].
  by rewrite (at_head b3 _ _ A3).
Qed.

Lemma field_last_skips k s ws1 ws2 v ws3 :
  chars k s → white ws1 → white ws2 → json_value v → skip_value_spec v → white ws3 →
  skip_rest_spec skip_fields (quote :: k ++ quote :: ws1 ++ ":"%char :: ws2 ++ v ++ ws3 ++ ["}"%char]).
Proof.
  intros Hk H1 H2 Hv Hs H3 fuel b t Ha Hf. destruct fuel as [|fuel]; [lia|].
  repeat (first [rewrite <- app_assoc in Ha | progress cbn [app] in Ha]).
  repeat (first [rewrite length_app in Hf | progress cbn [length] in Hf]).
  destruct (field_turn k s ws1 ws2 v ws3 "}" t fuel b Hk H1 H2 Hv Hs H3 eq_refl eq_refl Ha ltac:(lia))
    as (b3 & -> & A3 & R3). change (eqc "}" "}") with true. cbn iota.
  destruct (leave_reads b3 _ t A3) as (b4 & E4 & N4 & R4). exists b4. split_and!; [done..|]. by apply (reading_trans _ b3).
Qed.

Lemma field_cons_skips k s ws1 ws2 v ws3 ws4 u :
  chars k s → white ws1 → white ws2 → json_value v → skip_value_spec v → white ws3 → white ws4 →
  json_fields u → skip_rest_spec skip_fields u →
  skip_rest_spec skip_fields (quote :: k ++ quote :: ws1 ++ ":"%char :: ws2 ++ v ++ ws3 ++ ","%char :: ws4 ++ u).
Proof.
  intros Hk H1 H2 Hv Hs H3 H4 Hu Hsu fuel b t Ha Hf. destruct fuel as [|fuel]; [lia|].
  repeat (first [rewrite <- app_assoc in Ha | progress cbn [app] in Ha]).
  repeat (first [rewrite length_app in Hf | progress cbn [length] in Hf]).
  destruct (field_turn k s ws1 ws2 v ws3 "," (ws4 ++ u ++ t) fuel b Hk H1 H2 Hv Hs H3 eq_refl eq_refl Ha ltac:(lia))
    as (b3 & -> & A3 & R3). change (eqc "," "}") with false. cbn iota.
  destruct (expect_head b3 _ _ A3) as [-> A4]. cbn [mbind outcome_bind].
  destruct (near_ahead _ ws4 (u ++ t) H4 (starts_app _ _ (fields_start u Hu)) (ahead_near _ _ A4))
    as (b5 & -> & A5 & R5). cbn [mbind outcome_bind].
  destruct (Hsu fuel b5 t A5 ltac:(lia)) as (b6 & E6 & N6 & R6). exists b6. split_and!; [done..|].
  apply (reading_trans _ b3); [done|]. by apply (reading_trans _ b5).
Qed.

Lemma word_head w c : w ∈ words → head w = Some c → c ≠ "{"%char ∧ c ≠ "["%char ∧ c ≠ quote.
Proof.
  intros Hw Hc. unfold words in Hw.
  repeat (apply elem_of_cons in Hw as [->|Hw]; [by injection Hc as <-|]). by apply elem_of_nil in Hw.
Qed.

Lemma skips_all :
  (∀ v, json_value v → skip_value_spec v)
  ∧ (∀ u, json_elements u → skip_rest_spec skip_elements u)
  ∧ (∀ u, json_fields u → skip_rest_spec skip_fields u).
Proof.
  apply json_mutind.
  - intros w Hw fuel b t Ht Hn Hf. pose proof (value_starts w (json_word w Hw)) as Hs.
    apply (skipValue_scalar w); [done| |by intros c; apply word_head|done| |].
    + by destruct Hs as (c & s & -> & _).
    + destruct Hs as (c & s & -> & _). simpl in Hf. lia.
    + intros b1 A1. by apply (skip_word w b1 t).
  - intros s Hne Hs fuel b t Ht Hn Hf. pose proof (value_starts s (json_number s Hne Hs)) as Hst.
    apply (skipValue_scalar s); [done..| |done| |].
    + intros c Hc. destruct s as [|d s]; [done|]. injection Hc as ->. apply Forall_cons in Hs as [Hd _].
      split_and!; by intros ->.
    + destruct s; [done|simpl in Hf; lia].
    + intros b1 A1. by apply (skip_number s b1 t).
  - intros t s Ht. by apply (string_skips t s).
  - intros ws t Hws Ht IH. by apply array_skips.
  - intros ws t Hws Ht IH. by apply object_skips.
  - intros fuel b t Ha Hf. destruct fuel as [|fuel]; [simpl in Hf; lia|]. cbn [app] in Ha. cbn [skip_elements].
    rewrite (at_head b _ _ Ha). cbn [mbind outcome_bind]. change (eqc "]" "]") with true. cbn iota. by apply (leave_reads b "]").
  - intros v ws Hv IH Hws. by apply element_last_skips.
  - intros v ws1 ws2 t Hv IH H1 H2 Ht IHt. by apply element_cons_skips.
  - intros fuel b t Ha Hf. destruct fuel as [|fuel]; [simpl in Hf; lia|]. cbn [app] in Ha. cbn [skip_fields].
    rewrite (at_head b _ _ Ha). cbn [mbind outcome_bind]. change (eqc "}" "}") with true. cbn iota. by apply (leave_reads b "}").
  - intros k s ws1 ws2 v ws3 Hk H1 H2 Hv IH H3. by apply (field_last_skips k s).
  - intros k s ws1 ws2 v ws3 ws4 t Hk H1 H2 Hv IH H3 H4 Ht IHt. by apply (field_cons_skips k s).
Qed.

(** Every JSON text is read past, with white space before it and at most with
    white space behind it, if something that is not part of a number follows. *)
Theorem json_skipped v ws t b :
  json_value v → white ws → stops t → ahead b (ws ++ v ++ t) →
  ∃ b', skipValue b = Done b' ∧ near b' t ∧ reading b b'.
Proof.
  intros Hv Hws Ht Ha. pose proof (ahead_length b _ Ha) as Hl. rewrite !length_app in Hl.
  unfold skipValue. apply (proj1 skips_all v Hv _ b t Ht); [|unfold skip_fuel; lia].
  rewrite <- (near_white b ws) by done. by apply ahead_near.
Qed.

(** ** Reading past a value ends *)

(** [b'] is [b] read further on. *)
Definition onward (b b' : iobuffer) : Prop := reading b b' ∧ position b ≤ position b'.

Lemma onward_refl b : onward b b.
Proof. split; [done|lia]. Qed.

Lemma onward_trans b1 b2 b3 : onward b1 b2 → onward b2 b3 → onward b1 b3.
Proof. intros [R1 P1] [R2 P2]. split; [by eapply reading_trans|lia]. Qed.

Lemma onward_forward n b : onward b (forward n b).
Proof. split; [done|simpl; lia]. Qed.

Lemma at_ends i b : ends (at_ i b).
Proof. unfold at_. ends_tac. Qed.

Lemma getc_ends b : ends (getc b).
Proof. unfold getc. ends_tac. Qed.

Lemma expect_ends c b : ends (expect c b).
Proof. unfold expect. apply ends_bind; [apply getc_ends|]. intros [d b1] _. ends_tac. Qed.

Lemma at_word_ends w b : ends (at_word w b).
Proof. unfold at_word. ends_tac. Qed.

#[export] Hint Resolve at_ends getc_ends expect_ends at_word_ends : ends.

Lemma at_Done i b c : at_ i b = Done c → i < size b.
Proof. unfold at_. destruct (Nat.leb_spec (size b) i); done. Qed.

Lemma getc_Done b c b' : getc b = Done (c, b') → b' = forward 1 b ∧ position b < capacity b.
Proof.
  unfold getc. destruct (mem b !! position b) eqn:E; [|done]. cbn [defined mbind outcome_bind]. intros [= <- <-].
  split; [done|]. by apply lookup_lt_Some in E.
Qed.

Lemma expect_Done c b b' : expect c b = Done b' → b' = forward 1 b.
Proof.
  unfold expect. intros ([d b1] & [-> _]%getc_Done & H)%outcome_bind_Done. destruct (eqc d c); [|done]. by injection H.
Qed.

Lemma ws_loop_onward n b b' : ws_loop n b = Done b' → onward b b'.
Proof.
  revert b. induction n as [|n IH]; intros b; cbn [ws_loop]; [intros [= <-]; apply onward_refl|].
  intros (c & _ & H)%outcome_bind_Done. destruct (isWhitespace c); [|injection H as <-; apply onward_refl].
  eapply onward_trans; [apply (onward_forward 1)|by apply IH].
Qed.

Lemma consumeWhitespace_onward b b' : consumeWhitespace b = Done b' → onward b b'.
Proof. apply ws_loop_onward. Qed.

Lemma ws_loop_ends n b : ends (ws_loop n b).
Proof. revert b. induction n as [|n IH]; intros b; cbn [ws_loop]; ends_tac. Qed.

Lemma consumeWhitespace_ends b : ends (consumeWhitespace b).
Proof. apply ws_loop_ends. Qed.

(** Strings: every turn reads a character of the text. *)
Lemma string_loop_onward fuel : ∀ acc b s b', string_loop fuel acc b = Done (s, b') → onward b b'.
Proof.
  induction fuel as [|fuel IH]; intros acc b s b'; cbn [string_loop]; [done|].
  intros ([c b1] & [-> _]%getc_Done & H)%outcome_bind_Done.
  destruct (eqc c quote); [injection H as <- <-; apply onward_forward|].
  apply outcome_bind_Done in H as (d & _ & H). destruct (eqc d backslash).
  - apply outcome_bind_Done in H as ([e b2] & [-> _]%getc_Done & H). rewrite forward_forward in H.
    destruct (eqc e "u").
    + destruct (_ <=? _); [done|]. destruct (isHexNumber _); [|done]. apply IH in H. rewrite forward_forward in H.
      eapply onward_trans; [apply (onward_forward (1 + 1 + 4))|done].
    + destruct (unescape e); [|done]. apply outcome_bind_Done in H as (? & _ & H). apply IH in H.
      eapply onward_trans; [apply (onward_forward (1 + 1))|done].
  - apply IH in H. eapply onward_trans; [apply (onward_forward 1)|done].
Qed.

Lemma string_loop_ends fuel : ∀ acc b, position b ≤ size b → size b - position b < fuel → ends (string_loop fuel acc b).
Proof.
  induction fuel as [|fuel IH]; intros acc b Hp Hf; [lia|]. cbn [string_loop].
  apply ends_bind; [auto with ends|]. intros [c b1] [-> _]%getc_Done. destruct (eqc c quote); [apply ends_done|].
  apply ends_bind; [auto with ends|]. intros d Hd%at_Done. cbn [position size forward set_position] in Hd.
  destruct (eqc d backslash).
  - apply ends_bind; [auto with ends|]. intros [e b2] [-> _]%getc_Done. rewrite forward_forward.
    destruct (eqc e "u").
    + destruct (Nat.leb_spec (size (forward (1 + 1) b)) (position (forward (1 + 1) b) + 4)); [apply ends_thrown|].
      destruct (isHexNumber _); [|apply ends_thrown]. apply IH; simpl in *; lia.
    + destruct (unescape e); [|apply ends_thrown]. apply ends_bind; [auto with ends|]. intros y Hy%at_Done.
      apply IH; simpl in *; lia.
  - apply IH; simpl in *; lia.
Qed.

Lemma readString_onward b s b' : readString b = Done (s, b') → onward b b'.
Proof.
  unfold readString. destruct (_ <=? _); [intros [= <- <-]; apply onward_refl|].
  intros (b1 & ->%expect_Done & H%string_loop_onward)%outcome_bind_Done.
  eapply onward_trans; [apply (onward_forward 1)|done].
Qed.

Lemma readString_ends b : ends (readString b).
Proof.
  unfold readString. destruct (Nat.leb_spec (size b) (position b)); [apply ends_done|].
  apply ends_bind; [auto with ends|]. intros b1 ->%expect_Done. apply string_loop_ends; simpl; lia.
Qed.

Lemma number_loop_onward fuel : ∀ b b', number_loop fuel b = Done b' → onward b b'.
Proof.
  induction fuel as [|fuel IH]; intros b b'; cbn [number_loop]; [done|].
  intros ([c b1] & [-> _]%getc_Done & H)%outcome_bind_Done. destruct (isNumberChar c).
  - apply IH in H. eapply onward_trans; [apply (onward_forward 1)|done].
  - rewrite back_forward in H. injection H as <-. apply onward_refl.
Qed.

Lemma number_loop_ends fuel : ∀ b, capacity b - position b < fuel → ends (number_loop fuel b).
Proof.
  induction fuel as [|fuel IH]; intros b Hf; [lia|]. cbn [number_loop].
  apply ends_bind; [auto with ends|]. intros [c b1] [-> Hp]%getc_Done. destruct (isNumberChar c); [|apply ends_done].
  apply IH. unfold capacity in *. simpl in *. lia.
Qed.

#[export] Hint Resolve consumeWhitespace_ends readString_ends : ends.

Lemma skipNumber_ends b : ends (skipNumber b).
Proof. apply number_loop_ends. lia. Qed.
#[export] Hint Resolve skipNumber_ends : ends.

Lemma skip_scalar_ends b : ends (skip_scalar b).
Proof. unfold skip_scalar. ends_tac. Qed.

Lemma skip_key_ends b : ends (skip_key b).
Proof. unfold skip_key. ends_tac. Qed.

Lemma leave_ends b : ends (leave b).
Proof. unfold leave. auto with ends. Qed.
#[export] Hint Resolve skip_scalar_ends skip_key_ends leave_ends : ends.

(** Every step that succeeds goes on. *)
Ltac onward_steps :=
  repeat match goal with
         | H : _ ≫= _ = Done _ |- _ => apply outcome_bind_Done in H as (? & ? & ?)
         | H : Done _ = Done _ |- _ => injection H as ?; subst
         | H : getc _ = Done (_, _) |- _ => apply getc_Done in H as [? ?]; subst
         | H : expect _ _ = Done _ |- _ => apply expect_Done in H; subst
         | H : consumeWhitespace _ = Done _ |- _ => apply consumeWhitespace_onward in H
         | H : readString _ = Done (_, _) |- _ => apply readString_onward in H
         | H : number_loop _ _ = Done _ |- _ => apply number_loop_onward in H
         | H : context [match ?p with (_, _) => _ end] |- _ => destruct p
         | H : (if ?c then _ else _) = Done _ |- _ => destruct c
         end.

Ltac solve_onward :=
  unfold onward, reading, forward, set_position in *; simpl in *;
  repeat match goal with H : _ ∧ _ |- _ => destruct H end; split_and?; (congruence || lia).

Lemma skip_scalar_onward b b' : skip_scalar b = Done b' → onward b b'.
Proof. unfold skip_scalar, skipNumber. intros H. onward_steps; solve_onward. Qed.

Lemma skip_key_onward b b' : skip_key b = Done b' → onward b b' ∧ position b < position b'.
Proof. unfold skip_key. intros H. onward_steps. split; solve_onward. Qed.

Lemma leave_onward b b' : leave b = Done b' → onward b b'.
Proof. unfold leave. intros H. onward_steps. solve_onward. Qed.

Lemma skip_onward fuel :
  (∀ b b', skipValue_ fuel b = Done b' → onward b b')
  ∧ (∀ b b', skip_fields fuel b = Done b' → onward b b')
  ∧ (∀ b b', skip_elements fuel b = Done b' → onward b b').
Proof.
  induction fuel as [|fuel (IHv & IHf & IHe)]; [done|].
  split_and!; intros b b' H; cbn [skipValue_ skip_fields skip_elements] in H; onward_steps;
    repeat match goal with
           | H : skip_scalar _ = Done _ |- _ => apply skip_scalar_onward in H
           | H : skip_key _ = Done _ |- _ => apply skip_key_onward in H as [? ?]
           | H : leave _ = Done _ |- _ => apply leave_onward in H
           | H : skipValue_ _ _ = Done _ |- _ => apply IHv in H
           | H : skip_fields _ _ = Done _ |- _ => apply IHf in H
           | H : skip_elements _ _ = Done _ |- _ => apply IHe in H
           end; solve_onward.
Qed.

Definition left_ (b : iobuffer) : nat := size b - position b.

Lemma skip_ends fuel :
  (∀ b, 2 * left_ b < fuel → ends (skipValue_ fuel b))
  ∧ (∀ b, 2 * left_ b + 1 < fuel → ends (skip_fields fuel b))
  ∧ (∀ b, 2 * left_ b + 1 < fuel → ends (skip_elements fuel b)).
Proof.
  induction fuel as [|fuel (IHv & IHf & IHe)]; [split_and!; intros; lia|]. unfold left_ in *.
  assert (Hless : ∀ (b b' : iobuffer), onward b b' → position b < size b → position b < position b' →
    size b' - position b' < size b - position b).
  { intros b b' [[_ Hs] Hp]. rewrite Hs. lia. }
  split_and!; intros b Hf; cbn [skipValue_ skip_fields skip_elements].
  - apply ends_bind; [auto with ends|]. intros b1 H1%consumeWhitespace_onward.
    apply ends_bind; [auto with ends|]. intros c Hc%at_Done.
    destruct (eqc c "{"); [|destruct (eqc c "["); [|ends_tac]];
      (apply ends_bind; [auto with ends|]; intros b2 ->%expect_Done; apply ends_bind; [auto with ends|];
       intros b3 H3%consumeWhitespace_onward; apply IHf || apply IHe);
      unfold onward, reading, forward, set_position in *; simpl in *;
      repeat match goal with H : _ ∧ _ |- _ => destruct H end; lia.
  - apply ends_bind; [auto with ends|]. intros c Hc%at_Done. destruct (eqc c "}"); [auto with ends|].
    apply ends_bind; [auto with ends|]. intros b1 [H1 H1']%skip_key_onward.
    apply ends_bind; [apply IHv; unfold onward, reading in *; lia|]. intros b2 H2%(proj1 (skip_onward fuel)).
    apply ends_bind; [auto with ends|]. intros b3 H3%consumeWhitespace_onward.
    apply ends_bind; [auto with ends|]. intros d Hd%at_Done. destruct (eqc d "}"); [auto with ends|].
    apply ends_bind; [auto with ends|]. intros b4 ->%expect_Done.
    apply ends_bind; [auto with ends|]. intros b5 H5%consumeWhitespace_onward. apply IHf.
    unfold onward, reading, forward, set_position in *; simpl in *;
      repeat match goal with H : _ ∧ _ |- _ => destruct H end; lia.
  - apply ends_bind; [auto with ends|]. intros c Hc%at_Done. destruct (eqc c "]"); [auto with ends|].
    apply ends_bind; [apply IHv; lia|]. intros b2 H2%(proj1 (skip_onward fuel)).
    apply ends_bind; [auto with ends|]. intros b3 H3%consumeWhitespace_onward.
    apply ends_bind; [auto with ends|]. intros d Hd%at_Done. destruct (eqc d "]"); [auto with ends|].
    apply ends_bind; [auto with ends|]. intros b4 ->%expect_Done.
    apply ends_bind; [auto with ends|]. intros b5 H5%consumeWhitespace_onward. apply IHe.
    unfold onward, reading, forward, set_position in *; simpl in *;
      repeat match goal with H : _ ∧ _ |- _ => destruct H end; lia.
Qed.

(** Reading past a value ends, whatever is in the buffer and in the memory behind
    it: the fuel [skip_fuel] is always enough. *)
Theorem skip_terminates b : skipValue b ≠ OutOfFuel.
Proof. apply (proj1 (skip_ends _)). unfold skip_fuel, left_. lia. Qed.
