(* ===== verification/JsonValues.v ===== *)
(** * JsonValues: the texts of values and objects

    The text of every value, that it is written, that it is JSON, and that it is
    read back; the text of an object, and that it is written; the headers of
    fields. *)

From S2P Require Import Prelude Text IoBuffer Yas YasHeader Serialiser BareSpec Json JsonText.
From S2P Require SerialiserSpec MultiArray.
Local Open Scope nat_scope.

(** ** Numbers *)

(** Neither infinite nor not a number. *)
Definition finite (t : number) (z : Z) : Prop :=
  match t with
  | Float => Z.land (Z.shiftr z 23) 255 ≠ 255%Z
  | Double => Z.land (Z.shiftr z 52) 2047 ≠ 2047%Z
  | _ => True
  end.

(** What the standard library and fast_float promise: a finite number is printed
    with less than thirty characters of numbers, and reading them, with something
    else behind them, gives the same number. *)
Class FloatText (F : float_text) : Prop := {
  print_chars t z : is_float t = true → in_number t z → finite t z → Forall (λ c, isNumberChar c = true) (float_print F t z);
  print_length t z : is_float t = true → in_number t z → finite t z → 0 < length (float_print F t z) < 30;
  parse_print t z s :
    is_float t = true → in_number t z → finite t z → stops s →
    float_parse F t (float_print F t z ++ s) = Some (z, length (float_print F t z))
}.

Lemma length_digits fuel : ∀ k n, (0 ≤ n < 10 ^ Z.of_nat (S k))%Z → length (digits fuel n) ≤ S k.
Proof.
  induction fuel as [|fuel IH]; intros k n Hn; cbn [digits]; [simpl; lia|].
  destruct (Z.ltb_spec n 10); [simpl; lia|]. rewrite length_app. simpl.
  destruct k as [|k]; [change (10 ^ Z.of_nat 1)%Z with 10%Z in Hn; lia|].
  enough (length (digits fuel (n / 10)) ≤ S k) by lia. apply IH. split; [apply Z.div_pos; lia|].
  apply Z.div_lt_upper_bound; [lia|]. rewrite (Nat2Z.inj_succ (S k)), Z.pow_succ_r in Hn by lia. lia.
Qed.

Lemma length_to_dec z : in_s 64 z → length (to_dec z) ≤ 20.
Proof.
  intros Hz. unfold in_s in Hz. unfold to_dec. set (ds := digits _ _).
  assert (length ds ≤ 19).
  { apply length_digits. change (10 ^ Z.of_nat 19)%Z with 10000000000000000000%Z. simpl in Hz. lia. }
  destruct (z <? 0)%Z; simpl; lia.
Qed.

Lemma in_number_64 t z : is_float t = false → in_number t z → in_s 64 z.
Proof. unfold in_s. destruct t; simpl; unfold in_s, width; simpl; (done || lia). Qed.

Lemma dec_char_number c : is_dec_char c = true → isNumberChar c = true.
Proof.
  assert (H : forallb (λ c, implb (is_dec_char c) (isNumberChar c)) all_chars = true) by (vm_compute; reflexivity).
  pose proof (all_chars_spec _ H c) as Hc. simpl in Hc. intros E. by rewrite E in Hc.
Qed.

Lemma to_dec_number z : Forall (λ c, isNumberChar c = true) (to_dec z).
Proof. eapply Forall_impl; [apply to_dec_chars|]. apply dec_char_number. Qed.

Lemma stop_not_digit c : isNumberChar c = false → is_digit c = false.
Proof.
  intros H. apply not_true_iff_false. intros Hd. rewrite dec_char_number in H; [done|]. unfold is_dec_char. by rewrite Hd.
Qed.

Lemma int_chars_to_dec z s : stops s → int_chars (to_dec z ++ s) = length (to_dec z).
Proof.
  intros (c & s' & -> & Hc). unfold to_dec. set (ds := digits _ _).
  assert (Hd : Forall (λ c, is_digit c = true) ds) by (apply digits_are_digits; lia).
  assert (Hne : ds ≠ []) by apply digits_nonempty. clearbody ds.
  assert (Ht : take_while is_digit (ds ++ c :: s') = ds) by (apply take_while_all; [done|by apply stop_not_digit]).
  destruct (z <? 0)%Z; [cbn [app int_chars]; rewrite eqc_refl; by rewrite Ht|].
  destruct ds as [|d ds]; [done|]. cbn [app int_chars] in *. rewrite Ht.
  by rewrite digit_not_minus by (by apply Forall_cons in Hd as []).
Qed.

(** The next thirty bytes begin with the number and what stops it. *)
Lemma number_text_ahead b s t :
  length s < 30 → stops t → ahead b (s ++ t) → ∃ r, number_text b = s ++ r ∧ stops r ∧ length s < length (number_text b).
Proof.
  intros Hl (c & t' & -> & Hc) (Hw & Hp & Heq). rewrite app_nil_r in Heq. unfold IoBuffer.content in Heq.
  assert (Hd : drop (position b) (mem b) = s ++ c :: t' ++ drop (size b) (mem b)).
  { rewrite <- (take_drop (size b) (mem b)) at 1. rewrite drop_app_le, Heq; [by rewrite <- app_assoc|].
    unfold wf, capacity in Hw. rewrite length_take. lia. }
  unfold number_text. rewrite Hd, take_app_ge by lia.
  destruct (30 - length s) as [|k] eqn:Hk; [lia|]. cbn [take]. eexists. split; [done|].
  split; [by eexists _, _|]. rewrite length_app. simpl. lia.
Qed.

(** The numbers that have a text, and the text. *)
Definition text_ok (a : prim) : carrier a → Prop :=
  match a with Number t => λ z, in_number t z ∧ finite t z | String => λ _, True end.

Section texts.
Context (F : float_text) `{HF : FloatText F} (junk : ascii) (w : walks) `{HW : Walks w}.

Definition enc_number (t : number) (z : Z) : bytes :=
  match t with
  | Bool => if (z =? 0)%Z then str "false" else str "true"
  | _ => if is_float t then float_print F t z else to_dec z
  end.

Definition enc_prim (a : prim) : carrier a → bytes :=
  match a with Number t => enc_number t | String => enc_text end.

Lemma take_number_stops {A} n (x : A) b : n < length (number_text b) → take_number n x b = Done (x, forward n b).
Proof using Type. intros H. unfold take_number. by rewrite (proj2 (Nat.eqb_neq _ _)) by lia. Qed.

Lemma get_number_reads t z b s :
  in_number t z → finite t z → stops s → ahead b (enc_number t z ++ s) →
  get_number F t b = Done (z, forward (length (enc_number t z)) b).
Proof using HF.
  intros Hz Hfin Hs Ha. destruct (decide (t = Bool)) as [->|Ht].
  { destruct Hs as (c & s' & -> & Hc). simpl in Hz. cbn [get_number enc_number] in *.
    assert (z = 0 ∨ z = 1)%Z as [-> | ->] by lia; cbn [Z.eqb] in *.
    - by rewrite (at_word_true _ b c s' Ha).
    - destruct (at_word_false (str "false") b "t" (str "rue" ++ c :: s') ltac:(done) Ha) as [-> |?]; [|done].
      cbn [mbind outcome_bind]. by rewrite (at_word_true (str "true") b c s' Ha). }
  assert (Hprim : (if is_float t then float_print F t z else to_dec z) = enc_number t z) by (by destruct t).
  destruct (is_float t) eqn:Hfl.
  - rewrite <- Hprim in *. pose proof (print_length t z Hfl Hz Hfin) as Hl.
    destruct (number_text_ahead b (float_print F t z) s ltac:(lia) Hs Ha) as (r & Hr & Hst & Hlt).
    unfold get_number. destruct t; try done; rewrite Hr, parse_print by done; by apply take_number_stops.
  - rewrite <- Hprim in *. pose proof (length_to_dec z (in_number_64 t z Hfl Hz)) as Hl.
    destruct (number_text_ahead b (to_dec z) s ltac:(lia) Hs Ha) as (r & Hr & Hst & Hlt).
    assert (Hin : in_s (width (bytes_of t)) z) by (by destruct t).
    assert (Hw : (0 < width (bytes_of t))%Z) by (by destruct t).
    assert (Hp : from_chars (width (bytes_of t)) (number_text b) = Parsed z).
    { rewrite Hr. apply from_chars_to_dec; [done..|]. destruct Hst as (c & r' & -> & Hc). by apply stop_not_digit. }
    unfold get_number. destruct t; try done; rewrite Hp, Hr, int_chars_to_dec by done; by apply take_number_stops.
Qed.

Lemma json_prim_reads a x b s :
  text_ok a x → stops s → ahead b (enc_prim a x ++ s) →
  get_prim F a b = Done (x, forward (length (enc_prim a x)) b).
Proof using HF.
  destruct a as [t|]; cbn [text_ok enc_prim get_prim].
  - intros [Hz Hfin]. by apply get_number_reads.
  - intros _ _ Ha. unfold enc_text in *. cbn [app] in Ha. rewrite <- app_assoc in Ha.
    destruct (readString_reads _ x b s (escape_chars x) Ha) as [-> _]. do 3 f_equal.
    cbn [length]. rewrite length_app. simpl. lia.
Qed.

Lemma prim_json a x : text_ok a x → json_value (enc_prim a x).
Proof using HF.
  destruct a as [t|]; cbn [text_ok enc_prim].
  - intros [Hz Hfin]. unfold enc_number. destruct t; cbn [is_float];
      try (apply json_number; [apply to_dec_nonempty|apply to_dec_number]).
    + apply json_word. unfold words. destruct (x =? 0)%Z; [by left|right; by left].
    + apply json_number; [|by apply print_chars]. intros E. pose proof (print_length Float x eq_refl Hz Hfin) as H.
      rewrite E in H. simpl in H. lia.
    + apply json_number; [|by apply print_chars]. intros E. pose proof (print_length Double x eq_refl Hz Hfin) as H.
      rewrite E in H. simpl in H. lia.
  - intros _. unfold enc_text. eapply json_string. apply escape_chars.
Qed.

(** *** Arrays *)

Definition comma_space : bytes := [","%char; " "%char].
Definition enc_array (a : prim) (xs : list (carrier a)) : bytes := "["%char :: join comma_space (enc_prim a <$> xs) ++ ["]"%char].

Lemma ahead_eq b b' s t : ahead b (s ++ t) → ahead b' t → reading b b' → b' = forward (length s) b.
Proof using Type.
  intros H1 H2 [Hm Hs]. pose proof (ahead_length b _ H1) as L1. pose proof (ahead_length b' _ H2) as L2.
  rewrite length_app in L1. destruct b as [m p n], b' as [m' p' n']. simpl in *. subst m' n'.
  unfold forward, set_position. simpl. f_equal. lia.
Qed.

Lemma join_cons sep x y l : join sep (x :: y :: l) = x ++ sep ++ join sep (y :: l).
Proof using Type. done. Qed.

Lemma enc_prim_starts a x : text_ok a x → starts (enc_prim a x).
Proof using HF. intros Hx. by apply value_starts, prim_json. Qed.

Lemma join_starts a x xs t : text_ok a x → starts (join comma_space (enc_prim a <$> x :: xs) ++ t).
Proof using HF.
  intros Hx. apply starts_app. rewrite fmap_cons. destruct xs as [|y xs]; [by apply enc_prim_starts|].
  rewrite fmap_cons, join_cons. by apply starts_app, enc_prim_starts.
Qed.

Lemma get_elements_reads a xs : ∀ x fuel acc b t,
  Forall (text_ok a) (x :: xs) → length xs < fuel →
  ahead b (join comma_space (enc_prim a <$> x :: xs) ++ "]"%char :: t) →
  get_elements F a fuel acc b
  = Done (acc ++ x :: xs, forward (length (join comma_space (enc_prim a <$> x :: xs)) + 1) b).
Proof using HF.
  induction xs as [|y xs IH]; intros x fuel acc b t Hok Hf Ha; (destruct fuel as [|fuel]; [lia|]);
    apply Forall_cons in Hok as [Hx Hok]; cbn [get_elements].
  - cbn [fmap list_fmap join] in *.
    rewrite (json_prim_reads a x b ("]"%char :: t) Hx ltac:(by eexists _, _) Ha). cbn [mbind outcome_bind].
    apply ahead_forward in Ha. rewrite (consumeWhitespace_head _ "]" t eq_refl Ha). cbn [mbind outcome_bind].
    destruct (getc_head _ _ _ Ha) as [-> _]. cbn [mbind outcome_bind]. change (eqc "]" "]") with true. cbn iota.
    by rewrite forward_forward.
  - pose proof Hok as Hok'. apply Forall_cons in Hok' as [Hy _].
    rewrite fmap_cons in Ha |- *. rewrite (fmap_cons _ y), join_cons in Ha |- *. rewrite <- fmap_cons in Ha |- *.
    rewrite <- !app_assoc in Ha. cbn [comma_space app] in Ha.
    erewrite json_prim_reads; [|exact Hx| |exact Ha]; [|by eexists _, _]. cbn [mbind outcome_bind].
    apply ahead_forward in Ha. rewrite (consumeWhitespace_head _ "," _ eq_refl Ha). cbn [mbind outcome_bind].
    destruct (getc_head _ _ _ Ha) as [-> Ha1]. cbn [mbind outcome_bind].
    change (eqc "," "]") with false. change (negb (eqc "," ",")) with false. cbn iota.
    destruct (near_ahead _ [" "%char] _ ltac:(by repeat constructor) (join_starts a y xs _ Hy) (ahead_near _ _ Ha1))
      as (b4 & -> & A4 & R4). cbn [mbind outcome_bind].
    rewrite (IH y fuel (acc ++ [x]) b4 t Hok) by (simpl in Hf; lia || done).
    rewrite (ahead_eq _ b4 [" "%char] _ Ha1 A4 R4), !forward_forward, <- app_assoc.
    do 3 f_equal. rewrite !length_app. cbn [length comma_space]. lia.
Qed.

Lemma length_join sep l : Forall (λ s, 0 < length s) l → length l ≤ length (join sep l).
Proof using Type.
  induction 1 as [|x [|y l] Hx Hl IH]; [done|simpl; lia|]. rewrite join_cons, !length_app. cbn [length] in *. lia.
Qed.

Lemma enc_prim_pos a x : text_ok a x → 0 < length (enc_prim a x).
Proof using HF. intros Hx. destruct (enc_prim_starts a x Hx) as (c & s & -> & _). simpl. lia. Qed.

Lemma get_array_reads a xs b t :
  Forall (text_ok a) xs → ahead b (enc_array a xs ++ t) →
  get_array F a b = Done (xs, forward (length (enc_array a xs)) b).
Proof using HF.
  intros Hok Ha. unfold enc_array in *. cbn [app] in Ha. rewrite <- app_assoc in Ha. cbn [app] in Ha.
  pose proof (ahead_length b _ Ha) as Hl. assert (Hcap : size b ≤ capacity b) by apply Ha.
  unfold get_array. destruct (expect_head b "[" _ Ha) as [-> Ha1]. cbn [mbind outcome_bind].
  destruct xs as [|x xs].
  - cbn [fmap list_fmap join app] in *. rewrite (consumeWhitespace_head _ "]" t eq_refl Ha1). cbn [mbind outcome_bind].
    destruct (getc_head _ _ _ Ha1) as [-> _]. cbn [mbind outcome_bind]. change (eqc "]" "]") with true. cbn iota.
    by rewrite forward_forward.
  - pose proof Hok as Hok'. apply Forall_cons in Hok' as [Hx _].
    pose proof (join_starts a x xs ("]"%char :: t) Hx) as Hst.
    destruct Hst as (c & s & Hcs & Hc). rewrite Hcs in Ha1.
    rewrite (consumeWhitespace_head _ c s Hc Ha1). cbn [mbind outcome_bind].
    destruct (getc_head _ _ _ Ha1) as [-> _]. cbn [mbind outcome_bind].
    assert (Hcne : eqc c "]" = false).
    { destruct (value_head _ (prim_json a x Hx)) as (d & u & Hd & _ & Hne & _). apply eqc_ne.
      rewrite fmap_cons in Hcs. destruct xs as [|y xs]; cbn [fmap list_fmap join] in Hcs; rewrite Hd in Hcs;
        by injection Hcs as <- _. }
    rewrite Hcne, back_forward. rewrite <- Hcs in Ha1.
    rewrite (get_elements_reads a xs x _ [] _ t Hok); [|unfold forward, set_position, capacity in *; simpl|done].
    + cbn [app]. rewrite forward_forward. do 3 f_equal. cbn [length]. rewrite length_app. simpl. lia.
    + assert (Hj : length (x :: xs) ≤ length (join comma_space (enc_prim a <$> x :: xs))).
      { rewrite <- (length_fmap (enc_prim a) (x :: xs)) at 1. apply length_join, Forall_fmap.
        eapply Forall_impl; [exact Hok|]. intros y. apply enc_prim_pos. }
      cbn [length] in Hl, Hj. rewrite length_app in Hl. lia.
Qed.

Lemma elements_json a x xs :
  Forall (text_ok a) (x :: xs) → json_elements (join comma_space (enc_prim a <$> x :: xs) ++ ["]"%char]).
Proof using HF.
  revert x. induction xs as [|y xs IH]; intros x Hok; apply Forall_cons in Hok as [Hx Hok].
  - apply (elements_last (enc_prim a x) []); [by apply prim_json|constructor].
  - rewrite fmap_cons, (fmap_cons _ y), join_cons, <- fmap_cons, <- !app_assoc.
    apply (elements_cons (enc_prim a x) [] [" "%char]); [by apply prim_json|constructor|by repeat constructor|by apply IH].
Qed.

Lemma array_json a xs : Forall (text_ok a) xs → json_value (enc_array a xs).
Proof using HF.
  intros Hok. unfold enc_array. apply (json_array []); [constructor|].
  destruct xs as [|x xs]; [apply elements_nil|by apply elements_json].
Qed.
End texts.

(** ** Headers *)

(** What stands between two fields. *)
Definition separator (sep : bytes) : Prop := white sep ∨ ∃ ws, sep = ","%char :: ws ∧ white ws.

Lemma set_position_same b : set_position (position b) b = b.
Proof. by destruct b. Qed.

Lemma set_position_reading b b' : reading b b' → set_position (position b') b = b'.
Proof. destruct b, b'. unfold reading, set_position. simpl. by intros [-> ->]. Qed.

Lemma next_field_reads b sep d s :
  separator sep → isWhitespace d = false → d ≠ ","%char → near b (sep ++ d :: s) →
  ∃ h b2, next_field b = Done (h, b2) ∧ ahead b2 (d :: s) ∧ reading b b2 ∧ near (set_position h b) (d :: s).
Proof.
  intros [Hw|(ws & -> & Hw)] Hd Hne Hn; unfold next_field.
  - destruct (near_ahead b sep (d :: s) Hw (starts_head _ _ Hd) Hn) as (b1 & -> & A1 & R1). cbn [mbind outcome_bind].
    rewrite (at_head b1 _ _ A1). cbn [mbind outcome_bind]. rewrite (eqc_ne d ",") by done.
    eexists _, _. split_and!; [done..|]. rewrite set_position_same. by rewrite near_white in Hn.
  - destruct (near_ahead b [] (","%char :: ws ++ d :: s) ltac:(constructor) ltac:(by apply starts_head) Hn)
      as (b1 & -> & A1 & R1). cbn [mbind outcome_bind]. rewrite (at_head b1 _ _ A1). cbn [mbind outcome_bind].
    change (eqc "," ",") with true. cbn iota. apply (ahead_forward b1 [","%char]) in A1. cbn [length] in A1.
    destruct (near_ahead _ ws (d :: s) Hw (starts_head _ _ Hd) (ahead_near _ _ A1)) as (b2 & -> & A2 & R2).
    cbn [mbind outcome_bind].
    assert (R : reading b b2) by (apply (reading_trans _ b1); [done|exact R2]).
    eexists _, _. split_and!; [done..|]. rewrite (set_position_reading b b2 R). by apply ahead_near.
Qed.

Definition enc_key (name : bytes) : bytes := quote :: name ++ quote :: str ": ".

Lemma header_end check f i b sep t :
  separator sep → near b (sep ++ "}"%char :: t) →
  ∃ h b', get_header check f i b = Done (with_header h (position b') (fieldName f) END_ID f, i, b')
          ∧ ahead b' t ∧ reading b b'.
Proof.
  intros Hsep Hn. destruct (next_field_reads b sep "}" t Hsep eq_refl ltac:(done) Hn) as (h & b2 & E2 & A2 & R2 & _).
  unfold get_header. rewrite E2. cbn [mbind outcome_bind]. rewrite (at_head b2 _ _ A2). cbn [mbind outcome_bind].
  change (eqc "}" "{") with false. change (eqc "}" "}") with true. cbn iota zeta.
  eexists _, _. split; [done|]. split; [by apply (ahead_forward b2 ["}"%char])|done].
Qed.

Lemma header_start check f i b sep t :
  separator sep → near b (sep ++ "{"%char :: t) →
  ∃ h b', get_header check f i b = Done (with_header h (position b' + 1) (fieldName f) START_ID f, i, b')
          ∧ ahead b' ("{"%char :: t) ∧ reading b b'.
Proof.
  intros Hsep Hn. destruct (next_field_reads b sep "{" t Hsep eq_refl ltac:(done) Hn) as (h & b2 & E2 & A2 & R2 & _).
  unfold get_header. rewrite E2. cbn [mbind outcome_bind]. rewrite (at_head b2 _ _ A2). cbn [mbind outcome_bind].
  change (eqc "{" "{") with true. cbn iota. by eexists _, _.
Qed.

Lemma header_key check f i b sep name c v :
  separator sep → plain_name name → name ≠ [] → isWhitespace c = false →
  near b (sep ++ enc_key name ++ c :: v) →
  ∃ h b', get_header check f i b
          = Done (with_header h (position b') name (if eqc c "{" then START_ID else ANY_ID) f, i, b')
        ∧ ahead b' (if eqc c "{" then v else c :: v) ∧ reading b b'
        ∧ near (set_position h b) (enc_key name ++ c :: v).
Proof.
  intros Hsep Hname Hne Hc Hn. unfold enc_key in *. cbn [app] in *.
  destruct (next_field_reads b sep quote _ Hsep eq_refl ltac:(done) Hn) as (h & b2 & E2 & A2 & R2 & N2).
  unfold get_header. rewrite E2. cbn [mbind outcome_bind]. rewrite (at_head b2 _ _ A2). cbn [mbind outcome_bind].
  change (eqc quote "{") with false. change (eqc quote "}") with false. rewrite eqc_refl. cbn iota.
  rewrite <- app_assoc in A2. cbn [app] in A2. destruct (readKey_reads name b2 _ Hname A2) as [-> A3]. cbn [mbind outcome_bind].
  assert (Hl : (length name =? 0) = false) by (by destruct name). rewrite Hl. cbn [error_if mbind outcome_bind].
  unfold str in A3. cbn [String.list_ascii_of_string app] in A3.
  rewrite (consumeWhitespace_head _ ":" _ eq_refl A3). cbn [mbind outcome_bind].
  destruct (getc_head _ _ _ A3) as [-> A4]. cbn [mbind outcome_bind]. change (eqc ":" ":") with true.
  cbn [negb error_if mbind outcome_bind].
  destruct (near_ahead _ [" "%char] (c :: v) ltac:(by repeat constructor) (starts_head _ _ Hc) (ahead_near _ _ A4))
    as (b6 & -> & A6 & R6). cbn [mbind outcome_bind]. rewrite (at_head b6 _ _ A6). cbn [mbind outcome_bind].
  assert (R : reading b b6) by (apply (reading_trans _ b2); [done|exact R6]).
  eexists _, _. split; [done|]. split; [destruct (eqc c "{"); [by apply (ahead_forward b6 [c])|done]|].
  split; [by destruct (eqc c "{")|exact N2].
Qed.

(** ** Values *)

Definition comma_newline : bytes := [","%char; newline].
Definition open_line : bytes := ["{"%char; newline].
Definition close_line : bytes := [newline; "}"%char].

Section values.
Context (F : float_text) `{HF : FloatText F} (w : walks) `{HW : Walks w}.

Definition wire_dims (m : list Z) : list Z := wraps 32 <$> m.

Definition enc_multi (a : prim) (m : MultiArray.t (carrier a)) : bytes :=
  open_line ++ enc_key (str "dims") ++ enc_array F (Number Int32) (wire_dims (MultiArray.dimensions m))
  ++ comma_newline ++ enc_key (str "values") ++ enc_array F a (MultiArray.elements m) ++ close_line ++ [newline].

Definition enc_entry (v : prim) (e : bytes * carrier v) : bytes := enc_key e.1 ++ enc_prim F v e.2.

Definition enc_map (v : prim) (es : list (bytes * carrier v)) : bytes :=
  open_line ++ join comma_newline (enc_entry v <$> es) ++ close_line ++ [newline].

Definition enc_value (l : leaf) : leaf_carrier l → bytes :=
  match l with
  | Prim a => enc_prim F a
  | Vec a => enc_array F a
  | Multi a _ => enc_multi a
  | SetOf a => λ X, enc_array F a (walk_set w a X)
  | MapOf String v => λ m, enc_map v (walk_map w String v m)
  | MapOf (Number _) _ => λ _, []
  end.

(** The values that have a JSON text; an empty map has none. *)
Definition value_ok (l : leaf) : leaf_carrier l → Prop :=
  match l with
  | Prim a => text_ok a
  | Vec a => Forall (text_ok a)
  | Multi a n => λ m, m = MultiArray.make (MultiArray.elements m) (MultiArray.dimensions m)
      ∧ length (MultiArray.dimensions m) = n ∧ Forall (in_u 32) (MultiArray.dimensions m)
      ∧ Forall (text_ok a) (MultiArray.elements m)
  | SetOf a => λ X, set_Forall (text_ok a) X
  | MapOf String v => λ m, m ≠ ∅ ∧ map_Forall (λ k x, plain_name k ∧ text_ok v x) m
  | MapOf (Number _) _ => λ _, False
  end.

Lemma dims_ok (m : list Z) : Forall (text_ok (Number Int32)) (wire_dims m).
Proof using Type. apply Forall_fmap, Forall_true. intros z. split; [by apply wraps_range|done]. Qed.

Lemma dims_back m : Forall (in_u 32) m → wrapu 32 <$> wire_dims m = m.
Proof using Type.
  intros Hm. unfold wire_dims. rewrite <- list_fmap_compose. rewrite <- (list_fmap_id m) at 2.
  apply list_fmap_ext. intros i z Hz. unfold compose, id. rewrite wrapu_wraps. apply wrapu_id.
  by apply (Forall_lookup_1 _ _ _ _ Hm Hz).
Qed.

Lemma plain_dec s : forallb (λ c, negb (eqc c quote) && negb (eqc c backslash)) s = true → plain_name s.
Proof using Type.
  intros H. apply Forall_forall. intros c Hc. rewrite forallb_forall in H.
  specialize (H c ltac:(by apply list_elem_of_In)). apply andb_true_iff in H as [H1 H2].
  apply negb_true_iff, eqc_false in H1, H2. done.
Qed.

(** A field of an array is found under its name. *)
Lemma expect_field_reads f b sep name a (xs : list (carrier a)) t :
  separator sep → plain_name name → name ≠ [] → near b (sep ++ enc_key name ++ enc_array F a xs ++ t) →
  ∃ f1 b', expect_field name f b = Done (f1, b') ∧ ahead b' (enc_array F a xs ++ t) ∧ reading b b'.
Proof using Type.
  intros Hsep Hname Hne Hn. unfold enc_array in *. cbn [app] in *.
  destruct (header_key ALWAYS f no_info b sep name "[" _ Hsep Hname Hne eq_refl Hn) as (h & b' & E & A & R & _).
  change (eqc "[" "{") with false in E, A. cbn iota in E, A. unfold expect_field, get_strict. rewrite E.
  cbn [mbind outcome_bind intDataType fieldName with_header]. rewrite bool_decide_eq_true_2 by done.
  change (negb (ANY_ID =? ANY_ID)%Z || negb true) with false. cbn iota. by eexists _, _.
Qed.

Lemma separator_line : separator [newline].
Proof using Type. left. by repeat constructor. Qed.

Lemma separator_comma : separator comma_newline.
Proof using Type. right. exists [newline]. split; [done|]. by repeat constructor. Qed.

Lemma get_multi_reads a n m f b t :
  value_ok (Multi a n) m → ahead b (drop 1 (enc_multi a m) ++ t) →
  ∃ b', get_multi F a n f b = Done (m, b') ∧ near b' t ∧ reading b b'.
Proof using HF.
  intros (Hm & Hn & Hd & Hx) Ha. unfold enc_multi, open_line in Ha. cbn [app drop] in Ha.
  repeat (rewrite <- app_assoc in Ha).
  destruct (expect_field_reads (inner_field f) b [newline] (str "dims") (Number Int32)
              (wire_dims (MultiArray.dimensions m)) _ separator_line ltac:(by apply plain_dec) ltac:(done) (ahead_near _ _ Ha))
    as (f1 & b1 & E1 & A1 & R1).
  unfold get_multi. rewrite E1. cbn [mbind outcome_bind].
  rewrite (get_array_reads F (Number Int32) _ b1 _ (dims_ok _) A1). cbn [mbind outcome_bind].
  apply ahead_forward in A1. unfold wire_dims at 1. rewrite length_fmap, Hn, Nat.eqb_refl. cbn [negb].
  rewrite dims_back by done. destruct (MultiArray.row_major (MultiArray.dimensions m)) as [k ss] eqn:Hrow.
  destruct (expect_field_reads f1 _ comma_newline (str "values") a (MultiArray.elements m) _ separator_comma
              ltac:(by apply plain_dec) ltac:(done) (ahead_near _ _ A1)) as (f2 & b3 & E3 & A3 & R3).
  rewrite E3. cbn [mbind outcome_bind]. rewrite (get_array_reads F a _ b3 _ Hx A3). cbn [mbind outcome_bind].
  apply ahead_forward in A3. unfold close_line in A3. cbn [app] in A3.
  destruct (header_end ALWAYS f2 no_info _ [newline] _ separator_line (ahead_near _ _ A3)) as (h & b5 & E5 & A5 & R5).
  unfold get_strict. rewrite E5. cbn [mbind outcome_bind intDataType with_header].
  change (negb (END_ID =? END_ID)%Z) with false. cbn iota. exists b5. split; [|split].
  - f_equal. f_equal. symmetry. rewrite Hm at 1. unfold MultiArray.make. by rewrite Hrow.
  - apply (near_white b5 [newline]); [by repeat constructor|]. by apply ahead_near in A5.
  - apply (reading_trans _ b1); [done|]. apply (reading_trans _ b3); [exact R3|exact R5].
Qed.

Lemma walk_set_text a X : set_Forall (text_ok a) X → Forall (text_ok a) (walk_set w a X).
Proof using HW.
  intros HX. rewrite walk_set_perm. apply Forall_forall. intros x Hx. apply HX. by apply elem_of_elements.
Qed.

(** A value that is not a map is read back, whatever it is read into; the
    brace of an array of several dimensions is part of its header. *)
Lemma json_value_reads f l x x0 b t :
  (∀ k v, l ≠ MapOf k v) → value_ok l x → stops t →
  ahead b (drop (if (data_type_id l =? START_ID)%Z then 1 else 0) (enc_value l x) ++ t) →
  ∃ b', get_value F f l x0 b = Done (x, b') ∧ near b' t ∧ reading b b'.
Proof using HF HW.
  intros Hl Hx Ht Ha. destruct l as [a|a|a n|a|k v]; cbn [data_type_id Z.eqb ANY_ID START_ID Pos.eqb drop enc_value value_ok get_value] in *.
  - rewrite (json_prim_reads F a x b t Hx Ht Ha). eexists. split; [done|]. split; [|done].
    by apply ahead_near, ahead_forward.
  - rewrite (get_array_reads F a x b t Hx Ha). eexists. split; [done|]. split; [|done]. by apply ahead_near, ahead_forward.
  - by apply (get_multi_reads a n).
  - rewrite (get_array_reads F a _ b t (walk_set_text a x Hx) Ha). cbn [mbind outcome_bind].
    eexists. split; [|split; [by apply ahead_near, ahead_forward|done]]. do 2 f_equal. apply set_eq. intros y.
    rewrite elem_of_list_to_set, walk_set_perm. by rewrite elem_of_elements.
  - by destruct (Hl k v).
Qed.

(** *** Their texts are JSON *)

Lemma plain_chars s : plain_name s → chars s s.
Proof using Type. induction 1 as [|c s [Hq Hb] Hs IH]; by constructor. Qed.

(** A field, with white space behind its value. *)
Definition field_text (i : bytes) : Prop :=
  ∃ k v ws, i = enc_key k ++ v ++ ws ∧ plain_name k ∧ json_value v ∧ white ws.

#[local] Ltac flat := repeat (first [rewrite <- app_assoc | progress cbn [app]]).

Lemma fields_json i items : Forall field_text (i :: items) → json_fields (join comma_newline (i :: items) ++ close_line).
Proof using Type.
  revert i. induction items as [|j items IH]; intros i Hall; apply Forall_cons in Hall as [(k & v & ws & -> & Hk & Hv & Hws) Hall].
  - match goal with |- json_fields ?s =>
      replace s with (quote :: k ++ quote :: [] ++ ":"%char :: [" "%char] ++ v ++ (ws ++ [newline]) ++ ["}"%char])
        by (unfold enc_key, close_line; cbn [join]; flat; done) end.
    apply (fields_last k k);
      [by apply plain_chars|constructor|by repeat constructor|done|apply Forall_app; split; [done|by repeat constructor]].
  - match goal with |- json_fields ?s =>
      replace s with (quote :: k ++ quote :: [] ++ ":"%char :: [" "%char] ++ v ++ ws ++ ","%char :: [newline]
                      ++ (join comma_newline (j :: items) ++ close_line))
        by (rewrite join_cons; unfold enc_key, comma_newline; flat; done) end.
    apply (fields_cons k k);
      [by apply plain_chars|constructor|by repeat constructor|done|done|by repeat constructor|by apply IH].
Qed.

Lemma object_json items : Forall field_text items → json_value (open_line ++ join comma_newline items ++ close_line).
Proof using Type.
  intros His. unfold open_line. cbn [app]. destruct items as [|i items].
  - apply (json_object [newline; newline] ["}"%char]); [by repeat constructor|constructor].
  - apply (json_object [newline]); [by repeat constructor|by apply fields_json].
Qed.

Lemma dims_json m : json_value (enc_array F (Number Int32) (wire_dims m)).
Proof using HF. apply array_json; [done|apply dims_ok]. Qed.

(** The text of a value is a JSON value, at most with white space behind it. *)
Lemma value_json l x : value_ok l x → ∃ v ws, enc_value l x = v ++ ws ∧ json_value v ∧ white ws.
Proof using HF HW.
  assert (Hno : ∀ v, json_value v → ∃ u ws, v = u ++ ws ∧ json_value u ∧ white ws).
  { intros v Hv. exists v, []. rewrite app_nil_r. split_and!; [done|done|constructor]. }
  assert (Hnl : white [newline]) by (by repeat constructor).
  destruct l as [a|a|a n|a|[t|] v]; cbn [enc_value value_ok]; intros Hx.
  - by apply Hno, prim_json.
  - by apply Hno, array_json.
  - destruct Hx as (_ & _ & _ & Hx).
    exists (open_line ++ join comma_newline
              [enc_key (str "dims") ++ enc_array F (Number Int32) (wire_dims (MultiArray.dimensions x));
               enc_key (str "values") ++ enc_array F a (MultiArray.elements x)] ++ close_line), [newline].
    split; [unfold enc_multi; cbn [join]; by rewrite <- !app_assoc|]. split; [|done]. apply object_json.
    repeat apply Forall_cons_2; [| |constructor].
    + exists (str "dims"), (enc_array F (Number Int32) (wire_dims (MultiArray.dimensions x))), [].
      rewrite app_nil_r. split_and!; [done|by apply plain_dec|apply dims_json|constructor].
    + exists (str "values"), (enc_array F a (MultiArray.elements x)), [].
      rewrite app_nil_r. split_and!; [done|by apply plain_dec|by apply array_json|constructor].
  - by apply Hno, array_json, walk_set_text.
  - done.
  - destruct Hx as [Hne Hx]. unfold enc_map. set (es := walk_map w String v x).
    assert (Hes : Forall (λ e, plain_name e.1 ∧ text_ok v e.2) es).
    { unfold es. rewrite walk_map_perm. eapply Forall_impl; [by apply map_Forall_to_list|]. by intros [k y]. }
    exists (open_line ++ join comma_newline (enc_entry v <$> es) ++ close_line), [newline].
    split; [by rewrite <- !app_assoc|]. split; [|done]. apply object_json, Forall_fmap.
    eapply Forall_impl; [exact Hes|]. intros [k y] [Hk Hy]. exists k, (enc_prim F v y), [].
    rewrite app_nil_r. split_and!; [done..|by apply prim_json|constructor].
Qed.

Lemma value_text_starts l x : value_ok l x → starts (enc_value l x).
Proof using HF HW. intros Hx. destruct (value_json l x Hx) as (v & ws & -> & Hv & _). by apply starts_app, value_starts. Qed.
End values.

(** ** Writing *)

Section encoding.
Context (F : float_text) (w : walks).

(** The text of a member, without what separates it from the next. *)
Fixpoint enc_item (m : member content) (c : content) : bytes :=
  enc_key (sanitize (f_name m))
  ++ match c with
     | Leaf l x => enc_value F w l x
     | Object _ ms =>
         open_line
         ++ join comma_newline (concat ((λ m', if skipped m' then [] else [enc_item m' (f_value m')]) <$> ms))
         ++ close_line
     end.

Definition items (ms : list (member content)) : list bytes :=
  concat ((λ m, if skipped m then [] else [enc_item m (f_value m)]) <$> ms).

Definition enc_object (ms : list (member content)) : bytes :=
  open_line ++ join comma_newline (items ms) ++ close_line.
End encoding.

(** Every name can be a key, and every value has a text. *)
Fixpoint content_ok (m : member content) (c : content) : Prop :=
  plain_name (sanitize (f_name m)) ∧ sanitize (f_name m) ≠ []
  ∧ match c with
    | Leaf l x => value_ok l x
    | Object _ ms => foldr (λ m' P, content_ok m' (f_value m') ∧ P) True ms
    end.

Definition member_ok (m : member content) : Prop := content_ok m (f_value m).

Lemma json_members_ok ms : foldr (λ m P, content_ok m (f_value m) ∧ P) True ms ↔ Forall member_ok ms.
Proof. induction ms as [|m ms IH]; simpl; [done|]. by rewrite IH, Forall_cons. Qed.

(** [f] writes [s]. *)
Definition writes (f : iobuffer → outcome iobuffer) (s : bytes) : Prop :=
  ∀ b, wf b → ∃ b', f b = Done b' ∧ wrote s b b'.

Lemma writes_nil : writes Done [].
Proof. intros b Hw. exists b. split; [done|]. unfold wrote. by rewrite app_nil_r. Qed.

Lemma writes_bind f g s t : writes f s → writes g t → writes (λ b, b1 ← f b; g b1) (s ++ t).
Proof.
  intros Hf Hg b Hw. destruct (Hf b Hw) as (b1 & H1 & W1). destruct (Hg b1) as (b2 & H2 & W2); [apply W1|].
  exists b2. rewrite H1. split; [exact H2|]. by eapply wrote_trans.
Qed.

Section writing.
Context (F : float_text) `{HF : FloatText F} (junk : ascii) (w : walks) `{HW : Walks w}.

Lemma put_text_writes s : writes (put_text junk s) s.
Proof using Type.
  intros b Hw. destruct (put_string_raw_wrote junk s b Hw) as (b' & H1 & W1). exists b'. unfold put_text. by rewrite H1.
Qed.

Lemma put_char_writes c : writes (put_char junk c) [c].
Proof using Type.
  intros b Hw. destruct (put_wrote junk 1 (code c) b Hw) as (b' & H1 & W1). exists b'. unfold put_char. rewrite H1.
  split; [done|]. unfold le_bytes in W1. by rewrite chr_code in W1.
Qed.

Lemma put_chars_writes s : writes (put_chars junk s) s.
Proof using Type.
  induction s as [|c s IH]; [apply writes_nil|]. apply (writes_bind _ _ [c]); [apply put_char_writes|apply IH].
Qed.

Lemma writeString_writes s : writes (writeString junk s) (enc_text s).
Proof using Type.
  apply (writes_bind _ (λ b, b1 ← put_chars junk _ b; put_char junk quote b1) [quote]); [apply put_char_writes|].
  apply writes_bind; [apply put_chars_writes|apply put_char_writes].
Qed.

Lemma put_digits_writes s : length s ≤ 30 → writes (put_digits junk s) s.
Proof using Type.
  intros Hl b Hw. unfold put_digits. destruct (reserve_spare_keeps junk 30 b Hw) as (W0 & _ & Hc).
  assert (Hs : size (reserve_spare junk 30 b) = size b) by (by apply reserve_spare_keeps).
  destruct (Nat.ltb_spec (capacity (reserve_spare junk 30 b) - size (reserve_spare junk 30 b)) (length s)); [lia|].
  destruct (append_ok s (reserve_spare junk 30 b)) as (b' & H1 & W1 & _); [apply W0|lia|].
  exists b'. rewrite H1. split; [done|]. by eapply wrote_nil_l.
Qed.

Lemma put_number_writes t z : in_number t z → finite t z → writes (put_number junk F t z) (enc_number F t z).
Proof using HF.
  intros Hz Hfin. destruct (decide (t = Bool)) as [->|Ht]; [apply put_text_writes|].
  assert (Hl : length (if is_float t then float_print F t z else to_dec z) ≤ 30).
  { destruct (is_float t) eqn:Hfl; [pose proof (print_length t z Hfl Hz Hfin); lia|].
    pose proof (length_to_dec z (in_number_64 t z Hfl Hz)). lia. }
  destruct t; try done; by apply put_digits_writes.
Qed.

Lemma put_prim_writes a x : text_ok a x → writes (put_prim junk F a x) (enc_prim F a x).
Proof using HF. destruct a as [t|]; [intros []; by apply put_number_writes|intros _; apply writeString_writes]. Qed.

Lemma put_elements_writes a xs : Forall (text_ok a) xs →
  writes (put_elements junk F a true xs) (join comma_space (enc_prim F a <$> xs))
  ∧ writes (put_elements junk F a false xs) (concat ((λ x, comma_space ++ enc_prim F a x) <$> xs)).
Proof using HF.
  induction 1 as [|x xs Hx Hxs [_ IH]]; [split; apply writes_nil|]. split.
  - assert (Hj : join comma_space (enc_prim F a <$> x :: xs)
                 = enc_prim F a x ++ concat ((λ x, comma_space ++ enc_prim F a x) <$> xs)).
    { clear. revert x. induction xs as [|y xs IH]; intros x; [simpl; by rewrite app_nil_r|].
      rewrite fmap_cons, (fmap_cons _ y), join_cons, <- fmap_cons, IH. by rewrite fmap_cons; cbn [concat]; rewrite <- app_assoc. }
    rewrite Hj. apply (writes_bind (put_prim junk F a x)); [by apply put_prim_writes|exact IH].
  - rewrite fmap_cons. cbn [concat]. rewrite <- app_assoc.
    apply (writes_bind (λ b, b1 ← put_char junk "," b; put_char junk " " b1) _ comma_space).
    + apply (writes_bind _ _ [","%char] [" "%char]); apply put_char_writes.
    + apply (writes_bind (put_prim junk F a x)); [by apply put_prim_writes|exact IH].
Qed.

Lemma put_array_writes a xs : Forall (text_ok a) xs → writes (put_array junk F a xs) (enc_array F a xs).
Proof using HF.
  intros Hxs. apply (writes_bind _ (λ b, b2 ← put_elements junk F a true xs b; put_char junk "]" b2) ["["%char]).
  - apply put_char_writes.
  - apply writes_bind; [by apply put_elements_writes|apply put_char_writes].
Qed.

Lemma put_field_writes name body s : writes body s → writes (put_field junk name body) (enc_key name ++ s ++ comma_newline).
Proof using Type.
  intros Hb. unfold put_field, enc_key. cbn [app]. rewrite <- app_assoc. cbn [app].
  apply (writes_bind _ (λ b, b2 ← put_text junk name b; b3 ← put_text junk _ b2; b4 ← body b3; put_text junk _ b4) [quote]);
    [apply put_text_writes|].
  apply (writes_bind _ (λ b, b3 ← put_text junk _ b; b4 ← body b3; put_text junk _ b4)); [apply put_text_writes|].
  apply (writes_bind _ (λ b, b4 ← body b; put_text junk _ b4) ([quote] ++ str ": ")); [apply put_text_writes|].
  apply writes_bind; [done|apply put_text_writes].
Qed.

Lemma drop_comma_wrote s x y b b' : wrote (s ++ [x; y]) b b' → wrote s b (drop_comma junk b').
Proof using Type.
  intros (Hw & Hc & Hp). pose proof (length_content b' Hw) as Hl. rewrite Hc, !length_app in Hl. simpl in Hl.
  unfold drop_comma, resize. unfold wf in Hw. destruct (Nat.ltb_spec (capacity b') (size b' - 2)); [lia|].
  unfold wrote, wf, capacity, IoBuffer.content in *. simpl. split_and!; [lia| |done].
  apply (f_equal (take (size b' - 2))) in Hc. rewrite take_take, Nat.min_l in Hc by lia.
  rewrite Hc, app_assoc. apply take_app_length'. rewrite !length_app, length_take in *. lia.
Qed.

Lemma writes_ext f g s : (∀ b, f b = g b) → writes g s → writes f s.
Proof using Type. intros He Hg b Hw. rewrite He. by apply Hg. Qed.

Lemma writes_drop f g s t : writes f (s ++ comma_newline) → writes g t →
  writes (λ b, b1 ← f b; g (drop_comma junk b1)) (s ++ t).
Proof using Type.
  intros Hf Hg b Hw. destruct (Hf b Hw) as (b1 & H1 & W1%drop_comma_wrote).
  destruct (Hg (drop_comma junk b1)) as (b2 & H2 & W2); [apply W1|].
  exists b2. rewrite H1. split; [exact H2|]. by eapply wrote_trans.
Qed.

Lemma outcome_bind_assoc {A B C} (m : outcome A) (f : A → outcome B) (g : B → outcome C) :
  (m ≫= f) ≫= g = m ≫= (λ x, f x ≫= g).
Proof using Type. by destruct m. Qed.

Lemma put_multi_writes a n m : value_ok (Multi a n) m → writes (put_multi junk F a m) (enc_multi F a m).
Proof using HF.
  intros (_ & _ & _ & Hx). unfold put_multi, enc_multi. fold (wire_dims (MultiArray.dimensions m)).
  eapply writes_ext.
  { intros b. rewrite <- outcome_bind_assoc. rewrite <- outcome_bind_assoc. reflexivity. }
  match goal with |- writes _ ?s =>
    replace s with ((open_line ++ enc_key (str "dims") ++ enc_array F (Number Int32) (wire_dims (MultiArray.dimensions m))
                     ++ comma_newline ++ enc_key (str "values") ++ enc_array F a (MultiArray.elements m))
                    ++ (close_line ++ [newline])) by (by rewrite <- !app_assoc) end.
  apply (writes_drop _ (put_text junk (close_line ++ [newline]))); [|apply put_text_writes].
  rewrite <- !app_assoc. eapply writes_ext.
  { intros b. rewrite outcome_bind_assoc. reflexivity. }
  apply (writes_bind _ (λ b, b2 ← put_field junk _ _ b; put_field junk _ _ b2)); [apply put_text_writes|].
  rewrite 2!app_assoc. rewrite <- (app_assoc _ _ comma_newline).
  apply writes_bind; apply put_field_writes, put_array_writes; [apply dims_ok|done].
Qed.

Lemma join_lines sep l : l ≠ [] → concat ((λ i, i ++ sep) <$> l) = join sep l ++ sep.
Proof using Type.
  destruct l as [|x l]; [done|]. intros _. revert x. induction l as [|y l IH]; intros x.
  - rewrite fmap_cons. cbn [fmap list_fmap concat join]. by rewrite app_nil_r.
  - rewrite fmap_cons. cbn [concat]. rewrite IH, join_cons. by rewrite <- !app_assoc.
Qed.

Lemma put_entries_writes v es : Forall (λ e, plain_name e.1 ∧ text_ok v e.2) es →
  writes (put_entries junk F v es) (concat ((λ i, i ++ comma_newline) <$> (enc_entry F v <$> es))).
Proof using HF.
  induction 1 as [|[k x] es [_ Hx] _ IH]; [apply writes_nil|]. rewrite !fmap_cons. cbn [concat].
  apply (writes_bind (put_field junk k (put_prim junk F v x))); [|exact IH].
  unfold enc_entry. cbn [fst snd]. rewrite <- app_assoc. by apply put_field_writes, put_prim_writes.
Qed.

Lemma put_map_writes v es : es ≠ [] → Forall (λ e, plain_name e.1 ∧ text_ok v e.2) es →
  writes (put_map junk F v es) (enc_map F v es).
Proof using HF.
  intros Hne Hes. unfold put_map, enc_map. eapply writes_ext.
  { intros b. rewrite <- outcome_bind_assoc. reflexivity. }
  rewrite (app_assoc open_line). apply (writes_drop _ (put_text junk (close_line ++ [newline]))); [|apply put_text_writes].
  rewrite <- (app_assoc open_line), <- join_lines by (by destruct es).
  apply writes_bind; [apply put_text_writes|by apply put_entries_writes].
Qed.

Lemma put_value_writes l x : value_ok l x → writes (put_value junk w F l x) (enc_value F w l x).
Proof using HF HW.
  destruct l as [a|a|a n|a|[t|] v]; cbn [put_value value_ok enc_value]; intros Hx.
  - by apply put_prim_writes.
  - by apply put_array_writes.
  - by apply (put_multi_writes a n).
  - by apply put_array_writes, walk_set_text.
  - done.
  - destruct Hx as [Hne Hx].
    assert (Hp : walk_map w String v x ≡ₚ map_to_list x) by exact (walk_map_perm String v x).
    apply put_map_writes.
    + intros E. rewrite E in Hp. apply Permutation_nil in Hp. exact (Hne (proj1 (map_to_list_empty_iff (M:=gmap bytes) x) Hp)).
    + exact (all_entries _ x _ Hp Hx).
Qed.

(** *** Objects *)

Definition end_text (depth : Z) : bytes := if (depth =? 0)%Z then close_line else close_line ++ comma_newline.

(** The closing brace, after members or after none. *)
Lemma put_end_writes depth f p is_ :
  writes f (p ++ open_line ++ concat ((λ i, i ++ comma_newline) <$> is_)) →
  writes (λ b, b1 ← f b; put_end junk depth b1) (p ++ open_line ++ join comma_newline is_ ++ end_text depth).
Proof using Type.
  intros Hf b Hw. destruct (Hf b Hw) as (b1 & H1 & W1). rewrite H1. cbn [mbind outcome_bind].
  assert (Hat : ∀ s x y, wrote (s ++ [x; y]) b b1 → at_ (size b1 - 2) b1 = Done x).
  { intros s x y (Hw1 & Hc & _). pose proof (length_content b1 Hw1) as Hl. rewrite Hc, !length_app in Hl. simpl in Hl.
    unfold at_. destruct (Nat.leb_spec (size b1) (size b1 - 2)); [lia|].
    assert (Hm : IoBuffer.content b1 !! (size b1 - 2) = Some x).
    { rewrite Hc, app_assoc. apply list_lookup_middle. rewrite length_app. lia. }
    unfold IoBuffer.content in Hm. apply lookup_take_Some in Hm as [Hm _]. by rewrite Hm. }
  assert (Hend : put_text junk (end_text depth) = put_text junk
    (if (depth =? 0)%Z then [newline] ++ str "}" else [newline] ++ str "}," ++ [newline]))
    by (unfold end_text; by destruct (depth =? 0)%Z).
  unfold put_end. rewrite <- Hend. destruct (decide (is_ = [])) as [->|Hne].
  - cbn [fmap list_fmap concat join] in *. rewrite app_nil_r in W1. rewrite (Hat p _ _ W1). cbn [mbind outcome_bind].
    change (eqc "{" ",") with false. cbn iota zeta.
    destruct (put_text_writes (end_text depth) b1) as (b2 & H2 & W2); [apply W1|]. exists b2. split; [exact H2|].
    rewrite app_assoc. by eapply wrote_trans.
  - rewrite join_lines in W1 by done. rewrite !app_assoc in W1. rewrite (Hat _ _ _ W1). cbn [mbind outcome_bind].
    change (eqc "," ",") with true. cbn iota zeta. apply drop_comma_wrote in W1.
    destruct (put_text_writes (end_text depth) (drop_comma junk b1)) as (b2 & H2 & W2); [apply W1|].
    exists b2. split; [exact H2|]. rewrite !app_assoc. by eapply wrote_trans.
Qed.

Lemma put_start_writes depth name : (0 < depth)%Z → name ≠ [] → writes (put_start junk depth name) (enc_key name ++ open_line).
Proof using Type.
  intros Hd Hn. unfold put_start, enc_key. rewrite (proj2 (Z.ltb_lt _ _)) by done.
  replace (0 <? length name) with true by (by destruct name). cbn [andb].
  apply (writes_bind (λ b, b1 ← put_text junk [quote] b; b2 ← put_text junk name b1; put_text junk _ b2)); [|apply put_text_writes].
  apply (writes_bind _ (λ b, b2 ← put_text junk name b; put_text junk _ b2) [quote]); [apply put_text_writes|].
  apply writes_bind; apply put_text_writes.
Qed.

Lemma each_member_writes {A} (f : A → iobuffer → outcome iobuffer) (s : A → bytes) xs :
  Forall (λ x, writes (f x) (s x)) xs → writes (each_member f xs) (concat (s <$> xs)).
Proof using Type. induction 1 as [|x xs Hx _ IH]; [apply writes_nil|]. by apply (writes_bind (f x)). Qed.

(** The lines of the members that are written. *)
Definition line (m : member content) (c : content) : bytes :=
  if skipped m then [] else enc_item F w m c ++ comma_newline.

Lemma lines_items ms :
  concat ((λ m, line m (f_value m)) <$> ms) = concat ((λ i, i ++ comma_newline) <$> items F w ms).
Proof using Type.
  unfold items, line. induction ms as [|m ms IH]; [done|]. rewrite !fmap_cons. cbn [concat].
  rewrite IH. destruct (skipped m); [done|]. cbn [app]. by rewrite fmap_cons.
Qed.

Lemma depth_member m ms : m ∈ ms → SerialiserSpec.depth (f_value m) ≤ SerialiserSpec.fields_depth ms.
Proof using Type.
  intros Hm. unfold SerialiserSpec.fields_depth. induction ms as [|m1 ms IH]; [by apply elem_of_nil in Hm|].
  apply elem_of_cons in Hm as [->|Hm]; simpl; [lia|]. specialize (IH Hm). lia.
Qed.

Lemma put_member_writes c : ∀ depth m,
  content_ok m c → (0 < depth)%Z → (depth + Z.of_nat (SerialiserSpec.depth c) < 255)%Z →
  writes (put_member junk w F depth m c) (line m c).
Proof using HF HW.
  induction c as [l x|n ms IH] using content_nested_ind; intros depth m (Hn & Hne & Hc) Hd0 Hd;
    unfold line; cbn [put_member enc_item]; change (f_pointer m && f_null m) with (skipped m);
    (destruct (skipped m); [apply writes_nil|]).
  - rewrite <- app_assoc. by apply put_field_writes, put_value_writes.
  - apply json_members_ok in Hc. rewrite <- app_assoc. eapply writes_ext.
    { intros b. rewrite <- outcome_bind_assoc. reflexivity. }
    assert (Hbody : writes (λ b, b1 ← put_start junk depth (sanitize (f_name m)) b;
        each_member (λ m', put_member junk w F (wrapu 8 (depth + 1)) m' (f_value m')) ms b1)
        (enc_key (sanitize (f_name m)) ++ open_line ++ concat ((λ i, i ++ comma_newline) <$> items F w ms))).
    { rewrite <- lines_items, app_assoc. apply writes_bind; [by apply put_start_writes|]. apply each_member_writes.
      rewrite Forall_forall in *. intros m' Hm'.
      assert (Hdm : SerialiserSpec.depth (f_value m') < SerialiserSpec.depth (Object n ms)).
      { pose proof (depth_member m' ms Hm'). unfold SerialiserSpec.fields_depth in *. cbn [SerialiserSpec.depth]. lia. }
      rewrite wrapu_id by (unfold in_u; lia). apply IH; [done|by apply Hc|lia|lia]. }
    fold (items F w ms). pose proof (put_end_writes depth _ _ _ Hbody) as Hend. unfold end_text in Hend.
    rewrite (proj2 (Z.eqb_neq _ _)) in Hend by lia. by rewrite <- !app_assoc.
Qed.

Lemma serialise_writes name ms :
  Forall member_ok ms → SerialiserSpec.fields_depth ms < 254 → writes (serialise junk w F name ms) (enc_object F w ms).
Proof using HF HW.
  intros Hok Hd. unfold serialise, enc_object. eapply writes_ext.
  { intros b. rewrite <- outcome_bind_assoc. reflexivity. }
  assert (Hbody : writes (λ b, b1 ← put_start junk 0 (sanitize name) b;
      each_member (λ m, put_member junk w F 1 m (f_value m)) ms b1)
      ([] ++ open_line ++ concat ((λ i, i ++ comma_newline) <$> items F w ms))).
  { rewrite <- lines_items. cbn [app]. apply writes_bind.
    - unfold put_start. rewrite andb_false_r. apply put_text_writes.
    - apply each_member_writes. rewrite Forall_forall in *. intros m Hm. apply put_member_writes; [by apply Hok|lia|].
      pose proof (depth_member m ms Hm). lia. }
  exact (put_end_writes 0 _ [] _ Hbody).
Qed.
End writing.
