(* ===== verification/JsonSpec.v ===== *)
(** * JsonSpec: reading what was written as JSON

    Reading a written object merges its members into those of the object that is
    read, as the specification of BareSpec without texts says. *)

From S2P Require Import Prelude Text IoBuffer Yas YasHeader Serialiser BareSpec Json JsonText JsonValues.
From S2P Require SerialiserSpec.
Local Open Scope nat_scope.

(** ** The specification *)

(** Every value can be read past. *)
Definition json_unknown_type (c : content) : outcome Z :=
  Done (match c with Leaf l _ => data_type_id l | Object _ _ => START_ID end).

Definition json_merge (check : ProtocolCheck) : list (member content) → list (member content) → info → outcome (list (member content) * info) :=
  merge_members check no_meta json_unknown_type.

(** ** Reading an object *)

(** The members that are still to be read, after [sep]. *)
Definition lines_text (sep : bytes) (l : list bytes) : bytes :=
  match l with
  | [] => close_line
  | i :: l' => sep ++ i ++ concat ((λ j, comma_newline ++ j) <$> l') ++ close_line
  end.

Lemma lines_text_cons sep i l : lines_text sep (i :: l) = sep ++ i ++ lines_text comma_newline l.
Proof. destruct l as [|j l]; [done|]. cbn [lines_text]. rewrite fmap_cons. cbn [concat]. by rewrite <- !app_assoc. Qed.

Lemma join_tail i l : join comma_newline (i :: l) = i ++ concat ((λ j, comma_newline ++ j) <$> l).
Proof.
  revert i. induction l as [|j l IH]; intros i; [by rewrite app_nil_r|].
  rewrite join_cons, IH, fmap_cons. cbn [concat]. by rewrite <- !app_assoc.
Qed.

(** What stands between the braces of an object. *)
Lemma near_lines b l rest :
  near b ([newline] ++ join comma_newline l ++ close_line ++ rest) → near b (lines_text [newline] l ++ rest).
Proof.
  destruct l as [|i l].
  - cbn [join]. intros Hn. rewrite near_white in Hn by (by repeat constructor). exact Hn.
  - rewrite join_tail. cbn [lines_text]. by rewrite <- !app_assoc.
Qed.

Lemma stops_lines l rest : stops (lines_text comma_newline l ++ rest).
Proof. destruct l; by eexists _, _. Qed.

Section objects.
Context (F : float_text) `{HF : FloatText F} (w : walks) `{HW : Walks w} (check : ProtocolCheck).

(** Fields of this format have neither unit nor quantity. *)
Definition bare (f : field) : Prop := fieldMeta f = no_meta.

(** One turn of the loop, up to the member the field belongs to. *)
Definition after_header (fuel : nat) (parent : bytes) (f1 : field) (prev : Z) (s : state) : outcome state :=
  let '(ms, i, b2) := s in
  match findMemberIndex (fieldName f1) ms with
  | None =>
      i1 ← report check (MissingField parent (fieldName f1)) i;
      b3 ← skip_unknown f1 b2;
      loop F check fuel parent f1 (ms, add_field check parent (fieldName f1) (intDataType f1) i1, b3)
  | Some idx =>
      m ← defined (ms !! idx);
      '(m', i1, b3, f2) ← read_field F check (λ n fp, enter check (loop F check fuel (fieldName fp)) n fp) parent
                            prev idx m f1 i b2;
      '(i2, b4) ← finish_field check f2 i1 b3;
      loop F check fuel parent f2 (<[idx := m']> ms, i2, b4)
  end.

Lemma near_inside b s c t : near b (s ++ c :: t) → isWhitespace c = false → position b < size b.
Proof using Type.
  intros (ws & Hws & Ha) Hc. pose proof (ahead_length b _ Ha) as Hl. rewrite length_app in Hl.
  assert (0 < length (strip (s ++ c :: t))); [|lia].
  clear -Hc. induction s as [|d s IH]; cbn [app]; [rewrite strip_head by done; simpl; lia|].
  unfold strip in *. cbn [drop_while]. destruct (isWhitespace d); [exact IH|simpl; lia].
Qed.

Lemma json_loop_turn fuel parent f ms i b sep name c v :
  separator sep → plain_name name → name ≠ [] → isWhitespace c = false → near b (sep ++ enc_key name ++ c :: v) →
  ∃ h b',
    let f1 := with_header h (position b') name (if eqc c "{" then START_ID else ANY_ID) f in
    loop F check (S fuel) parent f (ms, i, b) = after_header fuel parent f1 (subfields f) (ms, i, b')
    ∧ ahead b' (if eqc c "{" then v else c :: v) ∧ reading b b' ∧ near (set_position h b) (enc_key name ++ c :: v).
Proof using Type.
  intros Hsep Hname Hne Hc Hn.
  destruct (header_key check f i b sep name c v Hsep Hname Hne Hc Hn) as (h & b' & E & A & R & N).
  exists h, b'. split; [|done]. cbn [loop]. rewrite (proj2 (Nat.ltb_lt _ _)).
  2:{ unfold enc_key in Hn. cbn [app] in Hn. by apply (near_inside b sep quote _ Hn). }
  rewrite E. cbn [mbind outcome_bind intDataType with_header dataStartPosition fieldName]. rewrite Nat2Z.id, set_position_same.
  replace ((if eqc c "{" then START_ID else ANY_ID) =? END_ID)%Z with false by (by destruct (eqc c "{")).
  cbn iota. reflexivity.
Qed.

Lemma json_loop_end fuel parent f ms i b rest :
  near b (close_line ++ rest) →
  ∃ b', loop F check (S fuel) parent f (ms, i, b) = Done (ms, i, b') ∧ ahead b' rest ∧ reading b b'.
Proof using Type.
  intros Hn. destruct (header_end check f i b [newline] rest separator_line Hn) as (h & b' & E & A & R).
  exists b'. split; [|done]. cbn [loop]. rewrite (proj2 (Nat.ltb_lt _ _)) by (by apply (near_inside b [newline] "}" rest Hn)).
  rewrite E. cbn [mbind outcome_bind intDataType with_header dataStartPosition]. by rewrite Nat2Z.id, set_position_same.
Qed.

(** What one written member does to the loop. *)
Definition turn_spec (c : content) : Prop :=
  ∀ m fuel parent f ms i b sep l rest,
    skipped m = false → content_ok m c → separator sep → bare f → (0 ≤ hierarchyDepth f)%Z →
    (hierarchyDepth f + Z.of_nat (SerialiserSpec.depth c) < 255)%Z → SerialiserSpec.weight c ≤ fuel →
    (Z.of_nat (size b) < 2 ^ 64)%Z → near b (sep ++ enc_item F w m c ++ lines_text comma_newline l ++ rest) →
    match assign check no_meta json_unknown_type parent m c (ms, i) with
    | Done (ms', i') =>
        ∃ f' b', hierarchyDepth f' = hierarchyDepth f ∧ bare f' ∧ near b' (lines_text comma_newline l ++ rest)
          ∧ reading b b'
          ∧ loop F check (S fuel) parent f (ms, i, b) = loop F check fuel parent f' (ms', i', b')
    | Thrown => loop F check (S fuel) parent f (ms, i, b) = Thrown
    | _ => True
    end.

Lemma skip_unknown_reads f b v ws t :
  dataEndPosition f = no_end → json_value v → white ws → stops t →
  ahead (if (intDataType f =? START_ID)%Z
         then set_position (Z.to_nat (wrapu 64 (dataStartPosition f - 1))) b else b) (v ++ ws ++ t) →
  ∃ b', skip_unknown f b = Done b' ∧ near b' t ∧ reading b b'.
Proof using Type.
  intros He Hv Hws Ht Ha. unfold skip_unknown. rewrite He, Z.eqb_refl.
  assert (Hst : stops (ws ++ t)) by (destruct Ht as (c & t' & -> & Hc); by apply stops_white).
  destruct (json_skipped v [] (ws ++ t) _ Hv ltac:(constructor) Hst Ha) as (b' & E & N & R).
  exists b'. split; [exact E|]. rewrite near_white in N by done. split; [done|].
  by destruct (intDataType f =? START_ID)%Z.
Qed.

Lemma strip_suffix s c t : isWhitespace c = false → ∃ p, strip (s ++ c :: t) = p ++ c :: t.
Proof using Type.
  intros Hc. induction s as [|d s (p & IH)]; cbn [app]; [exists []; by apply strip_head|].
  unfold strip in *. cbn [drop_while]. destruct (isWhitespace d); [by exists p|by exists (d :: s)].
Qed.

(** Back to the brace in front of the text of an object. *)
Lemma brace_back b b' s c t :
  isWhitespace c = false → near b (s ++ c :: t) → ahead b' t → reading b b' → (Z.of_nat (size b) < 2 ^ 64)%Z →
  ahead (set_position (Z.to_nat (wrapu 64 (Z.of_nat (position b') - 1))) b') (c :: t).
Proof using Type.
  intros Hc (ws & _ & Ha) Ha' R Hs. destruct (strip_suffix s c t Hc) as (p & Hp). rewrite Hp in Ha.
  assert (Ha2 : ahead b (((ws ++ p) ++ [c]) ++ t)) by (by rewrite <- !app_assoc).
  pose proof (ahead_eq b b' _ t Ha2 Ha' R) as ->. rewrite <- app_assoc in Ha2. cbn [app] in Ha2.
  pose proof (ahead_length b _ Ha2) as Hl. apply ahead_forward in Ha2. rewrite length_app in *. cbn [length] in *.
  unfold forward in *. cbn [position set_position] in *.
  rewrite wrapu_id by (unfold in_u; lia). replace (Z.to_nat _) with (position b + length (ws ++ p)) by lia.
  by rewrite length_app.
Qed.

Lemma enc_prim_head a x : text_ok a x → ∃ c s, enc_prim F a x = c :: s ∧ isWhitespace c = false ∧ c ≠ "{"%char.
Proof using HF.
  intros Hx. pose proof (enc_prim_starts F a x Hx) as (c & s & Hc & Hw). exists c, s. split_and!; [done..|].
  assert (Hnum : ∀ u, Forall (λ c, isNumberChar c = true) u → u = c :: s → c ≠ "{"%char).
  { intros u Hu ->. apply Forall_cons in Hu as [Hu _]. by intros ->. }
  destruct a as [t|]; cbn [enc_prim text_ok] in *; [|unfold enc_text in Hc; by injection Hc as <- _].
  destruct Hx as [Hz Hfin]. unfold enc_number in Hc.
  destruct t; cbn [is_float] in Hc; try (by apply (Hnum _ (to_dec_number x) Hc));
    try (by refine (Hnum _ (print_chars _ x _ Hz Hfin) Hc)).
  destruct (x =? 0)%Z; by injection Hc as <- _.
Qed.

(** A brace is written for the types that are announced as classes. *)
Lemma enc_value_head l x : value_ok l x →
  ∃ c s, enc_value F w l x = c :: s ∧ isWhitespace c = false ∧ eqc c "{" = (data_type_id l =? START_ID)%Z.
Proof using HF HW.
  destruct l as [a|a|a n|a|[t|] v]; cbn [enc_value value_ok data_type_id]; intros Hx.
  - destruct (enc_prim_head a x Hx) as (c & s & Hc & Hw & Hn). exists c, s. split_and!; [done..|by apply eqc_ne].
  - by eexists _, _.
  - by eexists _, _.
  - by eexists _, _.
  - done.
  - by eexists _, _.
Qed.

Lemma json_finish f i b : dataEndPosition f = no_end → finish_field check f i b = Done (i, b).
Proof using Type. intros He. unfold finish_field. rewrite He. reflexivity. Qed.

Lemma json_turn_leaf l x : turn_spec (Leaf l x).
Proof using HF HW.
  intros m fuel parent f ms i b sep ls rest Hsk (Hn & Hne & Hx) Hsep Hbare Hd0 Hd Hfuel Hs Hr.
  cbn [enc_item assign] in *. rewrite Hsk. set (name := sanitize (f_name m)) in *.
  destruct (enc_value_head l x Hx) as (c & v & Hc & Hw & Hid).
  pose proof (stops_lines ls rest) as Hst. set (t := lines_text comma_newline ls ++ rest) in *.
  rewrite <- app_assoc, Hc in Hr. cbn [app] in Hr.
  destruct (json_loop_turn fuel parent f ms i b sep name c (v ++ t) Hsep Hn Hne Hw Hr) as (h & b' & E & A & R & _).
  rewrite E. clear E. rewrite Hid in *.
  replace (if (data_type_id l =? START_ID)%Z then START_ID else ANY_ID) with (data_type_id l) by (by destruct l).
  set (f1 := with_header _ _ _ _ _). unfold after_header.
  change (fieldName f1) with name.
  destruct (findMemberIndex name ms) as [idx|] eqn:Hfind.
  - destruct (SerialiserSpec.findMemberIndex_lookup _ _ _ Hfind) as (t0 & Ht & _). rewrite Ht. cbn [defined mbind outcome_bind].
    unfold read_field. destruct (f_value t0) as [l0 x0|n0 ms0] eqn:Hv; [|done].
    case_bool_decide as Hl; [|done]. subst l0. cbn [negb orb].
    destruct (is_map l) eqn:Hmap; [done|]. unfold read_value.
    assert (Hty : negb (data_type_id l =? intDataType f1)%Z && negb (data_type_id l =? ANY_ID)%Z = false)
      by (unfold f1; cbn [intDataType with_header]; by destruct l).
    rewrite Hty. change (fieldMeta f1) with (fieldMeta f). rewrite Hbare.
    destruct (check_annotation _ _ _ _ _) as [[[] i1]| | |]; [|done..]. cbn [mbind outcome_bind].
    destruct (json_value_reads F w f1 l x x0 b' t) as (b2 & E2 & N2 & R2); [by intros k v0 ->|done|done| |].
    { rewrite Hc. by destruct (data_type_id l =? START_ID)%Z. }
    rewrite E2. cbn [mbind outcome_bind]. destruct (set_field _ _ _ _) as [i2| | |]; [|done..]. cbn [mbind outcome_bind].
    rewrite json_finish by done. cbn [mbind outcome_bind].
    exists f1, b2. split_and!; try done. by eapply reading_trans.
  - destruct (report _ _ _) as [i1| | |]; [|done..]. cbn [mbind outcome_bind].
    destruct (value_json F w l x Hx) as (u & ws & Hu & Hju & Hws). rewrite Hc in Hu.
    destruct (skip_unknown_reads f1 b' u ws t ltac:(done) Hju Hws Hst) as (b2 & E2 & N2 & R2).
    { rewrite app_assoc, <- Hu. cbn [app]. change (intDataType f1) with (data_type_id l).
      change (dataStartPosition f1) with (Z.of_nat (position b')).
      destruct (data_type_id l =? START_ID)%Z; [|exact A].
      apply (brace_back b b' (sep ++ enc_key name)); try done. by rewrite <- app_assoc. }
    rewrite E2. cbn [mbind outcome_bind].
    exists f1, b2. split_and!; try done. by eapply reading_trans.
Qed.

(** The written members, to the closing brace. *)
Lemma json_fields_read ws :
  Forall (λ m, turn_spec (f_value m)) ws →
  ∀ fuel parent f ms i b sep rest,
    Forall member_ok ws → separator sep → bare f → (0 ≤ hierarchyDepth f)%Z →
    (hierarchyDepth f + Z.of_nat (SerialiserSpec.fields_depth ws) < 255)%Z → SerialiserSpec.fields_weight ws ≤ fuel →
    (Z.of_nat (size b) < 2 ^ 64)%Z → near b (lines_text sep (items F w ws) ++ rest) →
    match SerialiserSpec.merge_each (λ m, assign check no_meta json_unknown_type parent m (f_value m)) ws (ms, i) with
    | Done (ms', i') =>
        ∃ b', loop F check fuel parent f (ms, i, b) = Done (ms', i', b') ∧ ahead b' rest ∧ reading b b'
    | Thrown => loop F check fuel parent f (ms, i, b) = Thrown
    | _ => True
    end.
Proof using HF HW.
  induction 1 as [|m ws Hm _ IH]; intros fuel parent f ms i b sep rest Hok Hsep Hbare Hd0 Hd Hfuel Hs Hr.
  - destruct fuel as [|fuel]; [unfold SerialiserSpec.fields_weight in Hfuel; simpl in Hfuel; lia|]. by apply json_loop_end.
  - apply Forall_cons in Hok as [Hmok Hok]. unfold SerialiserSpec.fields_depth, SerialiserSpec.fields_weight in *.
    cbn [foldr SerialiserSpec.merge_each] in *. unfold items in Hr. rewrite fmap_cons in Hr. cbn [concat] in Hr.
    destruct (skipped m) eqn:Hsk.
    + rewrite bare_assign_skipped by done. cbn [mbind outcome_bind app] in *.
      apply (IH fuel parent f ms i b sep rest); try done; lia.
    + destruct fuel as [|fuel]; [lia|].
      assert (Hw1 : 1 ≤ SerialiserSpec.weight (f_value m)) by (destruct (f_value m); simpl; lia).
      cbn [app] in Hr. fold (items F w ws) in Hr. rewrite lines_text_cons, <- !app_assoc in Hr.
      pose proof (Hm m fuel parent f ms i b sep (items F w ws) rest Hsk Hmok Hsep Hbare Hd0 ltac:(lia) ltac:(lia) Hs Hr)
        as Hturn.
      destruct (assign _ _ _ _ _) as [[ms1 i1]| | |]; [|exact Hturn|done|done].
      destruct Hturn as (f1 & b1 & Hf1 & Hb1 & N1 & R1 & ->). cbn [mbind outcome_bind].
      pose proof (IH fuel parent f1 ms1 i1 b1 comma_newline rest Hok separator_comma Hb1 ltac:(lia) ltac:(lia) ltac:(lia)
                    ltac:(by rewrite (proj2 R1)) N1) as Hrec.
      destruct (SerialiserSpec.merge_each _ _ _) as [[ms' i']| | |]; [|exact Hrec|done|done].
      destruct Hrec as (b' & -> & A' & R'). exists b'. split_and!; [done..|]. by eapply reading_trans.
Qed.

(** A nested object: its key is read a second time. *)
Lemma json_enter_nested ws fuel n0 fp ms0 i b rest :
  Forall (λ m, turn_spec (f_value m)) ws → Forall member_ok ws → plain_name (fieldName fp) → fieldName fp ≠ [] →
  (Z.of_nat (size b) < 2 ^ 64)%Z →
  (0 < hierarchyDepth fp)%Z → (hierarchyDepth fp + Z.of_nat (SerialiserSpec.fields_depth ws) < 255)%Z →
  SerialiserSpec.fields_weight ws ≤ fuel →
  near b (enc_key (fieldName fp) ++ open_line ++ join comma_newline (items F w ws) ++ close_line ++ rest) →
  match SerialiserSpec.merge_each (λ m, assign check no_meta json_unknown_type (fieldName fp) m (f_value m)) ws
          (ms0, init_fields check (fieldName fp) (length ms0) i) with
  | Done (ms', i') =>
      ∃ b', enter check (loop F check fuel (fieldName fp)) n0 fp (ms0, i, b) = Done (ms', i', b')
        ∧ ahead b' rest ∧ reading b b'
  | Thrown => enter check (loop F check fuel (fieldName fp)) n0 fp (ms0, i, b) = Thrown
  | _ => True
  end.
Proof using HF HW.
  intros Hws Hok Hn Hne Hs Hd0 Hd Hfuel Hr. unfold enter. set (f0 := mkfield _ _ _ _ _ _ _ _).
  set (i0 := init_fields check (fieldName fp) (length ms0) i).
  destruct (header_key check f0 i0 b [] (fieldName fp) "{" _ ltac:(left; constructor) Hn Hne eq_refl Hr)
    as (h & b1 & E & A & R & _). rewrite E. clear E.
  change (eqc "{" "{") with true in *. cbn iota in *. cbn [mbind outcome_bind hierarchyDepth with_header dataStartPosition f0].
  rewrite (proj2 (Z.eqb_neq _ _)) by lia. cbn [andb report_if mbind outcome_bind].
  rewrite Nat2Z.id, set_position_same.
  apply ahead_near, (near_lines b1 (items F w ws) rest) in A.
  pose proof (json_fields_read ws Hws fuel (fieldName fp) (with_header h (position b1) (fieldName fp) START_ID f0) ms0 i0
                b1 [newline] rest Hok separator_line ltac:(done) ltac:(simpl; lia) ltac:(simpl; lia) Hfuel
                ltac:(by rewrite (proj2 R)) A) as Hl.
  destruct (SerialiserSpec.merge_each _ _ _) as [[ms' i']| | |]; [|exact Hl|done|done].
  destruct Hl as (b' & E & A' & R'). exists b'. split_and!; [exact E|done|]. by eapply reading_trans.
Qed.


Lemma item_text c : ∀ m, content_ok m c → field_text (enc_item F w m c).
Proof using HF HW.
  induction c as [l x|n ws IH] using content_nested_ind; intros m (Hn & Hne & Hc); cbn [enc_item].
  - destruct (value_json F w l x Hc) as (v & s & -> & Hv & Hs). by eexists _, _, _.
  - apply json_members_ok in Hc. eexists _, _, []. split_and!; [by rewrite app_nil_r|done| |constructor].
    apply object_json. induction ws as [|m' ws IHws]; [constructor|].
    apply Forall_cons in IH as [IHm IH]. apply Forall_cons in Hc as [Hm Hc]. rewrite fmap_cons. cbn [concat].
    apply Forall_app. split; [|by apply IHws]. destruct (skipped m'); [constructor|].
    apply Forall_cons_2; [by apply IHm|constructor].
Qed.

Lemma items_text ws : Forall member_ok ws → Forall field_text (items F w ws).
Proof using HF HW.
  unfold items. induction 1 as [|m ws Hm _ IH]; [constructor|]. rewrite fmap_cons. cbn [concat].
  apply Forall_app. split; [|done]. destruct (skipped m); [constructor|]. apply Forall_cons_2; [by apply item_text|constructor].
Qed.

Lemma json_turn_object n ws : Forall (λ m, turn_spec (f_value m)) ws → turn_spec (Object n ws).
Proof using HF HW.
  intros Hws m fuel parent f ms i b sep ls rest Hsk (Hn & Hne & Hok%json_members_ok) Hsep Hbare Hd0 Hd Hfuel Hs Hr.
  cbn [enc_item assign] in *. rewrite Hsk. set (name := sanitize (f_name m)) in *. fold (items F w ws) in Hr.
  pose proof (stops_lines ls rest) as Hst. set (t := lines_text comma_newline ls ++ rest) in *.
  set (body := newline :: join comma_newline (items F w ws) ++ close_line).
  assert (Hr1 : near b (sep ++ enc_key name ++ "{"%char :: body ++ t))
    by (unfold body; unfold open_line in Hr; rewrite <- !app_assoc in Hr; cbn [app] in *; by rewrite <- app_assoc).
  destruct (json_loop_turn fuel parent f ms i b sep name "{" (body ++ t) Hsep Hn Hne eq_refl Hr1) as (h & b' & E & A & R & N).
  change (eqc "{" "{") with true in *. cbn iota in *. rewrite E. clear E.
  set (f1 := with_header _ _ _ _ _). unfold after_header. change (fieldName f1) with name.
  destruct (findMemberIndex name ms) as [idx|] eqn:Hfind.
  - destruct (SerialiserSpec.findMemberIndex_lookup _ _ _ Hfind) as (t0 & Ht & Hnt). rewrite Ht. cbn [defined mbind outcome_bind].
    unfold read_field. destruct (f_value t0) as [l0 x0|n0 ms0] eqn:Hv; [done|].
    set (f2 := with_depth (hierarchyDepth f1 + 1) _). cbn [SerialiserSpec.depth SerialiserSpec.weight] in Hd, Hfuel.
    assert (Hd1 : hierarchyDepth f2 = (hierarchyDepth f + 1)%Z) by (apply wrapu_id; unfold in_u; simpl; lia).
    assert (Hn1 : fieldName f2 = name) by exact Hnt.
    assert (Hb : set_position (Z.to_nat (headerStart f1)) b' = set_position h b).
    { unfold f1. cbn [headerStart with_header]. rewrite Nat2Z.id. destruct R as [Rm Rs]. destruct b, b'. simpl in *. by subst. }
    rewrite Hb.
    pose proof (json_enter_nested ws fuel n0 f2 ms0 i (set_position h b) t Hws Hok ltac:(by rewrite Hn1)
                  ltac:(by rewrite Hn1) Hs ltac:(lia) ltac:(unfold SerialiserSpec.fields_depth; lia)
                  ltac:(unfold SerialiserSpec.fields_weight; lia)) as Henter.
    rewrite Hn1 in Henter |- *. specialize (Henter ltac:(unfold body in N; unfold open_line; cbn [app] in *; by rewrite <- app_assoc in N)).
    destruct (SerialiserSpec.merge_each _ _ _) as [[ms'' i']| | |]; [|by rewrite Henter|done|done].
    destruct Henter as (b2 & -> & A2 & R2). cbn [mbind outcome_bind].
    destruct (set_field _ _ _ _) as [i2| | |]; [|done..]. cbn [mbind outcome_bind].
    rewrite json_finish by done. cbn [mbind outcome_bind]. eexists _, b2. split; [|split; [|split; [|split; [|reflexivity]]]].
    + cbn [hierarchyDepth with_subfields with_depth]. rewrite Hd1. rewrite wrapu_id by (unfold in_u; lia). lia.
    + exact Hbare.
    + by apply ahead_near.
    + exact R2.
  - destruct (report _ _ _) as [i1| | |]; [|done..]. cbn [mbind outcome_bind].
    destruct (skip_unknown_reads f1 b' ("{"%char :: body) [] t ltac:(done)) as (b2 & E2 & N2 & R2).
    { exact (object_json _ (items_text ws Hok)). }
    { constructor. } { done. }
    { change (intDataType f1 =? START_ID)%Z with true. cbn iota. change (dataStartPosition f1) with (Z.of_nat (position b')).
      cbn [app]. apply (brace_back b b' (sep ++ enc_key name)); try done. by rewrite <- app_assoc. }
    rewrite E2. cbn [mbind outcome_bind]. exists f1, b2. split_and!; try done. by eapply reading_trans.
Qed.

Lemma json_turn_all c : turn_spec c.
Proof using HF HW.
  induction c as [l x|n ms IH] using content_nested_ind; [apply json_turn_leaf|by apply json_turn_object].
Qed.

Lemma json_deserialise_object fuel name ms ws i b :
  exceptions i = [] → Forall member_ok ws → (Z.of_nat (size b) < 2 ^ 64)%Z → SerialiserSpec.fields_depth ws < 254 →
  SerialiserSpec.fields_weight ws ≤ fuel → ahead b (enc_object F w ws) →
  SerialiserSpec.implements (json_merge check ms ws i) (deserialise F check fuel name ms i b) b.
Proof using HF HW.
  intros Hi Hok Hs Hd Hfuel Ha. unfold deserialise, json_merge, merge_members, merge_fields, SerialiserSpec.implements.
  rewrite Hi, (bool_decide_eq_true_2 ([] = [])) by done. cbn [negb]. rewrite andb_false_r.
  unfold enter. set (f0 := mkfield _ _ _ (-1) [] _ _ _).
  cbn [fieldName]. set (i0 := init_fields check ROOT_NAME (length ms) i).
  unfold enc_object, open_line in Ha. cbn [app] in Ha.
  destruct (header_start check f0 i0 b [] _ ltac:(left; constructor) (ahead_near _ _ Ha)) as (h & b1 & E & A & R).
  rewrite E. clear E. cbn [mbind outcome_bind fieldName hierarchyDepth with_header dataStartPosition f0].
  rewrite (bool_decide_eq_true_2 ([] = [])) by done. rewrite andb_false_r. cbn [report_if mbind outcome_bind].
  rewrite Nat2Z.id. fold (forward 1 b1). apply (ahead_forward b1 ["{"%char]) in A. cbn [length] in A.
  rewrite <- (app_nil_r close_line) in A. apply ahead_near, (near_lines _ (items F w ws) []) in A.
  match goal with |- context [loop F check fuel ROOT_NAME ?f1 _] =>
    pose proof (json_fields_read ws ltac:(apply Forall_true; intros m; apply json_turn_all) fuel ROOT_NAME f1 ms i0
                  (forward 1 b1) [newline] [] Hok separator_line ltac:(done) ltac:(simpl; lia) ltac:(simpl; lia) Hfuel
                  ltac:(cbn [size forward set_position]; by rewrite (proj2 R)) A) as Hl end.
  destruct (SerialiserSpec.merge_each _ _ _) as [[ms' i']| | |]; [|exact Hl|done|done].
  destruct Hl as (b' & -> & A' & R'). do 2 f_equal.
  pose proof (ahead_length b' _ A') as Hl. cbn [length] in Hl.
  assert (Rb : reading b b') by (eapply reading_trans; [exact R|exact R']).
  rewrite <- (set_position_reading b b' Rb). f_equal. destruct Rb as [_ Rs]. rewrite Rs in Hl. lia.
Qed.
End objects.

(** C27: Reading a written object as JSON implements [json_merge]: members are found by
    their names, unknown ones are reported and read past, an object that [json_merge]
    gives is what the reader gives, with the text read to its end, and an
    exception is thrown where [json_merge] says so.  What is written has a JSON text:
    its numbers are finite and in range, its names are not empty and need no escape,
    its maps are not empty and have keys that are strings and need no escape, its
    arrays have the shape they claim, and classes are nested less than 254 deep.
    [JsonLimits.empty_map_loses_members] shows what happens otherwise. *)
Theorem json_refines F junk w check wname ws b :
  FloatText F → Walks w → wf b → position b = size b → Forall member_ok ws → SerialiserSpec.fields_depth ws < 254 →
  (Z.of_nat (size b + length (enc_object F w ws)) < 2 ^ 64)%Z →
  ∃ b1, serialise junk w F wname ws b = Done b1 ∧ wrote (enc_object F w ws) b b1
    ∧ ∀ fuel name ms i, SerialiserSpec.fields_weight ws ≤ fuel → exceptions i = [] →
        SerialiserSpec.implements (json_merge check ms ws i) (deserialise F check fuel name ms i b1) b1.
Proof.
  intros HF HW Hw Hp Hok Hd Hs. destruct (serialise_writes F junk w wname ws Hok Hd b Hw) as (b1 & H1 & W1).
  pose proof (wrote_size _ _ _ Hw W1) as Hs1. exists b1. split_and!; [done..|]. intros fuel name ms i Hfuel Hi.
  apply (json_deserialise_object F w); try done; [by rewrite Hs1|]. by eapply wrote_reads.
Qed.

(** C28: An object that is written as JSON and read into another object of the same
    class comes back as it was, with no exception and no additional field.  There are
    no maps; numbers are finite and in range, names are not empty and need no escape,
    the members of a class have distinct names, none is a null pointer, and classes
    are nested less than 254 deep.  Unless the check is [IGNORE], an annotation is
    that of a value that may be written, without unit and quantity, and the classes
    that are recorded under one name, which is that of the member and for the
    outermost one a fixed one, have the same number of members. *)
Theorem json_roundtrip F junk w check name rname ms ws b sizes :
  FloatText F → Walks w → wf b → position b = size b → Forall member_ok ws → SerialiserSpec.fields_depth ws < 254 →
  (Z.of_nat (size b + length (enc_object F w ws)) < 2 ^ 64)%Z →
  SerialiserSpec.members_class ms = SerialiserSpec.members_class ws → all_readable check sizes ws →
  check = IGNORE ∨ sizes ROOT_NAME = length ws →
  ∃ b1 i', serialise junk w F name ws b = Done b1
    ∧ exceptions i' = [] ∧ additionalFields i' = []
    ∧ ∀ fuel, SerialiserSpec.fields_weight ws ≤ fuel →
        deserialise F check fuel rname ms no_info b1 = Done (ws, i', set_position (size b1) b1).
Proof.
  intros HF HW Hw Hp Hok Hd Hs Hc Hr Hsz.
  destruct (bare_merge_same_class check no_meta json_unknown_type ltac:(done) ms ws sizes Hc Hr Hsz) as (i' & Hm & He & Ha).
  destruct (serialise_writes F junk w name ws Hok Hd b Hw) as (b1 & H1 & W1).
  pose proof (wrote_size _ _ _ Hw W1) as Hs1. exists b1, i'. split_and!; [done..|]. intros fuel Hfuel.
  pose proof (json_deserialise_object F w check fuel rname ms ws no_info b1) as Himpl.
  unfold json_merge in Himpl. rewrite Hm in Himpl. apply Himpl; try done; [by rewrite Hs1|]. by eapply wrote_reads.
Qed.

(** *** Examples *)

(** The bits of a number, printed as an integer. *)
Definition bits_text : float_text :=
  mkfloat_text (λ _ z, to_dec z)
    (λ _ s, match from_chars 70 s with Parsed z => Some (z, int_chars s) | _ => None end).

Lemma length_bits z : (0 ≤ z < 2 ^ 64)%Z → 0 < length (to_dec z) < 30.
Proof.
  intros Hz. pose proof (to_dec_nonempty z) as Hne. split; [by destruct (to_dec z); [|simpl; lia]|].
  unfold to_dec. rewrite (proj2 (Z.ltb_ge z 0)) by lia.
  set (ds := digits _ _). assert (length ds ≤ 20); [|lia].
  apply length_digits. change (10 ^ Z.of_nat 20)%Z with 100000000000000000000%Z. lia.
Qed.

#[export] Instance bits_text_ok : FloatText bits_text.
Proof.
  assert (Hu : ∀ t z, is_float t = true → in_number t z → (0 ≤ z < 2 ^ 64)%Z).
  { intros t z Ht Hz. destruct t; try done; unfold in_number, in_u, width in Hz; simpl in Hz; lia. }
  split.
  - intros t z _ _ _. apply to_dec_number.
  - intros t z Ht Hz _. by apply length_bits, (Hu t).
  - intros t z s Ht Hz _ Hs. pose proof (Hu t z Ht Hz) as Hb. simpl. rewrite from_chars_to_dec.
    + by rewrite int_chars_to_dec.
    + done.
    + unfold in_s. assert (2 ^ 64 < 2 ^ (70 - 1))%Z by done. lia.
    + destruct Hs as (c & s' & -> & Hc). by apply stop_not_digit.
Qed.

Definition json_example (name : bytes) (c : content) : member content := mkmember name None false false c.

Definition json_inner (x : Z) (s : bytes) : list (member content) :=
  [json_example (str "gain") (Leaf (Prim (Number Double)) x); json_example (str "label") (Leaf (Prim String) s)].

Definition json_outer (n : Z) (xs : list Z) (x : Z) (s : bytes) : list (member content) :=
  [json_example (str "count") (Leaf (Prim (Number Int32)) n);
   json_example (str "inner") (Object (str "Inner") (json_inner x s));
   json_example (str "samples") (Leaf (Vec (Number Int16)) xs)].

(** A version of the class with the nested object only. *)
Definition json_older : list (member content) :=
  [json_example (str "inner") (Object (str "Inner") (json_inner 0 []))].

(** With a tab and a slash in its text. *)
Definition json_written : list (member content) := json_outer 7 [1; (-2); 3]%Z (2 ^ 63) (str "a/b" ++ [chr 9]).

Ltac solve_json :=
  repeat first [done | by right | by apply (bool_decide_unpack _); vm_compute; exact I
               | apply Forall_nil | apply Forall_cons; split | split].

Lemma json_written_ok : Forall member_ok json_written.
Proof. solve_json. Qed.

Lemma json_roundtrip_witness :
  let b := new_buffer "?"%char 4 in
  ∃ b1 i', serialise "?"%char SerialiserSpec.example_walks bits_text (str "Outer") json_written b = Done b1
    ∧ exceptions i' = [] ∧ additionalFields i' = []
    ∧ ∀ fuel, 20 ≤ fuel →
        deserialise bits_text LENIENT fuel (str "Outer") (json_outer 0 [] 0 []) no_info b1
        = Done (json_written, i', set_position (size b1) b1).
Proof.
  intros b.
  destruct (json_roundtrip bits_text "?"%char SerialiserSpec.example_walks LENIENT (str "Outer") (str "Outer")
              (json_outer 0 [] 0 []) json_written b SerialiserSpec.example_sizes) as (b1 & i' & H1 & H2 & H3 & H4).
  - apply bits_text_ok.
  - apply SerialiserSpec.example_walks_ok.
  - unfold wf, b. simpl. lia.
  - done.
  - apply json_written_ok.
  - simpl. lia.
  - vm_compute. done.
  - done.
  - solve_json.
  - by right.
  - exists b1, i'. split_and!; [done..|]. intros fuel Hfuel. apply H4. unfold SerialiserSpec.fields_weight. cbn. lia.
Defined.

Lemma json_refines_witness :
  let b := new_buffer "?"%char 4 in
  ∃ b1, serialise "?"%char SerialiserSpec.example_walks bits_text (str "Outer") json_written b = Done b1
    ∧ ∀ fuel, 20 ≤ fuel →
        SerialiserSpec.implements
          (Done ([json_example (str "inner") (Object (str "Inner") (json_inner (2 ^ 63) (str "a/b" ++ [chr 9])))],
                 mkinfo (<[str "inner" := [true; true]]> (<[ROOT_NAME := [true]]> ∅))
                   [(str "root::count", 0%Z); (str "root::samples", 0%Z)]
                   [MissingField ROOT_NAME (str "count"); MissingField ROOT_NAME (str "samples")]))
          (deserialise bits_text LENIENT fuel (str "OuterV1") json_older no_info b1) b1.
Proof.
  intros b.
  destruct (json_refines bits_text "?"%char SerialiserSpec.example_walks LENIENT (str "Outer") json_written b)
    as (b1 & H1 & _ & H2).
  - apply bits_text_ok.
  - apply SerialiserSpec.example_walks_ok.
  - unfold wf, b. simpl. lia.
  - done.
  - apply json_written_ok.
  - simpl. lia.
  - vm_compute. done.
  - exists b1. split; [done|]. intros fuel Hfuel. specialize (H2 fuel (str "OuterV1") json_older no_info).
    assert (Hm : json_merge LENIENT json_older json_written no_info
                 = Done ([json_example (str "inner") (Object (str "Inner") (json_inner (2 ^ 63) (str "a/b" ++ [chr 9])))],
                 mkinfo (<[str "inner" := [true; true]]> (<[ROOT_NAME := [true]]> ∅))
                   [(str "root::count", 0%Z); (str "root::samples", 0%Z)]
                   [MissingField ROOT_NAME (str "count"); MissingField ROOT_NAME (str "samples")]))
      by (vm_compute; reflexivity).
    rewrite Hm in H2. apply H2; [unfold SerialiserSpec.fields_weight; cbn; lia|done].
Defined.
