(* ===== verification/JsonLimits.v ===== *)
(** * JsonLimits: texts that are read otherwise than they were meant

    Every one is evaluated on the definitions of Json.v, with the example classes
    of JsonSpec.v; the last one is read for ever. *)

From S2P Require Import Prelude Text IoBuffer Yas YasHeader Serialiser Json JsonSpec.
From S2P Require SerialiserSpec MultiArray.
Local Open Scope nat_scope.

(** Reading the text [s] into [ms]. *)
Definition parse (check : ProtocolCheck) (fuel : nat) (ms : list (member content)) (s : bytes) : outcome state :=
  deserialise bits_text check fuel (str "Class") ms no_info (mkbuf s 0 (length s)).

(** Writing [ws] into a fresh buffer. *)
Definition print (ws : list (member content)) : option bytes :=
  match serialise "?"%char SerialiserSpec.example_walks bits_text (str "Class") ws (new_buffer "?"%char 4) with
  | Done b => Some (IoBuffer.content b)
  | _ => None
  end.

Definition parsed (o : outcome state) : option (list (member content) * list deser_error) :=
  match o with Done (ms, i, _) => Some (ms, exceptions i) | _ => None end.

Definition reprint (check : ProtocolCheck) (fuel : nat) (ms ws : list (member content))
    : option (list (member content) * list deser_error) :=
  s ← print ws; parsed (parse check fuel ms s).

Definition int_member (name : bytes) (x : Z) : member content := json_example name (Leaf (Prim (Number Int32)) x).
Definition text_member (name s : bytes) : member content := json_example name (Leaf (Prim String) s).
Definition map_member (name : bytes) (m : gmap bytes Z) : member content :=
  json_example name (Leaf (MapOf String (Number Int32)) m).

Definition q : bytes := [quote].

(** ** Maps *)

(** A map is read without an error, and none of its values arrive: they are read
    into copies, so that a key has the default value, or the one it had before. *)
Lemma map_values_lost :
  reprint ALWAYS 20 [map_member (str "m") {[ str "b" := 9%Z ]}]
    [map_member (str "m") {[ str "a" := 5%Z; str "b" := 7%Z ]}]
  = Some ([map_member (str "m") {[ str "a" := 0%Z; str "b" := 9%Z ]}], []).
Proof. vm_compute. reflexivity. Qed.

(** The brace of an empty map is taken away with the comma that is not there. *)
Lemma empty_map_malformed :
  print [map_member (str "m") ∅; int_member (str "b") 7]
  = Some (str "{" ++ [newline] ++ q ++ str "m" ++ q ++ str ": " ++ [newline] ++ str "}" ++ [newline] ++ str "," ++ [newline]
          ++ q ++ str "b" ++ q ++ str ": 7" ++ [newline] ++ str "}").
Proof. vm_compute. reflexivity. Qed.

(** What is left closes the object: the members behind the map are lost. *)
Lemma empty_map_ends_the_object :
  reprint IGNORE 20 [map_member (str "m") ∅; int_member (str "b") 0] [map_member (str "m") ∅; int_member (str "b") 7]
  = Some ([map_member (str "m") ∅; int_member (str "b") 0], []).
Proof. vm_compute. reflexivity. Qed.

(** The same where the reader does not have the map: the specification passes over it
    and gives [b] its value; the reader leaves [b] as it was, and what it reports is
    only that it has no such map. *)
Lemma empty_map_loses_members :
  let ms := [int_member (str "b") 0] in
  let ws := [map_member (str "m") ∅; int_member (str "b") 7] in
  match json_merge LENIENT ms ws no_info with Done (ms', i) => Some (ms', exceptions i) | _ => None end
  = Some ([int_member (str "b") 7], [MissingField ROOT_NAME (str "m")])
  ∧ reprint LENIENT 20 ms ws = Some (ms, [MissingField ROOT_NAME (str "m")]).
Proof. split; vm_compute; reflexivity. Qed.

(** ** Texts *)

(** A character that is given by its number is read as an underscore. *)
Lemma unicode_lost check :
  parsed (parse check 20 [text_member (str "s") []]
    (str "{" ++ q ++ str "s" ++ q ++ str ":" ++ q ++ str "a\u0041b" ++ q ++ str "}"))
  = Some ([text_member (str "s") (str "a_b")], []).
Proof. destruct check; vm_compute; reflexivity. Qed.

(** Control characters are written as they are, which JSON does not allow. *)
Lemma control_character_written :
  print [text_member (str "s") [chr 1]]
  = Some (str "{" ++ [newline] ++ q ++ str "s" ++ q ++ str ": " ++ q ++ [chr 1] ++ q ++ [newline] ++ str "}").
Proof. vm_compute. reflexivity. Qed.

(** Keys are not escaped: a key with a quote ends the message. *)
Lemma key_not_escaped check :
  reprint check 20 [map_member (str "m") ∅] [map_member (str "m") {[ (str "a" ++ q ++ str "b") := 5%Z ]}] = None.
Proof. destruct check; vm_compute; reflexivity. Qed.

(** ** Numbers *)

(** A number is read to the end of its characters, also behind the end of the
    text: a message that was cut off in the middle of a number is completed with
    what the memory holds. *)
Lemma number_behind_the_text :
  let s := str "{" ++ q ++ str "b" ++ q ++ str ":1" in
  parsed (deserialise bits_text IGNORE 20 (str "Class") [int_member (str "b") 0] no_info
            (mkbuf (s ++ str "23}" ++ replicate 40 " "%char) 0 (length s)))
  = Some ([int_member (str "b") 123], []).
Proof. vm_compute. reflexivity. Qed.

(** ** Fields *)

(** A comma is not needed between two fields. *)
Lemma comma_optional check :
  parsed (parse check 20 [int_member (str "a") 0; int_member (str "b") 0]
    (str "{" ++ q ++ str "a" ++ q ++ str ":1" ++ q ++ str "b" ++ q ++ str ":2}"))
  = Some ([int_member (str "a") 1; int_member (str "b") 2], []).
Proof. destruct check; vm_compute; reflexivity. Qed.

(** The text that is read for ever. *)
Definition stray : bytes := str "{" ++ q ++ str "b" ++ q ++ str ":5 x}".

Lemma stray_refused fuel : 2 ≤ fuel → parse ALWAYS fuel [int_member (str "b") 0] stray = Thrown.
Proof. intros H. destruct fuel as [|[|fuel]]; [lia|lia|]. vm_compute. reflexivity. Qed.

Definition stray_buffer : iobuffer := mkbuf stray 6 (length stray).

(** Evaluates a call whose arguments are closed. *)
Ltac evaluate_json e := let r := eval vm_compute in e in replace e with r by (vm_compute; reflexivity).
Ltac next_json_call :=
  match goal with
  | |- context [get_header ?c ?f ?i ?b] => evaluate_json (get_header c f i b)
  | |- context [next_field ?b] => evaluate_json (next_field b)
  | |- context [at_ (position ?b) ?b] => evaluate_json (at_ (position b) b)
  | |- context [readKey ?b] => evaluate_json (readKey b)
  | |- context [consumeWhitespace ?b] => evaluate_json (consumeWhitespace b)
  | |- context [getc ?b] => evaluate_json (getc b)
  | |- context [get_number ?F ?t ?b] => evaluate_json (get_number F t b)
  | |- context [set_position ?n ?b] => evaluate_json (set_position n b)
  | |- context [findMemberIndex ?n ?ms] => evaluate_json (findMemberIndex n ms)
  end; cbn [defined mbind outcome_bind].

(** The field whose value is read again and again, from [start] on. *)
Definition again (start : nat) : field :=
  mkfield (Z.of_nat start) 5 no_end (-1) (str "b") no_meta ANY_ID 0.

(** The recorder of the fields that were set, of a class with one member. *)
Definition recording (check : ProtocolCheck) (i : info) : Prop :=
  check = IGNORE ∨ 0 < length (default [] (setFields i !! ROOT_NAME)).

Lemma set_first_field check i : recording check i → ∃ i', set_field check ROOT_NAME 0 i = Done i' ∧ recording check i'.
Proof.
  unfold recording, set_field. intros [->|Hl]; [by exists i; eauto|].
  destruct check; [exists i; by auto| |];
    rewrite (proj2 (Nat.ltb_lt _ _) Hl); (eexists; split; [done|]); right; cbn [setFields];
    by rewrite lookup_insert_eq; cbn [default from_option id]; rewrite length_insert.
Qed.

(** After the value of [b], in front of the stray character, with any check but
    the strict one: the reader reports it and goes back to the value. *)
Lemma stray_again check fuel : check ≠ ALWAYS → ∀ start x i, recording check i →
  loop bits_text check fuel ROOT_NAME (again start) ([int_member (str "b") x], i, stray_buffer) = OutOfFuel.
Proof.
  intros Hc. induction fuel as [|fuel IH]; intros start x i Hi; [done|]. cbn [loop].
  match goal with |- context [if ?c then _ else _] => evaluate_json c end.
  unfold get_header. next_json_call. next_json_call.
  replace (handleDeserialisationError check (UnexpectedChar "x") i)
    with (Done (mkinfo (setFields i) (additionalFields i) (exceptions i ++ [UnexpectedChar "x"])) : outcome info)
    by (by destruct check).
  change (eqc "x" "{") with false. change (eqc "x" "}") with false. change (eqc "x" quote) with false.
  cbn iota. cbn [mbind outcome_bind with_start again intDataType dataStartPosition fieldName].
  set (i1 := mkinfo _ _ _). assert (Hi1 : recording check i1) by exact Hi.
  change (ANY_ID =? END_ID)%Z with false. cbn iota. next_json_call.
  replace (findMemberIndex (str "b") [int_member (str "b") x]) with (Some 0) by reflexivity.
  cbn [lookup list_lookup defined mbind outcome_bind].
  unfold read_field, read_value. cbn [f_value int_member json_example data_type_id f_annotation check_annotation].
  change (negb (ANY_ID =? intDataType (with_start 6 (again start)))%Z && negb (ANY_ID =? ANY_ID)%Z) with false.
  cbn iota. cbn [mbind outcome_bind get_value get_prim]. next_json_call.
  destruct (set_first_field check i1 Hi1) as (i2 & -> & Hi2). cbn [mbind outcome_bind].
  unfold finish_field. change (negb (dataEndPosition (with_start 6 (again start)) =? 2 ^ 64 - 1)%Z) with false.
  cbn [andb mbind outcome_bind]. apply (IH 6 5%Z i2 Hi2).
Qed.

(** Two fields with a character between them that does not belong there: with
    [LENIENT], with which the client reads JSON, and with [IGNORE], the reader never
    comes to an end, while the exceptions pile up. *)
Lemma stray_hangs check fuel : check ≠ ALWAYS → parse check fuel [int_member (str "b") 0] stray = OutOfFuel.
Proof.
  intros Hc. unfold parse, deserialise.
  replace (bool_decide (check = LENIENT) && negb (bool_decide (exceptions no_info = []))) with false by (by destruct check).
  unfold enter. set (i0 := init_fields _ _ _ _).
  assert (Hi0 : recording check i0) by (unfold recording; destruct check; [by left|right; vm_compute; lia..]).
  clearbody i0. next_json_call.
  replace (report_if check _ _ _) with (Done i0) by (by destruct check). cbn [mbind outcome_bind dataStartPosition].
  next_json_call. destruct fuel as [|fuel]; [done|]. cbn [loop].
  match goal with |- context [if ?c then _ else _] => evaluate_json c end.
  next_json_call. cbn [intDataType dataStartPosition fieldName]. change (0 =? END_ID)%Z with false. cbn iota. next_json_call.
  next_json_call.
  cbn [lookup list_lookup defined mbind outcome_bind].
  unfold read_field, read_value. cbn [f_value int_member json_example data_type_id f_annotation check_annotation].
  cbn [intDataType Z.eqb ANY_ID negb andb mbind outcome_bind get_value get_prim].  next_json_call.
  destruct (set_first_field check i0 Hi0) as (i2 & -> & Hi2). cbn [mbind outcome_bind].
  unfold finish_field. cbn [dataEndPosition]. 
  match goal with |- context [negb ?c && _] => change c with true end.
  cbn [negb andb mbind outcome_bind]. apply (stray_again check fuel Hc 1 5%Z i2 Hi2).
Qed.

(** The member is not read, and nothing is read past. *)
Ltac unit_refused :=
  match goal with |- context [if ?c then report _ _ _ ≫= _ else _] => change c with false end; cbn iota;
  match goal with |- context [check_annotation LENIENT ?a ?n ?g ?i] =>
    replace (check_annotation LENIENT a n g i)
      with (Done (false, mkinfo (setFields i) (additionalFields i) (exceptions i ++ [MismatchedUnit n])) : outcome (bool * info))
      by reflexivity end;
  cbn [mbind outcome_bind]; unfold finish_field; cbn [dataEndPosition with_start];
  match goal with |- context [negb ?c && _] => change c with true end;
  cbn [negb andb mbind outcome_bind].

(** A value with a unit, and its text; the unit is not in it. *)
Definition volts (x : Z) : member content :=
  mkmember (str "v") (Some (mkmeta (str "V") [] [] RW)) false false (Leaf (Prim (Number Int32)) x).

Definition one_volt : bytes := str "{" ++ [newline] ++ q ++ str "v" ++ q ++ str ": 1" ++ [newline] ++ str "}".

Lemma one_volt_written : print [volts 1] = Some one_volt.
Proof. vm_compute. reflexivity. Qed.

Lemma volts_again fuel : ∀ start i,
  loop bits_text LENIENT fuel ROOT_NAME (mkfield (Z.of_nat start) 7 no_end (-1) (str "v") no_meta ANY_ID 0)
    ([volts 0], i, mkbuf one_volt 7 (length one_volt)) = OutOfFuel.
Proof.
  induction fuel as [|fuel IH]; intros start i; [done|]. cbn [loop].
  match goal with |- context [if ?c then _ else _] => evaluate_json c end.
  unfold get_header. next_json_call. next_json_call. cbn [handleDeserialisationError mbind outcome_bind].
  change (eqc "1" "{") with false. change (eqc "1" "}") with false. change (eqc "1" quote) with false.
  cbn iota. cbn [mbind outcome_bind with_start intDataType dataStartPosition fieldName].
  change (ANY_ID =? END_ID)%Z with false. cbn iota. next_json_call. next_json_call.
  cbn [lookup list_lookup defined mbind outcome_bind].
  unfold read_field, read_value. cbn [f_value volts data_type_id f_annotation]. 
  unit_refused. apply (IH 7).
Qed.

(** A class with an annotated value is not read back from its own text: with
    [LENIENT] the unit is reported as missing, the value is not read past, and the
    reader never comes to an end. *)
Lemma volts_hang fuel : parse LENIENT fuel [volts 0] one_volt = OutOfFuel.
Proof.
  unfold parse, deserialise. change (bool_decide (LENIENT = LENIENT) && negb (bool_decide (exceptions no_info = []))) with false.
  cbn iota. unfold enter. set (i0 := init_fields _ _ _ _). clearbody i0. next_json_call.
  match goal with |- context [report_if LENIENT ?c ?e ?i] => change (report_if LENIENT c e i) with (Done i : outcome info) end.
  cbn [mbind outcome_bind dataStartPosition].
  next_json_call. destruct fuel as [|fuel]; [done|]. cbn [loop].
  match goal with |- context [if ?c then _ else _] => evaluate_json c end.
  next_json_call. cbn [intDataType dataStartPosition fieldName]. change (0 =? END_ID)%Z with false. cbn iota. next_json_call.
  next_json_call. cbn [lookup list_lookup defined mbind outcome_bind].
  unfold read_field, read_value. cbn [f_value volts data_type_id f_annotation].
  unit_refused. apply (volts_again fuel 1).
Qed.
