(* ===== verification/Mime.v ===== *)
(** * Mime: [core/include/MIME.hpp]

    The table of MIME types and the two ways to look one up, each as it is
    evaluated at run time and as the compiler evaluates it. *)

From S2P Require Import Prelude.
Local Open Scope nat_scope.

Record MimeType : Type := mkmime { typeName : bytes; description : bytes; fileExtensions : list bytes }.

(** The constructor, with literals. *)
Definition mime (name description : string) (ext : list string) : MimeType :=
  mkmime (str name) (str description) (str <$> ext).

Section table.
Local Open Scope string_scope.

Definition CSS : MimeType := mime "text/css" "Cascading Style Sheets (CSS)" [".css"].
Definition CSV : MimeType := mime "text/csv" "Comma-separated values (CSV)" [".csv"].
Definition EVENT_STREAM : MimeType := mime "text/event-stream" "SSE stream" [].
Definition HTML : MimeType := mime "text/html" "HyperText Markup Language (HTML)" [".htm"; ".html"].
Definition ICS : MimeType := mime "text/calendar" "iCalendar format" [".ics"].
Definition JAVASCRIPT : MimeType := mime "text/javascript" "JavaScript" [".js"; ".mjs"].
Definition JSON : MimeType := mime "application/json" "JSON format" [".json"].
Definition JSON_LD : MimeType := mime "application/ld+json" "JSON-LD format" [".jsonld"].
Definition TEXT : MimeType := mime "text/plain" "Text, (generally ASCII or ISO 8859-n)" [".txt"].
Definition XML : MimeType := mime "text/xml" "XML" [".xml"].
Definition YAML : MimeType := mime "text/yaml" "YAML Ain't Markup Language File" [".yml"; ".yaml"].
Definition AAC : MimeType := mime "audio/aac" "AAC audio" [".aac"].
Definition MIDI : MimeType := mime "audio/midi" "Musical Instrument Digital Interface (MIDI)" [".mid"; ".midi"].
Definition MP3 : MimeType := mime "audio/mpeg" "MP3 audio" [".mp3"].
Definition OTF : MimeType := mime "audio/opus" "Opus audio" [".opus"].
Definition WAV : MimeType := mime "audio/wav" "Waveform Audio Format" [".wav"].
Definition WEBM_AUDIO : MimeType := mime "audio/webm" "WEBM audio" [".weba"].
Definition BMP : MimeType := mime "image/bmp" "Windows OS/2 Bitmap Graphics" [".bmp"].
Definition GIF : MimeType := mime "image/gif" "Graphics Interchange Format (GIF)" [".gif"].
Definition ICO : MimeType := mime "image/vnd.microsoft.icon" "Icon format" [".ico"].
Definition JPEG : MimeType := mime "image/jpeg" "JPEG images" [".jpg"; ".jpeg"].
Definition PNG : MimeType := mime "image/png" "Portable Network Graphics" [".png"].
Definition APNG : MimeType := mime "image/apng" "Portable Network Graphics" [".apng"].
Definition SVG : MimeType := mime "image/svg+xml" "Scalable Vector Graphics (SVG)" [".svg"].
Definition TIFF : MimeType := mime "image/tiff" "Tagged Image File Format (TIFF)" [".tif"; ".tiff"].
Definition WEBP : MimeType := mime "image/webp" "WEBP image" [".webp"].
Definition AVI : MimeType := mime "video/x-msvideo" "AVI: Audio Video Interleave" [".avi"].
Definition MP2T : MimeType := mime "video/mp2t" "MPEG transport stream" [".ts"].
Definition MPEG : MimeType := mime "video/mpeg" "MPEG Video" [".mpeg"].
Definition WEBM_VIDEO : MimeType := mime "video/webm" "WEBM video" [".webm"].
Definition BINARY : MimeType := mime "application/octet-stream" "Any kind of binary data" [".bin"].
Definition CMWLIGHT : MimeType := mime "application/cmwlight" "proprietary CERN serialiser binary format" [".cmwlight"].
Definition BZIP2 : MimeType := mime "application/x-bzip2" "BZip2 archive" [".bz2"].
Definition DOC : MimeType := mime "application/msword" "Microsoft Word" [".doc"].
Definition DOCX : MimeType := mime "application/vnd.openxmlformats-officedocument.wordprocessingml.document" "Microsoft Word (OpenXML)" [".docx"].
Definition GZIP : MimeType := mime "application/gzip" "GZip Compressed Archive" [".gz"].
Definition JAR : MimeType := mime "application/java-archive" "Java Archive (JAR)" [".jar"].
Definition ODP : MimeType := mime "application/vnd.oasis.opendocument.presentation" "OpenDocument presentation document" [".odp"].
Definition ODS : MimeType := mime "application/vnd.oasis.opendocument.spreadsheet" "OpenDocument spreadsheet document" [".ods"].
Definition ODT : MimeType := mime "application/vnd.oasis.opendocument.text" "OpenDocument text document" [".odt"].
Definition OGG : MimeType := mime "application/ogg" "OGG Audio/Video File" [".ogx"; ".ogv"; ".oga"].
Definition PDF : MimeType := mime "application/pdf" "Adobe Portable Document Format (PDF)" [".pdf"].
Definition PHP : MimeType := mime "application/x-httpd-php" "Hypertext Preprocessor (Personal Home Page)" [".php"].
Definition PPT : MimeType := mime "application/vnd.ms-powerpoint" "Microsoft PowerPoint" [".ppt"].
Definition PPTX : MimeType := mime "application/vnd.openxmlformats-officedocument.presentationml.presentation" "Microsoft PowerPoint (OpenXML)" [".pptx"].
Definition RAR : MimeType := mime "application/vnd.rar" "RAR archive" [".rar"].
Definition RTF : MimeType := mime "application/rtf" "Rich Text Format (RTF)" [".rtf"].
Definition TAR : MimeType := mime "application/x-tar" "Tape Archive (TAR)" [".tar"].
Definition VSD : MimeType := mime "application/vnd.visio" "Microsoft Visio" [".vsd"].
Definition XHTML : MimeType := mime "application/xhtml+xml" "XHTML" [".xhtml"].
Definition XLS : MimeType := mime "application/vnd.ms-excel" "Microsoft Excel" [".xls"].
Definition XLSX : MimeType := mime "application/vnd.openxmlformats-officedocument.spreadsheetml.sheet" "Microsoft Excel (OpenXML)" [".xlsx"].
Definition ZIP : MimeType := mime "application/zip" "ZIP archive" [".zip"].
Definition UNKNOWN : MimeType := mime "unknown/unknown" "unknown data format" [].

Definition ALL : list MimeType :=
  [CSS; CSV; EVENT_STREAM; HTML; ICS; JAVASCRIPT; JSON; JSON_LD; TEXT; XML; YAML; AAC; MIDI; MP3; OTF;
   WAV; WEBM_AUDIO; BMP; GIF; ICO; JPEG; PNG; APNG; SVG; TIFF; WEBP; AVI; MP2T; MPEG; WEBM_VIDEO;
   BINARY; CMWLIGHT; BZIP2; DOC; DOCX; GZIP; JAR; ODP; ODS; ODT; OGG; PDF; PHP; PPT; PPTX; RAR; RTF;
   TAR; VSD; XHTML; XLS; XLSX; ZIP; UNKNOWN].
End table.

(** Two types are equal if their names are. *)
Definition type_eqb (x y : MimeType) : bool := bool_decide (typeName x = typeName y).

(** ** Comparing without the case *)

Definition toLower (c : ascii) : ascii :=
  if ((65 <=? schar c) && (schar c <=? 90))%Z then chr (schar c + 32) else c.

Definition lowerCaseCompare (c d : ascii) : bool := eqc (toLower c) (toLower d).

(** [std::equal] on the beginning of [s]. *)
Fixpoint prefix_by (pre s : bytes) : bool :=
  match pre, s with
  | [], _ => true
  | c :: pre', d :: s' => lowerCaseCompare d c && prefix_by pre' s'
  | _ :: _, [] => false
  end.

(** [std::search(...) != end] *)
Fixpoint search (s needle : bytes) : bool :=
  match s with
  | [] => false
  | _ :: s' => prefix_by needle s || search s' needle
  end.

Definition ends_with (value ending : bytes) : bool :=
  if length ending <=? length value then prefix_by (reverse ending) (reverse value) else false.

(** ** Looking up *)

(** At run time: the first of the table. *)
Definition first_match (p : MimeType → bool) : MimeType :=
  match list_find (λ t, p t = true) ALL with Some (_, t) => t | None => UNKNOWN end.

(** In a constant expression every match overwrites the one before. *)
Definition last_match (p : MimeType → bool) : MimeType :=
  foldl (λ found t, if p t then t else found) UNKNOWN ALL.

Definition getType (constant_evaluated : bool) (mimeType : bytes) : MimeType :=
  if bool_decide (mimeType = []) then UNKNOWN
  else
    let p t := search mimeType (typeName t) in
    if constant_evaluated then last_match p else first_match p.

Definition getTypeByFileName (constant_evaluated : bool) (fileName : bytes) : MimeType :=
  if bool_decide (fileName = []) then UNKNOWN
  else
    let p t := existsb (ends_with fileName) (fileExtensions t) in
    if constant_evaluated then last_match p else first_match p.

(** ** Properties *)

Lemma toLower_idemp c : toLower (toLower c) = toLower c.
Proof.
  revert c. assert (H : forallb (λ c, eqc (toLower (toLower c)) (toLower c)) all_chars = true) by (vm_compute; reflexivity).
  intros c. apply eqc_true. revert c. apply all_chars_spec. exact H.
Qed.

Lemma lowerCaseCompare_spec c d : lowerCaseCompare c d = true ↔ toLower c = toLower d.
Proof. apply eqc_true. Qed.

Lemma prefix_by_spec pre s :
  prefix_by pre s = true ↔ ∃ m t, s = m ++ t ∧ toLower <$> m = toLower <$> pre.
Proof.
  revert s. induction pre as [|c pre IH]; intros s.
  - split; [|done]. intros _. by exists [], s.
  - destruct s as [|d s]; [split; [done|]; by intros ([|??] & t & ? & ?)|].
    simpl. rewrite andb_true_iff, lowerCaseCompare_spec, IH. split.
    + intros [Hd (m & t & -> & Hm)]. exists (d :: m), t. split; [done|]. by rewrite !fmap_cons, Hd, Hm.
    + intros ([|e m] & t & Hs & Hm); [done|]. injection Hs as -> ->. rewrite !fmap_cons in Hm. injection Hm as He Hm.
      split; [done|]. by exists m, t.
Qed.

(** The text occurs somewhere, in whatever case. *)
Lemma search_spec s needle :
  needle ≠ [] →
  search s needle = true ↔ ∃ a m b, s = a ++ m ++ b ∧ toLower <$> m = toLower <$> needle.
Proof.
  intros Hn. induction s as [|c s IH].
  - split; [done|]. intros (a & m & b & Hs & Hm). symmetry in Hs. apply app_eq_nil in Hs as [_ [-> _]%app_eq_nil].
    by destruct needle.
  - cbn [search]. rewrite orb_true_iff, IH, prefix_by_spec. split.
    + intros [(m & t & -> & Hm)|(a & m & b & -> & Hm)]; [by exists [], m, t|by exists (c :: a), m, b].
    + intros ([|c' a] & m & b & Hs & Hm); [left; by exists m, b|]. injection Hs as -> ->. right. by exists a, m, b.
Qed.

Lemma ends_with_spec s e :
  ends_with s e = true ↔ ∃ a m, s = a ++ m ∧ toLower <$> m = toLower <$> e.
Proof.
  unfold ends_with. split.
  - destruct (_ <=? _); [|done]. intros (m & t & Hs & Hm)%prefix_by_spec.
    exists (reverse t), (reverse m). rewrite <- reverse_app, <- Hs, reverse_involutive. split; [done|].
    by rewrite fmap_reverse, Hm, fmap_reverse, reverse_involutive.
  - intros (a & m & -> & Hm). pose proof (f_equal length Hm) as Hl. rewrite !length_fmap in Hl.
    rewrite length_app, (proj2 (Nat.leb_le _ _)) by lia. apply prefix_by_spec.
    exists (reverse m), (reverse a). rewrite reverse_app. split; [done|]. by rewrite !fmap_reverse, Hm.
Qed.

(** Of two endings of one text the shorter one ends the longer one. *)
Lemma endings_nested s e1 e2 :
  ends_with s e1 = true → ends_with s e2 = true → ends_with e1 e2 = true ∨ ends_with e2 e1 = true.
Proof.
  assert (H : ∀ e1 e2, length e2 ≤ length e1 → ends_with s e1 = true → ends_with s e2 = true → ends_with e1 e2 = true).
  { clear e1 e2. intros e1 e2 Hl (a1 & m1 & -> & H1)%ends_with_spec (a2 & m2 & Hs & H2)%ends_with_spec.
    apply ends_with_spec. pose proof (f_equal length H1) as L1. pose proof (f_equal length H2) as L2.
    rewrite !length_fmap in L1, L2.
    pose proof (f_equal length Hs) as Ls. rewrite !length_app in Ls.
    assert (Hm : m1 = take (length m1 - length m2) m1 ++ m2).
    { apply (f_equal (drop (length a2))) in Hs. rewrite drop_app_length in Hs.
      rewrite drop_app_ge in Hs by lia. replace (length a2 - length a1) with (length m1 - length m2) in Hs by lia.
      rewrite <- (take_drop (length m1 - length m2) m1) at 1. by rewrite Hs. }
    apply (f_equal (fmap toLower)) in Hm. rewrite H1, fmap_app, H2 in Hm.
    exists (take (length e1 - length e2) e1), (drop (length e1 - length e2) e1).
    split; [by rewrite take_drop|].
    apply (f_equal (drop (length e1 - length e2))) in Hm. rewrite <- fmap_drop in Hm.
    rewrite Hm, fmap_take. apply drop_app_length'. rewrite length_take, length_fmap. lia. }
  intros H1 H2. destruct (decide (length e2 ≤ length e1)); [left|right]; apply (H _ _); (done || lia).
Qed.

(** No extension of a type ends that of another. *)
Lemma extensions_apart x y e1 e2 :
  x ∈ ALL → y ∈ ALL → e1 ∈ fileExtensions x → e2 ∈ fileExtensions y → ends_with e1 e2 = true → typeName x = typeName y.
Proof.
  intros Hx Hy H1 H2 He.
  assert (H : forallb (λ x, forallb (λ y, forallb (λ e1, forallb (λ e2,
                implb (ends_with e1 e2) (type_eqb x y)) (fileExtensions y)) (fileExtensions x)) ALL) ALL = true)
    by (vm_compute; reflexivity).
  rewrite forallb_forall in H. specialize (H x). rewrite forallb_forall in H.
  specialize (H ltac:(by apply list_elem_of_In) y). rewrite forallb_forall in H.
  specialize (H ltac:(by apply list_elem_of_In) e1). rewrite forallb_forall in H.
  specialize (H ltac:(by apply list_elem_of_In) e2 ltac:(by apply list_elem_of_In)). rewrite He in H.
  by apply bool_decide_eq_true in H.
Qed.

(** The names are distinct, so that comparing them compares the types. *)
Lemma names_distinct : NoDup (typeName <$> ALL).
Proof. apply (bool_decide_unpack _). vm_compute. exact I. Qed.

Lemma same_name x y : x ∈ ALL → y ∈ ALL → typeName x = typeName y → x = y.
Proof.
  intros [i Hi]%list_elem_of_lookup [j Hj]%list_elem_of_lookup Hn.
  assert (i = j) as ->; [|congruence].
  apply (NoDup_lookup (typeName <$> ALL) i j (typeName x) names_distinct); rewrite list_lookup_fmap.
  - by rewrite Hi.
  - rewrite Hj. simpl. by rewrite Hn.
Qed.

Lemma first_match_spec p t :
  t ≠ UNKNOWN →
  first_match p = t ↔ ∃ i, ALL !! i = Some t ∧ p t = true ∧ ∀ j u, j < i → ALL !! j = Some u → p u = false.
Proof.
  intros Ht. unfold first_match. destruct (list_find _ _) as [[i u]|] eqn:E.
  - apply list_find_Some in E as (Hi & Hp & Hfirst). split.
    + intros ->. exists i. split_and!; [done..|]. intros j u Hj Hu. apply not_true_iff_false. by eapply Hfirst.
    + intros (k & Hk & Hpt & Hbefore). destruct (Nat.lt_trichotomy i k) as [Hlt|[->|Hlt]]; [|congruence|].
      * by rewrite (Hbefore i u Hlt Hi) in Hp.
      * by destruct (Hfirst k t Hk Hlt).
  - split; [congruence|]. intros (i & Hi & Hp & _). apply list_find_None in E.
    rewrite Forall_forall in E. destruct (E t); [by eapply list_elem_of_lookup_2|done].
Qed.

Lemma foldl_match (p : MimeType → bool) l found :
  foldl (λ f t, if p t then t else f) found l = found ∧ Forall (λ t, p t = false) l
  ∨ foldl (λ f t, if p t then t else f) found l ∈ l ∧ p (foldl (λ f t, if p t then t else f) found l) = true.
Proof.
  revert found. induction l as [|t l IH]; intros found; [by left|]. simpl. destruct (p t) eqn:Hp.
  - right. destruct (IH t) as [[-> _]|[H1 H2]]; [split; [left|done]|split; [by right|done]].
  - destruct (IH found) as [[-> H]|[H1 H2]]; [left; by split; [|constructor]|right; split; [by right|done]].
Qed.

(** Where at most one type matches, the order of the table does not matter. *)
Lemma first_is_last p :
  (∀ x y, x ∈ ALL → y ∈ ALL → p x = true → p y = true → x = y) → last_match p = first_match p.
Proof.
  intros Hone. unfold last_match, first_match.
  destruct (foldl_match p ALL UNKNOWN) as [[-> Hno]|[Hin Hp]]; destruct (list_find _ _) as [[i u]|] eqn:E; [| done | |].
  - apply list_find_Some in E as (Hi & Hp & _). rewrite Forall_forall in Hno.
    by rewrite (Hno u (list_elem_of_lookup_2 _ _ _ Hi)) in Hp.
  - apply list_find_Some in E as (Hi & Hu & _). apply Hone; [done|by eapply list_elem_of_lookup_2|done..].
  - apply list_find_None in E. rewrite Forall_forall in E. by destruct (E _ Hin).
Qed.

(** Extensions are unambiguous. *)
Lemma one_extension s x y :
  x ∈ ALL → y ∈ ALL → existsb (ends_with s) (fileExtensions x) = true → existsb (ends_with s) (fileExtensions y) = true →
  x = y.
Proof.
  intros Hx Hy (e1 & H1 & E1)%existsb_exists (e2 & H2 & E2)%existsb_exists. apply list_elem_of_In in H1, H2.
  apply same_name; [done..|]. destruct (endings_nested s e1 e2 E1 E2) as [H|H].
  - by apply (extensions_apart x y e1 e2).
  - symmetry. by apply (extensions_apart y x e2 e1).
Qed.

(** The type of a file is the one type that has the ending of its name, in
    whatever case; the compiler and the program give the same. *)
Theorem file_type constant_evaluated s t :
  t ∈ ALL → t ≠ UNKNOWN →
  getTypeByFileName constant_evaluated s = t
  ↔ ∃ e, e ∈ fileExtensions t ∧ ∃ a m, s = a ++ m ∧ toLower <$> m = toLower <$> e.
Proof.
  intros Ht Hu.
  assert (He : existsb (ends_with s) (fileExtensions t) = true
               ↔ ∃ e, e ∈ fileExtensions t ∧ ∃ a m, s = a ++ m ∧ toLower <$> m = toLower <$> e).
  { rewrite existsb_exists. setoid_rewrite ends_with_spec. by setoid_rewrite list_elem_of_In. }
  rewrite <- He. unfold getTypeByFileName. case_bool_decide as Hs.
  - split; [congruence|]. subst s. clear He. intros H.
    assert (Hall : forallb (λ t, negb (existsb (ends_with []) (fileExtensions t))) ALL = true) by (vm_compute; reflexivity).
    rewrite forallb_forall in Hall. specialize (Hall t ltac:(by apply list_elem_of_In)). by rewrite H in Hall.
  - assert (Heq : (if constant_evaluated then last_match (λ t, existsb (ends_with s) (fileExtensions t))
                   else first_match (λ t, existsb (ends_with s) (fileExtensions t)))
                  = first_match (λ t, existsb (ends_with s) (fileExtensions t))).
    { destruct constant_evaluated; [|done]. apply first_is_last. intros x y. apply one_extension. }
    cbv zeta. rewrite Heq, first_match_spec by done. split; [by intros (i & _ & H & _)|].
    intros H. apply list_elem_of_lookup in Ht as [i Hi]. exists i. split_and!; [done..|].
    intros j u Hj Hju. apply not_true_iff_false. intros H'.
    assert (u = t) as -> by (by apply (one_extension s); [eapply list_elem_of_lookup_2..| |]).
    assert (j = i); [|lia]. apply (NoDup_lookup (typeName <$> ALL) j i (typeName t) names_distinct);
      rewrite list_lookup_fmap; [by rewrite Hju|by rewrite Hi].
Qed.

(** The type of a text: at run time the first in the table whose name occurs in
    it, in whatever case. *)
Theorem type_of_text s t :
  t ≠ UNKNOWN →
  getType false s = t
  ↔ ∃ i, ALL !! i = Some t
      ∧ (∃ a m b, s = a ++ m ++ b ∧ toLower <$> m = toLower <$> typeName t)
      ∧ ∀ j u, j < i → ALL !! j = Some u → ¬ ∃ a m b, s = a ++ m ++ b ∧ toLower <$> m = toLower <$> typeName u.
Proof.
  intros Ht.
  assert (Hne : ∀ u, u ∈ ALL → typeName u ≠ []).
  { assert (H : forallb (λ u, negb (bool_decide (typeName u = []))) ALL = true) by (vm_compute; reflexivity).
    rewrite forallb_forall in H. intros u Hu E. specialize (H u ltac:(by apply list_elem_of_In)).
    by rewrite bool_decide_eq_true_2 in H. }
  assert (Hspec : ∀ i u, ALL !! i = Some u →
    search s (typeName u) = true ↔ ∃ a m b, s = a ++ m ++ b ∧ toLower <$> m = toLower <$> typeName u).
  { intros i u Hu. apply search_spec, Hne. by eapply list_elem_of_lookup_2. }
  unfold getType. case_bool_decide as Hs; [|rewrite first_match_spec by done].
  - split; [congruence|]. subst s. intros (i & Hi & H & _). rewrite <- (Hspec i t Hi) in H. done.
  - split; intros (i & Hi & Hp & Hno); exists i; (split; [done|]).
    + rewrite <- (Hspec i t Hi). split; [done|]. intros j u Hj Hu. rewrite <- (Hspec j u Hu), (Hno j u Hj Hu). done.
    + rewrite (Hspec i t Hi). split; [done|]. intros j u Hj Hu. apply not_true_iff_false.
      rewrite (Hspec j u Hu). by apply (Hno j u).
Qed.

(** Every type is found under its own name. *)
Lemma types_found constant_evaluated : Forall (λ t, getType constant_evaluated (typeName t) = t) ALL.
Proof.
  assert (H : forallb (λ t, type_eqb (getType constant_evaluated (typeName t)) t
                            && bool_decide (description (getType constant_evaluated (typeName t)) = description t)
                            && bool_decide (fileExtensions (getType constant_evaluated (typeName t)) = fileExtensions t))
                ALL = true) by (destruct constant_evaluated; vm_compute; reflexivity).
  rewrite forallb_forall in H. apply Forall_forall. intros t Ht%list_elem_of_In. specialize (H t Ht).
  apply andb_true_iff in H as [[H1%bool_decide_eq_true H2%bool_decide_eq_true]%andb_true_iff H3%bool_decide_eq_true].
  destruct t, (getType _ _). simpl in *. by subst.
Qed.

(** A text with several names has one type for the compiler and another for the
    program, and neither is the first of the text. *)
Lemma type_of_list :
  getType true (str "text/html,image/webp,image/apng,*/*") = WEBP
  ∧ getType false (str "image/webp,text/html,*/*") = HTML
  ∧ getType true (str "image/webp,text/html,*/*") = WEBP.
Proof. split_and!; vm_compute; reflexivity. Qed.

Lemma file_type_witness :
  (JPEG ∈ ALL ∧ JPEG ≠ UNKNOWN) ∧ getTypeByFileName true (str "picture.JpG") = JPEG.
Proof.
  assert (H : JPEG ∈ ALL ∧ JPEG ≠ UNKNOWN).
  { split; [|done]. apply list_elem_of_lookup. exists 20. reflexivity. }
  split; [exact H|]. apply (file_type true); [apply H..|]. exists (str ".jpg"). split; [by left|].
  by exists (str "picture"), (str ".JpG").
Defined.
