(* ===== verification/Socket.v ===== *)
(** * Socket: [rest/RestUtils.hpp]

    The socket of a connection, [TcpSocket], as the state machine of its handshake,
    and [WriteBuffer], which keeps what the HTTP library wants to send until the
    socket takes it.  The answers of the system and of the TLS library are
    arguments, in the order of the calls. *)

From S2P Require Import Prelude.
Local Open Scope nat_scope.

(** The value of a call, and whether [errno] is [EAGAIN] after it. *)
Record call : Type := mkcall { ret : Z; again : bool }.

(** ** The handshake *)

Inductive State : Type :=
  | Uninitialized | Connecting | SSLConnectWantsRead | SSLConnectWantsWrite
  | SSLAcceptWantsRead | SSLAcceptWantsWrite | Connected.

#[export] Instance State_eq_dec : EqDecision State.
Proof. solve_decision. Defined.

(** [SSL_connect] or [SSL_accept], and [SSL_get_error]. *)
Inductive ssl_answer : Type := SslDone | SslShut | SslWantsRead | SslWantsWrite | SslError.

(** [std::expected<State, std::string>]; the new state of the socket. *)
Definition continueHandshake (answer : ssl_answer) (st : State) : bool * State :=
  match st with
  | Uninitialized => (false, st)
  | SSLConnectWantsRead | SSLConnectWantsWrite =>
      match answer with
      | SslDone => (true, Connected)
      | SslWantsRead => (true, SSLConnectWantsRead)
      | SslWantsWrite => (true, SSLConnectWantsWrite)
      | SslShut | SslError => (false, st)
      end
  | SSLAcceptWantsRead | SSLAcceptWantsWrite =>
      match answer with
      | SslDone => (true, Connected)
      | SslWantsRead => (true, SSLAcceptWantsRead)
      | SslWantsWrite => (true, SSLAcceptWantsWrite)
      | SslShut | SslError => (false, st)
      end
  | Connecting | Connected => (true, st)
  end.

(** [::connect]. *)
Inductive connect_answer : Type := Established | InProgress | Refused.

Definition connect (ssl : bool) (answer : connect_answer) (handshake : ssl_answer) (st : State) : bool * State :=
  match answer with
  | InProgress => (true, st)
  | Refused => (false, st)
  | Established => if ssl then continueHandshake handshake SSLConnectWantsWrite else (true, Connected)
  end.

Definition isReady (st : State) : bool := match st with Connected => true | _ => false end.

(** The state of a socket that [accept] returns. *)
Definition accepted_state (ssl : bool) : State := if ssl then SSLAcceptWantsRead else Connected.

(** ** The buffer *)

(** [buffer] is the vector, of which [size] bytes wait. *)
Record WriteBuffer : Type := mkbuffer { buffer : bytes; size : nat }.

Definition InitialCapacity (Limit : nat) : nat := Limit * 2.

Definition empty_buffer (Limit : nat) : WriteBuffer := mkbuffer (replicate (InitialCapacity Limit) (chr 0)) 0.

Definition hasData (b : WriteBuffer) : bool := 0 <? size b.

(** [std::copy] behind what waits, after [resize] if the vector is too short. *)
Definition append_chunk (chunk : bytes) (b : WriteBuffer) : WriteBuffer :=
  let newSize := size b + length chunk in
  let buf := buffer b ++ replicate (newSize - length (buffer b)) (chr 0) in
  mkbuffer (take (size b) buf ++ chunk ++ drop newSize buf) newSize.

(** The first loop.  [chunks] are the answers of [nghttp2_session_mem_send2], as
    long as the library wants to write: a chunk, or an error. *)
Fixpoint fill (Limit : nat) (chunks : list (option bytes)) (b : WriteBuffer) : WriteBuffer :=
  match chunks with
  | [] => b
  | c :: chunks' =>
      if size b <? Limit then
        match c with
        | None => b
        | Some chunk => if length chunk =? 0 then fill Limit chunks' b else fill Limit chunks' (append_chunk chunk b)
        end
      else b
  end.

(** What the library gave: the chunks that the loop asked for. *)
Fixpoint taken (Limit n : nat) (chunks : list (option bytes)) : bytes :=
  match chunks with
  | Some chunk :: chunks' => if n <? Limit then chunk ++ taken Limit (n + length chunk) chunks' else []
  | _ => []
  end.

(** The second loop: whether it ended well, and [written].  [None]: the next call
    has not returned. *)
Fixpoint send_loop (answers : list call) (size written : nat) : option (bool * nat) :=
  if size - written =? 0 then Some (true, written)
  else
    match answers with
    | [] => None
    | c :: answers' =>
        if (ret c =? 0)%Z && again c then Some (true, written)
        else if (ret c <=? 0)%Z then Some (false, written)
        else send_loop answers' size (written + Z.to_nat (ret c))
    end.

(** The result, the buffer, and what the peer was sent. *)
Definition write (Limit : nat) (chunks : list (option bytes)) (answers : list call) (b : WriteBuffer)
    : option (bool * WriteBuffer * bytes) :=
  let b1 := fill Limit chunks b in
  '(ok, written) ← send_loop answers (size b1) 0;
  let out := take written (buffer b1) in
  Some (if ok : bool
        then (true, mkbuffer (take (size b1 - written) (drop written (buffer b1)) ++ drop (size b1 - written) (buffer b1))
                             (size b1 - written), out)
        else (false, b1, out)).

(** ** The handshake, proved *)

(** A handshake keeps to its side, and ends in [Connected]. *)
Definition server_side (st : State) : bool :=
  match st with SSLAcceptWantsRead | SSLAcceptWantsWrite | Connected => true | _ => false end.

Definition client_side (st : State) : bool :=
  match st with SSLConnectWantsRead | SSLConnectWantsWrite | Connected => true | _ => false end.

Lemma handshake_keeps_side answer st :
  (server_side st = true → server_side (continueHandshake answer st).2 = true)
  ∧ (client_side st = true → client_side (continueHandshake answer st).2 = true)
  ∧ (st = Connected → continueHandshake answer st = (true, Connected)).
Proof. by destruct st, answer. Qed.

Lemma handshake_fails_in_place answer st :
  (continueHandshake answer st).1 = false → (continueHandshake answer st).2 = st.
Proof. by destruct st, answer. Qed.

(** ** The stream of bytes *)

Definition waiting (b : WriteBuffer) : bytes := take (size b) (buffer b).

Definition buffer_ok (b : WriteBuffer) : Prop := size b ≤ length (buffer b).

(** [send] takes no more than it was given. *)
Fixpoint honest (answers : list call) (n : nat) : Prop :=
  match answers with
  | [] => True
  | c :: answers' => (ret c ≤ Z.of_nat n)%Z ∧ honest answers' (n - Z.to_nat (ret c))
  end.

Lemma append_chunk_waiting chunk b :
  buffer_ok b → buffer_ok (append_chunk chunk b) ∧ waiting (append_chunk chunk b) = waiting b ++ chunk.
Proof.
  unfold buffer_ok, waiting, append_chunk. simpl. intros H.
  rewrite take_app_le by lia. split.
  - rewrite !length_app, length_take, length_drop, length_app, length_replicate. lia.
  - rewrite app_assoc, take_app_length'; [done|]. rewrite length_app, length_take. lia.
Qed.

Lemma fill_waiting Limit chunks b :
  buffer_ok b → buffer_ok (fill Limit chunks b) ∧ waiting (fill Limit chunks b) = waiting b ++ taken Limit (size b) chunks.
Proof.
  revert b. induction chunks as [|[chunk|] chunks IH]; intros b H; simpl; [by rewrite app_nil_r| |].
  - destruct (size b <? Limit); [|by rewrite app_nil_r].
    destruct chunk as [|x chunk]; simpl.
    + destruct (IH b H) as [H1 H2]. by rewrite H2, Nat.add_0_r.
    + destruct (append_chunk_waiting (x :: chunk) b H) as [H1 H2].
      destruct (IH _ H1) as [H3 H4]. split; [done|]. rewrite H4, H2. by rewrite <- app_assoc.
  - destruct (size b <? Limit); by rewrite app_nil_r.
Qed.

Lemma send_loop_bounds answers n written ok written' :
  written ≤ n → honest answers (n - written) → send_loop answers n written = Some (ok, written') → written ≤ written' ≤ n.
Proof.
  revert written. induction answers as [|c answers IH]; intros written Hw Hh; simpl.
  - destruct (_ =? 0); naive_solver lia.
  - destruct Hh as [Hc Hh]. destruct (n - written =? 0) eqn:E; [naive_solver lia|].
    destruct (_ && _); [naive_solver lia|]. destruct (Z.leb_spec (ret c) 0); [naive_solver lia|].
    intros HS. apply IH in HS; [lia|lia|]. by replace (n - (written + Z.to_nat (ret c))) with (n - written - Z.to_nat (ret c)) by lia.
Qed.

Lemma write_in_order Limit chunks answers b ok b' out :
  buffer_ok b → honest answers (size (fill Limit chunks b)) →
  write Limit chunks answers b = Some (ok, b', out) →
  buffer_ok b' ∧
  ∃ rest, out ++ rest = waiting b ++ taken Limit (size b) chunks ∧ (ok = true → rest = waiting b').
Proof.
  intros Hb Hh. unfold write. destruct (fill_waiting Limit chunks b Hb) as [Hf <-].
  set (b1 := fill Limit chunks b) in *.
  destruct (send_loop answers (size b1) 0) as [[ok1 written]|] eqn:E; [|done]. simpl.
  apply send_loop_bounds in E; [|lia|by rewrite Nat.sub_0_r].
  assert (Hsplit : take written (buffer b1) ++ take (size b1 - written) (drop written (buffer b1)) = waiting b1).
  { unfold waiting. rewrite take_take_drop. f_equal. lia. }
  unfold buffer_ok in *. intros H. destruct ok1; simplify_eq.
  - split.
    + simpl. rewrite length_app, length_take, !length_drop. lia.
    + exists (take (size b1 - written) (drop written (buffer b1))). split; [done|]. intros _.
      unfold waiting. simpl. rewrite take_app_length'; [done|]. rewrite length_take, length_drop. lia.
  - split; [done|]. eexists. split; [exact Hsplit|done].
Qed.

(** A socket that is full says so with a value of [-1], which ends the connection. *)
Lemma full_socket_fails Limit chunks b answers :
  0 < size (fill Limit chunks b) →
  write Limit chunks (mkcall (-1) true :: answers) b
  = Some (false, fill Limit chunks b, []).
Proof.
  intros H. unfold write. simpl.
  destruct (Nat.eqb_spec (size (fill Limit chunks b) - 0) 0); [lia|]. simpl. by rewrite take_0.
Qed.
