(* ===== verification/Outcome.v ===== *)
(** * Outcome: code that may be undefined

    A monad for code that ends with a value or an exception, or is undefined:
    access outside a container, or an assertion that does not hold; and two ways to
    reason about it, which say that it is defined ([good]), or what it ends with if
    it ends with a value ([ends]). *)

From S2P Require Import Prelude.

Inductive run (A : Type) : Type := Ret (a : A) | Throws (e : exn) | Undefined.
Arguments Ret {A} a.
Arguments Throws {A} e.
Arguments Undefined {A}.

#[export] Instance run_ret : MRet run := @Ret.
#[export] Instance run_bind : MBind run := λ A B f m,
  match m with Ret a => f a | Throws e => Throws e | Undefined => Undefined end.

Definition of_result {A} (r : result A) : run A := match r with Ok a => Ret a | Throw e => Throws e end.
Definition of_option {A} (o : option A) : run A := match o with Some a => Ret a | None => Undefined end.

(** ** What it ends with *)

Definition good {A} (m : run A) (P : A → Prop) : Prop :=
  match m with Ret a => P a | Throws _ => True | Undefined => False end.

Lemma good_bind {A B} (m : run A) (f : A → run B) P Q :
  good m P → (∀ a, P a → good (f a) Q) → good (m ≫= f) Q.
Proof. destruct m; simpl; auto. Qed.

Lemma good_weaken {A} (m : run A) (P Q : A → Prop) : good m P → (∀ a, P a → Q a) → good m Q.
Proof. destruct m; simpl; auto. Qed.

Lemma good_result {A} (r : result A) : good (of_result r) (λ _, True).
Proof. by destruct r. Qed.

(** Code that ends with a value ends with one that has the property. *)
Definition ends {A} (m : run A) (P : A → Prop) : Prop := match m with Ret a => P a | _ => True end.

Lemma ends_then {A B} (m : run A) (f : A → run B) P Q :
  ends m P → (∀ a, P a → ends (f a) Q) → ends (m ≫= f) Q.
Proof. destruct m; simpl; auto. Qed.

Lemma ends_weaken {A} (m : run A) (P Q : A → Prop) : ends m P → (∀ a, P a → Q a) → ends m Q.
Proof. destruct m; simpl; auto. Qed.

Lemma good_ends {A} (m : run A) P : good m P → ends m P.
Proof. by destruct m. Qed.

Lemma ends_option {A} (o : option A) P : (∀ a, o = Some a → P a) → ends (of_option o) P.
Proof. destruct o; simpl; auto. Qed.
