(* ===== verification/Rest.v ===== *)
(** * Rest: [majordomo/RestServer.hpp], sessions

    What a connection of an HTTP client is: requests that arrive in pieces on
    streams, requests that wait for the broker, long polls that wait for
    notifications, and the responses that are handed to the HTTP library.  The
    library (nghttp2 or nghttp3) is what calls the callbacks, and what takes responses or
    refuses them; a response is what is handed over. *)

From S2P Require Import Prelude Text Uri Outcome.
From S2P Require Topic Message LongPolling Mime.
Local Open Scope nat_scope.

Definition message : Type := Message.message Message.WithSourceId.

(** ** Requests *)

Inductive RestMethod : Type := Options | Get | LongPoll | Post | Invalid.

#[export] Instance RestMethod_eq_dec : EqDecision RestMethod.
Proof. solve_decision. Defined.

Definition parseMethod (methodString : bytes) : RestMethod :=
  if bool_decide (methodString = str "OPTIONS") then Options
  else if bool_decide (methodString = str "PUT") then Post
  else if bool_decide (methodString = str "POST") then Post
  else if bool_decide (methodString = str "GET") then Get
  else Invalid.

Record Request : Type := mkrequest {
  rawHeaders : list (bytes * bytes);
  topic : Topic.t;
  method : RestMethod;
  longPollIndex : option bytes;
  longPollBatch : option bytes;
  contentType : bytes;
  accept : bytes;
  payload : bytes;
  complete : bool
}.

Definition empty_request : Request := mkrequest [] (Topic.mk [] ∅) Invalid None None [] [] [] false.

Definition acceptableMimeTypes : list bytes := Mime.typeName <$> [Mime.JSON; Mime.HTML; Mime.BINARY].

(** [accepted] *)
Definition accepted (format : bytes) : option bytes := snd <$> list_find (λ t, t = format) acceptableMimeTypes.

Definition isDelimiter (c : ascii) : bool := eqc c " " || eqc c ",".

(** The loop over the words of the header; a turn reads a word. *)
Fixpoint accept_loop (fuel : nat) (from : bytes) : option bytes :=
  match fuel, from with
  | _, [] => None
  | O, _ => None
  | S fuel', _ =>
      let from1 := drop_while isDelimiter from in
      let format := take_while (λ c, negb (isDelimiter c)) from1 in
      let to := drop_while (λ c, negb (isDelimiter c)) from1 in
      match (match from1 with [] => None | _ => accepted format end) with
      | Some t => Some t
      | None => accept_loop fuel' to
      end
  end.

Definition acceptedMime (r : Request) : bytes :=
  match (if is_nil (contentType r) then None else accepted (contentType r)) with
  | Some t => t
  | None =>
      match (Topic._params (topic r) !! str "contentType") ≫= (λ v, v ≫= accepted) with
      | Some t => t
      | None => default (nth 0 acceptableMimeTypes []) (accept_loop (length (accept r)) (accept r))
      end
  end.

(** ** Responses *)

(** The body of [rest::Response]: data of its own, or of the handler, or what the
    handler's function will write. *)
Inductive Body : Type := Owned (b : bytes) | View (b : bytes) | Reader (f : Z).

Record Response : Type := mkresponse { code : Z; headers : list (bytes * bytes); body : Body }.

(** [ResponseData]: one of the two, the other as it was constructed. *)
Record ResponseData : Type := mkdata { d_message : message; d_rest : Response }.

(** What the library is given: the headers, and the source of a body. *)
Record submission : Type := mksubmission { s_stream : Z; s_headers : list (bytes * bytes); s_body : option Body }.

Definition kHttpOk : Z := 200.
Definition kHttpBadRequest : Z := 400.
Definition kHttpError : Z := 500.
Definition kFileNotFound : Z := 404.

(** ** The cache of notifications *)

Record SubscriptionCacheEntry : Type := mkentry { firstIndex : Z; messages : list message }.

Definition kCapacity : nat := 100.

Definition empty_entry : SubscriptionCacheEntry := mkentry 0 [].

Definition add (m : message) (e : SubscriptionCacheEntry) : SubscriptionCacheEntry :=
  if length (messages e) =? kCapacity
  then mkentry (wrapu 64 (firstIndex e + 1)) (drop 1 (messages e) ++ [m])
  else mkentry (firstIndex e) (messages e ++ [m]).

Definition lastIndex (e : SubscriptionCacheEntry) : Z := wrapu 64 (firstIndex e + Z.of_nat (length (messages e)) - 1).
Definition nextIndex (e : SubscriptionCacheEntry) : Z := wrapu 64 (firstIndex e + Z.of_nat (length (messages e))).

(** ** Handlers *)

Record rest_request : Type := mkrest { q_method : bytes; q_path : bytes; q_headers : list (bytes * bytes) }.

Record Handler : Type := mkhandler { h_method : bytes; h_path : bytes; handler : rest_request → Response }.

(** One turn: the handler that is found, or the best so far. *)
Fixpoint find_loop (method path : bytes) (handlers : list Handler) (best : option Handler) : option Handler :=
  match handlers with
  | [] => best
  | h :: handlers' =>
      if negb (bool_decide (h_method h = method)) then find_loop method path handlers' best
      else if bool_decide (h_path h = path) then Some h
      else if ends_with (h_path h) (str "*")
              && starts_with path (take (length (h_path h) - 1) (h_path h))
              && match best with Some b => length (h_path b) <? length (h_path h) | None => true end
           then find_loop method path handlers' (Some h)
           else find_loop method path handlers' best
  end.

Definition findHandler (handlers : list Handler) (method path : bytes) : option Handler :=
  find_loop method path handlers None.

(** ** Sessions *)

Inductive Mode : Type := None_ | AllAvailable | FixedCount.

#[export] Instance Mode_eq_dec : EqDecision Mode.
Proof. solve_decision. Defined.

Record LongPollingBatchRequest : Type := mkbatch { mode : Mode; count : Z }.

Record PendingPoll : Type := mkpoll { p_topic : bytes; p_index : Z; p_batch : LongPollingBatchRequest; p_stream : Z }.

(** The two instances of the template: [Http2Session] and [Http3Session]. *)
Inductive protocol : Type := Http2 | Http3.

#[export] Instance protocol_eq_dec : EqDecision protocol.
Proof. solve_decision. Defined.

(** [SessionBase], and what was given to the library, in this order. *)
Record session : Type := mksession {
  kind : protocol;
  requests : list (Z * Request);         (* _requestsByStreamId, in the order of the streams *)
  responses : gmap Z ResponseData;
  pendingRequests : list (Z * Z);        (* request, stream *)
  pendingPolls : list PendingPoll;
  submitted : list submission
}.

Definition set_requests (r : list (Z * Request)) (s : session) : session :=
  mksession (kind s) r (responses s) (pendingRequests s) (pendingPolls s) (submitted s).
Definition set_responses (r : gmap Z ResponseData) (s : session) : session :=
  mksession (kind s) (requests s) r (pendingRequests s) (pendingPolls s) (submitted s).
Definition set_pendingRequests (r : list (Z * Z)) (s : session) : session :=
  mksession (kind s) (requests s) (responses s) r (pendingPolls s) (submitted s).
Definition set_pendingPolls (r : list PendingPoll) (s : session) : session :=
  mksession (kind s) (requests s) (responses s) (pendingRequests s) r (submitted s).

(** [std::map]: a list in the order of the keys. *)
Fixpoint lookup_key {A} (k : Z) (l : list (Z * A)) : option A :=
  match l with [] => None | (k', x) :: l' => if (k =? k')%Z then Some x else lookup_key k l' end.

Fixpoint replace_key {A} (k : Z) (f : A → A) (l : list (Z * A)) : list (Z * A) :=
  match l with
  | [] => []
  | (k', x) :: l' => if (k =? k')%Z then (k', f x) :: l' else (k', x) :: replace_key k f l'
  end.

Fixpoint insert_key {A} (k : Z) (x : A) (l : list (Z * A)) : list (Z * A) :=
  match l with
  | [] => [(k, x)]
  | (k', y) :: l' => if (k <? k')%Z then (k, x) :: l else (k', y) :: insert_key k x l'
  end.

(** [map[k]], changed by [f]; inserted if it is not there. *)
Definition update_key {A} (k : Z) (fresh : A) (f : A → A) (l : list (Z * A)) : list (Z * A) :=
  match lookup_key k l with Some _ => replace_key k f l | None => insert_key k (f fresh) l end.

Definition erase_key {A} (k : Z) (l : list (Z * A)) : list (Z * A) := filter (λ x, x.1 ≠ k) l.

(** [std::ranges::partition_point], the binary search of the library: the number
    of elements before the point. *)
Fixpoint partition_loop {A} (p : A → bool) (l : list A) (fuel first len : nat) : nat :=
  match fuel with
  | O => first
  | S fuel' =>
      if len =? 0 then first
      else
        let half := len / 2 in
        if match l !! (first + half) with Some x => p x | None => false end
        then partition_loop p l fuel' (first + half + 1) (len - half - 1)
        else partition_loop p l fuel' first half
  end.

Definition partition_point {A} (p : A → bool) (l : list A) : nat := partition_loop p l (length l) 0 (length l).

(** What the library says to a response, given those it has; what the decoder of
    references may read (see [Uri.decode]); uninitialised members; the order in
    which hash tables are walked; the clock; the texts of exceptions; and the value
    of the header that offers HTTP/3, if there is one ([_altSvcHeaderValue]). *)
Class Environment : Type := {
  accepts : list submission → submission → bool;
  uninit : Z;
  uninit_id : Z;
  uninit_code : Z;
  walk : gmap bytes (option bytes) → list (bytes * option bytes);
  timestamp : Z;
  what : exn → bytes;
  altSvc : bytes
}.

Section sessions.
Context `{env : Environment}.

Definition empty_message : message :=
  Message.mkmsg (f := Message.WithSourceId) [] uninit_id 0 Message.default_timeout [] Message.Invalid (str "/") []
    Message.root_topic [] [] [].

(** [id] is [0] where the message is value-initialised. *)
Definition error_message (id : Z) (error : bytes) : message :=
  Message.mkmsg (f := Message.WithSourceId) [] id 0 Message.default_timeout [] Message.Invalid (str "/") []
    Message.root_topic [] error [].

Definition empty_response : Response := mkresponse uninit_code [] (Owned []).

(** ** Sending *)

Definition alt_header (s : session) : list (bytes * bytes) :=
  if bool_decide (kind s = Http2) && negb (is_nil altSvc) then [(str "alt-svc", altSvc)] else [].

(** [nghttp2_submit_response2], [nghttp3_conn_submit_response]: a refused response
    is dropped. *)
Definition submit (x : submission) (s : session) : session :=
  if accepts (submitted s) x
  then mksession (kind s) (requests s) (responses s) (pendingRequests s) (pendingPolls s) (submitted s ++ [x])
  else set_responses (delete (s_stream x) (responses s)) s.

(** [try_emplace]: the response that is there stays. *)
Definition emplace_response (streamId : Z) (d : ResponseData) (s : session) : ResponseData * session :=
  match responses s !! streamId with
  | Some d' => (d', s)
  | None => (d, set_responses (<[streamId := d]> (responses s)) s)
  end.

(** Over HTTP/3 there is always a source, which may be empty. *)
Definition body_source (k : protocol) (r : Response) : option Body :=
  match body r with
  | Reader f => Some (Reader f)
  | View v => if is_nil v then match k with Http2 => None | Http3 => Some (Owned []) end else Some (View v)
  | Owned b => if bool_decide (k = Http2) && is_nil b then None else Some (Owned b)
  end.

(** [sendResponse(streamId, response)] *)
Definition sendResponse (streamId : Z) (response : Response) (s : session) : session :=
  let '(d, s1) := emplace_response streamId (mkdata empty_message response) s in
  let r := d_rest d in
  submit (mksubmission streamId
            ([(str ":status", to_dec (code r)); (str "access-control-allow-origin", str "*")] ++ alt_header s ++ headers r)
            (body_source (kind s) r)) s1.

(** [sendResponse(streamId, code, message, headers)] *)
Definition sendMessage (streamId responseCode : Z) (m : message) (extra : list (bytes * bytes)) (s : session) : session :=
  let '(d, s1) := emplace_response streamId (mkdata m empty_response) s in
  let msg := d_message d in
  let buf := if is_nil (Message.error msg) then Message.data msg else Message.error msg in
  submit (mksubmission streamId
            ([(str ":status", to_dec responseCode); (str "x-opencmw-topic", u_str (Message.topic msg));
              (str "x-opencmw-service-name", Message.serviceName msg); (str "access-control-allow-origin", str "*");
              (str "content-length", to_dec (Z.of_nat (length buf)))] ++ alt_header s ++ extra)
            (Some (Owned buf))) s1.

Definition respondToCorsPreflight (streamId : Z) : session → session :=
  sendResponse streamId
    (mkresponse 204
       [(str "access-control-allow-methods", str "GET, POST, OPTIONS");
        (str "access-control-allow-headers", str "content-type, accept");
        (str "access-control-max-age", str "86400"); (str "content-length", str "0")] (Owned [])).

Definition index_header (index : Z) : bytes * bytes := (str "x-opencmw-long-polling-idx", to_dec index).

Definition respondToLongPoll (streamId index : Z) (m : message) : session → session :=
  sendMessage streamId kHttpOk m [index_header index; (str "x-timestamp", to_dec timestamp)].

Definition respondToLongPollWithError (streamId : Z) (error : bytes) (code index : Z) : session → session :=
  sendMessage streamId code (error_message 0 error) [index_header index].

Definition respondWithError (streamId : Z) (error : bytes) (code : Z) : session → session :=
  sendMessage streamId code (error_message 0 error) [].

(** [URI<>::UriFactory(uri)] of a reference whose authority was not asked for. *)
Definition factory_of_uri (u : uri) : factory :=
  mkfactory (u_authority u) (u_scheme u) [] [] [] None (u_path u) (u_query u) (u_fragment u) [].

Definition with_queryMap (m : gmap bytes (option bytes)) (f : factory) : factory :=
  mkfactory (f_authority f) (f_scheme f) (f_user f) (f_pwd f) (f_host f) (f_port f) (f_path f) (f_query f) (f_fragment f)
    (walk m).

(** [factory.setQuery({})] *)
Definition without_query (f : factory) : factory :=
  mkfactory (f_authority f) (f_scheme f) (f_user f) (f_pwd f) (f_host f) (f_port f) (f_path f) [] (f_fragment f) [].

Definition redirect_query (longPollIdx : Z) (batch : option bytes) : gmap bytes (option bytes) :=
  let m := {[ LongPolling.kIndexParameter := Some (to_dec longPollIdx) ]} in
  match batch with Some b => <[LongPolling.kBatchParameter := Some b]> m | None => m end.

Definition respondWithLongPollingRedirect (streamId : Z) (topic : uri) (longPollIdx : Z) (batch : option bytes)
    (s : session) : run session :=
  location ← of_result (build STRICT (with_queryMap (redirect_query longPollIdx batch) (factory_of_uri topic)));
  Ret (sendResponse streamId (mkresponse 302 [(str "location", u_str location); (str "content-length", str "0")] (Owned [])) s).

(** ** Long polls *)

Definition message_text (m : message) : bytes := if is_nil (Message.error m) then Message.data m else Message.error m.

Definition part_of (index : Z) (m : message) : LongPolling.BatchPart :=
  LongPolling.mkpart index (u_str (Message.topic m)) (Message.serviceName m) (message_text m).

(** The texts of [LongPolling.encodeBatch]'s errors are that of the first part
    that cannot be written. *)
Definition batch_error_text : bytes := str "Multipart topic and service name must not contain CR or LF".

(** [entry.messages[firstOffset + offset]] is not checked. *)
Fixpoint batch_parts (e : SubscriptionCacheEntry) (firstIndex_ : Z) (firstOffset : Z) (offset n : nat)
    : run (list LongPolling.BatchPart) :=
  match n with
  | O => Ret []
  | S n' =>
      m ← of_option (messages e !! Z.to_nat (wrapu 64 (firstOffset + Z.of_nat offset)));
      ps ← batch_parts e firstIndex_ firstOffset (S offset) n';
      Ret (part_of (wrapu 64 (firstIndex_ + Z.of_nat offset)) m :: ps)
  end.

(** What is made of the parts. *)
Definition send_parts (streamId first : Z) (parts : list LongPolling.BatchPart) (s : session) : session :=
  match LongPolling.encodeBatch parts with
  | inr _ => respondToLongPollWithError streamId batch_error_text kHttpError first s
  | inl encoded =>
      sendResponse streamId
        (mkresponse kHttpOk
           [(str "content-type", str "multipart/mixed; boundary=" ++ LongPolling.kBoundary);
            (str "content-length", to_dec (Z.of_nat (length encoded))); index_header first]
           (Owned encoded)) s
  end.

Definition respondToLongPollBatch (streamId : Z) (e : SubscriptionCacheEntry) (first : Z) (n : Z) (s : session) : run session :=
  parts ← batch_parts e first (wrapu 64 (first - firstIndex e)) 0 (Z.to_nat n);
  Ret (send_parts streamId first parts s).

Inductive poll_error : Type := Malformed | OutOfBounds.

Definition poll_error_text (name value : bytes) (e : poll_error) : bytes :=
  match e with
  | Malformed => str "Malformed " ++ name ++ str " '" ++ value ++ str "'"
  | OutOfBounds => str "LongPollingBatch must be between 1 and 100"
  end.

Definition parseLongPollingBatch (r : Request) : LongPollingBatchRequest + bytes :=
  match longPollBatch r with
  | None => inl (mkbatch None_ 1)
  | Some b =>
      if bool_decide (b = LongPolling.kAllAvailable) then inl (mkbatch AllAvailable 1)
      else
        match LongPolling.parseUnsigned b with
        | inr _ => inr (poll_error_text LongPolling.kBatchParameter b Malformed)
        | inl n =>
            if ((n =? 0) || (Z.of_nat kCapacity <? n))%Z then inr (poll_error_text LongPolling.kBatchParameter b OutOfBounds)
            else inl (mkbatch FixedCount n)
        end
  end.

Definition max64 : Z := 2 ^ 64 - 1.
Definition overflow_text : bytes := str "LongPollingIdx + LongPollingBatch overflows".

Definition is_index (word : string) (r : Request) : bool := bool_decide (longPollIndex r = Some (str word)).

Definition parse_index (r : Request) : option Z + bytes :=
  if negb (is_index "Next" r) && negb (is_index "Last" r) then
    let v := default [] (longPollIndex r) in
    match LongPolling.parseUnsigned v with
    | inr _ => inr (poll_error_text LongPolling.kIndexParameter v Malformed)
    | inl i => inl (Some i)
    end
  else inl None.

Definition push_poll (p : PendingPoll) (s : session) : session := set_pendingPolls (pendingPolls s ++ [p]) s.

Definition cache : Type := gmap bytes SubscriptionCacheEntry.

Definition toMdpTopic (t : Topic.t) : run uri := of_result (Topic.toMdpTopic (walk (Topic._params t)) t).

(** What the broker is asked for the first poll of a topic. *)
Definition subscribe_message (u : uri) : message :=
  Message.mkmsg (f := Message.WithSourceId) [] 0 0 Message.default_timeout [] Message.Subscribe (str "/") [] u [] [] [].

(** The answer to a poll with an index, when the entry is known. *)
Definition poll_indexed (streamId : Z) (r : Request) (zmqTopic : bytes) (e : SubscriptionCacheEntry) (batch : LongPollingBatchRequest)
    (index : Z) (s : session) : run session :=
  let empty := bool_decide (messages e = []) in
  match mode batch with
  | AllAvailable =>
      if negb empty && (index <=? lastIndex e)%Z then
        let first := Z.max index (firstIndex e) in
        respondToLongPollBatch streamId e first (wrapu 64 (nextIndex e - first)) s
      else Ret (push_poll (mkpoll zmqTopic index batch streamId) s)
  | FixedCount =>
      let first := if empty then index else Z.max index (firstIndex e) in
      if (max64 - (count batch - 1) <? first)%Z then
        Ret (respondToLongPollWithError streamId overflow_text kHttpBadRequest first s)
      else
        let lastRequested := wrapu 64 (first + count batch - 1) in
        if empty || (lastIndex e <? lastRequested)%Z
        then Ret (push_poll (mkpoll zmqTopic first batch streamId) s)
        else respondToLongPollBatch streamId e first (count batch) s
  | None_ =>
      if (index <? firstIndex e)%Z then
        u ← toMdpTopic (topic r);
        respondWithLongPollingRedirect streamId u (nextIndex e) None s
      else if empty || (lastIndex e <? index)%Z then Ret (push_poll (mkpoll zmqTopic index batch streamId) s)
      else
        m ← of_option (messages e !! Z.to_nat (wrapu 64 (index - firstIndex e)));
        Ret (respondToLongPoll streamId index m s)
  end.

Definition processLongPollRequest (streamId : Z) (r : Request) (c : cache) (s : session)
    : run (option message * cache * session) :=
  match parse_index r with
  | inr e => Ret (None, c, respondWithError streamId e kHttpBadRequest s)
  | inl parsedIndex =>
      match parseLongPollingBatch r with
      | inr e =>
          Ret (None, c, match parsedIndex with
                        | Some i => respondToLongPollWithError streamId e kHttpBadRequest i s
                        | None => respondWithError streamId e kHttpBadRequest s
                        end)
      | inl batch =>
          if match parsedIndex with
             | Some i => bool_decide (mode batch = FixedCount) && (max64 - (count batch - 1) <? i)%Z
             | None => false
             end
          then Ret (None, c, respondToLongPollWithError streamId overflow_text kHttpBadRequest (default 0%Z parsedIndex) s)
          else
            let zmqTopic := Topic.toZmqTopic true (topic r) in
            '(result, c1) ← match c !! zmqTopic with
                            | Some _ => Ret (None, c)
                            | None => u ← toMdpTopic (topic r);
                                      Ret (Some (subscribe_message u), <[zmqTopic := empty_entry]> c)
                            end;
            e ← of_option (c1 !! zmqTopic);
            s1 ← (if is_index "Next" r then
                    u ← toMdpTopic (topic r);
                    respondWithLongPollingRedirect streamId u (nextIndex e) (longPollBatch r) s
                  else if is_index "Last" r then
                    u ← toMdpTopic (topic r);
                    let last := if bool_decide (messages e = []) then nextIndex e else lastIndex e in
                    respondWithLongPollingRedirect streamId u last (longPollBatch r) s
                  else
                    index ← of_option parsedIndex;
                    poll_indexed streamId r zmqTopic e batch index s);
            Ret (result, c1, s1)
      end
  end.

(** ** Requests for the broker *)

(** [IdGenerator] *)
Definition generateId (next : Z) : Z * Z := (next, wrapu 64 (next + 1)).

Definition set_topic (t : Topic.t) (r : Request) : Request :=
  mkrequest (rawHeaders r) t (method r) (longPollIndex r) (longPollBatch r) (contentType r) (accept r) (payload r) (complete r).

Definition processGetSetRequest (streamId : Z) (r : Request) (next : Z) (s : session) : run (message * Z * session) :=
  let t := Topic.addParam (str "contentType") (acceptedMime r) (topic r) in
  u ← toMdpTopic t;
  let '(id, next') := generateId next in
  Ret (Message.mkmsg (f := Message.WithSourceId) [] uninit_id 0 Message.default_timeout []
         (if bool_decide (method r = Get) then Message.Get else Message.Set_) (Topic._service t) (to_dec id) u (payload r) [] [],
       next', set_pendingRequests (pendingRequests s ++ [(id, streamId)]) s).

(** ** Pieces of requests *)

Definition addData (streamId : Z) (data : bytes) (s : session) : session :=
  set_requests
    (update_key streamId empty_request
       (λ r, mkrequest (rawHeaders r) (topic r) (method r) (longPollIndex r) (longPollBatch r) (contentType r) (accept r)
               (payload r ++ data) (complete r)) (requests s)) s.

Definition addHeader (streamId : Z) (name value : bytes) (s : session) : session :=
  set_requests
    (update_key streamId empty_request
       (λ r, mkrequest (rawHeaders r ++ [(name, value)]) (topic r) (method r) (longPollIndex r) (longPollBatch r)
               (contentType r) (accept r) (payload r) (complete r)) (requests s)) s.

(** The loop over the headers: path, method, and the two that are kept. *)
Definition read_headers (r : Request) : bytes * bytes * Request :=
  foldl (λ '(path, method_, r) '(name, value),
           if bool_decide (name = str ":path") then (value, method_, r)
           else if bool_decide (name = str ":method") then (path, value, r)
           else if bool_decide (name = str "content-type") then
             (path, method_, mkrequest (rawHeaders r) (topic r) (method r) (longPollIndex r) (longPollBatch r) value (accept r)
                               (payload r) (complete r))
           else if bool_decide (name = str "accept") then
             (path, method_, mkrequest (rawHeaders r) (topic r) (method r) (longPollIndex r) (longPollBatch r) (contentType r)
                               value (payload r) (complete r))
           else (path, method_, r)) ([], [], r) (rawHeaders r).

Definition after_query (u : uri) : ascii := match u_fragment u with [] => chr 0 | _ => "#"%char end.

(** What the loop over the query parameters has found. *)
Record query_state : Type := mkquery {
  q_index : option bytes;
  q_batch : option bytes;
  q_context : option Topic.t;
  q_other : gmap bytes (option bytes)    (* the parameters of the factory *)
}.

Definition read_parameter (kv : bytes * option bytes) (q : query_state) : result query_state :=
  if bool_decide (kv.1 = LongPolling.kIndexParameter) then
    Ok (mkquery (Some (default [] kv.2)) (q_batch q) (q_context q) (q_other q))
  else if bool_decide (kv.1 = LongPolling.kBatchParameter) then
    Ok (mkquery (q_index q) (Some (default [] kv.2)) (q_context q) (q_other q))
  else if bool_decide (kv.1 = str "SubscriptionContext") then
    rbind (parseURI STRICT (default [] kv.2)) (λ u,
      rbind (Topic.fromMdpTopic uninit STRICT u) (λ t, Ok (mkquery (q_index q) (q_batch q) (Some t) (q_other q))))
  else Ok (mkquery (q_index q) (q_batch q) (q_context q) (<[kv.1 := kv.2]> (q_other q))).

Fixpoint read_parameters (l : list (bytes * option bytes)) (q : query_state) : result query_state :=
  match l with
  | [] => Ok q
  | kv :: l' => rbind (read_parameter kv q) (read_parameters l')
  end.

(** The [try] block: the parameters of the path, and the topic. *)
Definition parse_path (path : bytes) (r : Request) : result Request :=
  rbind (parseURI STRICT path) (λ pathUri,
    rbind (match queryParamMap STRICT (after_query pathUri) uninit (u_query pathUri) ∅ with
           | (Ok _, m) => read_parameters (walk m) (mkquery (longPollIndex r) (longPollBatch r) None ∅)
           | (Throw e, _) => Throw e
           end) (λ q,
      rbind (match q_context q with
             | Some t => Ok t
             | None => rbind (build STRICT (with_queryMap (q_other q) (without_query (factory_of_uri pathUri))))
                         (Topic.fromMdpTopic uninit STRICT)
             end) (λ t,
        Ok (mkrequest (rawHeaders r) t (method r) (q_index q) (q_batch q) (contentType r) (accept r) (payload r) (complete r))))).

(** What the request is asking for, once it is complete. *)
Definition completed (method_ : bytes) (r : Request) : Request :=
  let m := parseMethod method_ in
  let is_poll := match longPollIndex r, longPollBatch r with None, None => false | _, _ => true end in
  mkrequest (rawHeaders r) (topic r) (if bool_decide (m = Get) && is_poll then LongPoll else m)
    (longPollIndex r) (longPollBatch r) (contentType r) (accept r) (payload r) true.

Definition processCompletedRequest (handlers : list Handler) (streamId : Z) (s : session) : run session :=
  r0 ← of_option (lookup_key streamId (requests s));
  let '(path, method_, r) := read_headers r0 in
  match findHandler handlers method_ path with
  | Some h =>
      let s1 := sendResponse streamId (handler h (mkrest method_ path (rawHeaders r))) s in
      Ret (set_requests (erase_key streamId (requests s1)) s1)
  | None =>
      match parse_path (if bool_decide (path = str "/") then str "/mmi.service" else path) r with
      | Throw e =>
          let s1 := sendMessage streamId kFileNotFound (error_message uninit_id (what e)) [] s in
          Ret (set_requests (erase_key streamId (requests s1)) s1)
      | Ok r' => Ret (set_requests (update_key streamId r0 (λ _, completed method_ r') (requests s)) s)
      end
  end.

(** ** Handing over to the broker *)

(** One request of [getMessages]: what the broker is asked, the cache, the next
    identifier and the session. *)
Definition process_one (streamId : Z) (r : Request) (x : list message * cache * Z * session)
    : run (list message * cache * Z * session) :=
  let '(result, c, next, s) := x in
  match method r with
  | Options => Ret (result, c, next, respondToCorsPreflight streamId s)
  | Get | Post =>
      '(m, next', s') ← processGetSetRequest streamId r next s;
      Ret (result ++ [m], c, next', s')
  | LongPoll =>
      '(m, c', s') ← processLongPollRequest streamId r c s;
      Ret (result ++ match m with Some m => [m] | None => [] end, c', next, s')
  | Invalid => Ret (result, c, next, respondWithError streamId (str "Invalid REST method") kHttpError s)
  end.

Fixpoint process_all (l : list (Z * Request)) (x : list message * cache * Z * session)
    : run (list message * cache * Z * session) :=
  match l with
  | [] => Ret x
  | (streamId, r) :: l' => x' ← process_one streamId r x; process_all l' x'
  end.

Definition getMessages (c : cache) (next : Z) (s : session) : run (list message * cache * Z * session) :=
  let completeEnd := partition_point (λ x, complete x.2) (requests s) in
  '(result, c', next', s') ← process_all (take completeEnd (requests s)) ([], c, next, s);
  Ret (result, c', next', set_requests (drop completeEnd (requests s)) s').

(** ** Notifications *)

Definition last_requested (p : PendingPoll) : Z :=
  match mode (p_batch p) with
  | FixedCount => wrapu 64 (p_index p + count (p_batch p) - 1)
  | _ => p_index p
  end.

Definition ready (index : Z) (p : PendingPoll) : bool :=
  match mode (p_batch p) with None_ => (index =? p_index p)%Z | _ => (last_requested p <=? index)%Z end.

Definition answer_poll (c : cache) (m : message) (p : PendingPoll) (s : session) : run session :=
  match mode (p_batch p) with
  | None_ => Ret (respondToLongPoll (p_stream p) (p_index p) m s)
  | AllAvailable =>
      match c !! p_topic p with
      | Some e =>
          let first := Z.max (p_index p) (firstIndex e) in
          respondToLongPollBatch (p_stream p) e first (wrapu 64 (nextIndex e - first)) s
      | None => Ret s
      end
  | FixedCount =>
      match c !! p_topic p with
      | Some e => respondToLongPollBatch (p_stream p) e (p_index p) (count (p_batch p)) s
      | None => Ret s
      end
  end.

(** The loop over the polls; those that stay, in their order. *)
Fixpoint poll_loop (c : cache) (zmqTopic : bytes) (index : Z) (m : message) (polls : list PendingPoll) (s : session)
    : run (list PendingPoll * session) :=
  match polls with
  | [] => Ret ([], s)
  | p :: polls' =>
      if bool_decide (p_topic p = zmqTopic) && ready index p then
        s' ← answer_poll c m p s; poll_loop c zmqTopic index m polls' s'
      else '(kept, s') ← poll_loop c zmqTopic index m polls' s; Ret (p :: kept, s')
  end.

(** [SessionBase::handleNotification] *)
Definition notify_session (c : cache) (zmqTopic : bytes) (index : Z) (m : message) (s : session) : run session :=
  '(kept, s') ← poll_loop c zmqTopic index m (pendingPolls s) s; Ret (set_pendingPolls kept s').
(** ** What the libraries call *)

Inductive frame_type : Type := DATA | HEADERS | OtherFrame.

#[export] Instance frame_type_eq_dec : EqDecision frame_type.
Proof. solve_decision. Defined.

(** [f_end]: [NGHTTP2_FLAG_END_STREAM] *)
Record frame : Type := mkframe { f_type : frame_type; f_stream : Z; f_end : bool }.

Definition frame_recv_callback (handlers : list Handler) (f : frame) (s : session) : run session :=
  match f_type f with
  | DATA | HEADERS => if f_end f then processCompletedRequest handlers (f_stream f) s else Ret s
  | OtherFrame => Ret s
  end.

Definition erase_response (streamId : Z) (s : session) : session := set_responses (delete streamId (responses s)) s.

Definition frame_send_callback (f : frame) (s : session) : session :=
  if f_end f then erase_response (f_stream f) s else s.

Definition frame_not_send_callback (f : frame) (s : session) : session :=
  if bool_decide (f_type f = DATA) then erase_response (f_stream f) s else s.

Definition stream_closed_callback (streamId : Z) (s : session) : session :=
  let s1 := erase_response streamId s in
  match responses s !! streamId with
  | Some _ =>
      set_pendingPolls (filter (λ p, p_stream p ≠ streamId) (pendingPolls s1))
        (set_pendingRequests (filter (λ x, x.2 ≠ streamId) (pendingRequests s1)) s1)
  | None => s1
  end.

(** The calls of nghttp2, and of nghttp3, which says when a stream ends. *)
Inductive callback : Type :=
  | FrameRecv (f : frame)
  | FrameSend (f : frame)
  | FrameNotSend (f : frame)
  | DataChunk (streamId : Z) (data : bytes)
  | StreamClosed (streamId : Z)
  | Header (streamId : Z) (name value : bytes).

Definition call2 (handlers : list Handler) (c : callback) (s : session) : run session :=
  match c with
  | FrameRecv f => frame_recv_callback handlers f s
  | FrameSend f => Ret (frame_send_callback f s)
  | FrameNotSend f => Ret (frame_not_send_callback f s)
  | DataChunk streamId data => Ret (addData streamId data s)
  | StreamClosed streamId => Ret (stream_closed_callback streamId s)
  | Header streamId name value => Ret (addHeader streamId name value s)
  end.

Inductive callback3 : Type :=
  | RecvHeader (streamId : Z) (name value : bytes)
  | RecvData (streamId : Z) (data : bytes)
  | EndStream (streamId : Z)
  | StreamClose (streamId : Z).

Definition call3 (handlers : list Handler) (c : callback3) (s : session) : run session :=
  match c with
  | RecvHeader streamId name value => Ret (addHeader streamId name value s)
  | RecvData streamId data => Ret (addData streamId data s)
  | EndStream streamId => processCompletedRequest handlers streamId s
  | StreamClose _ => Ret s
  end.

Fixpoint calls {C} (step : C → session → run session) (cs : list C) (s : session) : run session :=
  match cs with
  | [] => Ret s
  | c :: cs' => s' ← step c s; calls step cs' s'
  end.

End sessions.
