(* ===== verification/RestServer.v ===== *)
(** * RestServer: [majordomo/RestServer.hpp], [struct RestServer]

    The sessions of the server, over TCP and over QUIC, the notifications they
    share, and what the broker calls: [processReadWrite] for what clients ask,
    [handleResponse] and [handleNotification] for what they are answered. *)

From S2P Require Import Prelude Text Uri Outcome Rest.
From S2P Require Topic Message Socket Client.
Local Open Scope nat_scope.

(** A connection over TCP, with the state of its socket; [std::map], in the order
    of the file descriptors. *)
Record tcp_session : Type := mktcp { t_state : Socket.State; t_session : session }.

(** Over QUIC a session is shared by the connection identifiers that lead to it:
    the table has references to the objects, in the order in which it is walked. *)
Record server : Type := mkserver {
  h2Sessions : list (Z * tcp_session);
  h3Sessions : list (bytes * nat);
  h3Objects : list session;
  subscriptionCache : cache;
  handlers : list Handler;
  nextRequestId : Z
}.

Definition set_h2 (l : list (Z * tcp_session)) (v : server) : server :=
  mkserver l (h3Sessions v) (h3Objects v) (subscriptionCache v) (handlers v) (nextRequestId v).
Definition set_h3 (l : list (bytes * nat)) (v : server) : server :=
  mkserver (h2Sessions v) l (h3Objects v) (subscriptionCache v) (handlers v) (nextRequestId v).
Definition set_objects (l : list session) (v : server) : server :=
  mkserver (h2Sessions v) (h3Sessions v) l (subscriptionCache v) (handlers v) (nextRequestId v).
Definition set_cache (c : cache) (v : server) : server :=
  mkserver (h2Sessions v) (h3Sessions v) (h3Objects v) c (handlers v) (nextRequestId v).
Definition setHandlers (l : list Handler) (v : server) : server :=
  mkserver (h2Sessions v) (h3Sessions v) (h3Objects v) (subscriptionCache v) l (nextRequestId v).
Definition set_nextRequestId (n : Z) (v : server) : server :=
  mkserver (h2Sessions v) (h3Sessions v) (h3Objects v) (subscriptionCache v) (handlers v) n.

Definition empty_server : server := mkserver [] [] [] ∅ [] 0.
Definition new_session (k : protocol) : session := mksession k [] ∅ [] [] [].
Definition set_session (s : session) (t : tcp_session) : tcp_session := mktcp (t_state t) s.

(** [std::from_chars] into 64 bits: the digits at the front. *)
Definition parse_id (view : bytes) : option Z :=
  match Client.from_chars_u 64 view with Parsed z => Some z | _ => None end.

Section server.
Context `{env : Environment}.

(** ** Answers of the broker *)

Definition matchesId (id : Z) (x : Z * Z) : bool := (x.1 =? id)%Z.

(** [std::vector::erase] of the request that was found first. *)
Definition erase_first {A} (p : A → bool) (l : list A) : list A :=
  match list_find (λ x, p x = true) l with Some (i, _) => delete i l | None => l end.

(** The answer in a session that has the request. *)
Definition respond (id : Z) (m : message) (s : session) : option session :=
  match list_find (λ x, matchesId id x = true) (pendingRequests s) with
  | Some (_, (_, streamId)) =>
      let s1 := sendMessage streamId (if is_nil (Message.error m) then kHttpOk else kHttpError) m [] s in
      Some (set_pendingRequests (erase_first (matchesId id) (pendingRequests s1)) s1)
  | None => None
  end.

(** [handle]: the first session that has it. *)
Fixpoint respond_tcp (id : Z) (m : message) (sessions : list (Z * tcp_session)) : option (list (Z * tcp_session)) :=
  match sessions with
  | [] => None
  | (fd, t) :: sessions' =>
      match respond id m (t_session t) with
      | Some s => Some ((fd, set_session s t) :: sessions')
      | None => cons (fd, t) <$> respond_tcp id m sessions'
      end
  end.

Fixpoint respond_quic (id : Z) (m : message) (table : list (bytes * nat)) (objects : list session) : option (list session) :=
  match table with
  | [] => None
  | (_, o) :: table' =>
      match objects !! o ≫= respond id m with
      | Some s => Some (<[o := s]> objects)
      | None => respond_quic id m table' objects
      end
  end.

Definition handleResponse (m : message) (v : server) : server :=
  match parse_id (Message.clientRequestID m) with
  | None => v
  | Some id =>
      match respond_tcp id m (h2Sessions v) with
      | Some l => set_h2 l v
      | None => match respond_quic id m (h3Sessions v) (h3Objects v) with
                | Some l => set_objects l v
                | None => v
                end
      end
  end.

(** ** Notifications *)

Fixpoint notify_tcp (c : cache) (zmqTopic : bytes) (index : Z) (m : message) (sessions : list (Z * tcp_session))
    : run (list (Z * tcp_session)) :=
  match sessions with
  | [] => Ret []
  | (fd, t) :: sessions' =>
      s ← notify_session c zmqTopic index m (t_session t);
      l ← notify_tcp c zmqTopic index m sessions';
      Ret ((fd, set_session s t) :: l)
  end.

Fixpoint notify_quic (c : cache) (zmqTopic : bytes) (index : Z) (m : message) (table : list (bytes * nat)) (objects : list session)
    : run (list session) :=
  match table with
  | [] => Ret objects
  | (_, o) :: table' =>
      s ← of_option (objects !! o);
      s' ← notify_session c zmqTopic index m s;
      notify_quic c zmqTopic index m table' (<[o := s']> objects)
  end.

Definition handleNotification (topic : Topic.t) (m : message) (v : server) : run server :=
  let zmqTopic := Topic.toZmqTopic true topic in
  match subscriptionCache v !! zmqTopic with
  | None => Ret v
  | Some entry =>
      let e := add m entry in
      let c := <[zmqTopic := e]> (subscriptionCache v) in
      let index := lastIndex e in
      back ← of_option (last (messages e));
      l2 ← notify_tcp c zmqTopic index back (h2Sessions v);
      l3 ← notify_quic c zmqTopic index back (h3Sessions v) (h3Objects v);
      Ret (set_objects l3 (set_h2 l2 (set_cache c v)))
  end.

(** ** What clients send *)

(** [accept] on the listening socket: nobody, or the socket of a connection. *)
Definition process_accept (ssl : bool) (newFd : option Z) (v : server) : run server :=
  match newFd with
  | None => Ret v
  | Some fd =>
      match lookup_key fd (h2Sessions v) with
      | Some _ => Undefined
      | None => let t := mktcp (Socket.accepted_state ssl) (new_session Http2) in
                Ret (set_h2 (update_key fd t (λ x, x) (h2Sessions v)) v)
      end
  end.

(** A turn of the loop that reads: the value of [read], what the library calls
    for these bytes, and what it says to them. *)
Record reading : Type := mkreading { r_call : Socket.call; r_calls : list callback; r_ok : bool }.

Definition read_size : Z := 1024.

(** The loop: whether the session is still there.  Without an answer, the call
    has not returned, which stands as the end of the loop. *)
Fixpoint read_loop (hs : list Handler) (readings : list reading) (s : session) : run (bool * session) :=
  match readings with
  | [] => Ret (true, s)
  | r :: readings' =>
      let n := Socket.ret (r_call r) in
      if ((n <=? 0)%Z && negb (Socket.again (r_call r))) then Ret (false, s)
      else if (n <? 0)%Z then Undefined
      else
        s' ← calls (call2 hs) (r_calls r) s;
        if negb (r_ok r) then Ret (false, s')
        else if (n =? read_size)%Z then read_loop hs readings' s'
        else Ret (true, s')
  end.

(** What happens on a connection over TCP when its file descriptor is ready. *)
Record tcp_io : Type := mkio {
  io_handshake : Socket.ssl_answer;
  io_write : option (list callback * bool);   (* if it is writable: what the library calls, and whether that worked *)
  io_read : option (list reading)             (* if it is readable *)
}.

Definition drop_session (fd : Z) (v : server) : server := set_h2 (erase_key fd (h2Sessions v)) v.
Definition put_session (fd : Z) (t : tcp_session) (v : server) : server :=
  set_h2 (update_key fd t (λ _, t) (h2Sessions v)) v.

(** [getMessages] of a session, with the cache and the numbers of the server. *)
Definition collect (s : session) (v : server) : run (list message * session * server) :=
  '(result, c, next, s') ← getMessages (subscriptionCache v) (nextRequestId v) s;
  Ret (result, s', set_nextRequestId next (set_cache c v)).

Definition process_tcp (fd : Z) (io : tcp_io) (v : server) : run (list message * server) :=
  t ← of_option (lookup_key fd (h2Sessions v));
  if negb (Socket.isReady (t_state t)) then
    let '(ok, st) := Socket.continueHandshake (io_handshake io) (t_state t) in
    Ret ([], if ok : bool then put_session fd (mktcp st (t_session t)) v else drop_session fd v)
  else
    '(ok, s1) ← match io_write io with
                | Some (cs, ok) => s1 ← calls (call2 (handlers v)) cs (t_session t); Ret (ok, s1)
                | None => Ret (true, t_session t)
                end;
    if negb ok then Ret ([], drop_session fd v)
    else
      match io_read io with
      | None => Ret ([], put_session fd (set_session s1 t) v)
      | Some readings =>
          '(ok, s2) ← read_loop (handlers v) readings s1;
          if negb ok then Ret ([], drop_session fd v)
          else '(result, s3, v') ← collect s2 v; Ret (result, put_session fd (set_session s3 t) v')
      end.

(** ** Over QUIC

    A packet as [read_pkt] sees it: the connection identifier it is for, what the
    library calls when it reads it, the identifiers it associates with the
    session, and whether that went well. *)
Record packet : Type := mkpacket { k_cid : bytes; k_calls : list callback3; k_scids : list bytes; k_ok : bool }.

Fixpoint lookup_cid (k : bytes) (l : list (bytes * nat)) : option nat :=
  match l with [] => None | (k', o) :: l' => if bool_decide (k = k') then Some o else lookup_cid k l' end.

(** [associate_cid]: an identifier that is in the table stays. *)
Definition associate_cid (o : nat) (l : list (bytes * nat)) (k : bytes) : list (bytes * nat) :=
  match lookup_cid k l with Some _ => l | None => l ++ [(k, o)] end.

(** The server, and the identifier if the session was touched. *)
Definition read_pkt (p : packet) (v : server) : run (option bytes * server) :=
  match lookup_cid (k_cid p) (h3Sessions v) with
  | None =>
      let o := length (h3Objects v) in
      s ← calls (call3 (handlers v)) (k_calls p) (new_session Http3);
      let table := foldl (associate_cid o) (h3Sessions v) (k_scids p) in
      Ret (if k_ok p
           then (Some (k_cid p), set_h3 (associate_cid o table (k_cid p)) (set_objects (h3Objects v ++ [s]) v))
           else (None, set_h3 table (set_objects (h3Objects v ++ [s]) v)))
  | Some o =>
      s ← of_option (h3Objects v !! o);
      s' ← calls (call3 (handlers v)) (k_calls p) s;
      let v' := set_h3 (foldl (associate_cid o) (h3Sessions v) (k_scids p)) (set_objects (<[o := s']> (h3Objects v)) v) in
      Ret (if k_ok p then Some (k_cid p) else None, v')
  end.

(** [on_read]: the identifiers of [_touchedSessions]. *)
Fixpoint on_read (packets : list packet) (v : server) : run (list bytes * server) :=
  match packets with
  | [] => Ret ([], v)
  | p :: packets' =>
      '(k, v1) ← read_pkt p v;
      '(touched, v2) ← on_read packets' v1;
      Ret (match k with Some k => k :: touched | None => touched end, v2)
  end.

Fixpoint collect_touched (touched : list bytes) (v : server) : run (list message * server) :=
  match touched with
  | [] => Ret ([], v)
  | k :: touched' =>
      match lookup_cid k (h3Sessions v) with
      | None => collect_touched touched' v
      | Some o =>
          s ← of_option (h3Objects v !! o);
          '(ms, s', v1) ← collect s v;
          '(messages, v2) ← collect_touched touched' (set_objects (<[o := s']> (h3Objects v1)) v1);
          Ret (ms ++ messages, v2)
      end
  end.

(** [gone]: [_sessionsToRemove], when the socket can be written to. *)
Definition process_quic (packets : list packet) (gone : list bytes) (v : server) : run (list message * server) :=
  '(touched, v1) ← on_read packets v;
  collect_touched touched (set_h3 (filter (λ x, x.1 ∉ gone) (h3Sessions v1)) v1).

(** ** The server at work *)

Inductive event : Type :=
  | Accept (ssl : bool) (newFd : option Z)
  | Tcp (fd : Z) (io : tcp_io)
  | Quic (packets : list packet) (gone : list bytes)
  | Response_ (m : message)
  | Notification (topic : Topic.t) (m : message)
  | SetHandlers (l : list Handler).

(** What the broker is asked, and the server. *)
Definition handle (x : event) (v : server) : run (list message * server) :=
  match x with
  | Accept ssl newFd => v' ← process_accept ssl newFd v; Ret ([], v')
  | Tcp fd io => process_tcp fd io v
  | Quic packets gone => process_quic packets gone v
  | Response_ m => Ret ([], handleResponse m v)
  | Notification topic m => v' ← handleNotification topic m v; Ret ([], v')
  | SetHandlers l => Ret ([], setHandlers l v)
  end.

(** The states that a run of the server passes through. *)
Inductive reachable : server → Prop :=
  | reachable_start : reachable empty_server
  | reachable_step x v ms v' : reachable v → handle x v = Ret (ms, v') → reachable v'.

End server.
