(* ===== verification/RestSpec.v ===== *)
(** * RestSpec: long polls against the history of a topic

    What a client may expect of a topic is said without a cache: the history of
    its notifications, all of them since the first poll, of which the last hundred
    can still be had.  A poll has an answer in some histories, and waits in the
    others; the server answers with that, as soon as there is one. *)

From S2P Require Import Prelude Text Uri Outcome Rest RestServer.
From S2P Require Topic Message LongPolling Socket.
Local Open Scope Z_scope.

(** ** The specification *)

Definition total (hs : list message) : Z := Z.of_nat (length hs).
Definition oldest (hs : list message) : Z := Z.max 0 (total hs - 100).

(** The [n] messages from an index on. *)
Definition range (hs : list message) (first n : Z) : list message := take (Z.to_nat n) (drop (Z.to_nat first) hs).

Inductive answer : Type :=
  | One (index : Z) (m : message)
  | Many (first : Z) (ms : list message)
  | TooOld (next : Z)
  | Overflows (first : Z).

Definition poll_answer (hs : list message) (batch : LongPollingBatchRequest) (index : Z) : option answer :=
  match mode batch with
  | None_ =>
      if index <? oldest hs then Some (TooOld (total hs))
      else if index <? total hs then One index <$> hs !! Z.to_nat index else None
  | AllAvailable =>
      if index <? total hs
      then let first := Z.max index (oldest hs) in Some (Many first (range hs first (total hs - first)))
      else None
  | FixedCount =>
      let first := Z.max index (oldest hs) in
      if 2 ^ 64 <? first + count batch then Some (Overflows first)
      else if first + count batch <=? total hs then Some (Many first (range hs first (count batch)))
      else None
  end.

(** The index that a poll waits with. *)
Definition waiting_index (hs : list message) (batch : LongPollingBatchRequest) (index : Z) : Z :=
  match mode batch with FixedCount => Z.max index (oldest hs) | _ => index end.

(** ** The cache is the end of the history *)

Definition entry_of (hs : list message) : SubscriptionCacheEntry :=
  mkentry (oldest hs) (drop (Z.to_nat (oldest hs)) hs).

Definition fits (hs : list message) : Prop := total hs < 2 ^ 64.

Lemma total_snoc hs m : total (hs ++ [m]) = total hs + 1.
Proof. unfold total. rewrite length_app. simpl. lia. Qed.

Lemma total_nonneg hs : 0 ≤ total hs.
Proof. unfold total. lia. Qed.

Lemma oldest_bounds hs : 0 ≤ oldest hs ≤ total hs ∧ total hs - oldest hs ≤ 100.
Proof. unfold oldest. pose proof (total_nonneg hs). lia. Qed.

Lemma entry_of_nil : entry_of [] = empty_entry.
Proof. done. Qed.

Lemma entry_of_length hs : Z.of_nat (length (messages (entry_of hs))) = total hs - oldest hs.
Proof. simpl. rewrite length_drop. pose proof (oldest_bounds hs). unfold total in *. lia. Qed.

Lemma add_entry_of m hs : fits (hs ++ [m]) → add m (entry_of hs) = entry_of (hs ++ [m]).
Proof.
  unfold fits. rewrite total_snoc. intros Hfit. pose proof (oldest_bounds hs). pose proof (entry_of_length hs) as HL.
  unfold add, kCapacity. destruct (Nat.eqb_spec (length (messages (entry_of hs))) 100) as [E|E].
  - assert (Ho : oldest (hs ++ [m]) = oldest hs + 1) by (unfold oldest in *; rewrite total_snoc; lia).
    unfold entry_of. rewrite Ho. simpl. f_equal; [apply wrapu_id; unfold in_u; lia|].
    rewrite drop_drop, drop_app_le by (unfold total in *; lia). do 2 f_equal. lia.
  - assert (Ho : oldest (hs ++ [m]) = oldest hs) by (unfold oldest in *; rewrite total_snoc; lia).
    unfold entry_of. rewrite Ho. simpl. rewrite drop_app_le by (unfold total in *; lia). done.
Qed.

Lemma nextIndex_entry_of hs : fits hs → nextIndex (entry_of hs) = total hs.
Proof.
  intros Hf. unfold nextIndex. rewrite entry_of_length. pose proof (oldest_bounds hs). simpl.
  rewrite wrapu_id; unfold in_u, fits in *; lia.
Qed.

Lemma lastIndex_entry_of hs : fits hs → hs ≠ [] → lastIndex (entry_of hs) = total hs - 1.
Proof.
  intros Hf Hn. unfold lastIndex. rewrite entry_of_length. pose proof (oldest_bounds hs). simpl.
  assert (0 < total hs) by (unfold total; destruct hs; simpl; [done|lia]).
  rewrite wrapu_id; unfold in_u, fits in *; lia.
Qed.

Lemma entry_of_empty hs : bool_decide (messages (entry_of hs) = []) = bool_decide (hs = []).
Proof.
  pose proof (entry_of_length hs) as HL. pose proof (oldest_bounds hs).
  apply bool_decide_ext. split; intros E.
  - rewrite E in HL. simpl in HL. unfold oldest, total in *. destruct hs; [done|]. simpl in *. lia.
  - by rewrite E.
Qed.

Lemma last_entry_of hs m : last (messages (entry_of (hs ++ [m]))) = Some m.
Proof.
  pose proof (oldest_bounds (hs ++ [m])). pose proof (oldest_bounds hs). simpl.
  assert (Z.to_nat (oldest (hs ++ [m])) ≤ length hs)%nat.
  { unfold oldest. rewrite total_snoc. unfold total in *. lia. }
  rewrite drop_app_le by done. apply last_snoc.
Qed.

(** A message of the cache, by its index in the history. *)
Lemma entry_of_lookup hs i :
  fits hs → oldest hs ≤ i < total hs →
  messages (entry_of hs) !! Z.to_nat (wrapu 64 (i - firstIndex (entry_of hs))) = hs !! Z.to_nat i.
Proof.
  intros Hf Hi. pose proof (oldest_bounds hs). simpl.
  rewrite wrapu_id by (unfold in_u, fits in *; lia). rewrite lookup_drop. f_equal. lia.
Qed.

(** ** Batches *)

Fixpoint parts_from (index : Z) (ms : list message) : list LongPolling.BatchPart :=
  match ms with [] => [] | m :: ms' => part_of index m :: parts_from (index + 1) ms' end.

Lemma batch_parts_range hs first n offset :
  fits hs → oldest hs ≤ first → first + Z.of_nat offset + Z.of_nat n ≤ total hs →
  batch_parts (entry_of hs) first (wrapu 64 (first - firstIndex (entry_of hs))) offset n
  = Ret (parts_from (first + Z.of_nat offset) (range hs (first + Z.of_nat offset) (Z.of_nat n))).
Proof.
  intros Hf Ho. revert offset. pose proof (oldest_bounds hs).
  induction n as [|n IH]; intros offset Hb; [unfold range; by rewrite take_0|].
  cbn [batch_parts].
  replace (wrapu 64 (wrapu 64 (first - firstIndex (entry_of hs)) + Z.of_nat offset))
    with (wrapu 64 ((first + Z.of_nat offset) - firstIndex (entry_of hs))) by (rewrite wrapu_add; f_equal; lia).
  rewrite entry_of_lookup by (done || lia).
  destruct (lookup_lt_is_Some_2 hs (Z.to_nat (first + Z.of_nat offset))) as [m Hm]; [unfold total in *; lia|].
  rewrite Hm, IH by lia. cbn [mbind option_bind run_bind of_option].
  unfold range. rewrite !Nat2Z.id, (drop_S _ _ _ Hm). cbn [take parts_from].
  rewrite wrapu_id by (unfold in_u, fits in *; lia).
  replace (first + Z.of_nat offset + 1) with (first + Z.of_nat (S offset)) by lia.
  by replace (S (Z.to_nat (first + Z.of_nat offset))) with (Z.to_nat (first + Z.of_nat (S offset))) by lia.
Qed.

Section spec.
Context `{env : Environment}.

Lemma batch_in_range streamId hs first n s :
  fits hs → oldest hs ≤ first → 0 ≤ n → first + n ≤ total hs →
  respondToLongPollBatch streamId (entry_of hs) first n s
  = Ret (send_parts streamId first (parts_from first (range hs first n)) s).
Proof.
  intros Hf Ho Hn Hb. unfold respondToLongPollBatch.
  rewrite batch_parts_range by (done || lia). rewrite Z.add_0_r, Z2Nat.id by done. done.
Qed.

(** What an answer is for the session; only a redirection looks at the topic. *)
Definition hand_over (streamId : Z) (a : answer) (s : session) : session :=
  match a with
  | One index m => respondToLongPoll streamId index m s
  | Many first ms => send_parts streamId first (parts_from first ms) s
  | Overflows first => respondToLongPollWithError streamId overflow_text kHttpBadRequest first s
  | TooOld _ => s
  end.

Definition deliver (streamId : Z) (topic : run uri) (a : answer) (s : session) : run session :=
  match a with
  | TooOld next => u ← topic; respondWithLongPollingRedirect streamId u next None s
  | _ => Ret (hand_over streamId a s)
  end.

(** A request for messages that [parseLongPollingBatch] makes. *)
Definition batch_ok (b : LongPollingBatchRequest) : Prop := mode b = FixedCount → 1 ≤ count b ≤ 100.

Lemma poll_indexed_refines streamId r zmqTopic hs batch index s :
  fits hs → batch_ok batch → in_u 64 index →
  poll_indexed streamId r zmqTopic (entry_of hs) batch index s
  = match poll_answer hs batch index with
    | Some a => deliver streamId (toMdpTopic (topic r)) a s
    | None => Ret (push_poll (mkpoll zmqTopic (waiting_index hs batch index) batch streamId) s)
    end.
Proof.
  intros Hf Hb Hi. unfold in_u in Hi. pose proof (oldest_bounds hs) as Hold.
  unfold poll_indexed, poll_answer, waiting_index. rewrite entry_of_empty, nextIndex_entry_of by done.
  change (firstIndex (entry_of hs)) with (oldest hs).
  assert (Hempty : hs = [] → total hs = 0 ∧ oldest hs = 0) by (intros ->; done).
  assert (Hlast : hs ≠ [] → lastIndex (entry_of hs) = total hs - 1) by (by apply lastIndex_entry_of).
  unfold fits in *. destruct (mode batch) eqn:Em.
  - destruct (Z.ltb_spec index (oldest hs)) as [H1|H1]; [done|].
    case_bool_decide as E; simpl.
    + destruct (Hempty E). rewrite (proj2 (Z.ltb_ge index (total hs))) by lia. done.
    + rewrite (Hlast E). destruct (Z.ltb_spec index (total hs)) as [H2|H2].
      * rewrite (proj2 (Z.ltb_ge (total hs - 1) index)) by lia.
        destruct (lookup_lt_is_Some_2 hs (Z.to_nat index)) as [m Hm]; [unfold total in *; lia|].
        pose proof (entry_of_lookup hs index) as HL. simpl in HL. rewrite HL, Hm by (done || lia). done.
      * rewrite (proj2 (Z.ltb_lt (total hs - 1) index)) by lia. done.
  - case_bool_decide as E; simpl.
    + destruct (Hempty E). rewrite (proj2 (Z.ltb_ge index (total hs))) by lia. done.
    + rewrite (Hlast E). destruct (Z.ltb_spec index (total hs)) as [H2|H2].
      * rewrite (proj2 (Z.leb_le index (total hs - 1))) by lia.
        rewrite wrapu_id by (unfold in_u; lia). by rewrite batch_in_range by (done || lia).
      * rewrite (proj2 (Z.leb_gt index (total hs - 1))) by lia. done.
  - specialize (Hb Em).
    assert (Hfirst : (if bool_decide (hs = []) then index else Z.max index (oldest hs)) = Z.max index (oldest hs)).
    { case_bool_decide as E; [|done]. destruct (Hempty E). lia. }
    rewrite Hfirst. set (first := Z.max index (oldest hs)). unfold max64.
    destruct (Z.ltb_spec (2 ^ 64) (first + count batch)) as [H1|H1].
    { rewrite (proj2 (Z.ltb_lt _ first)) by lia. done. }
    rewrite (proj2 (Z.ltb_ge _ first)) by lia. rewrite wrapu_id by (unfold in_u; lia).
    case_bool_decide as E; simpl.
    + destruct (Hempty E). rewrite (proj2 (Z.leb_gt _ (total hs))) by lia. done.
    + rewrite (Hlast E). destruct (Z.leb_spec (first + count batch) (total hs)) as [H2|H2].
      * rewrite (proj2 (Z.ltb_ge (total hs - 1) _)) by lia. by rewrite batch_in_range by (done || lia).
      * rewrite (proj2 (Z.ltb_lt (total hs - 1) _)) by lia. done.
Qed.

(** ** Notifications *)

(** A poll that has no answer yet. *)
Record waits (hs : list message) (p : PendingPoll) : Prop := {
  waits_answer : poll_answer hs (p_batch p) (p_index p) = None;
  waits_batch : batch_ok (p_batch p);
  waits_index : in_u 64 (p_index p)
}.

(** What a notification is for a poll that waits. *)
Lemma ready_answer hs m p :
  fits (hs ++ [m]) → waits hs p →
  match poll_answer (hs ++ [m]) (p_batch p) (p_index p) with
  | Some a => ready (total hs) p = true ∧
      ∀ c s, c !! p_topic p = Some (entry_of (hs ++ [m])) → answer_poll c m p s = Ret (hand_over (p_stream p) a s)
  | None => ready (total hs) p = false
  end.
Proof.
  intros Hf [Hw Hb Hi]. pose proof (oldest_bounds hs) as Ho. pose proof (oldest_bounds (hs ++ [m])) as Ho'.
  unfold oldest in *. unfold in_u in Hi. pose proof (nextIndex_entry_of _ Hf) as Hn. pose proof (total_snoc hs m) as Ht.
  unfold poll_answer, oldest in *. unfold ready, last_requested, answer_poll. unfold fits in Hf.
  destruct (mode (p_batch p)) eqn:Em.
  - destruct (Z.ltb_spec (p_index p) (Z.max 0 (total hs - 100))); [done|].
    assert (Hge : total hs ≤ p_index p).
    { destruct (Z.ltb_spec (p_index p) (total hs)) as [Hlt|]; [|done].
      destruct (lookup_lt_is_Some_2 hs (Z.to_nat (p_index p))) as [x Hx]; [unfold total in *; lia|]. by rewrite Hx in Hw. }
    destruct (Z.ltb_spec (p_index p) (Z.max 0 (total (hs ++ [m]) - 100))); [lia|].
    destruct (Z.ltb_spec (p_index p) (total (hs ++ [m]))) as [Hlt|]; [|apply Z.eqb_neq; lia].
    rewrite lookup_app_r by (unfold total in *; lia).
    replace (Z.to_nat (p_index p) - length hs)%nat with 0%nat by (unfold total in *; lia). simpl.
    split; [apply Z.eqb_eq; lia|done].
  - destruct (Z.ltb_spec (p_index p) (total hs)); [done|].
    destruct (Z.ltb_spec (p_index p) (total (hs ++ [m]))) as [Hlt|]; [|apply Z.leb_gt; lia].
    split; [apply Z.leb_le; lia|]. intros c s ->. rewrite Hn. change (firstIndex (entry_of ?h)) with (oldest h).
    unfold oldest. rewrite wrapu_id by (unfold in_u; lia). by rewrite batch_in_range by (unfold oldest, fits; lia).
  - specialize (Hb Em).
    destruct (Z.ltb_spec (2 ^ 64) (Z.max (p_index p) (Z.max 0 (total hs - 100)) + count (p_batch p))); [done|].
    destruct (Z.leb_spec (Z.max (p_index p) (Z.max 0 (total hs - 100)) + count (p_batch p)) (total hs)); [done|].
    rewrite wrapu_id by (unfold in_u; lia).
    destruct (Z.ltb_spec (2 ^ 64) (Z.max (p_index p) (Z.max 0 (total (hs ++ [m]) - 100)) + count (p_batch p))); [lia|].
    destruct (Z.leb_spec (Z.max (p_index p) (Z.max 0 (total (hs ++ [m]) - 100)) + count (p_batch p)) (total (hs ++ [m])));
      [|apply Z.leb_gt; lia].
    split; [apply Z.leb_le; lia|]. intros c s ->.
    replace (Z.max (p_index p) (Z.max 0 (total (hs ++ [m]) - 100))) with (p_index p) by lia.
    by rewrite batch_in_range by (unfold oldest, fits; lia).
Qed.

Definition answered (zmqTopic : bytes) (hs : list message) (p : PendingPoll) : option answer :=
  if bool_decide (p_topic p = zmqTopic) then poll_answer hs (p_batch p) (p_index p) else None.

(** Every poll that has an answer gets it, in the order in which they came. *)
Definition answer_all (zmqTopic : bytes) (hs : list message) (polls : list PendingPoll) (s : session) : session :=
  foldl (λ s p, match answered zmqTopic hs p with Some a => hand_over (p_stream p) a s | None => s end) s polls.

Definition waiting_on (zmqTopic : bytes) (hs : list message) (polls : list PendingPoll) : list PendingPoll :=
  filter (λ p, answered zmqTopic hs p = None) polls.

Definition notified (zmqTopic : bytes) (hs : list message) (s : session) : session :=
  set_pendingPolls (waiting_on zmqTopic hs (pendingPolls s)) (answer_all zmqTopic hs (pendingPolls s) s).

Lemma notify_session_refines zmqTopic hs m c s :
  fits (hs ++ [m]) → c !! zmqTopic = Some (entry_of (hs ++ [m])) →
  Forall (λ p, p_topic p = zmqTopic → waits hs p) (pendingPolls s) →
  notify_session c zmqTopic (total hs) m s = Ret (notified zmqTopic (hs ++ [m]) s).
Proof.
  intros Hf Hc Hw. unfold notify_session, notified.
  enough (HL : ∀ s0, poll_loop c zmqTopic (total hs) m (pendingPolls s) s0
                     = Ret (waiting_on zmqTopic (hs ++ [m]) (pendingPolls s), answer_all zmqTopic (hs ++ [m]) (pendingPolls s) s0)).
  { by rewrite HL. }
  induction Hw as [|p polls Hp Hps IH]; intros s0; [done|].
  cbn [poll_loop]. unfold answer_all, waiting_on in *. cbn [foldl]. rewrite filter_cons.
  assert (HE : answered zmqTopic (hs ++ [m]) p
    = if bool_decide (p_topic p = zmqTopic) then poll_answer (hs ++ [m]) (p_batch p) (p_index p) else None) by done.
  rewrite !HE. case_bool_decide as E; cbn [andb]; [|rewrite IH; cbn; by rewrite decide_True].
  specialize (Hp E). subst zmqTopic. pose proof (ready_answer hs m p Hf Hp) as HR.
  destruct (poll_answer _ _ _) as [a|].
  - destruct HR as [-> HA]. rewrite HA by done. cbn. rewrite IH. by rewrite decide_False.
  - rewrite HR, IH. cbn. by rewrite decide_True.
Qed.

End spec.
