(* ===== verification/RestPolls.v ===== *)
(** * RestPolls: the invariant of the REST server

    Ghost state: the history of every topic that a client has polled.  The cache is
    the end of the histories, every pending poll waits in the history of its topic,
    and nothing a client or the broker does changes that.  So a poll is answered
    with what [RestSpec.poll_answer] says, at once or by the notification that
    makes it possible. *)

From S2P Require Import Prelude Text Uri Outcome Rest RestServer RestSpec.
From S2P Require Topic Message LongPolling Socket.
Local Open Scope Z_scope.

Definition histories : Type := gmap bytes (list message).

Definition all_fit (H : histories) : Prop := map_Forall (λ _, fits) H.

Definition caches (H : histories) : cache := entry_of <$> H.

(** ** Numbers in requests *)

Lemma dec_value_nonneg s : Forall (λ c, is_digit c = true) s → 0 ≤ dec_value s.
Proof.
  intros HF. unfold dec_value. enough (HG : ∀ v, 0 ≤ v → 0 ≤ fold_left (λ v c, 10 * v + (Prelude.code c - 48)) s v) by by apply HG.
  induction HF as [|c s Hc HF IH]; intros v Hv; [done|]. simpl. apply IH.
  unfold is_digit, in_range, schar in Hc. pose proof (code_range c). destruct (Z.ltb_spec (Prelude.code c) 128); lia.
Qed.

Lemma take_while_Forall p s : Forall (λ c, p c = true) (take_while p s).
Proof. induction s as [|c s IH]; simpl; [constructor|]. destruct (p c) eqn:E; by repeat constructor. Qed.

Lemma parseUnsigned_range v z : LongPolling.parseUnsigned v = inl z → in_u 64 z.
Proof.
  unfold LongPolling.parseUnsigned. destruct v as [|x v]; [done|].
  pose proof (take_while_Forall is_digit (x :: v)) as HF. destruct (take_while is_digit (x :: v)) as [|y ds]; [done|].
  destruct (Z.ltb_spec (dec_value (y :: ds)) (2 ^ 64)); simpl; [|done].
  destruct (length ds =? length v)%nat; [|done]. intros [= <-]. split; [by apply dec_value_nonneg|done].
Qed.

Section polls.
Context `{env : Environment}.

Lemma parse_index_range r i : parse_index r = inl (Some i) → in_u 64 i.
Proof.
  unfold parse_index. destruct (_ && _); [|done].
  destruct (LongPolling.parseUnsigned _) as [z|] eqn:E; [|done]. intros [= <-]. by eapply parseUnsigned_range.
Qed.

Lemma parse_batch_ok r b : parseLongPollingBatch r = inl b → batch_ok b.
Proof.
  unfold parseLongPollingBatch. destruct (longPollBatch r) as [v|]; [|intros [= <-]; done].
  case_bool_decide; [intros [= <-]; done|].
  destruct (LongPolling.parseUnsigned v) as [z|] eqn:E; [|done]. apply parseUnsigned_range in E. unfold in_u in E.
  destruct (Z.eqb_spec z 0); [done|]. destruct (Z.ltb_spec (Z.of_nat kCapacity) z); [done|].
  intros [= <-] _. unfold kCapacity in *. simpl. lia.
Qed.

(** ** What a poll is, as a function of the histories *)

Definition redirect_target (r : Request) (hs : list message) : Z :=
  if is_index "Next" r then total hs else Z.max 0 (total hs - 1).

Definition poll_reply (streamId : Z) (r : Request) (hs : list message) (index : option Z) (batch : LongPollingBatchRequest)
    (s : session) : run session :=
  match index with
  | Some i =>
      match poll_answer hs batch i with
      | Some a => deliver streamId (toMdpTopic (topic r)) a s
      | None => Ret (push_poll (mkpoll (Topic.toZmqTopic true (topic r)) (waiting_index hs batch i) batch streamId) s)
      end
  | None =>
      u ← toMdpTopic (topic r); respondWithLongPollingRedirect streamId u (redirect_target r hs) (longPollBatch r) s
  end.

(** A poll whose parameters can be read: the first one of a topic subscribes. *)
Definition poll_spec (streamId : Z) (r : Request) (index : option Z) (batch : LongPollingBatchRequest) (H : histories) (s : session)
    : run (option message * histories * session) :=
  let t := Topic.toZmqTopic true (topic r) in
  match H !! t with
  | Some hs => s' ← poll_reply streamId r hs index batch s; Ret (None, H, s')
  | None =>
      u ← toMdpTopic (topic r);
      s' ← poll_reply streamId r [] index batch s;
      Ret (Some (subscribe_message u), <[t := []]> H, s')
  end.

Definition too_far (index : option Z) (batch : LongPollingBatchRequest) : bool :=
  match index with
  | Some i => bool_decide (mode batch = FixedCount) && (max64 - (count batch - 1) <? i)
  | None => false
  end.

Lemma parse_index_None r : parse_index r = inl None → is_index "Next" r = true ∨ is_index "Next" r = false ∧ is_index "Last" r = true.
Proof.
  unfold parse_index. destruct (is_index "Next" r), (is_index "Last" r); simpl; auto.
  destruct (LongPolling.parseUnsigned _); done.
Qed.

Lemma parse_index_Some r i : parse_index r = inl (Some i) → is_index "Next" r = false ∧ is_index "Last" r = false.
Proof. unfold parse_index. destruct (is_index "Next" r), (is_index "Last" r); done. Qed.

Lemma reply_refines streamId r hs index batch s :
  fits hs → parse_index r = inl index → parseLongPollingBatch r = inl batch →
  (if is_index "Next" r then
     u ← toMdpTopic (topic r);
     respondWithLongPollingRedirect streamId u (nextIndex (entry_of hs)) (longPollBatch r) s
   else if is_index "Last" r then
     u ← toMdpTopic (topic r);
     let last := if bool_decide (messages (entry_of hs) = []) then nextIndex (entry_of hs) else lastIndex (entry_of hs) in
     respondWithLongPollingRedirect streamId u last (longPollBatch r) s
   else
     i ← of_option index;
     poll_indexed streamId r (Topic.toZmqTopic true (topic r)) (entry_of hs) batch i s)
  = poll_reply streamId r hs index batch s.
Proof.
  intros Hf Hi Hb. unfold poll_reply, redirect_target. destruct index as [i|].
  - destruct (parse_index_Some _ _ Hi) as [-> ->]. cbn.
    apply poll_indexed_refines; [done|by eapply parse_batch_ok|by eapply parse_index_range].
  - rewrite nextIndex_entry_of by done. destruct (parse_index_None _ Hi) as [->|[-> ->]]; [done|].
    rewrite entry_of_empty. case_bool_decide as E; [by subst|].
    rewrite lastIndex_entry_of by done. do 2 f_equal.
    assert (0 < total hs) by (unfold total; destruct hs; simpl; [done|lia]).
    by rewrite Z.max_r by lia.
Qed.

Lemma poll_refines streamId r index batch H s :
  all_fit H → parse_index r = inl index → parseLongPollingBatch r = inl batch → too_far index batch = false →
  processLongPollRequest streamId r (caches H) s
  = '(m, H', s') ← poll_spec streamId r index batch H s; Ret (m, caches H', s').
Proof.
  intros Hf Hi Hb Hfar. unfold processLongPollRequest, poll_spec. rewrite Hi, Hb. unfold too_far in Hfar. rewrite Hfar.
  set (t := Topic.toZmqTopic true (topic r)).
  assert (Hc : caches H !! t = entry_of <$> H !! t) by apply lookup_fmap.
  destruct (H !! t) as [hs|] eqn:E; cbn in Hc; rewrite Hc.
  - cbn [mbind run_bind]. rewrite Hc. cbn [of_option mbind run_bind].
    pose proof (reply_refines streamId r hs index batch s (Hf _ _ E) Hi Hb) as HR.
    cbv zeta in HR. unfold t. rewrite HR.
    destruct (poll_reply _ _ _ _ _ _); done.
  - destruct (toMdpTopic (topic r)) as [u|e|] eqn:Eu; [|done|done]. cbn [mbind run_bind].
    assert (He : <[t := empty_entry]> (caches H) !! t = Some empty_entry) by exact (lookup_insert_eq _ _ _).
    rewrite He. cbn [of_option mbind run_bind].
    pose proof (reply_refines streamId r [] index batch s eq_refl Hi Hb) as HR. cbv zeta in HR.
    rewrite entry_of_nil, Eu in HR. cbn [mbind run_bind] in HR. unfold t. rewrite HR.
    destruct (poll_reply _ _ _ _ _ _); [|done|done]. cbn. do 3 f_equal. symmetry. exact (fmap_insert entry_of H t []).
Qed.

(** ** What does not touch the polls *)

(** A session without what was sent. *)
Definition core (s : session) : protocol * list (Z * Request) * list (Z * Z) * list PendingPoll :=
  (kind s, requests s, pendingRequests s, pendingPolls s).

Lemma submit_core x s : core (submit x s) = core s.
Proof. unfold submit. by destruct (accepts _ _). Qed.

Lemma sendResponse_core streamId x s : core (sendResponse streamId x s) = core s.
Proof. unfold sendResponse, emplace_response. destruct (responses s !! streamId); by rewrite submit_core. Qed.

Lemma sendMessage_core streamId code m extra s : core (sendMessage streamId code m extra s) = core s.
Proof. unfold sendMessage, emplace_response. destruct (responses s !! streamId); by rewrite submit_core. Qed.

Lemma hand_over_core streamId a s : core (hand_over streamId a s) = core s.
Proof.
  destruct a; simpl; try done; try apply sendMessage_core.
  unfold send_parts. destruct (LongPolling.encodeBatch _); [apply sendResponse_core|apply sendMessage_core].
Qed.

Lemma good_topic t : good (toMdpTopic t) (λ _, True).
Proof. apply good_result. Qed.

Lemma good_redirect streamId u i b s :
  good (respondWithLongPollingRedirect streamId u i b s) (λ s', core s' = core s).
Proof.
  unfold respondWithLongPollingRedirect. eapply good_bind; [apply good_result|]. intros l _. simpl. apply sendResponse_core.
Qed.

(** ** The polls of a session *)

Definition poll_waits (H : histories) (p : PendingPoll) : Prop := ∃ hs, H !! p_topic p = Some hs ∧ waits hs p.
Definition session_ok (H : histories) (s : session) : Prop := Forall (poll_waits H) (pendingPolls s).

(** New topics have no history yet. *)
Definition extends (H H' : histories) : Prop := H ⊆ H' ∧ ∀ t hs, H' !! t = Some hs → H !! t = None → hs = [].

Lemma extends_refl H : extends H H.
Proof. split; [done|naive_solver]. Qed.

Lemma extends_trans H1 H2 H3 : extends H1 H2 → extends H2 H3 → extends H1 H3.
Proof.
  intros [A1 A2] [B1 B2]. split; [by transitivity H2|]. intros t hs E1 E2.
  destruct (H2 !! t) as [hs2|] eqn:E; [|by eapply B2].
  pose proof (lookup_weaken _ _ _ _ E B1) as E'. pose proof (eq_trans (eq_sym E1) E') as [= ->]. by eapply A2.
Qed.

Lemma extends_new H t : H !! t = None → extends H (<[t := []]> H).
Proof.
  intros HN. split; [by apply insert_subseteq|]. intros t' hs E E'.
  apply lookup_insert_Some in E as [[_ <-]|[_ E]]; [done|]. by pose proof (eq_trans (eq_sym E) E').
Qed.

Lemma extends_fit H H' : extends H H' → all_fit H → all_fit H'.
Proof.
  intros [A1 A2] Hf t hs E. destruct (H !! t) as [hs'|] eqn:E'; [|by rewrite (A2 t hs E E')].
  pose proof (lookup_weaken _ _ _ _ E' A1) as E2. pose proof (eq_trans (eq_sym E) E2) as [= ->]. by eapply Hf.
Qed.

Lemma session_ok_extends H H' s : extends H H' → session_ok H s → session_ok H' s.
Proof. 
  intros [A1 _] HF. eapply Forall_impl; [exact HF|]. intros p (hs & E & W).
  exists hs. split; [exact (lookup_weaken _ _ _ _ E A1)|done].
 Qed.

Lemma session_ok_core H s s' : core s' = core s → session_ok H s → session_ok H s'.
Proof. unfold session_ok. by intros [= _ _ _ ->]. Qed.

Lemma waits_pushed hs batch i t streamId :
  fits hs → batch_ok batch → in_u 64 i → poll_answer hs batch i = None →
  waits hs (mkpoll t (waiting_index hs batch i) batch streamId).
Proof.
  intros Hf Hb Hi Hw. pose proof (oldest_bounds hs). unfold in_u, fits in *. unfold waiting_index.
  split; simpl; [|done|destruct (mode batch); unfold in_u in *; lia].
  unfold poll_answer in *. destruct (mode batch); try done.
  by replace (Z.max (Z.max i (oldest hs)) (oldest hs)) with (Z.max i (oldest hs)) by lia.
Qed.

Lemma good_reply streamId r hs index batch H s :
  fits hs → parse_index r = inl index → parseLongPollingBatch r = inl batch →
  H !! Topic.toZmqTopic true (topic r) = Some hs → session_ok H s →
  good (poll_reply streamId r hs index batch s) (session_ok H).
Proof.
  intros Hf Hi Hb Ht Hs. unfold poll_reply. destruct index as [i|].
  - destruct (poll_answer hs batch i) as [a|] eqn:Ea.
    + destruct a as [| |n|]; cbn [deliver]; try (cbn [good]; eapply session_ok_core; [apply hand_over_core|done]).
      eapply good_bind; [apply good_topic|]. intros u _. eapply good_weaken; [apply good_redirect|].
      intros s' E. exact (session_ok_core _ _ _ E Hs).
    + simpl. apply Forall_app_2; [done|]. constructor; [|constructor]. exists hs. split; [done|].
      by apply waits_pushed; [|eapply parse_batch_ok|eapply parse_index_range|].
  - eapply good_bind; [apply good_topic|]. intros u _. eapply good_weaken; [apply good_redirect|].
    intros s' E. exact (session_ok_core _ _ _ E Hs).
Qed.

(** The outcome of code that knows the cache. *)
Definition extended (H : histories) (c : cache) (s : session) : Prop :=
  ∃ H', extends H H' ∧ c = caches H' ∧ session_ok H' s.

Lemma good_poll streamId r H s :
  all_fit H → session_ok H s →
  good (processLongPollRequest streamId r (caches H) s) (λ '(_, c, s'), extended H c s').
Proof.
  intros Hf Hs.
  assert (Hstay : ∀ s', core s' = core s → extended H (caches H) s').
  { intros s' E. exists H. split_and!; [apply extends_refl|done|by eapply session_ok_core]. }
  destruct (parse_index r) as [index|e] eqn:Ei;
    [|unfold processLongPollRequest; rewrite Ei; apply Hstay, sendMessage_core].
  destruct (parseLongPollingBatch r) as [batch|e] eqn:Eb;
    [|unfold processLongPollRequest; rewrite Ei, Eb; apply Hstay; destruct index; apply sendMessage_core].
  destruct (too_far index batch) eqn:Ef.
  { unfold processLongPollRequest. rewrite Ei, Eb. unfold too_far in Ef. rewrite Ef. apply Hstay, sendMessage_core. }
  rewrite (poll_refines _ _ index batch) by done. unfold poll_spec.
  destruct (H !! _) as [hs|] eqn:E.
  - eapply good_bind.
    + eapply good_bind; [by apply (good_reply _ _ hs _ _ H); try done; eapply Hf|].
      intros s' Hs'. by instantiate (1 := λ '(m, H', s'), H' = H ∧ session_ok H s').
    + intros [[m H'] s'] [-> Hs']. exists H. split_and!; [apply extends_refl|done|done].
  - eapply good_bind with (P := λ '(m, H', s'), extends H H' ∧ session_ok H' s').
    + eapply good_bind; [apply good_topic|]. intros u _.
      pose proof (extends_new H _ E) as Hx.
      eapply good_bind; [apply (good_reply _ _ [] _ _ (<[Topic.toZmqTopic true (topic r):=[]]> H)); try done|].
      * exact (lookup_insert_eq _ _ _).
      * by eapply session_ok_extends.
      * intros s' Hs'. done.
    + intros [[m H'] s'] [Hx Hs']. exists H'. done.
Qed.

Lemma good_one streamId r ms n H s :
  all_fit H → session_ok H s →
  good (process_one streamId r (ms, caches H, n, s)) (λ '(_, c, _, s'), extended H c s').
Proof.
  intros Hf Hs. unfold process_one.
  assert (Hstay : ∀ s', pendingPolls s' = pendingPolls s → extended H (caches H) s').
  { intros s' E. exists H. split_and!; [apply extends_refl|done|]. unfold session_ok. by rewrite E. }
  assert (Hcore : ∀ s', core s' = core s → extended H (caches H) s').
  { intros s' E. apply Hstay. by injection E. }
  assert (HGS : good ('(m, next', s') ← processGetSetRequest streamId r n s; Ret (ms ++ [m], caches H, next', s'))
                  (λ '(_, c, _, s'), extended H c s')).
  { unfold processGetSetRequest.
    pose proof (good_topic (Topic.addParam (str "contentType") (acceptedMime r) (topic r))) as HT.
    destruct (toMdpTopic _); [|done|done]. by apply Hstay. }
  destruct (method r); [apply Hcore, sendResponse_core|done| |done|apply Hcore, sendMessage_core].
  eapply good_bind; [by apply good_poll|]. by intros [[m c] s'] Hx.
Qed.

Lemma good_all l ms n H s :
  all_fit H → session_ok H s →
  good (process_all l (ms, caches H, n, s)) (λ '(_, c, _, s'), extended H c s').
Proof.
  revert ms n H s. induction l as [|[streamId r] l IH]; intros ms n H s Hf Hs; cbn [process_all].
  { exists H. split_and!; [apply extends_refl|done|done]. }
  eapply good_bind; [by apply good_one|]. intros [[[ms' c] n'] s'] (H' & Hx & -> & Hs').
  pose proof (IH ms' n' H' s' (extends_fit _ _ Hx Hf) Hs') as HI.
  destruct (process_all _ _) as [[[[? c] ?] s'']| |]; [|done|done].
  destruct HI as (H'' & Hx' & -> & Hs''). exists H''. split_and!; [by eapply extends_trans|done|done].
Qed.

Lemma good_getMessages n H s :
  all_fit H → session_ok H s →
  good (getMessages (caches H) n s) (λ '(_, c, _, s'), extended H c s').
Proof.
  intros Hf Hs. unfold getMessages. eapply good_bind; [by apply good_all|].
  intros [[[ms c] n'] s'] (H' & Hx & -> & Hs'). exists H'. done.
Qed.

End polls.
