(* ===== verification/RestSystem.v ===== *)
(** * RestSystem: runs of the REST server

    The invariant of [RestPolls] in every state that a run reaches, whatever the
    clients, the broker and the libraries do, and what a notification is for all
    sessions at once. *)

From S2P Require Import Prelude Text Uri Outcome Rest RestServer RestSpec RestPolls.
From S2P Require Topic Message LongPolling Socket.
Local Open Scope Z_scope.

(** ** Sessions by their keys *)

Lemma lookup_key_Forall {A} (P : A → Prop) k (l : list (Z * A)) x :
  lookup_key k l = Some x → Forall (λ y, P y.2) l → P x.
Proof.
  intros E HF. induction HF as [|[k' y] l Hy HF IH]; simpl in E; [done|].
  destruct (k =? k')%Z; [by injection E as ->|by apply IH].
Qed.

Lemma update_key_Forall {A} (P : A → Prop) k fresh f (l : list (Z * A)) :
  P (f fresh) → (∀ x, P x → P (f x)) → Forall (λ y, P y.2) l → Forall (λ y, P y.2) (update_key k fresh f l).
Proof.
  intros Hn Hf HF. unfold update_key. destruct (lookup_key k l).
  - induction HF as [|[k' y] l Hy HF IH]; simpl; [done|]. destruct (k =? k')%Z; constructor; auto. by apply Hf.
  - induction HF as [|[k' y] l Hy HF IH]; simpl; [by repeat constructor|]. destruct (k <? k')%Z; by repeat constructor.
Qed.

Lemma erase_key_Forall {A} (P : A → Prop) k (l : list (Z * A)) :
  Forall (λ y, P y.2) l → Forall (λ y, P y.2) (erase_key k l).
Proof. rewrite !Forall_forall. intros HF x Hx. apply HF. by apply list_elem_of_filter in Hx as [_ Hx]. Qed.

Section system.
Context `{env : Environment}.

(** ** Notifications, again *)

Lemma not_ready hs m p :
  fits (hs ++ [m]) → waits (hs ++ [m]) p → ready (total hs) p = false.
Proof.
  intros Hf [Hw Hb Hi]. pose proof (oldest_bounds (hs ++ [m])) as Ho. pose proof (total_snoc hs m) as Ht.
  unfold oldest, in_u, fits in *. unfold poll_answer, oldest in Hw. unfold ready, last_requested.
  destruct (mode (p_batch p)) eqn:Em.
  - destruct (Z.ltb_spec (p_index p) (Z.max 0 (total (hs ++ [m]) - 100))); [done|].
    destruct (Z.ltb_spec (p_index p) (total (hs ++ [m]))) as [Hlt|]; [|apply Z.eqb_neq; lia].
    destruct (lookup_lt_is_Some_2 (hs ++ [m]) (Z.to_nat (p_index p))) as [x Hx]; [unfold total in *; lia|]. by rewrite Hx in Hw.
  - destruct (Z.ltb_spec (p_index p) (total (hs ++ [m]))); [done|]. apply Z.leb_gt. lia.
  - specialize (Hb Em).
    destruct (Z.ltb_spec (2 ^ 64) (Z.max (p_index p) (Z.max 0 (total (hs ++ [m]) - 100)) + count (p_batch p))); [done|].
    destruct (Z.leb_spec (Z.max (p_index p) (Z.max 0 (total (hs ++ [m]) - 100)) + count (p_batch p)) (total (hs ++ [m]))); [done|].
    rewrite wrapu_id by (unfold in_u; lia). apply Z.leb_gt. lia.
Qed.

(** A session that has been told is told nothing more. *)
Lemma notify_again zmqTopic hs m c s :
  fits (hs ++ [m]) → Forall (λ p, p_topic p = zmqTopic → waits (hs ++ [m]) p) (pendingPolls s) →
  notify_session c zmqTopic (total hs) m s = Ret s.
Proof.
  intros Hf HF. unfold notify_session.
  assert (HL : poll_loop c zmqTopic (total hs) m (pendingPolls s) s = Ret (pendingPolls s, s)).
  { induction HF as [|p polls Hp HF IH]; [done|]. simpl.
    case_bool_decide as E; simpl; [rewrite (not_ready hs m p Hf (Hp E))|]; by rewrite IH. }
  rewrite HL. by destruct s.
Qed.

Lemma answer_all_core zmqTopic hs polls s : core (answer_all zmqTopic hs polls s) = core s.
Proof.
  unfold answer_all. revert s. induction polls as [|p polls IH]; intros s; simpl; [done|].
  rewrite IH. destruct (answered _ _ _); [apply hand_over_core|done].
Qed.

Lemma notified_waits zmqTopic hs m s :
  Forall (λ p, p_topic p = zmqTopic → waits hs p) (pendingPolls s) →
  Forall (λ p, p_topic p = zmqTopic → waits (hs ++ [m]) p) (pendingPolls (notified zmqTopic (hs ++ [m]) s)).
Proof.
  intros HF. simpl. unfold waiting_on. induction HF as [|p polls Hp HF IH]; [constructor|].
  rewrite filter_cons. case_decide as E; [|done]. constructor; [|done]. intros Ht. destruct (Hp Ht) as [? ? ?].
  split; try done. unfold answered in E. by rewrite (bool_decide_true _ Ht) in E.
Qed.

(** ** The invariant *)

Definition told (zmqTopic : bytes) (hs : list message) (s : session) : Prop :=
  Forall (λ p, p_topic p = zmqTopic → waits hs p) (pendingPolls s).

Record server_ok (H : histories) (v : server) : Prop := {
  ok_cache : subscriptionCache v = caches H;
  ok_tcp : Forall (λ x, session_ok H (t_session x.2)) (h2Sessions v);
  ok_quic : Forall (λ x, ∃ s, h3Objects v !! x.2 = Some s ∧ session_ok H s) (h3Sessions v)
}.

Lemma session_ok_told H t hs s : H !! t = Some hs → session_ok H s → told t hs s.
Proof.
  intros E HF. eapply Forall_impl; [exact HF|]. intros p (hs' & E' & W) Ep. rewrite Ep in E'.
  pose proof (eq_trans (eq_sym E) E') as [= ->]. done.
Qed.

Lemma session_ok_notified H t hs m s :
  H !! t = Some hs → session_ok H s → session_ok (<[t := hs ++ [m]]> H) (notified t (hs ++ [m]) s).
Proof.
  intros E HF. pose proof (notified_waits t hs m s (session_ok_told _ _ _ _ E HF)) as HW.
  unfold session_ok in *. simpl in *. unfold waiting_on in *.
  apply Forall_forall. intros p Hp. rewrite Forall_forall in HW. specialize (HW p Hp).
  apply list_elem_of_filter in Hp as [_ Hp]. rewrite Forall_forall in HF. destruct (HF p Hp) as (hs' & E' & W).
  destruct (decide (p_topic p = t)) as [<-|Hne].
  - exists (hs ++ [m]). split; [exact (lookup_insert_eq _ _ _)|by apply HW].
  - exists hs'. split; [|done]. etransitivity; [exact (lookup_insert_ne _ _ _ _ (not_eq_sym Hne))|done].
Qed.

(** ** All sessions *)

Definition notify_object (refs : list nat) (t : bytes) (hs : list message) (o : nat) (s : session) : session :=
  if bool_decide (o ∈ refs) then notified t hs s else s.

Definition notified_server (t : bytes) (hs : list message) (H : histories) (v : server) : server :=
  mkserver ((λ x, (x.1, set_session (notified t hs (t_session x.2)) x.2)) <$> h2Sessions v)
    (h3Sessions v) (imap (notify_object (h3Sessions v).*2 t hs) (h3Objects v))
    (caches (<[t := hs]> H)) (handlers v) (nextRequestId v).

Lemma notify_tcp_spec c t hs m l :
  fits (hs ++ [m]) → c !! t = Some (entry_of (hs ++ [m])) → Forall (λ x, told t hs (t_session x.2)) l →
  notify_tcp c t (total hs) m l = Ret ((λ x, (x.1, set_session (notified t (hs ++ [m]) (t_session x.2)) x.2)) <$> l).
Proof.
  intros Hf Hc HF. induction HF as [|[fd x] l Hx HF IH]; [done|]. cbn [notify_tcp].
  rewrite (notify_session_refines t hs) by done. cbn. by rewrite IH.
Qed.

Lemma notify_quic_spec c t hs m table objects :
  fits (hs ++ [m]) → c !! t = Some (entry_of (hs ++ [m])) →
  Forall (λ x, ∃ s, objects !! x.2 = Some s ∧ told t hs s) table →
  notify_quic c t (total hs) m table objects = Ret (imap (notify_object table.*2 t (hs ++ [m])) objects).
Proof.
  intros Hf Hc HF.
  enough (HG : ∀ done_, notify_quic c t (total hs) m table (imap (notify_object done_ t (hs ++ [m])) objects)
                        = Ret (imap (notify_object (done_ ++ table.*2) t (hs ++ [m])) objects)).
  { specialize (HG []). rewrite app_nil_l in HG. rewrite <- HG. f_equal. apply list_eq. intros i. rewrite list_lookup_imap.
    by destruct (objects !! i). }
  induction HF as [|[k o] table (s & Ho & Hs) HF IH]; intros done_; cbn [notify_quic]; [by rewrite app_nil_r|].
  simpl in Ho. rewrite list_lookup_imap, Ho. cbn [fmap option_fmap option_map of_option mbind run_bind].
  assert (HN : notify_session c t (total hs) m (notify_object done_ t (hs ++ [m]) o s)
               = Ret (notify_object (done_ ++ [o]) t (hs ++ [m]) o s)).
  { unfold notify_object. rewrite (bool_decide_true (o ∈ done_ ++ [o])) by set_solver.
    case_bool_decide; [apply notify_again; [done|by apply notified_waits]|by apply notify_session_refines]. }
  rewrite HN. cbn [mbind run_bind]. rewrite fmap_cons. cbn [snd].
  change (done_ ++ o :: table.*2) with (done_ ++ [o] ++ table.*2). rewrite (app_assoc done_ [o] table.*2).
  rewrite <- IH. f_equal. apply list_eq. intros i. rewrite list_lookup_insert.
  rewrite !list_lookup_imap, length_imap. case_decide as E.
  - destruct E as [<- _]. by rewrite Ho.
  - destruct (objects !! i) as [s'|] eqn:Ei; [|done]. simpl. f_equal. unfold notify_object.
    apply lookup_lt_Some in Ei. assert (o ≠ i) by naive_solver.
    by rewrite (bool_decide_ext (i ∈ done_ ++ [o]) (i ∈ done_)) by set_solver.
Qed.

Lemma notification_refines H v topic m hs :
  server_ok H v → H !! Topic.toZmqTopic true topic = Some hs → fits (hs ++ [m]) →
  handleNotification topic m v = Ret (notified_server (Topic.toZmqTopic true topic) (hs ++ [m]) H v).
Proof.
  intros [Hc Ht Hq] E Hf. unfold handleNotification, notified_server. set (t := Topic.toZmqTopic true topic) in *.
  assert (HE : subscriptionCache v !! t = Some (entry_of hs)).
  { rewrite Hc. etransitivity; [apply lookup_fmap|]. exact (f_equal (fmap entry_of) E). }
  rewrite HE, add_entry_of by done. rewrite last_entry_of. cbn [of_option mbind run_bind].
  rewrite lastIndex_entry_of by (done || by destruct hs). rewrite total_snoc. replace (total hs + 1 - 1) with (total hs) by lia.
  assert (HC : <[t := entry_of (hs ++ [m])]> (subscriptionCache v) !! t = Some (entry_of (hs ++ [m]))).
  { exact (lookup_insert_eq _ _ _). }
  rewrite (notify_tcp_spec _ t hs) by (done || (eapply Forall_impl; [exact Ht|intros x; by apply session_ok_told])).
  cbn [mbind run_bind]. rewrite (notify_quic_spec _ t hs); try done.
  - cbn. unfold set_objects, set_h2, set_cache. simpl. do 2 f_equal. rewrite Hc. symmetry. exact (fmap_insert entry_of H t _).
  - eapply Forall_impl; [exact Hq|]. intros x (s & Hs & Hok). exists s. split; [done|by eapply session_ok_told].
Qed.

(** ** What the libraries call keeps the polls *)

(** What waits in a session stays as it is, or goes. *)
Definition pending (s : session) : list (Z * Z) * list PendingPoll := (pendingRequests s, pendingPolls s).

Definition shrinks (s s' : session) : Prop :=
  sublist (pendingRequests s') (pendingRequests s) ∧ sublist (pendingPolls s') (pendingPolls s).

Lemma shrinks_refl s : shrinks s s.
Proof. done. Qed.

Lemma shrinks_trans s1 s2 s3 : shrinks s1 s2 → shrinks s2 s3 → shrinks s1 s3.
Proof. intros [A1 A2] [B1 B2]. split; by etransitivity. Qed.

Lemma shrinks_pending s s' : pending s' = pending s → shrinks s s'.
Proof. intros [= E1 E2]. unfold shrinks. by rewrite E1, E2. Qed.

Lemma pending_core s s' : core s' = core s → pending s' = pending s.
Proof. by intros [= _ _ E1 E2]; unfold pending; rewrite E1, E2. Qed.

Lemma shrinks_ok H s s' : shrinks s s' → session_ok H s → session_ok H s'.
Proof. intros [_ A]. unfold session_ok. rewrite !Forall_forall. intros HF p Hp. apply HF. by eapply elem_of_sublist. Qed.

Lemma completed_pending hs streamId s : ends (processCompletedRequest hs streamId s) (λ s', pending s' = pending s).
Proof.
  unfold processCompletedRequest. eapply ends_then with (P := λ _, True); [by apply ends_option|]. intros r0 _.
  destruct (read_headers r0) as [[path method_] r]. destruct (findHandler hs method_ path) as [h|].
  - exact (pending_core _ _ (sendResponse_core _ _ _)).
  - destruct (parse_path _ _) as [r'|e]; [done|]. exact (pending_core _ _ (sendMessage_core _ _ _ _ _)).
Qed.

Lemma call2_shrinks hs c s : ends (call2 hs c s) (shrinks s).
Proof.
  destruct c as [f|f|f|i d|i|i n v]; simpl.
  - unfold frame_recv_callback. destruct (f_type f), (f_end f); try apply shrinks_refl;
      (eapply ends_weaken; [apply completed_pending|]; intros s'; apply shrinks_pending).
  - unfold frame_send_callback. by destruct (f_end f); apply shrinks_pending.
  - unfold frame_not_send_callback. by case_bool_decide; apply shrinks_pending.
  - by apply shrinks_pending.
  - unfold stream_closed_callback. destruct (responses s !! i); [|by apply shrinks_pending].
    split; simpl; apply sublist_filter.
  - by apply shrinks_pending.
Qed.

Lemma call3_shrinks hs c s : ends (call3 hs c s) (shrinks s).
Proof.
  destruct c as [i n v|i d|i|i]; simpl; try by apply shrinks_pending.
  eapply ends_weaken; [apply completed_pending|]. intros s'. apply shrinks_pending.
Qed.

Lemma calls_shrink {C} (step : C → session → run session) cs s :
  (∀ c s, ends (step c s) (shrinks s)) → ends (calls step cs s) (shrinks s).
Proof.
  intros Hstep. revert s. induction cs as [|c cs IH]; intros s; cbn [calls]; [apply shrinks_refl|].
  eapply ends_then; [apply Hstep|]. intros s1 H1. eapply ends_weaken; [apply IH|]. intros s2. by apply shrinks_trans.
Qed.

Lemma read_loop_shrinks hs readings s : ends (read_loop hs readings s) (λ x, shrinks s x.2).
Proof.
  revert s. induction readings as [|r readings IH]; intros s; cbn [read_loop]; [apply shrinks_refl|].
  destruct (_ && _); [apply shrinks_refl|]. destruct (_ <? _)%Z; [done|].
  eapply ends_then; [apply calls_shrink, call2_shrinks|]. intros s1 H1.
  destruct (negb (r_ok r)); [done|]. destruct (_ =? _)%Z; [|done].
  eapply ends_weaken; [apply IH|]. intros s2. by apply shrinks_trans.
Qed.

(** ** Every event keeps the invariant *)

Definition ref_ok (H : histories) (objects : list session) (o : nat) : Prop := ∃ s, objects !! o = Some s ∧ session_ok H s.

Lemma ref_ok_extends H H' objects o : extends H H' → ref_ok H objects o → ref_ok H' objects o.
Proof. intros Hx (s & E & Hs). exists s. split; [done|by eapply session_ok_extends]. Qed.

Lemma ref_ok_insert H objects o o' s :
  session_ok H s → ref_ok H objects o → ref_ok H (<[o' := s]> objects) o.
Proof.
  intros Hs (s0 & E & Hs0). unfold ref_ok. rewrite list_lookup_insert. case_decide as D.
  - destruct D as [-> D]. by exists s.
  - by exists s0.
Qed.

Lemma ref_ok_snoc H objects o s : ref_ok H objects o → ref_ok H (objects ++ [s]) o.
Proof. intros (s0 & E & Hs0). exists s0. split; [by apply lookup_app_l_Some|done]. Qed.

Lemma put_session_ok H fd t v : session_ok H (t_session t) → server_ok H v → server_ok H (put_session fd t v).
Proof.
  intros Hs [A B C]. split; [done| |done]. apply (update_key_Forall (λ t, session_ok H (t_session t))); done.
Qed.

Lemma drop_session_ok H fd v : server_ok H v → server_ok H (drop_session fd v).
Proof. intros [A B C]. split; [done| |done]. by apply (erase_key_Forall (λ t, session_ok H (t_session t))). Qed.

Lemma objects_ok H v o s :
  session_ok H s → server_ok H v → server_ok H (set_objects (<[o := s]> (h3Objects v)) v).
Proof.
  intros Hs [A B C]. split; [done|done|]. simpl. eapply Forall_impl; [exact C|]. intros x. by apply ref_ok_insert.
Qed.

Lemma lookup_ref H v k o s :
  server_ok H v → lookup_cid k (h3Sessions v) = Some o → h3Objects v !! o = Some s → session_ok H s.
Proof.
  intros [_ _ HF]. induction HF as [|[k' o'] l (s' & E & Hs) HF IH]; simpl; [done|].
  case_bool_decide; [|done]. intros [= ->] E'. simpl in E. congruence.
Qed.

(** An outcome of an event: topics may be new. *)
Definition grown (H : histories) (v : server) : Prop := ∃ H', extends H H' ∧ server_ok H' v.

Lemma grown_same H v : server_ok H v → grown H v.
Proof. exists H. split; [apply extends_refl|done]. Qed.

Lemma collect_ok H s v :
  all_fit H → server_ok H v → session_ok H s →
  good (collect s v) (λ '(_, s', v'), ∃ H', extends H H' ∧ server_ok H' v' ∧ session_ok H' s').
Proof.
  intros Hf [A B C] Hs. unfold collect. rewrite A. eapply good_bind; [by apply good_getMessages|].
  intros [[[ms c] n] s'] (H' & Hx & -> & Hs'). exists H'. split_and!; [done| |done].
  split; [done| |]; simpl.
  - eapply Forall_impl; [exact B|]. intros x. by apply session_ok_extends.
  - eapply Forall_impl; [exact C|]. intros x. by apply ref_ok_extends.
Qed.

Lemma process_tcp_ok H fd io v :
  all_fit H → server_ok H v → ends (process_tcp fd io v) (λ '(_, v'), grown H v').
Proof.
  intros Hf Hv. unfold process_tcp. eapply ends_then with (P := λ t, session_ok H (t_session t)).
  { apply ends_option. intros t E.
    exact (lookup_key_Forall (λ t, session_ok H (t_session t)) _ _ _ E (ok_tcp _ _ Hv)). }
  intros t Ht. destruct (negb (Socket.isReady (t_state t))).
  { destruct (Socket.continueHandshake _ _) as [[] st]; apply grown_same; [by apply put_session_ok|by apply drop_session_ok]. }
  eapply ends_then with (P := λ x, session_ok H x.2).
  { destruct (io_write io) as [[cs ok]|]; [|done]. eapply ends_then; [apply calls_shrink, call2_shrinks|].
    intros s' Hs'. simpl. by eapply shrinks_ok. }
  intros [ok s1] Hs1. destruct (negb ok); [by apply grown_same, drop_session_ok|].
  destruct (io_read io) as [readings|]; [|by apply grown_same, put_session_ok].
  eapply ends_then; [apply read_loop_shrinks|]. intros [ok2 s2] Hs2. simpl in Hs2.
  destruct (negb ok2); [by apply grown_same, drop_session_ok|].
  eapply ends_then; [apply good_ends, (collect_ok H); [done|done|by eapply shrinks_ok]|].
  intros [[ms s3] v'] (H' & Hx & Hv' & Hs3). exists H'. split; [done|by apply put_session_ok].
Qed.

Lemma associate_ok H objects o l k :
  ref_ok H objects o → Forall (λ x, ref_ok H objects x.2) l → Forall (λ x, ref_ok H objects x.2) (associate_cid o l k).
Proof.
  intros Ho HF. unfold associate_cid. destruct (lookup_cid k l); [done|]. apply Forall_app_2; [done|]. by repeat constructor.
Qed.

Lemma associate_all_ok H objects o l ks :
  ref_ok H objects o → Forall (λ x, ref_ok H objects x.2) l →
  Forall (λ x, ref_ok H objects x.2) (foldl (associate_cid o) l ks).
Proof. intros Ho. revert l. induction ks as [|k ks IH]; intros l HF; simpl; [done|]. by apply IH, associate_ok. Qed.

Lemma read_pkt_ok H p v : server_ok H v → ends (read_pkt p v) (λ '(_, v'), server_ok H v').
Proof.
  intros Hv. pose proof Hv as [A B C]. unfold read_pkt. destruct (lookup_cid (k_cid p) (h3Sessions v)) as [o|] eqn:E.
  - eapply ends_then with (P := session_ok H).
    { apply ends_option. intros s Es. by eapply lookup_ref. }
    intros s Hs. eapply ends_then; [apply calls_shrink, call3_shrinks|]. intros s' Hs'. cbn [ends].
    assert (Hok : session_ok H s') by by eapply shrinks_ok.
    assert (Href : ref_ok H (h3Objects v) o).
    { clear -C E. induction C as [|[k' o'] l (s' & E' & Hs) HF IH]; simpl in *; [done|].
      case_bool_decide; [|by apply IH]. injection E as ->. by exists s'. }
    split; [done|done|]. simpl. apply associate_all_ok; [by apply ref_ok_insert|].
    eapply Forall_impl; [exact C|]. intros x. by apply ref_ok_insert.
  - eapply ends_then; [apply calls_shrink, call3_shrinks|]. intros s Hs. cbn [ends].
    assert (Hok : session_ok H s) by (eapply shrinks_ok; [exact Hs|constructor]).
    assert (Href : ref_ok H (h3Objects v ++ [s]) (length (h3Objects v))).
    { exists s. split; [|done]. rewrite lookup_app_r, Nat.sub_diag by done. done. }
    assert (HF : Forall (λ x, ref_ok H (h3Objects v ++ [s]) x.2) (foldl (associate_cid (length (h3Objects v))) (h3Sessions v) (k_scids p))).
    { apply associate_all_ok; [done|]. eapply Forall_impl; [exact C|]. intros x. by apply ref_ok_snoc. }
    destruct (k_ok p); (split; [done|done|]; simpl; try done). by apply associate_ok.
Qed.

Lemma on_read_ok H packets v : server_ok H v → ends (on_read packets v) (λ '(_, v'), server_ok H v').
Proof.
  revert v. induction packets as [|p packets IH]; intros v Hv; cbn [on_read]; [done|].
  eapply ends_then; [by apply read_pkt_ok|]. intros [k v1] H1.
  eapply ends_then; [by apply IH|]. by intros [touched v2] H2.
Qed.

Lemma collect_touched_ok H touched v :
  all_fit H → server_ok H v → ends (collect_touched touched v) (λ '(_, v'), grown H v').
Proof.
  revert H v. induction touched as [|k touched IH]; intros H v Hf Hv; cbn [collect_touched]; [by apply grown_same|].
  destruct (lookup_cid k (h3Sessions v)) as [o|] eqn:E; [|by apply IH].
  eapply ends_then with (P := session_ok H). { apply ends_option. intros s Es. by eapply lookup_ref. }
  intros s Hs. eapply ends_then; [by apply good_ends, (collect_ok H)|].
  intros [[ms s'] v1] (H' & Hx & Hv1 & Hs').
  eapply ends_then; [apply (IH H'); [by eapply extends_fit|by apply objects_ok]|].
  intros [messages v2] (H'' & Hx' & Hv2). exists H''. split; [by eapply extends_trans|done].
Qed.

Lemma process_quic_ok H packets gone v :
  all_fit H → server_ok H v → ends (process_quic packets gone v) (λ '(_, v'), grown H v').
Proof.
  intros Hf Hv. unfold process_quic. eapply ends_then; [by apply on_read_ok|]. intros [touched v1] [A B C].
  apply collect_touched_ok; [done|]. split; [done|done|]. simpl.
  rewrite Forall_forall in *. intros x Hx. apply C. by apply list_elem_of_filter in Hx as [_ Hx].
Qed.

Lemma respond_pending id m s s' : respond id m s = Some s' → pendingPolls s' = pendingPolls s.
Proof.
  unfold respond. destruct (list_find _ _) as [[i [x streamId]]|]; [|done]. intros [= <-]. simpl.
  pose proof (sendMessage_core streamId (if is_nil (Message.error m) then kHttpOk else kHttpError) m [] s) as E. by injection E.
Qed.

Lemma respond_ok H id m s s' : respond id m s = Some s' → session_ok H s → session_ok H s'.
Proof. intros E. unfold session_ok. by rewrite (respond_pending _ _ _ _ E). Qed.

Lemma handleResponse_ok H m v : server_ok H v → server_ok H (handleResponse m v).
Proof.
  intros Hv. unfold handleResponse. destruct (parse_id _) as [id|]; [|done].
  destruct (respond_tcp id m (h2Sessions v)) as [l|] eqn:E.
  - destruct Hv as [A B C]. split; [done| |done]. simpl. clear A C. revert l E.
    induction B as [|[fd t] l' Ht HF IH]; intros l E; simpl in E; [done|].
    destruct (respond id m (t_session t)) as [s|] eqn:Er.
    + injection E as <-. constructor; [by eapply respond_ok|done].
    + destruct (respond_tcp id m l') as [l''|]; [|done]. injection E as <-. constructor; [done|by apply IH].
  - destruct (respond_quic id m (h3Sessions v) (h3Objects v)) as [objects|] eqn:E'; [|done].
    enough (HG : ∃ o s, objects = <[o := s]> (h3Objects v) ∧ session_ok H s).
    { destruct HG as (o & s & -> & Hs). by apply objects_ok. }
    clear E. destruct Hv as [_ _ C]. revert E'. induction C as [|[k o] l (s & Es & Hs) HF IH]; intros E'; simpl in *; [done|].
    rewrite Es in E'. simpl in E'. destruct (respond id m s) as [s'|] eqn:Er; [|by apply IH].
    injection E' as <-. exists o, s'. split; [done|by eapply respond_ok].
Qed.

End system.
