(* ===== verification/RestRuns.v ===== *)
(** * RestRuns: what clients of the REST server can rely on

    Runs with their ghost state: the histories of the topics, and the number of
    requests that the broker was asked. *)

From S2P Require Import Prelude Text Uri Outcome Rest RestServer RestSpec RestPolls RestSystem.
From S2P Require Topic Message LongPolling Socket.
Local Open Scope Z_scope.

(** ** The ghost state *)

(** Topics are polled for the first time, or a notification is one more of its
    topic; those of other topics are not kept. *)
Definition after (x : event) (v' : server) (H : histories) : histories :=
  match x with
  | Notification topic m =>
      let t := Topic.toZmqTopic true topic in
      match H !! t with Some hs => <[t := hs ++ [m]]> H | None => H end
  | _ => H ∪ ((λ _, []) <$> subscriptionCache v')
  end.

Definition is_request (m : message) : bool := match Message.command m with Message.Subscribe => false | _ => true end.

Definition requests_in (ms : list message) : Z := Z.of_nat (length (filter (λ m, is_request m = true) ms)).

Section runs.
Context `{env : Environment}.

Inductive traced : server → histories → Z → Prop :=
  | traced_start : traced empty_server ∅ 0
  | traced_step x v H n ms v' :
      traced v H n → handle x v = Ret (ms, v') → traced v' (after x v' H) (n + requests_in ms).

(** Every run has its ghost state. *)
Lemma reachable_traced v : reachable v → ∃ H n, traced v H n.
Proof. induction 1 as [|x v ms v' Hr (H & n & HT) HE]; [by exists ∅, 0; constructor|]. do 2 eexists. by econstructor. Qed.

(** ** Histories *)

Lemma extends_after H H' c : extends H H' → c = caches H' → H ∪ ((λ _, []) <$> c) = H'.
Proof.
  intros [A1 A2] ->. apply map_eq. intros t. unfold caches.
  destruct (H !! t) as [hs|] eqn:E.
  - transitivity (Some hs); [by apply lookup_union_Some_l|]. symmetry. exact (lookup_weaken _ _ _ _ E A1).
  - etransitivity; [by apply lookup_union_r|]. etransitivity; [apply lookup_fmap|].
    etransitivity; [apply f_equal, lookup_fmap|].
    assert (HG : ∀ o, H' !! t = o → (λ _ : SubscriptionCacheEntry, []) <$> (entry_of <$> o) = o).
    { intros [hs|] E'; [by rewrite (A2 t hs E' E)|done]. }
    exact (HG _ eq_refl).
Qed.

Lemma all_fit_before x v' H : all_fit (after x v' H) → all_fit H.
Proof.
  intros Hf t hs E.
  assert (HU : ∀ G : histories, all_fit (H ∪ G) → fits hs).
  { intros G HG. apply (HG t). by apply lookup_union_Some_l. }
  destruct x as [| | | |topic m|]; simpl in Hf; try by eapply HU.
  destruct (H !! Topic.toZmqTopic true topic) as [hs'|] eqn:E'; [|by eapply Hf].
  destruct (decide (t = Topic.toZmqTopic true topic)) as [->|Hne].
  - pose proof (eq_trans (eq_sym E) E') as [= ->].
    assert (HX : fits (hs' ++ [m])) by (eapply Hf; exact (lookup_insert_eq _ _ _)).
    unfold fits in *. rewrite total_snoc in HX. lia.
  - eapply (Hf t). etransitivity; [exact (lookup_insert_ne _ _ _ _ (not_eq_sym Hne))|done].
Qed.

Lemma process_accept_ok H ssl newFd v v' : process_accept ssl newFd v = Ret v' → server_ok H v → server_ok H v'.
Proof.
  unfold process_accept. destruct newFd as [fd|]; [|by intros [= <-]]. destruct (lookup_key _ _); [done|].
  intros [= <-] [A B C]. split; [done| |done].
  apply (update_key_Forall (λ t, session_ok H (t_session t))); [by constructor|done|done].
Qed.

Lemma step_ok x v H ms v' :
  server_ok H v → all_fit (after x v' H) → handle x v = Ret (ms, v') → server_ok (after x v' H) v'.
Proof.
  intros Hv Hf' HE. pose proof (all_fit_before x v' H Hf') as Hf.
  assert (HG : grown H v' → server_ok (H ∪ ((λ _, []) <$> subscriptionCache v')) v').
  { intros (H' & Hx & Hv'). by rewrite (extends_after H H') by (done || apply Hv'). }
  destruct x as [ssl newFd|fd io|packets gone|m|topic m|l]; cbn [handle after] in *.
  - destruct (process_accept ssl newFd v) as [v1| |] eqn:E; [|done|done]. injection HE as _ <-.
    apply HG, grown_same. by eapply process_accept_ok.
  - pose proof (process_tcp_ok H fd io v Hf Hv) as HP. rewrite HE in HP. by apply HG.
  - pose proof (process_quic_ok H packets gone v Hf Hv) as HP. rewrite HE in HP. by apply HG.
  - injection HE as _ <-. apply HG, grown_same. by apply handleResponse_ok.
  - destruct (H !! Topic.toZmqTopic true topic) as [hs|] eqn:E.
    + assert (HX : fits (hs ++ [m])) by (eapply Hf'; exact (lookup_insert_eq _ _ _)).
      rewrite (notification_refines H v topic m hs) in HE by done. injection HE as _ <-.
      destruct Hv as [A B C]. split; [done| |]; simpl.
      * apply Forall_fmap. eapply Forall_impl; [exact B|]. intros y. by apply session_ok_notified.
      * apply Forall_forall. intros y Hy. rewrite Forall_forall in C. destruct (C y Hy) as (s & Es & Hs).
        exists (notify_object (h3Sessions v).*2 (Topic.toZmqTopic true topic) (hs ++ [m]) y.2 s).
        rewrite list_lookup_imap, Es. split; [done|]. unfold notify_object.
        rewrite bool_decide_true by (by apply list_elem_of_fmap_2). by apply session_ok_notified.
    + unfold handleNotification in HE. rewrite (ok_cache _ _ Hv) in HE.
      assert (HN : caches H !! Topic.toZmqTopic true topic = None).
      { etransitivity; [apply lookup_fmap|]. exact (f_equal (fmap entry_of) E). }
      rewrite HN in HE. by injection HE as _ <-.
  - injection HE as _ <-. apply HG, grown_same. by destruct Hv.
Qed.

End runs.
