(* ===== verification/RestIds.v ===== *)
(** * RestIds: requests of the REST server and their answers

    The numbers of the requests that wait for the broker: each is given once, to
    one stream of one session, so that an answer goes to the stream that asked, and
    only once. *)

From S2P Require Import Prelude Text Uri Outcome Rest RestServer RestSpec RestPolls RestSystem RestRuns.
From S2P Require Topic Message LongPolling Socket.
Local Open Scope Z_scope.

Definition ids_of (s : session) : list Z := (pendingRequests s).*1.

Definition sessions (v : server) : list session := ((λ x, t_session x.2) <$> h2Sessions v) ++ h3Objects v.

Definition all_ids (v : server) : list Z := concat (ids_of <$> sessions v).

(** The numbers from the [n]th request on, in 64 bits. *)
Definition new_ids (n k : Z) : list Z := wrapu 64 <$> seqZ n k.

Lemma new_ids_app n k k' : 0 ≤ k → 0 ≤ k' → new_ids n (k + k') = new_ids n k ++ new_ids (n + k) k'.
Proof. intros. unfold new_ids. by rewrite seqZ_app, fmap_app. Qed.

Lemma new_ids_fits n k : 0 ≤ n → n + k ≤ 2 ^ 64 → new_ids n k = seqZ n k.
Proof.
  intros Hn Hk. unfold new_ids. rewrite <- (list_fmap_id (seqZ n k)) at 2. apply list_fmap_ext.
  intros i x Hx. apply lookup_seqZ in Hx as [-> Hi]. unfold id. apply wrapu_id. unfold in_u. lia.
Qed.

Lemma requests_in_more ms ms' : requests_in (ms ++ ms') = requests_in ms + requests_in ms'.
Proof. unfold requests_in. rewrite filter_app, length_app. lia. Qed.

Lemma requests_in_nonneg ms : 0 ≤ requests_in ms.
Proof. unfold requests_in. lia. Qed.

Lemma concat_sublist {A B} (f : A → list B) l l' : sublist l' l → concat (f <$> l') ⊆+ concat (f <$> l).
Proof.
  induction 1 as [|x l1 l2 HS IH|x l1 l2 HS IH]; simpl; [done|by apply submseteq_app|].
  by apply submseteq_inserts_l.
Qed.

Section ids.
Context `{env : Environment}.

(** ** A session *)

Definition keeps_ids (s s' : session) : Prop := ids_of s' = ids_of s.

Lemma keeps_core s s' : core s' = core s → keeps_ids s s'.
Proof. unfold keeps_ids, ids_of. by intros [= _ _ -> _]. Qed.

Lemma redirect_keeps streamId u i b s : ends (respondWithLongPollingRedirect streamId u i b s) (keeps_ids s).
Proof.
  eapply ends_weaken; [apply good_ends, good_redirect|]. intros s'. apply keeps_core.
Qed.

Lemma batch_keeps streamId e first n s : ends (respondToLongPollBatch streamId e first n s) (keeps_ids s).
Proof.
  unfold respondToLongPollBatch. destruct (batch_parts _ _ _ _ _) as [parts| |]; [|done|done].
  unfold send_parts. simpl. destruct (LongPolling.encodeBatch parts); apply keeps_core; [apply sendResponse_core|apply sendMessage_core].
Qed.

Lemma to_redirect_keeps streamId t i b s :
  ends (u ← toMdpTopic t; respondWithLongPollingRedirect streamId u i b s) (keeps_ids s).
Proof. eapply ends_then with (P := λ _, True); [by destruct (toMdpTopic t)|]. intros u _. apply redirect_keeps. Qed.

Lemma poll_indexed_keeps streamId r t e batch i s : ends (poll_indexed streamId r t e batch i s) (keeps_ids s).
Proof.
  unfold poll_indexed. destruct (mode batch).
  - destruct (_ <? _); [apply to_redirect_keeps|]. destruct (_ || _); [done|].
    destruct (messages e !! _); [|done]. apply keeps_core, sendMessage_core.
  - destruct (_ && _); [apply batch_keeps|done].
  - cbv zeta. destruct (max64 - _ <? _); [apply keeps_core, sendMessage_core|]. destruct (_ || _); [done|apply batch_keeps].
Qed.

Lemma poll_keeps streamId r c s :
  ends (processLongPollRequest streamId r c s) (λ '(m, _, s'), keeps_ids s s' ∧ Forall (λ m, is_request m = false) (option_list m)).
Proof.
  unfold processLongPollRequest. destruct (parse_index r) as [index|]; [|split; [apply keeps_core, sendMessage_core|constructor]].
  destruct (parseLongPollingBatch r) as [batch|];
    [|split; [destruct index; apply keeps_core, sendMessage_core|constructor]].
  destruct (match index with Some _ => _ | None => _ end); [split; [apply keeps_core, sendMessage_core|constructor]|].
  eapply ends_then with (P := λ '(m, _), Forall (λ m, is_request m = false) (option_list m)).
  { destruct (c !! _); [constructor|]. destruct (toMdpTopic (topic r)); [|done|done]. by repeat constructor. }
  intros [m c1] Hm. eapply ends_then with (P := λ _, True); [by destruct (c1 !! _)|]. intros e _.
  eapply ends_then with (P := keeps_ids s); [|by intros s' Hs'].
  destruct (is_index "Next" r); [apply to_redirect_keeps|]. destruct (is_index "Last" r); [apply to_redirect_keeps|].
  destruct index as [i|]; [apply poll_indexed_keeps|done].
Qed.

(** What requests add to a session that has seen [n] of them. *)
Definition adds (n : Z) (ms : list message) (s : session) (x : list message * cache * Z * session) : Prop :=
  let '(ms', _, next, s') := x in
  ∃ k, 0 ≤ k ∧ requests_in ms' = requests_in ms + k ∧ next = wrapu 64 (n + k) ∧ ids_of s' = ids_of s ++ new_ids n k.

Lemma adds_none n ms ms' c s s' :
  keeps_ids s s' → requests_in ms' = requests_in ms → adds n ms s (ms', c, wrapu 64 n, s').
Proof.
  intros Hk E. exists 0. rewrite !Z.add_0_r. split_and!; [done|done|done|]. unfold new_ids.
  rewrite seqZ_nil by done. by rewrite app_nil_r.
Qed.

Lemma one_adds streamId r ms c n s : ends (process_one streamId r (ms, c, wrapu 64 n, s)) (adds n ms s).
Proof.
  unfold process_one.
  assert (HGS : method r ≠ LongPoll →
    ends ('(m, next', s') ← processGetSetRequest streamId r (wrapu 64 n) s; Ret (ms ++ [m], c, next', s')) (adds n ms s)).
  { intros Hm. unfold processGetSetRequest. destruct (toMdpTopic _) as [u| |]; [|done|done]. cbn -[wrapu].
    exists 1. split_and!; [done| |by rewrite wrapu_add|].
    - rewrite requests_in_more. f_equal. unfold requests_in. rewrite filter_cons, decide_True; [done|].
      unfold is_request. simpl. by case_bool_decide.
    - unfold ids_of. simpl. by rewrite fmap_app. }
  destruct (method r) eqn:Em.
  - apply adds_none; [apply keeps_core, sendResponse_core|done].
  - by apply HGS.
  - eapply ends_then; [apply poll_keeps|]. intros [[m c'] s'] [Hk Hm]. apply adds_none; [done|].
    rewrite requests_in_more. destruct m as [m|]; [|unfold requests_in; simpl; lia].
    inversion_clear Hm. unfold requests_in at 2. rewrite filter_cons, decide_False by congruence. simpl. lia.
  - by apply HGS.
  - apply adds_none; [apply keeps_core, sendMessage_core|done].
Qed.

Lemma all_adds l ms c n s : ends (process_all l (ms, c, wrapu 64 n, s)) (adds n ms s).
Proof.
  revert ms c n s. induction l as [|[streamId r] l IH]; intros ms c n s; cbn [process_all]; [by apply adds_none|].
  eapply ends_then; [apply one_adds|]. intros [[[ms1 c1] next1] s1] (k & Hk & Hr & -> & Hi).
  eapply ends_weaken; [apply IH|]. intros [[[ms2 c2] next2] s2] (k' & Hk' & Hr' & -> & Hi').
  exists (k + k'). split_and!; [lia|lia|f_equal; lia|].
  by rewrite Hi', Hi, new_ids_app, app_assoc by lia.
Qed.

Lemma collect_adds s v n :
  nextRequestId v = wrapu 64 n →
  ends (collect s v) (λ '(ms, s', v'), sessions v' = sessions v ∧ nextRequestId v' = wrapu 64 (n + requests_in ms)
                                       ∧ ids_of s' = ids_of s ++ new_ids n (requests_in ms)
                                       ∧ h2Sessions v' = h2Sessions v ∧ h3Sessions v' = h3Sessions v ∧ h3Objects v' = h3Objects v).
Proof.
  intros E. unfold collect, getMessages. rewrite E. eapply ends_then.
  { eapply ends_then; [apply all_adds|]. intros [[[ms c] next] s'] Ha. cbn [ends]. 
    instantiate (1 := λ x, adds n [] s x). exact Ha. }
  intros [[[ms c] next] s'] (k & Hk & Hr & -> & Hi). simpl.
  replace (requests_in ms) with k by (rewrite Hr; unfold requests_in; simpl; lia). done.
Qed.

Lemma shrinks_ids s s' : shrinks s s' → ids_of s' ⊆+ ids_of s.
Proof. intros [A _]. unfold ids_of. by apply sublist_submseteq, fmap_sublist. Qed.

(** ** The server *)

(** What an event adds to a server that has seen [n] requests. *)
Definition asks (n : Z) (v : server) (ms : list message) (v' : server) : Prop :=
  all_ids v' ⊆+ all_ids v ++ new_ids n (requests_in ms) ∧ nextRequestId v' = wrapu 64 (n + requests_in ms).

Lemma asks_none n v v' : nextRequestId v = wrapu 64 n → all_ids v' ⊆+ all_ids v → nextRequestId v' = nextRequestId v → asks n v [] v'.
Proof.
  intros En Hs E. unfold asks. change (requests_in []) with 0. rewrite Z.add_0_r, E. split; [|done].
  unfold new_ids. rewrite seqZ_nil by done. by rewrite app_nil_r.
Qed.

Lemma asks_trans n v1 ms1 v2 ms2 v3 :
  asks n v1 ms1 v2 → asks (n + requests_in ms1) v2 ms2 v3 → asks n v1 (ms1 ++ ms2) v3.
Proof.
  intros [A1 A2] [B1 B2]. pose proof (requests_in_nonneg ms1). pose proof (requests_in_nonneg ms2).
  unfold asks. rewrite requests_in_more, new_ids_app by done. split; [|by rewrite B2; f_equal; lia].
  etransitivity; [exact B1|]. etransitivity; [apply submseteq_skips_r; exact A1|]. by rewrite app_assoc.
Qed.

Lemma asks_weaken n v0 v ms v' :
  all_ids v ⊆+ all_ids v0 → asks n v ms v' → asks n v0 ms v'.
Proof. intros HS [A B]. split; [|done]. etransitivity; [exact A|by apply submseteq_skips_r]. Qed.

Lemma lookup_key_split {A} k (l : list (Z * A)) x :
  lookup_key k l = Some x → ∃ l1 l2, l = l1 ++ (k, x) :: l2 ∧ ∀ f, replace_key k f l = l1 ++ (k, f x) :: l2.
Proof.
  induction l as [|[k' y] l IH]; simpl; [done|]. destruct (Z.eqb_spec k k') as [->|Hne].
  - intros [= ->]. by exists [], l.
  - intros E. destruct (IH E) as (l1 & l2 & -> & HR). exists ((k', y) :: l1), l2. split; [done|]. intros f. by rewrite HR.
Qed.

Definition tcp_ids (l : list (Z * tcp_session)) : list Z := concat (ids_of <$> ((λ x, t_session x.2) <$> l)).

Lemma tcp_ids_app l l' : tcp_ids (l ++ l') = tcp_ids l ++ tcp_ids l'.
Proof. unfold tcp_ids. by rewrite !fmap_app, concat_app. Qed.

Lemma tcp_ids_cons fd t l : tcp_ids ((fd, t) :: l) = ids_of (t_session t) ++ tcp_ids l.
Proof. done. Qed.

Lemma all_ids_tcp v : all_ids v = tcp_ids (h2Sessions v) ++ concat (ids_of <$> h3Objects v).
Proof. unfold all_ids, sessions. by rewrite fmap_app, concat_app. Qed.

(** A session is put back with more numbers, or fewer. *)
Lemma put_session_ids fd t t' v new :
  lookup_key fd (h2Sessions v) = Some t → ids_of (t_session t') ⊆+ ids_of (t_session t) ++ new →
  all_ids (put_session fd t' v) ⊆+ all_ids v ++ new.
Proof.
  intros E HS. rewrite !all_ids_tcp. unfold put_session, update_key. simpl. rewrite E.
  destruct (lookup_key_split _ _ _ E) as (l1 & l2 & -> & HR). rewrite HR, !tcp_ids_app, !tcp_ids_cons.
  etransitivity; [apply submseteq_skips_r, submseteq_skips_l, submseteq_skips_r; exact HS|]. solve_submseteq.
Qed.

Lemma drop_session_ids fd v : all_ids (drop_session fd v) ⊆+ all_ids v.
Proof.
  rewrite !all_ids_tcp. simpl. apply submseteq_app; [|done]. unfold tcp_ids. rewrite <- !list_fmap_compose.
  apply (concat_sublist (ids_of ∘ (λ x, t_session x.2))), sublist_filter.
Qed.

Lemma object_ids o s s' v new :
  h3Objects v !! o = Some s → ids_of s' ⊆+ ids_of s ++ new →
  all_ids (set_objects (<[o := s']> (h3Objects v)) v) ⊆+ all_ids v ++ new.
Proof.
  intros E HS. rewrite !all_ids_tcp. simpl. pose proof (lookup_lt_Some _ _ _ E).
  rewrite insert_take_drop by done. rewrite <- (take_drop_middle _ _ _ E) at 3.
  rewrite !fmap_app, !concat_app, !fmap_cons. simpl.
  etransitivity; [apply submseteq_skips_l, submseteq_skips_l, submseteq_skips_r; exact HS|]. solve_submseteq.
Qed.

Lemma process_tcp_asks n fd io v :
  nextRequestId v = wrapu 64 n → ends (process_tcp fd io v) (λ '(ms, v'), asks n v ms v').
Proof.
  intros En. unfold process_tcp. destruct (lookup_key fd (h2Sessions v)) as [t|] eqn:E; [|done]. cbn [of_option mbind run_bind].
  assert (Hdrop : asks n v [] (drop_session fd v)) by (apply asks_none; [done|apply drop_session_ids|done]).
  assert (Hput : ∀ t', ids_of (t_session t') ⊆+ ids_of (t_session t) → asks n v [] (put_session fd t' v)).
  { intros t' HS. apply asks_none; [done| |done]. rewrite <- (app_nil_r (all_ids v)). eapply put_session_ids; [done|]. by rewrite app_nil_r. }
  destruct (negb (Socket.isReady (t_state t))).
  { destruct (Socket.continueHandshake _ _) as [[] st]; [by apply Hput|done]. }
  eapply ends_then with (P := λ x, shrinks (t_session t) x.2).
  { destruct (io_write io) as [[cs ok]|]; [|apply shrinks_refl].
    eapply ends_then; [apply calls_shrink, call2_shrinks|]. by intros s' Hs'. }
  intros [ok s1] Hs1. destruct (negb ok); [done|]. simpl in Hs1.
  destruct (io_read io) as [readings|]; [|by apply Hput, shrinks_ids].
  eapply ends_then; [apply read_loop_shrinks|]. intros [ok2 s2] Hs2. simpl in Hs2.
  destruct (negb ok2); [done|].
  eapply ends_then; [by apply (collect_adds _ _ n)|].
  intros [[ms s3] v'] (HS & Hn & Hi & H2 & H3 & HO). split; [|done].
  pose proof (put_session_ids fd t (set_session s3 t) v' (new_ids n (requests_in ms))) as HP.
  assert (HA : all_ids v' = all_ids v) by (unfold all_ids; by rewrite HS). rewrite HA in HP. apply HP; [by rewrite H2|].
  simpl. rewrite Hi. apply submseteq_skips_r. etransitivity; [apply shrinks_ids; exact Hs2|by apply shrinks_ids].
Qed.

Lemma read_pkt_ids p v : ends (read_pkt p v) (λ '(_, v'), all_ids v' ⊆+ all_ids v ∧ nextRequestId v' = nextRequestId v).
Proof.
  unfold read_pkt. destruct (lookup_cid (k_cid p) (h3Sessions v)) as [o|].
  - destruct (h3Objects v !! o) as [s|] eqn:E; [|done]. cbn [of_option mbind run_bind].
    eapply ends_then; [apply calls_shrink, call3_shrinks|]. intros s' Hs'. cbn [ends]. split; [|done].
    etransitivity; [|by rewrite <- (app_nil_r (all_ids v))].
    apply (object_ids o s s' v []); [done|]. rewrite app_nil_r. by apply shrinks_ids.
  - eapply ends_then; [apply calls_shrink, call3_shrinks|]. intros s Hs. cbn [ends].
    assert (HI : ids_of s = []).
    { destruct Hs as [A _]. simpl in A. apply sublist_nil_r in A. unfold ids_of. by rewrite A. }
    assert (HE : concat (ids_of <$> h3Objects v ++ [s]) = concat (ids_of <$> h3Objects v)).
    { rewrite fmap_app, concat_app. simpl. by rewrite HI, !app_nil_r. }
    destruct (k_ok p); (split; [|done]); rewrite !all_ids_tcp; simpl; by rewrite HE.
Qed.

Lemma on_read_ids packets v : ends (on_read packets v) (λ '(_, v'), all_ids v' ⊆+ all_ids v ∧ nextRequestId v' = nextRequestId v).
Proof.
  revert v. induction packets as [|p packets IH]; intros v; cbn [on_read]; [done|].
  eapply ends_then; [apply read_pkt_ids|]. intros [k v1] [A1 A2]. eapply ends_then; [apply IH|].
  intros [touched v2] [B1 B2]. split; [by etransitivity|congruence].
Qed.

Lemma collect_touched_asks n touched v :
  nextRequestId v = wrapu 64 n → ends (collect_touched touched v) (λ '(ms, v'), asks n v ms v').
Proof.
  revert n v. induction touched as [|k touched IH]; intros n v En; cbn [collect_touched]; [by apply asks_none|].
  destruct (lookup_cid k (h3Sessions v)) as [o|]; [|by apply IH].
  destruct (h3Objects v !! o) as [s|] eqn:E; [|done]. cbn [of_option mbind run_bind].
  eapply ends_then; [by apply (collect_adds _ _ n)|]. intros [[ms s'] v1] (HS & Hn & Hi & H2 & H3 & HO).
  eapply ends_then; [by apply (IH (n + requests_in ms))|].
  intros [messages v2] HA. cbn [ends]. eapply asks_trans; [|exact HA]. split; [|done].
  assert (HE : all_ids v1 = all_ids v) by (unfold all_ids; by rewrite HS). rewrite <- HE.
  apply (object_ids o s); [by rewrite HO|]. by rewrite Hi.
Qed.

Lemma process_quic_asks n packets gone v :
  nextRequestId v = wrapu 64 n → ends (process_quic packets gone v) (λ '(ms, v'), asks n v ms v').
Proof.
  intros En. unfold process_quic. eapply ends_then; [apply on_read_ids|]. intros [touched v1] [A1 A2].
  eapply ends_weaken; [apply (collect_touched_asks n); simpl; congruence|]. intros [ms v'] HA.
  by eapply asks_weaken; [|exact HA].
Qed.

(** ** Answers *)

Lemma delete_sublist {A} (l : list A) i : sublist (delete i l) l.
Proof. revert i. induction l as [|x l IH]; intros [|i]; simpl; try done; by constructor. Qed.

Lemma respond_ids id m s s' :
  respond id m s = Some s' → ids_of s' ⊆+ ids_of s ∧ ids_of s ≡ₚ id :: ids_of s'.
Proof.
  unfold respond. destruct (list_find _ _) as [[i [x streamId]]|] eqn:E; [|done]. intros [= <-].
  pose proof (sendMessage_core streamId (if is_nil (Message.error m) then kHttpOk else kHttpError) m [] s) as HC.
  injection HC as _ _ HR _. unfold ids_of. simpl. rewrite HR. unfold erase_first. rewrite E.
  apply list_find_Some in E as (E & Hx & _). unfold matchesId in Hx. simpl in Hx. apply Z.eqb_eq in Hx as ->.
  split; [apply sublist_submseteq, fmap_sublist, delete_sublist|].
  rewrite (delete_Permutation _ _ _ E) at 1. done.
Qed.

Lemma respond_tcp_ids id m l l' : respond_tcp id m l = Some l' → tcp_ids l ≡ₚ id :: tcp_ids l'.
Proof.
  revert l'. induction l as [|[fd t] l IH]; intros l' E; simpl in E; [done|].
  destruct (respond id m (t_session t)) as [s|] eqn:Er.
  - injection E as <-. rewrite !tcp_ids_cons. destruct (respond_ids _ _ _ _ Er) as [_ HP]. by rewrite HP.
  - destruct (respond_tcp id m l) as [l1|]; [|done]. injection E as <-. rewrite !tcp_ids_cons, (IH l1) by done.
    by rewrite Permutation_middle.
Qed.

Lemma respond_quic_ids id m table objects objects' :
  respond_quic id m table objects = Some objects' →
  concat (ids_of <$> objects) ≡ₚ id :: concat (ids_of <$> objects').
Proof.
  induction table as [|[k o] table IH]; simpl; [done|]. intros E.
  destruct (objects !! o) as [s|] eqn:Eo; simpl in E; [|by apply IH].
  destruct (respond id m s) as [s'|] eqn:Er; [|by apply IH]. injection E as <-.
  pose proof (lookup_lt_Some _ _ _ Eo). rewrite insert_take_drop by done.
  rewrite <- (take_drop_middle _ _ _ Eo) at 1. rewrite !fmap_app, !concat_app, !fmap_cons. simpl.
  destruct (respond_ids _ _ _ _ Er) as [_ HP]. rewrite HP. simpl. symmetry. apply Permutation_middle.
Qed.

(** The answer takes the number with it. *)
Lemma handleResponse_ids m v :
  (∃ id, parse_id (Message.clientRequestID m) = Some id ∧ all_ids v ≡ₚ id :: all_ids (handleResponse m v))
  ∨ handleResponse m v = v.
Proof.
  unfold handleResponse. destruct (parse_id _) as [id|]; [|by right].
  destruct (respond_tcp id m (h2Sessions v)) as [l|] eqn:E.
  { left. exists id. split; [done|]. rewrite !all_ids_tcp. simpl. by rewrite (respond_tcp_ids _ _ _ _ E). }
  destruct (respond_quic id m (h3Sessions v) (h3Objects v)) as [objects|] eqn:E'; [|by right].
  left. exists id. split; [done|]. rewrite !all_ids_tcp. simpl. rewrite (respond_quic_ids _ _ _ _ _ E').
  by rewrite Permutation_middle.
Qed.

(** ** Notifications ask nothing *)

Lemma answer_poll_keeps c m p s : ends (answer_poll c m p s) (keeps_ids s).
Proof.
  unfold answer_poll. destruct (mode (p_batch p)); [apply keeps_core, sendMessage_core| |];
    (destruct (c !! p_topic p); [apply batch_keeps|done]).
Qed.

Lemma notify_session_keeps c t i m s : ends (notify_session c t i m s) (keeps_ids s).
Proof.
  unfold notify_session. eapply ends_then with (P := λ x, keeps_ids s x.2); [|by intros [kept s'] Hk].
  generalize (pendingPolls s). intros polls. assert (HG : ∀ s1, keeps_ids s s1 → ends (poll_loop c t i m polls s1) (λ x, keeps_ids s x.2));
    [|by apply HG].
  induction polls as [|p polls IH]; intros s1 H1; cbn [poll_loop]; [done|]. destruct (_ && _).
  - eapply ends_then; [apply answer_poll_keeps|]. intros s2 H2. apply IH. unfold keeps_ids in *. congruence.
  - eapply ends_then; [by apply IH|]. by intros [kept s'].
Qed.

Lemma notify_tcp_keeps c t i m l : ends (notify_tcp c t i m l) (λ l', tcp_ids l' = tcp_ids l).
Proof.
  induction l as [|[fd x] l IH]; cbn [notify_tcp]; [done|]. eapply ends_then; [apply notify_session_keeps|]. intros s Hs.
  eapply ends_then; [apply IH|]. intros l' Hl. cbn [ends]. by rewrite !tcp_ids_cons, Hl, <- Hs.
Qed.

Lemma notify_quic_keeps c t i m table objects :
  ends (notify_quic c t i m table objects) (λ o, concat (ids_of <$> o) = concat (ids_of <$> objects)).
Proof.
  revert objects. induction table as [|[k o] table IH]; intros objects; cbn [notify_quic]; [done|].
  destruct (objects !! o) as [s|] eqn:E; [|done]. cbn [of_option mbind run_bind].
  eapply ends_then; [apply notify_session_keeps|]. intros s' Hs. eapply ends_weaken; [apply IH|]. intros o' ->.
  rewrite list_fmap_insert, Hs. rewrite list_insert_id; [done|]. by rewrite list_lookup_fmap, E.
Qed.

Lemma handle_asks x v n :
  nextRequestId v = wrapu 64 n → ends (handle x v) (λ '(ms, v'), asks n v ms v').
Proof.
  intros En. destruct x as [ssl newFd|fd io|packets gone|m|topic m|l]; cbn [handle].
  - unfold process_accept. destruct newFd as [fd|]; [|by apply asks_none].
    destruct (lookup_key fd (h2Sessions v)) eqn:E; [done|]. cbn [mbind run_bind ends]. apply asks_none; [done| |done].
    rewrite !all_ids_tcp. simpl. unfold update_key. rewrite E. apply submseteq_skips_r.
    clear E. induction (h2Sessions v) as [|[fd' t] l IH]; simpl; [done|].
    destruct (fd <? fd')%Z; [done|]. rewrite !tcp_ids_cons. by apply submseteq_skips_l.
  - by apply process_tcp_asks.
  - by apply process_quic_asks.
  - cbn [ends]. destruct (handleResponse_ids m v) as [(id & _ & HP)| ->]; [|by apply asks_none].
    apply asks_none; [done|rewrite HP; by apply submseteq_cons|].
    unfold handleResponse. destruct (parse_id _); [|done]. destruct (respond_tcp _ _ _); [done|]. by destruct (respond_quic _ _ _ _).
  - unfold handleNotification. destruct (_ !! _); [|by apply asks_none].
    destruct (last _); [|done]. cbn [of_option mbind run_bind].
    match goal with |- context [notify_tcp ?c ?t ?i ?b ?l] =>
      pose proof (notify_tcp_keeps c t i b l) as HT'; destruct (notify_tcp c t i b l) as [l2| |]; [|done|done] end.
    cbn [mbind run_bind].
    match goal with |- context [notify_quic ?c ?t ?i ?b ?l ?o] =>
      pose proof (notify_quic_keeps c t i b l o) as HQ; destruct (notify_quic c t i b l o) as [l3| |]; [|done|done] end.
    apply asks_none; [done| |done]. rewrite !all_ids_tcp. simpl in *. by rewrite HT', HQ.
  - by apply asks_none.
Qed.

(** ** Every number is given once *)

Lemma traced_ids v H n :
  traced v H n →
  nextRequestId v = wrapu 64 n ∧ 0 ≤ n ∧ (n ≤ 2 ^ 64 → NoDup (all_ids v) ∧ Forall (λ i, 0 ≤ i < n) (all_ids v)).
Proof.
  induction 1 as [|x v H n ms v' HT (En & Hn & IH) HE]; [split_and!; [done|done|]; split; constructor|].
  pose proof (handle_asks x v n En) as HA. rewrite HE in HA. destruct HA as [HS En'].
  pose proof (requests_in_nonneg ms). split_and!; [done|lia|]. intros Hb. destruct IH as [IH1 IH2]; [lia|].
  rewrite new_ids_fits in HS by lia.
  assert (Hall : Forall (λ i, 0 ≤ i < n + requests_in ms) (all_ids v ++ seqZ n (requests_in ms))).
  { apply Forall_app_2; [eapply Forall_impl; [exact IH2|intros i Hi; simpl in *; lia]|].
    apply Forall_forall. intros i Hi. apply elem_of_seqZ in Hi. lia. }
  split.
  - apply submseteq_Permutation in HS as [rest HP].
    enough (HN : NoDup (all_ids v ++ seqZ n (requests_in ms))) by (rewrite HP in HN; by apply NoDup_app in HN as [? _]).
    apply NoDup_app. split_and!; [done| |apply NoDup_seqZ].
    intros i Hi Hi'. rewrite Forall_forall in IH2. apply IH2 in Hi. apply elem_of_seqZ in Hi'. lia.
  - rewrite Forall_forall in *. intros i Hi. apply Hall. by eapply elem_of_submseteq.
Qed.

(** ** An answer finds its request *)

Lemma respond_None id m s : id ∉ ids_of s → respond id m s = None.
Proof.
  intros Hn. unfold respond. destruct (list_find _ _) as [[i [x streamId]]|] eqn:E; [|done].
  apply list_find_Some in E as (E & Hx & _). unfold matchesId in Hx. simpl in Hx. apply Z.eqb_eq in Hx as ->.
  destruct Hn. unfold ids_of. apply list_elem_of_lookup. exists i. by rewrite list_lookup_fmap, E.
Qed.

Lemma respond_Some id streamId m s :
  NoDup (ids_of s) → (id, streamId) ∈ pendingRequests s →
  ∃ i, pendingRequests s !! i = Some (id, streamId) ∧
  respond id m s = Some (set_pendingRequests (delete i (pendingRequests s))
    (sendMessage streamId (if is_nil (Message.error m) then kHttpOk else kHttpError) m [] s)).
Proof.
  intros HN Hin. apply list_elem_of_lookup in Hin as [i Hi]. exists i. split; [done|]. unfold respond.
  assert (HF : list_find (λ x, matchesId id x = true) (pendingRequests s) = Some (i, (id, streamId))).
  { apply list_find_Some. split_and!; [done|unfold matchesId; by rewrite Z.eqb_refl|].
    intros j [y str'] Hj Hlt Hy. unfold matchesId in Hy. simpl in Hy. apply Z.eqb_eq in Hy as ->.
    assert (i = j); [|lia]. apply (NoDup_lookup (ids_of s) _ _ id HN); unfold ids_of; rewrite list_lookup_fmap;
      [by rewrite Hi|by rewrite Hj]. }
  rewrite HF. unfold erase_first.
  assert (HR : pendingRequests (sendMessage streamId (if is_nil (Message.error m) then kHttpOk else kHttpError) m [] s)
               = pendingRequests s).
  { pose proof (sendMessage_core streamId (if is_nil (Message.error m) then kHttpOk else kHttpError) m [] s) as HC. by injection HC. }
  by rewrite HR, HF.
Qed.

Lemma respond_tcp_skip id m l1 l2 :
  id ∉ tcp_ids l1 → respond_tcp id m (l1 ++ l2) = app l1 <$> respond_tcp id m l2.
Proof.
  induction l1 as [|[fd t] l1 IH]; intros Hn; simpl; [by destruct (respond_tcp id m l2)|].
  rewrite tcp_ids_cons, not_elem_of_app in Hn. destruct Hn as [Hn1 Hn2].
  rewrite respond_None, IH by done. by destruct (respond_tcp id m l2).
Qed.

Lemma response_found v fd t id streamId m :
  NoDup (all_ids v) → lookup_key fd (h2Sessions v) = Some t → (id, streamId) ∈ pendingRequests (t_session t) →
  parse_id (Message.clientRequestID m) = Some id →
  ∃ i, pendingRequests (t_session t) !! i = Some (id, streamId) ∧
  handleResponse m v = set_h2 (replace_key fd
    (set_session (set_pendingRequests (delete i (pendingRequests (t_session t)))
       (sendMessage streamId (if is_nil (Message.error m) then kHttpOk else kHttpError) m [] (t_session t))))
    (h2Sessions v)) v ∧
  id ∉ all_ids (handleResponse m v).
Proof.
  intros HN E Hin Hid. destruct (lookup_key_split _ _ _ E) as (l1 & l2 & HL & HR).
  assert (Hid1 : id ∈ ids_of (t_session t)) by (unfold ids_of; by apply list_elem_of_fmap_2 with (f := fst) in Hin).
  pose proof HN as HN'. rewrite all_ids_tcp, HL, tcp_ids_app, tcp_ids_cons in HN'.
  apply NoDup_app in HN' as (HN' & _ & _). apply NoDup_app in HN' as (_ & Hd & HN').
  apply NoDup_app in HN' as (HNt & _ & _).
  assert (Hn1 : id ∉ tcp_ids l1) by (intros Hi; apply (Hd id Hi); set_solver).
  destruct (respond_Some id streamId m (t_session t) HNt Hin) as (i & Hi & HRs). exists i.
  assert (HH : handleResponse m v = set_h2 (replace_key fd
    (set_session (set_pendingRequests (delete i (pendingRequests (t_session t)))
       (sendMessage streamId (if is_nil (Message.error m) then kHttpOk else kHttpError) m [] (t_session t))))
    (h2Sessions v)) v).
  { unfold handleResponse. rewrite Hid, HL, respond_tcp_skip by done. cbn [respond_tcp]. rewrite HRs. cbn.
    by rewrite <- HL, HR. }
  split_and!; [done|done|].
  destruct (handleResponse_ids m v) as [(id' & Hid' & HP)|HE].
  - rewrite Hid in Hid'. injection Hid' as <-. rewrite HP in HN. by apply NoDup_cons in HN as [? _].
  - exfalso. pose proof HE as HE'. rewrite HH in HE'. apply (f_equal h2Sessions) in HE'. simpl in HE'. rewrite HR, HL in HE'.
    apply app_inv_head in HE'. injection HE' as HE'. apply (f_equal t_session) in HE'. simpl in HE'.
    apply (f_equal pendingRequests) in HE'. simpl in HE'.
    apply (f_equal length) in HE'. rewrite length_delete in HE' by (by exists (id, streamId)).
    apply lookup_lt_Some in Hi. lia.
Qed.

End ids.
