(* ===== verification/RestConnections.v ===== *)
(** * RestConnections: what a connection of the REST server sees

    A session, over TCP or over QUIC, from the outside: what it is given to send, in
    words that do not mention how the server makes its responses, and what of it
    outlives the events of the others. *)

From S2P Require Import Prelude Text Uri Outcome Rest RestServer RestSpec RestPolls RestSystem RestRuns RestIds.
From S2P Require Topic Message LongPolling Socket.
Local Open Scope Z_scope.

#[export] Instance LongPollingBatchRequest_eq_dec : EqDecision LongPollingBatchRequest.
Proof. solve_decision. Defined.
#[export] Instance PendingPoll_eq_dec : EqDecision PendingPoll.
Proof. solve_decision. Defined.

(** A socket, or a session that connection identifiers lead to. *)
Inductive connection : Type := OverTcp (fd : Z) | OverQuic (o : nat).

Definition session_at (c : connection) (v : server) : option session :=
  match c with
  | OverTcp fd => t_session <$> lookup_key fd (h2Sessions v)
  | OverQuic o => if bool_decide (o ∈ (h3Sessions v).*2) then h3Objects v !! o else None
  end.

Definition set_at (c : connection) (s : session) (v : server) : server :=
  match c with
  | OverTcp fd => set_h2 (replace_key fd (set_session s) (h2Sessions v)) v
  | OverQuic o => set_objects (<[o := s]> (h3Objects v)) v
  end.

(** ** What is said *)

Definition text_of (x : submission) : option bytes :=
  match s_body x with None => Some [] | Some (Owned b) | Some (View b) => Some b | Some (Reader _) => None end.

(** A response on a stream, with its status and its text. *)
Definition says (streamId status : Z) (text : bytes) (x : submission) : Prop :=
  s_stream x = streamId ∧ head (s_headers x) = Some (str ":status", to_dec status) ∧ text_of x = Some text.

(** The index that a response is for. *)
Definition for_index (index : Z) (x : submission) : Prop :=
  (str "x-opencmw-long-polling-idx", to_dec index) ∈ s_headers x.

(** What a poll is handed: the message, or the batch; a batch that cannot be
    written, or has no last index, is an error. *)
Definition carries (streamId : Z) (a : answer) (x : submission) : Prop :=
  match a with
  | One i m => says streamId 200 (if is_nil (Message.error m) then Message.data m else Message.error m) x ∧ for_index i x
  | Many first ms =>
      for_index first x ∧
      match LongPolling.encodeBatch (parts_from first ms) with
      | inl text => says streamId 200 text x
      | inr _ => says streamId 500 (str "Multipart topic and service name must not contain CR or LF") x
      end
  | TooOld _ => False
  | Overflows first => says streamId 400 overflow_text x ∧ for_index first x
  end.

Section connections.
Context `{env : Environment}.

(** The library is given a response between two states; it has it, if it takes it. *)
Definition offered (x : submission) (s s' : session) : Prop :=
  ∃ l, submitted s `prefix_of` l ∧ (accepts l x = true → l ++ [x] `prefix_of` submitted s').

(** No response of the stream is on its way. *)
Definition silent (streamId : Z) (s : session) : Prop := responses s !! streamId = None.

Lemma submitted_submit x s : submitted (submit x s) = submitted s ++ (if accepts (submitted s) x then [x] else []).
Proof. unfold submit. destruct (accepts _ _); simpl; [done|by rewrite app_nil_r]. Qed.

Lemma sendMessage_says streamId status m extra s :
  silent streamId s →
  ∃ x, says streamId status (if is_nil (Message.error m) then Message.data m else Message.error m) x ∧
  (∀ h, h ∈ extra → h ∈ s_headers x) ∧
  submitted (sendMessage streamId status m extra s) = submitted s ++ (if accepts (submitted s) x then [x] else []).
Proof.
  unfold silent, sendMessage, emplace_response. intros ->. cbn -[submit]. rewrite submitted_submit. eexists.
  split_and!; [|
    |reflexivity]; [done|]. intros h Hh. simpl. rewrite !elem_of_cons, elem_of_app. auto 10.
Qed.

Lemma sendResponse_says streamId status headers text s :
  silent streamId s →
  ∃ x, says streamId status text x ∧ (∀ h, h ∈ headers → h ∈ s_headers x) ∧
  submitted (sendResponse streamId (mkresponse status headers (Owned text)) s)
  = submitted s ++ (if accepts (submitted s) x then [x] else []).
Proof.
  unfold silent, sendResponse, emplace_response. intros ->. cbn -[submit]. rewrite submitted_submit. eexists.
  split_and!; [| |reflexivity].
  - split_and!; [done|done|]. unfold text_of, body_source. simpl. case_bool_decide; simpl; [|done]. by destruct text.
  - intros h Hh. simpl. rewrite !elem_of_cons, elem_of_app. auto.
Qed.

(** What a poll that waited is handed. *)
Lemma hand_over_carries streamId a s :
  silent streamId s → (∀ next, a ≠ TooOld next) →
  ∃ x, carries streamId a x ∧
  submitted (hand_over streamId a s) = submitted s ++ (if accepts (submitted s) x then [x] else []).
Proof.
  intros Hs Ha. destruct a as [i m|first ms|n|first]; simpl; [| |by destruct (Ha n)|].
  - destruct (sendMessage_says streamId kHttpOk m [index_header i; (str "x-timestamp", to_dec timestamp)] s Hs) as (x & A & B & C).
    exists x. split_and!; [done|apply B; by left|done].
  - unfold send_parts. destruct (LongPolling.encodeBatch _) as [text|e] eqn:E.
    + destruct (sendResponse_says streamId kHttpOk
        [(str "content-type", str "multipart/mixed; boundary=" ++ LongPolling.kBoundary);
         (str "content-length", to_dec (Z.of_nat (length text))); index_header first] text s Hs) as (x & A & B & C).
      exists x. split_and!; [apply B; right; right; by left|done|done].
    + destruct (sendMessage_says streamId kHttpError (error_message 0 batch_error_text) [index_header first] s Hs) as (x & A & B & C).
      exists x. split_and!; [apply B; by left|done|done].
  - destruct (sendMessage_says streamId kHttpBadRequest (error_message 0 overflow_text) [index_header first] s Hs) as (x & A & B & C).
    exists x. split_and!; [done|apply B; by left|done].
Qed.

(** ** The other streams stay silent *)

Lemma submit_silent i x s : s_stream x ≠ i → silent i s → silent i (submit x s).
Proof.
  unfold silent, submit. intros Hx Hs. destruct (accepts _ _); simpl; [done|].
  etransitivity; [exact (lookup_delete_ne _ _ _ Hx)|done].
Qed.

Lemma emplace_silent i j d s : j ≠ i → silent i s → silent i (emplace_response j d s).2.
Proof.
  unfold silent, emplace_response. intros Hj Hs. destruct (responses s !! j); simpl; [done|].
  etransitivity; [exact (lookup_insert_ne _ _ _ _ Hj)|done].
Qed.

Lemma sendMessage_silent i j status m extra s : j ≠ i → silent i s → silent i (sendMessage j status m extra s).
Proof.
  intros Hj Hs. unfold sendMessage. pose proof (emplace_silent i j (mkdata m empty_response) s Hj Hs) as HE.
  destruct (emplace_response _ _ _) as [d s1]. by apply submit_silent.
Qed.

Lemma sendResponse_silent i j r s : j ≠ i → silent i s → silent i (sendResponse j r s).
Proof.
  intros Hj Hs. unfold sendResponse. pose proof (emplace_silent i j (mkdata empty_message r) s Hj Hs) as HE.
  destruct (emplace_response _ _ _) as [d s1]. by apply submit_silent.
Qed.

Lemma hand_over_silent i j a s : j ≠ i → silent i s → silent i (hand_over j a s).
Proof.
  intros Hj Hs. destruct a as [k m|first ms|n|first]; simpl; [by apply sendMessage_silent| |done|by apply sendMessage_silent].
  unfold send_parts. destruct (LongPolling.encodeBatch _); [by apply sendResponse_silent|by apply sendMessage_silent].
Qed.

Lemma answer_all_silent i t hs polls s :
  Forall (λ p, p_stream p ≠ i) polls → silent i s → silent i (answer_all t hs polls s).
Proof.
  unfold answer_all. intros HF. revert s. induction HF as [|p polls Hp HF IH]; intros s Hs; simpl; [done|].
  apply IH. destruct (answered _ _ _); [by apply hand_over_silent|done].
Qed.

(** ** What was sent stays sent *)

Lemma submit_grows x s : submitted s `prefix_of` submitted (submit x s).
Proof. rewrite submitted_submit. by apply prefix_app_r. Qed.

Lemma sendResponse_grows streamId x s : submitted s `prefix_of` submitted (sendResponse streamId x s).
Proof.
  unfold sendResponse, emplace_response. destruct (responses s !! streamId); [apply submit_grows|].
  etransitivity; [|apply submit_grows]. done.
Qed.

Lemma sendMessage_grows streamId code m extra s : submitted s `prefix_of` submitted (sendMessage streamId code m extra s).
Proof.
  unfold sendMessage, emplace_response. destruct (responses s !! streamId); [apply submit_grows|].
  etransitivity; [|apply submit_grows]. done.
Qed.

Lemma hand_over_grows streamId a s : submitted s `prefix_of` submitted (hand_over streamId a s).
Proof.
  destruct a as [i m|i ms|n|i]; simpl; [apply sendMessage_grows| |done|apply sendMessage_grows].
  unfold send_parts. destruct (LongPolling.encodeBatch _); [apply sendResponse_grows|apply sendMessage_grows].
Qed.

Lemma answer_all_grows t hs polls s : submitted s `prefix_of` submitted (answer_all t hs polls s).
Proof.
  unfold answer_all. revert s. induction polls as [|p polls IH]; intros s; simpl; [done|].
  etransitivity; [|apply IH]. destruct (answered t hs p); [apply hand_over_grows|done].
Qed.

Lemma answer_all_app t hs l1 l2 s : answer_all t hs (l1 ++ l2) s = answer_all t hs l2 (answer_all t hs l1 s).
Proof. unfold answer_all. by rewrite foldl_app. Qed.

(** No other poll of the session is for its stream. *)
Definition alone (p : PendingPoll) (s : session) : Prop := ∀ q, q ∈ pendingPolls s → p_stream q = p_stream p → q = p.

Lemma waits_not_old hs m p next : waits hs p → poll_answer (hs ++ [m]) (p_batch p) (p_index p) ≠ Some (TooOld next).
Proof.
  intros [Hw Hb Hi]. pose proof (total_snoc hs m) as Ht. unfold poll_answer, oldest in *. rewrite Ht.
  destruct (mode (p_batch p)) eqn:Em;
    [|repeat case_match; congruence
     |repeat case_match; congruence].
  destruct (Z.ltb_spec (p_index p) (Z.max 0 (total hs - 100))); [done|].
  assert (Hge : total hs ≤ p_index p).
  { destruct (Z.ltb_spec (p_index p) (total hs)) as [Hlt|]; [|done]. unfold in_u in Hi.
    destruct (lookup_lt_is_Some_2 hs (Z.to_nat (p_index p))) as [y Hy]; [unfold total in *; lia|]. by rewrite Hy in Hw. }
  rewrite (proj2 (Z.ltb_ge _ _)) by lia. clear Hw. by case_match; [destruct ((hs ++ [m]) !! _)|].
Qed.

Lemma notified_offers t hs m s p a :
  p ∈ pendingPolls s → waits hs p → answered t (hs ++ [m]) p = Some a → silent (p_stream p) s → alone p s →
  ∃ x, carries (p_stream p) a x ∧ offered x s (notified t (hs ++ [m]) s).
Proof.
  intros Hp Hw Ha Hs Hal. apply list_elem_of_split_l in Hp as (l1 & l2 & EL & Hn).
  set (s0 := answer_all t (hs ++ [m]) l1 s).
  assert (Hs0 : silent (p_stream p) s0).
  { apply answer_all_silent; [|done]. apply Forall_forall. intros q Hq E. apply Hn. rewrite <- (Hal q); [done| |done].
    rewrite EL. apply elem_of_app. by left. }
  destruct (hand_over_carries (p_stream p) a s0) as (x & Hx & Hsub); [done| |].
  { intros next ->. unfold answered in Ha. case_bool_decide; [|done]. by eapply waits_not_old. }
  exists x. split; [done|]. exists (submitted s0). split; [apply answer_all_grows|]. intros Hacc. rewrite Hacc in Hsub.
  unfold notified. cbn [set_pendingPolls submitted]. rewrite EL, answer_all_app. fold s0.
  rewrite <- Hsub. unfold answer_all. cbn [foldl]. rewrite Ha. apply answer_all_grows.
Qed.

Lemma notified_keeps t hs s p : p ∈ pendingPolls s → answered t hs p = None → p ∈ pendingPolls (notified t hs s).
Proof. intros Hp Ha. simpl. unfold waiting_on. by apply list_elem_of_filter. Qed.

Lemma notified_drops t hs s p a : answered t hs p = Some a → p ∉ pendingPolls (notified t hs s).
Proof. intros Ha. simpl. unfold waiting_on. rewrite list_elem_of_filter. intros [E _]. congruence. Qed.

(** ** Connections of the server *)

Lemma lookup_key_fmap {A B} (f : A → B) k (l : list (Z * A)) :
  lookup_key k ((λ x, (x.1, f x.2)) <$> l) = f <$> lookup_key k l.
Proof. induction l as [|[k' x] l IH]; simpl; [done|]. by destruct (k =? k')%Z. Qed.

Lemma session_at_notified c t hs H v :
  session_at c (notified_server t hs H v) = notified t hs <$> session_at c v.
Proof.
  destruct c as [fd|o]; cbn [session_at notified_server h2Sessions h3Sessions h3Objects].
  - rewrite (lookup_key_fmap (λ x, set_session (notified t hs (t_session x)) x)). by destruct (lookup_key fd (h2Sessions v)).
  - case_bool_decide as Ho; [|done]. rewrite list_lookup_imap. destruct (h3Objects v !! o); [|done]. simpl.
    unfold notify_object. by rewrite bool_decide_true.
Qed.

Lemma session_at_ok H c v s : server_ok H v → session_at c v = Some s → session_ok H s.
Proof.
  intros [A B C]. destruct c as [fd|o]; simpl.
  - destruct (lookup_key fd (h2Sessions v)) as [x|] eqn:E; [|done]. intros [= <-].
    exact (lookup_key_Forall (λ t, session_ok H (t_session t)) _ _ _ E B).
  - case_bool_decide as Ho; [|done]. intros E. apply list_elem_of_fmap in Ho as (x & -> & Hx).
    rewrite Forall_forall in C. destruct (C x Hx) as (s' & E' & Hs'). congruence.
Qed.

(** ** What outlives an event *)

(** The client gives up the stream. *)
Definition closes (streamId : Z) (cs : list callback) : bool :=
  existsb (λ c, match c with StreamClosed i => (i =? streamId)%Z | _ => false end) cs.

Definition written (io : tcp_io) : list callback := match io_write io with Some (cs, _) => cs | None => [] end.
Definition readings_of (io : tcp_io) : list reading := default [] (io_read io).

Definition disturbs (c : connection) (streamId : Z) (e : event) : bool :=
  match c, e with
  | OverTcp fd, Tcp fd' io =>
      (fd =? fd')%Z && (closes streamId (written io) || existsb (λ r, closes streamId (r_calls r)) (readings_of io))
  | _, _ => false
  end.

Definition has_poll (p : PendingPoll) (s : session) : Prop := p ∈ pendingPolls s.

(** Whoever has the poll still has it. *)
Definition keeps_poll (p : PendingPoll) (s s' : session) : Prop := has_poll p s → has_poll p s'.

Lemma keeps_poll_pending p s s' : pendingPolls s' = pendingPolls s → keeps_poll p s s'.
Proof. unfold keeps_poll, has_poll. by intros ->. Qed.

Lemma keeps_poll_core p s s' : core s' = core s → keeps_poll p s s'.
Proof. intros E. apply keeps_poll_pending. by injection E. Qed.

Lemma call2_keeps p hs c s : closes (p_stream p) [c] = false → ends (call2 hs c s) (keeps_poll p s).
Proof.
  destruct c as [f|f|f|i d|i|i n v]; simpl; intros Hc.
  - unfold frame_recv_callback. destruct (f_type f), (f_end f); try by apply keeps_poll_pending.
    all: eapply ends_weaken; [apply completed_pending|]; intros s' E; apply keeps_poll_pending; by injection E.
  - unfold frame_send_callback. by destruct (f_end f); apply keeps_poll_pending.
  - unfold frame_not_send_callback. by case_bool_decide; apply keeps_poll_pending.
  - by apply keeps_poll_pending.
  - unfold stream_closed_callback. destruct (responses s !! i); [|by apply keeps_poll_pending].
    unfold keeps_poll, has_poll. simpl. intros Hp. apply list_elem_of_filter. split; [|done].
    rewrite orb_false_r in Hc. apply Z.eqb_neq in Hc. congruence.
  - by apply keeps_poll_pending.
Qed.

Lemma call3_keeps p hs c s : ends (call3 hs c s) (keeps_poll p s).
Proof.
  destruct c as [i n v|i d|i|i]; simpl; try by apply keeps_poll_pending.
  eapply ends_weaken; [apply completed_pending|]. intros s' E. apply keeps_poll_pending. by injection E.
Qed.

Lemma calls2_keep p hs cs s : closes (p_stream p) cs = false → ends (calls (call2 hs) cs s) (keeps_poll p s).
Proof.
  revert s. induction cs as [|c cs IH]; intros s Hc; cbn [calls]; [by intros Hp|].
  unfold closes in Hc. simpl in Hc. apply orb_false_iff in Hc as [Hc1 Hc2].
  eapply ends_then; [apply call2_keeps; unfold closes; simpl; by rewrite Hc1|]. intros s1 H1.
  eapply ends_weaken; [by apply IH|]. unfold keeps_poll in *. auto.
Qed.

Lemma calls3_keep p hs cs s : ends (calls (call3 hs) cs s) (keeps_poll p s).
Proof.
  revert s. induction cs as [|c cs IH]; intros s; cbn [calls]; [by intros Hp|].
  eapply ends_then; [apply call3_keeps|]. intros s1 H1. eapply ends_weaken; [by apply IH|]. unfold keeps_poll in *. auto.
Qed.

Lemma read_loop_keeps p hs readings s :
  existsb (λ r, closes (p_stream p) (r_calls r)) readings = false → ends (read_loop hs readings s) (λ x, keeps_poll p s x.2).
Proof.
  revert s. induction readings as [|r readings IH]; intros s Hc; cbn [read_loop]; [by intros Hp|].
  simpl in Hc. apply orb_false_iff in Hc as [Hc1 Hc2].
  destruct (_ && _); [by intros Hp|]. destruct (_ <? _)%Z; [done|].
  eapply ends_then; [by apply calls2_keep|]. intros s1 H1. destruct (negb (r_ok r)); [done|].
  destruct (_ =? _)%Z; [|done]. eapply ends_weaken; [by apply IH|]. unfold keeps_poll in *. auto.
Qed.

(** A poll asks the broker for nothing that is answered. *)
Definition same_asked (p : PendingPoll) (s s' : session) : Prop := pendingRequests s' = pendingRequests s ∧ keeps_poll p s s'.

Lemma same_core p s s' : core s' = core s → same_asked p s s'.
Proof. intros E. split; [by injection E|by apply keeps_poll_core]. Qed.

Lemma poll_indexed_same p streamId r t e batch i s : ends (poll_indexed streamId r t e batch i s) (same_asked p s).
Proof.
  assert (HR : ∀ u j b, ends (respondWithLongPollingRedirect streamId u j b s) (same_asked p s)).
  { intros u j b. eapply ends_weaken; [apply good_ends, good_redirect|]. intros s'. apply same_core. }
  assert (HB : ∀ first n, ends (respondToLongPollBatch streamId e first n s) (same_asked p s)).
  { intros first n. unfold respondToLongPollBatch. destruct (batch_parts _ _ _ _ _) as [parts| |]; [|done|done].
    unfold send_parts. simpl. destruct (LongPolling.encodeBatch parts); apply same_core; [apply sendResponse_core|apply sendMessage_core]. }
  assert (HP : ∀ q, same_asked p s (push_poll q s)).
  { intros q. split; [done|]. unfold keeps_poll, has_poll. simpl. intros Hp. apply elem_of_app. by left. }
  unfold poll_indexed. destruct (mode batch).
  - destruct (_ <? _); [destruct (toMdpTopic _); [apply HR|done|done]|]. destruct (_ || _); [apply HP|].
    destruct (messages e !! _); [|done]. apply same_core, sendMessage_core.
  - destruct (_ && _); [apply HB|apply HP].
  - cbv zeta. destruct (max64 - _ <? _); [apply same_core, sendMessage_core|]. destruct (_ || _); [apply HP|apply HB].
Qed.

Lemma poll_same p streamId r c s : ends (processLongPollRequest streamId r c s) (λ '(_, _, s'), same_asked p s s').
Proof.
  unfold processLongPollRequest. destruct (parse_index r) as [index|]; [|apply same_core, sendMessage_core].
  destruct (parseLongPollingBatch r) as [batch|]; [|destruct index; apply same_core, sendMessage_core].
  destruct (match index with Some _ => _ | None => _ end); [apply same_core, sendMessage_core|].
  eapply ends_then with (P := λ _, True); [by destruct (_ : run (option message * cache))|]. intros [m c1] _.
  eapply ends_then with (P := λ _, True); [by destruct (c1 !! _)|]. intros e _.
  eapply ends_then with (P := same_asked p s); [|by intros s' Hs'].
  assert (HR : ∀ j b, ends (u ← toMdpTopic (topic r); respondWithLongPollingRedirect streamId u j b s) (same_asked p s)).
  { intros j b. destruct (toMdpTopic _) as [u| |]; [|done|done]. eapply ends_weaken; [apply good_ends, good_redirect|].
    intros s'. apply same_core. }
  destruct (is_index "Next" r); [apply HR|]. destruct (is_index "Last" r); [apply HR|].
  destruct index as [i|]; [apply poll_indexed_same|done].
Qed.

Lemma one_keeps_poll p streamId r ms c n s : ends (process_one streamId r (ms, c, n, s)) (λ x, keeps_poll p s x.2).
Proof.
  assert (HGS : ends ('(m, next', s') ← processGetSetRequest streamId r n s; Ret (ms ++ [m], c, next', s')) (λ x, keeps_poll p s x.2)).
  { unfold processGetSetRequest. destruct (toMdpTopic _) as [u| |]; [|done|done]. by apply keeps_poll_pending. }
  unfold process_one. destruct (method r); [apply keeps_poll_core, sendResponse_core|done| |done|apply keeps_poll_core, sendMessage_core].
  eapply ends_then; [apply poll_same|]. intros [[m c'] s'] [_ Hk]. exact Hk.
Qed.

Lemma collect_keeps_poll p s v : ends (collect s v) (λ '(_, s', v'), keeps_poll p s s' ∧ v' = set_nextRequestId (nextRequestId v') (set_cache (subscriptionCache v') v)).
Proof.
  assert (HA : ∀ l x, ends (process_all l x) (λ y, keeps_poll p x.2 y.2)).
  { induction l as [|[streamId r] l IH]; intros [[[ms c] n] s0]; cbn [process_all]; [by intros Hp|].
    eapply ends_then; [apply (one_keeps_poll p)|]. intros x1 H1. eapply ends_weaken; [apply IH|].
    unfold keeps_poll in *. simpl in *. auto. }
  unfold collect, getMessages. eapply ends_then.
  { eapply ends_then; [apply HA|]. intros [[[ms c] n] s'] Hk. cbn [ends]. instantiate (1 := λ x, keeps_poll p s x.2). exact Hk. }
  intros [[[ms c] n] s'] Hk. done.
Qed.

(** *** Over TCP *)

Lemma lookup_replace_key {A} k k' (f : A → A) l :
  lookup_key k (replace_key k' f l) = if (k =? k')%Z then f <$> lookup_key k l else lookup_key k l.
Proof.
  induction l as [|[j x] l IH]; simpl; [by destruct (k =? k')|].
  destruct (Z.eqb_spec k' j) as [->|H1]; simpl.
  - destruct (Z.eqb_spec k j) as [->|H2]; [|done]. done.
  - destruct (Z.eqb_spec k j) as [->|H2]; [|done]. by rewrite (proj2 (Z.eqb_neq _ _)) by congruence.
Qed.

Lemma lookup_insert_key {A} k k' (x : A) l : k ≠ k' → lookup_key k (insert_key k' x l) = lookup_key k l.
Proof.
  intros Hk. induction l as [|[j y] l IH]; simpl; [by rewrite (proj2 (Z.eqb_neq _ _))|].
  destruct (k' <? j)%Z; simpl; [by rewrite (proj2 (Z.eqb_neq k k'))|]. by rewrite IH.
Qed.

Lemma lookup_erase_key {A} k k' (l : list (Z * A)) :
  lookup_key k (erase_key k' l) = if (k =? k')%Z then None else lookup_key k l.
Proof.
  unfold erase_key. induction l as [|[j y] l IH]; simpl; [by destruct (k =? k')|]. rewrite filter_cons. simpl.
  case_decide as Hj; simpl; rewrite IH.
  - destruct (Z.eqb_spec k j) as [->|]; [|done]. by rewrite (proj2 (Z.eqb_neq _ _)).
  - assert (j = k') as -> by lia. by destruct (k =? k')%Z.
Qed.

Lemma lookup_update_key_ne {A} k k' (fresh : A) f l : k ≠ k' → lookup_key k (update_key k' fresh f l) = lookup_key k l.
Proof.
  intros Hk. unfold update_key. destruct (lookup_key k' l); [|by apply lookup_insert_key].
  rewrite lookup_replace_key. by rewrite (proj2 (Z.eqb_neq _ _)).
Qed.

Definition keeps_tcp (fd : Z) (p : PendingPoll) (v v' : server) : Prop :=
  ∀ t t', lookup_key fd (h2Sessions v) = Some t → lookup_key fd (h2Sessions v') = Some t' →
  keeps_poll p (t_session t) (t_session t').

Lemma keeps_tcp_same fd p v v' : lookup_key fd (h2Sessions v') = lookup_key fd (h2Sessions v) → keeps_tcp fd p v v'.
Proof. intros E t t' E1 E2. rewrite E, E1 in E2. injection E2 as ->. by intros Hp. Qed.

Lemma put_session_at fd t v x : lookup_key fd (h2Sessions v) = Some x → lookup_key fd (h2Sessions (put_session fd t v)) = Some t.
Proof. intros E. simpl. unfold update_key. rewrite E, lookup_replace_key, Z.eqb_refl, E. done. Qed.

Lemma process_tcp_keeps fd p fd' io v :
  disturbs (OverTcp fd) (p_stream p) (Tcp fd' io) = false → ends (process_tcp fd' io v) (λ '(_, v'), keeps_tcp fd p v v').
Proof.
  intros Hd. unfold process_tcp. destruct (lookup_key fd' (h2Sessions v)) as [t|] eqn:E; [|done]. cbn [of_option mbind run_bind].
  assert (Hdrop : keeps_tcp fd p v (drop_session fd' v)).
  { intros x x' Ex Ex'. simpl in Ex'. rewrite lookup_erase_key in Ex'. destruct (fd =? fd')%Z; [done|].
    rewrite Ex in Ex'. injection Ex' as ->. by intros Hp. }
  assert (Hput : ∀ t' v', h2Sessions v' = h2Sessions v → (fd = fd' → keeps_poll p (t_session t) (t_session t')) →
    keeps_tcp fd p v (put_session fd' t' v')).
  { intros t' v' EV Hk. destruct (decide (fd = fd')) as [<-|Hne].
    - intros x x' Ex Ex'. rewrite (put_session_at fd t' v' t) in Ex' by by rewrite EV. injection Ex' as <-.
      rewrite E in Ex. injection Ex as <-. by apply Hk.
    - apply keeps_tcp_same. simpl. by rewrite EV, lookup_update_key_ne. }
  destruct (negb (Socket.isReady (t_state t))).
  { destruct (Socket.continueHandshake _ _) as [[] st]; [apply Hput; [done|by intros _ Hp]|done]. }
  assert (Hcl : fd = fd' → closes (p_stream p) (written io) = false ∧
                           existsb (λ r, closes (p_stream p) (r_calls r)) (readings_of io) = false).
  { intros <-. simpl in Hd. rewrite Z.eqb_refl in Hd. by apply orb_false_iff in Hd. }
  eapply ends_then with (P := λ x, fd = fd' → keeps_poll p (t_session t) x.2).
  { unfold written in Hcl. destruct (io_write io) as [[cs ok]|]; [|by intros _ Hp].
    destruct (decide (fd = fd')) as [He|He].
    - eapply ends_then; [apply calls2_keep, (proj1 (Hcl He))|]. by intros s' Hs' _.
    - eapply ends_then with (P := λ _, True); [by destruct (calls _ _ _)|]. intros s' _ E'. by destruct He. }
  intros [ok s1] Hs1. destruct (negb ok); [done|]. simpl in Hs1. unfold readings_of in Hcl.
  destruct (io_read io) as [readings|]; [|by apply Hput].
  eapply ends_then with (P := λ x, fd = fd' → keeps_poll p s1 x.2).
  { destruct (decide (fd = fd')) as [He|He]; [|destruct (read_loop _ _ _); [intros E'; by destruct He|done|done]].
    eapply ends_weaken; [apply read_loop_keeps, (proj2 (Hcl He))|]. done. }
  intros [ok2 s2] Hs2. simpl in Hs2. destruct (negb ok2); [done|].
  eapply ends_then; [apply (collect_keeps_poll p)|]. intros [[ms s3] v'] [Hk EV]. cbn [ends].
  apply Hput; [by rewrite EV|]. intros He Hp. simpl. apply Hk, Hs2, Hs1; done.
Qed.

Lemma respond_tcp_keeps fd id m l l' t :
  respond_tcp id m l = Some l' → lookup_key fd l = Some t →
  ∃ t', lookup_key fd l' = Some t' ∧ pendingPolls (t_session t') = pendingPolls (t_session t).
Proof.
  revert l'. induction l as [|[k x] l IH]; intros l' E El; simpl in *; [done|].
  destruct (respond id m (t_session x)) as [s|] eqn:Er.
  - injection E as <-. simpl. destruct (fd =? k)%Z; [|by exists t]. injection El as <-. exists (set_session s x).
    split; [done|]. by eapply respond_pending.
  - destruct (respond_tcp id m l) as [l1|]; [|done]. injection E as <-. simpl.
    destruct (fd =? k)%Z; [by exists t; injection El as <-|]. by apply IH.
Qed.

Lemma process_tcp_objects fd io v : ends (process_tcp fd io v) (λ '(_, v'), h3Objects v' = h3Objects v).
Proof.
  unfold process_tcp. destruct (lookup_key fd (h2Sessions v)) as [t|]; [|done]. cbn [of_option mbind run_bind].
  destruct (negb (Socket.isReady (t_state t))); [by destruct (Socket.continueHandshake _ _) as [[] st]|].
  eapply ends_then with (P := λ _, True); [by destruct (io_write io) as [[cs ok]|]; [destruct (calls _ _ _)|]|].
  intros [ok s1] _. destruct (negb ok); [done|]. destruct (io_read io) as [readings|]; [|done].
  eapply ends_then with (P := λ _, True); [by destruct (read_loop _ _ _)|]. intros [ok2 s2] _. destruct (negb ok2); [done|].
  eapply ends_then; [apply (collect_keeps_poll (mkpoll [] 0 (mkbatch None_ 0) 0))|]. intros [[ms s3] v'] [_ EV]. cbn [ends].
  simpl. by rewrite EV.
Qed.

(** *** Over QUIC *)

(** The objects stay, and have their polls. *)
Definition keeps_objects (p : PendingPoll) (l l' : list session) : Prop :=
  ∀ o s, l !! o = Some s → ∃ s', l' !! o = Some s' ∧ keeps_poll p s s'.

Lemma keeps_objects_refl p l : keeps_objects p l l.
Proof. intros o s E. exists s. split; [done|]. by intros Hp. Qed.

Lemma keeps_objects_trans p l1 l2 l3 : keeps_objects p l1 l2 → keeps_objects p l2 l3 → keeps_objects p l1 l3.
Proof.
  intros A B o s E. destruct (A o s E) as (s' & E' & Hk). destruct (B o s' E') as (s2 & E2 & Hk2).
  exists s2. split; [done|]. unfold keeps_poll in *. auto.
Qed.

Lemma keeps_objects_insert p l i s s' : l !! i = Some s → keeps_poll p s s' → keeps_objects p l (<[i := s']> l).
Proof.
  intros E Hk o x Ex. destruct (decide (i = o)) as [->|Hne].
  - exists s'. split; [apply list_lookup_insert_eq; by eapply lookup_lt_Some|]. assert (x = s) as -> by congruence. done.
  - exists x. split; [by rewrite list_lookup_insert_ne|]. by intros Hp.
Qed.

Lemma read_pkt_keeps p k v : ends (read_pkt k v) (λ '(_, v'), h2Sessions v' = h2Sessions v ∧ keeps_objects p (h3Objects v) (h3Objects v')).
Proof.
  unfold read_pkt. destruct (lookup_cid (k_cid k) (h3Sessions v)) as [o|].
  - destruct (h3Objects v !! o) as [s|] eqn:E; [|done]. cbn [of_option mbind run_bind].
    eapply ends_then; [apply (calls3_keep p)|]. intros s' Hs'. cbn [ends]. split; [done|]. by eapply keeps_objects_insert.
  - eapply ends_then with (P := λ _, True); [by destruct (calls _ _ _)|]. intros s _.
    assert (HK : keeps_objects p (h3Objects v) (h3Objects v ++ [s])).
    { intros o x Ex. exists x. split; [by apply lookup_app_l_Some|]. by intros Hp. }
    by destruct (k_ok k).
Qed.

Lemma on_read_keeps p packets v :
  ends (on_read packets v) (λ '(_, v'), h2Sessions v' = h2Sessions v ∧ keeps_objects p (h3Objects v) (h3Objects v')).
Proof.
  revert v. induction packets as [|k packets IH]; intros v; cbn [on_read]; [split; [done|apply keeps_objects_refl]|].
  eapply ends_then; [apply (read_pkt_keeps p)|]. intros [x v1] [A1 A2]. eapply ends_then; [apply IH|].
  intros [touched v2] [B1 B2]. split; [congruence|by eapply keeps_objects_trans].
Qed.

Lemma collect_touched_keeps p touched v :
  ends (collect_touched touched v) (λ '(_, v'), h2Sessions v' = h2Sessions v ∧ keeps_objects p (h3Objects v) (h3Objects v')).
Proof.
  revert v. induction touched as [|k touched IH]; intros v; cbn [collect_touched]; [split; [done|apply keeps_objects_refl]|].
  destruct (lookup_cid k (h3Sessions v)) as [o|]; [|by apply IH].
  destruct (h3Objects v !! o) as [s|] eqn:E; [|done]. cbn [of_option mbind run_bind].
  eapply ends_then; [apply (collect_keeps_poll p)|]. intros [[ms s'] v1] [Hk EV].
  eapply ends_then; [apply IH|]. intros [messages v2] [B1 B2]. cbn [ends]. rewrite EV in B1, B2. simpl in B1, B2.
  split; [done|]. eapply keeps_objects_trans; [by eapply keeps_objects_insert|done].
Qed.

Lemma process_quic_keeps p packets gone v :
  ends (process_quic packets gone v) (λ '(_, v'), h2Sessions v' = h2Sessions v ∧ keeps_objects p (h3Objects v) (h3Objects v')).
Proof.
  unfold process_quic. eapply ends_then; [apply (on_read_keeps p)|]. intros [touched v1] [A1 A2].
  eapply ends_weaken; [apply (collect_touched_keeps p)|]. intros [ms v2] [B1 B2]. simpl in B1, B2.
  split; [congruence|by eapply keeps_objects_trans].
Qed.

Lemma respond_quic_keeps p id m table l l' : respond_quic id m table l = Some l' → keeps_objects p l l'.
Proof.
  induction table as [|[k o] table IH]; simpl; [done|]. destruct (l !! o) as [s|] eqn:Eo; simpl; [|done].
  destruct (respond id m s) as [s'|] eqn:Er; [|done]. intros [= <-]. eapply keeps_objects_insert; [done|].
  apply keeps_poll_pending. by eapply respond_pending.
Qed.

(** *** Events *)

Lemma response_keeps fd p m v : keeps_tcp fd p v (handleResponse m v) ∧ keeps_objects p (h3Objects v) (h3Objects (handleResponse m v)).
Proof.
  unfold handleResponse. destruct (parse_id _) as [id|]; [|split; [by apply keeps_tcp_same|apply keeps_objects_refl]].
  destruct (respond_tcp id m (h2Sessions v)) as [l|] eqn:E.
  - split; [|apply keeps_objects_refl]. intros t t' Et Et'. simpl in Et'.
    destruct (respond_tcp_keeps fd id m _ _ t E Et) as (x & Ex & Hx). rewrite Et' in Ex. injection Ex as <-.
    by apply keeps_poll_pending.
  - destruct (respond_quic id m (h3Sessions v) (h3Objects v)) as [l|] eqn:E';
      (split; [by apply keeps_tcp_same|]); [by eapply respond_quic_keeps|apply keeps_objects_refl].
Qed.

Definition is_notification (e : event) : bool := match e with Notification _ _ => true | _ => false end.

Lemma event_keeps c p e v ms v' s s' :
  is_notification e = false → disturbs c (p_stream p) e = false → handle e v = Ret (ms, v') →
  session_at c v = Some s → session_at c v' = Some s' → has_poll p s → has_poll p s'.
Proof.
  intros Hn Hd HE Hs Hs'. destruct c as [fd|o]; cbn [session_at] in *.
  - destruct (lookup_key fd (h2Sessions v)) as [t|] eqn:Et; [|done]. injection Hs as <-.
    destruct (lookup_key fd (h2Sessions v')) as [t'|] eqn:Et'; [|done]. injection Hs' as <-.
    enough (HK : keeps_tcp fd p v v') by by apply HK.
    destruct e as [ssl newFd|fd' io|packets gone|m|topic m|l]; cbn [handle] in HE; [| | | |done|].
    + unfold process_accept in HE. destruct newFd as [fd'|]; [|injection HE as _ <-; by apply keeps_tcp_same].
      destruct (lookup_key fd' (h2Sessions v)) eqn:E'; [done|]. injection HE as _ <-. apply keeps_tcp_same. simpl.
      apply lookup_update_key_ne. congruence.
    + pose proof (process_tcp_keeps fd p fd' io v Hd) as HK. by rewrite HE in HK.
    + pose proof (process_quic_keeps p packets gone v) as HK. rewrite HE in HK. apply keeps_tcp_same. by rewrite (proj1 HK).
    + injection HE as _ <-. apply response_keeps.
    + injection HE as _ <-. by apply keeps_tcp_same.
  - case_bool_decide; [|done]. case_bool_decide; [|done].
    enough (HK : keeps_objects p (h3Objects v) (h3Objects v')).
    { destruct (HK o s Hs) as (x & Ex & Hx). rewrite Hs' in Ex. by injection Ex as <-. }
    destruct e as [ssl newFd|fd' io|packets gone|m|topic m|l]; cbn [handle] in HE; [| | | |done|].
    + unfold process_accept in HE. destruct newFd as [fd'|]; [|injection HE as _ <-; apply keeps_objects_refl].
      destruct (lookup_key fd' (h2Sessions v)) eqn:E'; [done|]. injection HE as _ <-. apply keeps_objects_refl.
    + pose proof (process_tcp_objects fd' io v) as HK. rewrite HE in HK. rewrite HK. apply keeps_objects_refl.
    + pose proof (process_quic_keeps p packets gone v) as HK. rewrite HE in HK. apply HK.
    + injection HE as _ <-. by apply (response_keeps 0).
    + injection HE as _ <-. apply keeps_objects_refl.
Qed.

(** ** What the broker is asked *)

Definition for_broker (r : Request) : bool := match method r with Get | Post => true | _ => false end.

(** The requests that the broker is asked, with their numbers, from the [n]th on. *)
Fixpoint asked_requests (n : Z) (l : list (Z * Request)) : list (Z * (Z * Request)) :=
  match l with
  | [] => []
  | x :: l' => if for_broker x.2 then (wrapu 64 n, x) :: asked_requests (n + 1) l' else asked_requests n l'
  end.

(** A message that asks for a request under a number. *)
Definition asks_for (m : message) (x : Z * (Z * Request)) : Prop :=
  let r := x.2.2 in
  parse_id (Message.clientRequestID m) = Some x.1 ∧
  Message.command m = (if bool_decide (method r = Get) then Message.Get else Message.Set_) ∧
  Message.serviceName m = Topic._service (topic r) ∧ Message.data m = payload r.

(** What is noted of it: the number, and the stream. *)
Definition noted (l : list (Z * (Z * Request))) : list (Z * Z) := (λ x, (x.1, x.2.1)) <$> l.

Definition records (n : Z) (ms : list message) (s : session) (l : list (Z * Request)) (x : list message * cache * Z * session) : Prop :=
  let '(ms', _, next, s') := x in
  next = wrapu 64 (n + Z.of_nat (length (asked_requests n l))) ∧ pendingRequests s' = pendingRequests s ++ noted (asked_requests n l) ∧
  ∃ new, ms' = ms ++ new ∧ Forall2 asks_for (filter (λ m, is_request m = true) new) (asked_requests n l).

Lemma records_none n ms new c s s' x :
  for_broker x.2 = false → pendingRequests s' = pendingRequests s → Forall (λ m, is_request m = false) new →
  records n ms s [x] (ms ++ new, c, wrapu 64 n, s').
Proof.
  intros Hx Hp Hn. unfold records. cbn [asked_requests]. rewrite Hx. simpl. rewrite Z.add_0_r, app_nil_r. split_and!; [done|done|].
  exists new. split; [done|]. replace (filter _ new) with (@nil message); [constructor|]. symmetry.
  induction Hn as [|m new Hm Hn IH]; [done|]. rewrite filter_cons, decide_False by congruence. exact IH.
Qed.

Lemma one_records streamId r ms c n s :
  ends (process_one streamId r (ms, c, wrapu 64 n, s)) (records n ms s [(streamId, r)]).
Proof.
  assert (HN : ∀ new c' s', for_broker r = false → core s' = core s → Forall (λ m, is_request m = false) new →
    records n ms s [(streamId, r)] (ms ++ new, c', wrapu 64 n, s')).
  { intros new c' s' Hb HC. by apply records_none; [|injection HC]. }
  assert (HN' : ∀ c' s', for_broker r = false → core s' = core s → records n ms s [(streamId, r)] (ms, c', wrapu 64 n, s')).
  { intros c' s' Hb HC. pose proof (HN [] c' s' Hb HC (Forall_nil_2 _)) as HX. by rewrite app_nil_r in HX. }
  assert (HGS : for_broker r = true →
    ends ('(m, next', s') ← processGetSetRequest streamId r (wrapu 64 n) s; Ret (ms ++ [m], c, next', s')) (records n ms s [(streamId, r)])).
  { intros Hb. unfold processGetSetRequest. destruct (toMdpTopic _) as [u| |]; [|done|done]. cbn -[wrapu].
    unfold records. cbn [asked_requests snd]. rewrite Hb. simpl. split_and!; [by rewrite wrapu_add|done|]. eexists. split; [done|].
    rewrite filter_cons, decide_True by (unfold is_request; simpl; by case_bool_decide). constructor; [|constructor].
    unfold asks_for. simpl. split_and!; [|done|done|done].
    unfold parse_id. rewrite Client.from_chars_u_to_dec; [done|]. apply wrapu_range. lia. }
  unfold process_one. destruct (method r) eqn:Em.
  - eapply HN'; [unfold for_broker; by rewrite Em|apply sendResponse_core].
  - apply HGS. unfold for_broker. by rewrite Em.
  - pose proof (poll_keeps streamId r c s) as HA. pose proof (poll_same (mkpoll [] 0 (mkbatch None_ 0) 0) streamId r c s) as HB.
    destruct (processLongPollRequest streamId r c s) as [[[m c'] s']| |]; [|done|done].
    apply records_none; [cbn [snd]; unfold for_broker; by rewrite Em|apply HB|apply HA].
  - apply HGS. unfold for_broker. by rewrite Em.
  - eapply HN'; [unfold for_broker; by rewrite Em|apply sendMessage_core].
Qed.

Lemma asked_requests_app n l l' :
  asked_requests n (l ++ l') = asked_requests n l ++ asked_requests (n + Z.of_nat (length (asked_requests n l))) l'.
Proof.
  revert n. induction l as [|x l IH]; intros n; simpl; [by rewrite Z.add_0_r|].
  destruct (for_broker x.2); [|apply IH]. simpl. rewrite IH. do 3 f_equal. lia.
Qed.

Lemma all_records l ms c n s : ends (process_all l (ms, c, wrapu 64 n, s)) (records n ms s l).
Proof.
  revert ms c n s. induction l as [|[streamId r] l IH]; intros ms c n s; cbn [process_all].
  { unfold records. simpl. rewrite Z.add_0_r, app_nil_r. split_and!; [done|done|]. exists []. rewrite app_nil_r. by split. }
  eapply ends_then; [apply one_records|]. intros [[[ms1 c1] next1] s1] (-> & HP1 & new1 & -> & HF1).
  eapply ends_weaken; [apply IH|]. intros [[[ms2 c2] next2] s2] (-> & HP2 & new2 & -> & HF2). unfold records.
  change ((streamId, r) :: l) with ([(streamId, r)] ++ l). rewrite asked_requests_app. split_and!.
  - rewrite length_app. f_equal. lia.
  - rewrite HP2, HP1. unfold noted. by rewrite fmap_app, app_assoc.
  - exists (new1 ++ new2). split; [by rewrite app_assoc|]. rewrite filter_app. by apply Forall2_app.
Qed.

(** The requests of a session that are complete are asked for, each under a number
    that is noted with its stream; the others are left for later. *)
Lemma collect_records s v n :
  nextRequestId v = wrapu 64 n →
  ends (collect s v) (λ '(ms, s', v'),
    let front := take (partition_point (λ x, complete x.2) (requests s)) (requests s) in
    let l := asked_requests n front in
    front ++ requests s' = requests s ∧ pendingRequests s' = pendingRequests s ++ noted l
    ∧ Forall2 asks_for (filter (λ m, is_request m = true) ms) l).
Proof.
  intros E. unfold collect, getMessages. rewrite E.
  set (front := take (partition_point (λ x, complete x.2) (requests s)) (requests s)).
  pose proof (all_records front [] (subscriptionCache v) n s) as HA.
  destruct (process_all front ([], subscriptionCache v, wrapu 64 n, s)) as [[[[ms c] next] s']| |]; [|done|done].
  destruct HA as (_ & HP & new & -> & HF). split_and!; [apply take_drop|done|done].
Qed.

(** ** An answer finds its request *)

Lemma object_has_ids o s l id : l !! o = Some s → id ∈ ids_of s → id ∈ concat (ids_of <$> l).
Proof.
  revert o. induction l as [|x l IH]; intros o E Hi; [done|]. simpl. apply elem_of_app. destruct o; simpl in E.
  - injection E as ->. by left.
  - right. by eapply IH.
Qed.

Lemma other_object l o o' s s' id :
  NoDup (concat (ids_of <$> l)) → l !! o = Some s → l !! o' = Some s' → o ≠ o' → id ∈ ids_of s → id ∉ ids_of s'.
Proof.
  revert o o'. induction l as [|x l IH]; intros o o' HN Ho Ho' Hne Hi; [done|]. simpl in HN.
  apply NoDup_app in HN as (HN1 & HN2 & HN3).
  destruct o as [|o], o' as [|o']; simpl in *; [done| | |].
  - injection Ho as ->. intros Hi'. apply (HN2 id Hi). by eapply object_has_ids.
  - injection Ho' as ->. intros Hi'. apply (HN2 id Hi'). by eapply object_has_ids.
  - apply (IH o o'); try done. congruence.
Qed.

Lemma respond_quic_found id m table objects o s s' :
  NoDup (concat (ids_of <$> objects)) → o ∈ table.*2 → objects !! o = Some s → id ∈ ids_of s → respond id m s = Some s' →
  respond_quic id m table objects = Some (<[o := s']> objects).
Proof.
  intros HN Ho Eo Hi Er. induction table as [|[k o'] table IH]; [by apply elem_of_nil in Ho|]. simpl.
  destruct (decide (o' = o)) as [->|Hne]; [rewrite Eo; simpl; by rewrite Er|].
  simpl in Ho. apply elem_of_cons in Ho as [->|Ho]; [done|].
  destruct (objects !! o') as [y|] eqn:Ey; simpl; [|by apply IH].
  rewrite respond_None; [by apply IH|]. by eapply (other_object objects o o').
Qed.

(** The session after the answer. *)
Definition told_answer (i : nat) (streamId : Z) (m : message) (s : session) : session :=
  set_pendingRequests (delete i (pendingRequests s))
    (sendMessage streamId (if is_nil (Message.error m) then kHttpOk else kHttpError) m [] s).

Lemma answer_found c v s id streamId m :
  NoDup (all_ids v) → session_at c v = Some s → (id, streamId) ∈ pendingRequests s →
  parse_id (Message.clientRequestID m) = Some id →
  ∃ i, pendingRequests s !! i = Some (id, streamId) ∧
  handleResponse m v = set_at c (told_answer i streamId m s) v ∧ id ∉ all_ids (handleResponse m v).
Proof.
  intros HN Hs Hin Hid. destruct c as [fd|o]; cbn [session_at set_at] in *.
  { destruct (lookup_key fd (h2Sessions v)) as [t|] eqn:E; [|done]. injection Hs as <-.
    destruct (response_found v fd t id streamId m HN E Hin Hid) as (i & A & B & C). exists i. split_and!; [done| |done].
    by rewrite B. }
  case_bool_decide as Ho; [|done].
  assert (Hi : id ∈ ids_of s) by (unfold ids_of; by apply list_elem_of_fmap_2 with (f := fst) in Hin).
  pose proof HN as HN'. rewrite all_ids_tcp in HN'. apply NoDup_app in HN' as (_ & Hd & HNo).
  assert (Hnt : id ∉ tcp_ids (h2Sessions v)).
  { intros Hi'. apply (Hd id Hi'). by eapply object_has_ids. }
  assert (HNs : NoDup (ids_of s)).
  { clear -HNo Hs. revert o Hs HNo. induction (h3Objects v) as [|x l IH]; intros o Hs HNo; [done|]. simpl in HNo.
    apply NoDup_app in HNo as (A & _ & B). destruct o; [by injection Hs as ->|by eapply IH]. }
  destruct (respond_Some id streamId m s HNs Hin) as (i & A & B). exists i.
  assert (HH : handleResponse m v = set_objects (<[o := told_answer i streamId m s]> (h3Objects v)) v).
  { unfold handleResponse. rewrite Hid. rewrite <- (app_nil_r (h2Sessions v)), respond_tcp_skip by done. cbn [respond_tcp fmap option_fmap option_map].
    by rewrite (respond_quic_found id m _ _ o s (told_answer i streamId m s)). }
  split; [done|]. split; [done|]. destruct (handleResponse_ids m v) as [(id' & Hid' & HP)|HE].
  - rewrite Hid in Hid'. injection Hid' as <-. rewrite HP in HN. by apply NoDup_cons in HN as [? _].
  - exfalso. pose proof HE as HE'. rewrite HH in HE'. apply (f_equal h3Objects) in HE'. simpl in HE'.
    assert (E2 : Some (told_answer i streamId m s) = Some s).
    { rewrite <- Hs, <- HE' at 1. symmetry. apply list_lookup_insert_eq. by eapply lookup_lt_Some. }
    injection E2 as E2. apply (f_equal pendingRequests) in E2. simpl in E2. apply (f_equal length) in E2.
    rewrite length_delete in E2 by (by exists (id, streamId)). apply lookup_lt_Some in A. lia.
Qed.

End connections.
