(* ===== verification/RestResults.v ===== *)
(** * RestResults: the REST server keeps its word

    In every run: a notification answers the polls that it can answer, and only
    them; a poll that waits is answered when its messages are there; an answer of
    the broker goes to the request it is for, once. *)

From S2P Require Import Prelude Text Uri Outcome Rest RestServer RestSpec RestPolls RestSystem RestRuns RestIds RestConnections.
From S2P Require Topic Message LongPolling Socket.
Local Open Scope Z_scope.

Section results.
Context `{env : Environment}.

Lemma traced_ok v H n : traced v H n → all_fit H → server_ok H v.
Proof.
  induction 1 as [|x v H n ms v' HT IH HE]; intros Hf; [split; [done|constructor|constructor]|].
  eapply step_ok; [|done|done]. apply IH. by eapply all_fit_before.
Qed.

(** ** A poll that waits *)

(** The messages are there. *)
Definition wanted (p : PendingPoll) : Z := p_index p + match mode (p_batch p) with FixedCount => count (p_batch p) | _ => 1 end.

Lemma wanted_answer hs p :
  in_u 64 (p_index p) → batch_ok (p_batch p) → wanted p ≤ total hs → is_Some (poll_answer hs (p_batch p) (p_index p)).
Proof.
  unfold wanted, poll_answer, in_u, batch_ok. intros Hi Hb Hw. pose proof (oldest_bounds hs). unfold oldest in *.
  destruct (mode (p_batch p)) eqn:Em.
  - destruct (_ <? _)%Z; [done|]. rewrite (proj2 (Z.ltb_lt _ (total hs))) by lia.
    destruct (lookup_lt_is_Some_2 hs (Z.to_nat (p_index p))) as [m Hm]; [unfold total in *; lia|]. by rewrite Hm.
  - by rewrite (proj2 (Z.ltb_lt _ (total hs))) by lia.
  - specialize (Hb eq_refl). destruct (_ <? _)%Z; [done|]. rewrite (proj2 (Z.leb_le _ (total hs))) by lia. done.
Qed.

(** ** Notifications *)

Lemma notification_handled v H n topic m hs :
  traced v H n → all_fit (after (Notification topic m) v H) → H !! Topic.toZmqTopic true topic = Some hs →
  handle (Notification topic m) v = Ret ([], notified_server (Topic.toZmqTopic true topic) (hs ++ [m]) H v).
Proof.
  intros HT Hf E. pose proof (all_fit_before _ _ _ Hf) as Hf0. simpl. rewrite (notification_refines H v topic m hs); [done| |done|].
  - by eapply traced_ok.
  - simpl in Hf. rewrite E in Hf. eapply Hf. exact (lookup_insert_eq _ _ _).
Qed.

(** ** Runs, computed *)

Fixpoint trace (l : list event) (x : server * histories * Z) : option (server * histories * Z) :=
  match l with
  | [] => Some x
  | e :: l' =>
      let '(v, H, n) := x in
      match handle e v with Ret (ms, v') => trace l' (v', after e v' H, n + requests_in ms) | _ => None end
  end.

Lemma trace_traced l v H n v' H' n' : traced v H n → trace l (v, H, n) = Some (v', H', n') → traced v' H' n'.
Proof.
  revert v H n. induction l as [|e l IH]; intros v H n HT; simpl; [by intros [= <- <- <-]|].
  destruct (handle e v) as [[ms v1]| |] eqn:E; [|done|done]. apply IH. by econstructor.
Qed.

Lemma trace_fit l v H n v' H' n' : trace l (v, H, n) = Some (v', H', n') → all_fit H' → all_fit H.
Proof.
  revert v H n. induction l as [|e l IH]; intros v H n; simpl; [by intros [= <- <- <-]|].
  destruct (handle e v) as [[ms v1]| |] eqn:E; [|done|done]. intros ET Hf. eapply all_fit_before. by eapply IH.
Qed.

(** ** A poll that waits is answered *)

(** The connection stays, and its client does not give up the stream. *)
Fixpoint undisturbed (c : connection) (streamId : Z) (l : list event) (v : server) : bool :=
  match l with
  | [] => true
  | e :: l' =>
      negb (disturbs c streamId e) &&
      match handle e v with
      | Ret (_, v') => bool_decide (is_Some (session_at c v')) && undisturbed c streamId l' v'
      | _ => false
      end
  end.

(** The notification with which the poll has an answer, and what it is handed. *)
Record answered_by (c : connection) (p : PendingPoll) (topic : Topic.t) (m : message) (v1 : server) (H1 : histories) : Prop := {
  by_topic : Topic.toZmqTopic true topic = p_topic p;
  by_answer : ∃ hs1 s1 v2 s2 a,
    H1 !! p_topic p = Some hs1 ∧ poll_answer hs1 (p_batch p) (p_index p) = None ∧
    poll_answer (hs1 ++ [m]) (p_batch p) (p_index p) = Some a ∧
    session_at c v1 = Some s1 ∧ p ∈ pendingPolls s1 ∧
    handle (Notification topic m) v1 = Ret ([], v2) ∧ session_at c v2 = Some s2 ∧ p ∉ pendingPolls s2 ∧
    (silent (p_stream p) s1 → alone p s1 → ∃ x, carries (p_stream p) a x ∧ offered x s1 s2)
}.

(** A notification answers the poll, or leaves it. *)
Lemma notification_step c p topic m v H n ms v1 s :
  traced v H n → all_fit (after (Notification topic m) v1 H) → handle (Notification topic m) v = Ret (ms, v1) →
  session_at c v = Some s → p ∈ pendingPolls s →
  answered_by c p topic m v H ∨ ∃ s1, session_at c v1 = Some s1 ∧ p ∈ pendingPolls s1.
Proof.
  intros HT Hf1 E Hs Hp. pose proof (all_fit_before _ _ _ Hf1) as Hf. pose proof (traced_ok _ _ _ HT Hf) as HO.
  destruct (H !! Topic.toZmqTopic true topic) as [hs|] eqn:EH.
  - pose proof E as HN. rewrite (notification_handled v H n topic m hs HT Hf1 EH) in HN. injection HN as _ <-.
    set (t := Topic.toZmqTopic true topic) in *.
    assert (Hs1 : session_at c (notified_server t (hs ++ [m]) H v) = Some (notified t (hs ++ [m]) s))
      by (rewrite session_at_notified; by rewrite Hs).
    destruct (answered t (hs ++ [m]) p) as [a|] eqn:Ea; [|right; eexists; split; [exact Hs1|by apply notified_keeps]].
    left. assert (Ht : p_topic p = t) by (unfold answered in Ea; by case_bool_decide).
    assert (HW : waits hs p).
    { pose proof (session_at_ok _ _ _ _ HO Hs) as HS. unfold session_ok in HS. rewrite Forall_forall in HS.
      destruct (HS p Hp) as (hs' & E' & W). rewrite Ht in E'. by pose proof (eq_trans (eq_sym EH) E') as [= <-]. }
    split; [done|]. exists hs, s, (notified_server t (hs ++ [m]) H v), (notified t (hs ++ [m]) s), a. split_and!.
    + by rewrite Ht.
    + apply HW.
    + unfold answered in Ea. by rewrite bool_decide_true in Ea.
    + done.
    + done.
    + exact (notification_handled v H n topic m hs HT Hf1 EH).
    + exact Hs1.
    + by eapply notified_drops.
    + intros. by eapply notified_offers.
  - right. exists s. split; [|done]. cbn [handle] in E. unfold handleNotification in E. rewrite (ok_cache _ _ HO) in E.
    assert (HN : caches H !! Topic.toZmqTopic true topic = None).
    { etransitivity; [apply lookup_fmap|]. exact (f_equal (fmap entry_of) EH). }
    rewrite HN in E. by injection E as _ <-.
Qed.

Lemma poll_answered_eventually c p events v H n v' H' n' s hs :
  traced v H n → trace events (v, H, n) = Some (v', H', n') → all_fit H' →
  session_at c v = Some s → p ∈ pendingPolls s → undisturbed c (p_stream p) events v = true →
  H' !! p_topic p = Some hs → wanted p ≤ total hs →
  ∃ events1 topic m events2 v1 H1 n1,
    events = events1 ++ Notification topic m :: events2 ∧ trace events1 (v, H, n) = Some (v1, H1, n1) ∧
    answered_by c p topic m v1 H1.
Proof.
  revert v H n s. induction events as [|e events IH]; intros v H n s HT ET Hf Hs Hp Hu EH Hw; cbn [trace] in ET.
  { injection ET as -> -> ->. exfalso. pose proof (session_at_ok _ _ _ _ (traced_ok _ _ _ HT Hf) Hs) as HS.
    unfold session_ok in HS. rewrite Forall_forall in HS. destruct (HS p Hp) as (hs' & E' & [W1 W2 W3]).
    pose proof (eq_trans (eq_sym EH) E') as [= <-]. destruct (wanted_answer hs p W3 W2 Hw) as [a Ha]. congruence. }
  cbn [undisturbed] in Hu. apply andb_true_iff in Hu as [Hd Hu]. apply negb_true_iff in Hd.
  destruct (handle e v) as [[ms v1]| |] eqn:E; [|done|done]. apply andb_true_iff in Hu as [Hl Hu].
  apply bool_decide_eq_true in Hl as [s1 Hs1].
  assert (HT1 : traced v1 (after e v1 H) (n + requests_in ms)) by by econstructor.
  pose proof (trace_fit _ _ _ _ _ _ _ ET Hf) as Hf1.
  assert (HX : (∃ topic m, e = Notification topic m ∧ answered_by c p topic m v H) ∨ p ∈ pendingPolls s1).
  { destruct (is_notification e) eqn:En; [|right; by eapply (event_keeps c p e v ms v1 s s1)].
    destruct e as [| | | |topic m|]; try done.
    destruct (notification_step c p topic m v H n ms v1 s HT Hf1 E Hs Hp) as [HA|(s1' & Hs1' & Hp')]; [left; by exists topic, m|].
    right. congruence. }
  destruct HX as [(topic & m & -> & HA)|Hp1]; [by exists [], topic, m, events, v, H, n|].
  destruct (IH v1 _ _ s1 HT1 ET Hf Hs1 Hp1 Hu EH Hw) as (l1 & topic & m & l2 & v2 & H2 & n2 & -> & ET2 & HA).
  exists (e :: l1), topic, m, l2, v2, H2, n2. split_and!; [done| |done]. cbn [trace]. by rewrite E.
Qed.

(** ** Requests and answers *)

(** The requests of a session that are complete, those at its front. *)
Definition complete_requests (s : session) : list (Z * Request) :=
  take (partition_point (λ x, complete x.2) (requests s)) (requests s).

(** A session has been given the answer: on its stream, and the request is done with. *)
Record has_answer (streamId id : Z) (m : message) (s s' : session) : Prop := {
  answer_done : ∃ i, pendingRequests s !! i = Some (id, streamId) ∧ pendingRequests s' = delete i (pendingRequests s);
  answer_rest : kind s' = kind s ∧ requests s' = requests s ∧ pendingPolls s' = pendingPolls s;
  answer_said : silent streamId s → ∃ x,
    says streamId (if is_nil (Message.error m) then 200 else 500)
      (if is_nil (Message.error m) then Message.data m else Message.error m) x ∧
    submitted s' = submitted s ++ (if accepts (submitted s) x then [x] else [])
}.

Lemma answer_has c v s id streamId m :
  NoDup (all_ids v) → session_at c v = Some s → (id, streamId) ∈ pendingRequests s →
  parse_id (Message.clientRequestID m) = Some id →
  ∃ s', has_answer streamId id m s s' ∧ handleResponse m v = set_at c s' v ∧ id ∉ all_ids (handleResponse m v).
Proof.
  intros HN Hs Hin Hid. destruct (answer_found c v s id streamId m HN Hs Hin Hid) as (i & A & B & C).
  exists (told_answer i streamId m s). split; [|done]. unfold told_answer.
  set (status := if is_nil (Message.error m) then kHttpOk else kHttpError).
  pose proof (sendMessage_core streamId status m [] s) as HC. injection HC as HC1 HC2 HC3 HC4. split.
  - by exists i.
  - done.
  - intros Hsil. destruct (sendMessage_says streamId status m [] s Hsil) as (x & X1 & _ & X2). exists x. split; [|done].
    unfold status, kHttpOk, kHttpError in X1. done.
Qed.

End results.

(** A library that takes every response. *)
Definition test_env : Environment := Build_Environment (λ _ _, true) 0 0 0 map_to_list 42 (λ _, []) [].

Definition reading_of (calls : list callback) : event :=
  Tcp 7 (mkio Socket.SslDone None (Some [mkreading (Socket.mkcall 100 false) calls true])).

Definition get (streamId : Z) (path : string) : list callback :=
  [Header streamId (str ":method") (str "GET"); Header streamId (str ":path") (str path);
   FrameRecv (mkframe HEADERS streamId true)].

(** A client polls a topic, and asks a service. *)
Definition test_events : list event :=
  [Accept false (Some 7); reading_of (get 1 "/weather?LongPollingIdx=0"); reading_of (get 3 "/clock")].

Definition test_state : server * histories * Z := default (empty_server, ∅, 0) (@trace test_env test_events (empty_server, ∅, 0)).
Definition test_server : server := test_state.1.1.
Definition test_histories : histories := test_state.1.2.

Lemma test_traced : @traced test_env test_server test_histories 1.
Proof. apply (@trace_traced test_env test_events empty_server ∅ 0); [constructor|vm_compute; reflexivity]. Qed.

Definition map_Forallb (f : list message → bool) (H : histories) : bool := forallb (λ x, f x.2) (map_to_list H).

Lemma map_Forallb_true f (H : histories) : map_Forallb f H = true → map_Forall (λ _ hs, f hs = true) H.
Proof.
  unfold map_Forallb. rewrite forallb_forall. intros HF t hs E. apply (HF (t, hs)).
  apply list_elem_of_In. exact (proj2 (elem_of_map_to_list _ _ _) E).
Qed.

(** Histories that are short. *)
Lemma short_fit H : map_Forallb (λ hs, (length hs <? 1000)%nat) H = true → all_fit H.
Proof.
  intros HF t hs E. pose proof (map_Forallb_true _ _ HF t hs E) as HL. simpl in HL. apply Nat.ltb_lt in HL.
  unfold fits, total. lia.
Qed.

Definition weather : Topic.t := Topic.mk (str "/weather") ∅.
Definition test_message (data : string) : message :=
  Message.mkmsg (f := Message.WithSourceId) [] 0 0 Message.default_timeout [] Message.Notify (str "/weather") []
    Message.root_topic (str data) [] [].

(** A request for the given index. *)
Definition poll_request (index : string) : Request :=
  mkrequest [] weather LongPoll (Some (str index)) None [] [] [] true.

(** ** What holds in every run *)

Section claims.
Context `{env : Environment}.

(** C6: A long poll is answered from the history of its topic: with the message, or
    the messages, that it asks for if they are there; otherwise it waits.  Where they
    are no longer kept, a poll for one message is redirected to the one that comes
    next, and a batch begins with the oldest one that is kept; a batch that would end
    behind 2^64 is not considered.  The first poll of a topic subscribes.  The cache
    that answers is of bounded size; in every run it is as good as the histories. *)
Theorem long_poll_refines v H n streamId r index batch s :
  traced v H n → all_fit H →
  parse_index r = inl index → parseLongPollingBatch r = inl batch → too_far index batch = false →
  processLongPollRequest streamId r (subscriptionCache v) s
  = '(m, H', s') ← poll_spec streamId r index batch H s; Ret (m, caches H', s').
Proof. intros HT Hf. rewrite (ok_cache _ _ (traced_ok v H n HT Hf)). by apply poll_refines. Qed.

(** C9: A notification is handed to exactly the polls, of all sessions over TCP and
    QUIC, that its topic's history, now longer by it, can answer, each with what it
    asked for; the others go on waiting.  It never ends in an error, or outside the
    cache. *)
Theorem notification_answers v H n topic m hs :
  traced v H n → all_fit (after (Notification topic m) v H) → H !! Topic.toZmqTopic true topic = Some hs →
  handle (Notification topic m) v = Ret ([], notified_server (Topic.toZmqTopic true topic) (hs ++ [m]) H v).
Proof. apply notification_handled. Qed.

(** C18: Whatever happens on the server, over TCP and over QUIC, a poll that waits is
    answered once its topic's history has what it asks for, if its connection stays and
    its client does not give up the stream: one of the notifications that came had the
    poll as pending and not answerable before it, and answerable after it; with that one
    the poll is pending no more, and the library is given a response on the poll's
    stream with what the history says: the message, or the batch, and their index (an
    error if the batch cannot be written, or its last index does not exist).  What the
    response says is stated where no other response, and no other poll, of the session
    is for that stream; the library may refuse it. *)
Theorem waiting_poll_answered c p events v H n v' H' n' s hs :
  traced v H n → trace events (v, H, n) = Some (v', H', n') → all_fit H' →
  session_at c v = Some s → p ∈ pendingPolls s → undisturbed c (p_stream p) events v = true →
  H' !! p_topic p = Some hs → wanted p ≤ total hs →
  ∃ events1 topic m events2 v1 H1 n1,
    events = events1 ++ Notification topic m :: events2 ∧ trace events1 (v, H, n) = Some (v1, H1, n1) ∧
    answered_by c p topic m v1 H1.
Proof. apply poll_answered_eventually. Qed.

(** C17: In every run, whatever clients, broker and libraries do, the cache is the end
    of the histories, and every poll that is pending has no answer in the history of
    its topic: no poll is forgotten. *)
Theorem no_poll_forgotten v H n : traced v H n → all_fit H → server_ok H v.
Proof. apply traced_ok. Qed.


End claims.

Lemma long_poll_refines_witness :
  let r := poll_request "0" in
  let s := new_session Http2 in
  @processLongPollRequest test_env 5 r (subscriptionCache test_server) s
  = '(m, H', s') ← @poll_spec test_env 5 r (Some 0) (mkbatch None_ 1) test_histories s; Ret (m, caches H', s').
Proof.
  apply (@long_poll_refines test_env test_server test_histories 1 5 (poll_request "0") (Some 0) (mkbatch None_ 1) (new_session Http2));
    [exact test_traced|apply short_fit; vm_compute; reflexivity|vm_compute; reflexivity|reflexivity|reflexivity].
Defined.

Lemma notification_answers_witness :
  @handle test_env (Notification weather (test_message "rain")) test_server
  = Ret ([], @notified_server test_env (Topic.toZmqTopic true weather) ([] ++ [test_message "rain"]) test_histories test_server).
Proof.
  apply (@notification_answers test_env test_server test_histories 1 weather (test_message "rain") []);
    [exact test_traced|apply short_fit; vm_compute; reflexivity|vm_compute; reflexivity].
Defined.

Definition test_session : session := default (new_session Http2) (session_at (OverTcp 7) test_server).
Definition test_poll : PendingPoll := mkpoll (Topic.toZmqTopic true weather) 0 (mkbatch None_ 1) 1.

(** The client asks for another topic before the weather comes. *)
Definition test_later : list event :=
  [reading_of (get 5 "/tides?LongPollingIdx=0"); Notification weather (test_message "rain"); Notification weather (test_message "snow")].

Definition test_after : server * histories * Z := default (empty_server, ∅, 0) (@trace test_env test_later test_state).

Lemma waiting_poll_answered_witness :
  ∃ events1 topic m events2 v1 H1 n1,
    test_later = events1 ++ Notification topic m :: events2 ∧
    @trace test_env events1 (test_server, test_histories, 1) = Some (v1, H1, n1) ∧
    @answered_by test_env (OverTcp 7) test_poll topic m v1 H1.
Proof.
  apply (@waiting_poll_answered test_env (OverTcp 7) test_poll test_later test_server test_histories 1
           test_after.1.1 test_after.1.2 test_after.2 test_session [test_message "rain"; test_message "snow"]);
    [exact test_traced|vm_compute; reflexivity|apply short_fit; vm_compute; reflexivity|vm_compute; reflexivity
    | |vm_compute; reflexivity|vm_compute; reflexivity|vm_compute; discriminate].
  apply list_elem_of_In. vm_compute. left. reflexivity.
Defined.

Lemma no_poll_forgotten_witness : server_ok test_histories test_server.
Proof.
  apply (@no_poll_forgotten test_env test_server test_histories 1); [exact test_traced|apply short_fit; vm_compute; reflexivity].
Defined.

Definition test_answer : message :=
  Message.mkmsg (f := Message.WithSourceId) [] 0 0 Message.default_timeout [] Message.Final (str "/clock") (str "0")
    Message.root_topic (str "noon") [] [].

