(* ===== verification/RestLimits.v ===== *)
(** * RestLimits: handlers, and where the REST server does not keep its word

    Which handler is found for a path.  Then runs, evaluated, in which the server
    does what it does not mean to do. *)

From S2P Require Import Prelude Text Uri Outcome Rest RestServer RestSpec RestPolls RestSystem RestRuns RestIds RestResults.
From S2P Require Topic Message LongPolling Socket.
Local Open Scope Z_scope.

(** ** Handlers *)

(** A pattern that ends with a star, and the paths that start with the rest. *)
Definition covers (path : bytes) (h : Handler) : Prop :=
  ends_with (h_path h) (str "*") = true ∧ starts_with path (take (length (h_path h) - 1) (h_path h)) = true.

(** As good as any of the handlers for a path that none has itself. *)
Definition best_of (method path : bytes) (handlers : list Handler) (h : Handler) : Prop :=
  h ∈ handlers ∧ h_method h = method ∧ covers path h ∧
  ∀ h', h' ∈ handlers → h_method h' = method → covers path h' → (length (h_path h') ≤ length (h_path h))%nat.

Definition none_of (method path : bytes) (handlers : list Handler) : Prop :=
  ∀ h, h ∈ handlers → h_method h = method → ¬ covers path h.

Definition found (method path : bytes) (handlers : list Handler) (best : option Handler) : Prop :=
  match best with Some h => best_of method path handlers h | None => none_of method path handlers end.

Lemma found_extend method path seen h best :
  found method path seen best →
  (h_method h = method → covers path h → match best with Some b => (length (h_path h) ≤ length (h_path b))%nat | None => False end) →
  found method path (seen ++ [h]) best.
Proof.
  intros HF Hh. destruct best as [b|].
  - destruct HF as (A & B & C & D). split; [by apply elem_of_app; left|]. split; [done|]. split; [done|].
    intros h' Hin Hm Hc. apply elem_of_app in Hin as [Hin|Hin%list_elem_of_singleton]; [by apply D|subst h'; by apply Hh].
  - intros h' Hin Hm Hc. apply elem_of_app in Hin as [Hin|Hin%list_elem_of_singleton]; [by apply (HF h')|subst h'; by apply Hh].
Qed.

Lemma found_new method path seen h best :
  found method path seen best → h_method h = method → covers path h →
  match best with Some b => (length (h_path b) < length (h_path h))%nat | None => True end →
  found method path (seen ++ [h]) (Some h).
Proof.
  intros HF Hm Hc Hlt. split; [apply elem_of_app; right; by apply list_elem_of_singleton|]. split; [done|]. split; [done|].
  intros h' Hin Hm' Hc'. apply elem_of_app in Hin as [Hin|Hin%list_elem_of_singleton]; [|by subst h'].
  destruct best as [b|]; [|by destruct (HF h')]. destruct HF as (_ & _ & _ & D). specialize (D h' Hin Hm' Hc'). lia.
Qed.

Lemma found_step method path seen h best :
  found method path seen best →
  found method path (seen ++ [h])
    (if bool_decide (h_method h = method)
        && (ends_with (h_path h) (str "*") && starts_with path (take (length (h_path h) - 1) (h_path h))
            && match best with Some b => length (h_path b) <? length (h_path h) | None => true end)%nat
     then Some h else best).
Proof.
  intros HF. case_bool_decide as Em; cbn [andb]; [|by apply found_extend].
  destruct (ends_with (h_path h) (str "*")) eqn:E1; cbn [andb];
    [|apply found_extend; [done|]; intros _ [E _]; congruence].
  destruct (starts_with path (take (length (h_path h) - 1) (h_path h))) eqn:E2; cbn [andb];
    [|apply found_extend; [done|]; intros _ [_ E]; congruence].
  destruct best as [b|]; [|by eapply found_new].
  destruct (Nat.ltb_spec (length (h_path b)) (length (h_path h))); [by eapply found_new|by apply found_extend].
Qed.

Lemma find_loop_spec method path handlers seen best :
  found method path seen best →
  Forall (λ h, ¬ (h_method h = method ∧ h_path h = path)) seen →
  match find_loop method path handlers best with
  | Some h => h ∈ seen ++ handlers ∧ h_method h = method ∧
      (h_path h = path ∨ best_of method path (seen ++ handlers) h ∧ Forall (λ h, ¬ (h_method h = method ∧ h_path h = path)) (seen ++ handlers))
  | None => none_of method path (seen ++ handlers) ∧ Forall (λ h, ¬ (h_method h = method ∧ h_path h = path)) (seen ++ handlers)
  end.
Proof.
  revert seen best. induction handlers as [|h handlers IH]; intros seen best HF HS; cbn [find_loop].
  - rewrite app_nil_r. destruct best as [b|]; [|done]. destruct HF as (A & B & C & D). split_and!; [done|done|]. by right.
  - pose proof (found_step method path seen h best HF) as HN.
    assert (Hsnoc : seen ++ h :: handlers = (seen ++ [h]) ++ handlers) by by rewrite <- app_assoc.
    case_bool_decide as Em; simpl in *.
    + case_bool_decide as Ep; [split_and!; [set_solver|done|by left]|].
      assert (HS' : Forall (λ h, ¬ (h_method h = method ∧ h_path h = path)) (seen ++ [h])).
      { apply Forall_app_2; [done|]. constructor; [naive_solver|constructor]. }
      rewrite Hsnoc. destruct (_ && _); by apply IH.
    + rewrite Hsnoc. apply IH; [done|]. apply Forall_app_2; [done|]. constructor; [naive_solver|constructor].
Qed.

(** The handler of exactly this path; else one of those with the longest pattern. *)
Lemma findHandler_best handlers method path :
  match findHandler handlers method path with
  | Some h => h ∈ handlers ∧ h_method h = method ∧
      (h_path h = path ∨ best_of method path handlers h ∧ Forall (λ h, ¬ (h_method h = method ∧ h_path h = path)) handlers)
  | None => none_of method path handlers ∧ Forall (λ h, ¬ (h_method h = method ∧ h_path h = path)) handlers
  end.
Proof.
  unfold findHandler. apply (find_loop_spec method path handlers [] None); [|constructor]. intros h Hin. by apply elem_of_nil in Hin.
Qed.

(** ** The format of an answer *)

Lemma accepted_Some format t : accepted format = Some t → format = t ∧ t ∈ acceptableMimeTypes.
Proof.
  unfold accepted. destruct (list_find _ _) as [[i x]|] eqn:E; [|done]. intros [= <-].
  apply list_find_Some in E as (E & -> & _). split; [done|]. by eapply list_elem_of_lookup_2.
Qed.

Lemma accept_loop_acceptable fuel s t : accept_loop fuel s = Some t → t ∈ acceptableMimeTypes.
Proof.
  revert s. induction fuel as [|fuel IH]; intros [|c s]; try done. cbn [accept_loop]. cbv zeta.
  match goal with |- match ?x with _ => _ end = _ → _ => destruct x as [t'|] eqn:E; [|apply IH] end.
  intros [= <-]. destruct (drop_while isDelimiter (c :: s)); [done|]. by apply accepted_Some in E as [_ ?].
Qed.

(** Whatever the client says it wants, it is one of the three. *)
Lemma acceptedMime_acceptable r : acceptedMime r ∈ acceptableMimeTypes.
Proof.
  unfold acceptedMime.
  destruct (if is_nil (contentType r) then None else accepted (contentType r)) as [t|] eqn:E1.
  { destruct (is_nil (contentType r)); [done|]. by apply accepted_Some in E1 as [_ ?]. }
  destruct (_ ≫= _) as [t|] eqn:E2.
  { apply bind_Some in E2 as (v & _ & E2). apply bind_Some in E2 as (w & _ & E2). by apply accepted_Some in E2 as [_ ?]. }
  destruct (accept_loop _ _) as [t|] eqn:E3; simpl; [by eapply accept_loop_acceptable|]. left.
Qed.

(** ** Runs *)

Definition run_all (l : list event) : option (server * histories * Z) := @trace test_env l (empty_server, ∅, 0).

Definition session_after (l : list event) : option session :=
  x ← run_all l; t ← lookup_key 7 (h2Sessions x.1.1); Some (t_session t).

Definition statuses (s : session) : list (Z * bytes) :=
  (λ x, (s_stream x, default [] (snd <$> head (s_headers x)))) <$> submitted s.

(** A request that is still arriving, on a stream before one that is complete, is
    taken for an invalid one... *)
Definition half_post : list callback := [Header 1 (str ":method") (str "POST"); Header 1 (str ":path") (str "/clock")].

Lemma unfinished_request_refused :
  statuses <$> session_after [Accept false (Some 7); reading_of (half_post ++ get 3 "/clock")] = Some [(1, str "500")].
Proof. vm_compute. reflexivity. Qed.

(** ... and its end is that of a request that is not there. *)
Lemma unfinished_request_undefined :
  (x ← run_all [Accept false (Some 7); reading_of (half_post ++ get 3 "/clock")];
   Some (@handle test_env (reading_of [FrameRecv (mkframe DATA 1 true)]) x.1.1)) = Some Undefined.
Proof. vm_compute. reflexivity. Qed.

(** A client that closes the stream of its poll is answered all the same. *)
Lemma cancelled_poll_answered :
  (λ s, (length (pendingPolls s), statuses s))
  <$> session_after [Accept false (Some 7); reading_of (get 1 "/weather?LongPollingIdx=0"); reading_of [StreamClosed 1];
                     Notification weather (test_message "rain")]
  = Some (0%nat, [(1, str "200")]).
Proof. vm_compute. reflexivity. Qed.

(** A socket that had exactly as many bytes as the buffer takes: the next [read] has
    nothing, and [-1] goes to the library as a length. *)
Lemma full_buffer_undefined `{env : Environment} hs s :
  read_loop hs [mkreading (Socket.mkcall read_size false) [] true; mkreading (Socket.mkcall (-1) true) [] true] s
  = @Undefined (bool * session).
Proof. reflexivity. Qed.

(** A socket that is full for now ends the connection, with its polls. *)
Lemma full_socket_drops `{env : Environment} fd t v chunks answers b b' out io :
  Socket.write 4096 chunks (Socket.mkcall (-1) true :: answers) b = Some (io, b', out) →
  (0 < Socket.size (Socket.fill 4096 chunks b))%nat →
  lookup_key fd (h2Sessions v) = Some t → Socket.isReady (t_state t) = true →
  process_tcp fd (mkio Socket.SslDone (Some ([], io)) None) v = Ret ([], drop_session fd v).
Proof.
  intros HW Hsize E Hr. rewrite Socket.full_socket_fails in HW by done. injection HW as <- <- <-.
  unfold process_tcp. rewrite E. simpl. by rewrite Hr.
Qed.

(** Over HTTP/3, nothing removes a response, or what waits, when a stream closes. *)
Lemma http3_keeps_responses `{env : Environment} hs streamId s : call3 hs (StreamClose streamId) s = Ret s.
Proof. reflexivity. Qed.
