(* ===== verification/RestFiles.v ===== *)
(** * RestFiles: [majordomo/Rest.hpp] and the bodies of [majordomo/RestServer.hpp]

    The handlers that serve files, from a resource of the program or from the file
    system, and the functions with which the HTTP library fetches a body: from a
    buffer, a view, or a stream that is read as it goes.  The file system is what
    the handler asks it at the time of the request. *)

From S2P Require Import Prelude Text Uri Outcome Rest.
Local Open Scope nat_scope.

Definition mimeTypeFromExtension (path : bytes) : bytes :=
  if ends_with path (str ".html") then str "text/html"
  else if ends_with path (str ".css") then str "text/css"
  else if ends_with path (str ".js") then str "application/javascript"
  else if ends_with path (str ".png") then str "image/png"
  else if ends_with path (str ".jpg") || ends_with path (str ".jpeg") then str "image/jpeg"
  else if ends_with path (str ".wasm") then str "application/wasm"
  else str "text/plain".

(** The path behind the prefix of the handler, without slashes at its front. *)
Definition relative_path (prefix path : bytes) : bytes :=
  drop_while (λ c, eqc c "/") (if starts_with path prefix then drop (length prefix) path else path).

Definition error_response (code : Z) (text : string) : Response :=
  mkresponse code [(str "content-type", str "text/plain")] (Owned (str text)).

(** ** Resources of the program *)

(** [vfs]: the contents of a file, or an exception. *)
Definition cmrcHandler (path prefix : bytes) (vfs : bytes → option bytes) (vprefix : bytes) : Handler :=
  mkhandler (str "GET") path (λ request,
    let p := relative_path prefix (q_path request) in
    match vfs (vprefix ++ p) with
    | Some file =>
        mkresponse 200 [(str "content-type", mimeTypeFromExtension p);
                        (str "content-length", to_dec (Z.of_nat (length file)))] (Owned file)
    | None => error_response 404 "Not found"
    end).

(** ** Files *)

(** [root / p] of [std::filesystem::path], on a system with slashes. *)
Definition path_append (root p : bytes) : bytes :=
  if starts_with p (str "/") then p
  else if is_nil root || ends_with root (str "/") then root ++ p
  else root ++ str "/" ++ p.

(** The file system: whether a path is there; the size of the file, which throws
    for a directory; [MappedFile::map], with the bytes or the text of an error; the
    bytes behind an [std::ifstream], if it can be opened. *)
Record files : Type := mkfiles {
  exists_ : bytes → bool;
  file_size : bytes → option Z;
  map_file : bytes → bytes + bytes;
  open_file : bytes → option bytes
}.

(** What a handler keeps: the files it has mapped, and the streams that responses
    read from, each with what is left. *)
Record handler_state : Type := mkstate { mappedFiles : gmap bytes bytes; streams : list bytes }.

Definition size_of (fs : files) (file : bytes) : run Z :=
  match file_size fs file with Some n => Ret n | None => Throws InvalidArgument end.

(** The mapped file, mapped now if it was not. *)
Definition find_mapped (fs : files) (file : bytes) (st : handler_state) : (bytes * handler_state) + bytes :=
  match mappedFiles st !! file with
  | Some view => inl (view, st)
  | None =>
      match map_file fs file with
      | inl view => inl (view, mkstate (<[file := view]> (mappedFiles st)) (streams st))
      | inr error => inr error
      end
  end.

Definition serve_mapped (fs : files) (file : bytes) (st : handler_state) : Response * handler_state :=
  match find_mapped fs file st with
  | inr error =>
      (mkresponse 500 [(str "content-type", str "text/plain"); (str "content-length", to_dec (Z.of_nat (length error)))] (Owned error), st)
  | inl (view, st') =>
      (mkresponse 200 [(str "content-type", mimeTypeFromExtension file); (str "content-length", to_dec (Z.of_nat (length view)))]
         (View view), st')
  end.

(** The [try] block: an exception is an error of the server. *)
Definition serve_stream (fs : files) (file : bytes) (extraHeaders : list (bytes * bytes)) (request : rest_request)
    (st : handler_state) : Response * handler_state :=
  match open_file fs file, file_size fs file with
  | Some content, Some n =>
      (mkresponse 200 (extraHeaders ++ [(str "content-type", mimeTypeFromExtension (q_path request)); (str "content-length", to_dec n)])
         (Reader (Z.of_nat (length (streams st)))),
       mkstate (mappedFiles st) (streams st ++ [content]))
  | _, _ => (error_response 500 "Internal Server Error", st)
  end.

Definition fileSystemHandler (prefix root : bytes) (extraHeaders : list (bytes * bytes)) (mmapThreshold : Z)
    (fs : files) (request : rest_request) (st : handler_state) : run (Response * handler_state) :=
  let file := path_append root (relative_path prefix (q_path request)) in
  if negb (exists_ fs file) then Ret (error_response 404 "Not found", st)
  else
    n ← size_of fs file;
    Ret (if (mmapThreshold <=? n)%Z then serve_mapped fs file st else serve_stream fs file extraHeaders request st).

(** ** Bodies

    What the library is given when it asks for at most [n] bytes, whether that is
    the end, and what is left.  [bodyReader] finds the end of a file only when it
    reads past it. *)
Definition read_stream (n : nat) (rest : bytes) : bytes * bool * bytes := (take n rest, length rest <? n, drop n rest).

(** [ioBufferCallback] and [viewCallback] of [Http2Session]. *)
Definition read_view (n : nat) (rest : bytes) : bytes * bool * bytes := (take n rest, length rest <=? n, drop n rest).

(** The library fetches a body: what it has sent when it is told of the end. *)
Fixpoint fetch (read : nat → bytes → bytes * bool * bytes) (lengths : list nat) (rest : bytes) : option bytes :=
  match lengths with
  | [] => None
  | n :: lengths' =>
      let '(data, eof, rest') := read n rest in
      if eof : bool then Some data else app data <$> fetch read lengths' rest'
  end.

(** ** The body arrives whole *)

(** A reader that hands out what comes next, and sees the end in time. *)
Class BodyReader (read : nat → bytes → bytes * bool * bytes) : Prop := {
  reads_next n rest : (read n rest).1.1 = take n rest ∧ (read n rest).2 = drop n rest;
  ends_after n rest : length rest < n → (read n rest).1.2 = true;
  ends_with_data n rest : (read n rest).1.2 = true → length rest ≤ n
}.

#[export] Instance stream_reader : BodyReader read_stream.
Proof.
  split; unfold read_stream; simpl; [done| |].
  - intros n rest. apply Nat.ltb_lt.
  - intros n rest H%Nat.ltb_lt. lia.
Qed.

#[export] Instance view_reader : BodyReader read_view.
Proof.
  split; unfold read_view; simpl; [done| |].
  - intros n rest H. apply Nat.leb_le. lia.
  - intros n rest. apply Nat.leb_le.
Qed.

Section bodies.
Context read `{BodyReader read}.

Lemma fetch_whole lengths body out : fetch read lengths body = Some out → out = body.
Proof.
  revert body out. induction lengths as [|n lengths IH]; intros body out; simpl; [done|].
  destruct (reads_next n body) as [E1 E2]. destruct (read n body) as [[data eof] rest] eqn:E. simpl in *. subst data rest.
  destruct eof.
  - intros [= <-]. pose proof (ends_with_data n body) as HE. rewrite E in HE. simpl in HE. by rewrite take_ge by (by apply HE).
  - destruct (fetch read lengths (drop n body)) as [out'|] eqn:EF; simpl; [|done]. intros [= <-].
    rewrite (IH _ _ EF). apply take_drop.
Qed.

(** It ends when more has been asked for than there is. *)
Lemma fetch_ends lengths body : length body < sum_list lengths → is_Some (fetch read lengths body).
Proof.
  revert body. induction lengths as [|n lengths IH]; intros body; simpl; [lia|]. intros Hlen.
  destruct (reads_next n body) as [E1 E2]. destruct (read n body) as [[data eof] rest] eqn:E. simpl in *. subst data rest.
  destruct eof; [done|].
  destruct (decide (length body < n)) as [Hlt|Hge].
  - pose proof (ends_after n body Hlt) as HE. rewrite E in HE. done.
  - destruct (IH (drop n body)) as [out ->]; [rewrite length_drop; lia|done].
Qed.

Lemma fetch_all lengths body : length body < sum_list lengths → fetch read lengths body = Some body.
Proof. intros Hlen. destruct (fetch_ends lengths body Hlen) as [out E]. by rewrite E, (fetch_whole _ _ _ E). Qed.
End bodies.

(** ** What is served *)

Section served.
Context (prefix root : bytes) (extra : list (bytes * bytes)) (threshold : Z) (fs : files).

Definition requested (request : rest_request) : bytes := path_append root (relative_path prefix (q_path request)).

(** A file that is not mapped is read as it goes; one that is has its size. *)
Lemma file_served request st content :
  let file := requested request in
  exists_ fs file = true → open_file fs file = Some content → file_size fs file = Some (Z.of_nat (length content)) →
  (Z.of_nat (length content) < threshold)%Z →
  ∃ st' i, fileSystemHandler prefix root extra threshold fs request st
    = Ret (mkresponse 200 (extra ++ [(str "content-type", mimeTypeFromExtension (q_path request));
             (str "content-length", to_dec (Z.of_nat (length content)))]) (Reader (Z.of_nat i)), st')
  ∧ streams st' !! i = Some content
  ∧ ∀ lengths, length content < sum_list lengths → fetch read_stream lengths content = Some content.
Proof.
  intros file E1 E2 E3 Hlt. unfold fileSystemHandler. fold (requested request). fold file. rewrite E1. cbn [negb]. unfold size_of. rewrite E3.
  cbn [mbind run_bind]. rewrite (proj2 (Z.leb_gt _ _)) by lia. unfold serve_stream. rewrite E2, E3.
  do 2 eexists. split; [reflexivity|]. split; [simpl; by rewrite lookup_app_r, Nat.sub_diag|].
  intros lengths. apply (fetch_all read_stream).
Qed.

Lemma missing_file request st : exists_ fs (requested request) = false →
  fileSystemHandler prefix root extra threshold fs request st = Ret (error_response 404 "Not found", st).
Proof. unfold fileSystemHandler. fold (requested request). by intros ->. Qed.

(** ** Where it does not keep its word *)

(** A directory is there but has no size: the exception is not caught. *)
Lemma directory_throws request st :
  exists_ fs (requested request) = true → file_size fs (requested request) = None →
  fileSystemHandler prefix root extra threshold fs request st = Throws InvalidArgument.
Proof. unfold fileSystemHandler. fold (requested request). intros -> E. unfold size_of. by rewrite E. Qed.

(** A file that has been mapped is served as it was then, whatever it is now, and
    without the headers that were asked for. *)
Lemma mapped_file_stays request st view n :
  exists_ fs (requested request) = true → file_size fs (requested request) = Some n → (threshold <= n)%Z →
  mappedFiles st !! requested request = Some view →
  fileSystemHandler prefix root extra threshold fs request st
  = Ret (mkresponse 200 [(str "content-type", mimeTypeFromExtension (requested request));
           (str "content-length", to_dec (Z.of_nat (length view)))] (View view), st).
Proof.
  intros E1 E2 Hle E3. unfold fileSystemHandler. fold (requested request). rewrite E1. cbn [negb]. unfold size_of. rewrite E2.
  cbn [mbind run_bind]. rewrite (proj2 (Z.leb_le _ _)) by done. unfold serve_mapped, find_mapped. by rewrite E3.
Qed.
End served.

(** A file system with one file, which is not below the root that is served. *)
Definition secret : bytes := str "/srv/www/../key.pem".
Definition one_file : files :=
  mkfiles (λ p, bool_decide (p = secret)) (λ p, if bool_decide (p = secret) then Some 3%Z else None) (λ _, inr [])
    (λ p, if bool_decide (p = secret) then Some (str "key") else None).

(** The path of a request goes into the file system as it is, dots included: any
    file that the program can read is served. *)
Lemma path_leaves_root :
  fileSystemHandler (str "/assets") (str "/srv/www") [] 1000 one_file (mkrest (str "GET") (str "/assets/../key.pem") []) (mkstate ∅ [])
  = Ret (mkresponse 200 [(str "content-type", str "text/plain"); (str "content-length", str "3")] (Reader 0), mkstate ∅ [str "key"]).
Proof. vm_compute. reflexivity. Qed.

(** A query is part of the name that is looked for. *)
Lemma query_in_name :
  requested (str "/assets") (str "/srv/www") (mkrest (str "GET") (str "/assets/app.js?v=1") []) = str "/srv/www/app.js?v=1".
Proof. vm_compute. reflexivity. Qed.
