(* ===== verification/RestClient.v ===== *)
(** * RestClient: [client/include/RestClientNative.hpp]

    A session of the REST client: requests on streams, the responses as they
    arrive, and subscriptions, which are long polls that follow one another.  What
    is asked of the HTTP library and the callbacks that are called make a log, in
    their order; a callback is known by a number and returns. *)

From S2P Require Import Prelude Text Uri Outcome Message.
From S2P Require Topic Client LongPolling Rest.
Local Open Scope Z_scope.


Definition message : Type := Message.message Message.WithoutSourceId.
Definition command : Type := Client.client_command.

Definition command_of (c : command) : Message.Command := Message.command (Client.cmd c).
Definition topic_of (c : command) : uri := Message.topic (Client.cmd c).
Definition set_topic (u : uri) (c : command) : command :=
  let m := Client.cmd c in
  Client.mkcommand (Message.mkmsg (f := Message.WithoutSourceId) tt (Message.id m) (Message.arrivalTime m) (Message.timeout m)
    (Message.protocolName m) (Message.command m) (Message.serviceName m) (Message.clientRequestID m) u (Message.data m)
    (Message.error m) (Message.rbac m)) (Client.callback c).

Inductive SubscriptionMode : Type := Next | Last | None_.

(** ** Data *)

Record RequestResponse : Type := mkrr {
  request : command;
  body : option bytes;
  normalizedTopic : bytes;
  responseStatus : bytes;
  location : bytes;
  longPollingIdx : option Z;
  payload : bytes;
  response : message
}.

Definition kParallelLongPollingRequests : Z := 1.

Record Subscription : Type := mksub {
  sub_request : command;
  sub_mode : SubscriptionMode;
  lastReceivedLongPollingIdx : option Z;
  callbacks : list (option nat)
}.

(** What happened, in this order. *)
Inductive effect : Type :=
  | Submitted (streamId : Z) (headers : list (bytes * bytes)) (data : option bytes)
  | Cancelled (streamId : Z)
  | Called (cb : nat) (m : message).

Record session : Type := mksession {
  subscriptions : gmap bytes Subscription;
  requests : list (Z * RequestResponse);       (* _requestsByStreamId *)
  log : list effect
}.

Definition new_session : session := mksession ∅ [] [].

Definition set_subscriptions (x : gmap bytes Subscription) (s : session) : session := mksession x (requests s) (log s).
Definition set_requests (x : list (Z * RequestResponse)) (s : session) : session := mksession (subscriptions s) x (log s).
Definition add_log (x : list effect) (s : session) : session := mksession (subscriptions s) (requests s) (log s ++ x).

(** The answers of [nghttp2_submit_request2], by what is in the log: a stream, or a
    negative error; the texts of its errors; uninitialised members; what the decoder
    of references may read; the order in which hash tables are walked; the clock;
    the texts of exceptions. *)
Class Library : Type := {
  submit_answer : list effect → Z;
  strerror : Z → bytes;
  uninit : Z;
  uninit_id : Z;
  walk : gmap bytes (option bytes) → list (bytes * option bytes);
  now : Z;
  what : exn → bytes;
  batch_text : LongPolling.batch_error → bytes
}.

Section client.
Context `{lib : Library}.

Definition empty_message : message :=
  Message.mkmsg (f := Message.WithoutSourceId) tt uninit_id 0 Message.default_timeout [] Message.Invalid (str "/") []
    Message.root_topic [] [] [].

Definition empty_rr : RequestResponse :=
  mkrr (Client.mkcommand empty_message None) None [] [] [] None [] empty_message.

(** ** References *)

Definition after_query (u : uri) : ascii := match u_fragment u with [] => chr 0 | _ => "#"%char end.

Definition query_params (u : uri) : result (gmap bytes (option bytes)) :=
  match queryParamMap STRICT (after_query u) uninit (u_query u) ∅ with (Ok _, m) => Ok m | (Throw e, _) => Throw e end.

(** [UriFactory(uri)], with [addQueryParameter] or [setQuery] of all parameters. *)
Definition with_queryMap (u : uri) (query : bytes) (l : list (bytes * option bytes)) : factory :=
  mkfactory (u_authority u) (u_scheme u) [] [] [] None (u_path u) query (u_fragment u) l.

Definition set_query (m : gmap bytes (option bytes)) (u : uri) : result uri := build STRICT (with_queryMap u [] (walk m)).

Definition usesLongPollingBatch (topic : uri) : result bool :=
  rbind (query_params topic) (λ m, Ok (bool_decide (is_Some (m !! LongPolling.kBatchParameter)))).

Definition subscriptionKey (topic : uri) : result bytes :=
  rbind (query_params topic) (λ m,
    rbind (set_query (delete LongPolling.kBatchParameter (delete LongPolling.kIndexParameter m)) topic) (λ u,
      rbind (Topic.fromMdpTopic uninit STRICT u) (λ t, Ok (Topic.toZmqTopic true t)))).

(** [std::expected]: the index, the command and the mode, or the text of an error. *)
Definition takeInitialLongPollingIndex (c : command) (mode : SubscriptionMode)
    : result ((option Z * command * SubscriptionMode) + bytes) :=
  rbind (query_params (topic_of c)) (λ m,
    match m !! LongPolling.kIndexParameter with
    | None => Ok (inl (None, c, mode))
    | Some None => Ok (inr (str "LongPollingIdx requires a value"))
    | Some (Some v) =>
        let rest (index : option Z) (mode' : SubscriptionMode) :=
          rbind (set_query (delete LongPolling.kIndexParameter m) (topic_of c)) (λ u,
            Ok (inl (index, set_topic u c, mode'))) in
        if bool_decide (v = str "Next") then rest None Next
        else if bool_decide (v = str "Last") then rest None Last
        else match LongPolling.parseUnsigned v with
             | inl i => rest (Some i) mode
             | inr _ => Ok (inr (str "Malformed " ++ LongPolling.kIndexParameter ++ str " '" ++ v ++ str "'"))
             end
    end).

(** ** Responses *)

Definition set_response (m : message) (r : RequestResponse) : RequestResponse :=
  mkrr (request r) (body r) (normalizedTopic r) (responseStatus r) (location r) (longPollingIdx r) (payload r) m.

Definition fillResponse (r : RequestResponse) : RequestResponse :=
  let m := response r in
  let '(c, id) := match command_of (request r) with
                  | Message.Get | Message.Set_ => (Message.Final, Message.clientRequestID (Client.cmd (request r)))
                  | Message.Subscribe => (Message.Notify, Message.clientRequestID m)
                  | _ => (Message.command m, Message.clientRequestID m)
                  end in
  set_response (Message.mkmsg (f := Message.WithoutSourceId) tt 0 now (Message.timeout m) (u_scheme (topic_of (request r))) c
                  (Message.serviceName m) id (Message.topic m) (Message.data m) (Message.error m) []) r.

(** A message with other contents. *)
Definition set_contents (topic : uri) (service data error : bytes) (m : message) : message :=
  Message.mkmsg (f := Message.WithoutSourceId) tt (Message.id m) (Message.arrivalTime m) (Message.timeout m) (Message.protocolName m)
    (Message.command m) service (Message.clientRequestID m) topic data error (Message.rbac m).

Definition set_error (error : bytes) (m : message) : message :=
  set_contents (Message.topic m) (Message.serviceName m) (Message.data m) error m.
Definition set_data (data : bytes) (m : message) : message :=
  set_contents (Message.topic m) (Message.serviceName m) data (Message.error m) m.

Definition call (cb : option nat) (m : message) (s : session) : session :=
  match cb with Some k => add_log [Called k m] s | None => s end.

(** [RequestResponse::reportError] *)
Definition reportError (error : bytes) (r : RequestResponse) (s : session) : session :=
  match Client.callback (request r) with
  | None => s
  | Some k =>
      let m := response (fillResponse r) in
      call (Some k) (set_contents (topic_of (request r)) (Message.serviceName m) [] error m) s
  end.

(** The headers of a response, one after the other.  [false]: the library is told
    that this one cannot be used. *)
Definition on_stream (streamId : Z) (f : RequestResponse → RequestResponse) (s : session) : session :=
  set_requests (Rest.update_key streamId empty_rr f (requests s)) s.

Definition addHeader (streamId : Z) (name value : bytes) (s : session) : bool * session :=
  if bool_decide (name = str ":status") then
    (true, on_stream streamId (λ r, mkrr (request r) (body r) (normalizedTopic r) value (location r) (longPollingIdx r) (payload r)
                                      (response r)) s)
  else if bool_decide (name = str "location") then
    (true, on_stream streamId (λ r, mkrr (request r) (body r) (normalizedTopic r) (responseStatus r) value (longPollingIdx r)
                                      (payload r) (response r)) s)
  else if bool_decide (name = str "x-opencmw-topic") then
    match parseURI STRICT value with
    | Ok u => (true, on_stream streamId (λ r, set_response (set_contents u (Message.serviceName (response r))
                       (Message.data (response r)) (Message.error (response r)) (response r)) r) s)
    | Throw _ => (false, s)
    end
  else if bool_decide (name = str "x-opencmw-service-name") then
    (true, on_stream streamId (λ r, set_response (set_contents (Message.topic (response r)) value
             (Message.data (response r)) (Message.error (response r)) (response r)) r) s)
  else if bool_decide (name = str "x-opencmw-long-polling-idx") then
    match Client.from_chars_u 64 value with
    | Parsed i => (true, on_stream streamId (λ r, mkrr (request r) (body r) (normalizedTopic r) (responseStatus r) (location r)
                                               (Some i) (payload r) (response r)) s)
    | _ => (false, s)
    end
  else (true, s).

(** The callback for data. *)
Definition addData (streamId : Z) (data : bytes) (s : session) : session :=
  on_stream streamId (λ r, mkrr (request r) (body r) (normalizedTopic r) (responseStatus r) (location r) (longPollingIdx r)
                             (payload r ++ data) (response r)) s.

(** ** Requests *)

Definition long_poll_param (mode : SubscriptionMode) (longPollIdx : option Z) : bytes :=
  match longPollIdx with
  | Some i => to_dec i
  | None => match mode with Next => str "Next" | Last => str "Last" | None_ => [] end
  end.

(** The reference that is asked for. *)
Definition poll_topic (topic : uri) (param : bytes) : result uri :=
  if is_nil param then Ok topic
  else build STRICT (with_queryMap topic (u_query topic) [(LongPolling.kIndexParameter, Some param)]).

Definition request_headers (c : command) (topic : uri) (preferredMimeType : bytes) : list (bytes * bytes) :=
  [(str ":method", if bool_decide (command_of c = Message.Set_) then str "POST" else str "GET");
   (str ":path", default (str "/") (relativeRefNoFragment topic));
   (str ":scheme", u_scheme (topic_of c));
   (str ":authority", a_host (parseAuthority (u_authority (topic_of c))))]
  ++ (if is_nil preferredMimeType then []
      else [(str "accept", preferredMimeType); (str "content-type", preferredMimeType)]).

Definition normalized_topic (c : command) : bytes :=
  match (if bool_decide (command_of c = Message.Subscribe) then subscriptionKey (topic_of c)
         else rbind (Topic.fromMdpTopic uninit STRICT (topic_of c)) (λ t, Ok (Topic.toZmqTopic true t))) with
  | Ok t => t
  | Throw _ => u_str (topic_of c)
  end.

(** The data goes to the body. *)
Definition without_data (c : command) : command :=
  let m := Client.cmd c in
  Client.mkcommand (Message.mkmsg (f := Message.WithoutSourceId) tt (Message.id m) (Message.arrivalTime m) (Message.timeout m)
    (Message.protocolName m) (Message.command m) (Message.serviceName m) (Message.clientRequestID m) (Message.topic m) []
    (Message.error m) (Message.rbac m)) (Client.callback c).

(** [emplace]: a stream that is known stays. *)
Definition emplace_request (streamId : Z) (r : RequestResponse) (s : session) : session :=
  match Rest.lookup_key streamId (requests s) with
  | Some _ => s
  | None => set_requests (Rest.insert_key streamId r (requests s)) s
  end.

Definition submitRequest (c : command) (mode : SubscriptionMode) (preferredMimeType : bytes) (longPollIdx : option Z) (s : session)
    : run session :=
  topic ← of_result (poll_topic (topic_of c) (long_poll_param mode longPollIdx));
  let data := Message.data (Client.cmd c) in
  let r := mkrr (without_data c) (if is_nil data then None else Some data) (normalized_topic c) [] [] None [] empty_message in
  let streamId := submit_answer (log s) in
  if streamId <? 0 then Ret (reportError (str "Could not submit request: " ++ strerror streamId) r s)
  else Ret (emplace_request streamId r (add_log [Submitted streamId (request_headers c topic preferredMimeType) (body r)] s)).

(** ** Subscriptions *)

Definition invokeSubscriptionCallbacks (sub : Subscription) (m : message) (s : session) : session :=
  foldl (λ s cb, call cb m s) s (callbacks sub).

Definition makeSkippedWarning (lastDelivered : option Z) (index : Z) : bytes :=
  match lastDelivered with
  | None => []
  | Some l =>
      if wrapu 64 (index - l) <=? 1 then []
      else str "Warning: skipped " ++ to_dec (wrapu 64 (index - l - 1)) ++ str " samples"
  end.

Definition set_last (i : option Z) (sub : Subscription) : Subscription := mksub (sub_request sub) (sub_mode sub) i (callbacks sub).

Definition put_subscription (k : bytes) (sub : Subscription) (s : session) : session :=
  set_subscriptions (<[k := sub]> (subscriptions s)) s.

Definition handleSubscriptionResponse (k : bytes) (index : Z) (m : message) (hasError : bool) (s : session) : run session :=
  match subscriptions s !! k with
  | None => Ret s
  | Some sub =>
      let last := lastReceivedLongPollingIdx sub in
      if negb hasError && match last with Some l => index <=? l | None => false end then
        submitRequest (sub_request sub) (sub_mode sub) [] (Some (wrapu 64 (default 0 last + 1))) s
      else
        let m' := if hasError then m else set_error (makeSkippedWarning last index) m in
        let sub' := set_last (Some index) sub in
        s' ← submitRequest (sub_request sub) (sub_mode sub) [] (Some (wrapu 64 (index + kParallelLongPollingRequests)))
               (put_subscription k sub' s);
        Ret (invokeSubscriptionCallbacks sub' m' s')
  end.

(** The loop over the parts: the messages that are new, and the last index. *)
Fixpoint batch_messages (parts : list LongPolling.BatchPart) (m : message) (lastDelivered : option Z)
    : result (list message * option Z) :=
  match parts with
  | [] => Ok ([], lastDelivered)
  | p :: parts' =>
      if match lastDelivered with Some l => LongPolling.index p <=? l | None => false end
      then batch_messages parts' m lastDelivered
      else
        rbind (parseURI STRICT (LongPolling.topic p)) (λ u,
          let m' := set_contents u (LongPolling.serviceName p) (LongPolling.payload p)
                      (makeSkippedWarning lastDelivered (LongPolling.index p)) m in
          rbind (batch_messages parts' m (Some (LongPolling.index p))) (λ '(ms, l), Ok (m' :: ms, l)))
  end.

Definition resumeSubscriptionAfterBatchError (k : bytes) (m : message) (nextIndex : option Z) (s : session) : run session :=
  match subscriptions s !! k with
  | None => Ret s
  | Some sub =>
      let m' := set_contents (topic_of (sub_request sub)) (Message.serviceName m) [] (Message.error m) m in
      s' ← submitRequest (sub_request sub) Next [] nextIndex s;
      Ret (invokeSubscriptionCallbacks sub m' s')
  end.

Definition handleSubscriptionBatchResponse (k : bytes) (parts : list LongPolling.BatchPart) (m : message) (s : session) : run session :=
  match subscriptions s !! k with
  | None => Ret s
  | Some sub =>
      match batch_messages parts m (lastReceivedLongPollingIdx sub) with
      | Throw e =>
          p ← of_option (last parts);
          let lastIndex := LongPolling.index p in
          resumeSubscriptionAfterBatchError k
            (set_error (str "Could not parse long-polling batch metadata: " ++ what e) m)
            (if lastIndex <? 2 ^ 64 - 1 then Some (lastIndex + 1) else None) s
      | Ok (ms, lastDelivered) =>
          let sub' := set_last lastDelivered sub in
          l ← of_option lastDelivered;
          s' ← submitRequest (sub_request sub) (sub_mode sub) [] (Some (wrapu 64 (l + 1))) (put_subscription k sub' s);
          Ret (foldl (λ s m, invokeSubscriptionCallbacks sub' m s) s' ms)
      end
  end.

Definition reportSubscriptionError (k : bytes) (m : message) (s : session) : session :=
  match subscriptions s !! k with
  | None => s
  | Some sub => invokeSubscriptionCallbacks sub m (set_subscriptions (delete k (subscriptions s)) s)
  end.

(** The loop over the indices: with one request at a time there is one turn, unless
    the index is the largest, from which it never ends ([Undefined]). *)
Fixpoint send_polls (fuel : nat) (sub : Subscription) (from to : Z) (s : session) : run session :=
  match fuel with
  | O => Undefined
  | S fuel' =>
      if from <=? to then
        s' ← submitRequest (sub_request sub) (sub_mode sub) [] (Some from) s;
        send_polls fuel' sub (wrapu 64 (from + 1)) to s'
      else Ret s
  end.

Definition sendLongPollRequests (k : bytes) (from to : Z) (s : session) : run session :=
  match subscriptions s !! k with
  | None => Ret s
  | Some sub => send_polls (S (Z.to_nat kParallelLongPollingRequests)) sub from to s
  end.

(** ** A response that is complete *)

Definition erase_request (streamId : Z) (s : session) : session := set_requests (Rest.erase_key streamId (requests s)) s.

(** [NGHTTP2_ERR_TEMPORAL_CALLBACK_FAILURE] is [false]. *)
Definition fail_request (streamId : Z) (error : bytes) (r : RequestResponse) (s : session) : run (bool * session) :=
  Ret (false, erase_request streamId (reportError error r s)).

Definition location_params (l : bytes) : result (gmap bytes (option bytes)) :=
  rbind (parseURI STRICT l) query_params.

(** A redirection goes to the index of its reference. *)
Definition processRedirect (streamId : Z) (r : RequestResponse) (s : session) : run (bool * session) :=
  match location_params (location r) with
  | Throw e => fail_request streamId (str "Could not parse redirect URI '" ++ location r ++ str "': " ++ what e) r s
  | Ok m =>
      match m !! LongPolling.kIndexParameter with
      | None | Some None => fail_request streamId (str "Could not find LongPollingIdx in URI '" ++ location r ++ str "'") r s
      | Some (Some v) =>
          match Client.from_chars_u 64 v with
          | Parsed i =>
              s' ← sendLongPollRequests (normalizedTopic r) i (wrapu 64 (i + kParallelLongPollingRequests - 1)) s;
              Ret (true, erase_request streamId s')
          | _ => fail_request streamId (str "Could not parse numerical LongPollingIdx from '" ++ v ++ str "'") r s
          end
      end
  end.

Definition is_batch_request (c : command) : result bool :=
  if bool_decide (command_of c = Message.Subscribe) then usesLongPollingBatch (topic_of c) else Ok false.

(** Anything else is handed over. *)
Definition processFinal (streamId : Z) (r : RequestResponse) (s : session) : run (bool * session) :=
  let m := response (fillResponse r) in
  let hasError := negb (starts_with (responseStatus r) (str "2")) && negb (starts_with (responseStatus r) (str "3")) in
  let k := normalizedTopic r in
  batch ← (if hasError then Ret false else of_result (is_batch_request (request r)));
  if batch : bool then
    s' ← match LongPolling.decodeBatch (payload r) with
         | inr e => resumeSubscriptionAfterBatchError k (set_error (str "Could not decode long-polling batch: " ++ batch_text e) m) None s
         | inl parts => handleSubscriptionBatchResponse k parts m s
         end;
    Ret (true, erase_request streamId s')
  else
    let m' := if hasError then set_error (payload r) m else set_data (payload r) m in
    s' ← (if bool_decide (command_of (request r) = Message.Subscribe) then
            refused ← (if hasError then
                         batch ← of_result (usesLongPollingBatch (topic_of (request r)));
                         Ret (batch || negb (bool_decide (is_Some (longPollingIdx r))))
                       else Ret false);
            if refused : bool then Ret (reportSubscriptionError k m' s)
            else match longPollingIdx r with
                 | None => Ret (reportSubscriptionError k
                                  (set_error (str "Long-polling response is missing x-opencmw-long-polling-idx") m') s)
                 | Some i => handleSubscriptionResponse k i m' hasError s
                 end
          else Ret (call (Client.callback (request r)) m' s));
    Ret (true, erase_request streamId s').

Definition processResponse (streamId : Z) (s : session) : run (bool * session) :=
  r ← of_option (Rest.lookup_key streamId (requests s));
  if bool_decide (responseStatus r = str "302") then processRedirect streamId r s
  else
    match longPollingIdx r with
    | Some i =>
        if bool_decide (responseStatus r = str "504") then
          s' ← sendLongPollRequests (normalizedTopic r) i i s; Ret (true, erase_request streamId s')
        else processFinal streamId r s
    | None => processFinal streamId r s
    end.

Definition reportErrorToAllPendingRequests (error : bytes) (s : session) : session :=
  set_requests [] (foldl (λ s x, reportError error x.2 s) s (requests s)).

(** ** Starting and stopping *)

Definition report_start_error (c : command) (error : bytes) (s : session) : session :=
  call (Client.callback c)
    (Message.mkmsg (f := Message.WithoutSourceId) tt 0 0 Message.default_timeout [] Message.Notify (str "/") []
       (topic_of c) [] error []) s.

Definition start_key (c : command) : result (bool * bytes) :=
  rbind (usesLongPollingBatch (topic_of c)) (λ batch, rbind (subscriptionKey (topic_of c)) (λ k, Ok (batch, k))).

Definition startSubscription (c : command) (mode : SubscriptionMode) (s : session) : run session :=
  match takeInitialLongPollingIndex c mode with
  | Throw e => Ret (report_start_error c (what e) s)
  | Ok (inr e) => Ret (report_start_error c e s)
  | Ok (inl (initialIndex, c', mode')) =>
      match start_key c' with
      | Throw e => Ret (report_start_error c' (what e) s)
      | Ok (usesBatch, k) =>
          match subscriptions s !! k with
          | Some sub =>
              old ← (if usesBatch then Ret true else of_result (usesLongPollingBatch (topic_of (sub_request sub))));
              if old : bool then
                Ret (report_start_error c'
                       (str "A subscription for this topic is already active; concurrent batch subscriptions are not supported") s)
              else
                Ret (put_subscription k
                       (mksub c' mode' (lastReceivedLongPollingIdx sub) (callbacks sub ++ [Client.callback c'])) s)
          | None =>
              let last := match initialIndex with Some i => if 0 <? i then Some (i - 1) else None | None => None end in
              submitRequest c' mode' [] initialIndex (put_subscription k (mksub c' mode' last [Client.callback c']) s)
          end
      end
  end.

Definition cancelled (k : bytes) (x : Z * RequestResponse) : bool :=
  bool_decide (command_of (request x.2) = Message.Subscribe) && bool_decide (normalizedTopic x.2 = k).

Definition stopSubscription (c : command) (s : session) : session :=
  match subscriptionKey (topic_of c) with
  | Throw _ => s
  | Ok k =>
      match subscriptions s !! k with
      | None => s
      | Some _ =>
          mksession (delete k (subscriptions s)) (filter (λ x, cancelled k x = false) (requests s))
            (log s ++ ((λ x, Cancelled x.1) <$> filter (λ x, cancelled k x = true) (requests s)))
      end
  end.

(** ** What the library calls *)

Inductive callback : Type :=
  | Header (streamId : Z) (name value : bytes)
  | DataChunk (streamId : Z) (data : bytes)
  | EndStream (streamId : Z)                  (* a frame of headers or data with that flag *)
  | StreamClosed (streamId : Z).

(** A header that cannot be used, or a failure in the last frame, is the library's
    to deal with. *)
Definition call_back (c : callback) (s : session) : run session :=
  match c with
  | Header streamId name value => Ret (addHeader streamId name value s).2
  | DataChunk streamId data => Ret (addData streamId data s)
  | EndStream streamId => '(_, s') ← processResponse streamId s; Ret s'
  | StreamClosed streamId => Ret (erase_request streamId s)
  end.

Fixpoint call_all (cs : list callback) (s : session) : run session :=
  match cs with
  | [] => Ret s
  | c :: cs' => s' ← call_back c s; call_all cs' s'
  end.

(** ** The client

    [Endpoint]: scheme, host and port. *)
Definition Endpoint : Type := bytes * bytes * Z.

Record RestClient : Type := mkclient {
  requestQueue : list (command * SubscriptionMode);
  sessions : gmap Endpoint session;
  finished : list effect          (* the logs of sessions that are gone, and errors without a session *)
}.

Definition new_client : RestClient := mkclient [] ∅ [].

Definition put_client_session (e : Endpoint) (s : session) (c : RestClient) : RestClient :=
  mkclient (requestQueue c) (<[e := s]> (sessions c)) (finished c).

(** [request], from any thread; the queue has a lock.  Callbacks are asserted. *)
Definition client_request (c : command) (x : RestClient) : run RestClient :=
  let push mode := mkclient (requestQueue x ++ [(c, mode)]) (sessions x) (finished x) in
  match command_of c, Client.callback c with
  | Message.Get, Some _ | Message.Set_, Some _ => Ret (push None_)
  | Message.Subscribe, Some _ => Ret (push Next)
  | Message.Unsubscribe, _ => Ret (push None_)
  | _, _ => Undefined
  end.

(** [ensureSession]; [connects]: whether a socket, and a TLS session if it takes one,
    could be made, or the text of the error.  [port()] may end the program. *)
Definition ensureSession (connects : option bytes) (topic : uri) (x : RestClient) : run ((Endpoint * session) + bytes) :=
  let scheme := u_scheme topic in
  let host := a_host (parseAuthority (u_authority topic)) in
  if negb (bool_decide (scheme = str "http")) && negb (bool_decide (scheme = str "https"))
  then Ret (inr (str "Unsupported protocol '" ++ scheme ++ str "' for endpoint '" ++ u_str topic ++ str "'"))
  else if is_nil host then Ret (inr (str "No host provided for endpoint '" ++ u_str topic ++ str "'"))
  else
    match port topic with
    | Terminate => Throws InvalidArgument
    | p =>
        let number := match p with Port n => n | _ => if bool_decide (scheme = str "https") then 443 else 80 end in
        let e := (scheme, host, number) in
        match sessions x !! e with
        | Some s => Ret (inl (e, s))
        | None => match connects with None => Ret (inl (e, new_session)) | Some error => Ret (inr error) end
        end
    end.

Definition preferredMimeType (mimeType : bytes) (topic : uri) : result bytes :=
  rbind (query_params topic) (λ m, Ok (match m !! str "contentType" with Some (Some v) => v | _ => mimeType end)).

Definition report_client_error (c : command) (error : bytes) (x : RestClient) : RestClient :=
  match Client.callback c with
  | None => x
  | Some k =>
      mkclient (requestQueue x) (sessions x)
        (finished x ++ [Called k (Message.mkmsg (f := Message.WithoutSourceId) tt 0 now Message.default_timeout (u_scheme (topic_of c))
                                    Message.Final (str "/") (Message.clientRequestID (Client.cmd c)) (topic_of c) [] error [])])
  end.

(** One command of the queue. *)
Definition dispatch (mimeType : bytes) (connects : option bytes) (c : command) (mode : SubscriptionMode) (x : RestClient)
    : run RestClient :=
  let in_session (prefix : bytes) (f : session → run session) : run RestClient :=
    r ← ensureSession connects (topic_of c) x;
    match r with
    | inr error => Ret (report_client_error c (prefix ++ u_str (topic_of c) ++ str "': " ++ error) x)
    | inl (e, s) => s' ← f s; Ret (put_client_session e s' x)
    end in
  match command_of c with
  | Message.Get | Message.Set_ =>
      match preferredMimeType mimeType (topic_of c) with
      | Throw e => Ret (report_client_error c (what e) x)
      | Ok preferred => in_session (str "Could not create REST session for endpoint '") (submitRequest c mode preferred None)
      end
  | Message.Subscribe => in_session (str "Unsupported endpoint '") (startSubscription c mode)
  | Message.Unsubscribe => in_session (str "Unsupported endpoint '") (λ s, Ret (stopSubscription c s))
  | _ => Undefined
  end.

Definition take_request (mimeType : bytes) (connects : option bytes) (x : RestClient) : run RestClient :=
  match requestQueue x with
  | [] => Ret x
  | (c, mode) :: q => dispatch mimeType connects c mode (mkclient q (sessions x) (finished x))
  end.

(** What [poll] says of a session's socket, and what comes of it. *)
Inductive poll_event : Type :=
  | PollError (error : bytes)             (* [POLLERR], or the connection cannot be made *)
  | WriteFailed
  | Reading (calls : list callback) (ok : bool).

Definition end_session (e : Endpoint) (s : session) (x : RestClient) : RestClient :=
  mkclient (requestQueue x) (delete e (sessions x)) (finished x ++ log s).

Definition poll_session (e : Endpoint) (p : poll_event) (x : RestClient) : run RestClient :=
  s ← of_option (sessions x !! e);
  match p with
  | PollError error => Ret (end_session e (reportErrorToAllPendingRequests error s) x)
  | WriteFailed => Ret (end_session e s x)
  | Reading cs ok => s' ← call_all cs s; Ret (if ok then put_client_session e s' x else end_session e s' x)
  end.

(** ** Where it does not keep its word *)

(** A session whose socket fails is gone, and with it what it was asked: no callback
    is called. *)
Lemma lost_connection_silent e s x :
  sessions x !! e = Some s →
  poll_session e WriteFailed x = Ret (mkclient (requestQueue x) (delete e (sessions x)) (finished x ++ log s)).
Proof. unfold poll_session. by intros ->. Qed.

(** From the largest index the loop that sends polls never ends. *)
Lemma largest_index_loops fuel sub from s s' :
  in_u 64 from → send_polls fuel sub from (2 ^ 64 - 1) s ≠ Ret s'.
Proof.
  revert from s. induction fuel as [|fuel IH]; intros from s Hfrom; [done|]. cbn [send_polls]. unfold in_u in Hfrom.
  rewrite (proj2 (Z.leb_le _ _)) by lia. destruct (submitRequest _ _ _ _ s) as [s1| |]; [|done|done]. cbn [mbind run_bind].
  apply IH. unfold in_u, wrapu. apply Z.mod_pos_bound. lia.
Qed.

End client.
