(* ===== verification/RestLink.v ===== *)
(** * RestLink: the REST client and the REST server

    A client that follows a topic, and the server, over a connection that loses
    nothing: what the client asks of its library arrives at the server as the calls
    of the server's library, and the other way round.  First, the references that
    go to and fro. *)

From S2P Require Import Prelude Text Uri Outcome RestServer RestSpec RestPolls RestSystem RestRuns RestResults RestClient.
From S2P Require Topic Message Socket Client LongPolling Rest.
Local Open Scope Z_scope.

Definition key : bytes := LongPolling.kIndexParameter.

(** ** References to polls *)

Definition poll_query (param : bytes) : bytes := key ++ "="%char :: param.
Definition poll_reference (svc param : bytes) : bytes := svc ++ "?"%char :: poll_query param.

(** What a parameter is written with. *)
Definition plain (param : bytes) : Prop := param ≠ [] ∧ Forall (λ c, isUnreserved c = true) param.

Lemma plain_to_dec z : plain (to_dec z).
Proof. split; [apply to_dec_nonempty|]. eapply Forall_class; [|apply to_dec_chars]. char_class. Qed.

Lemma plain_Next : plain (str "Next").
Proof. split; [done|]. by apply Forall_forallb. Qed.

Section references.
Context (svc : bytes) (Hv : Topic.isValidServiceName svc = true).

Lemma query_of_params u q param :
  plain param → factory_query (mkfactory u q [] [] [] None svc [] [] [(key, Some param)]) = poll_query param.
Proof.
  intros [_ Hp]. unfold factory_query. cbn [f_query f_queryMap fold_left is_nil negb opt_str app].
  unfold query_item. cbn [fst snd]. rewrite (encode_unreserved param) by done. done.
Qed.

Lemma service_path : Forall (λ c, is_path_char c = true) svc.
Proof using Hv. eapply Forall_class; [|by apply Topic.service_chars]. char_class. Qed.

Definition relative (l : list (bytes * option bytes)) : factory := mkfactory [] [] [] [] [] None svc [] [] l.

Lemma relative_buildable l : buildable (relative l).
Proof using Hv.
  constructor; cbn; [constructor|constructor|apply service_path|right; by apply Topic.service_slash|constructor|done|].
  right. repeat split. by apply Topic.service_nonempty.
Qed.

Lemma relative_text param : plain param → (toString (relative [(key, Some param)])).1 = poll_reference svc param.
Proof using Hv.
  intros Hp. rewrite toString_buildable by apply relative_buildable. unfold reference_text, relative. rewrite query_of_params by done.
  cbn [f_scheme f_authority f_path is_nil negb opt_str app f_fragment]. unfold query_part, fragment_part.
  cbn [encode app poll_query key LongPolling.kIndexParameter str String.list_ascii_of_string]. by rewrite app_nil_r.
Qed.

Definition poll_uri (param : bytes) : uri := mkuri (poll_reference svc param) [] [] svc (poll_query param) [].

Lemma parse_poll_reference param : plain param → parseURI STRICT (poll_reference svc param) = Ok (poll_uri param).
Proof using Hv.
  intros Hp. pose proof (build_buildable _ (relative_buildable [(key, Some param)])) as HB.
  unfold build in HB. rewrite relative_text in HB by done. rewrite HB. unfold relative. by rewrite query_of_params.
Qed.

Lemma read_poll_query check after uninit param :
  plain param → queryParamMap check after uninit (poll_query param) ∅ = (Ok (), {[key := Some param]}).
Proof.
  intros Hp. rewrite <- (query_of_params [] [] param) by done. rewrite read_written_query; [done|done|].
  constructor; [|constructor]. by destruct Hp.
Qed.

(** A topic without parameters. *)
Definition service_topic : Topic.t := Topic.mk svc ∅.
Definition service_uri : uri := mkuri svc [] [] svc [] [].

Lemma build_service : build STRICT (relative []) = Ok service_uri.
Proof using Hv.
  rewrite build_buildable by apply relative_buildable. rewrite toString_buildable by apply relative_buildable.
  unfold reference_text, relative, service_uri. cbn. by rewrite app_nil_r.
Qed.

Lemma topic_of_service uninit scheme authority text : Topic.fromMdpTopic uninit STRICT (mkuri text scheme authority svc [] []) = Ok service_topic.
Proof using Hv.
  unfold Topic.fromMdpTopic. cbn [u_fragment u_query u_path].
  assert (HQ : queryParamMap STRICT (chr 0) uninit [] ∅ = (Ok (), ∅)) by done. rewrite HQ.
  destruct (Topic.service_head svc Hv) as [r Er].
  assert (Hd : default (str "/") (returnOpt svc) = svc) by (by rewrite Er). rewrite Hd. by apply Topic.make_plain.
Qed.

Lemma zmq_of_service : Topic.toZmqTopic true service_topic = svc ++ str "#".
Proof. done. Qed.

(** ** At the client *)

Section client_side.
Context (scheme authority : bytes)
  (Hs : scheme ≠ [] ∧ Forall (λ c, is_alnum c = true) scheme)
  (Ha : authority ≠ [] ∧ Forall (λ c, is_authority_char c = true) authority).

Definition base_text : bytes := scheme ++ str "://" ++ authority ++ svc.
Definition base_uri : uri := mkuri base_text scheme authority svc [] [].

Definition absolute (l : list (bytes * option bytes)) : factory := mkfactory authority scheme [] [] [] None svc [] [] l.

Lemma absolute_buildable l : buildable (absolute l).
Proof using Hv Hs Ha.
  constructor; cbn; [apply Hs|apply Ha|apply service_path|right; by apply Topic.service_slash|constructor|done|].
  left. split; [apply Hs|apply Ha].
Qed.

Lemma absolute_text l :
  (toString (absolute l)).1 = base_text ++ query_part (factory_query (absolute l)).
Proof using Hv Hs Ha.
  rewrite toString_buildable by apply absolute_buildable. unfold reference_text, absolute, base_text. cbn [f_scheme f_authority f_path f_fragment].
  destruct Hs as [Hs0 _], Ha as [Ha0 _]. destruct scheme as [|c s]; [done|]. destruct authority as [|c' a]; [done|].
  cbn [is_nil negb opt_str encode fragment_part]. rewrite app_nil_r. by rewrite <- !app_assoc.
Qed.

Lemma build_base : build STRICT (absolute []) = Ok base_uri.
Proof using Hv Hs Ha.
  rewrite build_buildable by apply absolute_buildable. rewrite absolute_text. unfold base_uri, absolute. cbn. by rewrite app_nil_r.
Qed.

Lemma build_poll param :
  plain param → build STRICT (absolute [(key, Some param)])
  = Ok (mkuri (base_text ++ "?"%char :: poll_query param) scheme authority svc (poll_query param) []).
Proof using Hv Hs Ha.
  intros Hp. rewrite build_buildable by apply absolute_buildable. rewrite absolute_text. unfold absolute.
  by rewrite query_of_params.
Qed.

Lemma poll_path param text :
  relativeRefNoFragment (mkuri text scheme authority svc (poll_query param) []) = Some (poll_reference svc param).
Proof using Hv.
  unfold relativeRefNoFragment. cbn [u_path u_query]. destruct (Topic.service_head svc Hv) as [r Er].
  assert (is_nil svc = false) as -> by (by rewrite Er). rewrite (Topic.service_slash svc Hv).
  unfold poll_reference. done.
Qed.
End client_side.
End references.

(** ** The connection *)

(** What the server's library calls for a request of the client. *)
Definition request_calls (streamId : Z) (headers : list (bytes * bytes)) : list Rest.callback :=
  ((λ x, Rest.Header streamId x.1 x.2) <$> headers) ++ [Rest.FrameRecv (Rest.mkframe Rest.HEADERS streamId true)].

(** What the client's library calls for a response: its headers, its data, its end;
    the data of a reader or a view is not looked at here. *)
Definition response_calls (x : Rest.submission) : list callback :=
  let st := Rest.s_stream x in
  ((λ h, Header st h.1 h.2) <$> Rest.s_headers x)
  ++ match Rest.s_body x with Some (Rest.Owned b) => [DataChunk st b] | _ => [] end
  ++ [EndStream st; StreamClosed st].

(** The requests of a client, in their order. *)
Definition asked_of (e : effect) : option (Z * list (bytes * bytes)) :=
  match e with Submitted st h _ => Some (st, h) | _ => None end.
Definition asked (s : session) : list (Z * list (bytes * bytes)) := omap asked_of (log s).

(** The calls of callbacks. *)
Definition called_of (e : effect) : option (nat * message) := match e with Called cb m => Some (cb, m) | _ => None end.
Definition called (s : session) : list (nat * message) := omap called_of (log s).

(** The server, the client, and how many requests and responses have arrived. *)
Record link : Type := mklink { srv : server; cli : session; sent : nat; got : nat }.

Definition server_session (fd : Z) (v : server) : option Rest.session :=
  t ← Rest.lookup_key fd (h2Sessions v); Some (t_session t).

Definition arrival (fd streamId : Z) (headers : list (bytes * bytes)) : event :=
  Tcp fd (mkio Socket.SslDone None (Some [mkreading (Socket.mkcall 100 false) (request_calls streamId headers) true])).

Section link.
Context `{env : Rest.Environment} `{lib : Library} (fd : Z) (topic : Topic.t).

(** Something arrives, or the topic is notified; with the history of the topic. *)
Inductive link_step : link → list Rest.message → link → list Rest.message → Prop :=
  | link_request v s n g hs st h ms v' :
      asked s !! n = Some (st, h) → handle (arrival fd st h) v = Ret (ms, v') →
      link_step (mklink v s n g) hs (mklink v' s (S n) g) hs
  | link_response v s n g hs s2 x s' :
      server_session fd v = Some s2 → Rest.submitted s2 !! g = Some x → call_all (response_calls x) s = Ret s' →
      link_step (mklink v s n g) hs (mklink v s' n (S g)) hs
  | link_notify v s n g hs m ms v' :
      is_ok (parseURI STRICT (u_str (Message.topic m))) = true → total (hs ++ [m]) < 2 ^ 64 - 1 →
      handle (Notification topic m) v = Ret (ms, v') →
      link_step (mklink v s n g) hs (mklink v' s n g)
        (if bool_decide (is_Some (subscriptionCache v !! Topic.toZmqTopic true topic)) then hs ++ [m] else hs).

(** What may happen from a state; [quiet] without notifications. *)
Inductive linked : link → list Rest.message → link → list Rest.message → Prop :=
  | linked_refl l hs : linked l hs l hs
  | linked_step l hs l1 hs1 l2 hs2 : linked l hs l1 hs1 → link_step l1 hs1 l2 hs2 → linked l hs l2 hs2.

Inductive quiet : link → link → list Rest.message → Prop :=
  | quiet_refl l hs : quiet l l hs
  | quiet_step l l1 l2 hs : link_step l hs l1 hs → quiet l1 l2 hs → quiet l l2 hs.

(** The client has accepted a connection and follows the topic. *)
Definition start (c : command) : run link :=
  s ← startSubscription c Next new_session;
  Ret (mklink (set_h2 [(fd, mktcp Socket.Connected (RestServer.new_session Rest.Http2))] empty_server) s 0 0).
End link.
