(* ===== verification/RestAsk.v ===== *)
(** * RestAsk: what the polls of a client are for the server

    The polls that a client of [RestClient] sends, as the server of [RestServer]
    takes them: the request that arrives is read as the poll that was meant, and
    is answered, or waits, as [RestSpec] says. *)

From S2P Require Import Prelude Text Uri Outcome Rest RestServer RestSpec RestPolls RestSystem RestRuns RestResults.
From S2P Require Topic Message Socket LongPolling RestLink.
Local Open Scope Z_scope.

(** ** Tables with one entry *)

Lemma lookup_key_single {A} k (x : A) : lookup_key k [(k, x)] = Some x.
Proof. simpl. by rewrite Z.eqb_refl. Qed.

Lemma update_key_single {A} k (x fresh : A) f : update_key k fresh f [(k, x)] = [(k, f x)].
Proof. unfold update_key. rewrite lookup_key_single. simpl. by rewrite Z.eqb_refl. Qed.

Section asked.
Context `{env : Environment} (walk_ok : ∀ m, walk m ≡ₚ map_to_list m) (accepts_ok : ∀ l x, accepts l x = true).
Context (svc scheme host : bytes) (Hv : Topic.isValidServiceName svc = true).

Definition single : LongPollingBatchRequest := mkbatch None_ 1.
Definition topic_key : bytes := svc ++ str "#".

(** The headers of a poll, and the request that they are read as. *)
Definition poll_headers (param : bytes) : list (bytes * bytes) :=
  [(str ":method", str "GET"); (str ":path", RestLink.poll_reference svc param); (str ":scheme", scheme); (str ":authority", host)].

Definition polled (param : bytes) : Request :=
  mkrequest (poll_headers param) (RestLink.service_topic svc) LongPoll (Some param) None [] [] [] true.

Lemma walk_one k v : walk {[k := v]} = [(k, v)].
Proof using walk_ok. pose proof (walk_ok {[k := v]}) as HP. rewrite map_to_list_singleton in HP. by apply Permutation_singleton_r in HP. Qed.

Lemma walk_none : walk ∅ = [].
Proof using walk_ok. pose proof (walk_ok ∅) as HP. rewrite map_to_list_empty in HP. by apply Permutation_nil_r in HP. Qed.

Lemma path_not_root param : RestLink.poll_reference svc param ≠ str "/".
Proof.
  unfold RestLink.poll_reference. intros E. apply (f_equal length) in E. rewrite length_app in E. unfold RestLink.poll_query in E.
  simpl in E. lia.
Qed.

Lemma parse_poll param r :
  RestLink.plain param → longPollBatch r = None →
  parse_path (RestLink.poll_reference svc param) r
  = Ok (mkrequest (rawHeaders r) (RestLink.service_topic svc) (method r) (Some param) None (contentType r) (accept r) (payload r)
          (complete r)).
Proof using walk_ok Hv.
  intros Hp Hb. unfold parse_path. rewrite (RestLink.parse_poll_reference svc Hv) by done. cbn [rbind].
  unfold RestLink.poll_uri at 2 3. cbn [u_query]. rewrite RestLink.read_poll_query by done. rewrite walk_one.
  cbn [read_parameters]. unfold read_parameter. cbn [fst snd]. rewrite bool_decide_true by done. cbn [rbind default q_context q_other].
  unfold with_queryMap, without_query, factory_of_uri, RestLink.poll_uri. cbn.
  rewrite walk_none. pose proof (RestLink.build_service svc Hv) as HB. unfold RestLink.relative in HB. rewrite HB. cbn [rbind].
  unfold RestLink.service_uri. rewrite (RestLink.topic_of_service svc Hv). cbn. by rewrite Hb.
Qed.

Lemma header_first st name value s :
  requests s = [] →
  addHeader st name value s
  = set_requests [(st, mkrequest [(name, value)] (Topic.mk [] ∅) Invalid None None [] [] [] false)] s.
Proof. intros Hr. unfold addHeader. by rewrite Hr. Qed.

Lemma header_next st name value r s :
  addHeader st name value (set_requests [(st, r)] s)
  = set_requests [(st, mkrequest (rawHeaders r ++ [(name, value)]) (topic r) (method r) (longPollIndex r) (longPollBatch r)
                         (contentType r) (accept r) (payload r) (complete r))] s.
Proof. unfold addHeader. cbn [requests set_requests]. by rewrite update_key_single. Qed.

Lemma poll_headers_read param t m li lb ct ac pl c :
  let r := mkrequest (poll_headers param) t m li lb ct ac pl c in
  read_headers r = (RestLink.poll_reference svc param, str "GET", r).
Proof. reflexivity. Qed.

(** The calls of the library make one request, which is complete. *)
Lemma poll_arrives st param s :
  RestLink.plain param → requests s = [] →
  calls (call2 []) (RestLink.request_calls st (poll_headers param)) s = Ret (set_requests [(st, polled param)] s).
Proof using walk_ok Hv.
  intros Hp Hr. unfold RestLink.request_calls, poll_headers.
  cbn [fmap list_fmap app calls call2 mbind run_bind fst snd].
  assert (HA : addHeader st (str ":authority") host
                 (addHeader st (str ":scheme") scheme
                   (addHeader st (str ":path") (RestLink.poll_reference svc param) (addHeader st (str ":method") (str "GET") s)))
               = set_requests [(st, mkrequest (poll_headers param) (Topic.mk [] ∅) Invalid None None [] [] [] false)] s).
  { rewrite (header_first _ _ _ s Hr). by rewrite !header_next. }
  rewrite HA. unfold frame_recv_callback. cbn [f_type f_end f_stream].
  unfold processCompletedRequest. cbn [requests set_requests]. rewrite lookup_key_single. cbn [of_option mbind run_bind].
  rewrite poll_headers_read. cbn [findHandler find_loop]. rewrite (bool_decide_false _ (path_not_root param)), parse_poll by done.
  unfold set_requests. cbn [kind requests responses pendingRequests pendingPolls submitted]. by rewrite update_key_single.
Qed.

(** It is the only one that is taken. *)
Lemma poll_taken st param c n s :
  requests s = [] →
  getMessages c n (set_requests [(st, polled param)] s)
  = '(m, c', s') ← processLongPollRequest st (polled param) c (set_requests [(st, polled param)] s);
    Ret (match m with Some m => [m] | None => [] end, c', n, set_requests [] s').
Proof.
  intros Hr. unfold getMessages. cbn [requests set_requests].
  assert (partition_point (λ x : Z * Request, complete x.2) [(st, polled param)] = 1%nat) as -> by done.
  cbn [take drop process_all process_one]. assert (method (polled param) = LongPoll) as -> by done.
  destruct (processLongPollRequest _ _ _ _) as [[[m c'] s']| |]; done.
Qed.

(** ** What it is answered with *)

Definition alternatives : list (bytes * bytes) := if is_nil altSvc then [] else [(str "alt-svc", altSvc)].

Lemma alt_header_http2 s : kind s = Http2 → alt_header s = alternatives.
Proof. intros Hk. unfold alt_header, alternatives. rewrite Hk. by destruct altSvc. Qed.

Definition redirection (i st : Z) : submission :=
  mksubmission st
    ([(str ":status", str "302"); (str "access-control-allow-origin", str "*")] ++ alternatives
     ++ [(str "location", RestLink.poll_reference svc (to_dec i)); (str "content-length", str "0")]) None.

Definition publication (i : Z) (m : message) (st : Z) : submission :=
  mksubmission st
    ([(str ":status", str "200"); (str "x-opencmw-topic", u_str (Message.topic m));
      (str "x-opencmw-service-name", Message.serviceName m); (str "access-control-allow-origin", str "*");
      (str "content-length", to_dec (Z.of_nat (length (message_text m))))] ++ alternatives
     ++ [index_header i; (str "x-timestamp", to_dec timestamp)])
    (Some (Owned (message_text m))).

(** A session that has sent something on a new stream. *)
Definition sends (x : submission) (s s' : session) : Prop :=
  core s' = core s ∧ submitted s' = submitted s ++ [x]
  ∧ ∀ k, k ≠ s_stream x → responses s' !! k = responses s !! k.

Lemma submit_sends x d s :
  sends x s (submit x (set_responses (<[s_stream x := d]> (responses s)) s)).
Proof using accepts_ok.
  unfold submit. rewrite accepts_ok. split; [done|]. split; [done|]. intros k Hk. simpl. by apply lookup_insert_ne.
Qed.

Lemma redirect_sends st i s :
  kind s = Http2 → responses s !! st = None →
  ∃ s', respondWithLongPollingRedirect st (RestLink.service_uri svc) i None s = Ret s' ∧ sends (redirection i st) s s'.
Proof using walk_ok accepts_ok Hv.
  intros Hk Hn. unfold respondWithLongPollingRedirect, with_queryMap, factory_of_uri, RestLink.service_uri.
  assert (HW : walk (redirect_query i None) = [(RestLink.key, Some (to_dec i))]) by exact (walk_one _ _). rewrite HW. cbn [u_authority u_scheme u_path u_query u_fragment f_authority f_scheme f_user f_pwd f_host f_port f_path f_query f_fragment].
  pose proof (build_buildable _ (RestLink.relative_buildable svc Hv [(RestLink.key, Some (to_dec i))])) as HB.
  unfold build in *. rewrite (RestLink.relative_text svc Hv) in HB by apply RestLink.plain_to_dec. unfold RestLink.relative in HB.
  pose proof (RestLink.relative_text svc Hv (to_dec i) (RestLink.plain_to_dec i)) as HT. unfold RestLink.relative in HT. rewrite HT, HB. cbn [of_result mbind run_bind u_str].
  eexists. split; [reflexivity|]. unfold sendResponse, emplace_response. rewrite Hn. cbn [d_rest body body_source].
  rewrite (alt_header_http2 s Hk), Hk. apply (submit_sends (redirection i st)).
Qed.

Lemma publish_sends st i m s :
  kind s = Http2 → responses s !! st = None → sends (publication i m st) s (respondToLongPoll st i m s).
Proof using accepts_ok.
  intros Hk Hn. unfold respondToLongPoll, sendMessage, emplace_response. rewrite Hn. cbn [d_message].
  rewrite (alt_header_http2 s Hk).
  apply (submit_sends (publication i m st)).
Qed.

(** ** The server with its only client *)

Context (fd : Z).

(** Nothing has been sent on the streams from [top] on. *)
Record serves (H : histories) (polls : list PendingPoll) (subs : list submission) (top : Z) (v : server) : Prop := {
  sv_session : ∃ s, h2Sessions v = [(fd, mktcp Socket.Connected s)] ∧ kind s = Http2 ∧ requests s = [] ∧ pendingPolls s = polls
    ∧ submitted s = subs ∧ ∀ k, top ≤ k → responses s !! k = None;
  sv_quic : h3Sessions v = [];
  sv_handlers : handlers v = [];
  sv_cache : subscriptionCache v = caches H
}.

Lemma topic_uri : toMdpTopic (RestLink.service_topic svc) = Ret (RestLink.service_uri svc).
Proof using walk_ok Hv.
  unfold toMdpTopic, Topic.toMdpTopic. cbn [Topic._params Topic._service RestLink.service_topic]. rewrite walk_none.
  pose proof (RestLink.build_service svc Hv) as HB. unfold RestLink.relative in HB. by rewrite HB.
Qed.

Definition with_poll_session (s : session) (H : histories) (v : server) : server :=
  mkserver [(fd, mktcp Socket.Connected (set_requests [] s))] [] (h3Objects v) (caches H) [] (nextRequestId v).

Lemma arrival_is_poll H polls subs top v st param index s :
  serves H polls subs top v → h2Sessions v = [(fd, mktcp Socket.Connected s)] → requests s = [] →
  all_fit H → RestLink.plain param → parse_index (polled param) = inl index →
  handle (RestLink.arrival fd st (poll_headers param)) v
  = '(m, H', s') ← poll_spec st (polled param) index single H (set_requests [(st, polled param)] s);
    Ret (match m with Some m => [m] | None => [] end, with_poll_session s' H' v).
Proof using walk_ok Hv.
  intros [_ Sq Sh Sc] Hses Hreq Hf Hp Hi. unfold handle, RestLink.arrival, process_tcp. rewrite Hses, lookup_key_single.
  cbn [of_option mbind run_bind t_state t_session Socket.isReady negb io_write io_read read_loop r_call r_calls r_ok Socket.ret Socket.again].
  rewrite Sh, poll_arrives by done. cbn [mbind run_bind negb Z.leb Z.ltb Z.eqb read_size Z.compare Pos.compare Pos.compare_cont andb Pos.eqb].
  unfold collect. rewrite poll_taken by done.
  rewrite Sc, (poll_refines st (polled param) index single H) by (done || by destruct index).
  destruct (poll_spec _ _ _ _ _ _) as [[[m H'] s']| |]; [|done|done]. cbn.
  unfold put_session, set_nextRequestId, set_cache, set_h2. cbn [h2Sessions h3Sessions h3Objects subscriptionCache handlers nextRequestId].
  rewrite Hses, update_key_single, Sq, Sh. done.
Qed.

Lemma serves_sent s s' x H polls subs top v st r :
  kind s = Http2 → pendingPolls s = polls → submitted s = subs → (∀ k, top ≤ k → responses s !! k = None) →
  top ≤ s_stream x → sends x (set_requests [(st, r)] s) s' →
  serves H polls (subs ++ [x]) (s_stream x + 1) (with_poll_session s' H v).
Proof.
  intros Hk Hp Hs Hn Ht ([= Ek _ _ Ep] & Es & Er). cbn in Ek, Ep, Es, Er. split; [|done..].
  exists (set_requests [] s'). cbn. split_and!; [done|by rewrite Ek|done|by rewrite Ep|by rewrite Es, Hs|].
  intros k Hle. rewrite Er by lia. apply Hn. lia.
Qed.

Lemma index_next : parse_index (polled (str "Next")) = inl None.
Proof. reflexivity. Qed.

Lemma to_dec_not_word i w : is_dec_char (hd "0"%char w) = false → to_dec i ≠ w.
Proof.
  intros Hw E. pose proof (to_dec_chars i) as HF. rewrite E in HF. destruct w; [done|]. inversion HF. simpl in Hw. congruence.
Qed.

Lemma index_number i : in_u 64 i → parse_index (polled (to_dec i)) = inl (Some i).
Proof.
  intros Hi. unfold parse_index, is_index. cbn [longPollIndex polled].
  rewrite !bool_decide_false by (intros [= E]; by apply to_dec_not_word in E). cbn [negb andb default]. cbv zeta. change (id ?x) with x.
  by rewrite (LongPolling.parseUnsigned_to_dec i Hi).
Qed.

(** The first poll asks for the next notification. *)
Lemma next_asked subs top v st :
  serves ∅ [] subs top v → top ≤ st →
  ∃ ms v', handle (RestLink.arrival fd st (poll_headers (str "Next"))) v = Ret (ms, v')
    ∧ serves {[topic_key := []]} [] (subs ++ [redirection 0 st]) (st + 1) v'.
Proof using walk_ok accepts_ok Hv.
  intros HS Ht. destruct (sv_session _ _ _ _ _ HS) as (s & E1 & E2 & E3 & E4 & E5 & E6).
  rewrite (arrival_is_poll _ _ _ _ _ st _ None s HS E1 E3) by (done || exact RestLink.plain_Next).
  unfold poll_spec. cbn [topic polled]. 
  assert (HL : (∅ : histories) !! Topic.toZmqTopic true (RestLink.service_topic svc) = None) by exact (lookup_empty _).
  rewrite HL, topic_uri. cbn [mbind run_bind].
  unfold poll_reply. cbn [topic polled longPollBatch]. rewrite topic_uri. cbn [mbind run_bind].
  destruct (redirect_sends st 0 (set_requests [(st, polled (str "Next"))] s) E2) as (s' & HR & HX); [by apply E6|].
  change (redirect_target (polled (str "Next")) []) with 0. rewrite HR. cbn [mbind run_bind].
  do 2 eexists. split; [reflexivity|]. exact (serves_sent _ _ (redirection 0 st) _ _ _ _ _ _ _ E2 E4 E5 E6 Ht HX).
Qed.

(** A poll with an index: too old, there, or still to come. *)
Lemma index_asked hs subs top v st i :
  serves {[topic_key := hs]} [] subs top v → top ≤ st → fits hs → in_u 64 i → i ≤ total hs →
  ∃ ms v', handle (RestLink.arrival fd st (poll_headers (to_dec i))) v = Ret (ms, v')
    ∧ if i <? oldest hs then serves {[topic_key := hs]} [] (subs ++ [redirection (total hs) st]) (st + 1) v'
      else if i <? total hs then ∃ m, hs !! Z.to_nat i = Some m ∧ serves {[topic_key := hs]} [] (subs ++ [publication i m st]) (st + 1) v'
      else serves {[topic_key := hs]} [mkpoll topic_key i single st] subs top v'.
Proof using walk_ok accepts_ok Hv.
  intros HS Ht Hf Hi Hle. destruct (sv_session _ _ _ _ _ HS) as (s & E1 & E2 & E3 & E4 & E5 & E6).
  rewrite (arrival_is_poll _ _ _ _ _ st _ (Some i) s HS E1 E3)
    by (apply RestLink.plain_to_dec || by apply index_number || by apply map_Forall_singleton).
  unfold poll_spec. cbn [topic polled]. assert (HL : ({[topic_key := hs]} : histories) !! Topic.toZmqTopic true (RestLink.service_topic svc) = Some hs)
    by exact (lookup_singleton_eq _ _). rewrite HL.
  unfold poll_reply, poll_answer. cbn [mode single topic polled]. set (s0 := set_requests _ s).
  destruct (Z.ltb_spec i (oldest hs)).
  { cbn [deliver]. rewrite topic_uri. cbn [mbind run_bind].
    destruct (redirect_sends st (total hs) s0 E2) as (s' & HR & HX); [by apply E6|]. rewrite HR. cbn [mbind run_bind].
    do 2 eexists. split; [reflexivity|]. exact (serves_sent _ _ (redirection (total hs) st) _ _ _ _ _ _ _ E2 E4 E5 E6 Ht HX). }
  destruct (Z.ltb_spec i (total hs)).
  { destruct (lookup_lt_is_Some_2 hs (Z.to_nat i)) as [m Hm]; [unfold in_u, total in *; lia|]. rewrite Hm. cbn [fmap option_fmap option_map deliver hand_over mbind run_bind].
    do 2 eexists. split; [reflexivity|]. exists m. split; [done|].
    exact (serves_sent _ _ (publication i m st) _ _ _ _ _ _ _ E2 E4 E5 E6 Ht (publish_sends st i m s0 E2 (E6 _ Ht))). }
  cbn [mbind run_bind]. do 2 eexists. split; [reflexivity|]. split; [|done..].
  eexists. split; [reflexivity|]. cbn. rewrite E4. split_and!; try done.
Qed.

(** ** Notifications *)

(** What may wait: the poll for the next notification. *)
Definition waiting_poll (hs : list message) (st : Z) : PendingPoll := mkpoll topic_key (total hs) single st.

Lemma next_waits hs st : fits hs → waits hs (waiting_poll hs st).
Proof.
  intros Hf. pose proof (oldest_bounds hs). split; [|done|unfold in_u, fits in *; simpl; lia].
  unfold poll_answer. cbn [mode single waiting_poll p_batch p_index].
  rewrite (proj2 (Z.ltb_ge _ _)) by lia. by rewrite Z.ltb_irrefl.
Qed.

Lemma next_answered hs m st :
  answered topic_key (hs ++ [m]) (waiting_poll hs st) = Some (One (total hs) m).
Proof.
  unfold answered. cbn [p_topic waiting_poll p_batch p_index]. rewrite bool_decide_true by done.
  unfold poll_answer. cbn [mode single]. pose proof (oldest_bounds (hs ++ [m])). unfold oldest. rewrite total_snoc.
  pose proof (total_nonneg hs). rewrite (proj2 (Z.ltb_ge _ _)) by lia. rewrite (proj2 (Z.ltb_lt _ _)) by lia.
  rewrite lookup_app_r by (unfold total; lia). unfold total. by rewrite Nat2Z.id, Nat.sub_diag.
Qed.

Lemma serves_ok hs polls subs top v :
  serves {[topic_key := hs]} polls subs top v → fits hs → (polls = [] ∨ ∃ st, polls = [waiting_poll hs st]) →
  server_ok {[topic_key := hs]} v.
Proof.
  intros [(s & E1 & _ & _ & E4 & _) Sq _ Sc] Hf Hp. split; [done| |by rewrite Sq]. rewrite E1. constructor; [|constructor]. cbn.
  unfold session_ok. rewrite E4. destruct Hp as [->|[st ->]]; constructor; [|constructor].
  exists hs. split; [exact (lookup_singleton_eq _ _)|by apply next_waits].
Qed.

Lemma told_server hs polls subs top v m s :
  serves {[topic_key := hs]} polls subs top v → fits (hs ++ [m]) → (polls = [] ∨ ∃ st, polls = [waiting_poll hs st]) →
  h2Sessions v = [(fd, mktcp Socket.Connected s)] →
  ∃ v', handle (Notification (RestLink.service_topic svc) m) v = Ret ([], v')
    ∧ h2Sessions v' = [(fd, mktcp Socket.Connected (notified topic_key (hs ++ [m]) s))]
    ∧ h3Sessions v' = [] ∧ handlers v' = [] ∧ subscriptionCache v' = caches {[topic_key := hs ++ [m]]}.
Proof.
  intros HS Hf Hp Hses. assert (Hf0 : fits hs) by (unfold fits in *; rewrite total_snoc in Hf; lia).
  unfold handle. rewrite (notification_refines {[topic_key := hs]} v (RestLink.service_topic svc) m hs);
    [|by eapply serves_ok|exact (lookup_singleton_eq _ _)|done].
  destruct HS as [_ Sq Sh _]. eexists. split; [reflexivity|]. cbn. rewrite Hses, Sq. split_and!; try done.
  f_equal. exact (insert_singleton_eq _ _ _).
Qed.

Lemma told_idle hs subs top v m :
  serves {[topic_key := hs]} [] subs top v → fits (hs ++ [m]) →
  ∃ v', handle (Notification (RestLink.service_topic svc) m) v = Ret ([], v')
    ∧ serves {[topic_key := hs ++ [m]]} [] subs top v'.
Proof.
  intros HS Hf. destruct (sv_session _ _ _ _ _ HS) as (s & E1 & E2 & E3 & E4 & E5 & E6).
  destruct (told_server _ _ _ _ _ m s HS Hf (or_introl eq_refl) E1) as (v' & HH & A1 & A2 & A3 & A4).
  exists v'. split; [done|]. split; [|done..]. eexists. split; [exact A1|]. unfold notified. rewrite E4. done.
Qed.

Lemma told_waiting hs subs top v m st :
  serves {[topic_key := hs]} [waiting_poll hs st] subs top v → top ≤ st → fits (hs ++ [m]) →
  ∃ v', handle (Notification (RestLink.service_topic svc) m) v = Ret ([], v')
    ∧ serves {[topic_key := hs ++ [m]]} [] (subs ++ [publication (total hs) m st]) (st + 1) v'.
Proof using accepts_ok.
  intros HS Ht Hf. destruct (sv_session _ _ _ _ _ HS) as (s & E1 & E2 & E3 & E4 & E5 & E6).
  destruct (told_server _ _ _ _ _ m s HS Hf (or_intror (ex_intro _ st eq_refl)) E1) as (v' & HH & A1 & A2 & A3 & A4).
  exists v'. split; [done|]. split; [|done..]. eexists. split; [exact A1|].
  unfold notified, answer_all, waiting_on. rewrite E4. cbn [foldl]. rewrite next_answered. cbn [hand_over p_stream waiting_poll].
  destruct (publish_sends st (total hs) m s E2 (E6 _ Ht)) as ([= Ek Er _ _] & Es & Eo).
  rewrite filter_cons, decide_False by by rewrite next_answered. cbn. split_and!; [congruence|congruence|done|congruence|].
  intros k Hle. rewrite Eo by (cbn; lia). apply E6. lia.
Qed.

Lemma told_unknown polls subs top v m :
  serves ∅ polls subs top v → handle (Notification (RestLink.service_topic svc) m) v = Ret ([], v).
Proof.
  intros [_ _ _ Sc]. unfold handle, handleNotification. rewrite Sc.
  assert (HL : caches ∅ !! Topic.toZmqTopic true (RestLink.service_topic svc) = None).
  { etransitivity; [apply lookup_fmap|]. exact (f_equal (fmap entry_of) (lookup_empty _)). }
  by rewrite HL.
Qed.
End asked.
