(* ===== verification/RestHear.v ===== *)
(** * RestHear: what the answers of a server are for the client

    The client of [RestClient] when it follows one topic: there is one request on
    its way.  A redirection makes it ask again; a notification is handed to the
    callback, and makes it ask for the next one. *)

From S2P Require Import Prelude Text Uri Outcome RestClient RestLink.
From S2P Require Topic Message Client LongPolling Rest RestSpec RestAsk.
Local Open Scope Z_scope.

Lemma erase_key_single {A} k k' (x : A) : k ≠ k' → Rest.erase_key k [(k', x)] = [(k', x)].
Proof. intros Hne. unfold Rest.erase_key. rewrite filter_cons. by rewrite decide_True. Qed.

(** After a new stream has been added, the old one goes. *)
Lemma erase_old {A} k k' (x y : A) : k < k' → Rest.erase_key k (Rest.insert_key k' y [(k, x)]) = [(k', y)].
Proof.
  intros Hlt. simpl. rewrite (proj2 (Z.ltb_ge k' k)) by lia. unfold Rest.erase_key.
  rewrite !filter_cons. simpl. rewrite decide_False by naive_solver. by rewrite decide_True by (simpl; lia).
Qed.

Section client.
Context `{env : Rest.Environment} `{lib : Library}
  (walk_ok : ∀ m, walk m ≡ₚ map_to_list m)
  (streams_ok : ∀ l, 0 ≤ submit_answer l ∧ ∀ st h d, Submitted st h d ∈ l → st < submit_answer l).
Context (svc scheme authority : bytes) (Hv : Topic.isValidServiceName svc = true)
  (Hs : scheme ≠ [] ∧ Forall (λ c, is_alnum c = true) scheme)
  (Ha : authority ≠ [] ∧ Forall (λ c, is_authority_char c = true) authority).

(** A subscription to the topic, with a callback. *)
Record follows (c : command) (cb : nat) : Prop := {
  follows_command : command_of c = Message.Subscribe;
  follows_topic : topic_of c = base_uri svc scheme authority;
  follows_callback : Client.callback c = Some cb;
  follows_data : Message.data (Client.cmd c) = []
}.

Definition K : bytes := svc ++ str "#".

Lemma walk_empty : walk ∅ = [].
Proof using walk_ok. pose proof (walk_ok ∅) as HP. rewrite map_to_list_empty in HP. by apply Permutation_nil_r in HP. Qed.

Lemma base_params : query_params (base_uri svc scheme authority) = Ok ∅.
Proof. done. Qed.

Lemma base_no_batch : usesLongPollingBatch (base_uri svc scheme authority) = Ok false.
Proof. done. Qed.

Lemma base_key : subscriptionKey (base_uri svc scheme authority) = Ok K.
Proof using walk_ok Hv Hs Ha.
  unfold subscriptionKey. rewrite base_params. cbn [rbind]. rewrite !delete_empty.
  unfold set_query. rewrite walk_empty. unfold with_queryMap. cbn [u_authority u_scheme u_path u_fragment base_uri].
  pose proof (build_base svc Hv scheme authority Hs Ha) as HB. unfold absolute in HB. rewrite HB. cbn [rbind].
  unfold base_uri. by rewrite (topic_of_service svc Hv).
Qed.

Definition poll_text (param : bytes) : uri :=
  mkuri (base_text svc scheme authority ++ "?"%char :: poll_query param) scheme authority svc (poll_query param) [].

(** The poll that is sent. *)
Definition host : bytes := a_host (parseAuthority authority).
Definition headers_of (param : bytes) : list (bytes * bytes) := RestAsk.poll_headers svc scheme host param.

Definition poll_rr (c : command) : RequestResponse := mkrr (without_data c) None K [] [] None [] empty_message.

Lemma poll_topic_base param : plain param → poll_topic (base_uri svc scheme authority) param = Ok (poll_text param).
Proof using Hv Hs Ha.
  intros Hp. unfold poll_topic. destruct Hp as [Hne Hp]. assert (is_nil param = false) as -> by by destruct param.
  unfold with_queryMap. cbn [u_authority u_scheme u_path u_fragment u_query base_uri].
  exact (build_poll svc Hv scheme authority Hs Ha param (conj Hne Hp)).
Qed.

Lemma submit_poll c cb mode idx param s :
  follows c cb → long_poll_param mode idx = param → plain param →
  Rest.lookup_key (submit_answer (log s)) (requests s) = None →
  submitRequest c mode [] idx s
  = Ret (set_requests (Rest.insert_key (submit_answer (log s)) (poll_rr c) (requests s))
           (add_log [Submitted (submit_answer (log s)) (headers_of param) None] s)).
Proof using walk_ok streams_ok Hv Hs Ha.
  intros [F1 F2 F3 F4] Hparam Hp Hnew. unfold submitRequest. rewrite F2, Hparam, poll_topic_base by done. cbn [of_result mbind run_bind].
  rewrite F4. cbn [is_nil]. destruct (streams_ok (log s)) as [Hst _]. rewrite (proj2 (Z.ltb_ge _ 0)) by done.
  unfold emplace_request. cbn [requests add_log body]. rewrite Hnew.
  unfold request_headers, poll_rr, headers_of, RestAsk.poll_headers, normalized_topic. rewrite F1, F2. cbn [is_nil app].
  rewrite bool_decide_true by done. rewrite base_key. rewrite bool_decide_false by done.
  unfold poll_text. rewrite (poll_path svc Hv). done.
Qed.

(** ** A client that follows *)

(** The client in between: one request on its way or waiting, and what was last. *)
Record following (c : command) (cb : nat) (st : Z) (lastIdx : option Z) (s : session) : Prop := {
  f_subs : subscriptions s = {[K := mksub c Next lastIdx [Some cb]]};
  f_reqs : requests s = [(st, poll_rr c)];
  f_known : ∃ h d, Submitted st h d ∈ log s
}.

Definition next_stream (s : session) : Z := submit_answer (log s).

Lemma next_stream_lt c cb st l s : following c cb st l s → st < next_stream s.
Proof using streams_ok. intros [_ _ (h & d & Hin)]. by apply (proj2 (streams_ok (log s)) st h d). Qed.

(** What is left of a request when its headers and data have come. *)
Definition filled (c : command) (status location : bytes) (idx : option Z) (data : bytes) (m : message) : RequestResponse :=
  mkrr (without_data c) None K status location idx data m.

Lemma without_data_follows c cb : follows c cb →
  command_of (without_data c) = Message.Subscribe ∧ topic_of (without_data c) = base_uri svc scheme authority
  ∧ Client.callback (without_data c) = Some cb.
Proof. by intros [F1 F2 F3 F4]. Qed.

(** ** What comes on the stream *)

Definition with_rr (st : Z) (r : RequestResponse) (s : session) : session := set_requests [(st, r)] s.

Lemma on_stream_single st f r s : on_stream st f (with_rr st r s) = with_rr st (f r) s.
Proof. unfold on_stream, with_rr. cbn [requests set_requests]. rewrite RestAsk.update_key_single. by destruct s. Qed.

Lemma call_all_app a b s : call_all (a ++ b) s = s' ← call_all a s; call_all b s'.
Proof. revert s. induction a as [|x a IH]; intros s; simpl; [by destruct (call_all b s)|]. destruct (call_back x s); simpl; auto. Qed.

Lemma header_call st name value ok s s' : addHeader st name value s = (ok, s') → call_all [Header st name value] s = Ret s'.
Proof. intros E. simpl. by rewrite E. Qed.

Lemma alternatives_ignored st s : call_all ((λ h, Header st h.1 h.2) <$> RestAsk.alternatives) s = Ret s.
Proof. unfold RestAsk.alternatives. by destruct (is_nil Rest.altSvc). Qed.

Lemma status_header st value c loc idx data m s code :
  addHeader st (str ":status") value (with_rr st (filled c code loc idx data m) s) = (true, with_rr st (filled c value loc idx data m) s).
Proof. unfold addHeader. rewrite bool_decide_true by done. by rewrite on_stream_single. Qed.

Lemma location_header st value c loc idx data m s code :
  addHeader st (str "location") value (with_rr st (filled c code loc idx data m) s) = (true, with_rr st (filled c code value idx data m) s).
Proof. unfold addHeader. rewrite bool_decide_false, bool_decide_true by done. by rewrite on_stream_single. Qed.

Lemma topic_header st value u c loc idx data m s code :
  parseURI STRICT value = Ok u →
  addHeader st (str "x-opencmw-topic") value (with_rr st (filled c code loc idx data m) s)
  = (true, with_rr st (filled c code loc idx data (set_contents u (Message.serviceName m) (Message.data m) (Message.error m) m)) s).
Proof.
  intros Hu. unfold addHeader. do 2 rewrite bool_decide_false by done. rewrite bool_decide_true, Hu by done. by rewrite on_stream_single.
Qed.

Lemma service_header st value c loc idx data m s code :
  addHeader st (str "x-opencmw-service-name") value (with_rr st (filled c code loc idx data m) s)
  = (true, with_rr st (filled c code loc idx data (set_contents (Message.topic m) value (Message.data m) (Message.error m) m)) s).
Proof.
  unfold addHeader. do 3 rewrite bool_decide_false by done. rewrite bool_decide_true by done. by rewrite on_stream_single.
Qed.

Lemma index_header st i c loc idx data m s code :
  in_u 64 i →
  addHeader st (str "x-opencmw-long-polling-idx") (to_dec i) (with_rr st (filled c code loc idx data m) s)
  = (true, with_rr st (filled c code loc (Some i) data m) s).
Proof.
  intros Hi. unfold addHeader. do 4 rewrite bool_decide_false by done. rewrite bool_decide_true, Client.from_chars_u_to_dec by done.
  by rewrite on_stream_single.
Qed.

Lemma other_header st name value s :
  name ∈ [str "access-control-allow-origin"; str "content-length"; str "x-timestamp"; str "alt-svc"] → addHeader st name value s = (true, s).
Proof. intros Hin. repeat (apply elem_of_cons in Hin as [->|Hin]; [done|]). by apply elem_of_nil in Hin. Qed.

(** ** A redirection is followed *)

Lemma asked_only c st s : requests s = [(st, poll_rr c)] → s = with_rr st (filled c [] [] None [] empty_message) s.
Proof. intros E. destruct s. cbn in *. by rewrite E. Qed.

Lemma redirection_read c i st s :
  requests s = [(st, poll_rr c)] →
  call_all ((λ h, Header st h.1 h.2) <$> Rest.s_headers (RestAsk.redirection svc i st)) s
  = Ret (with_rr st (filled c (str "302") (poll_reference svc (to_dec i)) None [] empty_message) s).
Proof.
  intros E. rewrite (asked_only _ _ _ E) at 1. unfold RestAsk.redirection. cbn [Rest.s_headers]. rewrite !fmap_app, !call_all_app.
  pose proof (alternatives_ignored st) as HA. set (alts := _ <$> RestAsk.alternatives) in *. clearbody alts.
  cbn [fmap list_fmap fst snd call_all call_back].
  rewrite status_header. cbn [snd mbind run_bind].
  rewrite other_header by set_solver. cbn [snd mbind run_bind]. rewrite call_all_app, HA. cbn [mbind run_bind fmap list_fmap fst snd call_all call_back].
  rewrite location_header. cbn [snd]. by rewrite other_header by set_solver.
Qed.

Lemma submit_beside c cb st r s i l :
  follows c cb → subscriptions s = {[K := mksub c Next l [Some cb]]} → st < next_stream s →
  submitRequest c Next [] (Some i) (with_rr st r s)
  = Ret (set_requests [(st, r); (next_stream s, poll_rr c)]
           (add_log [Submitted (next_stream s) (headers_of (to_dec i)) None] s)).
Proof using walk_ok streams_ok Hv Hs Ha.
  intros Hc Hsub Hlt. rewrite (submit_poll c cb Next (Some i) (to_dec i)); [|done|done|apply plain_to_dec|].
  - unfold with_rr, next_stream in *. cbn [requests log set_requests Rest.insert_key]. rewrite (proj2 (Z.ltb_ge _ _)) by lia. done.
  - unfold with_rr, next_stream in *. cbn [requests log set_requests Rest.lookup_key]. rewrite (proj2 (Z.eqb_neq _ _)) by lia. done.
Qed.

Lemma erase_beside st r new r' s x :
  st < new →
  erase_request st (erase_request st (set_requests [(st, r); (new, r')] (add_log x s))) = set_requests [(new, r')] (add_log x s).
Proof.
  intros Hlt. unfold erase_request. cbn [requests set_requests].
  pose proof (erase_old st new r r' Hlt) as HE. cbn [Rest.insert_key] in HE. rewrite (proj2 (Z.ltb_ge new st)) in HE by lia.
  rewrite HE, erase_key_single by lia. done.
Qed.

Lemma lookup_sub (x : Subscription) s : subscriptions s = {[K := x]} → subscriptions s !! K = Some x.
Proof. intros ->. exact (lookup_singleton_eq _ _). Qed.

Lemma reference_params i : location_params (poll_reference svc (to_dec i)) = Ok {[key := Some (to_dec i)]}.
Proof using Hv.
  unfold location_params. rewrite (parse_poll_reference svc Hv) by apply plain_to_dec. cbn [rbind]. unfold query_params, poll_uri.
  cbn [u_query]. by rewrite (read_poll_query svc _ _ _ _ (plain_to_dec i)).
Qed.

(** The session that has sent the next poll, before the old request is gone. *)
Definition asks_next (st : Z) (r : RequestResponse) (c : command) (i : Z) (s : session) : session :=
  set_requests [(st, r); (next_stream s, poll_rr c)] (add_log [Submitted (next_stream s) (headers_of (to_dec i)) None] s).

Lemma asks_next_following c cb st r i s l :
  subscriptions s = {[K := mksub c Next l [Some cb]]} → st < next_stream s →
  following c cb (next_stream s) l (erase_request st (erase_request st (asks_next st r c i s))).
Proof.
  intros Hsub Hst. unfold asks_next. rewrite erase_beside by done. split; [done|done|].
  do 2 eexists. cbn. apply elem_of_app. right. by apply list_elem_of_singleton.
Qed.

Lemma processed_redirect c cb st l s i :
  follows c cb → subscriptions s = {[K := mksub c Next l [Some cb]]} → st < next_stream s → in_u 64 i → i < 2 ^ 64 - 1 →
  let r := filled c (str "302") (poll_reference svc (to_dec i)) None [] empty_message in
  processResponse st (with_rr st r s) = Ret (true, erase_request st (asks_next st r c i s)).
Proof using walk_ok streams_ok Hv Hs Ha.
  intros Hc Hsub Hst Hi Hlt r. unfold processResponse. cbn [requests with_rr set_requests]. rewrite RestAsk.lookup_key_single.
  cbn [of_option mbind run_bind]. unfold r at 1. cbn [responseStatus filled]. rewrite bool_decide_true by done.
  unfold processRedirect. assert (location r = poll_reference svc (to_dec i)) as -> by done. rewrite reference_params.
  assert (HL : ({[key := Some (to_dec i)]} : gmap bytes (option bytes)) !! LongPolling.kIndexParameter = Some (Some (to_dec i)))
    by exact (lookup_singleton_eq _ _). rewrite HL, Client.from_chars_u_to_dec by done.
  unfold sendLongPollRequests. assert (normalizedTopic r = K) as -> by done. cbn [subscriptions with_rr set_requests].
  rewrite (lookup_sub _ s Hsub). unfold kParallelLongPollingRequests. change (S (Z.to_nat 1)) with 2%nat. cbn [send_polls].
  replace (i + 1 - 1) with i by lia. rewrite (wrapu_id 64 i) by done. rewrite Z.leb_refl. cbn [sub_request sub_mode].
  rewrite (submit_beside c cb st r s i l Hc Hsub Hst). cbn [mbind run_bind]. rewrite wrapu_id by (unfold in_u in *; lia).
  by rewrite (proj2 (Z.leb_gt (i + 1) i)) by lia.
Qed.

Lemma redirect_heard c cb st l s i :
  follows c cb → following c cb st l s → in_u 64 i → i < 2 ^ 64 - 1 →
  ∃ s', call_all (response_calls (RestAsk.redirection svc i st)) s = Ret s' ∧ following c cb (next_stream s) l s'
  ∧ log s' = log s ++ [Submitted (next_stream s) (headers_of (to_dec i)) None].
Proof using walk_ok streams_ok Hv Hs Ha.
  intros Hc Hf Hi Hlt. pose proof (next_stream_lt _ _ _ _ _ Hf) as Hst. destruct Hf as [F1 F2 F3].
  unfold response_calls. rewrite call_all_app. cbn [Rest.s_stream Rest.s_body RestAsk.redirection app].
  rewrite (redirection_read c) by done. cbn [mbind run_bind call_all call_back].
  rewrite (processed_redirect c cb st l s i) by done. cbn [mbind run_bind].
  eexists. split; [reflexivity|]. split; [by apply asks_next_following|done].
Qed.

(** ** A notification is handed over *)

Definition topic_read (m : Rest.message) : uri :=
  match parseURI STRICT (u_str (Message.topic m)) with Ok u => u | Throw _ => Message.root_topic end.

(** What the callback is called with for the notification of an index. *)
Definition handed (i : Z) (m : Rest.message) (l : option Z) : message :=
  Message.mkmsg (f := Message.WithoutSourceId) tt 0 now Message.default_timeout scheme Message.Notify (Message.serviceName m) []
    (topic_read m) (Rest.message_text m) (makeSkippedWarning l i) [].

(** The response, when it has come. *)
Definition heard (m : Rest.message) : message := set_contents (topic_read m) (Message.serviceName m) [] [] empty_message.

Lemma publication_read c i m st s :
  requests s = [(st, poll_rr c)] → in_u 64 i → is_ok (parseURI STRICT (u_str (Message.topic m))) = true →
  call_all ((λ h, Header st h.1 h.2) <$> Rest.s_headers (RestAsk.publication i m st)) s
  = Ret (with_rr st (filled c (str "200") [] (Some i) [] (heard m)) s).
Proof.
  intros E Hi Hu. rewrite (asked_only _ _ _ E) at 1. unfold RestAsk.publication. cbn [Rest.s_headers]. rewrite !fmap_app, !call_all_app.
  pose proof (alternatives_ignored st) as HA. set (alts := _ <$> RestAsk.alternatives) in *. clearbody alts.
  cbn [fmap list_fmap fst snd call_all call_back Rest.index_header].
  rewrite status_header. cbn [snd mbind run_bind]. unfold heard, topic_read. destruct (parseURI STRICT _) as [u|] eqn:Eu; [|done].
  rewrite (topic_header _ _ u) by done. cbn [snd mbind run_bind]. rewrite service_header. cbn [snd mbind run_bind].
  rewrite !other_header by set_solver. cbn [snd mbind run_bind].
  rewrite call_all_app, HA. cbn [mbind run_bind fmap list_fmap fst snd call_all call_back Rest.index_header].
  rewrite index_header by done. cbn [snd mbind run_bind]. rewrite other_header by set_solver. done.
Qed.

Lemma final_publication st r s i :
  responseStatus r = str "200" → is_batch_request (request r) = Ok false → command_of (request r) = Message.Subscribe →
  longPollingIdx r = Some i →
  processFinal st r s
  = s' ← handleSubscriptionResponse (normalizedTopic r) i (set_data (payload r) (response (fillResponse r))) false s;
    Ret (true, erase_request st s').
Proof.
  intros E1 E2 E3 E4. unfold processFinal. rewrite E1, E2, E3, E4, bool_decide_true by done.
  change (negb (starts_with (str "200") (str "2")) && negb (starts_with (str "200") (str "3"))) with false.
  cbn [of_result mbind run_bind]. done.
Qed.

Definition newer (l : option Z) (i : Z) : Prop := match l with Some l => l < i | None => True end.

Lemma handled_publication c cb l s i m st r :
  follows c cb → subscriptions s = {[K := mksub c Next l [Some cb]]} → st < next_stream s → 0 ≤ i < 2 ^ 64 - 1 → newer l i →
  handleSubscriptionResponse K i m false (with_rr st r s)
  = Ret (add_log [Called cb (set_error (makeSkippedWarning l i) m)]
       (asks_next st r c (i + 1) (put_subscription K (mksub c Next (Some i) [Some cb]) s))).
Proof using walk_ok streams_ok Hv Hs Ha.
  intros Hc Hsub Hst Hi Hnew. unfold handleSubscriptionResponse. cbn [subscriptions with_rr set_requests].
  rewrite (lookup_sub _ s Hsub). cbn [lastReceivedLongPollingIdx negb andb sub_request sub_mode].
  assert (match l with Some l0 => i <=? l0 | None => false end = false) as ->.
  { destruct l; [|done]. cbn in Hnew. by apply Z.leb_gt. }
  unfold set_last. cbn [sub_request sub_mode callbacks]. unfold kParallelLongPollingRequests. rewrite wrapu_id by (unfold in_u; lia).
  set (s1 := put_subscription K (mksub c Next (Some i) [Some cb]) s).
  assert (Hsub1 : subscriptions s1 = {[K := mksub c Next (Some i) [Some cb]]}).
  { unfold s1, put_subscription. cbn [subscriptions set_subscriptions]. rewrite Hsub. exact (insert_singleton_eq _ _ _). }
  pose proof (submit_beside c cb st r s1 (i + 1) (Some i) Hc Hsub1 Hst) as HSub.
  change (put_subscription K (mksub c Next (Some i) [Some cb]) (with_rr st r s)) with (with_rr st r s1). rewrite HSub. done.
Qed.

Lemma processed_publication c cb st l s i m :
  follows c cb → subscriptions s = {[K := mksub c Next l [Some cb]]} → st < next_stream s → 0 ≤ i < 2 ^ 64 - 1 → newer l i →
  let r := filled c (str "200") [] (Some i) (Rest.message_text m) (heard m) in
  processResponse st (with_rr st r s)
  = Ret (true, erase_request st (add_log [Called cb (handed i m l)]
       (asks_next st r c (i + 1) (put_subscription K (mksub c Next (Some i) [Some cb]) s)))).
Proof using walk_ok streams_ok Hv Hs Ha.
  intros Hc Hsub Hst Hi Hnew r. destruct (without_data_follows c cb Hc) as (W1 & W2 & W3).
  unfold processResponse. cbn [requests with_rr set_requests]. rewrite RestAsk.lookup_key_single. cbn [of_option mbind run_bind].
  assert (responseStatus r = str "200") as Er by done. assert (longPollingIdx r = Some i) as -> by done. rewrite Er.
  rewrite !bool_decide_false by done. rewrite (final_publication st r _ i); [|done| |done|done].
  2: { unfold is_batch_request. cbn [r request filled]. by rewrite W1, W2, bool_decide_true. }
  assert (normalizedTopic r = K) as -> by done. change (set_requests [(st, r)] s) with (with_rr st r s).
  rewrite (handled_publication c cb l s i _ st r) by done. cbn [mbind run_bind]. do 5 f_equal.
  unfold fillResponse, handed. cbn [r request filled]. rewrite W1, W2. done.
Qed.

Lemma publication_heard c cb st l s i m :
  follows c cb → following c cb st l s → 0 ≤ i < 2 ^ 64 - 1 → newer l i → is_ok (parseURI STRICT (u_str (Message.topic m))) = true →
  ∃ s', call_all (response_calls (RestAsk.publication i m st)) s = Ret s' ∧ following c cb (next_stream s) (Some i) s'
  ∧ log s' = log s ++ [Submitted (next_stream s) (headers_of (to_dec (i + 1))) None; Called cb (handed i m l)].
Proof using walk_ok streams_ok Hv Hs Ha.
  intros Hc Hf Hi Hnew Hu. pose proof (next_stream_lt _ _ _ _ _ Hf) as Hst. destruct Hf as [F1 F2 F3].
  unfold response_calls. rewrite call_all_app. cbn [Rest.s_stream Rest.s_body RestAsk.publication app].
  rewrite (publication_read c) by (done || unfold in_u; lia). cbn [mbind run_bind call_all call_back].
  unfold addData. rewrite on_stream_single.
  pose proof (processed_publication c cb st l s i m Hc F1 Hst Hi Hnew) as HP. cbv zeta in HP. unfold filled in *. cbn in HP |- *.
  rewrite HP. cbn [mbind run_bind]. set (s1 := put_subscription _ _ s).
  assert (Hsub1 : subscriptions s1 = {[K := mksub c Next (Some i) [Some cb]]}).
  { unfold s1, put_subscription. cbn [subscriptions set_subscriptions]. rewrite F1. exact (insert_singleton_eq _ _ _). }
  eexists. split; [reflexivity|]. unfold asks_next. set (r := mkrr _ _ _ _ _ _ _ _).
  change (add_log [Called cb (handed i m l)] (set_requests [(st, r); (next_stream s1, poll_rr c)]
            (add_log [Submitted (next_stream s1) (headers_of (to_dec (i + 1))) None] s1)))
    with (set_requests [(st, r); (next_stream s, poll_rr c)]
            (add_log [Called cb (handed i m l)] (add_log [Submitted (next_stream s) (headers_of (to_dec (i + 1))) None] s1))).
  rewrite erase_beside by done. cbn. rewrite <- app_assoc. split; [|done]. split; [done|done|].
  do 2 eexists. cbn. rewrite <- app_assoc. apply elem_of_app. right. by apply list_elem_of_here.
Qed.
End client.
