(* ===== verification/RestFollow.v ===== *)
(** * RestFollow: a client that follows a topic over REST

    The client and the server of [RestLink], whose loop of requests and responses
    hands the notifications of a topic to the callback: in their order, none twice,
    and with a warning that counts those that were no longer kept. *)

From S2P Require Import Prelude Text Uri Outcome RestServer RestSpec RestPolls RestClient RestLink RestAsk RestHear.
From S2P Require Topic Message Socket Client LongPolling Rest RestResults.
Local Open Scope Z_scope.

(** The notifications between the last that was handed over and the next. *)
Definition left_out (last : option Z) (i : Z) : Z := match last with Some l => i - l - 1 | None => 0 end.

Definition warning (n : Z) : bytes := if n =? 0 then [] else str "Warning: skipped " ++ to_dec n ++ str " samples".

(** What a client is given for a notification: its service, its topic, its data (the
    text of the error instead, if it has one), and how many were left out. *)
Definition given `{lib : Library} (scheme : bytes) (i : Z) (m : Rest.message) (last : option Z) : RestClient.message :=
  Message.mkmsg (f := Message.WithoutSourceId) tt 0 now Message.default_timeout scheme Message.Notify (Message.serviceName m) []
    match parseURI STRICT (u_str (Message.topic m)) with Ok u => u | Throw _ => Message.root_topic end
    (if is_nil (Message.error m) then Message.data m else Message.error m) (warning (left_out last i)) [].

Example warning_three : warning (left_out (Some 4) 8) = str "Warning: skipped 3 samples". Proof. reflexivity. Qed.

(** The index that comes after the last one: the next, or a later one if the next is
    no longer kept. *)
Definition next_of (hs : list Rest.message) (last : option Z) (i : Z) : Prop :=
  match last with Some l => i = l + 1 ∨ l + 1 < i ∧ l + 1 < oldest hs | None => True end.

(** The calls of the callback that hand over notifications of the history: each is
    newer than the one before, and says how many were left out, if the next was not
    kept. *)
Inductive delivered `{lib : Library} (scheme : bytes) (cb : nat) (hs : list Rest.message) : option Z → list (nat * RestClient.message) → Prop :=
  | delivered_none : delivered scheme cb hs None []
  | delivered_next l called i m :
      delivered scheme cb hs l called → next_of hs l i → 0 ≤ i → hs !! Z.to_nat i = Some m →
      delivered scheme cb hs (Some i) (called ++ [(cb, given scheme i m l)]).

Lemma next_newer hs last i : next_of hs last i → newer last i.
Proof. unfold next_of, newer. destruct last; lia. Qed.

Lemma next_more hs m last i : next_of hs last i → next_of (hs ++ [m]) last i.
Proof. unfold next_of, oldest. rewrite total_snoc. destruct last; lia. Qed.

Lemma next_later hs last i j : next_of hs last i → i < oldest hs → i < j → next_of hs last j.
Proof. unfold next_of. destruct last; lia. Qed.

Lemma delivered_more `{lib : Library} scheme cb hs m l called : delivered scheme cb hs l called → delivered scheme cb (hs ++ [m]) l called.
Proof. induction 1; econstructor; try done; [by apply next_more|by apply lookup_app_l_Some]. Qed.

Lemma delivered_bound `{lib : Library} scheme cb hs l called : delivered scheme cb hs l called → newer l (total hs).
Proof. destruct 1 as [|l called i m HD Hn Hi Hm]; [done|]. apply lookup_lt_Some in Hm. unfold total. simpl. lia. Qed.

Lemma handed_given `{lib : Library} scheme i m l :
  newer l i → match l with Some l => 0 ≤ l | None => True end → i < 2 ^ 64 → handed scheme i m l = given scheme i m l.
Proof.
  intros Hn Hl Hi. unfold handed, given, topic_read, Rest.message_text. f_equal. unfold makeSkippedWarning, warning, left_out.
  destruct l as [l|]; [|done]. simpl in Hn. rewrite !wrapu_id by (unfold in_u; lia).
  destruct (Z.leb_spec (i - l) 1); [rewrite (proj2 (Z.eqb_eq _ _)) by lia; done|]. by rewrite (proj2 (Z.eqb_neq _ _)) by lia.
Qed.

Lemma delivered_last `{lib : Library} scheme cb hs l called :
  delivered scheme cb hs l called → match l with Some l => 0 ≤ l | None => True end.
Proof. by destruct 1. Qed.

Section follow.
Context `{env : Rest.Environment} `{lib : Library}
  (server_walk : ∀ m, Rest.walk m ≡ₚ map_to_list m) (client_walk : ∀ m, walk m ≡ₚ map_to_list m)
  (accepts_ok : ∀ l x, Rest.accepts l x = true)
  (streams_ok : ∀ l, 0 ≤ submit_answer l ∧ ∀ st h d, Submitted st h d ∈ l → st < submit_answer l).
Context (svc scheme authority : bytes) (Hv : Topic.isValidServiceName svc = true)
  (Hs : scheme ≠ [] ∧ Forall (λ c, is_alnum c = true) scheme)
  (Ha : authority ≠ [] ∧ Forall (λ c, is_authority_char c = true) authority).
Context (fd : Z) (c : command) (cb : nat) (Hc : follows svc scheme authority c cb).

Definition serving (H : histories) (polls : list Rest.PendingPoll) (subs : list Rest.submission) (st : Z) (v : server) : Prop :=
  ∃ top, top ≤ st ∧ serves fd H polls subs top v.

Definition history (hs : list Rest.message) : histories := {[topic_key svc := hs]}.

(** Where the one request is: on its way to the server, waiting there, or answered,
    with a redirection or a notification that is on its way. *)
Inductive place : Type := First | Poll (i : Z) | Waiting | Redirected (i : Z) | Published (i : Z).

Inductive phase (hs : list Rest.message) (last : option Z) (st : Z) : place → link → Prop :=
  | first_sent v s q subs :
      asked s = q ++ [(st, headers_of svc scheme authority (str "Next"))] → hs = [] → serving ∅ [] subs st v →
      phase hs last st First (mklink v s (length q) (length subs))
  | poll_sent v s q subs i :
      asked s = q ++ [(st, headers_of svc scheme authority (to_dec i))] → 0 ≤ i ≤ total hs → next_of hs last i →
      serving (history hs) [] subs st v → phase hs last st (Poll i) (mklink v s (length q) (length subs))
  | poll_waiting v s subs :
      next_of hs last (total hs) → serving (history hs) [waiting_poll svc hs st] subs st v → phase hs last st Waiting (mklink v s (length (asked s)) (length subs))
  | redirect_sent v s subs i :
      0 ≤ i ≤ total hs → next_of hs last i → serves fd (history hs) [] (subs ++ [redirection svc i st]) (st + 1) v →
      phase hs last st (Redirected i) (mklink v s (length (asked s)) (length subs))
  | message_sent v s subs i m :
      0 ≤ i → hs !! Z.to_nat i = Some m → next_of hs last i → serves fd (history hs) [] (subs ++ [publication i m st]) (st + 1) v →
      phase hs last st (Published i) (mklink v s (length (asked s)) (length subs)).

(** What the client has, and what holds of the history. *)
Record stands (l : link) (hs : list Rest.message) (last : option Z) (st : Z) (p : place) : Prop := {
  st_phase : phase hs last st p l;
  st_client : following svc c cb st last (cli l);
  st_called : delivered scheme cb hs last (called (cli l));
  st_topics : Forall (λ m, is_ok (parseURI STRICT (u_str (Message.topic m))) = true) hs;
  st_fits : total hs < 2 ^ 64 - 1
}.

Lemma server_session_serves H polls subs top v : serves fd H polls subs top v → ∃ s, server_session fd v = Some s ∧ Rest.submitted s = subs.
Proof. intros [(s & E & _ & _ & _ & Es & _) _ _ _]. exists s. unfold server_session. rewrite E, lookup_key_single. done. Qed.

Lemma asked_more s s' new h x : log s' = log s ++ Submitted new h None :: x → omap asked_of x = [] → asked s' = asked s ++ [(new, h)].
Proof.
  intros E Ex. unfold asked. rewrite E, (omap_app asked_of (log s)). f_equal.
  change ((new, h) :: omap asked_of x = [(new, h)]). by rewrite Ex.
Qed.

Lemma called_more s s' x : log s' = log s ++ x → called s' = called s ++ omap called_of x.
Proof. intros E. unfold called. by rewrite E, omap_app. Qed.

(** ** Something arrives at the server *)

Lemma sent_all {A} (q l : list A) x : l = q ++ [x] → S (length q) = length l.
Proof. intros ->. rewrite length_app. simpl. lia. Qed.

(** A step is what [link_request] needs, and what it makes. *)
Definition arrives (l : link) (hs : list Rest.message) (last : option Z) (st : Z) (ps : place → Prop) : Prop :=
  ∃ h ms v' p, asked (cli l) !! sent l = Some (st, h) ∧ handle (arrival fd st h) (srv l) = Ret (ms, v')
  ∧ stands (mklink v' (cli l) (S (sent l)) (got l)) hs last st p ∧ ps p.

Lemma first_arrives l hs last st : stands l hs last st First → arrives l hs last st (λ p, p = Redirected 0).
Proof using server_walk accepts_ok Hv.
  intros [S1 S2 S3 S4 S5]. inversion S1 as [v s q subs Hq Hh (top & Ht & HS) E1 E2| | | |]; subst. cbn in *.
  destruct (next_asked server_walk accepts_ok svc scheme (host authority) Hv fd subs top v st HS Ht) as (ms & v' & HH & HS').
  exists (headers_of svc scheme authority (str "Next")), ms, v', (Redirected 0). split_and!; [|done| |done].
  { cbn. by rewrite Hq, lookup_app_r, Nat.sub_diag by done. }
  split; try done. cbn. rewrite (sent_all _ _ _ Hq).
  apply redirect_sent; [done| |done]. inversion S3; [done|]. by rewrite lookup_nil in *.
Qed.

Lemma poll_reaches l hs last st i :
  stands l hs last st (Poll i) →
  arrives l hs last st (λ p, p = Redirected (total hs) ∧ i < total hs ∨ p = Published i ∧ i < total hs ∨ p = Waiting).
Proof using server_walk accepts_ok Hv.
  intros [S1 S2 S3 S4 S5]. inversion S1 as [|v s q subs j Hq Hi Hn (top & Ht & HS) E1 E2| | |]; subst. cbn in *.
  destruct (index_asked server_walk accepts_ok svc scheme (host authority) Hv fd hs subs top v st i HS Ht) as (ms & v' & HH & HS');
    [unfold fits; lia|unfold in_u; lia|lia|].
  pose proof (oldest_bounds hs) as Ho. unfold arrives. cbn. exists (headers_of svc scheme authority (to_dec i)), ms, v'.
  rewrite (sent_all _ _ _ Hq). assert (HL : asked s !! length q = Some (st, headers_of svc scheme authority (to_dec i))).
  { by rewrite Hq, lookup_app_r, Nat.sub_diag by done. }
  destruct (Z.ltb_spec i (oldest hs)); [|destruct (Z.ltb_spec i (total hs)) as [Hlt|Hge]].
  - exists (Redirected (total hs)). split_and!; [done|done| |left; split; [done|lia]].
    split; try done. apply redirect_sent; [lia| |done]. eapply next_later; [exact Hn|done|lia].
  - exists (Published i). split_and!; [done|done| |right; left; by split].
    split; try done. destruct HS' as (m & Hm & HS'). apply message_sent with m; [lia|done..].
  - assert (i = total hs) as -> by lia. exists Waiting. split_and!; [done|done| |by right; right].
    split; try done. apply poll_waiting; [done|]. by exists top.
Qed.

(** ** Something arrives at the client *)

Definition hears (l : link) (hs : list Rest.message) (ps : option Z → place → list (nat * RestClient.message) → Prop) : Prop :=
  ∃ s2 x s' last' st' p, server_session fd (srv l) = Some s2 ∧ Rest.submitted s2 !! got l = Some x
  ∧ call_all (response_calls x) (cli l) = Ret s' ∧ stands (mklink (srv l) s' (sent l) (S (got l))) hs last' st' p
  ∧ ps last' p (called s').

Lemma serving_next H subs x st v st' :
  serves fd H [] (subs ++ [x]) (st + 1) v → st < st' → serving H [] (subs ++ [x]) st' v.
Proof. intros HS Hlt. exists (st + 1). split; [lia|done]. Qed.

Lemma redirect_arrives l hs last st i :
  stands l hs last st (Redirected i) → hears l hs (λ last' p called', last' = last ∧ p = Poll i ∧ called' = called (cli l)).
Proof using client_walk streams_ok Hv Hs Ha Hc.
  intros [S1 S2 S3 S4 S5]. inversion S1 as [| | |v s subs j Hi Hn HS E1 E2|]; subst. cbn in *.
  pose proof (next_stream_lt streams_ok _ _ _ _ _ _ S2) as Hlt.
  destruct (redirect_heard client_walk streams_ok svc scheme authority Hv Hs Ha c cb st last s i Hc S2) as (s' & HC & HF & HL);
    [unfold in_u; lia|lia|].
  destruct (server_session_serves _ _ _ _ _ HS) as (s2 & Hs2 & Hsub).
  assert (Hcalled : called s' = called s) by (rewrite (called_more _ _ _ HL); apply app_nil_r).
  exists s2, (redirection svc i st), s', last, (next_stream s), (Poll i). split_and!; try done.
  { cbn. by rewrite Hsub, lookup_app_r, Nat.sub_diag by done. }
  cbn. split; try done; cbn; [|by rewrite Hcalled].
  rewrite (sent_all subs _ (redirection svc i st) eq_refl). apply poll_sent with (q := asked s); try done.
  - by apply (asked_more _ _ _ _ [] HL).
  - by eapply serving_next.
Qed.

Lemma message_arrives l hs last st i :
  stands l hs last st (Published i) →
  hears l hs (λ last' p called', last' = Some i ∧ p = Poll (i + 1) ∧
                ∃ m, hs !! Z.to_nat i = Some m ∧ called' = called (cli l) ++ [(cb, given scheme i m last)]).
Proof using client_walk streams_ok Hv Hs Ha Hc.
  intros [S1 S2 S3 S4 S5]. inversion S1 as [| | | |v s subs j m Hi Hm Hn HS E1 E2]; subst. cbn in *.
  pose proof (next_stream_lt streams_ok _ _ _ _ _ _ S2) as Hlt.
  assert (Hi2 : i < total hs) by (apply lookup_lt_Some in Hm; unfold total; lia).
  destruct (publication_heard client_walk streams_ok svc scheme authority Hv Hs Ha c cb st last s i m Hc S2) as (s' & HC & HF & HL);
    [lia|by eapply next_newer|by apply (Forall_lookup_1 _ _ _ _ S4 Hm)|].
  destruct (server_session_serves _ _ _ _ _ HS) as (s2 & Hs2 & Hsub).
  assert (Hcalled : called s' = called s ++ [(cb, given scheme i m last)]).
  { rewrite <- handed_given; [exact (called_more _ _ _ HL)|by eapply next_newer|by eapply delivered_last|lia]. }
  exists s2, (publication i m st), s', (Some i), (next_stream s), (Poll (i + 1)). split_and!; try done.
  { cbn. by rewrite Hsub, lookup_app_r, Nat.sub_diag by done. }
  2: by exists m.
  cbn. split; try done; cbn; [|rewrite Hcalled; by econstructor].
  rewrite (sent_all subs _ (publication i m st) eq_refl). apply poll_sent with (q := asked s); try done.
  - by apply (asked_more _ _ _ _ [Called cb (handed scheme i m last)] HL).
  - lia.
  - by left.
  - by eapply serving_next.
Qed.

(** ** A notification *)

(** What becomes of the place: a poll that waits is answered. *)
Definition told_place (hs : list Rest.message) (p : place) : place :=
  match p with Waiting => Published (total hs) | _ => p end.

Definition known (p : place) : bool := match p with First => false | _ => true end.

Lemma serves_known hs polls subs top v :
  serves fd (history hs) polls subs top v → bool_decide (is_Some (subscriptionCache v !! Topic.toZmqTopic true (service_topic svc))) = true.
Proof.
  intros [_ _ _ Sc]. apply bool_decide_eq_true. rewrite Sc. exists (entry_of hs). etransitivity; [apply lookup_fmap|].
  exact (f_equal (fmap entry_of) (lookup_singleton_eq (topic_key svc) hs)).
Qed.

Lemma serves_unknown polls subs top v :
  serves fd ∅ polls subs top v → bool_decide (is_Some (subscriptionCache v !! Topic.toZmqTopic true (service_topic svc))) = false.
Proof.
  intros [_ _ _ Sc]. apply bool_decide_eq_false. rewrite Sc. intros [e He].
  assert (HL : caches ∅ !! Topic.toZmqTopic true (service_topic svc) = None).
  { etransitivity; [apply lookup_fmap|]. exact (f_equal (fmap entry_of) (lookup_empty _)). }
  by pose proof (eq_trans (eq_sym He) HL).
Qed.

Lemma phase_told hs last st p v s n g m :
  phase hs last st p (mklink v s n g) → newer last (total hs) → total (hs ++ [m]) < 2 ^ 64 - 1 →
  ∃ v', handle (Notification (service_topic svc) m) v = Ret ([], v')
  ∧ bool_decide (is_Some (subscriptionCache v !! Topic.toZmqTopic true (service_topic svc))) = known p
  ∧ phase (if known p then hs ++ [m] else hs) last st (told_place hs p) (mklink v' s n g).
Proof using accepts_ok.
  intros HP Hlast Hm. assert (Hf : fits (hs ++ [m])) by (unfold fits; lia). pose proof (total_snoc hs m) as Ht.
  inversion HP as [v0 s0 q subs Hq Hh (top & Ht0 & HS) E1 E2|v0 s0 q subs i Hq Hi Hn (top & Ht0 & HS) E1 E2|v0 s0 subs Hn (top & Ht0 & HS) E1 E2
                  |v0 s0 subs i Hi Hn HS E1 E2|v0 s0 subs i m' Hi Hm' Hn HS E1 E2]; subst; cbn [known told_place].
  - exists v. split; [by eapply told_unknown|]. split; [by eapply serves_unknown|]. apply first_sent; [done|done|]. by exists top.
  - destruct (told_idle svc fd hs subs top v m HS Hf) as (v' & HH & HS'). exists v'. split; [done|]. split; [by eapply serves_known|].
    apply poll_sent; [done|lia|by apply next_more|]. by exists top.
  - destruct (told_waiting accepts_ok svc fd hs subs top v m st HS Ht0 Hf) as (v' & HH & HS'). exists v'. split; [done|].
    split; [by eapply serves_known|]. apply message_sent with m; [apply total_nonneg| |by apply next_more|done].
    unfold total. rewrite Nat2Z.id, lookup_app_r by done. by rewrite Nat.sub_diag.
  - destruct (told_idle svc fd hs _ _ v m HS Hf) as (v' & HH & HS'). exists v'. split; [done|]. split; [by eapply serves_known|].
    apply redirect_sent; [lia|by apply next_more|done].
  - destruct (told_idle svc fd hs _ _ v m HS Hf) as (v' & HH & HS'). exists v'. split; [done|]. split; [by eapply serves_known|].
    apply message_sent with m'; [done|by apply lookup_app_l_Some|by apply next_more|done].
Qed.

Lemma stands_told l hs last st p m :
  stands l hs last st p → is_ok (parseURI STRICT (u_str (Message.topic m))) = true → total (hs ++ [m]) < 2 ^ 64 - 1 →
  ∃ v', handle (Notification (service_topic svc) m) (srv l) = Ret ([], v')
  ∧ bool_decide (is_Some (subscriptionCache (srv l) !! Topic.toZmqTopic true (service_topic svc))) = known p
  ∧ stands (mklink v' (cli l) (sent l) (got l)) (if known p then hs ++ [m] else hs) last st (told_place hs p).
Proof using accepts_ok.
  intros [S1 S2 S3 S4 S5] Hu Hm. destruct l as [v s n g]. cbn in *.
  destruct (phase_told _ _ _ _ _ _ _ _ m S1 (delivered_bound _ _ _ _ _ S3) Hm) as (v' & HH & Hk & HP).
  exists v'. split; [done|]. split; [done|]. split; [done|done| | |]; destruct (known p); try done; cbn.
  - by apply delivered_more.
  - apply Forall_app_2; [done|]. by constructor.
Qed.

(** ** Every step *)

Abbreviation step := (link_step fd (service_topic svc)).

Lemma phase_sent hs last st p l : phase hs last st p l →
  match p with First | Poll _ => asked (cli l) !! sent l = Some (st, match p with Poll i => headers_of svc scheme authority (to_dec i) | _ => headers_of svc scheme authority (str "Next") end)
  | _ => asked (cli l) !! sent l = None end.
Proof.
  destruct 1 as [v s q subs Hq|v s q subs i Hq| | |]; cbn; try (by apply lookup_ge_None); by rewrite Hq, lookup_app_r, Nat.sub_diag by done.
Qed.

Lemma phase_got hs last st p l s2 : phase hs last st p l → server_session fd (srv l) = Some s2 →
  match p with Redirected _ | Published _ => True | _ => Rest.submitted s2 !! got l = None end.
Proof.
  intros HP E. destruct HP as [v s q subs _ _ (top & _ & HS)|v s q subs i _ _ _ (top & _ & HS)|v s subs _ (top & _ & HS)| |];
    try done; cbn in *; destruct (server_session_serves _ _ _ _ _ HS) as (s2' & E' & <-); rewrite E in E'; injection E' as ->; by apply lookup_ge_None.
Qed.

Lemma step_stands l hs l' hs' last st p :
  stands l hs last st p → step l hs l' hs' → ∃ last' st' p', stands l' hs' last' st' p'.
Proof using All.
  intros HS Hstep. inversion Hstep as [v s n g hs0 st0 h ms v' Ha0 Hh|v s n g hs0 s2 x s' Es Ex Hr|v s n g hs0 m ms v' Hu Hm Hh]; subst.
  - assert (HA : arrives (mklink v s n g) hs' last st (λ _, True)).
    { pose proof (phase_sent _ _ _ _ _ (st_phase _ _ _ _ _ HS)) as HP. cbn in HP. destruct p; try congruence.
      - destruct (first_arrives _ _ _ _ HS) as (? & ? & ? & ? & ? & ? & ? & ?). by do 4 eexists.
      - destruct (poll_reaches _ _ _ _ _ HS) as (? & ? & ? & ? & ? & ? & ? & ?). by do 4 eexists. }
    destruct HA as (h' & ms' & v'' & p' & HA1 & HA2 & HA3 & _). cbn in *. rewrite HA1 in Ha0. injection Ha0 as <- <-.
    rewrite HA2 in Hh. injection Hh as <- <-. by exists last, st, p'.
  - assert (HA : hears (mklink v s n g) hs' (λ _ _ _, True)).
    { pose proof (phase_got _ _ _ _ _ s2 (st_phase _ _ _ _ _ HS) Es) as HP. cbn in HP. destruct p; try congruence.
      - destruct (redirect_arrives _ _ _ _ _ HS) as (? & ? & ? & ? & ? & ? & ? & ? & ? & ? & ?). by do 6 eexists.
      - destruct (message_arrives _ _ _ _ _ HS) as (? & ? & ? & ? & ? & ? & ? & ? & ? & ? & ?). by do 6 eexists. }
    destruct HA as (s2' & x' & s'' & last' & st' & p' & HA1 & HA2 & HA3 & HA4 & _). cbn in *.
    rewrite Es in HA1. injection HA1 as <-. rewrite HA2 in Ex. injection Ex as <-. rewrite HA3 in Hr. injection Hr as <-.
    by exists last', st', p'.
  - destruct (stands_told _ _ _ _ _ m HS Hu Hm) as (v'' & HH & Hk & HS'). cbn in *. rewrite HH in Hh. injection Hh as <- <-.
    rewrite Hk. by exists last, st, (told_place hs p).
Qed.

Lemma linked_stands l hs l' hs' last st p :
  stands l hs last st p → linked fd (service_topic svc) l hs l' hs' → ∃ last' st' p', stands l' hs' last' st' p'.
Proof using All.
  intros HS HL. revert last st p HS. induction HL as [l hs|l hs l1 hs1 l2 hs2 _ IH Hstep]; intros last st p HS; [by exists last, st, p|].
  destruct (IH _ _ _ HS) as (last' & st' & p' & HS'). by eapply step_stands.
Qed.

(** ** The client catches up *)

Abbreviation quietly := (quiet fd (service_topic svc)).

Lemma arrives_step l hs last st ps :
  arrives l hs last st ps → ∃ l' p, step l hs l' hs ∧ stands l' hs last st p ∧ ps p.
Proof.
  destruct l as [v s n g]. intros (h & ms & v' & p & A1 & A2 & A3 & A4). cbn in *.
  exists (mklink v' s (S n) g), p. split_and!; [by eapply link_request|done|done].
Qed.

Lemma hears_step l hs ps :
  hears l hs ps → ∃ l' last' st' p, step l hs l' hs ∧ stands l' hs last' st' p ∧ ps last' p (called (cli l')).
Proof.
  destruct l as [v s n g]. intros (s2 & x & s' & last' & st' & p & A1 & A2 & A3 & A4 & A5). cbn in *.
  exists (mklink v s' n (S g)), last', st', p. split_and!; [by eapply link_response|done|done].
Qed.

Lemma quiet_cons l l1 l2 hs : step l hs l1 hs → quietly l1 l2 hs → quietly l l2 hs.
Proof. intros. by econstructor. Qed.

Definition drained (l : link) (hs : list Rest.message) : Prop := ∃ l' last' st', quietly l l' hs ∧ stands l' hs last' st' Waiting.

Lemma drained_step l l1 hs : step l hs l1 hs → drained l1 hs → drained l hs.
Proof. intros HS (l' & last' & st' & HQ & HW). exists l', last', st'. split; [by eapply quiet_cons|done]. Qed.

Lemma drains_poll n : ∀ l hs last st i, stands l hs last st (Poll i) → total hs - i ≤ Z.of_nat n → drained l hs.
Proof using All.
  induction n as [|n IH]; intros l hs last st i HS Hn;
    destruct (arrives_step _ _ _ _ _ (poll_reaches _ _ _ _ _ HS)) as (l1 & p & H1 & HS1 & Hp).
  - destruct Hp as [[_ Hp]|[[_ Hp]|Hp]]; [lia|lia|subst p]. apply (drained_step _ _ _ H1). exists l1, last, st. split; [constructor|done].
  - apply (drained_step _ _ _ H1). destruct Hp as [[-> Hp]|[[-> Hp]| ->]].
    + destruct (hears_step _ _ _ (redirect_arrives _ _ _ _ _ HS1)) as (l2 & last2 & st2 & p2 & H2 & HS2 & _ & -> & _).
      apply (drained_step _ _ _ H2). apply (IH _ _ _ _ _ HS2). lia.
    + destruct (hears_step _ _ _ (message_arrives _ _ _ _ _ HS1)) as (l2 & last2 & st2 & p2 & H2 & HS2 & _ & -> & _).
      apply (drained_step _ _ _ H2). apply (IH _ _ _ _ _ HS2). lia.
    + exists l1, last, st. split; [constructor|done].
Qed.

Lemma drains_poll_any l hs last st i : stands l hs last st (Poll i) → drained l hs.
Proof using All. intros HS. apply (drains_poll (Z.to_nat (total hs - i)) _ _ _ _ _ HS). lia. Qed.

Lemma drains_redirect l hs last st i : stands l hs last st (Redirected i) → drained l hs.
Proof using All.
  intros HS. destruct (hears_step _ _ _ (redirect_arrives _ _ _ _ _ HS)) as (l1 & last1 & st1 & p1 & H1 & HS1 & _ & -> & _).
  apply (drained_step _ _ _ H1). by eapply drains_poll_any.
Qed.

Lemma drains l hs last st p : stands l hs last st p → drained l hs.
Proof using All.
  intros HS. destruct p.
  - destruct (arrives_step _ _ _ _ _ (first_arrives _ _ _ _ HS)) as (l1 & p & H1 & HS1 & ->).
    apply (drained_step _ _ _ H1). by eapply drains_redirect.
  - by eapply drains_poll_any.
  - exists l, last, st. split; [constructor|done].
  - by eapply drains_redirect.
  - destruct (hears_step _ _ _ (message_arrives _ _ _ _ _ HS)) as (l1 & last1 & st1 & p1 & H1 & HS1 & _ & -> & _).
    apply (drained_step _ _ _ H1). by eapply drains_poll_any.
Qed.

(** ** The start *)

Lemma takes_no_index : takeInitialLongPollingIndex c Next = Ok (inl (None, c, Next)).
Proof using Hc. unfold takeInitialLongPollingIndex. rewrite (follows_topic _ _ _ _ _ Hc), base_params. reflexivity. Qed.

Lemma started : ∃ l0 st, start fd c = Ret l0 ∧ stands l0 [] None st First.
Proof using All.
  unfold start, startSubscription. rewrite takes_no_index. unfold start_key.
  rewrite (follows_topic _ _ _ _ _ Hc), base_no_batch, (base_key client_walk svc scheme authority Hv Hs Ha). cbn [rbind].
  assert (subscriptions RestClient.new_session !! K svc = None) as -> by exact (lookup_empty _).
  rewrite (follows_callback _ _ _ _ _ Hc).
  set (s0 := put_subscription _ _ _).
  rewrite (submit_poll client_walk streams_ok svc scheme authority Hv Hs Ha c cb Next None (str "Next") s0 Hc eq_refl plain_Next eq_refl).
  cbn [mbind run_bind]. eexists _, (submit_answer []). split; [reflexivity|]. split; cbn.
  - apply (first_sent [] None _ _ _ [] []); [done|done|]. exists 0. split; [apply streams_ok|]. split; [|done|done|].
    + eexists. split; [reflexivity|]. cbn. by split_and!.
    + symmetry. exact (fmap_empty _).
  - split; [exact (insert_empty _ _)|done|]. do 2 eexists. by apply list_elem_of_here.
  - constructor.
  - constructor.
  - done.
Qed.

(** C7: A client that subscribes over REST to a topic without parameters, with neither
    an index nor a batch in its address, alone on a TCP connection to a server without
    handlers and with libraries that take every response and give ascending streams,
    starts; and then, however its requests, the responses and the notifications of the
    topic follow one another (each arriving whole), its callback is called with
    notifications of the topic only, out of those since the server was first asked for
    it, in their order, none twice.  Each comes with its service, its topic and its data
    (an error comes as data), and with a warning that gives the number of those left out
    since the one before, when there are any; and there are only if the first of these
    was no longer kept. *)
Theorem subscription_in_order : ∃ l0, start fd c = Ret l0 ∧
  ∀ l hs, linked fd (service_topic svc) l0 [] l hs → ∃ last, delivered scheme cb hs last (called (cli l)).
Proof using All.
  destruct started as (l0 & st & E & HS). exists l0. split; [done|]. intros l hs HL.
  destruct (linked_stands _ _ _ _ _ _ _ HS HL) as (last & st' & p & HS'). exists last. apply (st_called _ _ _ _ _ HS').
Qed.

(** C8: For a client that subscribes over REST to a topic without parameters, with
    neither an index nor a batch in its address, alone on a TCP connection to a server
    without handlers, with libraries that take every response and give ascending
    streams, and where requests and responses arrive whole: in every state of such a
    run, when no further notification comes, the requests and responses that are on
    their way lead to a client that has caught up, whose poll waits at the server for
    the next notification.  When that one comes, with a topic that can be read, it is
    handed to the callback. *)
Theorem subscription_catches_up l0 l hs :
  start fd c = Ret l0 → linked fd (service_topic svc) l0 [] l hs →
  ∃ l1 s2 st last, quietly l l1 hs ∧ server_session fd (srv l1) = Some s2 ∧ Rest.pendingPolls s2 = [waiting_poll svc hs st]
  ∧ delivered scheme cb hs last (called (cli l1))
  ∧ ∀ m, is_ok (parseURI STRICT (u_str (Message.topic m))) = true → total (hs ++ [m]) < 2 ^ 64 - 1 →
    ∃ l2 l3, step l1 hs l2 (hs ++ [m]) ∧ quietly l2 l3 (hs ++ [m])
    ∧ called (cli l3) = called (cli l1) ++ [(cb, given scheme (total hs) m last)].
Proof using All.
  intros E HL. destruct started as (l0' & st0 & E' & HS0). rewrite E' in E. injection E as ->.
  destruct (linked_stands _ _ _ _ _ _ _ HS0 HL) as (last0 & st1 & p & HS1).
  destruct (drains _ _ _ _ _ HS1) as (l1 & last & st & HQ & HW). pose proof (st_phase _ _ _ _ _ HW) as HP.
  inversion HP as [| |v s subs _ (top & Ht & HS) E1 E2| |]; subst.
  destruct (sv_session _ _ _ _ _ _ HS) as (s2 & B1 & B2 & B3 & B4 & B5 & B6).
  eexists _, s2, st, last. split; [exact HQ|]. split; [unfold server_session; cbn; by rewrite B1, lookup_key_single|].
  split; [done|]. split; [apply (st_called _ _ _ _ _ HW)|]. intros m Hu Hm.
  destruct (stands_told _ _ _ _ _ m HW Hu Hm) as (v' & HH & Hk & HW2). cbn in HH, Hk, HW2.
  destruct (hears_step _ _ _ (message_arrives _ _ _ _ _ HW2)) as (l3 & last3 & st3 & p3 & H3 & HS3 & _ & _ & m' & Hm' & Hcalled).
  assert (m' = m) as ->.
  { unfold total in Hm'. rewrite Nat2Z.id, lookup_app_r, Nat.sub_diag in Hm' by done. by injection Hm'. }
  eexists _, l3. split; [|split; [eapply quiet_cons; [exact H3|constructor]|exact Hcalled]].
  pose proof (link_notify fd (service_topic svc) v s (length (asked s)) (length subs) hs m [] v' Hu Hm HH) as HN.
  rewrite Hk in HN. exact HN.
Qed.
End follow.

(** A notification that is an error comes as data. *)
Lemma error_becomes_data `{lib : Library} scheme i m :
  Message.error m ≠ [] → Message.data (given scheme i m None) = Message.error m ∧ Message.error (given scheme i m None) = [].
Proof. intros Hne. unfold given. cbn. by destruct (Message.error m). Qed.

(** ** A client and a server *)

Definition test_streams (l : list effect) : Z :=
  foldr (λ e n, match e with Submitted st _ _ => Z.max (st + 2) n | _ => n end) 1 l.

Lemma test_streams_ok l : 0 ≤ test_streams l ∧ ∀ st h d, Submitted st h d ∈ l → st < test_streams l.
Proof.
  induction l as [|e l [IH1 IH2]]; [split; [done|]; intros st h d Hin; by apply elem_of_nil in Hin|].
  destruct e as [st h d| |]; simpl.
  - split; [lia|]. intros st' h' d' [[= <- <- <-]|Hin]%elem_of_cons; [lia|]. specialize (IH2 _ _ _ Hin). lia.
  - split; [done|]. intros st' h' d' [?|Hin]%elem_of_cons; [done|]. by apply (IH2 st' h' d').
  - split; [done|]. intros st' h' d' [?|Hin]%elem_of_cons; [done|]. by apply (IH2 st' h' d').
Qed.

Definition test_library : Library := Build_Library test_streams (λ _, []) 0 0 map_to_list 42 (λ _, []) (λ _, []).

Definition test_subscription : command :=
  Client.mkcommand (Message.mkmsg (f := Message.WithoutSourceId) tt 0 0 Message.default_timeout [] Message.Subscribe [] []
    (base_uri (str "/weather") (str "http") (str "localhost:8080")) [] [] []) (Some 1%nat).

Lemma test_follows : follows (str "/weather") (str "http") (str "localhost:8080") test_subscription 1.
Proof. by split. Qed.

Lemma test_scheme : str "http" ≠ [] ∧ Forall (λ c, is_alnum c = true) (str "http").
Proof. split; [done|]. by apply Forall_forallb. Qed.

Lemma test_authority : str "localhost:8080" ≠ [] ∧ Forall (λ c, is_authority_char c = true) (str "localhost:8080").
Proof. split; [done|]. by apply Forall_forallb. Qed.

Definition test_link : link :=
  match @start test_library 7 test_subscription with Ret l => l | _ => mklink empty_server RestClient.new_session 0 0 end.

Lemma subscription_in_order_witness :
  ∃ l0, @start test_library 7 test_subscription = Ret l0 ∧
  ∀ l hs, @linked RestResults.test_env test_library 7 (service_topic (str "/weather")) l0 [] l hs →
  ∃ last, @delivered test_library (str "http") 1 hs last (called (cli l)).
Proof.
  apply (@subscription_in_order RestResults.test_env test_library (λ m, reflexivity _) (λ m, reflexivity _) (λ _ _, eq_refl) test_streams_ok
           (str "/weather") (str "http") (str "localhost:8080") eq_refl test_scheme test_authority 7 test_subscription 1 test_follows).
Defined.

Lemma subscription_catches_up_witness :
  ∃ l1 s2 st last, @quiet RestResults.test_env test_library 7 (service_topic (str "/weather")) test_link l1 []
  ∧ server_session 7 (srv l1) = Some s2 ∧ Rest.pendingPolls s2 = [waiting_poll (str "/weather") [] st]
  ∧ @delivered test_library (str "http") 1 [] last (called (cli l1))
  ∧ ∀ m, is_ok (parseURI STRICT (u_str (Message.topic m))) = true → total ([] ++ [m]) < 2 ^ 64 - 1 →
    ∃ l2 l3, @link_step RestResults.test_env test_library 7 (service_topic (str "/weather")) l1 [] l2 ([] ++ [m])
    ∧ @quiet RestResults.test_env test_library 7 (service_topic (str "/weather")) l2 l3 ([] ++ [m])
    ∧ called (cli l3) = called (cli l1) ++ [(1%nat, @given test_library (str "http") (total []) m last)].
Proof.
  apply (@subscription_catches_up RestResults.test_env test_library (λ m, reflexivity _) (λ m, reflexivity _) (λ _ _, eq_refl) test_streams_ok
           (str "/weather") (str "http") (str "localhost:8080") eq_refl test_scheme test_authority 7 test_subscription 1 test_follows
           test_link test_link []); [vm_compute; reflexivity|constructor].
Defined.
