(* ===== verification/RestFetch.v ===== *)
(** * RestFetch: [client/include/RestClientEmscripten.hpp]

    The REST client of the web assembly build.  The browser fetches: it follows
    redirections by itself, and says once how a fetch has ended.  Commands come
    through a queue from any thread to the one that fetches.  What is asked of the
    browser and the callbacks that are called make a log, in their order; a callback
    is known by a number, and returns.

    [stop] is called on another thread.  Its exchange of [_acceptWork] may come after
    any load of the flag, and before what the load was for: a state has the number of
    loads that still come first ([stopIn]), and the log has the moment of the exchange
    ([Stopped]).  The task of [cleanup] is queued some time after it.  Everything else
    of a command, a task or a completion is one step. *)

From S2P Require Import Prelude Text Uri.
From S2P Require Topic Message Client LongPolling RestClient RestLink RestFollow.
#[local] Existing Instance Topic.t_eq_dec.
#[local] Existing Instance Message.Command_eq_dec.
Local Open Scope Z_scope.

Definition message : Type := Message.message Message.WithoutSourceId.
Definition command : Type := Client.client_command.

(** ** Data *)

Record SubscriptionState : Type := mksub {
  s_command : command;
  lastDeliveredIndex : option Z;
  activeFetchId : option Z
}.

(** [handle]: the browser has given one.  [closing] guards against calls from inside
    [emscripten_fetch_close], and is not needed here. *)
Record ActiveFetch : Type := mkfetch {
  f_subscription : option Z;
  f_command : option command;
  f_body : bytes;
  f_handle : bool
}.

Inductive effect : Type :=
  | Fetched (id : Z) (method url : bytes) (headers : list (bytes * bytes)) (body : bytes)
  | FetchClosed (id : Z)
  | Called (cb : nat) (m : message)
  | Stopped.

Inductive task : Type := Dispatch (c : command) | Cleanup.

(** [RestWorkerState], and the queue of [FetchWorker] in front of it.  [stopIn]: if a
    call of [stop] is under way, the loads before its exchange; [cleanupDue]: it has
    still to queue the task. *)
Record worker : Type := mkworker {
  acceptWork : bool;
  stopIn : nat;
  cleanupDue : bool;
  subscriptions : gmap Z SubscriptionState;
  activeFetches : gmap Z ActiveFetch;
  nextSubscriptionId : Z;
  nextFetchId : Z;
  tasks : list task;
  log : list effect
}.

Definition new_worker : worker := mkworker true 0 false ∅ ∅ 1 1 [] [].

Definition set_stop (accept : bool) (n : nat) (due : bool) (w : worker) : worker :=
  mkworker accept n due (subscriptions w) (activeFetches w) (nextSubscriptionId w) (nextFetchId w) (tasks w) (log w).
Definition set_subscriptions (x : gmap Z SubscriptionState) (w : worker) : worker :=
  mkworker (acceptWork w) (stopIn w) (cleanupDue w) x (activeFetches w) (nextSubscriptionId w) (nextFetchId w) (tasks w) (log w).
Definition set_fetches (x : gmap Z ActiveFetch) (w : worker) : worker :=
  mkworker (acceptWork w) (stopIn w) (cleanupDue w) (subscriptions w) x (nextSubscriptionId w) (nextFetchId w) (tasks w) (log w).
Definition set_nextSubscription (x : Z) (w : worker) : worker :=
  mkworker (acceptWork w) (stopIn w) (cleanupDue w) (subscriptions w) (activeFetches w) x (nextFetchId w) (tasks w) (log w).
Definition set_nextFetch (x : Z) (w : worker) : worker :=
  mkworker (acceptWork w) (stopIn w) (cleanupDue w) (subscriptions w) (activeFetches w) (nextSubscriptionId w) x (tasks w) (log w).
Definition set_tasks (x : list task) (w : worker) : worker :=
  mkworker (acceptWork w) (stopIn w) (cleanupDue w) (subscriptions w) (activeFetches w) (nextSubscriptionId w) (nextFetchId w) x (log w).
Definition add_log (x : list effect) (w : worker) : worker :=
  mkworker (acceptWork w) (stopIn w) (cleanupDue w) (subscriptions w) (activeFetches w) (nextSubscriptionId w) (nextFetchId w)
    (tasks w) (log w ++ x).

(** The exchange of [stop], on its thread. *)
Definition exchanged (w : worker) : worker := add_log [Stopped] (set_stop false 0 true w).

(** After a load of the flag, whose value is [acceptWork w]: the exchange may come
    next. *)
Definition checked (w : worker) : worker :=
  if acceptWork w then
    match stopIn w with
    | O => w
    | 1%nat => exchanged w
    | S n => set_stop true n (cleanupDue w) w
    end
  else w.

(** How a fetch has ended; texts that are not there are empty. *)
Record response : Type := mkresponse { status : Z; statusText : bytes; r_body : bytes; responseUrl : bytes }.

(** Whether the browser takes a fetch, given the log; the order in which hash tables
    are walked. *)
Class Browser : Type := {
  takes : list effect → bool;
  walk_subscriptions : gmap Z SubscriptionState → list (Z * SubscriptionState);
  walk_fetches : gmap Z ActiveFetch → list (Z * ActiveFetch);
  walks_subscriptions m : walk_subscriptions m ≡ₚ map_to_list m;
  walks_fetches m : walk_fetches m ≡ₚ map_to_list m
}.

(** Code that may throw, or end the program ([None]). *)
Definition outcome (A : Type) : Type := option (result A).
Definition ret {A} (r : result A) : outcome A := Some r.
Definition obind {A B} (m : outcome A) (f : A → outcome B) : outcome B :=
  match m with Some (Ok a) => f a | Some (Throw e) => Some (Throw e) | None => None end.

Section fetch.
Context `{lib : RestClient.Library} `{browser : Browser}.

(** ** References *)

Definition parseLongPollingIndex (url : bytes) : option Z :=
  if is_nil url then None
  else
    match rbind (parseURI STRICT url) RestClient.query_params with
    | Ok params =>
        match params !! LongPolling.kIndexParameter with
        | Some (Some value) => if is_nil value then None
                               else match LongPolling.parseUnsigned value with inl i => Some i | inr _ => None end
        | _ => None
        end
    | Throw _ => None
    end.

Definition usesLongPollingBatch (topic : uri) : result bool :=
  rbind (RestClient.query_params topic) (λ m, Ok (bool_decide (is_Some (m !! LongPolling.kBatchParameter)))).

(** The text of the index, and the command without it; or the text of an error. *)
Definition takeInitialLongPollingIndex (c : command) : result ((bytes * command) + bytes) :=
  rbind (RestClient.query_params (RestClient.topic_of c)) (λ m,
    match m !! LongPolling.kIndexParameter with
    | None => Ok (inl (str "Next", c))
    | Some None => Ok (inr (str "LongPollingIdx requires a value"))
    | Some (Some v) =>
        let rest (index : bytes) :=
          rbind (RestClient.set_query (delete LongPolling.kIndexParameter m) (RestClient.topic_of c)) (λ u,
            Ok (inl (index, RestClient.set_topic u c))) in
        if bool_decide (v = str "Next") || bool_decide (v = str "Last") then rest v
        else match LongPolling.parseUnsigned v with
             | inl i => rest (to_dec i)
             | inr _ => Ok (inr (str "Malformed " ++ LongPolling.kIndexParameter ++ str " '" ++ v ++ str "'"))
             end
    end).

Definition subscriptionTopic (topic : uri) : result Topic.t :=
  rbind (RestClient.query_params topic) (λ m,
    rbind (RestClient.set_query (delete LongPolling.kBatchParameter (delete LongPolling.kIndexParameter m)) topic)
      (Topic.fromMdpTopic RestClient.uninit STRICT)).

Definition hostName (u : uri) : bytes := a_host (parseAuthority (u_authority u)).

(** [port()] of the one, then of the other, may end the program. *)
Definition same_port (lhs rhs : uri) : outcome bool :=
  match port lhs, port rhs with
  | Terminate, _ | _, Terminate => None
  | NoPort, NoPort => ret (Ok true)
  | Port p, Port q => ret (Ok (p =? q))
  | _, _ => ret (Ok false)
  end.

Definition sameSubscription (lhs rhs : uri) : outcome bool :=
  if negb (bool_decide (u_scheme lhs = u_scheme rhs)) || negb (bool_decide (hostName lhs = hostName rhs)) then ret (Ok false)
  else
    obind (same_port lhs rhs) (λ same : bool,
      if same then
        ret (rbind (subscriptionTopic lhs) (λ l, rbind (subscriptionTopic rhs) (λ r, Ok (bool_decide (l = r)))))
      else ret (Ok false)).

(** ** Messages *)

Definition buildMessage (c : command) (status : Z) (body error : bytes) : message :=
  let ok := (200 <=? status) && (status <? 400) in
  Message.mkmsg (f := Message.WithoutSourceId) tt 0 RestClient.now Message.default_timeout (u_scheme (RestClient.topic_of c))
    Message.Final [] (Message.clientRequestID (Client.cmd c)) (RestClient.topic_of c) (if ok then body else [])
    (if ok then error else to_dec status ++ str " - " ++ error ++ (if is_nil body then [] else str ":") ++ body) [].

Definition invokeGuarded (cb : option nat) (m : message) (w : worker) : worker :=
  match cb with Some k => if acceptWork w then add_log [Called k m] (checked w) else w | None => w end.

Definition reportFailure (c : command) (error : bytes) (status : Z) (w : worker) : worker :=
  invokeGuarded (Client.callback c) (buildMessage c status [] error) w.

(** ** Fetches *)

(** [fetch]: the one that has ended, if that is why. *)
Definition closeFetch (id : Z) (fetch : option Z) (w : worker) : worker :=
  match activeFetches w !! id with
  | None => w
  | Some a =>
      let closed := match fetch with Some f => [FetchClosed f] | None => if f_handle a then [FetchClosed id] else [] end in
      set_fetches (delete id (activeFetches w)) (add_log closed w)
  end.

Definition endSubscription (id : Z) (fetch : option Z) (status : Z) (body error : bytes) (w : worker) : worker :=
  match subscriptions w !! id with
  | None => w
  | Some s =>
      let w1 := set_subscriptions (delete id (subscriptions w)) w in
      let w2 := match activeFetchId s with Some f => closeFetch f fetch w1 | None => w1 end in
      invokeGuarded (Client.callback (s_command s)) (buildMessage (s_command s) status body error) w2
  end.

Definition contentType_of (mimeType : bytes) (query : gmap bytes (option bytes)) : bytes :=
  match query !! str "contentType" with Some (Some v) => v | _ => mimeType end.

Definition is_set (a : ActiveFetch) : bool :=
  match f_command a with Some c => bool_decide (RestClient.command_of c = Message.Set_) | None => false end.

Definition fetch_headers (post : bool) (contentType : bytes) : list (bytes * bytes) :=
  (str "accept", contentType) :: (if post then [(str "content-type", contentType)] else []).

Definition null_text : bytes := str "emscripten_fetch() returned null".

(** It throws before anything is changed. *)
Definition startFetch (mimeType : bytes) (id : Z) (a : ActiveFetch) (u : uri) (w : worker) : result worker :=
  rbind (RestClient.query_params u) (λ query,
    let w1 := set_fetches (<[id := a]> (activeFetches w)) w in
    if takes (log w) then
      Ok (set_fetches (<[id := mkfetch (f_subscription a) (f_command a) (f_body a) true]> (activeFetches w1))
            (add_log [Fetched id (if is_set a then str "POST" else str "GET") (u_str u)
                        (fetch_headers (is_set a) (contentType_of mimeType query)) (f_body a)] w1))
    else
      let w2 := set_fetches (delete id (activeFetches w1)) w1 in
      Ok (match f_subscription a, f_command a with
          | Some sub, _ => endSubscription sub None 500 [] null_text w2
          | None, Some c => reportFailure c null_text 500 w2
          | None, None => w2
          end)).

Definition set_active (f : Z) (s : SubscriptionState) : SubscriptionState := mksub (s_command s) (lastDeliveredIndex s) (Some f).
Definition set_last (l : option Z) (s : SubscriptionState) : SubscriptionState := mksub (s_command s) l (activeFetchId s).

Definition poll_uri (topic : uri) (index : bytes) : result uri :=
  build STRICT (RestClient.with_queryMap topic (u_query topic) [(LongPolling.kIndexParameter, Some index)]).

(** A poll, when the flag was loaded. *)
Definition poll_checked (mimeType : bytes) (id : Z) (index : bytes) (w : worker) : worker :=
  match subscriptions w !! id with
  | None => w
  | Some s =>
      let f := nextFetchId w in
      let w1 := set_subscriptions (<[id := set_active f s]> (subscriptions w)) (set_nextFetch (wrapu 64 (f + 1)) w) in
      match rbind (poll_uri (RestClient.topic_of (s_command s)) index) (λ u,
              startFetch mimeType f (mkfetch (Some id) None [] false) u w1) with
      | Ok w2 => w2
      | Throw e => endSubscription id None 500 [] (RestClient.what e) w1
      end
  end.

Definition startLongPoll (mimeType : bytes) (id : Z) (index : bytes) (w : worker) : worker :=
  if negb (acceptWork w) then w else poll_checked mimeType id index (checked w).

Definition startNextLongPoll (mimeType : bytes) (id : Z) (index : option Z) (w : worker) : worker :=
  startLongPoll mimeType id (match index with Some i => to_dec i | None => str "Next" end) w.

(** ** Commands *)

(** The state after it, and what it throws. *)
Definition startGetOrSet (mimeType : bytes) (c : command) (w : worker) : option exn * worker :=
  let f := nextFetchId w in
  let w1 := set_nextFetch (wrapu 64 (f + 1)) w in
  let body := if bool_decide (RestClient.command_of c = Message.Set_) then Message.data (Client.cmd c) else [] in
  match startFetch mimeType f (mkfetch None (Some c) body false) (RestClient.topic_of c) w1 with
  | Ok w2 => (None, w2)
  | Throw e => (Some e, w1)
  end.

Definition active_text : bytes :=
  str "A subscription for this topic is already active; concurrent batch subscriptions are not supported".

(** [any_of]: another subscription to the topic, where one of the two uses batches. *)
Fixpoint conflicts (usesBatch : bool) (topic : uri) (l : list (Z * SubscriptionState)) : outcome bool :=
  match l with
  | [] => ret (Ok false)
  | (_, s) :: l' =>
      let t := RestClient.topic_of (s_command s) in
      obind (sameSubscription t topic) (λ same : bool,
        if same then
          obind (if usesBatch then ret (Ok true) else ret (usesLongPollingBatch t)) (λ batch : bool,
            if batch then ret (Ok true) else conflicts usesBatch topic l')
        else conflicts usesBatch topic l')
  end.

Definition first_last (index : bytes) : option Z :=
  match LongPolling.parseUnsigned index with inl i => if 0 <? i then Some (i - 1) else None | inr _ => None end.

Definition startSubscription (mimeType : bytes) (c : command) (w : worker) : option (option exn * worker) :=
  match takeInitialLongPollingIndex c with
  | Throw e => Some (Some e, w)
  | Ok (inr error) => Some (None, reportFailure c error 500 w)
  | Ok (inl (index, c')) =>
      match obind (ret (usesLongPollingBatch (RestClient.topic_of c'))) (λ batch,
              conflicts batch (RestClient.topic_of c') (walk_subscriptions (subscriptions w))) with
      | None => None
      | Some (Throw e) => Some (Some e, w)
      | Some (Ok true) => Some (None, reportFailure c' active_text 500 w)
      | Some (Ok false) =>
          let id := nextSubscriptionId w in
          let w1 := set_subscriptions (<[id := mksub c' (first_last index) None]> (subscriptions w))
                      (set_nextSubscription (wrapu 64 (id + 1)) w) in
          Some (None, startLongPoll mimeType id index w1)
      end
  end.

(** [find_if] *)
Fixpoint find_subscription (topic : uri) (l : list (Z * SubscriptionState)) : outcome (option (Z * SubscriptionState)) :=
  match l with
  | [] => ret (Ok None)
  | (id, s) :: l' =>
      obind (sameSubscription (RestClient.topic_of (s_command s)) topic) (λ same : bool,
        if same then ret (Ok (Some (id, s))) else find_subscription topic l')
  end.

Definition stopSubscription (c : command) (w : worker) : option (option exn * worker) :=
  match find_subscription (RestClient.topic_of c) (walk_subscriptions (subscriptions w)) with
  | None => None
  | Some (Throw e) => Some (Some e, w)
  | Some (Ok None) => Some (None, w)
  | Some (Ok (Some (id, s))) =>
      let w1 := set_subscriptions (delete id (subscriptions w)) w in
      Some (None, match activeFetchId s with Some f => closeFetch f None w1 | None => w1 end)
  end.

(** A command, when the flag was loaded. *)
Definition dispatch_checked (mimeType : bytes) (c : command) (w : worker) : option worker :=
  match (match RestClient.command_of c with
         | Message.Get | Message.Set_ => Some (startGetOrSet mimeType c w)
         | Message.Subscribe => startSubscription mimeType c w
         | Message.Unsubscribe => stopSubscription c w
         | _ => Some (None, reportFailure c (str "command type is undefined") 500 w)
         end) with
  | Some (None, w') => Some w'
  | Some (Some e, w') => Some (reportFailure c (RestClient.what e) 500 w')
  | None => None
  end.

Definition dispatchCommand (mimeType : bytes) (c : command) (w : worker) : option worker :=
  if negb (acceptWork w) then Some w else dispatch_checked mimeType c (checked w).

(** ** How a fetch ends *)

Definition skippedWarning (last : option Z) (index : Z) : bytes :=
  match last with
  | Some l => if 1 <? wrapu 64 (index - l) then str "Warning: skipped " ++ to_dec (wrapu 64 (index - l - 1)) ++ str " samples" else []
  | None => []
  end.

Definition old (last : option Z) (index : Z) : bool := match last with Some l => index <=? l | None => false end.

(** The loop over the parts of a batch: the messages that are new, and the last
    index. *)
Fixpoint batch_messages (c : command) (status : Z) (parts : list LongPolling.BatchPart) (last : option Z)
    : result (list message * option Z) :=
  match parts with
  | [] => Ok ([], last)
  | p :: parts' =>
      if old last (LongPolling.index p) then batch_messages c status parts' last
      else
        let m := buildMessage c status (LongPolling.payload p) (skippedWarning last (LongPolling.index p)) in
        rbind (parseURI STRICT (LongPolling.topic p)) (λ u,
          rbind (batch_messages c status parts' (Some (LongPolling.index p))) (λ '(ms, l),
            Ok (RestClient.set_contents u (LongPolling.serviceName p) (Message.data m) (Message.error m) m :: ms, l)))
  end.

Definition resumeSubscriptionAfterBatchError (mimeType : bytes) (fetchId id : Z) (c : command) (status : Z) (error : bytes)
    (nextIndex : option Z) (w : worker) : worker :=
  startNextLongPoll mimeType id nextIndex (reportFailure c error status (closeFetch fetchId (Some fetchId) w)).

Definition no_index_text : bytes := str "missing or unparsable LongPollingIdx in the response URL".

(** The part of [handleSubscriptionCompletion] for batches. *)
Definition handleBatch (mimeType : bytes) (fetchId id : Z) (s : SubscriptionState) (r : response) (w : worker) : worker :=
  match LongPolling.decodeBatch (r_body r) with
  | inr e => resumeSubscriptionAfterBatchError mimeType fetchId id (s_command s) (status r)
               (str "could not decode long-polling batch: " ++ RestClient.batch_text e) None w
  | inl parts =>
      match batch_messages (s_command s) (status r) parts (lastDeliveredIndex s) with
      | Throw e =>
          let next := match last parts with
                      | Some p => if LongPolling.index p <? 2 ^ 64 - 1 then Some (LongPolling.index p + 1) else None
                      | None => None
                      end in
          resumeSubscriptionAfterBatchError mimeType fetchId id (s_command s) (status r)
            (str "could not parse long-polling batch metadata: " ++ RestClient.what e) next w
      | Ok (ms, lastDelivered) =>
          let w1 := closeFetch fetchId (Some fetchId) (set_subscriptions (<[id := set_last lastDelivered s]> (subscriptions w)) w) in
          let w2 := foldl (λ w m, invokeGuarded (Client.callback (s_command s)) m w) w1 ms in
          match lastDelivered with
          | Some l => startNextLongPoll mimeType id (Some (wrapu 64 (l + 1))) w2
          | None => w2
          end
      end
  end.

(** The part for single notifications. *)
Definition handleSample (mimeType : bytes) (fetchId id : Z) (s : SubscriptionState) (r : response) (w : worker) : worker :=
  match parseLongPollingIndex (responseUrl r) with
  | None => endSubscription id (Some fetchId) (status r) (r_body r) no_index_text w
  | Some i =>
      if old (lastDeliveredIndex s) i then
        startNextLongPoll mimeType id (Some (wrapu 64 (default 0 (lastDeliveredIndex s) + 1))) (closeFetch fetchId (Some fetchId) w)
      else
        let m := buildMessage (s_command s) (status r) (r_body r) (skippedWarning (lastDeliveredIndex s) i) in
        let w1 := closeFetch fetchId (Some fetchId) (set_subscriptions (<[id := set_last (Some i) s]> (subscriptions w)) w) in
        startNextLongPoll mimeType id (Some (wrapu 64 (i + 1))) (invokeGuarded (Client.callback (s_command s)) m w1)
  end.

(** A completion, when the flag was loaded; it throws before anything is changed. *)
Definition subscription_checked (mimeType : bytes) (fetchId id : Z) (r : response) (fetchError : option bytes) (w : worker)
    : result worker :=
  match subscriptions w !! id with
  | None => Ok (closeFetch fetchId (Some fetchId) w)
  | Some s =>
      if status r =? 504 then
        Ok (match parseLongPollingIndex (responseUrl r) with
            | None => endSubscription id (Some fetchId) (status r) (r_body r) no_index_text w
            | Some i => startNextLongPoll mimeType id (Some i) (closeFetch fetchId (Some fetchId) w)
            end)
      else
        match fetchError with
        | Some error => Ok (endSubscription id (Some fetchId) (status r) (r_body r) error w)
        | None =>
            rbind (usesLongPollingBatch (RestClient.topic_of (s_command s))) (λ batch : bool,
              Ok ((if batch then handleBatch else handleSample) mimeType fetchId id s r w))
        end
  end.

Definition handleSubscriptionCompletion (mimeType : bytes) (fetchId id : Z) (r : response) (fetchError : option bytes) (w : worker)
    : result worker :=
  if negb (acceptWork w) then Ok (closeFetch fetchId (Some fetchId) w)
  else subscription_checked mimeType fetchId id r fetchError (checked w).

Definition handleGetOrSetCompletion (fetchId : Z) (r : response) (fetchError : option bytes) (w : worker) : worker :=
  if negb (acceptWork w) then closeFetch fetchId (Some fetchId) w
  else
    let w1 := checked w in
    match activeFetches w1 !! fetchId ≫= f_command with
    | None => closeFetch fetchId (Some fetchId) w1
    | Some c =>
        invokeGuarded (Client.callback c) (buildMessage c (status r) (r_body r) (default [] fetchError))
          (closeFetch fetchId (Some fetchId) w1)
    end.

Definition discardFetch (fetchId : Z) (sub : option Z) (error : bytes) (w : worker) : worker :=
  match sub with
  | Some id => match subscriptions w !! id with
               | Some _ => endSubscription id (Some fetchId) 500 [] error w
               | None => closeFetch fetchId (Some fetchId) w
               end
  | None => closeFetch fetchId (Some fetchId) w
  end.

(** The browser says how a fetch has ended; one that was closed it does not speak of.
    What was thrown comes after the load. *)
Definition completeFetch (mimeType : bytes) (fetchId : Z) (succeeded : bool) (r : response) (w : worker) : worker :=
  match activeFetches w !! fetchId with
  | None => w
  | Some a =>
      let fetchError := if succeeded then None
                        else Some (if is_nil (statusText r) then str "fetch failed" else statusText r) in
      match f_subscription a with
      | Some id =>
          match handleSubscriptionCompletion mimeType fetchId id r fetchError w with
          | Ok w' => w'
          | Throw e => discardFetch fetchId (Some id) (RestClient.what e) (checked w)
          end
      | None => handleGetOrSetCompletion fetchId r fetchError w
      end
  end.

(** ** The worker at work *)

(** The loop closes what is left, in the order of the table. *)
Definition cleanup (w : worker) : worker :=
  set_subscriptions ∅ (foldl (λ w x, closeFetch x.1 None w) w (walk_fetches (activeFetches w))).

(** [proxied]: the task could be queued. *)
Definition submit (proxied : bool) (c : command) (w : worker) : worker :=
  if negb (acceptWork w) then w
  else
    let w1 := checked w in
    if proxied then set_tasks (tasks w1 ++ [Dispatch c]) w1
    else reportFailure c (str "request was not queued on the REST worker") 500 w1.

(** [stop] is called, and its exchange comes after [n] more loads of the flag; other
    calls that are under way, or come later, find the flag cleared. *)
Definition stop (n : nat) (w : worker) : worker :=
  if acceptWork w && (stopIn w =? 0)%nat
  then match n with O => exchanged w | S _ => set_stop true n (cleanupDue w) w end
  else w.

(** The rest of [stop]: the task is queued, or, with a message, it is not. *)
Definition stop_queues (proxied : bool) (w : worker) : worker :=
  if cleanupDue w then
    let w1 := set_stop (acceptWork w) (stopIn w) false w in
    if proxied then set_tasks (tasks w1 ++ [Cleanup]) w1 else w1
  else w.

Definition run_task (mimeType : bytes) (w : worker) : option worker :=
  match tasks w with
  | [] => Some w
  | Dispatch c :: q => dispatchCommand mimeType c (set_tasks q w)
  | Cleanup :: q => Some (cleanup (set_tasks q w))
  end.

Inductive event : Type :=
  | Submit (proxied : bool) (c : command)
  | Task
  | Completed (fetchId : Z) (succeeded : bool) (r : response)
  | Stop (n : nat)
  | StopQueues (proxied : bool).

Definition handle (mimeType : bytes) (x : event) (w : worker) : option worker :=
  match x with
  | Submit proxied c => Some (submit proxied c w)
  | Task => run_task mimeType w
  | Completed fetchId succeeded r => Some (completeFetch mimeType fetchId succeeded r w)
  | Stop n => Some (stop n w)
  | StopQueues proxied => Some (stop_queues proxied w)
  end.

(** Runs, with the number of their events. *)
Inductive runs (mimeType : bytes) : Z → worker → Prop :=
  | runs_start : runs mimeType 0 new_worker
  | runs_step n x w w' : runs mimeType n w → handle mimeType x w = Some w' → runs mimeType (n + 1) w'.


(** ** The log *)

Definition opened (l : list effect) : list Z := omap (λ e, match e with Fetched id _ _ _ _ => Some id | _ => None end) l.
Definition closed (l : list effect) : list Z := omap (λ e, match e with FetchClosed id => Some id | _ => None end) l.

(** What was opened has been closed or is in the table, once. *)
Record logged (w : worker) : Prop := {
  lg_opened : opened (log w) ≡ₚ closed (log w) ++ (map_to_list (activeFetches w)).*1;
  lg_once : NoDup (opened (log w));
  lg_below f : f ∈ opened (log w) → f < nextFetchId w
}.

(** All but the calls, the queue and the flag. *)
Definition tables (w : worker) :=
  (subscriptions w, activeFetches w, nextSubscriptionId w, nextFetchId w, opened (log w), closed (log w)).

(** Nothing but these, and the flag is not set again. *)
Definition same_tables (w w' : worker) : Prop := tables w' = tables w ∧ (acceptWork w' = true → acceptWork w = true).

#[local] Instance same_tables_preorder : PreOrder same_tables.
Proof. split; [done|]. intros w1 w2 w3 [A1 A2] [B1 B2]. split; [congruence|auto]. Qed.

Lemma logged_tables w w' : tables w' = tables w → logged w → logged w'.
Proof. intros [= _ E3 _ E5 E6 E7] [A B C]. split; rewrite ?E3, ?E5, ?E6, ?E7; auto. Qed.

Lemma opened_closed l f : opened (l ++ [FetchClosed f]) = opened l.
Proof. unfold opened. rewrite omap_app. cbn. by rewrite app_nil_r. Qed.

Lemma closed_closed l f : closed (l ++ [FetchClosed f]) = closed l ++ [f].
Proof. unfold closed. by rewrite omap_app. Qed.

Lemma opened_fetched l f m u h b : opened (l ++ [Fetched f m u h b]) = opened l ++ [f].
Proof. unfold opened. by rewrite omap_app. Qed.

Lemma closed_fetched l f m u h b : closed (l ++ [Fetched f m u h b]) = closed l.
Proof. unfold closed. rewrite omap_app. cbn. by rewrite app_nil_r. Qed.

Lemma opened_called l k m : opened (l ++ [Called k m]) = opened l ∧ closed (l ++ [Called k m]) = closed l.
Proof. unfold opened, closed. rewrite !omap_app. cbn. by rewrite !app_nil_r. Qed.

Lemma opened_stopped l : opened (l ++ [Stopped]) = opened l ∧ closed (l ++ [Stopped]) = closed l.
Proof. unfold opened, closed. rewrite !omap_app. cbn. by rewrite !app_nil_r. Qed.

Lemma checked_tables w : same_tables w (checked w).
Proof.
  unfold checked. destruct (acceptWork w) eqn:Hacc; [|done]. destruct (stopIn w) as [|[|n]]; [done| |done].
  split; [|done]. unfold tables. simpl. by destruct (opened_stopped (log w)) as [-> ->].
Qed.

(** A fetch that has its handle is closed. *)
Lemma close_logged f fetch w :
  default f fetch = f → (∀ a, activeFetches w !! f = Some a → f_handle a = true) → logged w → logged (closeFetch f fetch w).
Proof.
  intros Hf Hh [A B C]. unfold closeFetch. destruct (activeFetches w !! f) as [a|] eqn:Ha; [|done].
  replace (match fetch with Some f0 => [FetchClosed f0] | None => if f_handle a then [FetchClosed f] else [] end) with [FetchClosed f]
    by (destruct fetch as [f0|]; [by simpl in Hf; subst|by rewrite (Hh a)]).
  split; simpl; rewrite ?opened_closed, ?closed_closed; [|done|done].
  rewrite A, <- app_assoc. f_equiv. by rewrite <- (map_to_list_delete (activeFetches w) f a Ha).
Qed.

(** The browser takes one. *)
Lemma fetched_logged f a m u h b w :
  f < nextFetchId w → f ∉ opened (log w) → activeFetches w !! f = None → logged w →
  logged (set_fetches (<[f := a]> (activeFetches w)) (add_log [Fetched f m u h b] w)).
Proof.
  intros Hf Hnew Hnone [A B C]. split; simpl; rewrite ?opened_fetched, ?closed_fetched.
  - rewrite A, map_to_list_insert by done. cbn. by rewrite <- app_assoc, <- Permutation_cons_append.
  - apply NoDup_app. split; [done|]. split; [|apply NoDup_singleton]. intros x Hx ->%list_elem_of_singleton. done.
  - intros x [Hx| ->%list_elem_of_singleton]%elem_of_app; auto.
Qed.

(** ** One fetch for each subscription *)

(** [free]: a subscription that is without a fetch just now.  Numbers are below [k]. *)
Record ok (free : option Z) (k : Z) (w : worker) : Prop := {
  ok_subs id s : subscriptions w !! id = Some s →
    id < nextSubscriptionId w
    ∧ (∀ f, activeFetchId s = Some f →
       f < nextFetchId w ∧ ∀ a, activeFetches w !! f = Some a → f_subscription a = Some id)
    ∧ (acceptWork w = true → free ≠ Some id →
       ∃ f a, activeFetchId s = Some f ∧ activeFetches w !! f = Some a ∧ f_subscription a = Some id);
  ok_fetches f a : activeFetches w !! f = Some a →
    f < nextFetchId w ∧ f_handle a = true
    ∧ ∀ id, f_subscription a = Some id → free ≠ Some id ∧ ∃ s, subscriptions w !! id = Some s ∧ activeFetchId s = Some f;
  ok_within : 1 ≤ nextFetchId w ≤ k ∧ 1 ≤ nextSubscriptionId w ≤ k;
  ok_logged : logged w
}.

Lemma ok_tables free k w w' : same_tables w w' → ok free k w → ok free k w'.
Proof.
  intros [E Ha] [A B C D]. pose proof (logged_tables _ _ E D). injection E as E2 E3 E4 E5 E6 E7.
  split; [intros id s|intros f a| |done]; rewrite ?E2, ?E3, ?E4, ?E5; [|by auto..].
  intros Hs. destruct (A id s Hs) as (A1 & A2 & A3). split_and!; auto.
Qed.

Lemma ok_checked free k w : ok free k w → ok free k (checked w).
Proof. apply ok_tables, checked_tables. Qed.

Lemma ok_later free k k' w : k ≤ k' → ok free k w → ok free k' w.
Proof. intros Hk [A B C D]. split; [done|done|lia|done]. Qed.

Lemma invoke_tables cb m w : same_tables w (invokeGuarded cb m w).
Proof.
  unfold invokeGuarded. destruct cb as [j|]; [|done]. destruct (acceptWork w) eqn:E; [|done].
  transitivity (checked w); [apply checked_tables|]. split; [|done].
  unfold tables. simpl. by destruct (opened_called (log (checked w)) j m) as [-> ->].
Qed.

Lemma invoke_all_tables {A} (f : A → message) cb l w : same_tables w (foldl (λ w m, invokeGuarded cb (f m) w) w l).
Proof. revert w. induction l as [|m l IH]; intros w; simpl; [done|]. etransitivity; [apply invoke_tables|apply IH]. Qed.

Lemma close_accept id fetch w : acceptWork (closeFetch id fetch w) = acceptWork w.
Proof. unfold closeFetch. by destruct (activeFetches w !! id). Qed.

Lemma close_subs id fetch w : subscriptions (closeFetch id fetch w) = subscriptions w.
Proof. unfold closeFetch. by destruct (activeFetches w !! id). Qed.

Lemma close_active id fetch w : activeFetches (closeFetch id fetch w) = delete id (activeFetches w).
Proof. unfold closeFetch. destruct (activeFetches w !! id) eqn:E; [done|]. symmetry. by apply delete_id. Qed.

Lemma close_next id fetch w :
  nextFetchId (closeFetch id fetch w) = nextFetchId w ∧ nextSubscriptionId (closeFetch id fetch w) = nextSubscriptionId w.
Proof. unfold closeFetch. by destruct (activeFetches w !! id). Qed.

Lemma less_fetches (m : gmap Z ActiveFetch) g id s n :
  (∀ f, activeFetchId s = Some f → f < n ∧ ∀ a, m !! f = Some a → f_subscription a = Some id) →
  ∀ f, activeFetchId s = Some f → f < n ∧ ∀ a, delete g m !! f = Some a → f_subscription a = Some id.
Proof. intros A f Hf. destruct (A f Hf) as [A1 A2]. split; [done|]. intros a [_ Ha]%lookup_delete_Some. by apply A2. Qed.

(** The fetch of a subscription is closed: the subscription is free. *)
Lemma ok_close k f a id fetch w :
  default f fetch = f → ok None k w → activeFetches w !! f = Some a → f_subscription a = Some id → ok (Some id) k (closeFetch f fetch w).
Proof.
  intros Hd [A B C D] Ha Hid. destruct (close_next f fetch w) as [N1 N2].
  destruct (B f a Ha) as (_ & Hh & Bo). destruct (Bo id Hid) as (_ & s0 & Hs0 & Hf0).
  split; [|intros f' a'|by rewrite N1, N2|apply close_logged; [done| |done]; congruence]; rewrite ?close_subs, ?close_active, ?close_accept, ?N1, ?N2.
  - intros id' s' Hs'. destruct (A id' s' Hs') as (A1 & A2 & A3). split; [done|]. split; [by apply less_fetches|]. intros Hacc Hne.
    destruct (A3 Hacc) as (f' & a' & Hf' & Ha' & Hid'); [done|]. exists f', a'. split; [done|]. split; [|done].
    rewrite lookup_delete_ne; [done|]. intros <-. rewrite Ha in Ha'. injection Ha' as <-. congruence.
  - intros [Hne Ha']%lookup_delete_Some. destruct (B f' a' Ha') as (B1 & B2 & B3). split; [done|]. split; [done|].
    intros id' Hid'. destruct (B3 id' Hid') as (_ & s' & Hs' & Hf'). split; [|by exists s']. intros [= <-].
    rewrite Hs0 in Hs'. injection Hs' as <-. congruence.
Qed.

Lemma ok_close_command free k f a fetch w :
  default f fetch = f → ok free k w → activeFetches w !! f = Some a → f_subscription a = None → ok free k (closeFetch f fetch w).
Proof.
  intros Hd [A B C D] Ha Hid. destruct (close_next f fetch w) as [N1 N2].
  split; [intros id' s' Hs'|intros f' a'|by rewrite N1, N2|apply close_logged; [done| |done]; apply B]; rewrite ?close_subs, ?close_active, ?close_accept, ?N1, ?N2 in *.
  - destruct (A id' s' Hs') as (A1 & A2 & A3). split; [done|]. split; [by apply less_fetches|]. intros Hacc Hne.
    destruct (A3 Hacc Hne) as (f' & a' & Hf' & Ha' & Hid'). exists f', a'. split; [done|]. split; [|done].
    rewrite lookup_delete_ne; [done|]. intros <-. congruence.
  - intros [_ Ha']%lookup_delete_Some. auto.
Qed.

(** When no work is accepted any more, a subscription may be without a fetch. *)
Lemma ok_close_stopped k f fetch w : default f fetch = f → ok None k w → acceptWork w = false → ok None k (closeFetch f fetch w).
Proof.
  intros Hd [A B C D] Hacc. destruct (close_next f fetch w) as [N1 N2].
  split; [intros id' s' Hs'|intros f' a'|by rewrite N1, N2|apply close_logged; [done| |done]; apply B]; rewrite ?close_subs, ?close_active, ?close_accept, ?N1, ?N2 in *.
  - destruct (A id' s' Hs') as (A1 & A2 & A3). split; [done|]. split; [by apply less_fetches|]. congruence.
  - intros [_ Ha']%lookup_delete_Some. auto.
Qed.

Lemma ok_drop id k w : ok (Some id) k w → ok None k (set_subscriptions (delete id (subscriptions w)) w).
Proof.
  intros [A B C D]. split; [|intros f a Ha|done|by destruct D]; simpl in *.
  - intros id' s' [Hne Hs']%lookup_delete_Some. destruct (A id' s' Hs') as (A1 & A2 & A3). split; [done|]. split; [done|].
    intros Hacc _. apply A3; [done|]. congruence.
  - destruct (B f a Ha) as (B1 & B2 & B3). split; [done|]. split; [done|]. intros id' Hid'.
    destruct (B3 id' Hid') as (Hne & s' & Hs' & Hf'). split; [done|]. exists s'. split; [|done]. apply lookup_delete_Some. split; [congruence|done].
Qed.

Lemma ok_last free k w id s l :
  ok free k w → subscriptions w !! id = Some s → ok free k (set_subscriptions (<[id := set_last l s]> (subscriptions w)) w).
Proof.
  intros [A B C D] Hs. split; [|intros f a Ha|done|by destruct D]; simpl in *.
  - intros id' s' [[<- <-]|[Hne Hs']]%lookup_insert_Some; [|by auto]. by apply (A id s).
  - destruct (B f a Ha) as (B1 & B2 & B3). split; [done|]. split; [done|]. intros id' Hid'.
    destruct (B3 id' Hid') as (Hne & s' & Hs' & Hf'). split; [done|]. destruct (decide (id = id')) as [<-|Hid].
    + exists (set_last l s). rewrite lookup_insert_eq. rewrite Hs in Hs'. by injection Hs' as <-.
    + exists s'. by rewrite lookup_insert_ne.
Qed.

(** A subscription ends, with its fetch or without. *)
Lemma close_drop f fetch id w :
  same_tables (set_subscriptions (delete id (subscriptions (closeFetch f fetch w))) (closeFetch f fetch w))
    (closeFetch f fetch (set_subscriptions (delete id (subscriptions w)) w)).
Proof. unfold closeFetch. simpl. by destruct (activeFetches w !! f). Qed.

(** It has no fetch in the table. *)
Lemma ok_drop_idle id s k w :
  ok None k w → subscriptions w !! id = Some s → (∀ f, activeFetchId s = Some f → activeFetches w !! f = None) →
  ok None k (set_subscriptions (delete id (subscriptions w)) w).
Proof.
  intros [A B C D] Hs Hnone. split; [|intros f a Ha|done|by destruct D]; simpl in *.
  - intros id' s' [Hne Hs']%lookup_delete_Some. by apply (A id' s').
  - destruct (B f a Ha) as (B1 & B2 & B3). split; [done|]. split; [done|]. intros id' Hid'.
    destruct (B3 id' Hid') as (Hne & s' & Hs' & Hf'). split; [done|]. exists s'. split; [|done].
    apply lookup_delete_Some. split; [|done]. intros <-. rewrite Hs in Hs'. injection Hs' as <-. rewrite (Hnone f Hf') in Ha. done.
Qed.

Lemma ok_without k w id s fetch :
  ok None k w → subscriptions w !! id = Some s → (∀ f, activeFetchId s = Some f → default f fetch = f) →
  ok None k (match activeFetchId s with
             | Some f => closeFetch f fetch (set_subscriptions (delete id (subscriptions w)) w)
             | None => set_subscriptions (delete id (subscriptions w)) w end).
Proof.
  intros Hok Hs Hd. destruct (ok_subs _ _ _ Hok id s Hs) as (_ & A & _).
  destruct (activeFetchId s) as [f|] eqn:Hf; [|by apply (ok_drop_idle id s); [| |congruence]].
  destruct (A f eq_refl) as [_ Hsub]. destruct (activeFetches w !! f) as [a|] eqn:Ha.
  - eapply ok_tables; [apply close_drop|]. apply ok_drop. by eapply ok_close; [apply Hd| |exact Ha|apply Hsub].
  - unfold closeFetch. simpl. rewrite Ha. apply (ok_drop_idle id s); [done|done|]. rewrite Hf. by intros f' [= <-].
Qed.

Lemma ok_end k w id fetch st body error :
  ok None k w → (∀ s f, subscriptions w !! id = Some s → activeFetchId s = Some f → default f fetch = f) →
  ok None k (endSubscription id fetch st body error w).
Proof.
  intros Hok Hd. unfold endSubscription. destruct (subscriptions w !! id) as [s|] eqn:Hs; [|done].
  eapply ok_tables; [apply invoke_tables|]. apply ok_without; eauto.
Qed.

(** The one that is free. *)
Lemma ok_end_free k w id fetch st body error :
  ok (Some id) k w → (∀ s f, subscriptions w !! id = Some s → activeFetchId s = Some f → activeFetches w !! f = None) →
  ok None k (endSubscription id fetch st body error w).
Proof.
  intros Hok Hnone. unfold endSubscription. destruct (subscriptions w !! id) as [s|] eqn:Hs.
  - eapply ok_tables; [apply invoke_tables|]. destruct (activeFetchId s) as [f|] eqn:Hf; [|by apply ok_drop].
    unfold closeFetch. simpl. rewrite (Hnone s f) by done. by apply ok_drop.
  - destruct Hok as [A B C D]. split; [|intros f a Ha|done|done].
    + intros id' s' Hs'. destruct (A id' s' Hs') as (A1 & A2 & A3). split; [done|]. split; [done|]. intros Hacc _. apply A3; congruence.
    + destruct (B f a Ha) as (B1 & B2 & B3). split; [done|]. split; [done|]. intros id' Hid'. by destruct (B3 id' Hid') as (_ & HB).
Qed.

Lemma ok_unfree id k w : ok (Some id) k w → (acceptWork w = true → subscriptions w !! id = None) → ok None k w.
Proof.
  intros [A B C D] Hnone. split; [|intros f a Ha|done|done].
  - intros id' s' Hs'. destruct (A id' s' Hs') as (A1 & A2 & A3). split; [done|]. split; [done|]. intros Hacc _. apply A3; [done|].
    specialize (Hnone Hacc). congruence.
  - destruct (B f a Ha) as (B1 & B2 & B3). split; [done|]. split; [done|]. intros id' Hid'. by destruct (B3 id' Hid') as (_ & HB).
Qed.

Lemma fresh_fetch free k w : ok free k w → activeFetches w !! nextFetchId w = None.
Proof.
  intros [_ B _ _]. destruct (activeFetches w !! nextFetchId w) as [a|] eqn:E; [|done]. destruct (B _ _ E) as (B1 & _). lia.
Qed.

(** A number is taken for the fetch of a subscription. *)
Definition takes_number (id : Z) (s : SubscriptionState) (w : worker) : worker :=
  set_subscriptions (<[id := set_active (nextFetchId w) s]> (subscriptions w)) (set_nextFetch (wrapu 64 (nextFetchId w + 1)) w).

Lemma ok_number k w id s :
  ok (Some id) k w → k < 2 ^ 64 - 1 → subscriptions w !! id = Some s → ok (Some id) (k + 1) (takes_number id s w).
Proof.
  intros [A B C D] Hk Hs. assert (HW : wrapu 64 (nextFetchId w + 1) = nextFetchId w + 1) by (apply wrapu_id; unfold in_u; lia).
  split; simpl; rewrite ?HW; [| |lia|].
  - intros id' s' [[<- <-]|[Hne Hs']]%lookup_insert_Some.
    + destruct (A id s Hs) as (A1 & _). split; [done|]. split; [|done]. intros f [= <-]. split; [lia|].
      intros a Ha. destruct (B _ _ Ha) as [B1 _]. lia.
    + destruct (A id' s' Hs') as (A1 & A2 & A3). split; [done|]. split; [|done]. intros f Hf. destruct (A2 f Hf). split; [lia|done].
  - intros f a Ha. destruct (B f a Ha) as (B1 & B2 & B3). split; [lia|]. split; [done|]. intros id' Hid'.
    destruct (B3 id' Hid') as (Hne & s' & Hs' & Hf'). split; [done|]. exists s'. rewrite lookup_insert_ne by congruence. done.
  - destruct D as [D1 D2 D3]. split; simpl; [done|done|]. intros f Hf. rewrite HW. specialize (D3 f Hf). lia.
Qed.

(** The browser has taken it. *)
Lemma ok_taken k w id s a m u h b :
  ok (Some id) k w → subscriptions w !! id = Some s → activeFetchId s = Some (nextFetchId w - 1) →
  activeFetches w !! (nextFetchId w - 1) = None → f_subscription a = Some id → f_handle a = true →
  nextFetchId w - 1 ∉ opened (log w) →
  (∀ id' s' f, id' ≠ id → subscriptions w !! id' = Some s' → activeFetchId s' = Some f → f < nextFetchId w - 1) →
  ok None k (set_fetches (<[nextFetchId w - 1 := a]> (activeFetches w)) (add_log [Fetched (nextFetchId w - 1) m u h b] w)).
Proof.
  intros [A B C D] Hs Hf Hnone Ha Hh Hnew Hother. split; simpl; [| |done|apply fetched_logged; [lia|done..]].
  - intros id' s' Hs'. destruct (A id' s' Hs') as (A1 & A2 & A3). split; [done|]. split.
    { intros f Hf'. destruct (A2 f Hf') as [A4 A5]. split; [done|]. intros a' [[<- <-]|[Hne Ha']]%lookup_insert_Some; [|by apply A5].
      destruct (decide (id' = id)) as [->|Hne]; [done|]. specialize (Hother id' s' _ Hne Hs' Hf'). lia. }
    intros Hacc _.
    destruct (decide (id' = id)) as [->|Hne].
    + rewrite Hs in Hs'. injection Hs' as <-. exists (nextFetchId w - 1), a. by rewrite lookup_insert_eq.
    + destruct (A3 Hacc) as (f' & a' & Hf' & Ha' & Hid'); [congruence|]. exists f', a'. split; [done|]. split; [|done].
      rewrite lookup_insert_ne; [done|]. intros E. rewrite <- E in Ha'. congruence.
  - intros f' a' [[<- <-]|[Hne Ha']]%lookup_insert_Some.
    + split; [lia|]. split; [done|]. intros id' Hid'. split; [done|]. exists s. rewrite Ha in Hid'. injection Hid' as <-. done.
    + destruct (B f' a' Ha') as (B1 & B2 & B3). split; [done|]. split; [done|]. intros id' Hid'. by destruct (B3 id' Hid') as (_ & HB).
Qed.

Lemma ok_poll_checked mimeType k w id index :
  ok (Some id) k w → k < 2 ^ 64 - 1 → ok None (k + 1) (poll_checked mimeType id index w).
Proof.
  intros Hok Hk. unfold poll_checked.
  destruct (subscriptions w !! id) as [s|] eqn:Hs; [|apply (ok_later None k); [lia|]; by apply (ok_unfree id)].
  pose proof (ok_number k w id s Hok Hk Hs) as Hn. pose proof (fresh_fetch _ _ _ Hok) as Hfresh.
  pose proof (ok_within _ _ _ Hok) as Hw.
  assert (HW : wrapu 64 (nextFetchId w + 1) = nextFetchId w + 1) by (apply wrapu_id; unfold in_u; lia).
  assert (Hend : ∀ fetch st body error, ok None (k + 1) (endSubscription id fetch st body error (takes_number id s w))).
  { intros. apply ok_end_free; [done|]. simpl. rewrite lookup_insert_eq. by intros ? ? [= <-] [= <-]. }
  fold (takes_number id s w). destruct (poll_uri _ _) as [u|e]; cbn [rbind]; [|apply Hend].
  unfold startFetch. destruct (RestClient.query_params u) as [query|e]; cbn [rbind]; [|apply Hend].
  destruct (takes _).
  - eapply ok_tables; [|apply (ok_taken (k + 1) (takes_number id s w) id (set_active (nextFetchId w) s)
      (mkfetch (Some id) None [] true) [] [] [] []); [done| | | |done|done| |]]; simpl.
    + split; [|done]. unfold tables. simpl. rewrite HW. replace (nextFetchId w + 1 - 1) with (nextFetchId w) by lia. rewrite insert_insert_eq.
      by rewrite !opened_fetched, !closed_fetched.
    + apply lookup_insert_eq.
    + rewrite HW. f_equal. lia.
    + rewrite HW. by replace (nextFetchId w + 1 - 1) with (nextFetchId w) by lia.
    + rewrite HW. intros H%(lg_below _ (ok_logged _ _ _ Hok)). lia.
    + rewrite HW. intros id' s' f Hne Hs' Hf. rewrite lookup_insert_ne in Hs' by done.
      destruct (ok_subs _ _ _ Hok id' s' Hs') as (_ & A & _). destruct (A f Hf). lia.
  - cbn [f_subscription]. apply ok_end_free.
    + eapply ok_tables; [|exact Hn]. split; [|done]. unfold tables. simpl. by rewrite delete_insert_id.
    + simpl. rewrite lookup_insert_eq. intros ? ? [= <-] [= <-]. apply lookup_delete_eq.
Qed.

Lemma ok_poll mimeType k w id index :
  ok (Some id) k w → k < 2 ^ 64 - 1 → ok None (k + 1) (startLongPoll mimeType id index w).
Proof.
  intros Hok Hk. unfold startLongPoll. destruct (acceptWork w) eqn:Hacc; simpl;
    [|apply (ok_later None k); [lia|]; apply (ok_unfree id); congruence].
  apply ok_poll_checked; [by apply ok_checked|done].
Qed.

(** *** Commands *)

Lemma ok_report free k w c error st : ok free k w → ok free k (reportFailure c error st w).
Proof. apply ok_tables, invoke_tables. Qed.

Lemma ok_get mimeType c k w : ok None k w → k < 2 ^ 64 - 1 → ok None (k + 1) (startGetOrSet mimeType c w).2.
Proof.
  intros Hok Hk. pose proof (fresh_fetch _ _ _ Hok) as Hfresh. destruct Hok as [A B C D].
  assert (HW : wrapu 64 (nextFetchId w + 1) = nextFetchId w + 1) by (apply wrapu_id; unfold in_u; lia).
  assert (Hn : ok None (k + 1) (set_nextFetch (wrapu 64 (nextFetchId w + 1)) w)).
  { split; simpl; rewrite ?HW; [| |lia|].
    - intros id s Hs. destruct (A id s Hs) as (A1 & A2 & A3). split; [done|]. split; [|done].
      intros f Hf. destruct (A2 f Hf). split; [lia|done].
    - intros f a Ha. destruct (B f a Ha) as (B1 & B2 & B3). split; [lia|done].
    - destruct D as [D1 D2 D3]. split; simpl; [done|done|]. intros f Hf. specialize (D3 f Hf). lia. }
  unfold startGetOrSet, startFetch. destruct (RestClient.query_params _) as [query|e]; cbn [rbind snd]; [|done].
  destruct (takes _); cbn [snd f_subscription f_command].
  - simpl. rewrite insert_insert_eq. destruct Hn as [A' B' C' D']. split; simpl in *.
    + intros id s Hs. destruct (A' id s Hs) as (A1 & A2 & A3). split; [done|]. split.
      { intros f Hf. destruct (A2 f Hf) as [A4 A5]. split; [done|]. intros a [[<- <-]|[Hne Ha]]%lookup_insert_Some; [|by apply A5].
        destruct (A id s Hs) as (_ & A6 & _). destruct (A6 _ Hf). lia. }
      intros Hacc _.
      destruct (A3 Hacc) as (f & a & Hf & Ha & Hid); [done|]. exists f, a. split; [done|]. split; [|done].
      rewrite lookup_insert_ne; [done|]. intros <-. congruence.
    + intros f a [[<- <-]|[Hne Ha]]%lookup_insert_Some; [|by auto]. split; [lia|]. by split.
    + done.
    + apply (fetched_logged _ _ _ _ _ _ (set_nextFetch (wrapu 64 (nextFetchId w + 1)) w)); simpl; [lia| |done|done].
      intros H%(lg_below _ D). lia.
  - apply ok_report. eapply ok_tables; [|exact Hn]. split; [|done]. unfold tables. simpl. by rewrite delete_insert_id.
Qed.

Lemma ok_new k w c l :
  ok None k w → k < 2 ^ 64 - 1 →
  ok (Some (nextSubscriptionId w)) (k + 1)
    (set_subscriptions (<[nextSubscriptionId w := mksub c l None]> (subscriptions w))
       (set_nextSubscription (wrapu 64 (nextSubscriptionId w + 1)) w)).
Proof.
  intros [A B C D] Hk.
  assert (HW : wrapu 64 (nextSubscriptionId w + 1) = nextSubscriptionId w + 1) by (apply wrapu_id; unfold in_u; lia).
  split; simpl; rewrite ?HW; [| |lia|by destruct D].
  - intros id s [[<- <-]|[Hne Hs]]%lookup_insert_Some; [by split; [lia|]|].
    destruct (A id s Hs) as (A1 & A2 & A3). split; [lia|]. split; [done|]. intros Hacc _. by apply A3.
  - intros f a Ha. destruct (B f a Ha) as (B1 & B2 & B3). split; [done|]. split; [done|]. intros id Hid.
    destruct (B3 id Hid) as (_ & s & Hs & Hf). destruct (A id s Hs) as (A1 & _). split; [intros [= E]; lia|].
    exists s. rewrite lookup_insert_ne by lia. done.
Qed.

Lemma ok_subscribe mimeType c k w o w' :
  ok None k w → k < 2 ^ 64 - 2 → startSubscription mimeType c w = Some (o, w') → ok None (k + 2) w'.
Proof.
  intros Hok Hk. unfold startSubscription. assert (Hl : ok None (k + 2) w) by (apply (ok_later None k); [lia|done]).
  destruct (takeInitialLongPollingIndex c) as [[[index c']|error]|e]; [|intros [= <- <-]; by apply ok_report|by intros [= <- <-]].
  destruct (obind _ _) as [[[|]|e]|]; [| |by intros [= <- <-]|done]; intros [= <- <-]; [by apply ok_report|].
  replace (k + 2) with (k + 1 + 1) by lia. apply ok_poll; [apply ok_new; [done|lia]|lia].
Qed.

Lemma find_in topic l id s : find_subscription topic l = Some (Ok (Some (id, s))) → (id, s) ∈ l.
Proof.
  induction l as [|[id' s'] l IH]; simpl; [done|]. unfold obind at 1. destruct (sameSubscription _ _) as [[[|]|]|]; [|by right; auto|done..].
  intros [= <- <-]. left.
Qed.

Lemma ok_unsubscribe c k w o w' :
  ok None k w → stopSubscription c w = Some (o, w') → ok None k w'.
Proof.
  intros Hok. unfold stopSubscription. destruct (find_subscription _ _) as [[[[id s]|]|e]|] eqn:E; [|by intros [= <- <-]..|done].
  apply find_in in E. rewrite walks_subscriptions in E. apply elem_of_map_to_list in E.
  intros [= <- <-]. by apply (ok_without k w id s None).
Qed.

Lemma ok_dispatch mimeType c k w w' :
  ok None k w → k < 2 ^ 64 - 2 → dispatchCommand mimeType c w = Some w' → ok None (k + 2) w'.
Proof.
  intros Hok0 Hk. unfold dispatchCommand. destruct (negb _); [intros [= <-]; apply (ok_later None k); [lia|done]|].
  pose proof (ok_checked _ _ _ Hok0) as Hok. clear Hok0. revert Hok. generalize (checked w). clear w. intros w Hok.
  assert (Hl : ok None (k + 2) w) by (apply (ok_later None k); [lia|done]). unfold dispatch_checked.
  destruct (match RestClient.command_of c with Message.Get => _ | _ => _ end) as [[o w1]|] eqn:E; [|done].
  enough (Hw : ok None (k + 2) w1) by (destruct o; intros [= <-]; [by apply ok_report|done]).
  destruct (RestClient.command_of c); try (injection E as <- <-; by apply ok_report).
  1,2: injection E as E; pose proof (ok_get mimeType c k w Hok ltac:(lia)) as H; rewrite E in H; apply (ok_later None (k + 1)); [lia|done].
  - by apply (ok_subscribe mimeType c k w o).
  - apply (ok_later None k); [lia|]. by apply (ok_unsubscribe c k w o).
Qed.

(** *** What is decoded *)

Lemma find_sub_at s needle i : find_sub s needle = Some i → ∃ t, s = take i s ++ needle ++ t.
Proof.
  revert i. induction s as [|c s IH]; intros i; simpl.
  - destruct needle; [|done]. intros [= <-]. by exists [].
  - destruct (starts_with (c :: s) needle) eqn:E.
    + intros [= <-]. apply starts_with_true in E. exists (drop (length needle) (c :: s)). exact E.
    + destruct (find_sub s needle) as [j|]; [|done]. intros [= <-]. destruct (IH j eq_refl) as [t Ht]. exists t. simpl. by rewrite Ht at 1.
Qed.

Lemma decode_parts_nonempty b fuel rest parts ps :
  parts ≠ [] ∨ starts_with rest (b ++ str "--" ++ LongPolling.CRLF) = false →
  LongPolling.decode_parts b fuel rest parts = inl ps → ps ≠ [].
Proof.
  revert rest parts. induction fuel as [|fuel IH]; intros [|c rest] parts Hp; try done.
  cbn [LongPolling.decode_parts]. destruct (starts_with _ (b ++ str "--" ++ LongPolling.CRLF)) eqn:E.
  - destruct Hp as [Hp|Hp]; [|done]. destruct (drop _ _); [|done]. by intros [= <-].
  - clear E Hp. destruct (starts_with _ _); [|done]. cbn [negb]. unfold LongPolling.decode_part.
    destruct (find_sub _ (LongPolling.CRLF ++ LongPolling.CRLF)); [|done]. destruct (LongPolling.read_headers _ _ _ _) as [[[i|] [n'|] [t|] [v|]]|]; try done.
    destruct (n' >? _); [done|]. destruct (negb _); [done|]. destruct (starts_with _ LongPolling.CRLF); [|done].
    apply IH. left. by destruct parts.
Qed.

(** A batch that is taken has a part: its first line does not end it. *)
Lemma decoded_nonempty body ps : LongPolling.decodeBatch body = inl ps → ps ≠ [].
Proof.
  unfold LongPolling.decodeBatch. destruct (find_sub body LongPolling.CRLF) as [e|] eqn:E; [|done]. destruct (negb _); [done|].
  destruct (_ || _); [done|]. apply decode_parts_nonempty. right. destruct (starts_with body _) eqn:Es; [|done].
  apply starts_with_true in Es. apply find_sub_at in E as [t E]. rewrite E in Es at 1. rewrite <- app_assoc in Es. by apply app_inv_head in Es.
Qed.

Lemma batch_messages_last c st parts l ms l' : batch_messages c st parts l = Ok (ms, l') → parts ≠ [] → is_Some l'.
Proof.
  assert (Hsome : ∀ parts l ms l', batch_messages c st parts l = Ok (ms, l') → is_Some l → is_Some l').
  { clear. induction parts as [|p parts IH]; intros l ms l'; simpl; [by intros [= <- <-]|]. destruct (old _ _); [apply IH|].
    destruct (parseURI _ _); [|done]. cbn [rbind]. destruct (batch_messages _ _ _ _) as [[ms1 l1]|] eqn:E; [|done]. cbn [rbind].
    intros [= <- <-] _. by eapply IH. }
  destruct parts as [|p parts]; [done|]. simpl. intros H _. destruct (old l _) eqn:Ho.
  - eapply Hsome; [exact H|]. by destruct l.
  - destruct (parseURI _ _); [|done]. cbn [rbind] in H. destruct (batch_messages _ _ _ _) as [[ms1 l1]|] eqn:E; [|done].
    cbn [rbind] in H. injection H as <- <-. by eapply Hsome.
Qed.

(** *** How a fetch ends *)

Section completion.
Context (mimeType : bytes) (k : Z) (w : worker) (fetchId id : Z) (s : SubscriptionState) (a : ActiveFetch).
Hypotheses (Hk : k < 2 ^ 64 - 1) (Hok : ok None k w)
  (Ha : activeFetches w !! fetchId = Some a) (Hid : f_subscription a = Some id)
  (Hs : subscriptions w !! id = Some s) (Hf : activeFetchId s = Some fetchId).

Lemma ok_freed w' : same_tables (closeFetch fetchId (Some fetchId) w) w' → ok (Some id) k w'.
Proof. intros E. eapply ok_tables; [exact E|]. by eapply ok_close. Qed.

Lemma ok_next index w' : same_tables (closeFetch fetchId (Some fetchId) w) w' → ok None (k + 1) (startNextLongPoll mimeType id index w').
Proof. intros E. apply ok_poll; [by apply ok_freed|done]. Qed.

Lemma ok_ended st body error : ok None (k + 1) (endSubscription id (Some fetchId) st body error w).
Proof. apply (ok_later None k); [lia|]. apply ok_end; [done..|]. intros s' f Hs'. rewrite Hs in Hs'. injection Hs' as <-. rewrite Hf. by intros [= <-]. Qed.

Lemma ok_resumed c st error index : ok None (k + 1) (resumeSubscriptionAfterBatchError mimeType fetchId id c st error index w).
Proof. apply ok_next, invoke_tables. Qed.

(** The last index is noted, and the messages are handed over. *)
Lemma ok_handed l index w' :
  same_tables (closeFetch fetchId (Some fetchId) (set_subscriptions (<[id := set_last l s]> (subscriptions w)) w)) w' →
  ok None (k + 1) (startNextLongPoll mimeType id index w').
Proof.
  intros E. apply ok_poll; [|done]. eapply ok_tables; [exact E|].
  apply (ok_close k fetchId a id); [done| |done..]. by apply ok_last.
Qed.

Lemma ok_batch r : ok None (k + 1) (handleBatch mimeType fetchId id s r w).
Proof.
  unfold handleBatch. destruct (LongPolling.decodeBatch _) as [parts|e] eqn:Ed; [|apply ok_resumed].
  destruct (batch_messages _ _ _ _) as [[ms l]|e] eqn:Eb; [|apply ok_resumed].
  apply batch_messages_last in Eb as [i ->]; [|by eapply decoded_nonempty].
  apply (ok_handed (Some i)). apply invoke_all_tables with (f := λ m, m).
Qed.

Lemma ok_sample r : ok None (k + 1) (handleSample mimeType fetchId id s r w).
Proof.
  unfold handleSample. destruct (parseLongPollingIndex _) as [i|]; [|apply ok_ended].
  destruct (old _ _); [by apply ok_next|]. apply (ok_handed (Some i)), invoke_tables.
Qed.

Lemma ok_subscription r error w' : subscription_checked mimeType fetchId id r error w = Ok w' → ok None (k + 1) w'.
Proof.
  unfold subscription_checked. rewrite Hs. destruct (status r =? 504).
  - intros [= <-]. destruct (parseLongPollingIndex _); [by apply ok_next|apply ok_ended].
  - destruct error as [error|]; [intros [= <-]; apply ok_ended|].
    destruct (usesLongPollingBatch _) as [[|]|]; [| |done]; intros [= <-]; [apply ok_batch|apply ok_sample].
Qed.
End completion.

Lemma checked_active w : activeFetches (checked w) = activeFetches w.
Proof. pose proof (checked_tables w) as [E _]. by injection E. Qed.

Lemma ok_complete mimeType fetchId succeeded r k w :
  ok None k w → k < 2 ^ 64 - 1 → ok None (k + 1) (completeFetch mimeType fetchId succeeded r w).
Proof.
  intros Hok Hk. assert (Hl : ∀ w', ok None k w' → ok None (k + 1) w') by (intros; apply (ok_later None k); [lia|done]).
  unfold completeFetch. destruct (activeFetches w !! fetchId) as [a|] eqn:Ha; [|auto].
  pose proof (ok_checked _ _ _ Hok) as Hok1. assert (Ha1 : activeFetches (checked w) !! fetchId = Some a) by by rewrite checked_active.
  destruct (f_subscription a) as [id|] eqn:Hid.
  - destruct (ok_fetches _ _ _ Hok1 _ _ Ha1) as (_ & _ & B). destruct (B id Hid) as (_ & s & Hs & Hf).
    unfold handleSubscriptionCompletion. destruct (acceptWork w) eqn:Hacc; simpl; [|by apply Hl, ok_close_stopped].
    destruct (subscription_checked _ _ _ _ _ _) as [w'|e] eqn:E; [by eapply ok_subscription|].
    unfold discardFetch. rewrite Hs. by eapply ok_ended.
  - apply Hl. unfold handleGetOrSetCompletion. destruct (negb _); [by eapply ok_close_command|].
    cbv zeta. destruct (_ ≫= _); [|by eapply ok_close_command]. eapply ok_tables; [apply invoke_tables|]. by eapply ok_close_command.
Qed.

(** ** The queue *)

(** What commands and completions leave alone. *)
Definition frame (w : worker) := tasks w.

Lemma frame_checked w : frame (checked w) = frame w.
Proof. unfold checked. destruct (acceptWork w); [|done]. by destruct (stopIn w) as [|[|n]]. Qed.

Lemma frame_invoke cb m w : frame (invokeGuarded cb m w) = frame w.
Proof. unfold invokeGuarded. destruct cb; [|done]. destruct (acceptWork w); [exact (frame_checked w)|done]. Qed.

Lemma frame_report c error st w : frame (reportFailure c error st w) = frame w.
Proof. apply frame_invoke. Qed.

Lemma frame_invoke_all cb ms w : frame (foldl (λ w m, invokeGuarded cb m w) w ms) = frame w.
Proof. revert w. induction ms as [|m ms IH]; intros w; simpl; [done|]. by rewrite IH, frame_invoke. Qed.

Lemma frame_close id fetch w : frame (closeFetch id fetch w) = frame w.
Proof. unfold closeFetch. by destruct (activeFetches w !! id). Qed.

Lemma frame_subscriptions x w : frame (set_subscriptions x w) = frame w.
Proof. done. Qed.

Lemma frame_end id fetch st body error w : frame (endSubscription id fetch st body error w) = frame w.
Proof.
  unfold endSubscription. destruct (subscriptions w !! id) as [s|]; [|done]. rewrite frame_invoke.
  destruct (activeFetchId s); [by rewrite frame_close|done].
Qed.

Lemma frame_fetch mimeType id a u w w' : startFetch mimeType id a u w = Ok w' → frame w' = frame w.
Proof.
  unfold startFetch. destruct (RestClient.query_params u); [|done]. cbn [rbind]. destruct (takes _); intros [= <-]; [done|].
  destruct (f_subscription a); [by rewrite frame_end|]. destruct (f_command a); [by rewrite frame_report|done].
Qed.

Lemma frame_poll mimeType id index w : frame (startLongPoll mimeType id index w) = frame w.
Proof.
  unfold startLongPoll. destruct (negb _); [done|]. rewrite <- (frame_checked w). generalize (checked w). clear w. intros w.
  unfold poll_checked. destruct (subscriptions w !! id) as [s|]; [|done].
  destruct (rbind _ _) as [w'|e] eqn:E; [|by rewrite frame_end].
  destruct (poll_uri _ _) as [u|]; [|done]. cbn [rbind] in E. by apply frame_fetch in E as ->.
Qed.

Lemma frame_next mimeType id index w : frame (startNextLongPoll mimeType id index w) = frame w.
Proof. apply frame_poll. Qed.

Lemma frame_dispatch mimeType c w w' : dispatchCommand mimeType c w = Some w' → frame w' = frame w.
Proof.
  unfold dispatchCommand. destruct (negb _); [by intros [= <-]|]. rewrite <- (frame_checked w). generalize (checked w). clear w. intros w.
  unfold dispatch_checked.
  destruct (match RestClient.command_of c with Message.Get => _ | _ => _ end) as [[o w1]|] eqn:E; [|done].
  enough (Hw : frame w1 = frame w) by (destruct o; intros [= <-]; [by rewrite frame_report|done]).
  destruct (RestClient.command_of c); try (injection E as <- <-; by rewrite frame_report).
  1,2: injection E as E; unfold startGetOrSet in E; destruct (startFetch _ _ _ _ _) eqn:Ef; injection E as <- <-; [by apply frame_fetch in Ef as ->|done].
  - unfold startSubscription in E. destruct (takeInitialLongPollingIndex c) as [[[index c']|error]|e];
      [|injection E as <- <-; by rewrite frame_report|by injection E as <- <-].
    destruct (obind _ _) as [[[|]|e]|]; [| |by injection E as <- <-|done]; injection E as <- <-; [by rewrite frame_report|by rewrite frame_poll].
  - unfold stopSubscription in E. destruct (find_subscription _ _) as [[[[id s]|]|e]|]; [|by injection E as <- <-..|done].
    injection E as <- <-. destruct (activeFetchId s); [by rewrite frame_close|done].
Qed.

Lemma frame_subscription mimeType fetchId id r error w w' :
  subscription_checked mimeType fetchId id r error w = Ok w' → frame w' = frame w.
Proof.
  unfold subscription_checked, handleBatch, handleSample, resumeSubscriptionAfterBatchError.
  destruct (subscriptions w !! id) as [s|]; [destruct (usesLongPollingBatch _) as [[|]|]; cbn [rbind]|];
    repeat case_match; intros E; simplify_eq; repeat case_match;
    repeat first [rewrite frame_close|rewrite frame_end|rewrite frame_next|rewrite frame_report|rewrite frame_invoke_all
                 |rewrite frame_invoke|rewrite frame_subscriptions]; done.
Qed.

Lemma frame_complete mimeType fetchId succeeded r w : frame (completeFetch mimeType fetchId succeeded r w) = frame w.
Proof.
  unfold completeFetch. destruct (activeFetches w !! fetchId) as [a|]; [|done]. destruct (f_subscription a) as [id|].
  - unfold handleSubscriptionCompletion. destruct (negb _); [by rewrite frame_close|].
    destruct (subscription_checked _ _ _ _ _ _) as [w'|e] eqn:E; [apply frame_subscription in E; by rewrite E, frame_checked|].
    unfold discardFetch. destruct (subscriptions (checked w) !! id); [by rewrite frame_end, frame_checked|by rewrite frame_close, frame_checked].
  - unfold handleGetOrSetCompletion. cbv zeta. repeat case_match; by rewrite ?frame_invoke, ?frame_close, ?frame_checked.
Qed.

(** ** The end *)

Lemma close_log id fetch w : ∃ fs, log (closeFetch id fetch w) = log w ++ map FetchClosed fs.
Proof.
  unfold closeFetch. destruct (activeFetches w !! id) as [a|]; [|exists []; by rewrite app_nil_r].
  destruct fetch as [f|]; [by exists [f]|]. destruct (f_handle a); [by exists [id]|by exists []].
Qed.

Lemma close_all_log (l : list (Z * ActiveFetch)) w :
  ∃ fs, log (foldl (λ w x, closeFetch x.1 None w) w l) = log w ++ map FetchClosed fs.
Proof.
  revert w. induction l as [|x l IH]; intros w; simpl; [exists []; by rewrite app_nil_r|].
  destruct (IH (closeFetch x.1 None w)) as [fs ->]. destruct (close_log x.1 None w) as [fs' ->].
  exists (fs' ++ fs). by rewrite map_app, <- app_assoc.
Qed.

Lemma close_all_active (l : list (Z * ActiveFetch)) w f a :
  activeFetches (foldl (λ w x, closeFetch x.1 None w) w l) !! f = Some a → (f ∉ l.*1) ∧ activeFetches w !! f = Some a.
Proof.
  revert w. induction l as [|x l IH]; intros w; simpl; [split; [apply not_elem_of_nil|done]|].
  intros [Hl Ha]%IH. rewrite close_active in Ha. apply lookup_delete_Some in Ha as [Hne Ha].
  split; [|done]. rewrite not_elem_of_cons. split; [congruence|done].
Qed.

Lemma close_all_ok (l : list (Z * ActiveFetch)) k w :
  ok None k w → acceptWork w = false → ok None k (foldl (λ w x, closeFetch x.1 None w) w l).
Proof.
  revert w. induction l as [|x l IH]; intros w Hok Hacc; simpl; [done|].
  apply IH; [by apply ok_close_stopped|by rewrite close_accept].
Qed.

Lemma close_all_frame (l : list (Z * ActiveFetch)) w : frame (foldl (λ w x, closeFetch x.1 None w) w l) = frame w.
Proof. revert w. induction l as [|x l IH]; intros w; simpl; [done|]. by rewrite IH, frame_close. Qed.

Lemma close_all_accept (l : list (Z * ActiveFetch)) w : acceptWork (foldl (λ w x, closeFetch x.1 None w) w l) = acceptWork w.
Proof. revert w. induction l as [|x l IH]; intros w; simpl; [done|]. by rewrite IH, close_accept. Qed.

Record empty (w : worker) : Prop := {
  no_subscriptions : subscriptions w = ∅;
  no_fetches : activeFetches w = ∅
}.

Lemma cleanup_empty w : empty (cleanup w).
Proof.
  split; [done|]. simpl. apply map_empty. intros f. destruct (_ !! f) as [a|] eqn:E; [|done].
  apply close_all_active in E as [Hl Ha]. contradict Hl. rewrite walks_fetches. apply list_elem_of_fmap.
  exists (f, a). split; [done|]. by apply elem_of_map_to_list.
Qed.

Lemma cleanup_ok k w : ok None k w → acceptWork w = false → ok None k (cleanup w).
Proof.
  intros Hok Hacc. destruct (cleanup_empty w) as [E1 E2].
  destruct (close_all_ok (walk_fetches (activeFetches w)) k w Hok Hacc) as [A B C D]. split; rewrite ?E1, ?E2; [| |done|by destruct D].
  - intros id s. by rewrite lookup_empty.
  - intros f a. by rewrite lookup_empty.
Qed.

(** The worker goes through events; the number of tasks it has run. *)
Fixpoint handle_all (mimeType : bytes) (xs : list event) (w : worker) : option worker :=
  match xs with [] => Some w | x :: xs' => handle mimeType x w ≫= handle_all mimeType xs' end.

Fixpoint tasks_run (xs : list event) : nat :=
  match xs with [] => 0 | Task :: xs' => S (tasks_run xs') | _ :: xs' => tasks_run xs' end.

(** *** The moment of the exchange *)

Definition is_stop (e : effect) : bool := match e with Stopped => true | _ => false end.

(** What [stop] is to prevent. *)
Definition acts (e : effect) : bool := match e with Fetched _ _ _ _ _ | Called _ _ => true | _ => false end.

Fixpoint after_stop (l : list effect) : list effect :=
  match l with [] => [] | e :: l' => if is_stop e then l' else after_stop l' end.

Definition acted (l : list effect) : nat := length (filter (λ e, acts e = true) (after_stop l)).

Lemma after_stop_snoc l e :
  after_stop (l ++ [e]) = if existsb is_stop l then after_stop l ++ [e] else [].
Proof. induction l as [|x l IH]; simpl; [by destruct (is_stop e)|]. by destruct (is_stop x). Qed.

Lemma stop_snoc l e : existsb is_stop (l ++ [e]) = existsb is_stop l || is_stop e.
Proof. rewrite existsb_app. simpl. by rewrite orb_false_r. Qed.

Lemma acted_snoc l e :
  acted (l ++ [e]) = if existsb is_stop l then (acted l + if acts e then 1 else 0)%nat else 0%nat.
Proof.
  unfold acted. rewrite after_stop_snoc. destruct (existsb is_stop l); [|done].
  rewrite filter_app, length_app. f_equal. rewrite filter_cons. by destruct (acts e).
Qed.

Lemma acted_none l : existsb is_stop l = false → acted l = 0%nat.
Proof. unfold acted. induction l as [|x l IH]; simpl; [done|]. destruct (is_stop x); [done|]. exact IH. Qed.

(** The log has the exchange once the flag is cleared, and at most one act after it. *)
Record marks (w : worker) : Prop := {
  mk_flag : existsb is_stop (log w) = negb (acceptWork w);
  mk_due : cleanupDue w = true → acceptWork w = false;
  mk_after : (acted (log w) ≤ 1)%nat
}.

(** The flag was loaded; what it was loaded for is still to come. *)
Record armed (w : worker) : Prop := {
  ar_marks : marks w;
  ar_after : acted (log w) = 0%nat
}.

(** The flag, and the task that is due. *)
Definition flags (w : worker) : bool * bool := (acceptWork w, cleanupDue w).

Lemma marks_same w w' : flags w' = flags w → log w' = log w → marks w → marks w'.
Proof. intros [= E1 E2] E3 [A B C]. split; by rewrite ?E1, ?E2, ?E3. Qed.

Lemma armed_same w w' : flags w' = flags w → log w' = log w → armed w → armed w'.
Proof. intros E1 E2 [A B]. split; [by eapply marks_same|by rewrite E2]. Qed.

Lemma exchanged_armed w : acceptWork w = true → marks w → armed (exchanged w).
Proof.
  intros Hacc [A B C]. rewrite Hacc in A. assert (E : acted (log w ++ [Stopped]) = 0%nat) by (rewrite acted_snoc; by rewrite A).
  split; [split|]; simpl; [by rewrite stop_snoc, orb_true_r|done|rewrite E; lia|done].
Qed.

Lemma checked_armed w : acceptWork w = true → marks w → armed (checked w).
Proof.
  intros Hacc Hm. assert (H0 : armed w) by (split; [done|]; apply acted_none; destruct Hm as [-> _ _]; by rewrite Hacc).
  unfold checked. rewrite Hacc. destruct (stopIn w) as [|[|n]]; [done|by apply exchanged_armed|].
  apply (armed_same w); [|done..]. unfold flags. simpl. by rewrite Hacc.
Qed.

Lemma act_marks e w : is_stop e = false → armed w → marks (add_log [e] w).
Proof.
  intros He [[A B D] C]. split; simpl; [by rewrite stop_snoc, He, orb_false_r|done|]. rewrite acted_snoc, C.
  destruct (existsb is_stop (log w)), (acts e); simpl; lia.
Qed.

Lemma closed_marks f w : marks w → marks (add_log [FetchClosed f] w).
Proof.
  intros [A B C]. split; simpl; [by rewrite stop_snoc, orb_false_r|done|]. rewrite acted_snoc.
  destruct (existsb is_stop (log w)); simpl; lia.
Qed.

Lemma marks_close id fetch w : marks w → marks (closeFetch id fetch w).
Proof.
  intros Hm. unfold closeFetch. destruct (activeFetches w !! id) as [a|]; [|done].
  assert (H0 : marks (add_log [] w)) by (eapply marks_same; [|simpl; apply app_nil_r|exact Hm]; done).
  destruct fetch as [f|]; [by apply (marks_same (add_log [FetchClosed f] w)); [..|apply closed_marks]|].
  destruct (f_handle a); [by apply (marks_same (add_log [FetchClosed id] w)); [..|apply closed_marks]|by apply (marks_same (add_log [] w))].
Qed.

Lemma marks_invoke cb m w : marks w → marks (invokeGuarded cb m w).
Proof.
  intros Hm. unfold invokeGuarded. destruct cb as [j|]; [|done]. destruct (acceptWork w) eqn:Hacc; [|done].
  by apply act_marks, checked_armed.
Qed.

Lemma marks_report c error st w : marks w → marks (reportFailure c error st w).
Proof. apply marks_invoke. Qed.

Lemma marks_invoke_all cb ms w : marks w → marks (foldl (λ w m, invokeGuarded cb m w) w ms).
Proof. revert w. induction ms as [|m ms IH]; intros w Hm; simpl; [done|]. by apply IH, marks_invoke. Qed.

Lemma marks_end id fetch st body error w : marks w → marks (endSubscription id fetch st body error w).
Proof.
  intros Hm. unfold endSubscription. destruct (subscriptions w !! id) as [s|]; [|done]. apply marks_invoke.
  assert (H1 : marks (set_subscriptions (delete id (subscriptions w)) w)) by by apply (marks_same w).
  destruct (activeFetchId s); [by apply marks_close|done].
Qed.

Lemma marks_fetch mimeType id a u w w' : armed w → startFetch mimeType id a u w = Ok w' → marks w'.
Proof.
  intros Ha. unfold startFetch. destruct (RestClient.query_params u) as [q|]; [|done]. cbn [rbind]. destruct (takes _).
  - intros [= <-]. eapply marks_same; [| |apply act_marks; [|exact Ha]]; done.
  - set (w2 := set_fetches _ _). assert (H2 : marks w2) by (apply (marks_same w); [done|done|apply Ha]). intros [= <-].
    destruct (f_subscription a); [by apply marks_end|]. destruct (f_command a); [by apply marks_report|done].
Qed.

Lemma marks_poll mimeType id index w : marks w → marks (startLongPoll mimeType id index w).
Proof.
  intros Hm. unfold startLongPoll. destruct (acceptWork w) eqn:Hacc; [|done]. simpl.
  pose proof (checked_armed w Hacc Hm) as Ha. revert Ha. generalize (checked w). clear w Hm Hacc. intros w Ha.
  unfold poll_checked. destruct (subscriptions w !! id) as [s|]; [|apply Ha]. cbv zeta.
  set (w1 := set_subscriptions _ _). assert (H1 : armed w1) by by apply (armed_same w).
  destruct (rbind _ _) as [w'|e] eqn:E; [|by apply marks_end, H1].
  destruct (poll_uri _ _) as [u|]; [|done]. cbn [rbind] in E. by eapply marks_fetch.
Qed.

Lemma marks_dispatch mimeType c w w' : marks w → dispatchCommand mimeType c w = Some w' → marks w'.
Proof.
  intros Hm. unfold dispatchCommand. destruct (acceptWork w) eqn:Hacc; [|by intros [= <-]]. simpl.
  pose proof (checked_armed w Hacc Hm) as Ha. revert Ha. generalize (checked w). clear w Hm Hacc. intros w Ha.
  pose proof (ar_marks _ Ha) as Hm. unfold dispatch_checked.
  destruct (match RestClient.command_of c with Message.Get => _ | _ => _ end) as [[o w1]|] eqn:E; [|done].
  enough (Hw : marks w1) by (destruct o; intros [= <-]; [by apply marks_report|done]).
  destruct (RestClient.command_of c); try (injection E as <- <-; by apply marks_report).
  1,2: injection E as E; unfold startGetOrSet in E;
    destruct (startFetch _ _ _ _ _) eqn:Ef; injection E as <- <-; [eapply marks_fetch; [|exact Ef]|]; by apply (armed_same w) || by apply (marks_same w).
  - unfold startSubscription in E. destruct (takeInitialLongPollingIndex c) as [[[index c']|error]|e];
      [|injection E as <- <-; by apply marks_report|by injection E as <- <-].
    destruct (obind _ _) as [[[|]|e]|]; [| |by injection E as <- <-|done]; injection E as <- <-; [by apply marks_report|].
    apply marks_poll. by apply (marks_same w).
  - unfold stopSubscription in E. destruct (find_subscription _ _) as [[[[id s]|]|e]|]; [|by injection E as <- <-..|done].
    injection E as <- <-. assert (H1 : marks (set_subscriptions (delete id (subscriptions w)) w)) by by apply (marks_same w).
    destruct (activeFetchId s); [by apply marks_close|done].
Qed.

Lemma marks_subscription mimeType fetchId id r error w w' :
  marks w → subscription_checked mimeType fetchId id r error w = Ok w' → marks w'.
Proof.
  intros Hm. assert (Hl : ∀ x, marks (set_subscriptions x w)) by (intros; by apply (marks_same w)).
  unfold subscription_checked, handleBatch, handleSample, resumeSubscriptionAfterBatchError, startNextLongPoll.
  destruct (subscriptions w !! id) as [s|]; [destruct (usesLongPollingBatch _) as [[|]|]; cbn [rbind]|];
    repeat case_match; intros E; simplify_eq; repeat case_match;
    repeat first [exact Hm|apply Hl|apply marks_close|apply marks_end|apply marks_poll|apply marks_report|apply marks_invoke_all|apply marks_invoke].
Qed.

Lemma marks_complete mimeType fetchId succeeded r w : marks w → marks (completeFetch mimeType fetchId succeeded r w).
Proof.
  intros Hm. unfold completeFetch. destruct (activeFetches w !! fetchId) as [a|]; [|done]. destruct (f_subscription a) as [id|].
  - unfold handleSubscriptionCompletion. destruct (acceptWork w) eqn:Hacc; simpl; [|by apply marks_close].
    pose proof (ar_marks _ (checked_armed w Hacc Hm)) as H1.
    destruct (subscription_checked _ _ _ _ _ _) as [w'|e] eqn:E; [by eapply marks_subscription|].
    unfold discardFetch. destruct (subscriptions (checked w) !! id); [by apply marks_end|by apply marks_close].
  - unfold handleGetOrSetCompletion. destruct (acceptWork w) eqn:Hacc; simpl; [|by apply marks_close].
    pose proof (ar_marks _ (checked_armed w Hacc Hm)) as H1.
    destruct (_ ≫= _); [by apply marks_invoke, marks_close|by apply marks_close].
Qed.

Lemma marks_close_all (l : list (Z * ActiveFetch)) w : marks w → marks (foldl (λ w x, closeFetch x.1 None w) w l).
Proof. revert w. induction l as [|x l IH]; intros w Hm; simpl; [done|]. by apply IH, marks_close. Qed.

Lemma marks_cleanup w : marks w → marks (cleanup w).
Proof.
  intros Hm. apply (marks_same (foldl (λ w x, closeFetch x.1 None w) w (walk_fetches (activeFetches w)))); [done|done|].
  by apply marks_close_all.
Qed.

Lemma handle_marks mimeType x w w' : marks w → handle mimeType x w = Some w' → marks w'.
Proof.
  intros Hm. destruct x as [proxied c| |f b r|n|proxied]; simpl.
  - intros [= <-]. unfold submit. destruct (acceptWork w) eqn:Hacc; simpl; [|done].
    pose proof (ar_marks _ (checked_armed w Hacc Hm)) as H1. destruct proxied; [by apply (marks_same (checked w))|by apply marks_report].
  - unfold run_task. destruct (tasks w) as [|[c|] q]; [by intros [= <-]| |].
    + intros H. eapply marks_dispatch; [|exact H]. by apply (marks_same w).
    + intros [= <-]. apply marks_cleanup. by apply (marks_same w).
  - intros [= <-]. by apply marks_complete.
  - intros [= <-]. unfold stop. destruct (acceptWork w) eqn:Hacc; [|done]. destruct (stopIn w =? 0)%nat; [|done]. simpl.
    destruct n; [by apply exchanged_armed|].
    apply (marks_same w); [|done..]. unfold flags. simpl. by rewrite Hacc.
  - intros [= <-]. unfold stop_queues. destruct (cleanupDue w) eqn:Hd; [|done].
    assert (H1 : marks (set_stop (acceptWork w) (stopIn w) false w)) by (by destruct Hm as [A B C]).
    destruct proxied; [by apply (marks_same (set_stop (acceptWork w) (stopIn w) false w))|done].
Qed.

(** *** After the exchange *)

(** The task of [cleanup] is behind [q]. *)
Definition queued (q : list task) (w : worker) : Prop := ∃ q', tasks w = q ++ Cleanup :: q'.

Lemma halted_step mimeType x k w :
  ok None k w → acceptWork w = false →
  ∃ w', handle mimeType x w = Some w' ∧ ok None k w' ∧ acceptWork w' = false
  ∧ (∃ fs, log w' = log w ++ map FetchClosed fs) ∧ (empty w → empty w')
  ∧ ∀ q, queued q w → match x, q with Task, [] => empty w' | Task, _ :: q1 => queued q1 w' | _, _ => queued q w' end.
Proof.
  intros Hok Hacc. assert (H0 : ∃ fs, log w = log w ++ map FetchClosed fs) by (exists []; by rewrite app_nil_r).
  assert (Hsame : ∀ w', tables w' = tables w → acceptWork w' = false → log w' = log w → (∃ l, tasks w' = tasks w ++ l) → x ≠ Task →
    handle mimeType x w = Some w' →
    ∃ w', handle mimeType x w = Some w' ∧ ok None k w' ∧ acceptWork w' = false
    ∧ (∃ fs, log w' = log w ++ map FetchClosed fs) ∧ (empty w → empty w')
    ∧ ∀ q, queued q w → match x, q with Task, [] => empty w' | Task, _ :: q1 => queued q1 w' | _, _ => queued q w' end).
  { intros w' E Ea El [l Et] Hx Eh. exists w'. split; [done|]. split; [apply (ok_tables None k w); [|done]; split; [done|congruence]|].
    split; [done|]. split; [by rewrite El|]. split.
    - injection E as E1 E2 _ _ _ _. intros [F1 F2]. split; congruence.
    - intros q [q' Hq]. enough (queued q w') by (destruct x, q; done). exists (q' ++ l). by rewrite Et, Hq, <- app_assoc. }
  destruct x as [proxied c| |f b r|n|proxied].
  - apply (Hsame w); [done..|exists []; by rewrite app_nil_r|done|]. simpl. unfold submit. by rewrite Hacc.
  - unfold handle, run_task. destruct (tasks w) as [|[c|] q] eqn:Ht.
    + exists w. do 5 (split; [done|]). intros q [q' Hq]. rewrite Ht in Hq. by destruct q.
    + unfold dispatchCommand. simpl. rewrite Hacc. simpl. eexists. split; [done|].
      split; [apply (ok_tables None k w); done|]. split; [done|]. split; [done|]. split; [by intros []|].
      intros [|x q1] [q' Hq]; rewrite Ht in Hq; [done|]. injection Hq as _ Hq. by exists q'.
    + assert (Hf : frame (cleanup (set_tasks q w)) = frame (set_tasks q w)) by apply close_all_frame.
      eexists. split; [done|]. split; [apply cleanup_ok; [by apply (ok_tables None k w)|done]|].
      split; [exact (eq_trans (close_all_accept _ (set_tasks q w)) Hacc)|]. split; [apply (close_all_log _ (set_tasks q w))|]. split; [intros _; apply cleanup_empty|].
      intros [|x q1] [q' Hq]; rewrite Ht in Hq; [apply cleanup_empty|]. injection Hq as _ Hq. exists q'. unfold frame in Hf. by rewrite Hf.
  - simpl. eexists. split; [done|]. unfold completeFetch. destruct (activeFetches w !! f) as [a|] eqn:Ha;
      [|do 4 (split; [done|]); intros q Hq; by destruct q].
    replace (match f_subscription a with Some id => _ | None => _ end) with (closeFetch f (Some f) w).
    + split; [by apply ok_close_stopped|]. split; [by rewrite close_accept|]. split; [apply close_log|]. split.
      * intros [E1 E2]. split; [by rewrite close_subs|]. rewrite close_active, E2. by apply delete_empty.
      * intros q [q' Hq]. pose proof (frame_close f (Some f) w) as Hf. enough (queued q (closeFetch f (Some f) w)) by by destruct q.
        exists q'. unfold frame in Hf. by rewrite Hf.
    + destruct (f_subscription a); unfold handleSubscriptionCompletion, handleGetOrSetCompletion; by rewrite Hacc.
  - apply (Hsame w); [done..|exists []; by rewrite app_nil_r|done|]. simpl. unfold stop. by rewrite Hacc.
  - apply (Hsame (stop_queues proxied w)); [..|done|done]; unfold stop_queues; destruct (cleanupDue w); try done;
      destruct proxied; try done; [by exists [Cleanup]|..]; exists []; by rewrite app_nil_r.
Qed.

Lemma halted_run mimeType xs k w :
  ok None k w → acceptWork w = false →
  ∃ w', handle_all mimeType xs w = Some w' ∧ ok None k w' ∧ acceptWork w' = false
  ∧ (∃ fs, log w' = log w ++ map FetchClosed fs) ∧ (empty w → empty w')
  ∧ ∀ q, queued q w → (length q < tasks_run xs)%nat → empty w'.
Proof.
  revert w. induction xs as [|x xs IH]; intros w Hok Hacc; cbn [handle_all].
  { exists w. do 3 (split; [done|]). split; [exists []; by rewrite app_nil_r|]. split; [done|]. simpl. lia. }
  destruct (halted_step mimeType x k w Hok Hacc) as (w1 & -> & Hok1 & Hacc1 & [fs1 Hl1] & He1 & Hq1). simpl.
  destruct (IH w1 Hok1 Hacc1) as (w' & -> & H2 & H3 & [fs H4] & H5 & H6). exists w'. do 3 (split; [done|]).
  split; [exists (fs1 ++ fs); by rewrite H4, Hl1, map_app, <- app_assoc|]. split; [auto|].
  intros q Hq Hlt. specialize (Hq1 q Hq). destruct x; try (destruct q; simpl in Hlt; by apply (H6 _ Hq1)).
  destruct q as [|t q]; [auto|]. simpl in Hlt. apply (H6 _ Hq1). lia.
Qed.

(** ** Whole runs *)

Lemma handle_ok mimeType x k w w' :
  ok None k w → k < 2 ^ 64 - 2 → (Cleanup ∈ tasks w → acceptWork w = false) → handle mimeType x w = Some w' → ok None (k + 2) w'.
Proof.
  intros Hok Hk Hc. assert (Hl : ∀ w1, ok None k w1 → ok None (k + 2) w1) by (intros; apply (ok_later None k); [lia|done]).
  destruct x as [proxied c| |f b r|n|proxied]; simpl.
  - intros [= <-]. unfold submit. destruct (negb _); [by apply Hl|]. pose proof (ok_checked _ _ _ Hok) as H1.
    destruct proxied; [by apply Hl, (ok_tables None k (checked w))|by apply Hl, ok_report].
  - unfold run_task. destruct (tasks w) as [|[c|] q] eqn:Ht.
    + intros [= <-]. by apply Hl.
    + intros H. eapply ok_dispatch; [|exact Hk|exact H]. by apply (ok_tables None k w).
    + intros [= <-]. apply Hl, cleanup_ok; [by apply (ok_tables None k w)|]. apply Hc. left.
  - intros [= <-]. apply (ok_later None (k + 1)); [lia|]. apply ok_complete; [done|lia].
  - intros [= <-]. unfold stop. destruct (acceptWork w) eqn:Hacc; [|by apply Hl]. destruct (stopIn w =? 0)%nat; [|by apply Hl]. apply Hl.
    destruct n; apply (ok_tables None k w); try done. split; [|done]. unfold tables. simpl. by destruct (opened_stopped (log w)) as [-> ->].
  - intros [= <-]. unfold stop_queues. destruct (cleanupDue w); [|by apply Hl]. by destruct proxied; apply Hl, (ok_tables None k w).
Qed.

Lemma runs_length mimeType n w : runs mimeType n w → 0 ≤ n.
Proof. induction 1; lia. Qed.

(** What holds in every run. *)
Record kept (k : Z) (w : worker) : Prop := {
  kept_ok : ok None k w;
  kept_marks : marks w;
  kept_cleanup : Cleanup ∈ tasks w → acceptWork w = false
}.

Lemma handle_cleanup mimeType x k w w' :
  kept k w → handle mimeType x w = Some w' → Cleanup ∈ tasks w' → acceptWork w' = false.
Proof.
  intros [Hok Hm Hc] Hx. destruct (acceptWork w) eqn:Hacc.
  - assert (Hno : Cleanup ∉ tasks w) by (intros Hin; by specialize (Hc Hin)).
    enough (Hno' : Cleanup ∉ tasks w') by done. destruct x as [proxied c| |f b r|n|proxied]; simpl in Hx.
    + injection Hx as <-. unfold submit. rewrite Hacc. simpl. pose proof (frame_checked w) as Hf. unfold frame in Hf. destruct proxied; simpl.
      * rewrite Hf, not_elem_of_app, list_elem_of_singleton. done.
      * pose proof (frame_report c (str "request was not queued on the REST worker") 500 (checked w)) as Hr.
        unfold frame in Hr. cbv zeta. intros Hin. apply Hno. rewrite <- Hf, <- Hr. exact Hin.
    + unfold run_task in Hx. destruct (tasks w) as [|t q] eqn:Ht; [injection Hx as <-; by rewrite Ht|].
      rewrite not_elem_of_cons in Hno. destruct Hno as [H1 H2]. destruct t as [c|]; [|done].
      apply frame_dispatch in Hx. unfold frame in Hx. by rewrite Hx.
    + injection Hx as <-. pose proof (frame_complete mimeType f b r w) as Hf. unfold frame in Hf. by rewrite Hf.
    + injection Hx as <-. unfold stop. destruct (_ && _); [|done]. by destruct n.
    + injection Hx as <-. unfold stop_queues. destruct (cleanupDue w) eqn:Hd; [|done].
      pose proof (mk_due _ Hm Hd). congruence.
  - intros _. destruct (halted_step mimeType x k w Hok Hacc) as (w1 & E & _ & H1 & _). congruence.
Qed.

Lemma runs_kept mimeType n w : runs mimeType n w → n < 2 ^ 62 → kept (2 * n + 1) w.
Proof.
  induction 1 as [|n x w w' Hr IH Hx]; intros Hn.
  - split; [|by split; simpl; [done|done|unfold acted; simpl; lia]|by intros ?%elem_of_nil].
    split; simpl; [intros id s; by rewrite lookup_empty|intros f a; by rewrite lookup_empty|lia|].
    split; simpl; [done|constructor|by intros f ?%elem_of_nil].
  - pose proof (runs_length _ _ _ Hr). specialize (IH ltac:(lia)). pose proof IH as [Hok Hm Hc]. split.
    + replace (2 * (n + 1) + 1) with (2 * n + 1 + 2) by lia. by eapply handle_ok; [| |exact Hc|exact Hx]; [|lia].
    + by eapply handle_marks.
    + by eapply handle_cleanup.
Qed.

(** The exchange is in the log, with what comes after it. *)
Lemma after_stop_spec l : existsb is_stop l = true → ∃ before, l = before ++ Stopped :: after_stop l.
Proof.
  induction l as [|e l IH]; simpl; [done|]. destruct (is_stop e) eqn:He; [intros _; exists []; by destruct e|].
  intros H. destruct (IH H) as [b Hb]. exists (e :: b). simpl. by rewrite <- Hb.
Qed.

Lemma handle_all_runs mimeType xs n w w' :
  runs mimeType n w → handle_all mimeType xs w = Some w' → runs mimeType (n + Z.of_nat (length xs)) w'.
Proof.
  revert n w. induction xs as [|x xs IH]; intros n w Hr; simpl.
  - intros [= <-]. by rewrite Z.add_0_r.
  - destruct (handle mimeType x w) as [w1|] eqn:E; simpl; [|done]. intros H.
    replace (n + Z.of_nat (S (length xs))) with (n + 1 + Z.of_nat (length xs)) by lia. apply (IH _ w1); [|done]. by econstructor.
Qed.

(** C20: whatever commands are submitted, and whatever the browser answers or refuses
    ([completeFetch], its errors, batches and exceptions included), as long as the
    client has not been stopped each subscription in the table has exactly one fetch,
    which is its own: none stops polling, and none polls twice.
    Each fetch that was ever given by the browser has been closed once, or is in the
    table and can still be closed. *)
Theorem subscription_keeps_fetch mimeType n w :
  runs mimeType n w → n < 2 ^ 62 →
  (acceptWork w = true → ∀ id s, subscriptions w !! id = Some s →
     ∃ f a, activeFetchId s = Some f ∧ activeFetches w !! f = Some a ∧ f_subscription a = Some id)
  ∧ (∀ f a id, activeFetches w !! f = Some a → f_subscription a = Some id →
       ∃ s, subscriptions w !! id = Some s ∧ activeFetchId s = Some f)
  ∧ NoDup (opened (log w)) ∧ opened (log w) ≡ₚ closed (log w) ++ (map_to_list (activeFetches w)).*1.
Proof.
  intros Hr Hn. destruct (runs_kept mimeType n w Hr Hn) as [[A B C [D E F]] _ _]. split_and!; [| |done..].
  - intros Hacc id s Hs. by apply (A id s Hs).
  - intros f a id Ha Hid. by apply (B f a Ha).
Qed.

(** C21: A call of [stop] clears the flag between any two loads of it, also after the
    load and before the callback or the fetch that it allows.  Once it is clear: at most
    one callback or fetch has followed that moment (the one whose load came before it);
    whatever is submitted, answered and run from then on, no callback is called and no
    fetch is made, only fetches are closed; and once the task of [cleanup] has been
    queued and run, no subscription and no fetch is left, and each fetch there ever was
    has been closed once.  If that task cannot be queued, what is open stays open.  The
    failure of a command that could not be queued is reported in one step with its
    [submit]. *)
Theorem stop_releases_all mimeType n w :
  runs mimeType n w → n < 2 ^ 62 → acceptWork w = false →
  (∃ before after, log w = before ++ Stopped :: after ∧ (length (filter (λ e, acts e = true) after) ≤ 1)%nat)
  ∧ ∀ xs, ∃ w', handle_all mimeType xs w = Some w' ∧ acceptWork w' = false
    ∧ (∃ fs, log w' = log w ++ map FetchClosed fs)
    ∧ ∀ q, queued q w → (length q < tasks_run xs)%nat →
      subscriptions w' = ∅ ∧ activeFetches w' = ∅ ∧ NoDup (closed (log w')) ∧ opened (log w') ≡ₚ closed (log w').
Proof.
  intros Hr Hn Hacc. destruct (runs_kept mimeType n w Hr Hn) as [Hok [M1 _ M3] _]. rewrite Hacc in M1. split.
  - destruct (after_stop_spec _ M1) as [before E]. by exists before, (after_stop (log w)).
  - intros xs. destruct (halted_run mimeType xs _ w Hok Hacc) as (w' & H1 & H2 & H3 & H4 & _ & H6).
    exists w'. do 3 (split; [done|]). intros q Hq Hlt. destruct (H6 q Hq Hlt) as [E1 E2]. split; [done|]. split; [done|].
    destruct (ok_logged _ _ _ H2) as [D1 D2 _]. rewrite E2, map_to_list_empty, app_nil_r in D1. by rewrite <- D1.
Qed.
End fetch.

(** ** A run *)

#[local] Instance test_browser : Browser := {
  takes _ := true;
  walk_subscriptions m := map_to_list m;
  walk_fetches m := map_to_list m;
  walks_subscriptions m := reflexivity _;
  walks_fetches m := reflexivity _
}.
#[local] Existing Instance RestFollow.test_library.

Definition test_command : command :=
  Client.mkcommand (Message.mkmsg (f := Message.WithoutSourceId) tt 0 0 Message.default_timeout [] Message.Subscribe [] []
    (RestLink.base_uri (str "/weather") (str "http") (str "localhost:8080")) [] [] []) (Some 1%nat).

(** A subscription gets a notification, and there is another command. *)
Definition test_events : list event :=
  [Submit true test_command; Task;
   Completed 1 true (mkresponse 200 [] (str "sunny") (str "http://localhost:8080/weather?LongPollingIdx=7"));
   Submit true test_command].

Definition test_worker : worker := default new_worker (handle_all (str "application/json") test_events new_worker).

Lemma test_runs : runs (str "application/json") 4 test_worker.
Proof. apply (handle_all_runs _ test_events 0 new_worker); [constructor|vm_compute; reflexivity]. Qed.

(** It polls for the next one, hands over the sample, and polls for the one after. *)
Example test_log :
  omap (λ e, match e with
             | Fetched id _ u _ _ => Some (id, u)
             | FetchClosed id => Some (id, [])
             | Called cb m => Some (Z.of_nat cb, Message.data m)
             | Stopped => None
             end) (log test_worker)
  = [(1, str "http://localhost:8080/weather?LongPollingIdx=Next"); (1, []); (1, str "sunny");
     (2, str "http://localhost:8080/weather?LongPollingIdx=8")].
Proof. vm_compute. reflexivity. Qed.

Lemma subscription_keeps_fetch_witness :
  (acceptWork test_worker = true → ∀ id s, subscriptions test_worker !! id = Some s →
     ∃ f a, activeFetchId s = Some f ∧ activeFetches test_worker !! f = Some a ∧ f_subscription a = Some id)
  ∧ (∀ f a id, activeFetches test_worker !! f = Some a → f_subscription a = Some id →
       ∃ s, subscriptions test_worker !! id = Some s ∧ activeFetchId s = Some f)
  ∧ NoDup (opened (log test_worker))
  ∧ opened (log test_worker) ≡ₚ closed (log test_worker) ++ (map_to_list (activeFetches test_worker)).*1.
Proof. apply (subscription_keeps_fetch (str "application/json") 4 test_worker test_runs). lia. Defined.

(** [stop] clears the flag after the load that lets a sample be handed over, and before
    the callback; its task is queued behind the command. *)
Definition stop_events : list event :=
  test_events ++ [Stop 2; Completed 2 true (mkresponse 200 [] (str "rainy") (str "http://localhost:8080/weather?LongPollingIdx=8"));
                  StopQueues true].

Definition stopped_worker : worker := default new_worker (handle_all (str "application/json") stop_events new_worker).

Lemma stopped_runs : runs (str "application/json") 7 stopped_worker.
Proof. apply (handle_all_runs _ stop_events 0 new_worker); [constructor|vm_compute; reflexivity]. Qed.

Example stopped_log :
  drop 4 (omap (λ e, match e with
                     | Fetched id _ _ _ _ => Some (id, [])
                     | FetchClosed id => Some (id, str "closed")
                     | Called cb m => Some (Z.of_nat cb, Message.data m)
                     | Stopped => Some (0, str "stopped")
                     end) (log stopped_worker))
  = [(2, str "closed"); (0, str "stopped"); (1, str "rainy")].
Proof. vm_compute. reflexivity. Qed.

Lemma stop_releases_all_witness :
  (∃ before after, log stopped_worker = before ++ Stopped :: after ∧ (length (filter (λ e, acts e = true) after) ≤ 1)%nat)
  ∧ ∀ xs, ∃ w', handle_all (str "application/json") xs stopped_worker = Some w' ∧ acceptWork w' = false
    ∧ (∃ fs, log w' = log stopped_worker ++ map FetchClosed fs)
    ∧ ∀ q, queued q stopped_worker → (length q < tasks_run xs)%nat →
      subscriptions w' = ∅ ∧ activeFetches w' = ∅ ∧ NoDup (closed (log w')) ∧ opened (log w') ≡ₚ closed (log w').
Proof.
  apply (stop_releases_all (str "application/json") 7 stopped_worker stopped_runs); [lia|vm_compute; reflexivity].
Defined.
